(* ===== verification/_CoqProject ===== *)
-Q . S2P
Prelude.v
Model.v
GoMonad.v
GoLib.v
Table.v
Schema.v
JobStore.v
Lease.v
QueueInv.v
QueueOps.v
QueueSpec.v
QueueSystem.v
QueueTheorems.v
GoStrings.v
Glob.v
Encoding.v
Identity.v
IdentitySpec.v
Keeps.v
IdentitySystem.v
IdentityInv.v
IdentityTheorems.v
ChangeFeed.v
Reads.v
ReadTheorems.v
Resources.v
Coordinator.v
CleanupTheorems.v
Dispatcher.v
DispatchTheorems.v
DispatchLoop.v
Reconciler.v
ReconcilerTheorems.v
Capacity.v
CapacityTheorems.v
Host.v
HostTheorems.v
Retry.v
Path.v
Validate.v
ValidateTheorems.v
ControlAPI.v
ApiSystem.v
ApiTheorems.v
ApiJobs.v
Entrypoint.v
LogStream.v
LogTheorems.v
Secrets.v
SecretsTheorems.v
Swarm.v
SwarmTheorems.v
DockerAdapters.v
Limiter.v
HumanAuth.v
HumanAuthTheorems.v
Redact.v
RedactTheorems.v
Float64.v
Metrics.v
MetricsTheorems.v
Text.v
HostMetrics.v
HostMetricsTheorems.v
ServerMain.v
Recovery.v
RecoveryTheorems.v
ServerGroup.v
Oidc.v
ServerConfig.v
CliArgs.v
CliClient.v
CliTheorems.v
Console.v
ConsoleStream.v
ConsoleTheorems.v
DataPlane.v
ClientFiles.v
HttpClients.v
JobRun.v
