(* ===== verification/Prelude.v ===== *)
(** * Autback: a verification development of the control plane

    Autback runs the test jobs and image builds of many projects on one worker.
    Its control plane is a Go server around a SQLite database, with a command
    line, a web console and the entrypoint of the jobs beside it.  This library
    is a shallow embedding of that program: each Go function is a definition
    with the same name where the names allow it, composed the way the code
    composes it, and the theorems are about these definitions.

    ** The program

    - The store ([internal/control/sqlite]) keeps users, projects, tokens, jobs,
      builds, metrics and [control_queue], a first come, first served line of
      operations.  An operation waits as [queued]; the states [admitting],
      [active], [terminalizing] and [cleaning] occupy the single worker;
      [released] is final.  SQL triggers write every change into a numbered feed.
    - The control API ([internal/control/controlapi]) authenticates and validates
      the requests of clients and calls the store, the runtime and the
      dispatcher.  It streams the log of a job to the command line
      ([internal/cli]).
    - The dispatcher ([internal/control/dispatcher]) admits the head of the line
      when the worker is idle: it prepares resources and secrets, creates the
      service of a job in the scheduler and activates the operation.
    - The scheduler ([internal/control/swarmscheduler], [internal/adapter/docker])
      runs a job as a Docker Swarm service and reads its status back.
    - The entrypoint of a job ([cmd/autback-job-entrypoint]) fetches the
      workspace, loads the secrets that [internal/secrets] prepared, runs the
      command, redacts the output ([internal/operation/redact]) and bounds the
      durable log.
    - The reconciler ([internal/control/reconciler]) carries the scheduler's view
      of the jobs into the store, cancels abandoned work and removes services
      that have outlived their retention.
    - The cleanup coordinator ([internal/operation/cleanup]) tears finished
      operations down and releases the worker, once nothing they created is left.
    - The capacity controller ([internal/capacity]) guards admission by the free
      space of the worker's disk and reclaims space on the host; the collector
      ([internal/hostmetrics]) samples the host into the metrics of the store.
    - People log in through GitHub ([internal/humanauth]) and workflows through
      OIDC ([internal/control/githuboidc]); [internal/control/pki] issues the
      short-lived credentials with which clients reach the data plane.
    - The console ([internal/console]) shows projects, operations and logs, and
      follows the change feed.
    - The server ([cmd/autback-server]) configures all of this and runs it as a
      group of components ([internal/app/server]); [internal/control/recovery]
      backs the data directory up and restores it.

    The control API, the dispatcher, the reconciler and the cleanup share the
    store; the dispatcher calls the cleanup to give an operation up and runs
    inside the capacity controller's [Admit].

    ** The files

    Foundations:
    - [Prelude]: selections and updates of lists (the vocabulary of SQL tables),
      sorting, the tactics of the development.
    - [Model]: the records and enumerations of [internal/control/model.go] and
      [internal/protocol/types.go], and the error values.
    - [GoMonad]: the effects.  [M D A] is a computation over a state [D] that
      reads an [Oracle] (clock, random source, driver errors) and returns a value
      or an error; [wp] is its weakest precondition, for every oracle.
    - [GoLib]: 64-bit integers with wrap-around, hexadecimal, and programs on a
      pair of a store and a runtime.  [Keeps]: guarantees of programs by
      composition, for any preorder.
    - [GoStrings], [Encoding], [Path], [Text], [Float64]: what is used of
      [strings], [utf8], [base64], [strconv], [filepath] and [time.Duration], and
      the double-precision numbers of the metrics.
    - [Table], [Schema]: tables with unique indexes, foreign keys and the
      [AFTER] triggers of [changes.go]; the schema of [Store.migrate].

    The store:
    - [JobStore]: every method on jobs, builds and the queue.
    - [Lease]: the abstract promise, a line and a holder that move by
      [lease_step], and the abstraction [abs] of the queue table.
    - [QueueInv], [QueueOps], [QueueSpec]: the invariant [QInv], the guarantee
      [evolves], that every method keeps both, and what each call does, branch by
      branch.  [QueueSystem], [QueueTheorems]: [store_step] over every call and
      oracle, [reachable], and C1 to C3, C5 and C8.
    - [Identity], [Glob], [IdentitySpec], [IdentitySystem], [IdentityInv],
      [IdentityTheorems]: users, projects, tokens, enrollment, logins, trusts and
      the pattern matcher of trusts; C10, C11 and C17.
    - [ChangeFeed]: the feed and its readers, C22.  [Reads], [ReadTheorems]:
      lists, joins and signed page tokens, C27.
    - [Metrics], [MetricsTheorems]: [resources.go] and the migration of older
      schemas, C12 and C13.

    The components around the store:
    - [Resources], [Coordinator], [CleanupTheorems]: the cleanup, C24 and C26;
      the wake-up protocol of the coordinator's goroutine is the step relation
      [coalescer_step].
    - [Dispatcher], [DispatchTheorems]: the round of [dispatcher.go], C32;
      [DispatchLoop]: its wake-up loop as the step relation [advance_step].
    - [Reconciler], [ReconcilerTheorems]: [reconciler.go], C33 and C34.
    - [Capacity], [CapacityTheorems], [Host], [HostTheorems]: [internal/capacity],
      C38.
    - [HostMetrics], [HostMetricsTheorems]: the sampler of the host and the
      collector.
    - [Retry]: [internal/retry] and the ephemeral builders of
      [internal/buildkit], C29.

    The control API and the logins:
    - [Validate], [ValidateTheorems]: the validators of a submission.
    - [ControlAPI], [ApiSystem], [ApiTheorems], [ApiJobs]: every handler, the
      requests as one family, C9, C16 and C21 over it.
    - [LogStream], [LogTheorems]: [StreamJobLogs] with its writers and the client
      that follows it, C39.
    - [Limiter], [HumanAuth], [HumanAuthTheorems]: the rate limiter, C36, and the
      handlers of the login pages, C31.
    - [Oidc]: the verifier of workflow tokens and the sessions it opens, C19.

    The job on the worker:
    - [Secrets], [SecretsTheorems]: [internal/secrets/manager.go] and the
      directory of secrets, over a map of files, C30.
    - [Swarm], [SwarmTheorems]: [scheduler.go], [swarm.go] and [errors.go], C20,
      and the instances of the interfaces of the dispatcher and the API.
    - [DockerAdapters]: [resources.go] and [capacity.go] of the Docker adapter,
      instances of the interfaces of the cleanup and the host.
    - [Entrypoint], [Redact], [RedactTheorems]: the environment and outcome of
      the command, the redacting writer, C18, and the bounded log, C37.
    - [JobRun]: the whole of the entrypoint's [run].

    The server:
    - [ServerMain], [ServerConfig]: the environment, the configurations, the
      loops and the emergency hook of [cmd/autback-server], C7.
    - [ServerGroup]: [internal/app/server/group.go] as a step relation, C15.
    - [Recovery], [RecoveryTheorems]: backup and restore, C14 and C28.
    - [DataPlane]: the authority and the checks of [pki.go], and the proxies of
      both sides of the data plane, C25.
    - [Console], [ConsoleStream], [ConsoleTheorems]: the snapshot with its views,
      the pages and the streams of the console, C4, C23 and C40.

    The client:
    - [CliArgs], [CliClient], [CliTheorems]: the flags of every subcommand, and
      every subcommand as a program over the service and the machine, C35 and C6.
    - [ClientFiles]: the link of a repository to its project, settings, the files
      of a worktree, credentials on disk and the keyring.
    - [HttpClients]: the clients of GitHub, of the browser login and of the
      service, and the local proxy of the console.

    ** What the theorems show

    - The queue is consistent in every reachable database (C1), moves only by
      steps of the lease (C2), finished work is final (C3), submissions are
      idempotent (C5), a held worker can always be handed over (C8), and the
      emergency hook frees it (C7).
    - Whatever requests arrive, the API respects the lease and every security
      decision (C9), answers credentials only (C16), and a job in the database
      was validated (C21).
    - A token authenticates until it expires (C10) and only if it was issued and
      not revoked (C11); the trust matcher decides the meaning of a pattern
      (C17); sessions of workflows and of people are earned (C19, C31); requests
      to the login pages are limited exactly (C36); a data-plane credential opens
      its own operation while that runs, and nothing else (C25).
    - Feed consumers miss nothing (C22), pages cover the jobs (C27); a snapshot of
      the console is one state (C4), shows what may be read (C23), and a page
      catches up (C40).
    - Every accepted sample is accounted for (C12) and summaries are the
      aggregates of all of them (C13).
    - The worker is released only after a verified cleanup (C24); no wake-up is
      lost (C26, and [admission_wakeups_are_not_lost] for the dispatcher).
    - An admission round never loses its operation (C32); a reconciler round
      respects the lease (C33) and changes a job only on evidence (C34);
      admission needs capacity (C38).
    - What the scheduler creates it reports back (C20); a retry ends in its budget
      (C29).
    - A job loads exactly the secrets of its project (C30), its output is
      redacted exactly, however it is cut (C18), its durable log is bounded (C37)
      and a follower prints its log once (C39).  [job_runs_in_its_tree]: its
      command runs at most once, in the tree of the job, and is reported.
    - A restore publishes verified files or nothing (C14), and undoes a backup
      (C28); the group of components shuts down in order (C15).
    - A command abandons no work it started (C6), and its flags mean what they
      say (C35).  [link_round_trip], [settings_are_complete],
      [strangers_are_kept_out] and [authority_is_kept] are the promises of the
      files and proxies of the client and of the authority.

    Some lemmas state behaviour that the code does not intend:
    [cancelled_admission_keeps_worker], [glob_misses_literal_star],
    [unknown_member_error], [image_protection_lost],
    [requeued_job_is_declared_lost], [safe_child_accepts_root],
    [cancel_forgets_job], [dotted_secret_refused], [follow_cuts_the_tail],
    [heartbeat_panics], [roots_differ], [long_retention_is_refused],
    [nan_pressure_is_refused], [trailing_slash_refused],
    [full_tail_is_called_truncated], [slug_shadows_project],
    [half_made_authority_stays] and [cleartext_service_is_accepted].

    ** Conventions

    A [time.Time] or [time.Duration] is a number of nanoseconds in [Z], as are
    the columns of SQLite.  The driver may fail at any statement: [wp o m Q E]
    covers those executions, and theorems that promise success assume [reliable].
    SQLite runs with one connection, so a transaction is atomic; [store_step]
    lets calls follow each other in any order and does not interleave the
    statements of two calls.  Programs of the API, dispatcher, reconciler and
    cleanup run on a pair of a store and a runtime, without other goroutines
    between their steps; the exceptions are theorems over [store_step], which
    hold whatever calls come in between, and the console, whose reads have
    others' calls between them.

    Code outside the repository is a class, with the laws the code relies on as
    fields and an instance where a property needs a witness: [Pepper] (the keyed
    digest), [CaseTables] (Unicode case mapping), [CursorCodec] (JSON and HMAC of
    page tokens), [AdmissionHash] (JSON and hash of a submission),
    [ManifestCodec], [BackupCodec], [StatusCodec], [LinkJson], [SettingsJson],
    [GitHubJson], [LoginJson] (JSON), [ErrorText] (the text of an error), [X509],
    [PkiCodec] and [ClientTls] (certificates), [Sha256], [UrlParser] and
    [IpParser], [Provider] (the keys of GitHub), [SqlAggregates] (the sums of
    SQLite), [SwarmEngine], [ResourceEngine] and [CapacityEngine] (the Docker
    Engine), [HostSystem] and [Sampler] (the host), [Worktree] (Git),
    [JobMachine] (the content store, Git and the command of a job), [Keyring],
    [Network], [Machine] (the machine of the client) and [Sink] (an [io.Writer]).
    [Scheduler], [JobRuntime], [ResourceRuntime], [HostRuntime],
    [ApiDispatcher], [LogSource], [Backend], [GitHubProvider], [Snapshotter],
    [Service] and [QueuePreparer] are interfaces between components;
    [swarm_scheduler], [swarm_runtime], [docker_resources] and [docker_host]
    implement the first four over every engine, [github_provider] implements
    [GitHubProvider] over every network.

    Fuel: [glob_loop] gets one step more than the bound that [glob_loop_ends]
    proves sufficient; [decode_runes] gets the length of its input, and every
    step consumes a byte; the loop of the redactor gets the length of its buffer
    and one more, and C18 proves that it never runs out; [retry_loop] gets
    [MaxAttempts], and C29 proves that [Do] always has an outcome; following
    page tokens takes at most one page per job and one more (C27); the walk of
    [link_search] gets the depth of the directory, and [link_search_spec] leaves
    it no other end than the code's.  The readers of kernel files and durations
    and the grouping of samples consume their input.  The polls of [followJob],
    the connections of [waitServiceJob], the heartbeats and polls of the command
    line, the attempts of a snapshot and the turns of a live log are bounded by a
    number that stands for the moment the context ends.  All other recursion is
    structural.

    ** What is not modelled

    The opening of the database and the replacement of its indexes, the
    listeners, TLS handshakes and copying of bytes, the templates and assets of
    the console, the text that commands print, process groups and signals, and
    the wiring of Docker and BuildKit connections in [cmd/autback-server]: they
    are I/O or glue over third-party packages.  The generated RPC code and the
    tools of the developers (benchmark, stability, preview, contracts) are left
    out. *)
From stdpp Require Export base tactics option sets list strings numbers sorting relations.
From Stdlib Require Export ZArith Lia.

#[export] Set Default Proof Using "Type".
#[export] Set Warnings "-clear-no-such-hyp".
#[global] Open Scope Z_scope.

(** ** Boolean selections over lists, the vocabulary of the relational layer *)

Section Select.
Context {R : Type}.
Implicit Types (p q : R -> bool) (f : R -> R) (t : list R).

(** [SELECT ... WHERE p], in table order. *)
Definition select p t : list R := List.filter p t.

(** The number of rows that satisfy [p]. *)
Definition count p t : nat := length (select p t).

(** [UPDATE ... SET f WHERE p]. *)
Definition update_where p f t : list R := map (fun r => if p r then f r else r) t.

(** [DELETE ... WHERE p]. *)
Definition delete_where p t : list R := List.filter (fun r => negb (p r)) t.

Lemma elem_of_select p t r : r ∈ select p t <-> r ∈ t /\ p r = true.
Proof. unfold select. rewrite !list_elem_of_In. apply List.filter_In. Qed.

End Select.

(** ** Facts about updates *)

Section UpdateFacts.
Context {R : Type}.
Implicit Types (p : R -> bool) (f : R -> R) (t : list R).

Lemma elem_of_update p f t r :
  r ∈ update_where p f t <-> exists r0, r0 ∈ t /\ r = if p r0 then f r0 else r0.
Proof.
  unfold update_where. rewrite list_elem_of_In, List.in_map_iff.
  setoid_rewrite list_elem_of_In. split; intros (r0 & H1 & H2); eauto.
Qed.

(** A column the update does not touch keeps its values. *)
Lemma map_update_same {A} (g : R -> A) p f t :
  (forall r, r ∈ t -> p r = true -> g (f r) = g r) -> map g (update_where p f t) = map g t.
Proof.
  intros H. unfold update_where. rewrite List.map_map. apply List.map_ext_in.
  intros r Hr. apply list_elem_of_In in Hr. destruct (p r) eqn:E; auto.
Qed.

(** Nor does a selection by columns it does not touch change. *)
Lemma map_select_update {A} (g : R -> A) q p f t :
  (forall r, r ∈ t -> p r = true -> q (f r) = q r /\ g (f r) = g r) ->
  map g (select q (update_where p f t)) = map g (select q t).
Proof.
  intros H. unfold select, update_where. induction t as [|r t IH]; simpl; [done|].
  assert (Hr : q (if p r then f r else r) = q r /\ g (if p r then f r else r) = g r).
  { destruct (p r) eqn:E; [|done]. apply H; [constructor|done]. }
  assert (IH' := IH (fun x Hx => H x (list_elem_of_further _ _ _ Hx))).
  destruct Hr as [-> Hg]. destruct (q r); simpl; [by rewrite Hg, IH' | done].
Qed.

Lemma update_Forall2 (P : R -> R -> Prop) p f t :
  (forall r, P r r) -> (forall r, r ∈ t -> p r = true -> P r (f r)) -> Forall2 P t (update_where p f t).
Proof.
  intros Hrefl H. unfold update_where. induction t as [|r t IH]; simpl; constructor.
  - destruct (p r) eqn:E; [apply H; [constructor | exact E] | apply Hrefl].
  - apply IH. intros r' Hr'. apply H. by constructor.
Qed.

(** A selection whose condition the update neither establishes nor breaks. *)
Lemma count_le_one_elem p t r r' :
  (count p t <= 1)%nat -> r ∈ t -> r' ∈ t -> p r = true -> p r' = true -> r = r'.
Proof.
  intros Hc Hr Hr' Hp Hp'. unfold count in Hc.
  assert (H1 : r ∈ select p t) by (apply elem_of_select; auto).
  assert (H2 : r' ∈ select p t) by (apply elem_of_select; auto).
  destruct (select p t) as [|x [|y l]]; simpl in Hc; [by apply elem_of_nil in H1| |lia].
  apply list_elem_of_singleton in H1, H2. congruence.
Qed.

Lemma count_zero p t r : count p t = 0%nat -> r ∈ t -> p r = false.
Proof.
  intros Hc Hr. destruct (p r) eqn:E; [|done]. exfalso.
  assert (H : r ∈ select p t) by (apply elem_of_select; auto).
  unfold count in Hc. apply nil_length_inv in Hc. rewrite Hc in H. by apply elem_of_nil in H.
Qed.

Lemma count_pos p t : (0 < count p t)%nat -> exists r, r ∈ t /\ p r = true.
Proof.
  unfold count. intros H. destruct (select p t) as [|r l] eqn:E; [simpl in H; lia|].
  exists r. apply elem_of_select. rewrite E. constructor.
Qed.

Lemma NoDup_map_inj {A} (g : R -> A) t r r' :
  NoDup (map g t) -> r ∈ t -> r' ∈ t -> g r = g r' -> r = r'.
Proof.
  intros Hnd Hr Hr' E. apply list_elem_of_lookup in Hr as [i Hi]. apply list_elem_of_lookup in Hr' as [j Hj].
  assert (i = j) as ->; [|congruence].
  eapply NoDup_lookup; [exact Hnd | |].
  - change (map g t) with (g <$> t). rewrite list_lookup_fmap, Hi. reflexivity.
  - change (map g t) with (g <$> t). rewrite list_lookup_fmap, Hj. simpl. by rewrite E.
Qed.

End UpdateFacts.

(** Lists that evolve row by row and only grow at their end. *)
Definition grows {R : Type} (P : R -> R -> Prop) (l l' : list R) : Prop :=
  exists kept new, l' = kept ++ new /\ Forall2 P l kept.

Section Grows.
Context {R : Type} (P : R -> R -> Prop) (Hrefl : forall r, P r r)
        (Htrans : forall r1 r2 r3, P r1 r2 -> P r2 r3 -> P r1 r3).

Lemma grows_refl l : grows P l l.
Proof using Hrefl. exists l, []. split; [by rewrite app_nil_r|]. induction l; by constructor. Qed.

Lemma grows_trans l1 l2 l3 : grows P l1 l2 -> grows P l2 l3 -> grows P l1 l3.
Proof using Htrans.
  intros (k1 & n1 & -> & H1) (k2 & n2 & -> & H2).
  apply Forall2_app_inv_l in H2 as (a & b & Ha & Hb & ->).
  exists a, (b ++ n2). split; [by rewrite (assoc_L (++))|].
  clear Hb. revert a Ha. induction H1; intros a Ha; inversion Ha; subst; constructor; eauto.
Qed.

Lemma grows_update p f (t : list R) :
  (forall r, r ∈ t -> p r = true -> P r (f r)) -> grows P t (update_where p f t).
Proof using Hrefl.
  intros H. exists (update_where p f t), []. split; [by rewrite app_nil_r|].
  by apply update_Forall2.
Qed.

Lemma grows_snoc l r : grows P l (l ++ [r]).
Proof using Hrefl. exists l, [r]. split; [done|]. induction l; by constructor. Qed.

Lemma grows_elem l l' r : grows P l l' -> r ∈ l -> exists r', r' ∈ l' /\ P r r'.
Proof using.
  intros (k & n & -> & H) Hr. apply list_elem_of_lookup in Hr as [i Hi].
  destruct (Forall2_lookup_l _ _ _ _ _ H Hi) as (r' & Hr' & HP).
  exists r'. split; [|done]. apply elem_of_app. left. apply list_elem_of_lookup. eauto.
Qed.

End Grows.

Lemma select_app {R} (p : R -> bool) l1 l2 : select p (l1 ++ l2) = select p l1 ++ select p l2.
Proof. apply List.filter_app. Qed.

Lemma update_where_none {R} (p : R -> bool) f l :
  (forall r, r ∈ l -> p r = false) -> update_where p f l = l.
Proof.
  intros H. unfold update_where. rewrite <- (List.map_id l) at 2. apply List.map_ext_in.
  intros r Hr. apply list_elem_of_In in Hr. by rewrite H.
Qed.

(** ** Updates that hit one keyed row *)

Section Keyed.
Context {R K : Type} `{EqDecision K} (key : R -> K).

(** The table with the row that has the key of [r'] replaced by [r']. *)
Definition replace_row (r' : R) (rows : list R) : list R :=
  update_where (fun r => bool_decide (key r = key r')) (fun _ => r') rows.

Lemma update_one_row (rows : list R) (r : R) p f :
  NoDup (map key rows) -> r ∈ rows -> (forall x, x ∈ rows -> p x = true -> key x = key r) -> p r = true ->
  key (f r) = key r ->
  update_where p f rows = replace_row (f r) rows.
Proof.
  intros Hnd Hr Hp Hpr Hk. apply List.map_ext_in. intros x Hx. apply list_elem_of_In in Hx. rewrite Hk.
  case_bool_decide as E.
  - assert (x = r) as -> by (by eapply NoDup_map_inj). by rewrite Hpr.
  - destruct (p x) eqn:Ep; [|done]. by apply Hp in Ep.
Qed.

Lemma count_one_row (rows : list R) (r : R) p :
  NoDup (map key rows) -> r ∈ rows -> (forall x, x ∈ rows -> p x = true -> key x = key r) -> p r = true ->
  count p rows = 1%nat.
Proof.
  intros Hnd Hr Hp Hpr. unfold count, select. induction rows as [|x rows IH]; [by apply elem_of_nil in Hr|].
  simpl in *. apply NoDup_cons in Hnd as [Hx Hnd].
  assert (Hmiss : forall y, y ∈ rows -> key y = key r -> key x = key r -> False).
  { intros y Hy Ey Ex. apply Hx. rewrite Ex, <- Ey. by apply list_elem_of_In, List.in_map, list_elem_of_In. }
  destruct (p x) eqn:Ep.
  - simpl. f_equal. assert (Ex : key x = key r) by (apply Hp; [constructor|done]).
    destruct (List.filter p rows) as [|y l] eqn:E; [done|]. exfalso.
    assert (Hy : y ∈ select p rows) by (unfold select; rewrite E; constructor).
    apply elem_of_select in Hy as [Hy Hpy]. eapply Hmiss; [exact Hy | | exact Ex]. apply Hp; [by constructor|done].
  - apply elem_of_cons in Hr as [->|Hr]; [congruence|]. apply IH; [done|done|].
    intros y Hy. apply Hp. by constructor.
Qed.

Lemma count_none (rows : list R) (p : R -> bool) :
  (forall x, x ∈ rows -> p x = false) -> count p rows = 0%nat.
Proof.
  intros H. unfold count. destruct (select p rows) as [|x l] eqn:E; [done|].
  assert (Hx : x ∈ select p rows) by (rewrite E; constructor). apply elem_of_select in Hx as [Hx Hp].
  rewrite H in Hp by done. discriminate.
Qed.

Lemma elem_of_replace (rows : list R) (r r' x : R) :
  NoDup (map key rows) -> r ∈ rows -> key r' = key r ->
  x ∈ replace_row r' rows <->
  x = r' \/ (x ∈ rows /\ x <> r).
Proof.
  intros Hnd Hr Hk. unfold replace_row. rewrite elem_of_update. split.
  - intros (x0 & Hx0 & ->). case_bool_decide as E; [by left|]. right. split; [done|]. intros ->. congruence.
  - intros [->|[Hx Hne]].
    + exists r. split; [done|]. by rewrite bool_decide_eq_true_2.
    + exists x. split; [done|]. rewrite bool_decide_eq_false_2; [done|]. intros E. apply Hne.
      eapply NoDup_map_inj; [exact Hnd|done..|congruence].
Qed.

(** The first row with a key is the row with the key. *)
Lemma head_select_key (rows : list R) (r : R) :
  NoDup (map key rows) -> r ∈ rows -> head (select (fun x => bool_decide (key x = key r)) rows) = Some r.
Proof.
  intros Hnd Hr. destruct (select _ rows) as [|x l] eqn:E.
  - assert (Hin : r ∈ select (fun x => bool_decide (key x = key r)) rows).
    { apply elem_of_select. split; [done|]. by apply bool_decide_eq_true. }
    rewrite E in Hin. by apply elem_of_nil in Hin.
  - assert (Hx : x ∈ select (fun x => bool_decide (key x = key r)) rows) by (rewrite E; constructor).
    apply elem_of_select in Hx as [Hx Hk]. apply bool_decide_eq_true in Hk. simpl. f_equal. by eapply NoDup_map_inj.
Qed.

End Keyed.

Lemma StronglySorted_lt_NoDup (l : list Z) : StronglySorted Z.lt l -> NoDup l.
Proof.
  induction 1 as [|x l _ IH Hx]; constructor; [|done]. intros Hin. rewrite Forall_forall in Hx. specialize (Hx _ Hin). lia.
Qed.

(** ** Sorting *)

(** [ORDER BY] and [sort.Slice]: insertion into a sorted list, equal rows in the
    order they come. *)
Section OrderBy.
Context {R : Type} (le : R -> R -> bool).

Fixpoint insert_by (r : R) (l : list R) : list R :=
  match l with
  | [] => [r]
  | x :: l' => if le r x then r :: l else x :: insert_by r l'
  end.

Definition order_by (l : list R) : list R := fold_right insert_by [] l.

Lemma insert_by_perm r l : insert_by r l ≡ₚ r :: l.
Proof.
  induction l as [|x l IH]; simpl; [done|]. destruct (le r x); [done|]. rewrite IH. constructor.
Qed.

Lemma order_by_perm l : order_by l ≡ₚ l.
Proof. induction l as [|x l IH]; simpl; [done|]. rewrite insert_by_perm. by rewrite IH. Qed.

Context (le_total : forall a b, le a b = true \/ le b a = true)
        (le_trans : forall a b c, le a b = true -> le b c = true -> le a c = true).

Lemma insert_by_sorted r l :
  StronglySorted (fun a b => le a b = true) l -> StronglySorted (fun a b => le a b = true) (insert_by r l).
Proof using le_total le_trans.
  induction 1 as [|x l Hs IH Hx]; simpl; [repeat constructor|]. destruct (le r x) eqn:E.
  - constructor; [by constructor|]. constructor; [done|]. eapply Forall_impl; [exact Hx|]. eauto.
  - constructor; [done|]. rewrite insert_by_perm. constructor; [|done]. destruct (le_total r x); congruence.
Qed.

Lemma order_by_sorted l : StronglySorted (fun a b => le a b = true) (order_by l).
Proof using le_total le_trans. induction l; simpl; [constructor|]. by apply insert_by_sorted. Qed.

End OrderBy.

(** Decomposes boolean hypotheses into propositions. *)
Ltac split_bools :=
  repeat match goal with
  | H : _ && _ = true |- _ => apply andb_true_iff in H as [? ?]
  | H : _ || _ = false |- _ => apply orb_false_iff in H as [? ?]
  | H : negb _ = true |- _ => apply negb_true_iff in H
  | H : negb _ = false |- _ => apply negb_false_iff in H
  | H : bool_decide _ = true |- _ => apply bool_decide_eq_true in H
  | H : bool_decide _ = false |- _ => apply bool_decide_eq_false in H
  | H : (_ <? _) = true |- _ => apply Z.ltb_lt in H
  | H : (_ <? _) = false |- _ => apply Z.ltb_ge in H
  | H : (_ <=? _) = true |- _ => apply Z.leb_le in H
  | H : (_ <=? _) = false |- _ => apply Z.leb_gt in H
  | H : (_ =? _) = true |- _ => apply Z.eqb_eq in H
  | H : (_ =? _) = false |- _ => apply Z.eqb_neq in H
  end.

Lemma select_ext {R} (p q : R -> bool) rows : (forall r, r ∈ rows -> p r = q r) -> select p rows = select q rows.
Proof. intros H. unfold select. apply List.filter_ext_in. intros r Hr. by apply H, list_elem_of_In. Qed.

Lemma select_nil {R} (p : R -> bool) rows : select p rows = [] -> forall r, r ∈ rows -> p r = false.
Proof.
  intros H r Hr. destruct (p r) eqn:E; [|done]. exfalso. apply (elem_of_nil r). rewrite <- H. by apply elem_of_select.
Qed.

(** A selection of the same rows in another order. *)
Lemma select_perm {R} (p : R -> bool) l l' : l ≡ₚ l' -> select p l ≡ₚ select p l'.
Proof.
  unfold select. induction 1 as [|x l l' _ IH|x y l|l1 l2 l3 _ IH1 _ IH2]; simpl; [done| | |by rewrite IH1].
  - destruct (p x); [by constructor|done].
  - destruct (p x), (p y); by repeat constructor.
Qed.
