(* ===== verification/Model.v ===== *)
(** * Domain model

    The data of [internal/control/model.go] and [internal/protocol/types.go]:
    principals, projects, jobs, builds, queue operations and the error values
    the control plane distinguishes.  A [time.Time] is its number of
    nanoseconds since the Unix epoch, a [time.Duration] its number of
    nanoseconds, both as [Z]; a nil pointer is [None]. *)
From S2P Require Import Prelude.

(** Instants and durations, in nanoseconds. *)
Definition time := Z.
Definition duration := Z.

Definition Nanosecond : duration := 1.
Definition Millisecond : duration := 1000000.
Definition Second : duration := 1000000000.
Definition Minute : duration := 60 * Second.
Definition Hour : duration := 60 * Minute.

(** Go's zero [time.Time], January 1 of year 1, the value [IsZero] tests for. *)
Definition zero_time : time := -62135596800 * Second.

(** ** Errors *)

(** Why a secret could not be resolved: [secrets.ErrRevoked], [errInvalidValue],
    or an error of the provider. *)
Inductive ResolutionCause := CauseRevoked | CauseInvalidValue | CauseProvider.

#[export] Instance ResolutionCause_eq_dec : EqDecision ResolutionCause.
Proof. solve_decision. Defined.

(** The codes of [connect.Error] in use. *)
Inductive ConnectCode :=
| CodeCanceled | CodeInvalidArgument | CodeNotFound | CodeAlreadyExists | CodePermissionDenied
| CodeFailedPrecondition | CodeUnimplemented | CodeInternal | CodeUnavailable | CodeUnauthenticated
| CodeUnknown | CodeDeadlineExceeded | CodeResourceExhausted | CodeAborted.

#[export] Instance ConnectCode_eq_dec : EqDecision ConnectCode.
Proof. solve_decision. Defined.

(** What [errdefs] and the transport tell apart in an error of the container
    engine. *)
Inductive RuntimeErrKind :=
| IsNotFound | IsUnavailable | IsDeadlineExceeded | IsAborted | IsResourceExhausted | IsConflict | IsInternal
| IsTransport | IsUnexpectedEOF | IsDataLoss | IsInvalidArgument | IsNotImplemented | IsOutOfRange | IsOtherError.

#[export] Instance RuntimeErrKind_eq_dec : EqDecision RuntimeErrKind.
Proof. solve_decision. Defined.

(** The sentinel errors of [control], the errors of [database/sql] and of the
    SQLite driver that the code tells apart, the errors built from a text,
    [secrets.ResolutionError], [capacity.ResourceExhaustedError],
    [connect.Error], and the errors of the container engine. *)
Inductive Err :=
| ErrAlreadyExists
| ErrForbidden
| ErrIdempotencyConflict
| ErrInvalidPageToken
| ErrLoginPending
| ErrNotFound
| ErrUnauthenticated
| ErrNoRows
| ErrUnique
| ErrForeignKey
| ErrDriver (message : string)
| ErrText (message : string)
| ErrResolution (name : string) (cause : ResolutionCause)
| ErrResourceExhausted (freeBytes requiredBytes freeInodes requiredInodes : Z)
| ErrConnect (code : ConnectCode) (cause : Err)
| ErrRuntime (kind : RuntimeErrKind) (message : string).

#[export] Instance Err_eq_dec : EqDecision Err.
Proof. solve_decision. Defined.

(** ** Principals *)

Inductive PrincipalKind := PrincipalDevice | PrincipalGitHub | PrincipalBrowser | PrincipalSystem.

#[export] Instance PrincipalKind_eq_dec : EqDecision PrincipalKind.
Proof. solve_decision. Defined.

Record Principal := mkPrincipal {
  pr_Kind : PrincipalKind;
  pr_TokenID : string;
  pr_UserID : string;
  pr_ProjectID : string;
  pr_Admin : bool;
  pr_Subject : string
}.

Record User := mkUser {
  us_ID : string;
  us_Name : string;
  us_Admin : bool;
  us_CreatedAt : time
}.

Record Project := mkProject {
  pj_ID : string;
  pj_Slug : string;
  pj_Name : string;
  pj_ActiveImage : string;
  pj_PreviousImage : string;
  pj_AllowImageOverrides : bool;
  pj_CreatedAt : time
}.

Record ProjectImageEvent := mkImageEvent {
  ie_ID : string;
  ie_ProjectID : string;
  ie_Action : string;
  ie_Image : string;
  ie_ReplacedImage : string;
  ie_Actor : string;
  ie_CreatedAt : time
}.

(** ** Identity *)

Record ExternalIdentity := mkExternalIdentity {
  xi_Provider : string;
  xi_Subject : string;
  xi_Login : string;
  xi_UserID : string;
  xi_CreatedAt : time;
  xi_LastAuthenticatedAt : option time
}.

Record OAuthLoginState := mkOAuthLoginState {
  ols_State : string;
  ols_ReturnTo : string;
  ols_CodeVerifier : string;
  ols_CreatedAt : time;
  ols_ExpiresAt : time
}.

Record BrowserSession := mkBrowserSession { bs_Token : string; bs_UserID : string; bs_ExpiresAt : time }.

Record DeviceLogin := mkDeviceLoginInfo {
  dv_ID : string;
  dv_UserCode : string;
  dv_DeviceName : string;
  dv_CreatedAt : time;
  dv_ExpiresAt : time;
  dv_ApprovedAt : option time;
  dv_ConsumedAt : option time
}.

Record IssuedDeviceLogin := mkIssuedDeviceLogin { il_Login : DeviceLogin; il_DeviceCode : string }.

Record Bootstrap := mkBootstrap {
  bo_UserName : string;
  bo_ProjectSlug : string;
  bo_ProjectName : string;
  bo_TokenName : string
}.

Record BootstrapResult := mkBootstrapResult { bo_User : User; bo_Project : Project; bo_Token : string }.

Record DeviceToken := mkDeviceToken {
  dt_ID : string;
  dt_Name : string;
  dt_UserID : string;
  dt_CreatedAt : time;
  dt_ExpiresAt : option time;
  dt_LastUsedAt : option time;
  dt_RevokedAt : option time
}.

Record CreateDeviceTokenInput := mkCreateDeviceToken { ci_UserID : string; ci_Name : string; ci_ExpiresAt : time }.

Record IssuedDeviceToken := mkIssuedDeviceToken { it_Metadata : DeviceToken; it_Secret : string }.

Record EnrollmentCode := mkEnrollmentCode {
  ec_ID : string;
  ec_UserID : string;
  ec_DeviceName : string;
  ec_CreatedAt : time;
  ec_ExpiresAt : time;
  ec_ConsumedAt : option time;
  ec_FailedAttempts : Z;
  ec_MaxAttempts : Z
}.

Record IssuedEnrollmentCode := mkIssuedEnrollmentCode { ie_Metadata : EnrollmentCode; ie_Secret : string }.

Record GitHubTrust := mkGitHubTrust {
  tr_ID : string;
  tr_ProjectID : string;
  tr_RepositoryOwnerID : string;
  tr_RepositoryID : string;
  tr_WorkflowRef : string;
  tr_Ref : string;
  tr_Environment : string;
  tr_Events : list string;
  tr_CreatedAt : time;
  tr_RevokedAt : option time
}.

Record GitHubClaims := mkGitHubClaims {
  cl_Subject : string;
  cl_RepositoryOwnerID : string;
  cl_RepositoryID : string;
  cl_Repository : string;
  cl_WorkflowRef : string;
  cl_Ref : string;
  cl_Environment : string;
  cl_EventName : string;
  cl_ExpiresAt : time
}.

Record IssuedAccessToken := mkIssuedAccessToken { ia_Token : string; ia_ExpiresAt : time }.

(** ** Jobs *)

(** [protocol.Status]. *)
Inductive Status :=
| StatusPreparing | StatusQueued | StatusRunning | StatusSucceeded
| StatusFailed | StatusCancelled | StatusTimedOut | StatusLost.

#[export] Instance Status_eq_dec : EqDecision Status.
Proof. solve_decision. Defined.

(** [protocol.Status.Terminal]. *)
Definition Terminal (s : Status) : bool :=
  match s with
  | StatusSucceeded | StatusFailed | StatusCancelled | StatusTimedOut | StatusLost => true
  | _ => false
  end.

Record CacheMount := mkCache { cm_Name : string; cm_Target : string }.

Record SecretBinding := mkSecret { sb_Name : string; sb_Environment : string; sb_File : string }.

Record Job := mkJob {
  jb_ID : string;
  jb_ProjectID : string;
  jb_Image : string;
  jb_Command : list string;
  jb_WorkingDirectory : string;
  jb_Environment : list (string * string);
  jb_RootDigest : string;
  jb_Status : Status;
  jb_Timeout : duration;
  jb_CreatedAt : time;
  jb_StartedAt : option time;
  jb_FinishedAt : option time;
  jb_ExitCode : option Z;
  jb_ErrorMessage : string;
  jb_CancelRequested : bool;
  jb_WorkerID : string;
  jb_Caches : list CacheMount;
  jb_Secrets : list SecretBinding
}.

Record PrepareJob := mkPrepareJob {
  pp_ProjectID : string;
  pp_Image : string;
  pp_Command : list string;
  pp_WorkingDirectory : string;
  pp_Environment : list (string * string);
  pp_Timeout : duration;
  pp_Caches : list CacheMount;
  pp_Secrets : list SecretBinding
}.

Record Idempotency := mkIdempotency { id_Key : string; id_RequestHash : string }.

(** [protocol.Job], the part of a runtime report the control plane consumes. *)
Record RemoteJob := mkRemoteJob {
  rj_ID : string;
  rj_Status : Status;
  rj_WorkerID : string;
  rj_CreatedAt : time;
  rj_StartedAt : option time;
  rj_FinishedAt : option time;
  rj_CancelRequested : bool;
  rj_ExitCode : option Z;
  rj_ErrorMessage : string
}.

(** ** Builds *)

Inductive BuildStatus := BuildQueued | BuildRunning | BuildSucceeded | BuildFailed | BuildCancelled.

#[export] Instance BuildStatus_eq_dec : EqDecision BuildStatus.
Proof. solve_decision. Defined.

(** The three statuses [FinishBuild] accepts. *)
Definition build_terminal (s : BuildStatus) : bool :=
  match s with BuildSucceeded | BuildFailed | BuildCancelled => true | _ => false end.

Record Build := mkBuild {
  bd_ID : string;
  bd_ProjectID : string;
  bd_Status : BuildStatus;
  bd_CreatedAt : time;
  bd_FinishedAt : option time;
  bd_ExitCode : option Z
}.

(** ** Queue operations *)

Inductive OperationKind := OperationJob | OperationBuild.

#[export] Instance OperationKind_eq_dec : EqDecision OperationKind.
Proof. solve_decision. Defined.

Inductive OperationState :=
| OperationQueued | OperationAdmitting | OperationActive
| OperationTerminalizing | OperationCleaning | OperationReleased.

#[export] Instance OperationState_eq_dec : EqDecision OperationState.
Proof. solve_decision. Defined.

Record Operation := mkOperation {
  op_Kind : OperationKind;
  op_ID : string;
  op_State : OperationState;
  op_AcceptedAt : time;
  op_LeasedAt : option time;
  op_CleanupAttempts : Z;
  op_CleanupError : string;
  op_CleanupUpdatedAt : option time
}.

(** ** The change feed *)

Record ControlChange := mkChange {
  cc_Sequence : Z;
  cc_ProjectID : string;
  cc_EntityKind : string;
  cc_EntityID : string;
  cc_CreatedAt : time
}.
