(* ===== verification/GoMonad.v ===== *)
(** * Effects of the control plane

    A store method reads the clock and the random source, executes SQL
    statements that may fail for reasons outside the program (a cancelled
    context, an I/O error), and returns a value or an error.  [M D A] is such a
    computation over a database [D]: it reads an [Oracle] that answers for the
    environment and passes the database with a counter of the answers used.  The program
    logic of the second half lets the components reason about the database
    alone, for every behaviour of the oracles. *)
From S2P Require Import Prelude Model.

(** The outcome of a Go call that returns a value and an error. *)
Inductive res (A : Type) := Ok (a : A) | Fail (e : Err).
Arguments Ok {A} _.
Arguments Fail {A} _.

(** The answers of the environment, indexed by a counter that every read
    advances: the clock, the random source, and the errors of the driver. *)
Record Oracle := mkOracle {
  o_clock : nat -> time;
  o_rand : nat -> Z;
  o_fault : nat -> option string
}.

(** [fails o s]: at some point of the execution the driver reports [s]. *)
Definition fails (o : Oracle) (s : string) : Prop := exists n, o_fault o n = Some s.

(** An environment in which no statement fails by itself. *)
Definition reliable (o : Oracle) : Prop := forall n, o_fault o n = None.

Lemma reliable_fails o s : reliable o -> fails o s -> False.
Proof. intros H [n Hn]. specialize (H n). congruence. Qed.

Definition M (D A : Type) : Type := Oracle -> D * nat -> res A * (D * nat).

(** How the body of a transaction ends: with [Commit], or with a [return]
    before it, after which the deferred [Rollback] discards the writes. *)
Inductive tx (A : Type) := Commit (a : A) | Return (a : A).
Arguments Commit {A} _.
Arguments Return {A} _.

Section Monad.
Context {D : Type}.

#[global] Instance M_ret : MRet (M D) := fun _ a _ w => (Ok a, w).
#[global] Instance M_bind : MBind (M D) := fun _ _ k m o w =>
  match m o w with
  | (Ok a, w') => k a o w'
  | (Fail e, w') => (Fail e, w')
  end.

#[global] Instance M_fmap : FMap (M D) := fun _ _ f m => m ≫= fun a => mret (f a).

(** Return an error. *)
Definition throw {A} (e : Err) : M D A := fun _ w => (Fail e, w).

(** Run a call whose error the code inspects instead of returning it. *)
Definition attempt {A} (m : M D A) : M D (res A) :=
  fun o w => let (r, w') := m o w in (Ok r, w').

(** [time.Now().UTC()]. *)
Definition time_Now : M D time := fun o '(d, n) => (Ok (o_clock o n), (d, S n)).

(** One byte of [crypto/rand]. *)
Definition rand_byte : M D Z := fun o '(d, n) => (Ok (o_rand o n mod 256), (d, S n)).

(** A point at which the database driver or the operating system may report
    an error of its own. *)
Definition may_fail : M D unit := fun o '(d, n) =>
  match o_fault o n with
  | Some message => (Fail (ErrDriver message), (d, S n))
  | None => (Ok tt, (d, S n))
  end.

(** The current database, and its replacement. *)
Definition get_db : M D D := fun _ '(d, n) => (Ok d, (d, n)).
Definition put_db (d : D) : M D unit := fun _ '(_, n) => (Ok tt, (d, n)).

(** A read of the database. *)
Definition query {A} (f : D -> A) : M D A := _ ← may_fail; d ← get_db; mret (f d).

(** A statement that changes the database or is refused by a constraint. *)
Definition statement {A} (f : D -> res (A * D)) : M D A :=
  _ ← may_fail; d ← get_db;
  match f d with
  | Ok (a, d') => _ ← put_db d'; mret a
  | Fail e => throw e
  end.

(** [QueryRow(...).Scan(...)]: no row is [sql.ErrNoRows]. *)
Definition query_row {A} (f : D -> option A) : M D A :=
  r ← query f; match r with Some a => mret a | None => throw ErrNoRows end.

(** [BeginTx], a body and a deferred [Rollback]: an error on the way, the one
    of [Commit] included, leaves the database as it was. *)
Definition transaction {A} (m : M D (tx A)) : M D A := fun o '(d, n) =>
  match (may_fail ≫= fun _ => m) o (d, n) with
  | (Ok (Commit a), w') =>
      match may_fail o w' with
      | (Ok _, w2) => (Ok a, w2)
      | (Fail e, (_, n2)) => (Fail e, (d, n2))
      end
  | (Ok (Return a), (_, n')) => (Ok a, (d, n'))
  | (Fail e, (_, n')) => (Fail e, (d, n'))
  end.

(** [rand.Read] into a buffer of [n] bytes. *)
Fixpoint rand_bytes (n : nat) : M D (list Z) :=
  match n with
  | O => mret []
  | S n' => b ← rand_byte; bs ← rand_bytes n'; mret (b :: bs)
  end.

Definition rand_Read (n : nat) : M D (list Z) := _ ← may_fail; rand_bytes n.

(** ** Program logic *)

(** [wp o m Q E d]: from the database [d], at whatever point of the oracle [o],
    [m] either returns some [a] in a database that satisfies [Q a], or an error
    [e] in a database that satisfies [E e]. *)
Definition wp {A} (o : Oracle) (m : M D A) (Q : A -> D -> Prop) (E : Err -> D -> Prop) (d : D) : Prop :=
  forall n,
    match m o (d, n) with
    | (Ok a, (d', _)) => Q a d'
    | (Fail e, (d', _)) => E e d'
    end.

Context (o : Oracle).
Implicit Types (d : D) (E : Err -> D -> Prop).

Lemma wp_ret {A} (a : A) Q E d : Q a d -> wp o (mret a) Q E d.
Proof. intros H n. exact H. Qed.

Lemma wp_throw {A} e (Q : A -> D -> Prop) E d : E e d -> wp o (throw e) Q E d.
Proof. intros H n. exact H. Qed.

Lemma wp_bind {A B} (m : M D A) (k : A -> M D B) Q E d :
  wp o m (fun a d' => wp o (k a) Q E d') E d -> wp o (m ≫= k) Q E d.
Proof.
  intros H n. specialize (H n). unfold mbind, M_bind.
  destruct (m o (d, n)) as [[a|e] [d' n']]; [apply H | exact H].
Qed.

Lemma wp_fmap {A B} (f : A -> B) (m : M D A) Q E d :
  wp o m (fun a d' => Q (f a) d') E d -> wp o (f <$> m) Q E d.
Proof.
  intros H. apply wp_bind. intros n. specialize (H n).
  destruct (m o (d, n)) as [[a|e] [d' n']]; [by apply wp_ret | exact H].
Qed.

Lemma wp_mono {A} (m : M D A) (Q Q' : A -> D -> Prop) E E' d :
  wp o m Q E d -> (forall a d', Q a d' -> Q' a d') -> (forall e d', E e d' -> E' e d') ->
  wp o m Q' E' d.
Proof.
  intros H HQ HE n. specialize (H n).
  destruct (m o (d, n)) as [[a|e] [d' n']]; auto.
Qed.

Lemma wp_and {A} (m : M D A) (Q Q' : A -> D -> Prop) E E' d :
  wp o m Q E d -> wp o m Q' E' d ->
  wp o m (fun a d' => Q a d' /\ Q' a d') (fun e d' => E e d' /\ E' e d') d.
Proof.
  intros H1 H2 n. specialize (H1 n). specialize (H2 n).
  destruct (m o (d, n)) as [[a|e] [d' n']]; auto.
Qed.

Lemma wp_attempt {A} (m : M D A) Q E d :
  wp o m (fun a d' => Q (Ok a) d') (fun e d' => Q (Fail e) d') d -> wp o (attempt m) Q E d.
Proof.
  intros H n. specialize (H n). unfold attempt.
  destruct (m o (d, n)) as [[a|e] [d' n']]; exact H.
Qed.

Lemma wp_now Q E d : (forall t, Q t d) -> wp o time_Now Q E d.
Proof. intros H n. apply H. Qed.

(** The clock is the one of the environment. *)
Lemma wp_clock Q E d : (forall n, Q (o_clock o n) d) -> wp o time_Now Q E d.
Proof. intros H n. apply H. Qed.

Lemma wp_may_fail Q E d :
  Q tt d -> (forall s, fails o s -> E (ErrDriver s) d) -> wp o may_fail Q E d.
Proof.
  intros H1 H2 n. unfold may_fail. destruct (o_fault o n) eqn:F; [apply H2; by exists n | exact H1].
Qed.

Lemma wp_get_db Q E d : Q d d -> wp o get_db Q E d.
Proof. intros H n. exact H. Qed.

Lemma wp_put_db d' Q E d : Q tt d' -> wp o (put_db d') Q E d.
Proof. intros H n. exact H. Qed.

Lemma wp_query {A} (f : D -> A) Q E d :
  Q (f d) d -> (forall s, fails o s -> E (ErrDriver s) d) -> wp o (query f) Q E d.
Proof.
  intros H1 H2. apply wp_bind, wp_may_fail; [|exact H2].
  by apply wp_bind, wp_get_db, wp_ret.
Qed.

Lemma wp_statement {A} (f : D -> res (A * D)) Q E d :
  match f d with Ok (a, d') => Q a d' | Fail e => E e d end ->
  (forall s, fails o s -> E (ErrDriver s) d) -> wp o (statement f) Q E d.
Proof.
  intros H1 H2. apply wp_bind, wp_may_fail; [|exact H2]. apply wp_bind, wp_get_db.
  destruct (f d) as [[a d']|e]; [by apply wp_bind, wp_put_db, wp_ret | by apply wp_throw].
Qed.

Lemma wp_query_row {A} (f : D -> option A) Q E d :
  match f d with Some a => Q a d | None => E ErrNoRows d end ->
  (forall s, fails o s -> E (ErrDriver s) d) -> wp o (query_row f) Q E d.
Proof.
  intros H1 H2. apply wp_bind, wp_query; [|exact H2].
  destruct (f d); [apply wp_ret | apply wp_throw]; exact H1.
Qed.

Lemma wp_transaction {A} (m : M D (tx A)) Q E d :
  wp o m (fun r d' => match r with Commit a => Q a d' | Return a => Q a d end) (fun e _ => E e d) d ->
  (forall s, fails o s -> E (ErrDriver s) d) -> wp o (transaction m) Q E d.
Proof.
  intros H1 H2 n. unfold transaction.
  assert (H : wp o (may_fail ≫= fun _ => m)
                 (fun r d' => match r with Commit a => Q a d' | Return a => Q a d end)
                 (fun e _ => E e d) d).
  { apply wp_bind, wp_may_fail; auto. }
  specialize (H n). destruct ((may_fail ≫= fun _ => m) o (d, n)) as [[[a|a]|e] [d' n']]; try exact H.
  unfold may_fail. destruct (o_fault o n') eqn:F; [apply H2; by exists n' | exact H].
Qed.

Lemma wp_rand_byte Q E d : (forall b, 0 <= b < 256 -> Q b d) -> wp o rand_byte Q E d.
Proof. intros H n. apply H, Z.mod_pos_bound. lia. Qed.

Lemma wp_rand_bytes n Q E d :
  (forall bs, length bs = n -> Forall (fun b => 0 <= b < 256) bs -> Q bs d) ->
  wp o (rand_bytes n) Q E d.
Proof.
  revert Q. induction n as [|n IH]; intros Q H; simpl.
  - apply wp_ret, H; constructor.
  - apply wp_bind, wp_rand_byte. intros b Hb. apply wp_bind, IH. intros bs Hlen Hbs.
    apply wp_ret. apply H; [by rewrite <- Hlen | by constructor].
Qed.

Lemma wp_rand_Read n Q E d :
  (forall bs, length bs = n -> Forall (fun b => 0 <= b < 256) bs -> Q bs d) ->
  (forall s, fails o s -> E (ErrDriver s) d) -> wp o (rand_Read n) Q E d.
Proof. intros H1 H2. apply wp_bind, wp_may_fail; [by apply wp_rand_bytes | exact H2]. Qed.

End Monad.

(** Symbolic execution: decompose the head of the program. *)
Ltac wp_step :=
  match goal with
  | |- wp _ (_ ≫= _) _ _ _ => apply wp_bind
  | |- wp _ (_ <$> _) _ _ _ => apply wp_fmap
  | |- wp _ (mret _) _ _ _ => apply wp_ret
  | |- wp _ (throw _) _ _ _ => apply wp_throw
  | |- wp _ (attempt _) _ _ _ => apply wp_attempt
  | |- wp _ time_Now _ _ _ => apply wp_now; intros ?
  | |- wp _ may_fail _ _ _ => apply wp_may_fail
  | |- wp _ (query_row _) _ _ _ => apply wp_query_row
  | |- wp _ (query _) _ _ _ => apply wp_query
  | |- wp _ (statement _) _ _ _ => apply wp_statement
  | |- wp _ (transaction _) _ _ _ => apply wp_transaction
  | |- wp _ get_db _ _ _ => apply wp_get_db
  | |- wp _ (put_db _) _ _ _ => apply wp_put_db
  | |- wp _ (rand_Read _) _ _ _ => apply wp_rand_Read; [intros ? ? ?|]
  end.
