(* ===== verification/GoLib.v ===== *)
(** * The Go library functions the store calls

    Fixed-width integers, hexadecimal encoding, and the conversion helpers at
    the end of [internal/control/sqlite/store.go]. *)

From Stdlib Require Import Ascii.
From S2P Require Import Prelude Model GoMonad.

(** ** Machine integers *)

(** The value of [z] in a two's complement [int64] and in a [uint64]. *)
Definition wrap64 (z : Z) : Z := (z + 2 ^ 63) mod 2 ^ 64 - 2 ^ 63.
Definition wrapu64 (z : Z) : Z := z mod 2 ^ 64.

Lemma wrap64_id z : - 2 ^ 63 <= z < 2 ^ 63 -> wrap64 z = z.
Proof. intros H. unfold wrap64. rewrite Z.mod_small; lia. Qed.

Lemma wrap64_range z : - 2 ^ 63 <= wrap64 z < 2 ^ 63.
Proof. unfold wrap64. pose proof (Z.mod_pos_bound (z + 2 ^ 63) (2 ^ 64)). lia. Qed.

Lemma wrapu64_id z : 0 <= z < 2 ^ 64 -> wrapu64 z = z.
Proof. apply Z.mod_small. Qed.

(** [time.Time.UnixNano], an [int64] computed with wrap-around. *)
Definition unix (value : time) : Z := wrap64 value.

(** [time.Unix(0, value).UTC()]. *)
Definition fromUnix (value : Z) : time := value.

(** [time.Duration.Milliseconds], and back. *)
Definition Milliseconds (d : duration) : Z := Z.quot d Millisecond.
Definition from_millis (ms : Z) : duration := wrap64 (ms * Millisecond).

(** ** Strings *)

Definition hex_digit (n : Z) : ascii :=
  ascii_of_nat (Z.to_nat (if n <? 10 then 48 + n else 87 + n)).

(** [hex.EncodeToString]. *)
Fixpoint hex_encode (bytes : list Z) : string :=
  match bytes with
  | [] => ""
  | b :: rest => String (hex_digit (b / 16)) (String (hex_digit (b mod 16)) (hex_encode rest))
  end.

(** [randomID]: a prefix and twelve random bytes in hexadecimal. *)
Definition randomID {D : Type} (prefix : string) : M D string :=
  value ← rand_Read 12; mret (prefix +:+ hex_encode value).

(** * Programs over the store and a runtime

    The dispatcher and the cleanup act on two things: the database of the store
    and the container runtime.  A program on one of them is lifted to a program
    on the pair. *)

Section Lift.
Context {D R : Type}.

Definition on_store {A} (m : M D A) : M (D * R) A := fun o '((d, r), n) =>
  let '(a, (d', n')) := m o (d, n) in (a, ((d', r), n')).

Definition on_runtime {A} (m : M R A) : M (D * R) A := fun o '((d, r), n) =>
  let '(a, (r', n')) := m o (r, n) in (a, ((d, r'), n')).

Context (o : Oracle).

Lemma wp_on_store {A} (m : M D A) (Q : A -> D * R -> Prop) (E : Err -> D * R -> Prop) d r :
  wp o m (fun a d' => Q a (d', r)) (fun e d' => E e (d', r)) d -> wp o (on_store m) Q E (d, r).
Proof.
  intros H n. specialize (H n). unfold on_store. destruct (m o (d, n)) as [[a|e] [d' n']]; exact H.
Qed.

Lemma wp_on_runtime {A} (m : M R A) (Q : A -> D * R -> Prop) (E : Err -> D * R -> Prop) d r :
  wp o m (fun a r' => Q a (d, r')) (fun e r' => E e (d, r')) r -> wp o (on_runtime m) Q E (d, r).
Proof.
  intros H n. specialize (H n). unfold on_runtime. destruct (m o (r, n)) as [[a|e] [r' n']]; exact H.
Qed.

End Lift.

(** An error with the context that [fmt.Errorf] puts before it, and the errors
    that [errors.Join] collects: none is [nil]. *)
Record WrappedErr := mkWrapped { we_context : string; we_cause : Err }.
Definition JoinedErr := list WrappedErr.

(** Run a call whose error is collected under a context. *)
Definition collect {W A : Type} (context : string) (m : M W A) : M W (JoinedErr) :=
  r ← attempt m;
  mret match r with Ok _ => [] | Fail e => [mkWrapped context e] end.
