(* ===== verification/Table.v ===== *)
(** * The relational layer

    What the store uses of SQLite: tables with unique indexes and foreign
    keys, single-statement inserts, updates and deletes that report the number
    of rows they changed, and the [AFTER] triggers that
    [internal/control/sqlite/changes.go] installs to append one
    [control_changes] row for every row a statement touches, with the
    retention trigger that keeps the last 10,001 of them. *)
From S2P Require Import Prelude Model GoMonad.

(** ** The change feed *)

(** [control_changes]: its rows in sequence order and the [AUTOINCREMENT]
    counter. *)
Record Feed := mkFeed { fd_rows : list ControlChange; fd_seq : Z }.

(** The rows the retention trigger leaves after an insert at [sequence]. *)
Definition retained (sequence : Z) (c : ControlChange) : bool :=
  negb (cc_Sequence c <? sequence - 10000).

(** The body of an [autback_change_*] trigger followed by
    [autback_changes_retention]; [now] is the clock SQLite reads. *)
Definition record_change (now : time) (project kind id : string) (f : Feed) : Feed :=
  let seq := fd_seq f + 1 in
  let row := mkChange seq project kind id (now / Second * Second) in
  mkFeed (select (retained seq) (fd_rows f ++ [row])) seq.

(** A database: the tables of the store and the change feed. *)
Record DB (T : Type) := mkDB { tabs : T; feed : Feed }.
Arguments mkDB {T}.
Arguments tabs {T} _.
Arguments feed {T} _.

(** ** Tables *)

Record Table (T R : Type) := mkTable {
  t_rows : T -> list R;
  t_set : list R -> T -> T;
  t_bump : T -> T;                            (* the AUTOINCREMENT counter *)
  t_valid : list R -> bool;                   (* PRIMARY KEY and UNIQUE *)
  t_refs : T -> R -> bool;                    (* REFERENCES *)
  t_change : option (T -> R -> string * string * string)  (* the change triggers *)
}.
Arguments t_rows {T R} _ _.
Arguments t_set {T R} _ _ _.
Arguments t_bump {T R} _ _.
Arguments t_valid {T R} _ _.
Arguments t_refs {T R} _ _ _.
Arguments t_change {T R} _.

Section Statements.
Context {T R : Type} (tb : Table T R).
Implicit Types (d : DB T) (p : R -> bool) (f : R -> R) (E : Err -> DB T -> Prop) (o : Oracle).

(** Fire the change triggers for the [rows] of a statement. *)
Definition fire (now : time) (rows : list R) (t : T) (fd : Feed) : Feed :=
  match t_change tb with
  | None => fd
  | Some describe =>
      fold_left (fun fd r => let '(project, kind, id) := describe t r in record_change now project kind id fd) rows fd
  end.

(** [UPDATE tb SET f WHERE p], where [p] and [f] may contain sub-queries.  A row
    whose references hold must keep them; an update that leaves the referencing
    columns alone passes. *)
Definition update_rows (now : time) (p : T -> R -> bool) (f : T -> R -> R) (d : DB T) : res (Z * DB T) :=
  let t := tabs d in
  let hit := map (f t) (select (p t) (t_rows tb t)) in
  let rows := update_where (p t) (f t) (t_rows tb t) in
  if negb (t_valid tb rows) then Fail ErrUnique
  else if negb (forallb (fun r => implb (t_refs tb t r) (t_refs tb t (f t r))) (select (p t) (t_rows tb t)))
  then Fail ErrForeignKey
  else let t' := t_set tb rows t in
       Ok (Z.of_nat (length hit), mkDB t' (fire now hit t' (feed d))).

(** [INSERT INTO tb VALUES (mk)], [mk] given the state of the counters. *)
Definition insert_row (now : time) (mk : T -> R) (d : DB T) : res (unit * DB T) :=
  let t := tabs d in
  let rows := t_rows tb t ++ [mk t] in
  if negb (t_valid tb rows) then Fail ErrUnique
  else if negb (t_refs tb t (mk t)) then Fail ErrForeignKey
  else let t' := t_set tb rows (t_bump tb t) in
       Ok (tt, mkDB t' (fire now [mk t] t' (feed d))).

(** [DELETE FROM tb WHERE p]. *)
Definition delete_rows (now : time) (p : R -> bool) (d : DB T) : res (Z * DB T) :=
  let t := tabs d in
  let hit := select p (t_rows tb t) in
  let t' := t_set tb (delete_where p (t_rows tb t)) t in
  Ok (Z.of_nat (length hit), mkDB t' (fire now hit t' (feed d))).

Definition exec_update_with (p : T -> R -> bool) (f : T -> R -> R) : M (DB T) Z :=
  now ← time_Now; statement (update_rows now p f).

Definition exec_update (p : R -> bool) (f : R -> R) : M (DB T) Z :=
  exec_update_with (fun _ => p) (fun _ => f).

Definition exec_insert_with (mk : T -> R) : M (DB T) unit :=
  now ← time_Now; statement (insert_row now mk).

Definition exec_insert (r : R) : M (DB T) unit := exec_insert_with (fun _ => r).

(** [INSERT OR IGNORE] and [ON CONFLICT DO NOTHING]: a uniqueness conflict
    inserts no row; a missing reference is still an error. *)
Definition exec_insert_ignore (r : R) : M (DB T) Z :=
  now ← time_Now;
  statement (fun d =>
    match insert_row now (fun _ => r) d with
    | Ok (_, d') => Ok (1, d')
    | Fail ErrUnique => Ok (0, d)
    | Fail e => Fail e
    end).

Definition exec_delete (p : R -> bool) : M (DB T) Z :=
  now ← time_Now; statement (delete_rows now p).

(** ** Rules *)

Lemma wp_update_with o (p : T -> R -> bool) (f : T -> R -> R) (Q : Z -> DB T -> Prop) E d :
  let rows := update_where (p (tabs d)) (f (tabs d)) (t_rows tb (tabs d)) in
  (t_valid tb rows = true -> forall fd,
     Q (Z.of_nat (count (p (tabs d)) (t_rows tb (tabs d)))) (mkDB (t_set tb rows (tabs d)) fd)) ->
  E ErrUnique d -> E ErrForeignKey d -> (forall s, fails o s -> E (ErrDriver s) d) ->
  wp o (exec_update_with p f) Q E d.
Proof.
  intros rows H Hu Hf He. apply wp_bind, wp_now. intros now. apply wp_statement; [|exact He].
  unfold update_rows. fold rows. destruct (t_valid tb rows); simpl; [|exact Hu].
  destruct (forallb _ _); simpl; [|exact Hf]. unfold count in H. rewrite length_map. by apply H.
Qed.

(** An update that touches no row. *)
Lemma wp_update_none o (p : T -> R -> bool) (f : T -> R -> R) (Q : Z -> DB T -> Prop) E d :
  (forall r, r ∈ t_rows tb (tabs d) -> p (tabs d) r = false) ->
  t_valid tb (t_rows tb (tabs d)) = true -> t_set tb (t_rows tb (tabs d)) (tabs d) = tabs d ->
  Q 0 d -> (forall s, fails o s -> E (ErrDriver s) d) ->
  wp o (exec_update_with p f) Q E d.
Proof.
  intros Hp Hv Hs HQ HE. apply wp_bind, wp_now. intros now. apply wp_statement; [|exact HE]. unfold update_rows.
  assert (select (p (tabs d)) (t_rows tb (tabs d)) = []) as ->.
  { destruct (select _ _) as [|x l] eqn:Ex; [done|].
    assert (Hx : x ∈ select (p (tabs d)) (t_rows tb (tabs d))) by (rewrite Ex; constructor).
    apply elem_of_select in Hx as [Hx Hpx]. by rewrite Hp in Hpx. }
  rewrite update_where_none, Hv, Hs by done. simpl. unfold fire. destruct (t_change tb); by destruct d.
Qed.

(** An update that touches the one row with some key. *)
Lemma wp_update_row {K} `{EqDecision K} (key : R -> K) (row : R) o (p : T -> R -> bool) (f : T -> R -> R) (Q : Z -> DB T -> Prop) E d :
  NoDup (map key (t_rows tb (tabs d))) -> row ∈ t_rows tb (tabs d) ->
  (forall r, r ∈ t_rows tb (tabs d) -> p (tabs d) r = true -> key r = key row) -> p (tabs d) row = true ->
  key (f (tabs d) row) = key row -> t_refs tb (tabs d) (f (tabs d) row) = t_refs tb (tabs d) row ->
  t_valid tb (replace_row key (f (tabs d) row) (t_rows tb (tabs d))) = true ->
  (forall fd, Q 1 (mkDB (t_set tb (replace_row key (f (tabs d) row) (t_rows tb (tabs d))) (tabs d)) fd)) ->
  (forall s, fails o s -> E (ErrDriver s) d) ->
  wp o (exec_update_with p f) Q E d.
Proof.
  intros Hnd Hr Hp Hpr Hk Href Hv HQ HE. apply wp_bind, wp_now. intros now. apply wp_statement; [|exact HE].
  unfold update_rows. rewrite (update_one_row key _ row) by done. rewrite Hv. simpl.
  rewrite (proj2 (forallb_forall _ _)); simpl.
  - rewrite length_map. pose proof (count_one_row key _ row _ Hnd Hr Hp Hpr) as Hc. unfold count in Hc. rewrite Hc. apply HQ.
  - intros x Hx. apply list_elem_of_In, elem_of_select in Hx as [Hx Hpx].
    assert (x = row) as -> by (eapply NoDup_map_inj; eauto). rewrite Href. by destruct (t_refs tb (tabs d) row).
Qed.

Lemma wp_update o p f (Q : Z -> DB T -> Prop) E d :
  let rows := update_where p f (t_rows tb (tabs d)) in
  (t_valid tb rows = true -> forall fd,
     Q (Z.of_nat (count p (t_rows tb (tabs d)))) (mkDB (t_set tb rows (tabs d)) fd)) ->
  E ErrUnique d -> E ErrForeignKey d -> (forall s, fails o s -> E (ErrDriver s) d) ->
  wp o (exec_update p f) Q E d.
Proof. exact (wp_update_with o (fun _ => p) (fun _ => f) Q E d). Qed.

Lemma wp_insert_with o (mk : T -> R) (Q : unit -> DB T -> Prop) E d :
  let rows := t_rows tb (tabs d) ++ [mk (tabs d)] in
  (t_valid tb rows = true -> t_refs tb (tabs d) (mk (tabs d)) = true -> forall fd,
     Q tt (mkDB (t_set tb rows (t_bump tb (tabs d))) fd)) ->
  E ErrUnique d -> E ErrForeignKey d -> (forall s, fails o s -> E (ErrDriver s) d) ->
  wp o (exec_insert_with mk) Q E d.
Proof.
  intros rows H Hu Hf He. apply wp_bind, wp_now. intros now. apply wp_statement; [|exact He].
  unfold insert_row. fold rows. destruct (t_valid tb rows); simpl; [|exact Hu].
  destruct (t_refs tb (tabs d) (mk (tabs d))); simpl; [by apply H | exact Hf].
Qed.

Lemma wp_insert o r (Q : unit -> DB T -> Prop) E d :
  let rows := t_rows tb (tabs d) ++ [r] in
  (t_valid tb rows = true -> t_refs tb (tabs d) r = true -> forall fd,
     Q tt (mkDB (t_set tb rows (t_bump tb (tabs d))) fd)) ->
  E ErrUnique d -> E ErrForeignKey d -> (forall s, fails o s -> E (ErrDriver s) d) ->
  wp o (exec_insert r) Q E d.
Proof. exact (wp_insert_with o (fun _ => r) Q E d). Qed.

Lemma wp_insert_ignore o r (Q : Z -> DB T -> Prop) E d :
  let rows := t_rows tb (tabs d) ++ [r] in
  (t_valid tb rows = true -> t_refs tb (tabs d) r = true -> forall fd,
     Q 1 (mkDB (t_set tb rows (t_bump tb (tabs d))) fd)) ->
  (t_valid tb rows = false -> Q 0 d) -> E ErrForeignKey d -> (forall s, fails o s -> E (ErrDriver s) d) ->
  wp o (exec_insert_ignore r) Q E d.
Proof.
  intros rows H Hu Hf He. apply wp_bind, wp_now. intros now. apply wp_statement; [|exact He].
  unfold insert_row. fold rows. destruct (t_valid tb rows) eqn:Ev; simpl; [|by apply Hu].
  destruct (t_refs tb (tabs d) r) eqn:Er; simpl; [by apply H | exact Hf].
Qed.

Lemma wp_delete o p (Q : Z -> DB T -> Prop) E d :
  (forall fd, Q (Z.of_nat (count p (t_rows tb (tabs d))))
                (mkDB (t_set tb (delete_where p (t_rows tb (tabs d))) (tabs d)) fd)) ->
  (forall s, fails o s -> E (ErrDriver s) d) ->
  wp o (exec_delete p) Q E d.
Proof.
  intros H He. apply wp_bind, wp_now. intros now. apply wp_statement; [|exact He]. apply H.
Qed.

End Statements.

(** Symbolic execution of the statements on top of [wp_step]. *)
Ltac sql_step :=
  match goal with
  | |- wp _ (exec_update _ _ _) _ _ _ => apply wp_update
  | |- wp _ (exec_update_with _ _ _) _ _ _ => apply wp_update_with
  | |- wp _ (exec_insert _ _) _ _ _ => apply wp_insert
  | |- wp _ (exec_insert_with _ _) _ _ _ => apply wp_insert_with
  | |- wp _ (exec_insert_ignore _ _) _ _ _ => apply wp_insert_ignore
  | |- wp _ (exec_delete _ _) _ _ _ => apply wp_delete
  | |- _ => wp_step
  end.
