(* ===== verification/Schema.v ===== *)
(** * The schema of the control database

    The tables of [Store.migrate] in [internal/control/sqlite/store.go], their
    rows, keys, unique indexes and foreign keys, and the change triggers of
    [changes.go].  A nullable column is an [option]; an [INTEGER] flag is a
    [bool]; a [*_json] column holds the value whose encoding it stores. *)
From stdpp Require Import pretty.
From S2P Require Import Prelude Model GoMonad Table.

(** ** Rows *)

Record MemberRow := mkMember { mb_project_id : string; mb_user_id : string; mb_created_at : Z }.

Record IdentityRow := mkIdentity {
  ei_provider : string; ei_subject : string; ei_login : string; ei_user_id : string;
  ei_created_at : Z; ei_last_authenticated_at : option Z
}.

Record TokenRow := mkToken {
  tk_id : string; tk_kind : PrincipalKind; tk_user_id : option string; tk_project_id : option string;
  tk_name : string; tk_subject : string; tk_digest : string; tk_created_at : Z;
  tk_expires_at : option Z; tk_last_used_at : option Z; tk_revoked_at : option Z
}.

Record EnrollmentRow := mkEnrollment {
  en_id : string; en_user_id : string; en_device_name : string; en_digest : string;
  en_created_at : Z; en_expires_at : Z; en_consumed_at : option Z;
  en_failed_attempts : Z; en_max_attempts : Z
}.

Record OAuthRow := mkOAuth {
  oa_id : string; oa_digest : string; oa_return_to : string; oa_code_verifier : string;
  oa_created_at : Z; oa_expires_at : Z; oa_consumed_at : option Z
}.

Record DeviceLoginRow := mkDeviceLogin {
  dl_id : string; dl_user_code : string; dl_device_name : string; dl_digest : string;
  dl_user_id : option string; dl_created_at : Z; dl_expires_at : Z;
  dl_approved_at : option Z; dl_consumed_at : option Z
}.

Record TrustRow := mkTrust {
  gt_id : string; gt_project_id : string; gt_repository_owner_id : string; gt_repository_id : string;
  gt_workflow_ref : string; gt_ref : string; gt_environment : string; gt_events : list string;
  gt_created_at : Z; gt_revoked_at : option Z
}.

Record AuditRow := mkAudit {
  au_id : Z; au_actor_kind : PrincipalKind; au_actor_id : string; au_project_id : string;
  au_action : string; au_target_id : string; au_created_at : Z; au_metadata : list (string * string)
}.

Record JobRow := mkJobRow {
  jr_id : string; jr_project_id : string; jr_image : string; jr_command : list string;
  jr_working_directory : string; jr_environment : list (string * string);
  jr_secrets : list SecretBinding; jr_caches : list CacheMount; jr_timeout_millis : Z;
  jr_cpus : string; jr_memory : string; jr_created_at : Z;
  jr_idempotency_key : string; jr_request_hash : string;
  jr_root_digest : string; jr_status : Status; jr_started_at : option Z; jr_finished_at : option Z;
  jr_exit_code : option Z; jr_error_message : string; jr_cancel_requested : bool; jr_worker_id : string
}.

Record BuildRow := mkBuildRow {
  br_id : string; br_project_id : string; br_created_at : Z;
  br_idempotency_key : string; br_request_hash : string;
  br_status : BuildStatus; br_finished_at : option Z; br_exit_code : option Z
}.

Record QueueRow := mkQueueRow {
  q_sequence : Z; q_kind : OperationKind; q_operation_id : string; q_accepted_at : Z;
  q_state : OperationState; q_leased_at : option Z;
  q_cleanup_attempts : Z; q_cleanup_error : string; q_cleanup_updated_at : Z
}.

(** The four inventories of an [operation_resource_baselines] row. *)
Record ResourceSet := mkResources {
  rs_Services : list string; rs_Containers : list string; rs_Networks : list string; rs_Volumes : list string
}.

Record BaselineRow := mkBaseline {
  bl_kind : OperationKind; bl_operation_id : string; bl_resources : ResourceSet; bl_captured_at : Z
}.

(** ** Tables *)

(** The tables [migrate] creates, with the [AUTOINCREMENT] counters of
    [audit_events] and [control_queue]. *)
Record Tables := mkTables {
  users : list User;
  projects : list Project;
  project_members : list MemberRow;
  external_identities : list IdentityRow;
  access_tokens : list TokenRow;
  enrollment_codes : list EnrollmentRow;
  oauth_login_states : list OAuthRow;
  device_logins : list DeviceLoginRow;
  github_trusts : list TrustRow;
  audit_events : list AuditRow;
  audit_seq : Z;
  project_image_events : list ProjectImageEvent;
  control_jobs : list JobRow;
  control_builds : list BuildRow;
  control_queue : list QueueRow;
  queue_seq : Z;
  operation_resource_baselines : list BaselineRow
}.

Definition set_users (v : list User) (t : Tables) : Tables :=
  mkTables v (projects t) (project_members t) (external_identities t) (access_tokens t) (enrollment_codes t) (oauth_login_states t) (device_logins t) (github_trusts t) (audit_events t) (audit_seq t) (project_image_events t) (control_jobs t) (control_builds t) (control_queue t) (queue_seq t) (operation_resource_baselines t).

Definition set_projects (v : list Project) (t : Tables) : Tables :=
  mkTables (users t) v (project_members t) (external_identities t) (access_tokens t) (enrollment_codes t) (oauth_login_states t) (device_logins t) (github_trusts t) (audit_events t) (audit_seq t) (project_image_events t) (control_jobs t) (control_builds t) (control_queue t) (queue_seq t) (operation_resource_baselines t).

Definition set_project_members (v : list MemberRow) (t : Tables) : Tables :=
  mkTables (users t) (projects t) v (external_identities t) (access_tokens t) (enrollment_codes t) (oauth_login_states t) (device_logins t) (github_trusts t) (audit_events t) (audit_seq t) (project_image_events t) (control_jobs t) (control_builds t) (control_queue t) (queue_seq t) (operation_resource_baselines t).

Definition set_external_identities (v : list IdentityRow) (t : Tables) : Tables :=
  mkTables (users t) (projects t) (project_members t) v (access_tokens t) (enrollment_codes t) (oauth_login_states t) (device_logins t) (github_trusts t) (audit_events t) (audit_seq t) (project_image_events t) (control_jobs t) (control_builds t) (control_queue t) (queue_seq t) (operation_resource_baselines t).

Definition set_access_tokens (v : list TokenRow) (t : Tables) : Tables :=
  mkTables (users t) (projects t) (project_members t) (external_identities t) v (enrollment_codes t) (oauth_login_states t) (device_logins t) (github_trusts t) (audit_events t) (audit_seq t) (project_image_events t) (control_jobs t) (control_builds t) (control_queue t) (queue_seq t) (operation_resource_baselines t).

Definition set_enrollment_codes (v : list EnrollmentRow) (t : Tables) : Tables :=
  mkTables (users t) (projects t) (project_members t) (external_identities t) (access_tokens t) v (oauth_login_states t) (device_logins t) (github_trusts t) (audit_events t) (audit_seq t) (project_image_events t) (control_jobs t) (control_builds t) (control_queue t) (queue_seq t) (operation_resource_baselines t).

Definition set_oauth_login_states (v : list OAuthRow) (t : Tables) : Tables :=
  mkTables (users t) (projects t) (project_members t) (external_identities t) (access_tokens t) (enrollment_codes t) v (device_logins t) (github_trusts t) (audit_events t) (audit_seq t) (project_image_events t) (control_jobs t) (control_builds t) (control_queue t) (queue_seq t) (operation_resource_baselines t).

Definition set_device_logins (v : list DeviceLoginRow) (t : Tables) : Tables :=
  mkTables (users t) (projects t) (project_members t) (external_identities t) (access_tokens t) (enrollment_codes t) (oauth_login_states t) v (github_trusts t) (audit_events t) (audit_seq t) (project_image_events t) (control_jobs t) (control_builds t) (control_queue t) (queue_seq t) (operation_resource_baselines t).

Definition set_github_trusts (v : list TrustRow) (t : Tables) : Tables :=
  mkTables (users t) (projects t) (project_members t) (external_identities t) (access_tokens t) (enrollment_codes t) (oauth_login_states t) (device_logins t) v (audit_events t) (audit_seq t) (project_image_events t) (control_jobs t) (control_builds t) (control_queue t) (queue_seq t) (operation_resource_baselines t).

Definition set_audit_events (v : list AuditRow) (t : Tables) : Tables :=
  mkTables (users t) (projects t) (project_members t) (external_identities t) (access_tokens t) (enrollment_codes t) (oauth_login_states t) (device_logins t) (github_trusts t) v (audit_seq t) (project_image_events t) (control_jobs t) (control_builds t) (control_queue t) (queue_seq t) (operation_resource_baselines t).

Definition set_audit_seq (v : Z) (t : Tables) : Tables :=
  mkTables (users t) (projects t) (project_members t) (external_identities t) (access_tokens t) (enrollment_codes t) (oauth_login_states t) (device_logins t) (github_trusts t) (audit_events t) v (project_image_events t) (control_jobs t) (control_builds t) (control_queue t) (queue_seq t) (operation_resource_baselines t).

Definition set_project_image_events (v : list ProjectImageEvent) (t : Tables) : Tables :=
  mkTables (users t) (projects t) (project_members t) (external_identities t) (access_tokens t) (enrollment_codes t) (oauth_login_states t) (device_logins t) (github_trusts t) (audit_events t) (audit_seq t) v (control_jobs t) (control_builds t) (control_queue t) (queue_seq t) (operation_resource_baselines t).

Definition set_control_jobs (v : list JobRow) (t : Tables) : Tables :=
  mkTables (users t) (projects t) (project_members t) (external_identities t) (access_tokens t) (enrollment_codes t) (oauth_login_states t) (device_logins t) (github_trusts t) (audit_events t) (audit_seq t) (project_image_events t) v (control_builds t) (control_queue t) (queue_seq t) (operation_resource_baselines t).

Definition set_control_builds (v : list BuildRow) (t : Tables) : Tables :=
  mkTables (users t) (projects t) (project_members t) (external_identities t) (access_tokens t) (enrollment_codes t) (oauth_login_states t) (device_logins t) (github_trusts t) (audit_events t) (audit_seq t) (project_image_events t) (control_jobs t) v (control_queue t) (queue_seq t) (operation_resource_baselines t).

Definition set_control_queue (v : list QueueRow) (t : Tables) : Tables :=
  mkTables (users t) (projects t) (project_members t) (external_identities t) (access_tokens t) (enrollment_codes t) (oauth_login_states t) (device_logins t) (github_trusts t) (audit_events t) (audit_seq t) (project_image_events t) (control_jobs t) (control_builds t) v (queue_seq t) (operation_resource_baselines t).

Definition set_queue_seq (v : Z) (t : Tables) : Tables :=
  mkTables (users t) (projects t) (project_members t) (external_identities t) (access_tokens t) (enrollment_codes t) (oauth_login_states t) (device_logins t) (github_trusts t) (audit_events t) (audit_seq t) (project_image_events t) (control_jobs t) (control_builds t) (control_queue t) v (operation_resource_baselines t).

Definition set_operation_resource_baselines (v : list BaselineRow) (t : Tables) : Tables :=
  mkTables (users t) (projects t) (project_members t) (external_identities t) (access_tokens t) (enrollment_codes t) (oauth_login_states t) (device_logins t) (github_trusts t) (audit_events t) (audit_seq t) (project_image_events t) (control_jobs t) (control_builds t) (control_queue t) (queue_seq t) v.

(** The state of a freshly migrated database. *)
Definition empty_tables : Tables :=
  mkTables [] [] [] [] [] [] [] [] [] [] 0 [] [] [] [] 0 [].

Abbreviation Database := (DB Tables).
Abbreviation StoreM := (M (DB Tables)).

Definition empty_database : Database := mkDB empty_tables (mkFeed [] 0).

(** ** Constraints and triggers *)

(** A unique index over [key]. *)
Definition unique {R K : Type} `{EqDecision K} (key : R -> K) (rows : list R) : bool :=
  bool_decide (NoDup (map key rows)).

(** A unique index over [key] restricted to the rows that satisfy [p]. *)
Definition unique_where {R K : Type} `{EqDecision K} (p : R -> bool) (key : R -> K) (rows : list R) : bool :=
  unique key (select p rows).

(** [REFERENCES users(id)], [REFERENCES projects(id)]. *)
Definition user_exists (t : Tables) (id : string) : bool :=
  existsb (fun u => bool_decide (us_ID u = id)) (users t).
Definition project_exists (t : Tables) (id : string) : bool :=
  existsb (fun p => bool_decide (pj_ID p = id)) (projects t).
Definition nullable_ref (exists_id : string -> bool) (v : option string) : bool :=
  match v with None => true | Some id => exists_id id end.

(** The states that occupy the single worker: [control_queue_one_reserved_idx]
    and the counts of [AcquireNextOperation] and [WorkerBusy]. *)
Definition reserved (s : OperationState) : bool :=
  match s with
  | OperationAdmitting | OperationActive | OperationTerminalizing | OperationCleaning => true
  | _ => false
  end.

Definition kind_text (k : OperationKind) : string :=
  match k with OperationJob => "job" | OperationBuild => "build" end.

(** The key of a queue row, [UNIQUE(kind, operation_id)]. *)
Definition q_key (r : QueueRow) : OperationKind * string := (q_kind r, q_operation_id r).

(** The project a queue row belongs to, looked up by its trigger. *)
Definition queue_project (t : Tables) (r : QueueRow) : string :=
  match q_kind r with
  | OperationJob =>
      default "" (jr_project_id <$> head (select (fun j => bool_decide (jr_id j = q_operation_id r)) (control_jobs t)))
  | OperationBuild =>
      default "" (br_project_id <$> head (select (fun b => bool_decide (br_id b = q_operation_id r)) (control_builds t)))
  end.

Definition no_refs {R : Type} (_ : Tables) (_ : R) : bool := true.
Definition no_bump (t : Tables) : Tables := t.

Definition Users : Table Tables User :=
  mkTable _ _ users set_users no_bump (unique us_ID) no_refs
    (Some (fun _ u => ("", "user", us_ID u))).

Definition Projects : Table Tables Project :=
  mkTable _ _ projects set_projects no_bump
    (fun rows => unique pj_ID rows && unique pj_Slug rows) no_refs
    (Some (fun _ p => (pj_ID p, "project", pj_ID p))).

Definition ProjectMembers : Table Tables MemberRow :=
  mkTable _ _ project_members set_project_members no_bump
    (unique (fun m => (mb_project_id m, mb_user_id m)))
    (fun t m => project_exists t (mb_project_id m) && user_exists t (mb_user_id m))
    (Some (fun _ m => (mb_project_id m, "project-member", mb_user_id m))).

Definition ExternalIdentities : Table Tables IdentityRow :=
  mkTable _ _ external_identities set_external_identities no_bump
    (fun rows => unique (fun i => (ei_provider i, ei_subject i)) rows
                 && unique (fun i => (ei_provider i, ei_user_id i)) rows)
    (fun t i => user_exists t (ei_user_id i)) None.

Definition AccessTokens : Table Tables TokenRow :=
  mkTable _ _ access_tokens set_access_tokens no_bump (unique tk_id)
    (fun t k => nullable_ref (user_exists t) (tk_user_id k) && nullable_ref (project_exists t) (tk_project_id k))
    (Some (fun _ k => (default "" (tk_project_id k), "access-token", tk_id k))).

Definition EnrollmentCodes : Table Tables EnrollmentRow :=
  mkTable _ _ enrollment_codes set_enrollment_codes no_bump (unique en_id)
    (fun t e => user_exists t (en_user_id e))
    (Some (fun _ e => ("", "enrollment", en_id e))).

Definition OAuthLoginStates : Table Tables OAuthRow :=
  mkTable _ _ oauth_login_states set_oauth_login_states no_bump (unique oa_id) no_refs None.

Definition DeviceLogins : Table Tables DeviceLoginRow :=
  mkTable _ _ device_logins set_device_logins no_bump
    (fun rows => unique dl_id rows && unique dl_user_code rows)
    (fun t l => nullable_ref (user_exists t) (dl_user_id l)) None.

Definition GitHubTrusts : Table Tables TrustRow :=
  mkTable _ _ github_trusts set_github_trusts no_bump (unique gt_id)
    (fun t g => project_exists t (gt_project_id g))
    (Some (fun _ g => (gt_project_id g, "github-trust", gt_id g))).

Definition AuditEvents : Table Tables AuditRow :=
  mkTable _ _ audit_events set_audit_events (fun t => set_audit_seq (audit_seq t + 1) t) (unique au_id) no_refs
    (Some (fun _ a => (au_project_id a, "audit", pretty (au_id a)))).

Definition ProjectImageEvents : Table Tables ProjectImageEvent :=
  mkTable _ _ project_image_events set_project_image_events no_bump (unique ie_ID)
    (fun t e => project_exists t (ie_ProjectID e))
    (Some (fun _ e => (ie_ProjectID e, "project-image", ie_ID e))).

(** [control_jobs_idempotency_idx] and [control_builds_idempotency_idx] are
    partial: they do not cover the empty key. *)
Definition ControlJobs : Table Tables JobRow :=
  mkTable _ _ control_jobs set_control_jobs no_bump
    (fun rows => unique jr_id rows
       && unique_where (fun j => negb (bool_decide (jr_idempotency_key j = "")))
            (fun j => (jr_project_id j, jr_idempotency_key j)) rows)
    (fun t j => project_exists t (jr_project_id j))
    (Some (fun _ j => (jr_project_id j, "job", jr_id j))).

Definition ControlBuilds : Table Tables BuildRow :=
  mkTable _ _ control_builds set_control_builds no_bump
    (fun rows => unique br_id rows
       && unique_where (fun b => negb (bool_decide (br_idempotency_key b = "")))
            (fun b => (br_project_id b, br_idempotency_key b)) rows)
    (fun t b => project_exists t (br_project_id b))
    (Some (fun _ b => (br_project_id b, "build", br_id b))).

Definition ControlQueue : Table Tables QueueRow :=
  mkTable _ _ control_queue set_control_queue (fun t => set_queue_seq (queue_seq t + 1) t)
    (fun rows => unique q_sequence rows && unique q_key rows
       && (count (fun r => reserved (q_state r)) rows <=? 1)%nat)
    no_refs
    (Some (fun t r => (queue_project t r, "queue", kind_text (q_kind r) +:+ ":" +:+ q_operation_id r))).

Definition Baselines : Table Tables BaselineRow :=
  mkTable _ _ operation_resource_baselines set_operation_resource_baselines no_bump
    (unique (fun b => (bl_kind b, bl_operation_id b))) no_refs None.
