(* ===== verification/JobStore.v ===== *)
(** * The durable job, build and queue store

    The methods of [internal/control/sqlite/store.go] that drive jobs, builds
    and the FIFO worker lease, statement by statement.  [control_queue] holds
    one row per accepted operation; the states [admitting], [active],
    [terminalizing] and [cleaning] occupy the single worker. *)
From S2P Require Import Prelude Model GoMonad GoLib Table Schema.

(** ** Row updates *)

(** The mutable columns of [control_jobs], [control_builds] and [control_queue]. *)
Definition jr_set (digest : string) (status : Status) (started finished : option Z) (exit_code : option Z)
    (error : string) (cancel : bool) (worker : string) (r : JobRow) : JobRow :=
  mkJobRow (jr_id r) (jr_project_id r) (jr_image r) (jr_command r) (jr_working_directory r) (jr_environment r)
    (jr_secrets r) (jr_caches r) (jr_timeout_millis r) (jr_cpus r) (jr_memory r) (jr_created_at r)
    (jr_idempotency_key r) (jr_request_hash r)
    digest status started finished exit_code error cancel worker.

Definition br_set (status : BuildStatus) (finished exit_code : option Z) (r : BuildRow) : BuildRow :=
  mkBuildRow (br_id r) (br_project_id r) (br_created_at r) (br_idempotency_key r) (br_request_hash r)
    status finished exit_code.

Definition q_set (state : OperationState) (leased : option Z) (attempts : Z) (error : string) (updated : Z)
    (r : QueueRow) : QueueRow :=
  mkQueueRow (q_sequence r) (q_kind r) (q_operation_id r) (q_accepted_at r) state leased attempts error updated.

(** The updates of [control_queue] the methods share. *)
Definition q_move (state : OperationState) (updated : Z) (r : QueueRow) : QueueRow :=
  q_set state (q_leased_at r) (q_cleanup_attempts r) (q_cleanup_error r) updated r.
Definition q_lease (state : OperationState) (leased : option Z) (r : QueueRow) : QueueRow :=
  q_set state leased (q_cleanup_attempts r) (q_cleanup_error r) (q_cleanup_updated_at r) r.

(** [WHERE kind=? AND operation_id=? AND state IN (states)]. *)
Definition q_match (kind : OperationKind) (id : string) (states : list OperationState) (r : QueueRow) : bool :=
  bool_decide (q_key r = (kind, id)) && bool_decide (q_state r ∈ states).

(** [WHERE id=? AND status IN (statuses)] on jobs and on builds. *)
Definition j_match (id : string) (p : Status -> bool) (r : JobRow) : bool :=
  bool_decide (jr_id r = id) && p (jr_status r).
Definition b_match (id : string) (p : BuildStatus -> bool) (r : BuildRow) : bool :=
  bool_decide (br_id r = id) && p (br_status r).

(** ** Scanning rows *)

Definition scanJob (r : JobRow) : Job :=
  mkJob (jr_id r) (jr_project_id r) (jr_image r) (jr_command r) (jr_working_directory r) (jr_environment r)
    (jr_root_digest r) (jr_status r) (from_millis (jr_timeout_millis r)) (fromUnix (jr_created_at r))
    (fromUnix <$> jr_started_at r) (fromUnix <$> jr_finished_at r) (jr_exit_code r) (jr_error_message r)
    (jr_cancel_requested r) (jr_worker_id r) (jr_caches r) (jr_secrets r).

Definition scanBuild (r : BuildRow) : Build :=
  mkBuild (br_id r) (br_project_id r) (br_status r) (fromUnix (br_created_at r))
    (fromUnix <$> br_finished_at r) (br_exit_code r).

Definition scanOperation (r : QueueRow) : Operation :=
  mkOperation (q_kind r) (q_operation_id r) (q_state r) (fromUnix (q_accepted_at r)) (fromUnix <$> q_leased_at r)
    (q_cleanup_attempts r) (q_cleanup_error r)
    (if q_cleanup_updated_at r =? 0 then None else Some (fromUnix (q_cleanup_updated_at r))).

(** [sql.ErrNoRows] becomes [control.ErrNotFound]. *)
Definition or_not_found {A : Type} (m : StoreM A) : StoreM A :=
  r ← attempt m;
  match r with
  | Ok a => mret a
  | Fail ErrNoRows => throw ErrNotFound
  | Fail e => throw e
  end.

Definition find_job (id : string) (d : Database) : option JobRow :=
  head (select (fun r => bool_decide (jr_id r = id)) (control_jobs (tabs d))).
Definition find_build (id : string) (d : Database) : option BuildRow :=
  head (select (fun r => bool_decide (br_id r = id)) (control_builds (tabs d))).
Definition find_queue (kind : OperationKind) (id : string) (d : Database) : option QueueRow :=
  head (select (fun r => bool_decide (q_key r = (kind, id))) (control_queue (tabs d))).

(** [ORDER BY sequence LIMIT 1] over the rows in one of [states]. *)
Fixpoint least_sequence (rows : list QueueRow) : option QueueRow :=
  match rows with
  | [] => None
  | r :: rest =>
      match least_sequence rest with
      | None => Some r
      | Some r' => if q_sequence r' <? q_sequence r then Some r' else Some r
      end
  end.
Definition first_in (states : list OperationState) (d : Database) : option QueueRow :=
  least_sequence (select (fun r => bool_decide (q_state r ∈ states)) (control_queue (tabs d))).

Definition getJob (id : string) : StoreM Job := or_not_found (scanJob <$> query_row (find_job id)).

(** [Store.Build] returns the zero build with [control.ErrNotFound] for a missing row. *)
Definition getBuild (id : string) : StoreM Build := or_not_found (scanBuild <$> query_row (find_build id)).

Definition OperationStateOf (kind : OperationKind) (id : string) : StoreM OperationState :=
  or_not_found (q_state <$> query_row (find_queue kind id)).

Definition getOperation (kind : OperationKind) (id : string) : StoreM Operation :=
  or_not_found (scanOperation <$> query_row (find_queue kind id)).

(** ** Accepting operations *)

Definition find_idempotent_job (project key : string) (d : Database) : option JobRow :=
  head (select (fun r => bool_decide (jr_project_id r = project) && bool_decide (jr_idempotency_key r = key))
          (control_jobs (tabs d))).

Definition CreatePreparedJob (input : PrepareJob) (idempotency : Idempotency) : StoreM (Job * bool) :=
  transaction (
    existing ← attempt (or_not_found (query_row (find_idempotent_job (pp_ProjectID input) (id_Key idempotency))));
    match existing with
    | Ok row =>
        if bool_decide (jr_request_hash row = id_RequestHash idempotency)
        then mret (Return (scanJob row, true))
        else throw ErrIdempotencyConflict
    | Fail ErrNotFound =>
        id ← randomID "job";
        now ← time_Now;
        _ ← exec_insert ControlJobs
              (mkJobRow id (pp_ProjectID input) (pp_Image input) (pp_Command input) (pp_WorkingDirectory input)
                 (pp_Environment input) (pp_Secrets input) (pp_Caches input) (Milliseconds (pp_Timeout input)) "" ""
                 (unix now) (id_Key idempotency) (id_RequestHash idempotency)
                 "" StatusPreparing None None None "" false "");
        _ ← exec_insert_with ControlQueue (fun t =>
              mkQueueRow (queue_seq t + 1) OperationJob id (unix now) OperationQueued (Some (unix now)) 0 "" 0);
        mret (Commit
          (mkJob id (pp_ProjectID input) (pp_Image input) (pp_Command input) (pp_WorkingDirectory input)
             (pp_Environment input) "" StatusPreparing (pp_Timeout input) now None None None "" false ""
             (pp_Caches input) (pp_Secrets input), false))
    | Fail e => throw e
    end).

Definition find_idempotent_build (project key : string) (d : Database) : option BuildRow :=
  head (select (fun r => bool_decide (br_project_id r = project) && bool_decide (br_idempotency_key r = key))
          (control_builds (tabs d))).

Definition CreateBuild (projectID : string) (idempotency : Idempotency) : StoreM (Build * bool) :=
  transaction (
    existing ← attempt (query_row (find_idempotent_build projectID (id_Key idempotency)));
    match existing with
    | Ok row =>
        if bool_decide (br_request_hash row = id_RequestHash idempotency)
        then mret (Return (scanBuild row, true))
        else throw ErrIdempotencyConflict
    | Fail ErrNoRows =>
        id ← randomID "bld";
        now ← time_Now;
        _ ← exec_insert ControlBuilds
              (mkBuildRow id projectID (unix now) (id_Key idempotency) (id_RequestHash idempotency) BuildQueued None None);
        _ ← exec_insert_with ControlQueue (fun t =>
              mkQueueRow (queue_seq t + 1) OperationBuild id (unix now) OperationQueued None 0 "" 0);
        mret (Commit (mkBuild id projectID BuildQueued now None None, false))
    | Fail e => throw e
    end).

(** ** Job transitions *)

(** [count != 1] after an update. *)
Definition expect_one (count : Z) (e : Err) : StoreM unit :=
  if count =? 1 then mret tt else throw e.

Definition QueueJob (id rootDigest : string) : StoreM Job :=
  _ ← transaction (
    count ← exec_update ControlJobs (j_match id (fun s => bool_decide (s = StatusPreparing)))
      (fun r => jr_set rootDigest StatusQueued (jr_started_at r) (jr_finished_at r) (jr_exit_code r)
                  (jr_error_message r) (jr_cancel_requested r) (jr_worker_id r) r);
    _ ← expect_one count ErrNotFound;
    count ← exec_update ControlQueue (q_match OperationJob id [OperationQueued; OperationAdmitting])
      (q_lease OperationQueued None);
    _ ← expect_one count ErrNotFound;
    mret (Commit tt));
  getJob id.

(** [status NOT IN] the five terminal statuses. *)
Definition live (s : Status) : bool := negb (Terminal s).

Definition SyncJob (id : string) (remote : RemoteJob) : StoreM Job :=
  _ ← transaction (
    _ ← exec_update ControlJobs (j_match id live)
      (fun r => jr_set (jr_root_digest r) (rj_Status remote) (unix <$> rj_StartedAt remote)
                  (unix <$> rj_FinishedAt remote) (rj_ExitCode remote) (rj_ErrorMessage remote)
                  (rj_CancelRequested remote) (rj_WorkerID remote) r);
    _ ← (if Terminal (rj_Status remote) then
           now ← time_Now;
           exec_update ControlQueue (q_match OperationJob id [OperationAdmitting; OperationActive])
             (q_move OperationTerminalizing (unix now))
         else mret 0);
    mret (Commit tt));
  getJob id.

(** [EXISTS (SELECT 1 FROM control_queue ... state IN ('admitting','active'))]. *)
Definition job_leased (id : string) (t : Tables) : bool :=
  existsb (q_match OperationJob id [OperationAdmitting; OperationActive]) (control_queue t).

(** The jobs a cancellation finishes at once: those still preparing, and those
    queued without the worker. *)
Definition cancels_now (id : string) (t : Tables) (s : Status) : bool :=
  bool_decide (s = StatusPreparing) || (bool_decide (s = StatusQueued) && negb (job_leased id t)).

Definition RequestJobCancellation (id : string) : StoreM Job :=
  _ ← transaction (
    finished ← time_Now;
    count ← exec_update_with ControlJobs (fun _ => j_match id live)
      (fun t r =>
         let now := cancels_now id t (jr_status r) in
         jr_set (jr_root_digest r) (if now then StatusCancelled else jr_status r) (jr_started_at r)
           (if now then Some (unix finished) else jr_finished_at r) (jr_exit_code r) (jr_error_message r)
           true (jr_worker_id r) r);
    _ ← expect_one count ErrNotFound;
    updated ← time_Now;
    _ ← exec_update ControlQueue (q_match OperationJob id [OperationQueued])
      (q_move OperationReleased (unix updated));
    mret (Commit tt));
  getJob id.

Definition FailJob (id message : string) : StoreM Job :=
  _ ← transaction (
    finished ← time_Now;
    count ← exec_update ControlJobs
      (j_match id (fun s => bool_decide (s = StatusPreparing) || bool_decide (s = StatusQueued)))
      (fun r => jr_set (jr_root_digest r) StatusFailed (jr_started_at r) (Some (unix finished)) (Some 1)
                  message (jr_cancel_requested r) (jr_worker_id r) r);
    _ ← expect_one count ErrNotFound;
    updated ← time_Now;
    _ ← exec_update ControlQueue
      (q_match OperationJob id [OperationQueued; OperationAdmitting; OperationActive])
      (q_move OperationTerminalizing (unix updated));
    mret (Commit tt));
  getJob id.

(** ** Build transitions *)

Definition unfinished (s : BuildStatus) : bool := bool_decide (s = BuildQueued) || bool_decide (s = BuildRunning).

Definition FinishBuild (id : string) (status : BuildStatus) (exitCode : Z) : StoreM Build :=
  if negb (build_terminal status) then throw (ErrText "build status is not terminal") else
  _ ← transaction (
    finished ← time_Now;
    count ← exec_update ControlBuilds (b_match id unfinished)
      (br_set status (Some (unix finished)) (Some exitCode));
    _ ← expect_one count ErrNotFound;
    updated ← time_Now;
    _ ← exec_update ControlQueue
      (q_match OperationBuild id [OperationQueued; OperationAdmitting; OperationActive])
      (fun r => q_move (if bool_decide (q_state r = OperationQueued) then OperationReleased else OperationTerminalizing)
                  (unix updated) r);
    mret (Commit tt));
  getBuild id.

(** ** The worker lease *)

Definition reserved_count (d : Database) : Z :=
  Z.of_nat (count (fun r => reserved (q_state r)) (control_queue (tabs d))).

Definition AcquireNextOperation : StoreM (option Operation) :=
  transaction (
    active ← query reserved_count;
    if 0 <? active then mret (Return None) else
    next ← attempt (query_row (first_in [OperationQueued]));
    match next with
    | Fail ErrNoRows => mret (Return None)
    | Fail e => throw e
    | Ok row =>
        leasedAt ← time_Now;
        count ← exec_update ControlQueue (q_match (q_kind row) (q_operation_id row) [OperationQueued])
          (q_lease OperationAdmitting (Some (unix leasedAt)));
        _ ← expect_one count (ErrText "operation was concurrently admitted");
        mret (Commit (Some (mkOperation (q_kind row) (q_operation_id row) OperationAdmitting
                              (fromUnix (q_accepted_at row)) (Some leasedAt) 0 "" None)))
    end).

Definition WorkerBusy : StoreM bool := count ← query reserved_count; mret (0 <? count).

Definition RequeueAdmittingOperation (kind : OperationKind) (id : string) : StoreM unit :=
  count ← exec_update ControlQueue (q_match kind id [OperationAdmitting]) (q_lease OperationQueued None);
  expect_one count ErrNotFound.

Definition ActivateOperation (kind : OperationKind) (id : string) : StoreM unit :=
  transaction (
    count ← exec_update ControlQueue (q_match kind id [OperationAdmitting])
      (fun r => q_lease OperationActive (q_leased_at r) r);
    _ ← expect_one count ErrNotFound;
    _ ← match kind with
        | OperationBuild =>
            count ← exec_update ControlBuilds (b_match id (fun s => bool_decide (s = BuildQueued)))
              (fun r => br_set BuildRunning (br_finished_at r) (br_exit_code r) r);
            expect_one count (ErrText "queued build is missing")
        | OperationJob => mret tt
        end;
    mret (Commit tt)).

Definition BeginOperationCleanup (kind : OperationKind) (id : string) : StoreM unit :=
  now ← time_Now;
  count ← exec_update ControlQueue (q_match kind id [OperationQueued; OperationAdmitting; OperationActive])
    (q_move OperationTerminalizing (unix now));
  if count =? 1 then mret tt else
  state ← OperationStateOf kind id;
  match state with
  | OperationTerminalizing | OperationCleaning | OperationReleased => mret tt
  | _ => throw (ErrText "operation cannot begin cleanup")
  end.

Definition ClaimOperationCleanup : StoreM (option Operation) :=
  transaction (
    next ← attempt (or_not_found (query_row (first_in [OperationTerminalizing; OperationCleaning])));
    match next with
    | Fail ErrNotFound => mret (Return None)
    | Fail e => throw e
    | Ok row =>
        updatedAt ← time_Now;
        count ← exec_update ControlQueue
          (q_match (q_kind row) (q_operation_id row) [OperationTerminalizing; OperationCleaning])
          (fun r => q_set OperationCleaning (q_leased_at r) (q_cleanup_attempts r + 1) "" (unix updatedAt) r);
        _ ← expect_one count (ErrText "operation cleanup was concurrently claimed");
        let operation := scanOperation row in
        mret (Commit (Some (mkOperation (op_Kind operation) (op_ID operation) OperationCleaning
                (op_AcceptedAt operation) (op_LeasedAt operation) (op_CleanupAttempts operation + 1) ""
                (Some updatedAt))))
    end).

Definition RecordOperationCleanupFailure (kind : OperationKind) (id message : string) : StoreM unit :=
  now ← time_Now;
  count ← exec_update ControlQueue (q_match kind id [OperationCleaning])
    (fun r => q_set (q_state r) (q_leased_at r) (q_cleanup_attempts r) message (unix now) r);
  expect_one count ErrNotFound.

Definition CompleteOperationCleanup (kind : OperationKind) (id : string) : StoreM unit :=
  now ← time_Now;
  count ← exec_update ControlQueue (q_match kind id [OperationTerminalizing; OperationCleaning])
    (fun r => q_set OperationReleased (q_leased_at r) (q_cleanup_attempts r) "" (unix now) r);
  if count =? 1 then mret tt else
  state ← OperationStateOf kind id;
  match state with
  | OperationReleased => mret tt
  | _ => throw (ErrText "operation cannot complete cleanup")
  end.

(** The update of the job or build that the emergency stops. *)
Definition emergency_finish (message : string) (now : time) (row : QueueRow) : StoreM unit :=
  match q_kind row with
  | OperationJob =>
      count ← exec_update ControlJobs
        (j_match (q_operation_id row) (fun s =>
           bool_decide (s = StatusPreparing) || bool_decide (s = StatusQueued) || bool_decide (s = StatusRunning)))
        (fun r => jr_set (jr_root_digest r) StatusFailed (jr_started_at r) (Some (unix now)) (Some 137)
                    message true (jr_worker_id r) r);
      expect_one count (ErrText "active emergency job is missing")
  | OperationBuild =>
      count ← exec_update ControlBuilds (b_match (q_operation_id row) unfinished)
        (br_set BuildCancelled (Some (unix now)) (Some 130));
      expect_one count (ErrText "active emergency build is missing")
  end.

Definition EmergencyStopActiveOperation (message : string) : StoreM (option Operation) :=
  transaction (
    current ← attempt (query_row (first_in [OperationAdmitting; OperationActive]));
    match current with
    | Fail ErrNoRows => mret (Return None)
    | Fail e => throw e
    | Ok row =>
        let operation := mkOperation (q_kind row) (q_operation_id row) (q_state row)
                           (fromUnix (q_accepted_at row)) (fromUnix <$> q_leased_at row) 0 "" None in
        now ← time_Now;
        _ ← emergency_finish message now row;
        updated ← time_Now;
        _ ← exec_update ControlQueue (fun r => bool_decide (q_key r = (q_kind row, q_operation_id row)))
          (q_move OperationTerminalizing (unix updated));
        mret (Commit (Some operation))
    end).

Definition CancelQueuedOperation (kind : OperationKind) (id : string) : StoreM bool :=
  now ← time_Now;
  count ← exec_update ControlQueue (q_match kind id [OperationQueued]) (q_move OperationReleased (unix now));
  mret (count =? 1).

Definition RenewOperationLease (kind : OperationKind) (id : string) : StoreM unit :=
  now ← time_Now;
  count ← exec_update ControlQueue (q_match kind id [OperationQueued; OperationAdmitting; OperationActive])
    (fun r => q_lease (q_state r) (Some (unix now)) r);
  expect_one count ErrNotFound.

(** [OperationActive], the predicate the data-plane proxies ask: a job may
    upload while it prepares, a build may use BuildKit while it runs, and a
    database error is a refusal. *)
Definition OperationIsActive (kind : string) (id : string) : StoreM bool :=
  if bool_decide (kind = "job") then
    r ← attempt (query_row (find_job id));
    mret match r with Ok row => bool_decide (jr_status row = StatusPreparing) | Fail _ => false end
  else if bool_decide (kind = "build") then
    r ← attempt (query_row (find_build id));
    mret match r with Ok row => bool_decide (br_status row = BuildRunning) | Fail _ => false end
  else mret false.
