(* ===== verification/Lease.v ===== *)
(** * The abstract worker lease, and its implementation by [control_queue]

    What the control plane promises about its single worker: operations wait in
    first come, first served order; at most one holds the worker; it goes
    through admission, activity, teardown and release; while it is admitted it
    may be put back at the head of the line; a waiting operation may leave the
    line.  [abs] reads this state off the queue table, and [lease_update] shows
    that a lawful update of one row is a step of the promise. *)
From S2P Require Import Prelude Model GoMonad GoLib Table Schema JobStore.

Definition op_key : Type := OperationKind * string.

Record Lease := mkLease { waiting : list op_key; holder : option (op_key * OperationState) }.

Inductive lease_step : Lease -> Lease -> Prop :=
| lease_accept k w h : lease_step (mkLease w h) (mkLease (w ++ [k]) h)
| lease_admit k w : lease_step (mkLease (k :: w) None) (mkLease w (Some (k, OperationAdmitting)))
| lease_requeue k w : lease_step (mkLease w (Some (k, OperationAdmitting))) (mkLease (k :: w) None)
| lease_activate k w :
    lease_step (mkLease w (Some (k, OperationAdmitting))) (mkLease w (Some (k, OperationActive)))
| lease_terminalize k s w : s = OperationAdmitting \/ s = OperationActive ->
    lease_step (mkLease w (Some (k, s))) (mkLease w (Some (k, OperationTerminalizing)))
| lease_clean k w :
    lease_step (mkLease w (Some (k, OperationTerminalizing))) (mkLease w (Some (k, OperationCleaning)))
| lease_release k s w : s = OperationTerminalizing \/ s = OperationCleaning ->
    lease_step (mkLease w (Some (k, s))) (mkLease w None)
| lease_leave k w1 w2 h : lease_step (mkLease (w1 ++ k :: w2) h) (mkLease (w1 ++ w2) h)
| lease_fail k w1 w2 :
    lease_step (mkLease (w1 ++ k :: w2) None) (mkLease (w1 ++ w2) (Some (k, OperationTerminalizing))).

(** ** Abstraction *)

Definition waits (r : QueueRow) : bool := bool_decide (q_state r = OperationQueued).
Definition holds (r : QueueRow) : bool := reserved (q_state r).

Definition abs_rows (rows : list QueueRow) : Lease :=
  mkLease (map q_key (select waits rows))
          ((fun r => (q_key r, q_state r)) <$> head (select holds rows)).

Definition abs (t : Tables) : Lease := abs_rows (control_queue t).

(** The moves of one row that the lease allows, admission apart. *)
Definition lawful (s s' : OperationState) : bool :=
  match s, s' with
  | OperationQueued, (OperationQueued | OperationTerminalizing | OperationReleased)
  | OperationAdmitting, (OperationQueued | OperationAdmitting | OperationActive | OperationTerminalizing)
  | OperationActive, (OperationActive | OperationTerminalizing)
  | OperationTerminalizing, (OperationCleaning | OperationReleased)
  | OperationCleaning, (OperationCleaning | OperationReleased) => true
  | _, _ => false
  end.

(** ** Updates of one row *)

(** An update that selects by key touches at most one row. *)
Lemma update_where_key (p : QueueRow -> bool) f k rows :
  NoDup (map q_key rows) -> (forall r, r ∈ rows -> p r = true -> q_key r = k) ->
  update_where p f rows = rows \/
  exists l1 r l2, rows = l1 ++ r :: l2 /\ p r = true /\ q_key r = k /\ update_where p f rows = l1 ++ f r :: l2.
Proof.
  intros Hnd Hk. destruct (existsb p rows) eqn:E.
  - right. apply existsb_exists in E as (r & Hr & Hp). apply list_elem_of_In in Hr.
    pose proof (Hk r Hr Hp) as Hkr. apply list_elem_of_split in Hr as (l1 & l2 & ->).
    exists l1, r, l2. repeat split; try done. unfold update_where. rewrite map_app. simpl. rewrite Hp.
    rewrite map_app in Hnd. simpl in Hnd. apply NoDup_app in Hnd as (_ & Hd1 & Hnd2).
    apply NoDup_cons in Hnd2 as [Hd2 _].
    f_equal; [|f_equal]; apply (update_where_none p f); intros x Hx; destruct (p x) eqn:Ex; try done; exfalso.
    + assert (q_key x = k) as E by (apply Hk; [set_solver | done]).
      apply (Hd1 (q_key x)); [by apply list_elem_of_In, List.in_map, list_elem_of_In |]. rewrite E, Hkr. constructor.
    + assert (q_key x = k) as E by (apply Hk; [set_solver | done]).
      apply Hd2. rewrite Hkr, <- E. by apply list_elem_of_In, List.in_map, list_elem_of_In.
  - left. apply update_where_none. intros r Hr. destruct (p r) eqn:Ep; [|done].
    assert (existsb p rows = true); [|congruence]. apply existsb_exists. exists r. by rewrite <- list_elem_of_In.
Qed.

Lemma abs_split l1 r l2 :
  abs_rows (l1 ++ r :: l2) =
  mkLease (map q_key (select waits l1) ++ (if waits r then [q_key r] else []) ++ map q_key (select waits l2))
          ((fun r => (q_key r, q_state r)) <$> head (select holds l1 ++ (if holds r then [r] else []) ++ select holds l2)).
Proof.
  unfold abs_rows. rewrite !select_app, map_app. simpl.
  destruct (waits r), (holds r); done.
Qed.

(** If the row holds the worker, no other row does. *)
Lemma holds_alone l1 r l2 :
  (count holds (l1 ++ r :: l2) <= 1)%nat -> holds r = true -> select holds l1 = [] /\ select holds l2 = [].
Proof.
  unfold count. rewrite select_app, length_app. simpl. intros Hc Hr. rewrite Hr in Hc. simpl in Hc.
  split; apply nil_length_inv; lia.
Qed.

Section OneRow.
Context (l1 l2 : list QueueRow) (r r' : QueueRow)
  (Hkey : q_key r' = q_key r)
  (Hone : (count holds (l1 ++ r :: l2) <= 1)%nat)
  (Hone' : (count holds (l1 ++ r' :: l2) <= 1)%nat).

(** A lawful move of a row is a step of the lease, or none; putting an admitted
    row back needs that no earlier row waits. *)
Lemma lease_move :
  lawful (q_state r) (q_state r') = true ->
  (q_state r = OperationAdmitting -> q_state r' = OperationQueued -> select waits l1 = []) ->
  rtc lease_step (abs_rows (l1 ++ r :: l2)) (abs_rows (l1 ++ r' :: l2)).
Proof using All.
  intros Hl Hfirst. pose proof (holds_alone l1 r l2 Hone) as Ha. pose proof (holds_alone l1 r' l2 Hone') as Ha'.
  assert (Ew : forall x, waits x = match q_state x with OperationQueued => true | _ => false end).
  { intros x. unfold waits. by destruct (q_state x). }
  assert (Eh : forall x, holds x = reserved (q_state x)) by done.
  rewrite !abs_split, !Ew, !Eh, Hkey. rewrite Eh in Ha, Ha'.
  destruct (q_state r) eqn:Es, (q_state r') eqn:Es'; try discriminate Hl; simpl in *;
    try (destruct (Ha eq_refl) as [E1 E2]; rewrite E1, E2);
    try (destruct (Ha' eq_refl) as [E1 E2]; rewrite ?E1, ?E2); simpl;
    rewrite ?Es, ?Es', ?Hkey, ?app_nil_r; try (rewrite Hfirst by done); simpl;
    first [ reflexivity | apply rtc_once; by constructor; auto ].
Qed.

(** Admitting the first waiting row of an idle worker. *)
Lemma lease_admission :
  q_state r = OperationQueued -> q_state r' = OperationAdmitting -> select waits l1 = [] ->
  rtc lease_step (abs_rows (l1 ++ r :: l2)) (abs_rows (l1 ++ r' :: l2)).
Proof using All.
  intros Es Es' Hw. assert (Hr' : holds r' = true) by (unfold holds; by rewrite Es').
  destruct (holds_alone l1 r' l2 Hone' Hr') as [E1 E2].
  rewrite !abs_split, E1, E2, Hw, Hr'. unfold waits, holds. rewrite Es, Es', Hkey. simpl. rewrite Es', Hkey.
  apply rtc_once. constructor.
Qed.

End OneRow.
