(* ===== verification/QueueInv.v ===== *)
(** * The invariant of the durable queue

    [QInv] is what every method of the store maintains about [control_queue]
    and its jobs and builds; [evolves] is what every method guarantees between
    the database before and after it.  The lemmas of this file are about single
    statements; [QueueOps] composes them into one lemma per method. *)
From S2P Require Import Prelude Model GoMonad GoLib Table Schema JobStore Lease.

(** The states in which an operation may own runtime resources. *)
Definition leased (s : OperationState) : bool :=
  match s with OperationAdmitting | OperationActive => true | _ => false end.

(** How far an operation has come.  [queued] and [admitting] share a phase: a
    queued operation is admitted, and an admitted one may be put back. *)
Definition phase (s : OperationState) : Z :=
  match s with
  | OperationQueued | OperationAdmitting => 0
  | OperationActive => 1
  | OperationTerminalizing => 2
  | OperationCleaning => 3
  | OperationReleased => 4
  end.

Definition build_phase (s : BuildStatus) : Z :=
  match s with BuildQueued => 0 | BuildRunning => 1 | _ => 2 end.

(** The keys of the accepted operations. *)
Definition operation_keys (t : Tables) : list (OperationKind * string) :=
  map (fun j => (OperationJob, jr_id j)) (control_jobs t) ++ map (fun b => (OperationBuild, br_id b)) (control_builds t).

Record QInv (t : Tables) : Prop := {
  (** rows are stored in the order of acceptance, below the counter *)
  qi_sorted : StronglySorted Z.lt (map q_sequence (control_queue t));
  qi_bound : Forall (fun s => 0 < s <= queue_seq t) (map q_sequence (control_queue t));
  qi_seq : 0 <= queue_seq t;
  (** one queue row per job and per build, and no other *)
  qi_keys : NoDup (map q_key (control_queue t));
  qi_operations : map q_key (control_queue t) ≡ₚ operation_keys t;
  (** identifiers and idempotency keys are unique *)
  qi_jobs : t_valid ControlJobs (control_jobs t) = true;
  qi_builds : t_valid ControlBuilds (control_builds t) = true;
  (** at most one operation occupies the worker *)
  qi_one : (count (fun r => reserved (q_state r)) (control_queue t) <= 1)%nat;
  (** and it did not overtake an operation that still waits *)
  qi_fifo : forall r r', r ∈ control_queue t -> r' ∈ control_queue t ->
    leased (q_state r) = true -> q_state r' = OperationQueued -> q_sequence r < q_sequence r'
}.

(** ** What a method may do to a row *)

Definition same_job_input (j j' : JobRow) : Prop :=
  jr_id j' = jr_id j /\ jr_project_id j' = jr_project_id j /\ jr_image j' = jr_image j /\
  jr_command j' = jr_command j /\ jr_working_directory j' = jr_working_directory j /\
  jr_environment j' = jr_environment j /\ jr_secrets j' = jr_secrets j /\ jr_caches j' = jr_caches j /\
  jr_timeout_millis j' = jr_timeout_millis j /\ jr_created_at j' = jr_created_at j /\
  jr_idempotency_key j' = jr_idempotency_key j /\ jr_request_hash j' = jr_request_hash j.

Definition job_evolves (j j' : JobRow) : Prop :=
  same_job_input j j' /\ (Terminal (jr_status j) = true -> j' = j).

Definition build_evolves (b b' : BuildRow) : Prop :=
  br_id b' = br_id b /\ br_project_id b' = br_project_id b /\ br_idempotency_key b' = br_idempotency_key b /\
  br_request_hash b' = br_request_hash b /\ br_created_at b' = br_created_at b /\
  build_phase (br_status b) <= build_phase (br_status b') /\
  (build_terminal (br_status b) = true -> b' = b).

Definition queue_evolves (r r' : QueueRow) : Prop :=
  q_sequence r' = q_sequence r /\ q_key r' = q_key r /\ q_accepted_at r' = q_accepted_at r /\
  phase (q_state r) <= phase (q_state r') /\ (q_state r = OperationReleased -> r' = r).

Record evolves (t t' : Tables) : Prop := {
  ev_jobs : grows job_evolves (control_jobs t) (control_jobs t');
  ev_builds : grows build_evolves (control_builds t) (control_builds t');
  ev_queue : grows queue_evolves (control_queue t) (control_queue t')
}.

Lemma job_evolves_refl j : job_evolves j j.
Proof. repeat split. Qed.
Lemma build_evolves_refl b : build_evolves b b.
Proof. repeat split; lia. Qed.
Lemma queue_evolves_refl r : queue_evolves r r.
Proof. repeat split; lia. Qed.

Lemma job_evolves_trans j1 j2 j3 : job_evolves j1 j2 -> job_evolves j2 j3 -> job_evolves j1 j3.
Proof.
  intros [H1 H1'] [H2 H2']. unfold job_evolves, same_job_input in *. split; [intuition congruence|].
  intros Ht. specialize (H1' Ht) as ->. auto.
Qed.
Lemma build_evolves_trans b1 b2 b3 : build_evolves b1 b2 -> build_evolves b2 b3 -> build_evolves b1 b3.
Proof.
  intros (?&?&?&?&?&?&HA) (?&?&?&?&?&?&HB). repeat split; [congruence..|lia|].
  intros Ht. specialize (HA Ht) as ->. auto.
Qed.
Lemma queue_evolves_trans r1 r2 r3 : queue_evolves r1 r2 -> queue_evolves r2 r3 -> queue_evolves r1 r3.
Proof.
  intros (?&?&?&?&HA) (?&?&?&?&HB). repeat split; [congruence..|lia|].
  intros Ht. specialize (HA Ht) as ->. auto.
Qed.

#[export] Instance evolves_preorder : PreOrder evolves.
Proof.
  split.
  - intros t. split; apply grows_refl; auto using job_evolves_refl, build_evolves_refl, queue_evolves_refl.
  - intros t1 t2 t3 [] []. split; eapply grows_trans; eauto using job_evolves_trans, build_evolves_trans, queue_evolves_trans.
Qed.

(** The invariant, and the guarantees relative to an earlier state: the rows
    evolved, and the queue took steps of the abstract lease. *)
Definition good (t t' : Tables) : Prop := QInv t' /\ evolves t t' /\ rtc lease_step (abs t) (abs t').

Lemma good_refl t : QInv t -> good t t.
Proof. split; [done | split; reflexivity]. Qed.

Lemma good_trans t1 t2 t3 : good t1 t2 -> good t2 t3 -> good t1 t3.
Proof. intros (_ & H1 & L1) (H2 & H3 & L2). split; [done|]. split; by etrans. Qed.

(** ** Statements on one table *)

(** The moves of a queue row other than admission. *)
Definition queue_move (r r' : QueueRow) : Prop :=
  queue_evolves r r' /\ lawful (q_state r) (q_state r') = true.

Lemma queue_valid_one rows :
  t_valid ControlQueue rows = true -> (count holds rows <= 1)%nat.
Proof. simpl. rewrite !andb_true_iff. intros [_ H]. by apply Nat.leb_le in H. Qed.

Lemma leased_reserved s : leased s = true -> reserved s = true.
Proof. by destruct s. Qed.

(** In a table sorted by sequence, no row waits before the holder. *)
Lemma no_wait_before l1 r l2 :
  StronglySorted Z.lt (map q_sequence (l1 ++ r :: l2)) ->
  (forall r', r' ∈ l1 -> q_state r' = OperationQueued -> q_sequence r < q_sequence r') ->
  select waits l1 = [].
Proof.
  intros Hs Hf. destruct (select waits l1) as [|x l] eqn:E; [done|]. exfalso.
  assert (Hx : x ∈ select waits l1) by (rewrite E; constructor).
  apply elem_of_select in Hx as [Hx Hw]. apply bool_decide_eq_true in Hw.
  specialize (Hf _ Hx Hw). apply list_elem_of_split in Hx as (a & b & ->).
  rewrite <- (assoc_L (++)), map_app in Hs. apply StronglySorted_app_1_r in Hs. simpl in Hs.
  apply StronglySorted_inv in Hs as [_ Hs]. rewrite Forall_forall in Hs.
  specialize (Hs (q_sequence r)). rewrite map_app in Hs. simpl in Hs.
  enough (q_sequence x < q_sequence r) by lia. apply Hs. set_solver.
Qed.

(** An update of [control_queue] that keeps the first come, first served order
    keeps the invariant. *)
Lemma good_queue_update t p f :
  QInv t -> (forall r, r ∈ control_queue t -> p r = true -> queue_evolves r (f r)) ->
  let rows := update_where p f (control_queue t) in
  t_valid ControlQueue rows = true ->
  (forall r r', r ∈ rows -> r' ∈ rows -> leased (q_state r) = true -> q_state r' = OperationQueued ->
    q_sequence r < q_sequence r') ->
  rtc lease_step (abs t) (abs_rows rows) ->
  good t (set_control_queue rows t).
Proof.
  intros [Hs Hb Hn Hk Ho Hj Hbd H1 Hf] Hev rows Hv Hfifo Hl. subst rows.
  assert (Eseq : map q_sequence (update_where p f (control_queue t)) = map q_sequence (control_queue t)).
  { apply map_update_same. intros r Hr Hp. by destruct (Hev r Hr Hp) as (?&?&_). }
  assert (Ekey : map q_key (update_where p f (control_queue t)) = map q_key (control_queue t)).
  { apply map_update_same. intros r Hr Hp. by destruct (Hev r Hr Hp) as (?&?&_). }
  split; [|split; [|exact Hl]].
  - split; simpl; rewrite ?Eseq, ?Ekey; try done. by apply queue_valid_one.
  - split; simpl.
    + apply grows_refl, job_evolves_refl.
    + apply grows_refl, build_evolves_refl.
    + apply grows_update; auto using queue_evolves_refl.
Qed.

(** The lease takes a step when the one row with key [k] moves lawfully. *)
Lemma lease_update t k p f :
  QInv t -> (forall r, r ∈ control_queue t -> p r = true -> q_key r = k /\ queue_move r (f r)) ->
  t_valid ControlQueue (update_where p f (control_queue t)) = true ->
  rtc lease_step (abs t) (abs_rows (update_where p f (control_queue t))).
Proof.
  intros HI Hm Hv. apply queue_valid_one in Hv. unfold abs.
  destruct (update_where_key p f k (control_queue t)) as [->|(l1 & r & l2 & E & Hp & Hkr & Eu)];
    [apply HI | intros r Hr Hp; by apply Hm | reflexivity |].
  pose proof (qi_one _ HI) as Hone. pose proof (qi_sorted _ HI) as Hs. pose proof (qi_fifo _ HI) as Hf.
  rewrite Eu in *. rewrite E in *.
  assert (Hr : r ∈ l1 ++ r :: l2) by set_solver. destruct (Hm r Hr Hp) as (_ & (_ & Ekey & _) & Hlaw).
  apply lease_move; [done | done | done | done |]. intros Ha Hq.
  apply (no_wait_before l1 r l2 Hs). intros x Hx Hxq. apply Hf; [done | set_solver | by rewrite Ha | done].
Qed.

Lemma lawful_leased s s' : lawful s s' = true -> leased s' = true -> leased s = true.
Proof. by destruct s, s'. Qed.
Lemma lawful_queued s s' :
  lawful s s' = true -> s' = OperationQueued -> s = OperationQueued \/ s = OperationAdmitting.
Proof. intros H ->. destruct s; simpl in H; auto; discriminate. Qed.

Lemma good_queue_move t k p f :
  QInv t -> (forall r, r ∈ control_queue t -> p r = true -> q_key r = k /\ queue_move r (f r)) ->
  t_valid ControlQueue (update_where p f (control_queue t)) = true ->
  good t (set_control_queue (update_where p f (control_queue t)) t).
Proof.
  intros HI Hm Hv.
  apply good_queue_update; [done | intros r Hr Hp; by apply Hm | done | | by eapply lease_update].
  intros r r' Hr Hr' Hl Hq. apply elem_of_update in Hr as (r0 & Hr0 & ->).
  apply elem_of_update in Hr' as (r1 & Hr1 & ->).
  assert (Hl0 : leased (q_state r0) = true).
  { destruct (p r0) eqn:E; [|done]. destruct (Hm _ Hr0 E) as (_ & _ & Hlaw). by eapply lawful_leased. }
  assert (Eseq : forall x, x ∈ control_queue t -> q_sequence (if p x then f x else x) = q_sequence x).
  { intros x Hx. destruct (p x) eqn:E; [|done]. by destruct (Hm _ Hx E) as (_ & (?&_) & _). }
  rewrite !Eseq by done. destruct (p r1) eqn:E1; [|by eapply qi_fifo].
  destruct (Hm _ Hr1 E1) as (_ & _ & Hlaw).
  destruct (lawful_queued _ _ Hlaw Hq) as [Hq1|Ha1]; [by eapply qi_fifo|].
  (* the requeued row held the worker, so no other row does *)
  assert (r0 = r1) as ->.
  { apply (count_le_one_elem (fun r => reserved (q_state r)) (control_queue t)); auto using qi_one, leased_reserved.
    rewrite Ha1. done. }
  exfalso. rewrite E1, Hq in Hl. discriminate.
Qed.

Lemma job_evolves_valid p f rows :
  (forall j, j ∈ rows -> p j = true -> job_evolves j (f j)) ->
  t_valid ControlJobs (update_where p f rows) = t_valid ControlJobs rows.
Proof.
  intros H. simpl. unfold unique_where, unique.
  rewrite map_update_same, map_select_update; [done| |]; intros j Hj Hp;
    destruct (H j Hj Hp) as [(?&?&?&?&?&?&?&?&?&?&E&?) _]; simpl; rewrite ?E; [split|]; congruence.
Qed.

Lemma build_evolves_valid p f rows :
  (forall b, b ∈ rows -> p b = true -> build_evolves b (f b)) ->
  t_valid ControlBuilds (update_where p f rows) = t_valid ControlBuilds rows.
Proof.
  intros H. simpl. unfold unique_where, unique.
  rewrite map_update_same, map_select_update; [done| |]; intros j Hj Hp;
    destruct (H j Hj Hp) as (?&?&E&_); simpl; rewrite ?E; [split|]; congruence.
Qed.

(** An update of jobs or builds that leaves the terminal ones alone. *)
Lemma good_job_update t p f :
  QInv t -> (forall j, j ∈ control_jobs t -> p j = true -> job_evolves j (f j)) ->
  good t (set_control_jobs (update_where p f (control_jobs t)) t).
Proof.
  intros [Hs Hb Hn Hk Ho Hj Hbd H1 Hf] Hev.
  assert (E : forall A (g : string -> A), map (fun j => g (jr_id j)) (update_where p f (control_jobs t))
                = map (fun j => g (jr_id j)) (control_jobs t)).
  { intros A g. apply (map_update_same (fun j => g (jr_id j))). intros j Hj' Hp.
    by destruct (Hev _ Hj' Hp) as ((->&_)&_). }
  split.
  - split; simpl; try done.
    + rewrite Ho. unfold operation_keys; simpl. by rewrite (E _ (pair OperationJob)).
    + rewrite <- Hj. by apply job_evolves_valid.
  - split; [|reflexivity]. split; simpl.
    + apply grows_update; auto using job_evolves_refl.
    + apply grows_refl, build_evolves_refl.
    + apply grows_refl, queue_evolves_refl.
Qed.

Lemma good_build_update t p f :
  QInv t -> (forall b, b ∈ control_builds t -> p b = true -> build_evolves b (f b)) ->
  good t (set_control_builds (update_where p f (control_builds t)) t).
Proof.
  intros [Hs Hb Hn Hk Ho Hj Hbd H1 Hf] Hev.
  assert (E : forall A (g : string -> A), map (fun b => g (br_id b)) (update_where p f (control_builds t))
                = map (fun b => g (br_id b)) (control_builds t)).
  { intros A g. apply (map_update_same (fun b => g (br_id b))). intros b Hb' Hp.
    by destruct (Hev _ Hb' Hp) as (->&_). }
  split.
  - split; simpl; try done.
    + rewrite Ho. unfold operation_keys; simpl. by rewrite (E _ (pair OperationBuild)).
    + rewrite <- Hbd. by apply build_evolves_valid.
  - split; [|reflexivity]. split; simpl.
    + apply grows_refl, job_evolves_refl.
    + apply grows_update; auto using build_evolves_refl.
    + apply grows_refl, queue_evolves_refl.
Qed.

(** Tables the invariant does not mention. *)
Lemma good_frame t t' :
  QInv t -> control_jobs t' = control_jobs t -> control_builds t' = control_builds t ->
  control_queue t' = control_queue t -> queue_seq t' = queue_seq t -> good t t'.
Proof.
  intros [Hs Hb Hn Hk Ho Hj Hbd H1 Hf] Ej Eb Eq En. split.
  - split; unfold operation_keys; rewrite ?Ej, ?Eb, ?Eq, ?En; done.
  - split; [|unfold abs; by rewrite Eq]. split; rewrite ?Ej, ?Eb, ?Eq; apply grows_refl;
      auto using job_evolves_refl, build_evolves_refl, queue_evolves_refl.
Qed.

(** ** Accepting an operation *)

Lemma unique_NoDup {R K} `{EqDecision K} (key : R -> K) rows :
  unique key rows = true -> NoDup (map key rows).
Proof. apply bool_decide_eq_true_1. Qed.

Lemma sorted_snoc l n m :
  StronglySorted Z.lt l -> Forall (fun s => 0 < s <= n) l -> n < m -> StronglySorted Z.lt (l ++ [m]).
Proof.
  induction 1 as [|x l Hs IH Hx]; intros Hb Hm; simpl; repeat constructor.
  - inversion Hb; subst. by apply IH.
  - apply Forall_app. split; [done|]. inversion Hb; subst. apply Forall_singleton. lia.
Qed.

Lemma unique_valid_jobs rows : t_valid ControlJobs rows = true -> NoDup (map jr_id rows).
Proof. simpl. rewrite andb_true_iff. intros [H _]. by apply unique_NoDup. Qed.

Lemma unique_valid_builds rows : t_valid ControlBuilds rows = true -> NoDup (map br_id rows).
Proof. simpl. rewrite andb_true_iff. intros [H _]. by apply unique_NoDup. Qed.

Lemma good_accept t t1 id kind r :
  QInv t -> control_queue t1 = control_queue t -> queue_seq t1 = queue_seq t ->
  operation_keys t1 ≡ₚ (kind, id) :: operation_keys t ->
  t_valid ControlJobs (control_jobs t1) = true -> t_valid ControlBuilds (control_builds t1) = true ->
  grows job_evolves (control_jobs t) (control_jobs t1) ->
  grows build_evolves (control_builds t) (control_builds t1) ->
  q_sequence r = queue_seq t + 1 -> q_key r = (kind, id) -> q_state r = OperationQueued ->
  t_valid ControlQueue (control_queue t1 ++ [r]) = true ->
  good t (set_control_queue (control_queue t1 ++ [r]) (set_queue_seq (queue_seq t1 + 1) t1)).
Proof.
  intros [Hs Hb Hn Hk Ho Hj Hbd H1 Hf] Eq En Eo Hj1 Hb1 Gj Gb Es Ek Est Hv. rewrite Eq in *.
  assert (Hv1 := queue_valid_one _ Hv). simpl in Hv. rewrite !andb_true_iff in Hv.
  destruct Hv as [[_ Hkeys] _]. apply unique_NoDup in Hkeys.
  split.
  - split; simpl; rewrite ?map_app; simpl; rewrite ?Es, ?Ek, ?En; try done.
    + eapply sorted_snoc; [done | exact Hb | lia].
    + apply Forall_app. split; [|apply Forall_singleton; lia].
      eapply Forall_impl; [exact Hb|]. simpl. intros. lia.
    + lia.
    + rewrite map_app in Hkeys. simpl in Hkeys. by rewrite Ek in Hkeys.
    + rewrite Ho. unfold operation_keys in *. simpl. rewrite Eo. by rewrite Permutation_app_comm.
    + intros r1 r2 H1' H2' Hl Hq. apply elem_of_app in H1', H2'.
      rewrite list_elem_of_singleton in H1', H2'. destruct H1' as [H1'| ->]; [|rewrite Est in Hl; discriminate].
      destruct H2' as [H2'| ->]; [by eapply Hf|]. rewrite Es.
      eapply (proj1 (Forall_forall _ _)) in Hb.
      2:{ apply list_elem_of_In, List.in_map, list_elem_of_In, H1'. } simpl in Hb. lia.
  - split; [split; simpl; [done|done|]; rewrite ?Eq; apply grows_snoc, queue_evolves_refl|].
    unfold abs, abs_rows. simpl. rewrite ?Eq, !select_app, map_app. unfold waits, holds; simpl. rewrite Est. simpl.
    rewrite app_nil_r. apply rtc_once. constructor.
Qed.
