(* ===== verification/QueueOps.v ===== *)
(** * Every method of the job store keeps the queue invariant

    [preserves m]: from a database that satisfies [QInv], whatever the clock,
    the random source and the driver do, [m] ends (with a value or an error) in
    a database that satisfies [QInv] and that [evolves] from the first. *)
From S2P Require Import Prelude Model GoMonad GoLib Table Schema JobStore Lease QueueInv.

Definition preserves {A : Type} (m : StoreM A) : Prop :=
  forall o d, QInv (tabs d) ->
    wp o m (fun _ d' => good (tabs d) (tabs d')) (fun _ d' => good (tabs d) (tabs d')) d.

Create HintDb preserves discriminated.
#[export] Hint Constants Opaque : preserves.

Section Rules.
Implicit Types (d : Database).

Lemma preserves_ret {A} (a : A) : preserves (mret a).
Proof. intros o d Hd. by apply wp_ret, good_refl. Qed.

Lemma preserves_throw {A} e : preserves (throw (A := A) e).
Proof. intros o d Hd. by apply wp_throw, good_refl. Qed.

Lemma preserves_bind {A B} (m : StoreM A) (k : A -> StoreM B) :
  preserves m -> (forall a, preserves (k a)) -> preserves (m ≫= k).
Proof.
  intros Hm Hk o d Hd. apply wp_bind. eapply wp_mono; [by apply Hm| |auto]. simpl. intros a d' Hg.
  eapply wp_mono; [apply Hk, Hg| |]; simpl; intros; by eapply good_trans.
Qed.

Lemma preserves_fmap {A B} (f : A -> B) (m : StoreM A) : preserves m -> preserves (f <$> m).
Proof. intros Hm. apply preserves_bind; [done|]. intros a. apply preserves_ret. Qed.

Lemma preserves_attempt {A} (m : StoreM A) : preserves m -> preserves (attempt m).
Proof. intros Hm o d Hd. apply wp_attempt. by apply Hm. Qed.

Lemma preserves_now : preserves time_Now.
Proof. intros o d Hd. apply wp_now. intros t. by apply good_refl. Qed.

Lemma preserves_query {A} (f : Database -> A) : preserves (query f).
Proof. intros o d Hd. apply wp_query; intros; by apply good_refl. Qed.

Lemma preserves_query_row {A} (f : Database -> option A) : preserves (query_row f).
Proof. intros o d Hd. apply wp_query_row; [destruct (f d)|]; intros; by apply good_refl. Qed.

Lemma preserves_rand n : preserves (rand_Read n).
Proof. intros o d Hd. apply wp_rand_Read; intros; by apply good_refl. Qed.

Lemma preserves_transaction {A} (m : StoreM (tx A)) : preserves m -> preserves (transaction m).
Proof.
  intros Hm o d Hd. apply wp_transaction; [|intros; by apply good_refl].
  eapply wp_mono; [by apply Hm| |]; simpl.
  - intros [a|a] d' Hg; [done | by apply good_refl].
  - intros e d' _. by apply good_refl.
Qed.

Lemma preserves_queue_move kind id states f :
  (forall r, q_state r ∈ states -> queue_move r (f r)) ->
  preserves (exec_update ControlQueue (q_match kind id states) f).
Proof.
  intros Hm o d Hd. apply wp_update; [|intros; by apply good_refl..].
  intros Hv fd. apply (good_queue_move _ (kind, id)); try done. intros r _ Hr.
  unfold q_match in Hr. rewrite andb_true_iff, !bool_decide_eq_true in Hr. naive_solver.
Qed.

Lemma preserves_job_update (p : Tables -> JobRow -> bool) f :
  (forall t j, p t j = true -> job_evolves j (f t j)) -> preserves (exec_update_with ControlJobs p f).
Proof.
  intros Hm o d Hd. apply wp_update_with; [|intros; by apply good_refl..].
  intros Hv fd. apply good_job_update; auto.
Qed.

Lemma preserves_build_update p f :
  (forall b, p b = true -> build_evolves b (f b)) -> preserves (exec_update ControlBuilds p f).
Proof.
  intros Hm o d Hd. apply wp_update; [|intros; by apply good_refl..].
  intros Hv fd. apply good_build_update; auto.
Qed.

End Rules.

(** ** Side conditions *)

(** A job update that only touches live jobs through [jr_set]. *)
Lemma job_evolves_set j digest status started finished code error cancel worker :
  Terminal (jr_status j) = false ->
  job_evolves j (jr_set digest status started finished code error cancel worker j).
Proof. intros H. split; [done|]. intros H'. congruence. Qed.

(** The state of a matched row. *)
Lemma q_match_state kind id states r : q_match kind id states r = true -> q_state r ∈ states.
Proof. unfold q_match. rewrite andb_true_iff, !bool_decide_eq_true. by intros [_ Hs]. Qed.

(** Solves [queue_move r (f r)] for the rows in an explicit list of states. *)
Ltac solve_queue_move :=
  intros r Hr;
  repeat (apply elem_of_cons in Hr as [Hr|Hr]); try (by apply elem_of_nil in Hr);
  unfold queue_move, queue_evolves, q_move, q_lease, q_set, q_key; simpl;
  try rewrite Hr; repeat (case_bool_decide; try congruence); simpl; repeat split; try lia; try congruence; auto.

(** Solves [job_evolves j (jr_set ... j)] for the rows an id and status test select. *)
Ltac solve_job_update :=
  intros t j Hj; apply job_evolves_set; unfold j_match, live in Hj;
  apply andb_true_iff in Hj as [_ Hj];
  repeat (apply orb_true_iff in Hj as [Hj|Hj]);
  first [ by apply negb_true_iff in Hj
        | apply bool_decide_eq_true in Hj; by rewrite Hj ].

Ltac solve_build_update :=
  intros b Hb; unfold b_match, unfinished, build_evolves in *; apply andb_true_iff in Hb as [_ Hb];
  repeat (apply orb_true_iff in Hb as [Hb|Hb]); apply bool_decide_eq_true in Hb; rewrite Hb; simpl;
  repeat split; auto; try discriminate; try lia;
  repeat match goal with
  | H : negb (build_terminal ?s) = false |- _ => destruct s; simpl in *; try discriminate; lia
  end.

Ltac preserve_step :=
  match goal with
  | |- preserves (mret _) => apply preserves_ret
  | |- preserves (throw _) => apply preserves_throw
  | |- preserves time_Now => apply preserves_now
  | |- preserves (query _) => apply preserves_query
  | |- preserves (query_row _) => apply preserves_query_row
  | |- preserves (rand_Read _) => apply preserves_rand
  | |- preserves (transaction _) => apply preserves_transaction
  | |- preserves (_ <$> _) => apply preserves_fmap
  | |- preserves (attempt _) => apply preserves_attempt
  | |- preserves (_ ≫= _) => apply preserves_bind; [|intros ?]
  | |- preserves (exec_update ControlQueue _ _) => apply preserves_queue_move; solve_queue_move
  | |- preserves (exec_update ControlJobs _ _) => apply preserves_job_update; solve_job_update
  | |- preserves (exec_update_with ControlJobs _ _) => apply preserves_job_update; solve_job_update
  | |- preserves (exec_update ControlBuilds _ _) => apply preserves_build_update; solve_build_update
  | |- preserves (match _ with _ => _ end) => case_match
  | |- preserves _ => solve [eauto with preserves]
  end.

Ltac preserve := repeat preserve_step.

(** ** Reads and helpers *)

Lemma expect_one_preserves count e : preserves (expect_one count e).
Proof. unfold expect_one. preserve. Qed.

Lemma or_not_found_preserves {A} (m : StoreM A) : preserves m -> preserves (or_not_found m).
Proof. intros Hm. unfold or_not_found. preserve. Qed.
#[export] Hint Resolve expect_one_preserves or_not_found_preserves preserves_query_row preserves_fmap : preserves.

Lemma getJob_preserves id : preserves (getJob id).
Proof. apply or_not_found_preserves. preserve. Qed.
Lemma getBuild_preserves id : preserves (getBuild id).
Proof. apply or_not_found_preserves. preserve. Qed.
Lemma OperationStateOf_preserves kind id : preserves (OperationStateOf kind id).
Proof. apply or_not_found_preserves. preserve. Qed.
#[export] Hint Resolve getJob_preserves getBuild_preserves OperationStateOf_preserves : preserves.

(** ** Transitions *)

Lemma QueueJob_preserves id digest : preserves (QueueJob id digest).
Proof. unfold QueueJob. preserve. Qed.

Lemma SyncJob_preserves id remote : preserves (SyncJob id remote).
Proof. unfold SyncJob. preserve. Qed.

Lemma RequestJobCancellation_preserves id : preserves (RequestJobCancellation id).
Proof. unfold RequestJobCancellation. preserve. Qed.

Lemma FailJob_preserves id message : preserves (FailJob id message).
Proof. unfold FailJob. preserve. Qed.

Lemma FinishBuild_preserves id status code : preserves (FinishBuild id status code).
Proof. unfold FinishBuild. preserve. Qed.

Lemma RequeueAdmittingOperation_preserves kind id : preserves (RequeueAdmittingOperation kind id).
Proof. unfold RequeueAdmittingOperation. preserve. Qed.

Lemma ActivateOperation_preserves kind id : preserves (ActivateOperation kind id).
Proof. unfold ActivateOperation. preserve. Qed.

Lemma BeginOperationCleanup_preserves kind id : preserves (BeginOperationCleanup kind id).
Proof. unfold BeginOperationCleanup. preserve. Qed.

Lemma ClaimOperationCleanup_preserves : preserves ClaimOperationCleanup.
Proof. unfold ClaimOperationCleanup. preserve. Qed.

Lemma RecordOperationCleanupFailure_preserves kind id message :
  preserves (RecordOperationCleanupFailure kind id message).
Proof. unfold RecordOperationCleanupFailure. preserve. Qed.

Lemma CompleteOperationCleanup_preserves kind id : preserves (CompleteOperationCleanup kind id).
Proof. unfold CompleteOperationCleanup. preserve. Qed.

Lemma CancelQueuedOperation_preserves kind id : preserves (CancelQueuedOperation kind id).
Proof. unfold CancelQueuedOperation. preserve. Qed.

Lemma RenewOperationLease_preserves kind id : preserves (RenewOperationLease kind id).
Proof. unfold RenewOperationLease. preserve. Qed.

(** ** Admission *)

Lemma least_sequence_spec rows r :
  least_sequence rows = Some r -> r ∈ rows /\ forall r', r' ∈ rows -> q_sequence r <= q_sequence r'.
Proof.
  revert r. induction rows as [|x rows IH]; intros r H; [discriminate|]. simpl in H.
  destruct (least_sequence rows) as [y|] eqn:E.
  - destruct (IH y eq_refl) as [Hy Hmin]. destruct (Z.ltb_spec (q_sequence y) (q_sequence x)); simplify_eq.
    + split; [by constructor|]. intros r' [->|Hr']%elem_of_cons; [lia | auto].
    + split; [constructor|]. intros r' [->|Hr']%elem_of_cons; [lia |]. specialize (Hmin _ Hr'). lia.
  - simplify_eq. destruct rows as [|z rows].
    + split; [constructor|]. intros r' Hr'. apply list_elem_of_singleton in Hr' as ->. lia.
    + simpl in E. destruct (least_sequence rows); [case_match|]; discriminate.
Qed.

Lemma least_sequence_None rows : least_sequence rows = None -> rows = [].
Proof. destruct rows as [|x rows]; simpl; [done|]. destruct (least_sequence rows); [case_match|]; discriminate. Qed.

Lemma first_in_spec states d r :
  first_in states d = Some r ->
  r ∈ control_queue (tabs d) /\ q_state r ∈ states /\
  forall r', r' ∈ control_queue (tabs d) -> q_state r' ∈ states -> q_sequence r <= q_sequence r'.
Proof.
  unfold first_in. intros H. apply least_sequence_spec in H as [Hr Hmin].
  apply elem_of_select in Hr as [Hr Hs]. apply bool_decide_eq_true in Hs.
  repeat split; [done..|]. intros r' Hr' Hs'. apply Hmin, elem_of_select. split; [done|]. by apply bool_decide_eq_true.
Qed.

Lemma first_in_None states d r :
  first_in states d = None -> r ∈ control_queue (tabs d) -> q_state r ∉ states.
Proof.
  unfold first_in. intros H Hr Hs. apply least_sequence_None in H.
  assert (Hin : r ∈ select (fun r => bool_decide (q_state r ∈ states)) (control_queue (tabs d))).
  { apply elem_of_select. split; [done|]. by apply bool_decide_eq_true. }
  rewrite H in Hin. by apply elem_of_nil in Hin.
Qed.

(** Two rows with the same sequence, or with the same key, are the same row. *)
Lemma q_sequence_inj t r r' :
  QInv t -> r ∈ control_queue t -> r' ∈ control_queue t -> q_sequence r = q_sequence r' -> r = r'.
Proof.
  intros HI. apply NoDup_map_inj. apply qi_sorted in HI.
  induction HI as [|x l _ IH Hx]; constructor; [|done]. intros Hin.
  rewrite Forall_forall in Hx. specialize (Hx _ Hin). lia.
Qed.

Lemma q_key_inj t r r' :
  QInv t -> r ∈ control_queue t -> r' ∈ control_queue t -> q_key r = q_key r' -> r = r'.
Proof. intros HI. apply NoDup_map_inj, qi_keys, HI. Qed.

(** Admitting the waiting row with the least sequence on an idle worker. *)
Lemma good_admit d row leasedAt :
  QInv (tabs d) -> count (fun r => reserved (q_state r)) (control_queue (tabs d)) = 0%nat ->
  first_in [OperationQueued] d = Some row ->
  let p := q_match (q_kind row) (q_operation_id row) [OperationQueued] in
  let f := q_lease OperationAdmitting leasedAt in
  t_valid ControlQueue (update_where p f (control_queue (tabs d))) = true ->
  good (tabs d) (set_control_queue (update_where p f (control_queue (tabs d))) (tabs d)).
Proof.
  intros HI Hidle Hrow p f Hv. apply first_in_spec in Hrow as (Hin & Hst & Hmin).
  apply list_elem_of_singleton in Hst.
  assert (Hp : forall r, r ∈ control_queue (tabs d) -> p r = true -> r = row).
  { intros r Hr H. unfold p, q_match in H. apply andb_true_iff in H as [H _].
    apply bool_decide_eq_true in H. by eapply q_key_inj. }
  apply good_queue_update; [done | | done | |].
  - intros r _ H. apply q_match_state, list_elem_of_singleton in H.
    unfold queue_evolves, f, q_lease, q_set, q_key; simpl. rewrite H. simpl. repeat split; [lia|discriminate].
  - intros r r' Hr Hr' Hl Hq. apply elem_of_update in Hr as (r0 & Hr0 & ->).
    apply elem_of_update in Hr' as (r1 & Hr1 & ->).
    destruct (p r0) eqn:E0.
    2:{ apply leased_reserved in Hl. by rewrite (count_zero _ _ _ Hidle Hr0) in Hl. }
    assert (r0 = row) as -> by auto. simpl.
    destruct (p r1) eqn:E1; [simpl in Hq; discriminate|].
    assert (Hle : q_sequence row <= q_sequence r1).
    { apply Hmin; [done|]. rewrite Hq. constructor. }
    assert (q_sequence row <> q_sequence r1); [|lia].
    intros E. assert (row = r1) as -> by (by eapply q_sequence_inj). congruence.
  - apply queue_valid_one in Hv. unfold abs.
    destruct (update_where_key p f (q_key row) (control_queue (tabs d))) as [->|(l1 & r & l2 & E & Hpr & _ & Eu)];
      [apply HI | intros r Hr H; by rewrite (Hp r Hr H) | reflexivity |].
    rewrite Eu in *. assert (r = row) as -> by (apply Hp; [rewrite E; set_solver | done]).
    pose proof (qi_sorted _ HI) as Hs. pose proof (qi_one _ HI) as Hone. rewrite E in Hs, Hone |- *.
    apply lease_admission; [done | done | done | done | done |].
    apply (no_wait_before l1 row l2 Hs). intros x Hx Hxq.
    assert (q_sequence row <= q_sequence x) by (apply Hmin; [rewrite E; set_solver | rewrite Hxq; constructor]).
    assert (q_sequence row <> q_sequence x); [|lia]. intros Eq'.
    assert (row = x) as <- by (eapply q_sequence_inj; [done | done | rewrite E; set_solver | done]).
    pose proof (qi_keys _ HI) as Hnd. rewrite E, map_app in Hnd. apply NoDup_app in Hnd as (_ & Hd' & _).
    apply (Hd' (q_key row)); [by apply list_elem_of_In, List.in_map, list_elem_of_In | constructor].
Qed.

Lemma AcquireNextOperation_preserves : preserves AcquireNextOperation.
Proof.
  unfold AcquireNextOperation. apply preserves_transaction. intros o d Hd.
  repeat (wp_step || (intros; by apply good_refl)).
  unfold reserved_count. destruct (Z.ltb_spec 0 (Z.of_nat (count (fun r => reserved (q_state r)) (control_queue (tabs d))))).
  { by apply wp_ret, good_refl. }
  assert (Hidle : count (fun r => reserved (q_state r)) (control_queue (tabs d)) = 0%nat) by lia.
  repeat wp_step. destruct (first_in [OperationQueued] d) as [row|] eqn:E.
  - repeat sql_step; try (intros; by apply good_refl). intros Hv fd.
    unfold expect_one. case_match; repeat wp_step; by apply good_admit.
  - by apply wp_ret, good_refl.
  - intros s _. by apply wp_throw, good_refl.
Qed.

(** ** Emergency stop *)

Lemma emergency_finish_preserves message now row : preserves (emergency_finish message now row).
Proof. unfold emergency_finish. preserve. Qed.

(** Its statement leaves the queue alone. *)
Lemma emergency_finish_queue o message now row d :
  wp o (emergency_finish message now row) (fun _ d' => control_queue (tabs d') = control_queue (tabs d)) (fun _ _ => True) d.
Proof.
  unfold emergency_finish. destruct (q_kind row); apply wp_bind; apply wp_update; try done;
    intros Hv fd; unfold expect_one; case_match; by repeat wp_step.
Qed.

Lemma EmergencyStopActiveOperation_preserves message : preserves (EmergencyStopActiveOperation message).
Proof.
  unfold EmergencyStopActiveOperation. apply preserves_transaction. intros o d Hd.
  do 3 wp_step; [|intros s _; by apply wp_throw, good_refl].
  destruct (first_in _ d) as [row|] eqn:E; [|by apply wp_ret, good_refl].
  apply first_in_spec in E as (Hin & Hst & _). cbv zeta. wp_step. wp_step. apply wp_bind.
  eapply wp_mono; [apply wp_and; [by apply emergency_finish_preserves | apply emergency_finish_queue] | |];
    simpl; [intros _ d' [Hg Eq] | by intros e d' [Hg _]].
  do 3 wp_step. apply wp_update; try done. intros Hv fd. wp_step.
  eapply good_trans; [exact Hg|]. apply (good_queue_move _ (q_key row)); [apply Hg| |done].
  intros r Hr Hp. apply bool_decide_eq_true in Hp. simpl in Hr. rewrite Eq in Hr.
  assert (r = row) as -> by (by eapply q_key_inj). split; [done|].
  repeat (apply elem_of_cons in Hst as [Hst|Hst]); try (by apply elem_of_nil in Hst);
    unfold queue_move, queue_evolves, q_move, q_set, q_key; simpl; rewrite Hst; simpl; repeat split; try lia; congruence.
Qed.

(** ** Acceptance *)

Lemma randomID_preserves prefix : preserves (randomID prefix).
Proof. unfold randomID. preserve. Qed.

(** The body of a transaction answers for the database it commits only. *)
Definition commits {A : Type} (m : StoreM (tx A)) : Prop :=
  forall o d, QInv (tabs d) ->
    wp o m (fun r d' => match r with Commit _ => good (tabs d) (tabs d') | Return _ => True end) (fun _ _ => True) d.

Lemma commits_transaction {A} (m : StoreM (tx A)) : commits m -> preserves (transaction m).
Proof.
  intros Hm o d Hd. apply wp_transaction; [|intros; by apply good_refl].
  eapply wp_mono; [by apply Hm| |]; simpl.
  - intros [a|a] d' Hg; [done | by apply good_refl].
  - intros e d' _. by apply good_refl.
Qed.

Lemma preserves_commits {A} (m : StoreM (tx A)) : preserves m -> commits m.
Proof.
  intros Hm o d Hd. eapply wp_mono; [by apply Hm| |done]. simpl. by intros [a|a] d' Hg.
Qed.

Lemma commits_bind {A B} (m : StoreM A) (k : A -> StoreM (tx B)) :
  preserves m -> (forall a, commits (k a)) -> commits (m ≫= k).
Proof.
  intros Hm Hk o d Hd. apply wp_bind. eapply wp_mono; [by apply Hm| |done]. simpl. intros a d' Hg.
  eapply wp_mono; [apply Hk, Hg| |done]. simpl. intros [b|b] d2 Hg2; [by eapply good_trans | done].
Qed.

Lemma CreatePreparedJob_preserves input idempotency : preserves (CreatePreparedJob input idempotency).
Proof.
  unfold CreatePreparedJob. apply commits_transaction, commits_bind; [preserve|].
  intros [row|e]; [apply preserves_commits; preserve|].
  destruct e; try apply preserves_commits, preserves_throw.
  apply commits_bind; [apply randomID_preserves|]. intros id. apply commits_bind; [apply preserves_now|].
  intros now o d Hd. apply wp_bind, wp_insert; try done.
  intros Hv _ fd. apply wp_bind, wp_insert_with; try done.
  intros Hvq _ fd'. apply wp_ret.
  eapply (good_accept (tabs d) (set_control_jobs _ (tabs d)) id OperationJob);
    [done|reflexivity|reflexivity| | | | | |reflexivity|reflexivity|reflexivity|exact Hvq]; simpl.
  - unfold operation_keys. simpl. rewrite map_app. simpl.
    rewrite <- (assoc_L (++)). symmetry. apply Permutation_middle.
  - done.
  - apply Hd.
  - apply grows_snoc, job_evolves_refl.
  - apply grows_refl, build_evolves_refl.
Qed.

Lemma CreateBuild_preserves project idempotency : preserves (CreateBuild project idempotency).
Proof.
  unfold CreateBuild. apply commits_transaction, commits_bind; [preserve|].
  intros [row|e]; [apply preserves_commits; preserve|].
  destruct e; try apply preserves_commits, preserves_throw.
  apply commits_bind; [apply randomID_preserves|]. intros id. apply commits_bind; [apply preserves_now|].
  intros now o d Hd. apply wp_bind, wp_insert; try done.
  intros Hv _ fd. apply wp_bind, wp_insert_with; try done.
  intros Hvq _ fd'. apply wp_ret.
  eapply (good_accept (tabs d) (set_control_builds _ (tabs d)) id OperationBuild);
    [done|reflexivity|reflexivity| | | | | |reflexivity|reflexivity|reflexivity|exact Hvq]; simpl.
  - unfold operation_keys. simpl. rewrite map_app. simpl.
    rewrite (assoc_L (++)). symmetry. apply Permutation_cons_append.
  - apply Hd.
  - done.
  - apply grows_refl, job_evolves_refl.
  - apply grows_snoc, build_evolves_refl.
Qed.
