(* ===== verification/QueueSpec.v ===== *)
(** * What each call of the queue does

    Exact descriptions of the table a call leaves behind, on every branch, from
    a database that satisfies [QInv].  [with_row], [with_job] and [with_build]
    replace the one row that has the given key. *)

From S2P Require Import Prelude Model GoMonad GoLib Table Schema JobStore Lease QueueInv QueueOps.

Definition with_row (r' : QueueRow) (t : Tables) : Tables :=
  set_control_queue (replace_row q_key r' (control_queue t)) t.
Definition with_job (j' : JobRow) (t : Tables) : Tables :=
  set_control_jobs (replace_row jr_id j' (control_jobs t)) t.
Definition with_build (b' : BuildRow) (t : Tables) : Tables :=
  set_control_builds (replace_row br_id b' (control_builds t)) t.

(** The error outcome of a call that a driver error interrupts: the database is
    as it was. *)
Definition interrupted (o : Oracle) (d : Database) (e : Err) (d' : Database) : Prop :=
  d' = d /\ exists s, fails o s /\ e = ErrDriver s.

Lemma interrupted_intro o d s : fails o s -> interrupted o d (ErrDriver s) d.
Proof. intros H. split; [done|]. by exists s. Qed.
#[export] Hint Resolve interrupted_intro : core.

Lemma q_match_key kind id states r : q_match kind id states r = true -> q_key r = (kind, id).
Proof. unfold q_match. rewrite andb_true_iff, !bool_decide_eq_true. by intros [? _]. Qed.

Lemma q_match_true kind id states r :
  q_key r = (kind, id) -> q_state r ∈ states -> q_match kind id states r = true.
Proof. intros. unfold q_match. by rewrite !bool_decide_eq_true_2. Qed.

(** The queue stays valid when a row that holds the worker, or any row of an
    idle worker, moves. *)
Lemma valid_with_row t row r' :
  QInv t -> row ∈ control_queue t -> q_key r' = q_key row -> q_sequence r' = q_sequence row ->
  (reserved (q_state r') = true -> reserved (q_state row) = true \/ count holds (control_queue t) = 0%nat) ->
  t_valid ControlQueue (control_queue (with_row r' t)) = true.
Proof.
  intros HI Hr Hk Hs Hres. set (rows := control_queue (with_row r' t)).
  assert (Heq : forall x, x ∈ control_queue t -> bool_decide (q_key x = q_key r') = true -> x = row).
  { intros x Hx Hd. apply bool_decide_eq_true in Hd. eapply q_key_inj; [done..|congruence]. }
  assert (Eseq : map q_sequence rows = map q_sequence (control_queue t)).
  { apply map_update_same. intros x Hx Hd. by rewrite (Heq x Hx Hd). }
  assert (Ekey : map q_key rows = map q_key (control_queue t)).
  { apply map_update_same. intros x Hx Hd. by rewrite (Heq x Hx Hd). }
  simpl. unfold unique. rewrite !andb_true_iff, Eseq, Ekey. split; [split|]; [apply bool_decide_eq_true..|].
  - eapply (StronglySorted_lt_NoDup (map q_sequence (control_queue t))), HI.
  - apply HI.
  - apply Nat.leb_le. fold rows. subst rows.
    destruct (update_where_key (fun x => bool_decide (q_key x = q_key r')) (fun _ => r') (q_key row) (control_queue t))
      as [E|(l1 & x & l2 & E & Hp & _ & Eu)];
      [apply HI | intros x Hx Hd; by rewrite (Heq x Hx Hd) | simpl; unfold replace_row; rewrite E; apply HI |].
    simpl. unfold replace_row. rewrite Eu. assert (x = row) as -> by (apply Heq; [rewrite E; set_solver|done]).
    pose proof (qi_one _ HI) as Hone. rewrite E in Hone, Hres. unfold count, holds in *.
    rewrite !select_app, !length_app in *. simpl in *.
    destruct (reserved (q_state row)), (reserved (q_state r')); simpl in *; try lia.
Qed.

Lemma QInv_valid_queue t : QInv t -> t_valid ControlQueue (control_queue t) = true.
Proof.
  intros HI. simpl. unfold unique. rewrite !andb_true_iff, !bool_decide_eq_true.
  split; [split; [eapply StronglySorted_lt_NoDup|]|apply Nat.leb_le]; apply HI.
Qed.

(** ** Rules for the updates of one row *)

Lemma good_with_job t j j' :
  QInv t -> j ∈ control_jobs t -> job_evolves j j' -> good t (with_job j' t).
Proof.
  intros HI Hj Hev. apply good_job_update; [done|]. intros x Hx Hp. apply bool_decide_eq_true in Hp.
  assert (x = j) as ->; [|done]. eapply NoDup_map_inj; [apply unique_valid_jobs, HI|done..|].
  destruct Hev as [(?&_) _]. congruence.
Qed.

Lemma good_with_build t b b' :
  QInv t -> b ∈ control_builds t -> build_evolves b b' -> good t (with_build b' t).
Proof.
  intros HI Hb Hev. apply good_build_update; [done|]. intros x Hx Hp. apply bool_decide_eq_true in Hp.
  assert (x = b) as ->; [|done]. eapply NoDup_map_inj; [apply unique_valid_builds, HI|done..|].
  destruct Hev as (?&_). congruence.
Qed.

Section RowRules.
Context (o : Oracle) (d : Database) (HI : QInv (tabs d)).
Implicit Types (Q : Z -> Database -> Prop) (E : Err -> Database -> Prop).

Lemma wp_queue_hit row kind id states f Q E :
  row ∈ control_queue (tabs d) -> q_key row = (kind, id) -> q_state row ∈ states ->
  q_key (f row) = q_key row -> q_sequence (f row) = q_sequence row ->
  (reserved (q_state (f row)) = true -> reserved (q_state row) = true \/ count holds (control_queue (tabs d)) = 0%nat) ->
  (forall fd, Q 1 (mkDB (with_row (f row) (tabs d)) fd)) -> (forall s, fails o s -> E (ErrDriver s) d) ->
  wp o (exec_update ControlQueue (q_match kind id states) f) Q E d.
Proof using HI.
  intros Hr Hk Hs Hfk Hfs Hres HQ HE.
  apply (wp_update_row ControlQueue q_key row); try done; try apply HI.
  - intros x _ Hx. apply q_match_key in Hx. congruence.
  - by apply q_match_true.
  - by apply (valid_with_row (tabs d) row).
Qed.

Lemma wp_queue_miss kind id states f Q E :
  (forall r, r ∈ control_queue (tabs d) -> q_key r = (kind, id) -> q_state r ∉ states) ->
  Q 0 d -> (forall s, fails o s -> E (ErrDriver s) d) ->
  wp o (exec_update ControlQueue (q_match kind id states) f) Q E d.
Proof using HI.
  intros Hmiss HQ HE. apply wp_update_none; try done.
  - intros x Hx. destruct (q_match kind id states x) eqn:Ex; [|done]. exfalso.
    apply (Hmiss x Hx); [by eapply q_match_key | by eapply q_match_state].
  - by apply QInv_valid_queue.
  - simpl. by destruct (tabs d).
Qed.

Lemma wp_job_hit row id st f Q E :
  row ∈ control_jobs (tabs d) -> jr_id row = id -> st (jr_status row) = true -> job_evolves row (f (tabs d) row) ->
  (forall fd, Q 1 (mkDB (with_job (f (tabs d) row) (tabs d)) fd)) -> (forall s, fails o s -> E (ErrDriver s) d) ->
  wp o (exec_update_with ControlJobs (fun _ => j_match id st) f) Q E d.
Proof using HI.
  intros Hr Hk Hs Hf HQ HE. destruct (Hf) as [(Ek&Ep&_&_&_&_&_&_&_&_&Ei&_) _].
  assert (Hnd : NoDup (map jr_id (control_jobs (tabs d)))) by (apply unique_valid_jobs, HI).
  apply (wp_update_row ControlJobs jr_id row); try done.
  - intros x _ Hx. unfold j_match in Hx. apply andb_true_iff in Hx as [Hx _]. apply bool_decide_eq_true in Hx. congruence.
  - unfold j_match. by rewrite Hk, bool_decide_eq_true_2, Hs.
  - simpl. by rewrite Ep.
  - rewrite <- (qi_jobs _ HI). unfold replace_row. simpl t_rows.
    assert (Heq : forall x, x ∈ control_jobs (tabs d) -> bool_decide (jr_id x = jr_id (f (tabs d) row)) = true -> x = row).
    { intros x Hx Hd. apply bool_decide_eq_true in Hd. eapply NoDup_map_inj; [exact Hnd|done..|congruence]. }
    simpl. unfold unique, unique_where, unique.
    rewrite map_update_same, map_select_update; [done| |]; intros x Hx Hd; rewrite (Heq x Hx Hd), ?Ek, ?Ep, ?Ei; done.
Qed.

Lemma wp_job_miss id st f Q E :
  (forall j, j ∈ control_jobs (tabs d) -> jr_id j = id -> st (jr_status j) = false) ->
  Q 0 d -> (forall s, fails o s -> E (ErrDriver s) d) ->
  wp o (exec_update_with ControlJobs (fun _ => j_match id st) f) Q E d.
Proof using HI.
  intros Hmiss HQ HE. apply wp_update_none; try done.
  - intros x Hx. unfold j_match. case_bool_decide; [|done]. simpl. by apply Hmiss.
  - apply HI.
  - simpl. by destruct (tabs d).
Qed.

Lemma wp_build_hit row id st f Q E :
  row ∈ control_builds (tabs d) -> br_id row = id -> st (br_status row) = true -> build_evolves row (f row) ->
  (forall fd, Q 1 (mkDB (with_build (f row) (tabs d)) fd)) -> (forall s, fails o s -> E (ErrDriver s) d) ->
  wp o (exec_update ControlBuilds (b_match id st) f) Q E d.
Proof using HI.
  intros Hr Hk Hs Hf HQ HE. destruct (Hf) as (Ek&Ep&Ei&_).
  assert (Hnd : NoDup (map br_id (control_builds (tabs d)))) by (apply unique_valid_builds, HI).
  apply (wp_update_row ControlBuilds br_id row); try done.
  - intros x _ Hx. unfold b_match in Hx. apply andb_true_iff in Hx as [Hx _]. apply bool_decide_eq_true in Hx. congruence.
  - unfold b_match. by rewrite Hk, bool_decide_eq_true_2, Hs.
  - simpl. by rewrite Ep.
  - rewrite <- (qi_builds _ HI). unfold replace_row. simpl t_rows.
    assert (Heq : forall x, x ∈ control_builds (tabs d) -> bool_decide (br_id x = br_id (f row)) = true -> x = row).
    { intros x Hx Hd. apply bool_decide_eq_true in Hd. eapply NoDup_map_inj; [exact Hnd|done..|congruence]. }
    simpl. unfold unique, unique_where, unique.
    rewrite map_update_same, map_select_update; [done| |]; intros x Hx Hd; rewrite (Heq x Hx Hd), ?Ek, ?Ep, ?Ei; done.
Qed.

Lemma wp_build_miss id st f Q E :
  (forall b, b ∈ control_builds (tabs d) -> br_id b = id -> st (br_status b) = false) ->
  Q 0 d -> (forall s, fails o s -> E (ErrDriver s) d) ->
  wp o (exec_update ControlBuilds (b_match id st) f) Q E d.
Proof using HI.
  intros Hmiss HQ HE. apply wp_update_none; try done.
  - intros x Hx. unfold b_match. case_bool_decide; [|done]. simpl. by apply Hmiss.
  - apply HI.
  - simpl. by destruct (tabs d).
Qed.

End RowRules.

(** ** The position of a row *)

Lemma with_row_split t row r' :
  QInv t -> row ∈ control_queue t -> q_key r' = q_key row ->
  exists l1 l2, control_queue t = l1 ++ row :: l2 /\ control_queue (with_row r' t) = l1 ++ r' :: l2.
Proof.
  intros HI Hr Hk.
  destruct (update_where_key (fun x => bool_decide (q_key x = q_key r')) (fun _ => r') (q_key row) (control_queue t))
    as [E|(l1 & x & l2 & E & Hp & Hx & Eu)].
  - apply HI.
  - intros x _ H. apply bool_decide_eq_true in H. congruence.
  - assert (Hin : r' ∈ update_where (fun x => bool_decide (q_key x = q_key r')) (fun _ => r') (control_queue t)).
    { apply elem_of_update. exists row. split; [done|]. by rewrite bool_decide_eq_true_2. }
    rewrite E in Hin. assert (r' = row) as -> by (by eapply q_key_inj).
    apply list_elem_of_split in Hr as (l1 & l2 & Hl). exists l1, l2. split; [done|]. simpl. unfold replace_row. by rewrite E.
  - exists l1, l2. simpl. unfold replace_row. split; [|done]. assert (x = row) as <-; [|done].
    eapply q_key_inj; [exact HI | rewrite E; set_solver | done | done].
Qed.

Lemma elem_of_with_row t row r' x :
  QInv t -> row ∈ control_queue t -> q_key r' = q_key row ->
  x ∈ control_queue (with_row r' t) <-> x = r' \/ (x ∈ control_queue t /\ x <> row).
Proof. intros HI Hr Hk. apply elem_of_replace; [apply HI|done|done]. Qed.

Lemma StronglySorted_select (p : QueueRow -> bool) rows :
  StronglySorted Z.lt (map q_sequence rows) -> StronglySorted Z.lt (map q_sequence (select p rows)).
Proof.
  induction rows as [|r rows IH]; simpl; intros Hs; [constructor|]. apply StronglySorted_inv in Hs as [Hs Hr].
  destruct (p r); simpl; [|by apply IH]. constructor; [by apply IH|]. rewrite Forall_forall in *.
  intros z Hz. apply Hr. apply list_elem_of_fmap in Hz as (y & -> & Hy). apply elem_of_select in Hy as [Hy _].
  by apply list_elem_of_fmap_2.
Qed.

Lemma least_sequence_sorted rows : StronglySorted Z.lt (map q_sequence rows) -> least_sequence rows = head rows.
Proof.
  induction rows as [|r rows IH]; simpl; intros Hs; [done|]. apply StronglySorted_inv in Hs as [Hs Hr].
  rewrite IH by done. destruct rows as [|r2 rows]; [done|]. simpl in *. inversion Hr; subst.
  by rewrite (proj2 (Z.ltb_ge _ _)) by lia.
Qed.

(** [ORDER BY sequence LIMIT 1] is the first row of the table. *)
Lemma first_in_head states d :
  QInv (tabs d) ->
  first_in states d = head (select (fun r => bool_decide (q_state r ∈ states)) (control_queue (tabs d))).
Proof. intros HI. apply least_sequence_sorted, StronglySorted_select, HI. Qed.

Lemma first_waiting d :
  QInv (tabs d) -> first_in [OperationQueued] d = head (select waits (control_queue (tabs d))).
Proof.
  intros HI. rewrite first_in_head by done. f_equal. apply select_ext. intros r _. unfold waits.
  apply bool_decide_ext. rewrite list_elem_of_singleton. done.
Qed.

(** ** The lease of a database *)

Lemma abs_waiting t : waiting (abs t) = map q_key (select waits (control_queue t)).
Proof. done. Qed.

Lemma holder_None t : holder (abs t) = None <-> count holds (control_queue t) = 0%nat.
Proof. unfold abs, abs_rows, count. simpl. destruct (select holds (control_queue t)); naive_solver. Qed.

Lemma holder_row t row :
  QInv t -> row ∈ control_queue t -> reserved (q_state row) = true -> holder (abs t) = Some (q_key row, q_state row).
Proof.
  intros HI Hr Hs. unfold abs, abs_rows. simpl. destruct (select holds (control_queue t)) as [|x l] eqn:E.
  - assert (H : row ∈ select holds (control_queue t)) by (by apply elem_of_select). rewrite E in H. by apply elem_of_nil in H.
  - assert (Hx : x ∈ select holds (control_queue t)) by (rewrite E; constructor).
    apply elem_of_select in Hx as [Hx Hhx]. simpl.
    by rewrite (count_le_one_elem holds (control_queue t) x row (qi_one _ HI) Hx Hr Hhx Hs).
Qed.

(** Replacing the row that holds the worker by one that holds it or is done. *)
Lemma abs_with_holder t row r' :
  QInv t -> row ∈ control_queue t -> reserved (q_state row) = true -> q_key r' = q_key row -> waits r' = false ->
  abs (with_row r' t) =
  mkLease (waiting (abs t)) (if reserved (q_state r') then Some (q_key row, q_state r') else None).
Proof.
  intros HI Hr Hs Hk Hw. destruct (with_row_split t row r' HI Hr Hk) as (l1 & l2 & E & E').
  pose proof (qi_one _ HI) as Hone. unfold abs. rewrite E, E' in *. destruct (holds_alone _ _ _ Hone Hs) as [E1 E2].
  assert (Hwr : waits row = false) by (unfold waits; apply bool_decide_eq_false; intros Eq; by rewrite Eq in Hs).
  rewrite !abs_split. simpl. rewrite Hw, Hwr, E1, E2.
  unfold holds. destruct (reserved (q_state r')); simpl; by rewrite ?Hk.
Qed.

(** Admitting the first waiting row. *)
Lemma abs_with_admitted t row r' w :
  QInv t -> row ∈ control_queue t -> holder (abs t) = None -> waiting (abs t) = q_key row :: w ->
  q_state row = OperationQueued -> q_key r' = q_key row -> reserved (q_state r') = true ->
  abs (with_row r' t) = mkLease w (Some (q_key row, q_state r')).
Proof.
  intros HI Hr Hidle Hw Hq Hk Hs. destruct (with_row_split t row r' HI Hr Hk) as (l1 & l2 & E & E').
  apply holder_None in Hidle. rewrite abs_waiting in Hw. unfold abs. rewrite E' , E in *.
  unfold count in Hidle. rewrite select_app, length_app in Hidle. simpl in Hidle.
  assert (Hh : holds row = false) by (unfold holds; by rewrite Hq). rewrite Hh in Hidle.
  rewrite abs_split. rewrite (nil_length_inv (select holds l1)), (nil_length_inv (select holds l2)) by lia.
  rewrite select_app, map_app in Hw. simpl in Hw.
  assert (Hwr : waits row = true) by (unfold waits; by apply bool_decide_eq_true). rewrite Hwr in Hw.
  assert (Hwr' : waits r' = false) by (unfold waits; apply bool_decide_eq_false; intros Eq; by rewrite Eq in Hs).
  destruct (select waits l1) as [|x l] eqn:El1.
  - simpl in Hw. injection Hw as ->. rewrite Hwr'. unfold holds. rewrite Hs. simpl. by rewrite Hk.
  - exfalso. simpl in Hw. assert (Hx : q_key x = q_key row) by congruence.
    assert (Hin : x ∈ select waits l1) by (rewrite El1; constructor). apply elem_of_select in Hin as [Hin _].
    pose proof (qi_keys _ HI) as Hnd. rewrite E, map_app in Hnd. simpl in Hnd. apply NoDup_app in Hnd as (_ & Hd & _).
    apply (Hd (q_key x)); [by apply list_elem_of_fmap_2|]. rewrite Hx. constructor.
Qed.

(** ** Admission *)

(** The operation [AcquireNextOperation] returns for the row it admits. *)
Definition admitted (row : QueueRow) (leasedAt : time) : Operation :=
  mkOperation (q_kind row) (q_operation_id row) OperationAdmitting (fromUnix (q_accepted_at row)) (Some leasedAt) 0 "" None.

Lemma AcquireNextOperation_spec o d :
  QInv (tabs d) ->
  wp o AcquireNextOperation
    (fun r d' =>
       match waiting (abs (tabs d)), holder (abs (tabs d)) with
       | k :: w, None =>
           exists row leasedAt fd,
             row ∈ control_queue (tabs d) /\ q_key row = k /\ q_state row = OperationQueued /\
             r = Some (admitted row leasedAt) /\
             d' = mkDB (with_row (q_lease OperationAdmitting (Some (unix leasedAt)) row) (tabs d)) fd
       | _, _ => r = None /\ d' = d
       end)
    (interrupted o d) d.
Proof.
  intros HI. unfold AcquireNextOperation. wp_step; [|auto]. wp_step. wp_step; [|auto].
  unfold reserved_count. fold holds. change (λ r : QueueRow, reserved (q_state r)) with holds.
  destruct (holder (abs (tabs d))) as [h|] eqn:Eh.
  { assert (count holds (control_queue (tabs d)) <> 0%nat) by (intros H; apply holder_None in H; congruence).
    rewrite (proj2 (Z.ltb_lt _ _)) by lia. apply wp_ret. by destruct (waiting _). }
  apply holder_None in Eh. rewrite Eh. simpl. wp_step. wp_step.
  wp_step; [|intros s Hs; apply wp_throw; by apply interrupted_intro].
  rewrite first_waiting by done.
  destruct (select waits (control_queue (tabs d))) as [|row l] eqn:Ew; simpl; [by apply wp_ret|].
  assert (Hrow : row ∈ select waits (control_queue (tabs d))) by (rewrite Ew; constructor).
  apply elem_of_select in Hrow as [Hin Hw]. apply bool_decide_eq_true in Hw.
  wp_step. apply wp_now. intros leasedAt. wp_step.
  apply (wp_queue_hit o d HI row); try done; [rewrite Hw; constructor | auto | | auto].
  intros fd. wp_step. apply wp_ret, wp_ret. exists row, leasedAt, fd. done.
Qed.

(** ** Teardown *)

(** [ClaimOperationCleanup] picks the operation that is being torn down. *)
Definition tearing (s : OperationState) : bool :=
  match s with OperationTerminalizing | OperationCleaning => true | _ => false end.

Definition claimed (row : QueueRow) (updatedAt : time) : QueueRow :=
  q_set OperationCleaning (q_leased_at row) (q_cleanup_attempts row + 1) "" (unix updatedAt) row.

Lemma tearing_states s : s ∈ [OperationTerminalizing; OperationCleaning] <-> tearing s = true.
Proof. destruct s; simpl; set_solver. Qed.

Lemma ClaimOperationCleanup_spec o d :
  QInv (tabs d) ->
  wp o ClaimOperationCleanup
    (fun r d' =>
       match holder (abs (tabs d)) with
       | Some (k, s) =>
           if tearing s then
             exists row updatedAt fd op,
               row ∈ control_queue (tabs d) /\ q_key row = k /\ q_state row = s /\
               r = Some op /\ (op_Kind op, op_ID op) = k /\ op_State op = OperationCleaning /\
               op_CleanupAttempts op = q_cleanup_attempts row + 1 /\ op_CleanupError op = "" /\
               d' = mkDB (with_row (claimed row updatedAt) (tabs d)) fd
           else r = None /\ d' = d
       | None => r = None /\ d' = d
       end)
    (interrupted o d) d.
Proof.
  intros HI. unfold ClaimOperationCleanup. wp_step; [|auto]. wp_step. wp_step. unfold or_not_found. wp_step. wp_step.
  wp_step; [|intros s Hs; repeat wp_step; by apply interrupted_intro].
  rewrite first_in_head by done.
  destruct (select (λ r : QueueRow, bool_decide (q_state r ∈ [OperationTerminalizing; OperationCleaning])) _) as [|row l] eqn:Es.
  - cbn [head]. repeat wp_step. destruct (holder (abs (tabs d))) as [[k s]|] eqn:Eh; [|done].
    destruct (tearing s) eqn:Et; [|done]. exfalso.
    unfold abs, abs_rows in Eh. simpl in Eh. destruct (select holds (control_queue (tabs d))) as [|x l] eqn:Ex; [done|].
    assert (Hx : x ∈ select holds (control_queue (tabs d))) by (rewrite Ex; constructor).
    apply elem_of_select in Hx as [Hx _]. simpl in Eh. injection Eh as _ <-.
    eapply elem_of_nil. rewrite <- Es. apply elem_of_select. split; [exact Hx|]. by apply bool_decide_eq_true, tearing_states.
  - assert (Hrow : row ∈ row :: l) by constructor. rewrite <- Es in Hrow.
    apply elem_of_select in Hrow as [Hin Hs]. apply bool_decide_eq_true in Hs. pose proof (proj1 (tearing_states _) Hs) as Ht.
    assert (Hr : reserved (q_state row) = true) by (by destruct (q_state row)).
    cbn [head]. repeat wp_step. apply (wp_queue_hit o d HI row); try done; auto.
    intros fd. wp_step. apply wp_ret, wp_ret. rewrite (holder_row _ row HI Hin Hr), Ht. exists row, t, fd. eexists. by repeat split.
Qed.

(** [CompleteOperationCleanup] releases the worker, once. *)
Definition completed (row : QueueRow) (now : time) : QueueRow :=
  q_set OperationReleased (q_leased_at row) (q_cleanup_attempts row) "" (unix now) row.

Lemma find_queue_row row d :
  QInv (tabs d) -> row ∈ control_queue (tabs d) -> find_queue (q_kind row) (q_operation_id row) d = Some row.
Proof. intros HI Hr. apply (head_select_key q_key); [apply HI | done]. Qed.

Lemma wp_OperationStateOf o d row (Q : OperationState -> Database -> Prop) E :
  QInv (tabs d) -> row ∈ control_queue (tabs d) -> Q (q_state row) d -> (forall s, fails o s -> E (ErrDriver s) d) ->
  wp o (OperationStateOf (q_kind row) (q_operation_id row)) Q E d.
Proof.
  intros HI Hr HQ HE. unfold OperationStateOf, or_not_found. repeat wp_step; [|intros s Hs; apply wp_throw; by apply HE].
  rewrite find_queue_row by done. by apply wp_ret.
Qed.

Lemma CompleteOperationCleanup_spec o d row :
  QInv (tabs d) -> row ∈ control_queue (tabs d) ->
  wp o (CompleteOperationCleanup (q_kind row) (q_operation_id row))
    (fun _ d' =>
       if tearing (q_state row)
       then exists now fd, d' = mkDB (with_row (completed row now) (tabs d)) fd
       else q_state row = OperationReleased /\ d' = d)
    (fun e d' => interrupted o d e d' \/
       (tearing (q_state row) = false /\ q_state row <> OperationReleased /\ d' = d /\
        e = ErrText "operation cannot complete cleanup"))
    d.
Proof.
  intros HI Hr. unfold CompleteOperationCleanup. wp_step. wp_step. wp_step.
  destruct (tearing (q_state row)) eqn:Et.
  - apply (wp_queue_hit o d HI row); try done; [by apply tearing_states | | auto].
    intros fd. simpl. apply wp_ret. by exists t, fd.
  - apply (wp_queue_miss o d HI); [|simpl|auto].
    + intros r Hin Hk Hs. assert (r = row) as -> by (by eapply q_key_inj). apply tearing_states in Hs. congruence.
    + wp_step. apply wp_OperationStateOf; [done|done| |auto].
      destruct (q_state row); try discriminate; first [by apply wp_ret | apply wp_throw; naive_solver].
Qed.

(** ** Cancellation *)

(** What a cancellation writes into the job. *)
Definition cancelled_job (id : string) (t : Tables) (finished : time) (r : JobRow) : JobRow :=
  let now := cancels_now id t (jr_status r) in
  jr_set (jr_root_digest r) (if now then StatusCancelled else jr_status r) (jr_started_at r)
    (if now then Some (unix finished) else jr_finished_at r) (jr_exit_code r) (jr_error_message r)
    true (jr_worker_id r) r.

Lemma cancelled_job_evolves id t finished r :
  Terminal (jr_status r) = false -> job_evolves r (cancelled_job id t finished r).
Proof. apply job_evolves_set. Qed.

Lemma find_job_row row d :
  QInv (tabs d) -> row ∈ control_jobs (tabs d) -> find_job (jr_id row) d = Some row.
Proof. intros HI Hr. apply (head_select_key jr_id); [apply unique_valid_jobs, HI | done]. Qed.

(** Every job has a queue row. *)
Lemma job_queue_row t j :
  QInv t -> j ∈ control_jobs t -> exists r, r ∈ control_queue t /\ q_key r = (OperationJob, jr_id j).
Proof.
  intros HI Hj. assert (H : (OperationJob, jr_id j) ∈ map q_key (control_queue t)).
  { rewrite (qi_operations _ HI). unfold operation_keys. apply elem_of_app. left.
    by apply (list_elem_of_fmap_2 (fun j => (OperationJob, jr_id j))). }
  apply list_elem_of_fmap in H as (r & E & Hr). by exists r.
Qed.

Lemma build_queue_row t b :
  QInv t -> b ∈ control_builds t -> exists r, r ∈ control_queue t /\ q_key r = (OperationBuild, br_id b).
Proof.
  intros HI Hb. assert (H : (OperationBuild, br_id b) ∈ map q_key (control_queue t)).
  { rewrite (qi_operations _ HI). unfold operation_keys. apply elem_of_app. right.
    by apply (list_elem_of_fmap_2 (fun b => (OperationBuild, br_id b))). }
  apply list_elem_of_fmap in H as (r & E & Hr). by exists r.
Qed.

(** A cancellation takes a waiting operation out of the line. *)
Definition cancelled_queue (row : QueueRow) (updated : time) (t : Tables) : Tables :=
  if waits row then with_row (q_move OperationReleased (unix updated) row) t else t.

Lemma wp_getJob o d j (Q : Job -> Database -> Prop) E :
  QInv (tabs d) -> j ∈ control_jobs (tabs d) -> Q (scanJob j) d -> (forall s, fails o s -> E (ErrDriver s) d) ->
  wp o (getJob (jr_id j)) Q E d.
Proof.
  intros HI Hr HQ HE. unfold getJob, or_not_found. repeat wp_step; [|intros s Hs; apply wp_throw; by apply HE].
  rewrite find_job_row by done. by apply wp_ret.
Qed.

Lemma good_with_row t row r' :
  QInv t -> row ∈ control_queue t -> queue_move row r' ->
  (reserved (q_state r') = true -> reserved (q_state row) = true \/ count holds (control_queue t) = 0%nat) ->
  good t (with_row r' t).
Proof.
  intros HI Hr Hm Hres. destruct (Hm) as [(Es&Ek&_) _]. apply (good_queue_move _ (q_key row)); [done| |].
  - intros x Hx Hp. apply bool_decide_eq_true in Hp. rewrite Ek in Hp. split; [done|].
    by assert (x = row) as -> by (by eapply q_key_inj).
  - by apply (valid_with_row t row).
Qed.

Lemma good_with_release t row now :
  QInv t -> row ∈ control_queue t -> q_state row = OperationQueued ->
  QInv (with_row (q_move OperationReleased now row) t).
Proof.
  intros HI Hr Hq. apply (good_with_row t row); [done|done| |done].
  unfold queue_move, queue_evolves, q_move, q_set, q_key. simpl. rewrite Hq. simpl. repeat split; [lia|discriminate].
Qed.

Lemma RequestJobCancellation_spec o d j row :
  QInv (tabs d) -> j ∈ control_jobs (tabs d) -> row ∈ control_queue (tabs d) ->
  q_key row = (OperationJob, jr_id j) ->
  wp o (RequestJobCancellation (jr_id j))
    (fun r d' => Terminal (jr_status j) = false /\ exists finished updated,
       r = scanJob (cancelled_job (jr_id j) (tabs d) finished j) /\
       tabs d' = cancelled_queue row updated (with_job (cancelled_job (jr_id j) (tabs d) finished j) (tabs d)))
    (fun e d' =>
       (Terminal (jr_status j) = true /\ e = ErrNotFound /\ d' = d) \/
       exists s, fails o s /\ e = ErrDriver s /\
       (d' = d \/ Terminal (jr_status j) = false /\ exists finished updated,
          tabs d' = cancelled_queue row updated (with_job (cancelled_job (jr_id j) (tabs d) finished j) (tabs d))))
    d.
Proof.
  intros HI Hj Hr Hk. unfold RequestJobCancellation. wp_step.
  destruct (Terminal (jr_status j)) eqn:Et.
  - wp_step; [|naive_solver]. wp_step. wp_step. wp_step.
    apply (wp_job_miss o d HI); [|wp_step; by apply wp_throw; left|naive_solver].
    intros j' Hj' E. assert (j' = j) as ->. { eapply NoDup_map_inj; [apply unique_valid_jobs, HI|done..]. }
    unfold live. by rewrite Et.
  - assert (Hlive : live (jr_status j) = true) by (unfold live; by rewrite Et).
    wp_step; [|naive_solver]. wp_step. apply wp_now. intros finished. wp_step.
    pose proof (cancelled_job_evolves (jr_id j) (tabs d) finished j Et) as Hev.
    apply (wp_job_hit o d HI j); [done|done|done|exact Hev| |naive_solver].
    fold (cancelled_job (jr_id j) (tabs d) finished j). intros fd. wp_step. apply wp_ret.
    wp_step. apply wp_now. intros updated. wp_step.
    set (j' := cancelled_job (jr_id j) (tabs d) finished j) in *.
    destruct (good_with_job _ _ _ HI Hj Hev) as [HI1 _].
    assert (Hj' : j' ∈ control_jobs (with_job j' (tabs d))).
    { apply elem_of_replace with (r := j); [apply unique_valid_jobs, HI|done|done|by left]. }
    set (d1 := mkDB (with_job j' (tabs d)) fd). destruct (waits row) eqn:Ew.
    + pose proof (proj1 (bool_decide_eq_true _) Ew) as Hq.
      apply (wp_queue_hit o d1 HI1 row); [done|done|rewrite Hq; constructor|done|done|done| |naive_solver].
      intros fd2. wp_step.
      change (jr_id j) with (jr_id j'). apply wp_getJob; [|done| |].
      * apply (good_with_release _ row); done.
      * split; [done|]. exists finished, updated. split; [done|]. unfold cancelled_queue. by rewrite Ew.
      * intros s Hs. right. exists s. split; [done|]. split; [done|]. right. split; [done|]. exists finished, updated.
        unfold cancelled_queue. by rewrite Ew.
    + apply (wp_queue_miss o d1 HI1); [| |naive_solver].
      { intros r Hin Er Hs. assert (r = row) as -> by (eapply (q_key_inj (tabs d)); [done..|congruence]).
        apply list_elem_of_singleton in Hs. unfold waits in Ew. by rewrite Hs in Ew. }
      wp_step. change (jr_id j) with (jr_id j'). apply wp_getJob; [done|done| |].
      * split; [done|]. exists finished, updated. split; [done|]. unfold cancelled_queue. by rewrite Ew.
      * intros s Hs. right. exists s. split; [done|]. split; [done|]. right. split; [done|]. exists finished, updated.
        unfold cancelled_queue. by rewrite Ew.
Qed.

Lemma job_leased_row t row id :
  QInv t -> row ∈ control_queue t -> q_key row = (OperationJob, id) -> job_leased id t = leased (q_state row).
Proof.
  intros HI Hr Hk. unfold job_leased. destruct (existsb _ _) eqn:E.
  - apply existsb_exists in E as (x & Hx & Hm). apply list_elem_of_In in Hx.
    assert (x = row) as -> by (eapply q_key_inj; [done..|]; rewrite Hk; by eapply q_match_key).
    apply q_match_state in Hm. by destruct (q_state row); try set_solver.
  - destruct (leased (q_state row)) eqn:El; [|done]. rewrite <- not_true_iff_false in E. exfalso. apply E.
    apply existsb_exists. exists row. rewrite <- list_elem_of_In. split; [done|]. apply q_match_true; [done|].
    destruct (q_state row); try discriminate; set_solver.
Qed.

(** Which jobs a cancellation finishes at once. *)
Lemma cancelled_terminal t j row finished :
  QInv t -> row ∈ control_queue t -> q_key row = (OperationJob, jr_id j) -> Terminal (jr_status j) = false ->
  Terminal (jr_status (cancelled_job (jr_id j) t finished j)) = true <->
    jr_status j = StatusPreparing \/ jr_status j = StatusQueued /\ leased (q_state row) = false.
Proof.
  intros HI Hr Hk Ht. simpl. unfold cancels_now. rewrite (job_leased_row t row) by done.
  destruct (jr_status j), (leased (q_state row)); try discriminate; simpl; naive_solver.
Qed.

Lemma cancelled_holder t row updated j' :
  QInv t -> row ∈ control_queue t ->
  holder (abs (cancelled_queue row updated (with_job j' t))) = holder (abs t).
Proof.
  intros HI Hr. unfold cancelled_queue. destruct (waits row) eqn:Ew; [|done].
  change (abs (with_row ?r (with_job j' t))) with (abs (with_row r t)).
  destruct (with_row_split t row (q_move OperationReleased (unix updated) row) HI Hr eq_refl) as (l1 & l2 & E & E').
  unfold abs. rewrite E, E', !abs_split. simpl. apply bool_decide_eq_true in Ew. unfold holds. by rewrite Ew.
Qed.

(** ** Emergency stop *)

(** The operation that may own runtime resources. *)
Definition leased_row (t : Tables) : option QueueRow :=
  head (select (fun r => bool_decide (q_state r ∈ [OperationAdmitting; OperationActive])) (control_queue t)).

Definition stopped_job (message : string) (now : time) (r : JobRow) : JobRow :=
  jr_set (jr_root_digest r) StatusFailed (jr_started_at r) (Some (unix now)) (Some 137) message true (jr_worker_id r) r.

(** The tables after the job or build of a queue row is stopped, if it is still
    unfinished. *)
Definition stopped (message : string) (now : time) (row : QueueRow) (t : Tables) : option Tables :=
  match q_kind row with
  | OperationJob =>
      match select (fun j => bool_decide (jr_id j = q_operation_id row) && live (jr_status j)) (control_jobs t) with
      | j :: _ => Some (with_job (stopped_job message now j) t)
      | [] => None
      end
  | OperationBuild =>
      match select (fun b => bool_decide (br_id b = q_operation_id row) && unfinished (br_status b)) (control_builds t) with
      | b :: _ => Some (with_build (br_set BuildCancelled (Some (unix now)) (Some 130) b) t)
      | [] => None
      end
  end.

(** The guard of the statement on jobs is that the job is live. *)
Lemma emergency_guard s :
  bool_decide (s = StatusPreparing) || bool_decide (s = StatusQueued) || bool_decide (s = StatusRunning) = live s.
Proof. by destruct s. Qed.

Lemma unfinished_phase b finished code :
  unfinished (br_status b) = true -> build_evolves b (br_set BuildCancelled finished code b).
Proof.
  unfold build_evolves, br_set. simpl. destruct (br_status b); try discriminate; intros _; simpl; repeat split; try lia; discriminate.
Qed.

Definition missing_text (kind : OperationKind) : string :=
  match kind with
  | OperationJob => "active emergency job is missing"
  | OperationBuild => "active emergency build is missing"
  end.

(** Both statements on the operation hit it, or are refused because it has
    already finished. *)
Lemma emergency_finish_spec o d message now row :
  QInv (tabs d) ->
  wp o (emergency_finish message now row)
    (fun _ d' => stopped message now row (tabs d) = Some (tabs d') /\ QInv (tabs d') /\
                 control_queue (tabs d') = control_queue (tabs d))
    (fun e d' => (exists s, fails o s /\ e = ErrDriver s) \/
                 (stopped message now row (tabs d) = None /\ e = ErrText (missing_text (q_kind row))))
    d.
Proof.
  intros HI. unfold emergency_finish, stopped. destruct (q_kind row); wp_step.
  - destruct (select _ (control_jobs (tabs d))) as [|j l] eqn:E.
    + apply (wp_job_miss o d HI); [|apply wp_throw; by right | naive_solver].
      intros j Hj Hid. rewrite emergency_guard. destruct (live (jr_status j)) eqn:El; [|done]. exfalso.
      eapply elem_of_nil. rewrite <- E. apply elem_of_select. split; [exact Hj|]. by rewrite El, bool_decide_eq_true_2.
    + assert (Hj : j ∈ j :: l) by constructor. rewrite <- E in Hj. apply elem_of_select in Hj as [Hj Hp].
      apply andb_true_iff in Hp as [Hid Hl]. apply bool_decide_eq_true in Hid.
      assert (Hev : job_evolves j (stopped_job message now j)).
      { apply job_evolves_set. unfold live in Hl. by destruct (Terminal (jr_status j)). }
      apply (wp_job_hit o d HI j); [done|done|by rewrite emergency_guard|exact Hev| |naive_solver].
      intros fd. apply wp_ret. split; [done|]. split; [apply (good_with_job _ _ _ HI Hj Hev)|done].
  - destruct (select _ (control_builds (tabs d))) as [|b l] eqn:E.
    + apply (wp_build_miss o d HI); [|apply wp_throw; by right | naive_solver].
      intros b Hb Hid. destruct (unfinished (br_status b)) eqn:El; [|done]. exfalso.
      eapply elem_of_nil. rewrite <- E. apply elem_of_select. split; [exact Hb|]. by rewrite El, bool_decide_eq_true_2.
    + assert (Hb : b ∈ b :: l) by constructor. rewrite <- E in Hb. apply elem_of_select in Hb as [Hb Hp].
      apply andb_true_iff in Hp as [Hid Hl]. apply bool_decide_eq_true in Hid.
      pose proof (unfinished_phase b (Some (unix now)) (Some 130) Hl) as Hev.
      apply (wp_build_hit o d HI b); [done|done|done|exact Hev| |naive_solver].
      intros fd. apply wp_ret. split; [done|]. split; [apply (good_with_build _ _ _ HI Hb Hev)|done].
Qed.

Lemma EmergencyStopActiveOperation_spec o d message :
  QInv (tabs d) ->
  wp o (EmergencyStopActiveOperation message)
    (fun r d' =>
       match leased_row (tabs d) with
       | None => r = None /\ d' = d
       | Some row => exists now updated t1, stopped message now row (tabs d) = Some t1 /\
           r = Some (mkOperation (q_kind row) (q_operation_id row) (q_state row) (fromUnix (q_accepted_at row))
                       (fromUnix <$> q_leased_at row) 0 "" None) /\
           tabs d' = with_row (q_move OperationTerminalizing (unix updated) row) t1
       end)
    (fun e d' => interrupted o d e d' \/
       exists row, leased_row (tabs d) = Some row /\ d' = d /\ e = ErrText (missing_text (q_kind row)) /\
         forall now, stopped message now row (tabs d) = None)
    d.
Proof.
  intros HI. unfold EmergencyStopActiveOperation. wp_step; [|auto]. wp_step. wp_step.
  wp_step; [|intros s Hs; apply wp_throw; auto]. rewrite first_in_head by done.
  change (head (select _ (control_queue (tabs d)))) with (leased_row (tabs d)).
  destruct (leased_row (tabs d)) as [row|] eqn:E; [|by apply wp_ret].
  assert (Hrow : row ∈ control_queue (tabs d) /\ reserved (q_state row) = true).
  { unfold leased_row in E. apply head_Some_elem_of, elem_of_select in E as [Hin Hp].
    split; [done|]. apply bool_decide_eq_true in Hp. by destruct (q_state row); try set_solver. }
  destruct Hrow as [Hin Hres]. wp_step. apply wp_now. intros now. wp_step.
  eapply wp_mono; [by apply emergency_finish_spec| |]; simpl.
  - intros _ d1 (Hst & HI1 & Hq). wp_step. apply wp_now. intros updated. wp_step.
    apply (wp_update_row ControlQueue q_key row); simpl; rewrite ?Hq; try done; try apply HI.
    + intros r _ Hr. by apply bool_decide_eq_true in Hr.
    + by apply bool_decide_eq_true.
    + rewrite <- Hq. rewrite <- Hq in Hin. apply (valid_with_row (tabs d1) row); auto.
    + intros fd. apply wp_ret. exists now, updated, (tabs d1). rewrite <- Hq. done.
    + auto.
  - intros e d1 [(s & Hs & ->)|[Hn ->]]; [auto|]. right. exists row. repeat split; try done.
    intros now'. unfold stopped in *. destruct (q_kind row); by destruct (select _ _).
Qed.

Lemma leased_row_holder t row :
  QInv t -> leased_row t = Some row ->
  row ∈ control_queue t /\ leased (q_state row) = true /\ holder (abs t) = Some (q_key row, q_state row).
Proof.
  intros HI E. unfold leased_row in E. apply head_Some_elem_of, elem_of_select in E as [Hin Hp].
  apply bool_decide_eq_true in Hp.
  assert (Hl : leased (q_state row) = true) by (by destruct (q_state row); try set_solver).
  split; [done|]. split; [done|]. apply holder_row; auto using leased_reserved.
Qed.

Lemma no_leased_holder t k s : leased_row t = None -> holder (abs t) = Some (k, s) -> leased s = false.
Proof.
  unfold leased_row, abs, abs_rows. simpl. intros E Eh. destruct (leased s) eqn:El; [|done]. exfalso.
  destruct (select holds (control_queue t)) as [|x l] eqn:Ex; [done|]. simpl in Eh. injection Eh as _ <-.
  assert (Hx : x ∈ x :: l) by constructor. rewrite <- Ex in Hx. apply elem_of_select in Hx as [Hx _].
  apply head_None in E. eapply elem_of_nil. rewrite <- E. apply elem_of_select. split; [exact Hx|].
  apply bool_decide_eq_true. destruct (q_state x); try discriminate; set_solver.
Qed.

Lemma stopped_queue message now row t t1 :
  QInv t -> stopped message now row t = Some t1 -> QInv t1 /\ control_queue t1 = control_queue t.
Proof.
  intros HI H. unfold stopped in H. destruct (q_kind row), (select _ _) as [|x l] eqn:E; try done; injection H as <-;
    assert (Hx : x ∈ x :: l) by constructor; rewrite <- E in Hx; apply elem_of_select in Hx as [Hx Hp];
    apply andb_true_iff in Hp as [_ Hl]; (split; [|done]).
  - eapply good_with_job; [done|exact Hx|]. apply job_evolves_set. unfold live in Hl. by destruct (Terminal (jr_status x)).
  - eapply good_with_build; [done|exact Hx|]. by apply unfinished_phase.
Qed.

Lemma stopped_job_in message now row t t1 :
  QInv t -> stopped message now row t = Some t1 -> q_kind row = OperationJob ->
  exists j now', j ∈ control_jobs t /\ jr_id j = q_operation_id row /\ Terminal (jr_status j) = false /\
    stopped_job message now' j ∈ control_jobs t1.
Proof.
  intros HI H Ek. unfold stopped in H. rewrite Ek in H. destruct (select _ _) as [|x l] eqn:E; [done|]. injection H as <-.
  assert (Hx : x ∈ x :: l) by constructor. rewrite <- E in Hx. apply elem_of_select in Hx as [Hx Hp].
  apply andb_true_iff in Hp as [Hid Hl]. apply bool_decide_eq_true in Hid. exists x, now.
  repeat split; try done; [unfold live in Hl; by destruct (Terminal (jr_status x))|].
  apply elem_of_replace with (r := x); [apply unique_valid_jobs, HI|done|done|by left].
Qed.

(** ** Beginning the teardown *)

Lemma leased_states s : leased s = true -> s ∈ [OperationQueued; OperationAdmitting; OperationActive].
Proof. destruct s; try discriminate; set_solver. Qed.

Lemma BeginOperationCleanup_spec o d row :
  QInv (tabs d) -> row ∈ control_queue (tabs d) -> reserved (q_state row) = true ->
  wp o (BeginOperationCleanup (q_kind row) (q_operation_id row))
    (fun _ d' =>
       if leased (q_state row)
       then exists now fd, d' = mkDB (with_row (q_move OperationTerminalizing (unix now) row) (tabs d)) fd
       else d' = d)
    (interrupted o d) d.
Proof.
  intros HI Hr Hres. unfold BeginOperationCleanup. wp_step. apply wp_now. intros now. wp_step.
  destruct (leased (q_state row)) eqn:El.
  - apply (wp_queue_hit o d HI row); try done; [by apply leased_states | auto | | auto].
    intros fd. apply wp_ret. by exists now, fd.
  - apply (wp_queue_miss o d HI); [| |auto].
    + intros r Hin Hk Hs. assert (r = row) as -> by (by eapply q_key_inj).
      destruct (q_state row); try discriminate; set_solver.
    + simpl. wp_step. apply wp_OperationStateOf; [done|done| |auto].
      destruct (q_state row); try discriminate; by apply wp_ret.
Qed.

(** ** Acceptance *)

Lemma find_idempotent_job_row d j :
  QInv (tabs d) -> j ∈ control_jobs (tabs d) -> jr_idempotency_key j <> "" ->
  find_idempotent_job (jr_project_id j) (jr_idempotency_key j) d = Some j.
Proof.
  intros HI Hj Hk. unfold find_idempotent_job.
  pose proof (qi_jobs _ HI) as Hv. simpl in Hv. apply andb_true_iff in Hv as [_ Hv]. apply bool_decide_eq_true in Hv.
  destruct (select (λ r : JobRow, _ && _) _) as [|x l] eqn:E.
  - exfalso. eapply elem_of_nil. rewrite <- E. apply elem_of_select. split; [exact Hj|]. by rewrite !bool_decide_eq_true_2.
  - assert (Hx : x ∈ x :: l) by constructor. rewrite <- E in Hx. apply elem_of_select in Hx as [Hx Hp].
    apply andb_true_iff in Hp as [E1 E2]. apply bool_decide_eq_true in E1, E2. simpl. f_equal.
    eapply NoDup_map_inj; [exact Hv| | |simpl; by rewrite E1, E2];
      apply elem_of_select; (split; [done|]); simpl; rewrite ?E2; by rewrite bool_decide_eq_false_2.
Qed.

(** A request whose key is known creates nothing: it returns the recorded job
    when its content is the recorded one, and is refused otherwise. *)
Lemma CreatePreparedJob_replay o d input idempotency j :
  QInv (tabs d) -> j ∈ control_jobs (tabs d) -> jr_project_id j = pp_ProjectID input ->
  jr_idempotency_key j = id_Key idempotency -> id_Key idempotency <> "" ->
  wp o (CreatePreparedJob input idempotency)
    (fun r d' => d' = d /\ jr_request_hash j = id_RequestHash idempotency /\ r = (scanJob j, true))
    (fun e d' => interrupted o d e d' \/
       (d' = d /\ jr_request_hash j <> id_RequestHash idempotency /\ e = ErrIdempotencyConflict))
    d.
Proof.
  intros HI Hj Hp Hk Hne. unfold CreatePreparedJob, or_not_found. wp_step; [|auto].
  wp_step. wp_step. wp_step. wp_step. wp_step; [|intros s Hs; apply wp_throw, wp_throw; auto].
  rewrite <- Hp, <- Hk, find_idempotent_job_row by congruence. apply wp_ret.
  case_bool_decide; [by apply wp_ret | apply wp_throw; auto].
Qed.

(** The job a new request creates. *)
Lemma CreatePreparedJob_creates o d input idempotency :
  wp o (CreatePreparedJob input idempotency)
    (fun r d' => r.2 = false -> exists j, control_jobs (tabs d') = control_jobs (tabs d) ++ [j] /\
       jr_id j = jb_ID r.1 /\ jr_project_id j = pp_ProjectID input /\ jr_status j = StatusPreparing /\
       jr_idempotency_key j = id_Key idempotency /\ jr_request_hash j = id_RequestHash idempotency /\
       waiting (abs (tabs d')) = waiting (abs (tabs d)) ++ [(OperationJob, jr_id j)] /\
       holder (abs (tabs d')) = holder (abs (tabs d)))
    (fun _ d' => d' = d)
    d.
Proof.
  unfold CreatePreparedJob. wp_step; [|done]. wp_step. wp_step. unfold or_not_found. wp_step. wp_step.
  wp_step; [|intros s Hs; by apply wp_throw, wp_throw].
  destruct (find_idempotent_job _ _ d) as [j|] eqn:E.
  - apply wp_ret. case_bool_decide; [by apply wp_ret | by apply wp_throw].
  - apply wp_throw. wp_step. unfold randomID. wp_step. apply wp_rand_Read; [|done]. intros bs _ _. wp_step. wp_step.
    wp_step. wp_step. apply wp_insert; try done. intros _ _ fd. wp_step. apply wp_insert_with; try done. intros _ _ fd2.
    apply wp_ret. intros _. eexists. split; [reflexivity|]. repeat (split; [reflexivity|]).
    unfold abs, abs_rows. simpl. rewrite !select_app, map_app. simpl. by rewrite app_nil_r.
Qed.

(** ** The states of a teardown *)

Lemma interrupted_reliable o d : reliable o -> forall e d', interrupted o d e d' -> False.
Proof. intros Ho e d' [_ (s & Hs & _)]. by eapply reliable_fails. Qed.

Lemma tearing_reserved s : tearing s = true -> reserved s = true.
Proof. by destruct s. Qed.

Lemma holder_row_inv t k s :
  holder (abs t) = Some (k, s) ->
  exists row, row ∈ control_queue t /\ q_key row = k /\ q_state row = s /\ reserved (q_state row) = true.
Proof.
  unfold abs, abs_rows. simpl. destruct (select holds (control_queue t)) as [|x l] eqn:Ex; [done|]. simpl. intros [= <- <-].
  assert (Hx : x ∈ x :: l) by constructor. rewrite <- Ex in Hx. apply elem_of_select in Hx as [Hx Hh]. by exists x.
Qed.

(** A row that holds the worker, moved to another state of the teardown. *)
Lemma holder_moves t row r' :
  QInv t -> row ∈ control_queue t -> reserved (q_state row) = true -> queue_move row r' -> waits r' = false ->
  QInv (with_row r' t) /\ r' ∈ control_queue (with_row r' t) /\
  abs (with_row r' t) = mkLease (waiting (abs t)) (if reserved (q_state r') then Some (q_key row, q_state r') else None).
Proof.
  intros HI Hin Hres Hm Hw. destruct (Hm) as [(_ & Ek & _) _]. split; [|split].
  - apply (good_with_row t row); auto.
  - apply (elem_of_with_row t row); auto.
  - by apply abs_with_holder.
Qed.

Lemma begun_teardown d row d1 :
  QInv (tabs d) -> row ∈ control_queue (tabs d) -> reserved (q_state row) = true ->
  (if leased (q_state row)
   then exists now fd, d1 = mkDB (with_row (q_move OperationTerminalizing (unix now) row) (tabs d)) fd
   else d1 = d) ->
  exists row1, QInv (tabs d1) /\ row1 ∈ control_queue (tabs d1) /\ q_key row1 = q_key row /\
    tearing (q_state row1) = true /\ waiting (abs (tabs d1)) = waiting (abs (tabs d)).
Proof.
  intros HI Hin Hres H. destruct (leased (q_state row)) eqn:El.
  - destruct H as (now & fd & ->). exists (q_move OperationTerminalizing (unix now) row).
    destruct (holder_moves (tabs d) row (q_move OperationTerminalizing (unix now) row) HI Hin Hres) as (H1 & H2 & H3);
      [|done|].
    + unfold queue_move, queue_evolves, q_move, q_set, q_key. simpl.
      destruct (q_state row); try discriminate; simpl; repeat split; try lia; discriminate.
    + split; [done|]. split; [done|]. split; [done|]. split; [done|]. cbn [tabs]. by rewrite H3.
  - subst d1. exists row. split; [done|]. split; [done|]. split; [done|]. split; [|done]. by destruct (q_state row).
Qed.

Lemma claimed_teardown t row now :
  QInv t -> row ∈ control_queue t -> tearing (q_state row) = true ->
  QInv (with_row (claimed row now) t) /\ claimed row now ∈ control_queue (with_row (claimed row now) t) /\
  waiting (abs (with_row (claimed row now) t)) = waiting (abs t).
Proof.
  intros HI Hin Ht.
  destruct (holder_moves t row (claimed row now) HI Hin (tearing_reserved _ Ht)) as (H1 & H2 & H3); [|done|].
  - unfold queue_move, queue_evolves, claimed, q_set, q_key. simpl.
    destruct (q_state row); try discriminate; simpl; repeat split; try lia; discriminate.
  - split; [done|]. split; [done|]. by rewrite H3.
Qed.

Lemma completed_teardown t row now :
  QInv t -> row ∈ control_queue t -> tearing (q_state row) = true ->
  QInv (with_row (completed row now) t) /\ abs (with_row (completed row now) t) = mkLease (waiting (abs t)) None.
Proof.
  intros HI Hin Ht.
  destruct (holder_moves t row (completed row now) HI Hin (tearing_reserved _ Ht)) as (H1 & H2 & H3); [|done|done].
  unfold queue_move, queue_evolves, completed, q_set, q_key. simpl.
  destruct (q_state row); try discriminate; simpl; repeat split; try lia; discriminate.
Qed.

(** ** Calls that change nothing *)

Section Idle.
Context (o : Oracle) (d : Database) (HI : QInv (tabs d)).

Lemma acquire_held h :
  holder (abs (tabs d)) = Some h -> wp o AcquireNextOperation (fun _ d' => d' = d) (fun _ d' => d' = d) d.
Proof using HI.
  intros Hh. eapply wp_mono; [by apply AcquireNextOperation_spec| |by intros e d' [-> _]].
  rewrite Hh. intros r d'. by destruct (waiting (abs (tabs d))); intros [_ ->].
Qed.

Lemma claim_nothing k s :
  holder (abs (tabs d)) = Some (k, s) -> tearing s = false ->
  wp o ClaimOperationCleanup (fun _ d' => d' = d) (fun _ d' => d' = d) d.
Proof using HI.
  intros Hh Ht. eapply wp_mono; [by apply ClaimOperationCleanup_spec| |by intros e d' [-> _]].
  rewrite Hh, Ht. by intros r d' [_ ->].
Qed.

Context (j : JobRow) (Hj : j ∈ control_jobs (tabs d)) (Ht : Terminal (jr_status j) = true).

Lemma same_job x : x ∈ control_jobs (tabs d) -> jr_id x = jr_id j -> x = j.
Proof using HI Hj. intros Hx E. eapply NoDup_map_inj; [apply unique_valid_jobs, HI|done..]. Qed.

Lemma emergency_finished message id :
  holder (abs (tabs d)) = Some ((OperationJob, id), OperationAdmitting) -> jr_id j = id ->
  wp o (EmergencyStopActiveOperation message) (fun _ d' => d' = d) (fun _ d' => d' = d) d.
Proof using All.
  intros Hh Hid. eapply wp_mono; [by apply EmergencyStopActiveOperation_spec| |].
  - intros r d' H. destruct (leased_row (tabs d)) as [row|] eqn:E; [|by destruct H as [_ ->]].
    destruct (leased_row_holder _ _ HI E) as (_ & _ & Hh'). rewrite Hh in Hh'. injection Hh' as Ek Ei _.
    destruct H as (now & updated & t1 & Hst & _).
    destruct (stopped_job_in _ _ _ _ _ HI Hst (eq_sym Ek)) as (x & _ & Hx & Hxi & Hxt & _).
    assert (x = j) as -> by (apply same_job; [done|congruence]). congruence.
  - by intros e d' [[-> _]|(row & _ & -> & _)].
Qed.

Lemma cancel_finished : wp o (RequestJobCancellation (jr_id j)) (fun _ d' => d' = d) (fun _ d' => d' = d) d.
Proof using All.
  destruct (job_queue_row _ _ HI Hj) as (row & Hr & Hk).
  eapply wp_mono; [by apply (RequestJobCancellation_spec o d j row)| |]; simpl.
  - intros r d' [H _]. congruence.
  - intros e d' [(_ & _ & ->)|(s & _ & _ & [->|[H _]])]; [done|done|congruence].
Qed.

(** A transaction whose first statement misses its job. *)
Lemma job_missed {A B} st f (k : Z -> StoreM (tx A)) (rest : A -> StoreM B) e :
  (forall s, st s = true -> Terminal s = false) -> k 0 = throw e ->
  wp o (x ← transaction (c ← exec_update_with ControlJobs (fun _ => j_match (jr_id j) st) f; k c); rest x)
    (fun _ d' => d' = d) (fun _ d' => d' = d) d.
Proof using All.
  intros Hst Hk. wp_step. wp_step; [|done]. wp_step. apply (wp_job_miss o d HI); [|rewrite Hk; by apply wp_throw|done].
  intros x Hx E. rewrite (same_job x Hx E). destruct (st (jr_status j)) eqn:Es; [|done]. apply Hst in Es. congruence.
Qed.

Lemma queue_finished digest : wp o (QueueJob (jr_id j) digest) (fun _ d' => d' = d) (fun _ d' => d' = d) d.
Proof using All.
  unfold QueueJob. eapply job_missed; [|reflexivity]. intros s Hs. by apply bool_decide_eq_true in Hs as ->.
Qed.

Lemma fail_finished message : wp o (FailJob (jr_id j) message) (fun _ d' => d' = d) (fun _ d' => d' = d) d.
Proof using All.
  unfold FailJob. wp_step. wp_step; [|done]. wp_step. wp_step. wp_step.
  apply (wp_job_miss o d HI); [|wp_step; by apply wp_throw|done].
  intros x Hx E. rewrite (same_job x Hx E). by destruct (jr_status j).
Qed.

End Idle.

(** * What the calls on an admitted operation do

    Activation, return to the line, and failure of the operation that
    [AcquireNextOperation] admitted, on every branch, in terms of the lease. *)

(** A row that was put back becomes the head of the line. *)
Lemma abs_with_returned t row r' :
  QInv t -> row ∈ control_queue t -> leased (q_state row) = true -> q_key r' = q_key row -> q_state r' = OperationQueued ->
  abs (with_row r' t) = mkLease (q_key row :: waiting (abs t)) None.
Proof.
  intros HI Hr Hl Hk Hq. destruct (with_row_split t row r' HI Hr Hk) as (l1 & l2 & E & E').
  assert (Hres : holds row = true) by (by apply leased_reserved).
  assert (Hw1 : select waits l1 = []).
  { pose proof (qi_sorted _ HI) as Hs. rewrite E in Hs. apply (no_wait_before l1 row l2 Hs). intros x Hx Hxq.
    apply (qi_fifo _ HI); [done|rewrite E; set_solver|done|done]. }
  pose proof (qi_one _ HI) as Hone. unfold abs. rewrite E', E in *. destruct (holds_alone _ _ _ Hone Hres) as [E1 E2].
  assert (Hwr : waits row = false) by (unfold waits; apply bool_decide_eq_false; intros Eq; by rewrite Eq in Hl).
  assert (Hwr' : waits r' = true) by (unfold waits; by apply bool_decide_eq_true).
  assert (Hh' : holds r' = false) by (unfold holds; by rewrite Hq).
  rewrite !abs_split. simpl. rewrite Hw1, Hwr, Hwr', Hh', E1, E2. simpl. by rewrite Hk.
Qed.

Section OnWorker.
Context (o : Oracle) (d : Database) (row : QueueRow).
Context (HI : QInv (tabs d)) (Hrow : row ∈ control_queue (tabs d)) (Hadm : q_state row = OperationAdmitting).

Lemma admitting_move r' :
  q_key r' = q_key row -> q_sequence r' = q_sequence row -> q_accepted_at r' = q_accepted_at row ->
  lawful OperationAdmitting (q_state r') = true -> queue_move row r'.
Proof using Hadm.
  intros Hk Hs Ha Hl. unfold queue_move, queue_evolves. rewrite Hadm. repeat split; try done.
  destruct (q_state r'); try discriminate; simpl; lia.
Qed.

(** [RequeueAdmittingOperation]: back to the head of the line. *)
Lemma RequeueAdmittingOperation_spec :
  wp o (RequeueAdmittingOperation (q_kind row) (q_operation_id row))
    (fun _ d' => QInv (tabs d') /\ abs (tabs d') = mkLease (q_key row :: waiting (abs (tabs d))) None /\
       control_jobs (tabs d') = control_jobs (tabs d) /\ control_builds (tabs d') = control_builds (tabs d))
    (interrupted o d) d.
Proof using HI Hrow Hadm.
  unfold RequeueAdmittingOperation. wp_step.
  apply (wp_queue_hit o d HI row); try done; [rewrite Hadm; constructor| |auto].
  intros fd. apply wp_ret. cbn [tabs]. split; [|split; [|done]].
  - apply (good_with_row (tabs d) row); [done|done|by apply admitting_move|done].
  - apply abs_with_returned; try done. by rewrite Hadm.
Qed.

(** The row in its new state. *)
Lemma activated_row :
  let r' := q_lease OperationActive (q_leased_at row) row in
  QInv (with_row r' (tabs d)) /\ abs (with_row r' (tabs d)) = mkLease (waiting (abs (tabs d))) (Some (q_key row, OperationActive)).
Proof using HI Hrow Hadm.
  intros r'. destruct (holder_moves (tabs d) row r' HI Hrow) as (H1 & _ & H3); [by rewrite Hadm|by apply admitting_move|done|].
  split; [done|]. by rewrite H3.
Qed.

(** [ActivateOperation]: the operation becomes active, a queued build running;
    every error leaves the database as it was. *)
Lemma ActivateOperation_spec :
  wp o (ActivateOperation (q_kind row) (q_operation_id row))
    (fun _ d' => QInv (tabs d') /\ abs (tabs d') = mkLease (waiting (abs (tabs d))) (Some (q_key row, OperationActive)) /\
       control_jobs (tabs d') = control_jobs (tabs d) /\
       (q_kind row = OperationBuild -> exists b, b ∈ control_builds (tabs d') /\ br_id b = q_operation_id row /\ br_status b = BuildRunning))
    (fun _ d' => d' = d) d.
Proof using HI Hrow Hadm.
  unfold ActivateOperation. wp_step; [|done]. wp_step.
  apply (wp_queue_hit o d HI row); try done; [rewrite Hadm; constructor|by left; rewrite Hadm|].
  intros fd. wp_step. apply wp_ret. destruct activated_row as [HI1 Ea1].
  set (d1 := mkDB (with_row (q_lease OperationActive (q_leased_at row) row) (tabs d)) fd) in *. change (QInv (tabs d1)) in HI1.
  wp_step. destruct (q_kind row) eqn:Ek.
  - apply wp_ret, wp_ret. done.
  - wp_step. destruct (select (b_match (q_operation_id row) (fun s => bool_decide (s = BuildQueued))) (control_builds (tabs d))) as [|b l] eqn:Eb.
    + apply (wp_build_miss o d1 HI1); [|by apply wp_throw|done]. intros b Hb Eid. apply not_true_is_false. intros Hs.
      eapply elem_of_nil. rewrite <- Eb. apply elem_of_select. split; [exact Hb|]. unfold b_match. rewrite Hs. by rewrite bool_decide_eq_true_2.
    + assert (Hb : b ∈ b :: l) by constructor. rewrite <- Eb in Hb. apply elem_of_select in Hb as [Hb Hm].
      unfold b_match in Hm. apply andb_true_iff in Hm as [Eid Est]. apply bool_decide_eq_true in Eid.
      set (b' := br_set BuildRunning (br_finished_at b) (br_exit_code b) b).
      assert (Hev : build_evolves b b').
      { apply bool_decide_eq_true in Est. unfold build_evolves, b'. simpl. rewrite Est. repeat split; simpl; (lia || discriminate). }
      apply (wp_build_hit o d1 HI1 b); [done|done|done|done| |done]. fold b'. intros fd2. apply wp_ret, wp_ret. cbn [tabs].
      split; [by apply (good_with_build (tabs d1) b)|]. split; [done|]. split; [done|]. intros _. exists b'. split; [|done].
      apply elem_of_replace with (r := b); [apply unique_valid_builds, HI|done|done|by left].
Qed.

(** A job that its admission failed. *)
Definition failed_admission (id message : string) (d' : Database) : Prop :=
  QInv (tabs d') /\ abs (tabs d') = mkLease (waiting (abs (tabs d))) (Some (q_key row, OperationTerminalizing)) /\
  exists j, j ∈ control_jobs (tabs d') /\ jr_id j = id /\ jr_status j = StatusFailed /\ jr_error_message j = message.

(** [FailJob] on the job of the admitted operation. *)
Lemma FailJob_spec j message :
  j ∈ control_jobs (tabs d) -> q_key row = (OperationJob, jr_id j) ->
  wp o (FailJob (jr_id j) message) (fun _ d' => failed_admission (jr_id j) message d')
    (fun _ d' => d' = d \/ failed_admission (jr_id j) message d') d.
Proof using HI Hrow Hadm.
  intros Hj Hk. unfold FailJob. wp_step. wp_step; [|auto]. wp_step. apply wp_now. intros finished. wp_step.
  destruct (bool_decide (jr_status j = StatusPreparing) || bool_decide (jr_status j = StatusQueued)) eqn:Es.
  2:{ apply (wp_job_miss o d HI); [|wp_step; apply wp_throw; auto|auto]. intros x Hx E.
      assert (x = j) as ->; [|done]. by apply (same_job d HI j Hj x). }
  set (j' := jr_set (jr_root_digest j) StatusFailed (jr_started_at j) (Some (unix finished)) (Some 1) message
               (jr_cancel_requested j) (jr_worker_id j) j).
  assert (Hev : job_evolves j j').
  { apply job_evolves_set. apply orb_true_iff in Es as [E|E]; apply bool_decide_eq_true in E; by rewrite E. }
  apply (wp_job_hit o d HI j); [done|done|done|done| |auto]. fold j'. intros fd. wp_step. apply wp_ret.
  destruct (good_with_job (tabs d) j j' HI Hj Hev) as (HI1 & _). set (d1 := mkDB (with_job j' (tabs d)) fd) in *.
  wp_step. apply wp_now. intros updated. wp_step. pose proof Hk as Hk'. injection Hk' as Ek1 Ek2.
  apply (wp_queue_hit o d1 HI1 row); try done; [rewrite Hadm; set_solver|by left; rewrite Hadm| |auto].
  intros fd2. set (r' := q_move OperationTerminalizing (unix updated) row). apply wp_ret. set (d2 := mkDB (with_row r' (tabs d1)) fd2).
  assert (Hf : failed_admission (jr_id j) message d2).
  { destruct (holder_moves (tabs d1) row r' HI1 Hrow) as (H1 & _ & H3); [by rewrite Hadm|by apply admitting_move|done|].
    split; [done|]. split; [by rewrite (H3 : abs (tabs d2) = _)|]. exists j'. split; [|done].
    apply elem_of_replace with (r := j); [apply unique_valid_jobs, HI|done|done|by left]. }
  assert (Hj2 : j' ∈ control_jobs (tabs d2)).
  { apply elem_of_replace with (r := j); [apply unique_valid_jobs, HI|done|done|by left]. }
  change (jr_id j) with (jr_id j'). apply (wp_getJob o d2 j'); [apply Hf|done| |auto]. done.
Qed.

End OnWorker.
