(* ===== verification/QueueSystem.v ===== *)
(** * The store as a transition system

    Every interleaving of store calls, with any arguments, clock, random source
    and driver errors.  SQLite runs with one connection ([SetMaxOpenConns(1)]),
    so a statement or transaction is one step; a call is a sequence of them and
    [store_step] lets other calls run in between only at call boundaries.  The
    calls of other components that do not touch jobs, builds or the queue are
    [step_other]. *)
From S2P Require Import Prelude Model GoMonad GoLib Table Schema JobStore Lease QueueInv QueueOps.

Inductive StoreCall :=
| CallCreatePreparedJob (input : PrepareJob) (idempotency : Idempotency)
| CallCreateBuild (project : string) (idempotency : Idempotency)
| CallQueueJob (id digest : string)
| CallSyncJob (id : string) (remote : RemoteJob)
| CallRequestJobCancellation (id : string)
| CallFailJob (id message : string)
| CallFinishBuild (id : string) (status : BuildStatus) (code : Z)
| CallAcquireNextOperation
| CallRequeueAdmittingOperation (kind : OperationKind) (id : string)
| CallActivateOperation (kind : OperationKind) (id : string)
| CallBeginOperationCleanup (kind : OperationKind) (id : string)
| CallClaimOperationCleanup
| CallRecordOperationCleanupFailure (kind : OperationKind) (id message : string)
| CallCompleteOperationCleanup (kind : OperationKind) (id : string)
| CallEmergencyStopActiveOperation (message : string)
| CallCancelQueuedOperation (kind : OperationKind) (id : string)
| CallRenewOperationLease (kind : OperationKind) (id : string).

Definition discard {A : Type} (m : StoreM A) : StoreM unit := _ ← m; mret tt.

Definition run_call (c : StoreCall) : StoreM unit :=
  match c with
  | CallCreatePreparedJob input idempotency => discard (CreatePreparedJob input idempotency)
  | CallCreateBuild project idempotency => discard (CreateBuild project idempotency)
  | CallQueueJob id digest => discard (QueueJob id digest)
  | CallSyncJob id remote => discard (SyncJob id remote)
  | CallRequestJobCancellation id => discard (RequestJobCancellation id)
  | CallFailJob id message => discard (FailJob id message)
  | CallFinishBuild id status code => discard (FinishBuild id status code)
  | CallAcquireNextOperation => discard AcquireNextOperation
  | CallRequeueAdmittingOperation kind id => RequeueAdmittingOperation kind id
  | CallActivateOperation kind id => ActivateOperation kind id
  | CallBeginOperationCleanup kind id => BeginOperationCleanup kind id
  | CallClaimOperationCleanup => discard ClaimOperationCleanup
  | CallRecordOperationCleanupFailure kind id message => RecordOperationCleanupFailure kind id message
  | CallCompleteOperationCleanup kind id => CompleteOperationCleanup kind id
  | CallEmergencyStopActiveOperation message => discard (EmergencyStopActiveOperation message)
  | CallCancelQueuedOperation kind id => discard (CancelQueuedOperation kind id)
  | CallRenewOperationLease kind id => RenewOperationLease kind id
  end.

Inductive store_step : Database -> Database -> Prop :=
| step_call c o n r d d' n' : run_call c o (d, n) = (r, (d', n')) -> store_step d d'
| step_other d d' :
    control_jobs (tabs d') = control_jobs (tabs d) -> control_builds (tabs d') = control_builds (tabs d) ->
    control_queue (tabs d') = control_queue (tabs d) -> queue_seq (tabs d') = queue_seq (tabs d) ->
    store_step d d'.

Definition reachable (d : Database) : Prop := rtc store_step empty_database d.

Lemma discard_preserves {A} (m : StoreM A) : preserves m -> preserves (discard m).
Proof. intros H. unfold discard. preserve; done. Qed.

#[export] Hint Resolve CreatePreparedJob_preserves CreateBuild_preserves QueueJob_preserves SyncJob_preserves
  RequestJobCancellation_preserves FailJob_preserves FinishBuild_preserves AcquireNextOperation_preserves
  RequeueAdmittingOperation_preserves ActivateOperation_preserves BeginOperationCleanup_preserves
  ClaimOperationCleanup_preserves RecordOperationCleanupFailure_preserves CompleteOperationCleanup_preserves
  EmergencyStopActiveOperation_preserves CancelQueuedOperation_preserves RenewOperationLease_preserves
  discard_preserves : preserves.

Lemma run_call_preserves c : preserves (run_call c).
Proof. destruct c; unfold run_call; eauto with preserves. Qed.

Lemma store_step_good d d' : QInv (tabs d) -> store_step d d' -> good (tabs d) (tabs d').
Proof.
  intros HI Hs. revert HI. destruct Hs as [c o n r d0 d1 n' Hrun | d0 d1 ? ? ? ?]; intros HI.
  - pose proof (run_call_preserves c o _ HI n) as H. rewrite Hrun in H. by destruct r.
  - by apply good_frame.
Qed.

Lemma store_steps_good d d' : QInv (tabs d) -> rtc store_step d d' -> good (tabs d) (tabs d').
Proof.
  intros HI H. induction H as [d|d1 d2 d3 H12 _ IH]; [by apply good_refl|].
  pose proof (store_step_good _ _ HI H12) as Hg. eapply good_trans; [exact Hg|]. apply IH, Hg.
Qed.

Lemma QInv_empty : QInv empty_tables.
Proof.
  split; simpl; [constructor | constructor | lia | constructor | reflexivity | constructor | constructor | |].
  - unfold count; simpl. lia.
  - intros r r' Hr. by apply elem_of_nil in Hr.
Qed.

Lemma reachable_QInv d : reachable d -> QInv (tabs d).
Proof. intros H. by apply (store_steps_good empty_database d QInv_empty H). Qed.

(** ** A concrete run, for the witnesses *)

(** Time advances by a second per reading and the random source counts. *)
Definition demo_oracle : Oracle :=
  mkOracle (fun n => Z.of_nat n * Second) (fun n => Z.of_nat n) (fun _ => None).

Definition demo_project : Project := mkProject "prj1" "demo" "Demo" "img@sha256:0" "" true 0.

(** A migrated database with one project. *)
Definition demo_db : Database := mkDB (set_projects [demo_project] empty_tables) (mkFeed [] 0).

Definition demo_job : PrepareJob :=
  mkPrepareJob "prj1" "img@sha256:0" ["go"; "test"] "." [] (30 * Minute) [] [].

Fixpoint run_calls (calls : list StoreCall) (w : Database * nat) : Database * nat :=
  match calls with
  | [] => w
  | c :: rest => run_calls rest (run_call c demo_oracle w).2
  end.

Lemma run_calls_steps calls d n : rtc store_step d (run_calls calls (d, n)).1.
Proof.
  revert d n. induction calls as [|c calls IH]; intros d n; simpl; [reflexivity|].
  destruct (run_call c demo_oracle (d, n)) as [r [d' n']] eqn:E. simpl.
  eapply rtc_l; [by eapply step_call|]. apply IH.
Qed.

Lemma demo_reachable calls : reachable (run_calls calls (demo_db, 0%nat)).1.
Proof.
  apply (rtc_l _ _ demo_db); [by apply step_other|]. apply run_calls_steps.
Qed.

(** The identifiers the random source yields in the run below. *)
Definition demo_calls : list StoreCall :=
  [ CallCreatePreparedJob demo_job (mkIdempotency "key-0001" "h1");
    CallCreateBuild "prj1" (mkIdempotency "key-0002" "h2");
    CallAcquireNextOperation ].
Definition demo_state : Database := (run_calls demo_calls (demo_db, 0%nat)).1.
