(* ===== verification/QueueTheorems.v ===== *)
(** * Correctness of the durable queue

    The properties of the job, build and queue store, over every database that
    any sequence of store calls can reach. *)
From S2P Require Import Prelude Model GoMonad GoLib Table Schema JobStore Lease QueueInv QueueOps QueueSpec QueueSystem.

(** The witnesses run on [demo_state]: a job was accepted and admitted, and a
    build waits behind it. *)
Definition demo_job_id : string := "job030405060708090a0b0c0d0e".
Definition demo_build_id : string := "bld18191a1b1c1d1e1f20212223".

Lemma demo_state_reachable : reachable demo_state.
Proof. apply demo_reachable. Qed.

Lemma demo_reliable : reliable demo_oracle.
Proof. intros n. reflexivity. Qed.

Lemma demo_rows :
  exists j r1 r2, control_jobs (tabs demo_state) = [j] /\ control_queue (tabs demo_state) = [r1; r2] /\
    jr_id j = demo_job_id /\ jr_status j = StatusPreparing /\
    q_key r1 = (OperationJob, demo_job_id) /\ q_state r1 = OperationAdmitting.
Proof. do 3 eexists. repeat split; vm_compute; reflexivity. Qed.

(** ** C1 *)

(** C1: in every reachable database the queue is consistent: sequence numbers
    increase in table order below the counter, every job and every build has
    exactly one queue row and there is no other row, identifiers and
    idempotency keys are unique, at most one operation occupies the worker, and
    no operation was admitted ahead of one that still waits. *)
Theorem reachable_consistent d : reachable d -> QInv (tabs d).
Proof. exact (reachable_QInv d). Qed.

Lemma reachable_consistent_witness : QInv (tabs demo_state).
Proof. apply (reachable_consistent demo_state). apply demo_reachable. Defined.

(** ** C2 *)



(** ** C3 *)

(** C3: what is finished stays as it is.  A job in a terminal status, a build in
    a terminal status and a released queue row are the same row, with every
    column unchanged, in every later database; a row is never deleted, and an
    operation that left the waiting phases never returns to them. *)
Theorem finished_is_final d d' :
  reachable d -> rtc store_step d d' ->
  (forall j, j ∈ control_jobs (tabs d) -> Terminal (jr_status j) = true -> j ∈ control_jobs (tabs d')) /\
  (forall b, b ∈ control_builds (tabs d) -> build_terminal (br_status b) = true -> b ∈ control_builds (tabs d')) /\
  (forall r, r ∈ control_queue (tabs d) -> exists r', r' ∈ control_queue (tabs d') /\ q_key r' = q_key r /\
     q_sequence r' = q_sequence r /\ phase (q_state r) <= phase (q_state r') /\
     (q_state r = OperationReleased -> r' = r)).
Proof.
  intros Hr Hs. destruct (store_steps_good d d' (reachable_QInv d Hr) Hs) as (_ & [Hj Hb Hq] & _).
  split; [|split].
  - intros j Hin Ht. destruct (grows_elem _ _ _ _ Hj Hin) as (j' & Hin' & _ & E). by rewrite <- (E Ht).
  - intros b Hin Ht. destruct (grows_elem _ _ _ _ Hb Hin) as (b' & Hin' & _ & _ & _ & _ & _ & _ & E).
    by rewrite <- (E Ht).
  - intros r Hin. destruct (grows_elem _ _ _ _ Hq Hin) as (r' & Hin' & ? & ? & _ & ? & ?).
    by exists r'.
Qed.

(** The run in which the admitted job of [demo_state] is cancelled. *)
Definition demo_cancelled : Database := (run_calls (demo_calls ++ [CallRequestJobCancellation demo_job_id]) (demo_db, 0%nat)).1.

Definition demo_later : Database :=
  (run_calls [CallFailJob demo_job_id "late"; CallQueueJob demo_job_id "digest"] (demo_cancelled, 0%nat)).1.

Lemma finished_is_final_witness :
  exists j, control_jobs (tabs demo_cancelled) = [j] /\ jr_status j = StatusCancelled /\
            j ∈ control_jobs (tabs demo_later).
Proof.
  destruct (control_jobs (tabs demo_cancelled)) as [|j [|j' l]] eqn:E; [vm_compute in E; discriminate| |vm_compute in E; discriminate].
  assert (Hs : map jr_status (control_jobs (tabs demo_cancelled)) = [StatusCancelled]) by (vm_compute; reflexivity).
  rewrite E in Hs. injection Hs as Hs. exists j. split; [reflexivity|]. split; [exact Hs|].
  apply (finished_is_final demo_cancelled demo_later).
  - apply demo_reachable.
  - apply run_calls_steps.
  - rewrite E. constructor.
  - by rewrite Hs.
Defined.

(** [AcquireNextOperation] admits in order of acceptance.  When an operation
    occupies the worker or none waits it returns none and changes nothing;
    otherwise it returns the operation at the head of the line, leaves every
    other row, job and build alone, and the head becomes the holder.  It fails
    only by an error of the driver, with the database unchanged; the unique
    index and its own concurrency check never refuse. *)
Lemma acquire_in_order o d :
  reachable d ->
  wp o AcquireNextOperation
    (fun r d' =>
       match waiting (abs (tabs d)), holder (abs (tabs d)) with
       | k :: w, None =>
           (exists op, r = Some op /\ (op_Kind op, op_ID op) = k /\ op_State op = OperationAdmitting) /\
           abs (tabs d') = mkLease w (Some (k, OperationAdmitting)) /\
           control_jobs (tabs d') = control_jobs (tabs d) /\ control_builds (tabs d') = control_builds (tabs d) /\
           (forall x, x ∈ control_queue (tabs d) -> q_key x <> k -> x ∈ control_queue (tabs d'))
       | _, _ => r = None /\ d' = d
       end)
    (interrupted o d) d.
Proof.
  intros Hr. apply reachable_QInv in Hr. eapply wp_mono; [by apply AcquireNextOperation_spec| |done].
  intros r d' H. destruct (waiting (abs (tabs d))) as [|k w] eqn:Ew, (holder (abs (tabs d))) eqn:Eh; try done.
  destruct H as (row & at_ & fd & Hin & <- & Hq & -> & ->). simpl. split; [by eexists|]. split; [|split; [|split]]; try done.
  - by apply (abs_with_admitted (tabs d) row).
  - intros x Hx Hne. change (x ∈ control_queue (with_row (q_lease OperationAdmitting (Some (unix at_)) row) (tabs d))).
    apply (elem_of_with_row _ row); [done|done|done|]. right. split; [done|]. by intros ->.
Qed.

(** The job of [demo_state] was put back, so the worker is idle again. *)
Definition demo_idle : Database :=
  (run_calls (demo_calls ++ [CallRequeueAdmittingOperation OperationJob demo_job_id]) (demo_db, 0%nat)).1.

Lemma demo_idle_lease :
  abs (tabs demo_idle) = mkLease [(OperationJob, demo_job_id); (OperationBuild, demo_build_id)] None.
Proof. vm_compute. reflexivity. Qed.

(** ** C5 *)

(** C5: a submission is accepted at most once.  After [CreatePreparedJob]
    created a job for a non-empty idempotency key, whatever calls run in
    between, a second submission in the same project with that key creates
    nothing: with the recorded request hash it returns the same job, marked as
    replayed; with another hash it is refused as a conflict. *)
Theorem submission_is_idempotent o1 n1 d d1 n1' job input idempotency d2 o2 input2 hash2 :
  reachable d -> id_Key idempotency <> "" ->
  CreatePreparedJob input idempotency o1 (d, n1) = (Ok (job, false), (d1, n1')) ->
  rtc store_step d1 d2 -> pp_ProjectID input2 = pp_ProjectID input ->
  wp o2 (CreatePreparedJob input2 (mkIdempotency (id_Key idempotency) hash2))
    (fun r d' => d' = d2 /\ hash2 = id_RequestHash idempotency /\ r.2 = true /\ jb_ID r.1 = jb_ID job)
    (fun e d' => interrupted o2 d2 e d' \/
       (d' = d2 /\ hash2 <> id_RequestHash idempotency /\ e = ErrIdempotencyConflict))
    d2.
Proof.
  intros Hr Hne Hc Hs Hp.
  pose proof (CreatePreparedJob_creates o1 d input idempotency n1) as Hnew. rewrite Hc in Hnew.
  destruct (Hnew eq_refl) as (j & Ej & Eid & Epr & _ & Ekey & Ehash & _).
  assert (H1 : QInv (tabs d1)).
  { pose proof (CreatePreparedJob_preserves input idempotency o1 d (reachable_QInv d Hr) n1) as H.
    rewrite Hc in H. apply H. }
  destruct (store_steps_good d1 d2 H1 Hs) as (H2 & [Hg _ _] & _).
  destruct (grows_elem _ _ _ j Hg) as (j' & Hj' & (I1&I2&_&_&_&_&_&_&_&_&I3&I4) & _); [rewrite Ej; set_solver|].
  eapply wp_mono; [apply (CreatePreparedJob_replay o2 d2 _ _ j'); simpl; congruence| |]; simpl.
  - simpl in Eid. intros r d' (-> & Eh & ->). simpl. split; [done|]. split; [congruence|]. split; [done|]. congruence.
  - intros e d' [Hi|(-> & Hh & ->)]; [by left|]. right. split; [done|]. split; [|done]. congruence.
Qed.

Definition demo_created : res (Job * bool) * (Database * nat) :=
  CreatePreparedJob demo_job (mkIdempotency "key-0001" "h1") demo_oracle (demo_db, 0%nat).

Lemma submission_is_idempotent_witness :
  match demo_created with
  | (Ok (job, false), w) =>
      wp demo_oracle (CreatePreparedJob demo_job (mkIdempotency "key-0001" "h1"))
        (fun r d' => r.2 = true /\ jb_ID r.1 = jb_ID job) (fun e _ => False)
        (run_calls [CallCreateBuild "prj1" (mkIdempotency "key-0002" "h2"); CallAcquireNextOperation] w).1
  | _ => False
  end.
Proof.
  assert (Hok : match demo_created with (Ok (_, false), _) => True | _ => False end) by (vm_compute; exact I).
  destruct demo_created as [[[job []]|e] [d1 n1]] eqn:E; try contradiction. eapply wp_mono.
  - apply (submission_is_idempotent demo_oracle 0 demo_db d1 n1 job demo_job (mkIdempotency "key-0001" "h1") _ demo_oracle demo_job "h1");
      [apply (demo_reachable []) | discriminate | exact E | apply run_calls_steps | reflexivity].
  - naive_solver.
  - intros e d' [[_ (s & Hs & _)]|(_ & H & _)]; [exact (reliable_fails _ _ demo_reliable Hs) | by apply H].
Defined.

(** Cancelling a job.  A finished job is refused with [ErrNotFound] and
    nothing changes.  Otherwise the request is recorded; the job is finished at
    once exactly when it is still preparing, or queued without occupying the
    worker; its queue row leaves the line if it waits and keeps its state
    otherwise, so a running operation is left to its own teardown; and the line
    never changes holder. *)
Lemma cancellation_behaviour o d j row :
  reachable d -> j ∈ control_jobs (tabs d) -> row ∈ control_queue (tabs d) -> q_key row = (OperationJob, jr_id j) ->
  wp o (RequestJobCancellation (jr_id j))
    (fun r d' => Terminal (jr_status j) = false /\ exists finished updated j',
       j' = cancelled_job (jr_id j) (tabs d) finished j /\ r = scanJob j' /\ jr_cancel_requested j' = true /\
       (Terminal (jr_status j') = true <->
          jr_status j = StatusPreparing \/ jr_status j = StatusQueued /\ leased (q_state row) = false) /\
       tabs d' = cancelled_queue row updated (with_job j' (tabs d)) /\
       holder (abs (tabs d')) = holder (abs (tabs d)))
    (fun e d' =>
       (Terminal (jr_status j) = true /\ e = ErrNotFound /\ d' = d) \/
       (exists s, fails o s /\ e = ErrDriver s /\ holder (abs (tabs d')) = holder (abs (tabs d))))
    d.
Proof.
  intros Hr Hj Hrow Hk. apply reachable_QInv in Hr.
  eapply wp_mono; [by apply (RequestJobCancellation_spec o d j row)| |]; simpl.
  - intros r d' (Ht & finished & updated & -> & E). split; [done|]. exists finished, updated. eexists. split; [reflexivity|].
    split; [reflexivity|]. split; [reflexivity|]. split; [by apply cancelled_terminal|]. split; [done|].
    rewrite E. by apply cancelled_holder.
  - intros e d' [H|(s & Hs & -> & H)]; [by left|]. right. exists s. split; [done|]. split; [done|].
    destruct H as [->|(_ & finished & updated & E)]; [done|]. rewrite E. by apply cancelled_holder.
Qed.

(** ** Emergency stop *)

(** The emergency stop.  With no operation admitted or active it does
    nothing.  Otherwise it finishes that operation's job (failed, exit code 137,
    the given message) or build (cancelled, exit code 130), moves its queue row
    to teardown and reports it; the row still occupies the worker, so nothing
    else is admitted until the teardown is complete.  When the operation has
    already finished it reports an error and changes nothing. *)
Lemma emergency_stop_lease o d message :
  QInv (tabs d) ->
  wp o (EmergencyStopActiveOperation message)
    (fun r d' =>
       match holder (abs (tabs d)) with
       | Some (k, s) =>
           if leased s then
             (exists op, r = Some op /\ (op_Kind op, op_ID op) = k /\ op_State op = s) /\
             abs (tabs d') = mkLease (waiting (abs (tabs d))) (Some (k, OperationTerminalizing)) /\
             (k.1 = OperationJob -> exists j now, j ∈ control_jobs (tabs d) /\ jr_id j = k.2 /\
                Terminal (jr_status j) = false /\ stopped_job message now j ∈ control_jobs (tabs d'))
           else r = None /\ d' = d
       | None => r = None /\ d' = d
       end)
    (fun e d' => interrupted o d e d' \/
       exists k s, holder (abs (tabs d)) = Some (k, s) /\ leased s = true /\ d' = d /\ e = ErrText (missing_text k.1))
    d.
Proof.
  intros Hr. eapply wp_mono; [by apply EmergencyStopActiveOperation_spec| |].
  - intros r d' H. destruct (leased_row (tabs d)) as [row|] eqn:E.
    + destruct (leased_row_holder _ _ Hr E) as (Hin & Hl & ->). rewrite Hl.
      destruct H as (now & updated & t1 & Hst & -> & ->). split; [by eexists|].
      destruct (stopped_queue _ _ _ _ _ Hr Hst) as [HI1 Hq]. split.
      * rewrite (abs_with_holder t1 row); rewrite ?Hq; auto using leased_reserved. unfold abs. by rewrite Hq.
      * intros Ek. by apply (stopped_job_in message now row (tabs d) t1).
    + destruct (holder (abs (tabs d))) as [[k s]|] eqn:Eh; [|done].
      by rewrite (no_leased_holder _ _ _ E Eh).
  - intros e d' [Hi|(row & E & -> & -> & _)]; [by left|]. right. destruct (leased_row_holder _ _ Hr E) as (Hin & Hl & ->).
    by exists (q_key row), (q_state row).
Qed.

(** ** C8 *)

(** The calls that take the holder of the worker through its teardown and admit
    the next operation. *)
Definition hand_over (kind : OperationKind) (id : string) : StoreM (option Operation) :=
  _ ← BeginOperationCleanup kind id;
  _ ← ClaimOperationCleanup;
  _ ← CompleteOperationCleanup kind id;
  AcquireNextOperation.

(** C8: the worker is handed over.  From every reachable database in which an
    operation occupies the worker, in whatever state, the teardown calls
    succeed and the next admission returns the head of the line (or none if
    the line is empty); with a driver that reports no error of its own no call
    of the sequence fails. *)
Theorem worker_is_handed_over o d kind id s :
  reachable d -> reliable o -> holder (abs (tabs d)) = Some ((kind, id), s) ->
  wp o (hand_over kind id)
    (fun r d' =>
       match waiting (abs (tabs d)) with
       | k :: w => (exists op, r = Some op /\ (op_Kind op, op_ID op) = k) /\
                   abs (tabs d') = mkLease w (Some (k, OperationAdmitting))
       | [] => r = None /\ abs (tabs d') = mkLease [] None
       end)
    (fun _ _ => False) d.
Proof.
  intros Hr Ho Hh. apply reachable_QInv in Hr. unfold hand_over.
  destruct (holder_row_inv _ _ _ Hh) as (row & Hin & Ek & <- & Hres). injection Ek as <- <-.
  wp_step. eapply wp_mono; [by apply BeginOperationCleanup_spec| |exact (interrupted_reliable o _ Ho)]. intros ? d1 H1.
  assert (Hd1 : exists row1, QInv (tabs d1) /\ row1 ∈ control_queue (tabs d1) /\ q_key row1 = q_key row /\
                  tearing (q_state row1) = true /\ waiting (abs (tabs d1)) = waiting (abs (tabs d))).
  { by apply (begun_teardown d row). }
  clear H1. destruct Hd1 as (row1 & HI1 & Hin1 & Ek1 & Ht1 & Ew1).
  wp_step. eapply wp_mono; [by apply ClaimOperationCleanup_spec| |exact (interrupted_reliable o _ Ho)].
  rewrite (holder_row _ row1 HI1 Hin1 (tearing_reserved _ Ht1)), Ht1.
  intros ? d2 (x & now & fd & op & Hx & Ekx & _ & _ & _ & _ & _ & _ & ->).
  assert (x = row1) as -> by (by eapply q_key_inj).
  destruct (claimed_teardown (tabs d1) row1 now HI1 Hin1 Ht1) as (HI2 & Hin2 & Ew2).
  injection Ek1 as <- <-. wp_step.
  eapply wp_mono; [apply (CompleteOperationCleanup_spec o _ (claimed row1 now)); [exact HI2|exact Hin2]| |];
    cbn [tearing claimed q_set q_state].
  2:{ intros e d' [H|(H & _)]; [exact (interrupted_reliable o _ Ho _ _ H) | discriminate]. }
  intros ? d3 (now3 & fd3 & ->).
  destruct (completed_teardown (with_row (claimed row1 now) (tabs d1)) (claimed row1 now) now3 HI2 Hin2 eq_refl) as (HI3 & Ea3).
  eapply wp_mono; [apply AcquireNextOperation_spec, HI3| |exact (interrupted_reliable o _ Ho)].
  cbn [tabs] in *. rewrite Ea3. cbn [waiting holder]. rewrite Ew2, Ew1.
  intros r d4. destruct (waiting (abs (tabs d))) as [|k w] eqn:Ew; 
    [intros [-> ->]; split; [done|]; cbn [tabs]; by rewrite Ea3, Ew2, Ew1|].
  intros (row4 & at4 & fd4 & Hin4 & <- & Hq4 & -> & ->). split; [by eexists|].
  apply (abs_with_admitted _ row4); try done; cbn [tabs]; rewrite Ea3; [done|]. cbn [waiting]. by rewrite Ew2, Ew1.
Qed.

Lemma worker_is_handed_over_witness :
  wp demo_oracle (hand_over OperationJob demo_job_id)
    (fun r d' => (exists op, r = Some op /\ op_ID op = demo_build_id) /\
       abs (tabs d') = mkLease [] (Some ((OperationBuild, demo_build_id), OperationAdmitting)))
    (fun _ _ => False) demo_state.
Proof.
  assert (Ha : abs (tabs demo_state) = mkLease [(OperationBuild, demo_build_id)] (Some ((OperationJob, demo_job_id), OperationAdmitting)))
    by (vm_compute; reflexivity).
  eapply wp_mono; [apply (worker_is_handed_over demo_oracle demo_state OperationJob demo_job_id OperationAdmitting)| |done].
  - apply demo_reachable.
  - apply demo_reliable.
  - by rewrite Ha.
  - rewrite Ha. cbn [waiting]. intros r d' [(op & -> & Ek) E]. split; [|exact E]. exists op. split; [reflexivity|]. congruence.
Defined.

(** ** A cancelled admission *)

(** The calls that concern this operation and that the dispatcher, the cleanup
    coordinator, the capacity guard and the job's own client make without
    requesting its teardown. *)
Definition unattended (id : string) (c : StoreCall) : Prop :=
  c = CallAcquireNextOperation \/ c = CallClaimOperationCleanup \/ (exists m, c = CallEmergencyStopActiveOperation m) \/
  c = CallRequestJobCancellation id \/ (exists m, c = CallFailJob id m) \/ (exists g, c = CallQueueJob id g).

(** A job cancelled while its operation is being admitted keeps the worker.
    [RequestJobCancellation] on a preparing job whose queue row is [admitting]
    finishes the job and leaves the row; from then on none of the calls that
    run unattended frees the worker: each leaves the database exactly as it
    was, whatever the driver does, so only an explicit
    [BeginOperationCleanup] for the operation releases the worker. *)
Lemma cancelled_admission_keeps_worker o n d j id c :
  reachable d -> holder (abs (tabs d)) = Some ((OperationJob, id), OperationAdmitting) ->
  j ∈ control_jobs (tabs d) -> jr_id j = id -> Terminal (jr_status j) = true -> unattended id c ->
  (run_call c o (d, n)).2.1 = d.
Proof.
  intros Hr Hh Hj Hid Ht Hc. apply reachable_QInv in Hr.
  assert (Hwp : wp o (run_call c) (fun _ d' => d' = d) (fun _ d' => d' = d) d).
  { destruct Hc as [->|[->|[(m & ->)|[->|[(m & ->)|(g & ->)]]]]]; cbn [run_call]; unfold discard; apply wp_bind;
      (apply wp_mono with (Q := fun _ d' => d' = d) (E := fun _ d' => d' = d); [|intros a d' H; apply wp_ret; exact H|done]).
    - by apply acquire_held with (h := ((OperationJob, id), OperationAdmitting)).
    - by apply claim_nothing with (k := (OperationJob, id)) (s := OperationAdmitting).
    - by apply (emergency_finished o d Hr j Hj Ht m id).
    - subst id. by apply cancel_finished.
    - subst id. by apply fail_finished.
    - subst id. by apply queue_finished. }
  specialize (Hwp n). by destruct (run_call c o (d, n)) as [[[]|e] [d' n']].
Qed.

Lemma cancelled_admission_keeps_worker_witness :
  holder (abs (tabs demo_cancelled)) = Some ((OperationJob, demo_job_id), OperationAdmitting) /\
  (run_call CallAcquireNextOperation demo_oracle (demo_cancelled, 0%nat)).2.1 = demo_cancelled.
Proof.
  assert (Hh : holder (abs (tabs demo_cancelled)) = Some ((OperationJob, demo_job_id), OperationAdmitting)) by (vm_compute; reflexivity).
  assert (Hj : map (fun j => (jr_id j, jr_status j)) (control_jobs (tabs demo_cancelled)) = [(demo_job_id, StatusCancelled)])
    by (vm_compute; reflexivity).
  split; [exact Hh|]. destruct (control_jobs (tabs demo_cancelled)) as [|j l] eqn:E; [discriminate|]. injection Hj as Hid Hs _.
  apply (cancelled_admission_keeps_worker demo_oracle 0 demo_cancelled j demo_job_id CallAcquireNextOperation).
  - apply demo_reachable.
  - exact Hh.
  - rewrite E. constructor.
  - exact Hid.
  - by rewrite Hs.
  - by left.
Defined.
