(* ===== verification/GoStrings.v ===== *)
(** * Strings of the Go library

    The functions of [strings], [unicode/utf8] and [encoding/base64] that the
    identity store calls, on Go strings as byte sequences, and the pattern
    matching and membership helpers of
    [internal/control/sqlite/store.go]. *)
From Stdlib Require Import Ascii.
From S2P Require Import Prelude Model GoMonad GoLib.

(** The bytes of a string. *)
Definition byte_of (c : ascii) : Z := Z.of_nat (nat_of_ascii c).
Fixpoint bytes (s : string) : list Z :=
  match s with "" => [] | String c rest => byte_of c :: bytes rest end.
Fixpoint of_bytes (l : list Z) : string :=
  match l with [] => "" | b :: rest => String (ascii_of_nat (Z.to_nat b)) (of_bytes rest) end.

(** [strings.HasPrefix]. *)
Definition HasPrefix (s p : string) : bool := String.prefix p s.

(** [strings.Contains]. *)
Definition str_contains (s sub : string) : bool :=
  match String.index 0 sub s with Some _ => true | None => false end.

(** ** [strings.TrimSpace] *)

(** The UTF-8 encodings of the code points [unicode.IsSpace] accepts. *)
Definition space_encodings : list (list Z) :=
  [ [9]; [10]; [11]; [12]; [13]; [32]; [194; 133]; [194; 160]; [225; 154; 128];
    [226; 128; 128]; [226; 128; 129]; [226; 128; 130]; [226; 128; 131]; [226; 128; 132]; [226; 128; 133];
    [226; 128; 134]; [226; 128; 135]; [226; 128; 136]; [226; 128; 137]; [226; 128; 138];
    [226; 128; 168]; [226; 128; 169]; [226; 128; 175]; [226; 129; 159]; [227; 128; 128] ].

Fixpoint strip_prefix (p l : list Z) : option (list Z) :=
  match p, l with
  | [], _ => Some l
  | x :: p', y :: l' => if x =? y then strip_prefix p' l' else None
  | _ :: _, [] => None
  end.

Definition strip_one (encodings : list (list Z)) (l : list Z) : option (list Z) :=
  fold_right (fun e acc => match strip_prefix e l with Some r => Some r | None => acc end) None encodings.

(** Every round removes a byte, so the length is enough fuel. *)
Fixpoint strip_all (fuel : nat) (encodings : list (list Z)) (l : list Z) : list Z :=
  match fuel with
  | O => l
  | S fuel' => match strip_one encodings l with Some r => strip_all fuel' encodings r | None => l end
  end.

Definition trim_left (l : list Z) : list Z := strip_all (length l) space_encodings l.
Definition trim_right (l : list Z) : list Z := rev (strip_all (length l) (map (@rev Z) space_encodings) (rev l)).
Definition TrimSpace (s : string) : string := of_bytes (trim_right (trim_left (bytes s))).

(** ** Case mapping *)

(** The table-driven mapping of the [unicode] package that a string with a byte
    above ASCII goes through. *)
Class CaseTables := { unicode_lower : string -> string; unicode_upper : string -> string }.

Definition ascii_only (s : string) : bool := forallb (fun b => b <? 128) (bytes s).
Definition lower_byte (b : Z) : Z := if (65 <=? b) && (b <=? 90) then b + 32 else b.
Definition upper_byte (b : Z) : Z := if (97 <=? b) && (b <=? 122) then b - 32 else b.

(** [strings.ToLower] and [strings.ToUpper]: ASCII bytes directly, other
    strings through the tables. *)
Definition ToLower `{CaseTables} (s : string) : string :=
  if ascii_only s then of_bytes (map lower_byte (bytes s)) else unicode_lower s.
Definition ToUpper `{CaseTables} (s : string) : string :=
  if ascii_only s then of_bytes (map upper_byte (bytes s)) else unicode_upper s.

(** ** [strings.SplitN] with a one-byte separator *)

Fixpoint cut (sep : ascii) (s : string) : option (string * string) :=
  match s with
  | "" => None
  | String c rest =>
      if Ascii.eqb c sep then Some ("", rest)
      else match cut sep rest with Some (a, b) => Some (String c a, b) | None => None end
  end.

Fixpoint SplitN (sep : ascii) (n : nat) (s : string) : list string :=
  match n with
  | O => []
  | S O => [s]
  | S n' => match cut sep s with Some (a, b) => a :: SplitN sep n' b | None => [s] end
  end.

Definition has_byte (sep : ascii) (s : string) : bool := existsb (Z.eqb (byte_of sep)) (bytes s).

Lemma byte_of_inj a b : byte_of a = byte_of b -> a = b.
Proof.
  unfold byte_of. intros H. apply Nat2Z.inj in H. rewrite <- (ascii_nat_embedding a), <- (ascii_nat_embedding b). by f_equal.
Qed.

Lemma cut_app sep a b : has_byte sep a = false -> cut sep (a +:+ String sep b) = Some (a, b).
Proof.
  unfold has_byte. induction a as [|c a IH]; simpl; intros H.
  - by rewrite Ascii.eqb_refl.
  - apply orb_false_iff in H as [Hc Ha]. destruct (Ascii.eqb_spec c sep) as [->|Hn].
    + by rewrite Z.eqb_refl in Hc.
    + by rewrite (IH Ha).
Qed.

(** ** [base64.RawURLEncoding.EncodeToString] *)

Definition base64_char (n : Z) : ascii :=
  ascii_of_nat (Z.to_nat (
    if n <? 26 then 65 + n else if n <? 52 then 71 + n else if n <? 62 then n - 4 else if n =? 62 then 45 else 95)).

Fixpoint base64url (l : list Z) : string :=
  match l with
  | [] => ""
  | [a] => String (base64_char (a / 4)) (String (base64_char (a mod 4 * 16)) "")
  | [a; b] =>
      String (base64_char (a / 4)) (String (base64_char (a mod 4 * 16 + b / 16))
        (String (base64_char (b mod 16 * 4)) ""))
  | a :: b :: c :: rest =>
      String (base64_char (a / 4)) (String (base64_char (a mod 4 * 16 + b / 16))
        (String (base64_char (b mod 16 * 4 + c / 64)) (String (base64_char (c mod 64)) (base64url rest))))
  end.

(** A hexadecimal string has no underscore. *)
Lemma hex_digit_plain n : 0 <= n < 16 -> byte_of (hex_digit n) <> 95.
Proof.
  intros H. assert (Hall : forallb (fun m => negb (byte_of (hex_digit (Z.of_nat m)) =? 95)) (seq 0 16) = true) by (vm_compute; reflexivity).
  rewrite forallb_forall in Hall. specialize (Hall (Z.to_nat n)). rewrite Z2Nat.id in Hall by lia.
  intros E. rewrite E in Hall. discriminate Hall. apply in_seq. lia.
Qed.

Lemma hex_encode_plain l : Forall (fun b => 0 <= b < 256) l -> has_byte "_" (hex_encode l) = false.
Proof.
  unfold has_byte. induction 1 as [|b l Hb _ IH]; [done|]. cbn [hex_encode bytes existsb].
  change (byte_of "_") with 95 in *. rewrite IH, !orb_false_r.
  rewrite (proj2 (Z.eqb_neq _ _)), (proj2 (Z.eqb_neq _ _)); [done| |]; apply not_eq_sym, hex_digit_plain.
  - apply Z.mod_pos_bound. lia.
  - split; [apply Z.div_pos; lia | apply Z.div_lt_upper_bound; lia].
Qed.

Lemma bytes_app a b : bytes (a +:+ b) = bytes a ++ bytes b.
Proof. induction a as [|c a IH]; simpl; [done|]. by rewrite IH. Qed.

Lemma has_byte_app sep a b : has_byte sep (a +:+ b) = has_byte sep a || has_byte sep b.
Proof. unfold has_byte. by rewrite bytes_app, existsb_app. Qed.
