(* ===== verification/Glob.v ===== *)
(** * Pattern matching of GitHub trusts

    [glob], [exactOptional] and [contains] of
    [internal/control/sqlite/store.go], with the conversion of a Go string to
    its code points, and the meaning of a pattern as a recursive function. *)
From S2P Require Import Prelude Model GoMonad GoLib GoStrings.

(** ** [[]rune(s)] *)

Definition continuation (lo hi b : Z) : bool := (lo <=? b) && (b <=? hi).

(** The code point at the head of a byte sequence and what follows it; an
    invalid byte is U+FFFD. *)
Definition decode_rune (b : Z) (l : list Z) : Z * list Z :=
  let bad := (65533, l) in
  if b <? 128 then (b, l)
  else match l with
  | b1 :: l1 =>
      if (194 <=? b) && (b <=? 223) then
        if continuation 128 191 b1 then ((b - 192) * 64 + (b1 - 128), l1) else bad
      else if (224 <=? b) && (b <=? 239) then
        let lo := if b =? 224 then 160 else 128 in
        let hi := if b =? 237 then 159 else 191 in
        match l1 with
        | b2 :: l2 =>
            if continuation lo hi b1 && continuation 128 191 b2
            then ((b - 224) * 4096 + (b1 - 128) * 64 + (b2 - 128), l2) else bad
        | [] => bad
        end
      else if (240 <=? b) && (b <=? 244) then
        let lo := if b =? 240 then 144 else 128 in
        let hi := if b =? 244 then 143 else 191 in
        match l1 with
        | b2 :: b3 :: l3 =>
            if continuation lo hi b1 && continuation 128 191 b2 && continuation 128 191 b3
            then ((b - 240) * 262144 + (b1 - 128) * 4096 + (b2 - 128) * 64 + (b3 - 128), l3) else bad
        | _ => bad
        end
      else bad
  | [] => bad
  end.

Fixpoint decode_runes (fuel : nat) (l : list Z) : list Z :=
  match fuel, l with
  | S fuel', b :: rest => let (r, rest') := decode_rune b rest in r :: decode_runes fuel' rest'
  | _, _ => []
  end.

Definition runes (s : string) : list Z := decode_runes (length (bytes s)) (bytes s).

(** ** The matcher *)

Definition star_rune : Z := 42.
Definition question_rune : Z := 63.

Fixpoint skip_stars (p : list Z) : list Z :=
  match p with c :: p' => if c =? star_rune then skip_stars p' else p | [] => [] end.

(** The loop of [glob].  [p] and [v] are what is left of the pattern and of the
    value from [patternIndex] and [valueIndex]; [star] holds what follows the
    last star and the value from [starValueIndex]. *)
Fixpoint glob_loop (fuel : nat) (p v : list Z) (star : option (list Z * list Z)) : option bool :=
  match fuel with
  | O => None
  | S fuel' =>
      match v with
      | [] => Some (match skip_stars p with [] => true | _ => false end)
      | x :: v' =>
          let back :=
            match star with
            | Some (ps, _ :: vs) => glob_loop fuel' ps vs (Some (ps, vs))
            | Some (_, []) | None => Some false
            end in
          match p with
          | c :: p' =>
              if (c =? question_rune) || (c =? x) then glob_loop fuel' p' v' star
              else if c =? star_rune then glob_loop fuel' p' v (Some (p', v))
              else back
          | [] => back
          end
      end
  end.

(** Steps of the loop: each star is passed once, and between two stars each
    value position is tried once. *)
Definition glob_fuel (p v : list Z) : nat := S ((length p + 1) * (length v + 1) * (length v + 1) + length v).

Definition glob_runes (p v : list Z) : bool := default false (glob_loop (glob_fuel p v) p v None).
Definition glob (pattern value : string) : bool := glob_runes (runes pattern) (runes value).

Definition exactOptional (pattern value : string) : bool := bool_decide (pattern = "") || bool_decide (pattern = value).

Fixpoint contains (values : list string) (value : string) : bool :=
  match values with
  | [] => false
  | candidate :: rest => if bool_decide (candidate = value) then true else contains rest value
  end.

(** ** The meaning of a pattern *)

(** [*] stands for any sequence, [?] for any code point, every other code point
    for itself. *)
Fixpoint pattern_matches (p : list Z) : list Z -> bool :=
  fix on_value (v : list Z) : bool :=
    match p with
    | [] => match v with [] => true | _ => false end
    | c :: p' =>
        if c =? star_rune then
          pattern_matches p' v || match v with [] => false | _ :: v' => on_value v' end
        else match v with
             | [] => false
             | x :: v' => ((c =? question_rune) || (c =? x)) && pattern_matches p' v'
             end
    end.

Lemma matches_star p v :
  pattern_matches (star_rune :: p) v =
  pattern_matches p v || match v with [] => false | _ :: v' => pattern_matches (star_rune :: p) v' end.
Proof. by destruct v. Qed.

Lemma matches_char c p x v :
  c <> star_rune -> pattern_matches (c :: p) (x :: v) = ((c =? question_rune) || (c =? x)) && pattern_matches p v.
Proof. intros H. simpl. by rewrite (proj2 (Z.eqb_neq _ _) H). Qed.

Lemma matches_char_nil c p : c <> star_rune -> pattern_matches (c :: p) [] = false.
Proof. intros H. simpl. by rewrite (proj2 (Z.eqb_neq _ _) H). Qed.

(** A star matches some suffix. *)
Lemma matches_star_suffix p v : pattern_matches (star_rune :: p) v = true <-> exists u w, v = u ++ w /\ pattern_matches p w = true.
Proof.
  induction v as [|x v IH]; rewrite matches_star.
  - rewrite orb_false_r. split; [by exists [], []|]. intros (u & w & E & H). symmetry in E. by apply app_eq_nil in E as [-> ->].
  - rewrite orb_true_iff, IH. split.
    + intros [H|(u & w & -> & H)]; [by exists [], (x :: v) | by exists (x :: u), w].
    + intros (u & w & E & H). destruct u as [|y u]; simpl in E; [left; by subst w|]. right. injection E as -> ->. by exists u, w.
Qed.

Lemma matches_nil p : pattern_matches p [] = match skip_stars p with [] => true | _ => false end.
Proof.
  induction p as [|c p IH]; [done|]. simpl skip_stars. destruct (Z.eqb_spec c star_rune) as [->|Hn].
  - rewrite matches_star, orb_false_r. apply IH.
  - by rewrite matches_char_nil.
Qed.

(** A literal segment: no star, and it matches code point by code point. *)
Definition literal (c x : Z) : Prop := c <> star_rune /\ (c = question_rune \/ c = x).

Lemma literal_prefix seg u p v :
  Forall2 literal seg u -> pattern_matches (seg ++ p) (u ++ v) = pattern_matches p v.
Proof.
  induction 1 as [|c x seg u [Hs Hc] _ IH]; [done|]. rewrite <- !app_comm_cons, matches_char, IH by done.
  destruct Hc as [->| ->]; by rewrite ?Z.eqb_refl, ?orb_true_r.
Qed.

(** A segment without stars consumes as many code points as it is long. *)
Lemma segment_consumes seg p v :
  Forall (fun c => c <> star_rune) seg -> pattern_matches (seg ++ p) v = true ->
  exists u w, v = u ++ w /\ length u = length seg /\ pattern_matches p w = true.
Proof.
  intros Hs. revert v. induction Hs as [|c seg Hc _ IH]; intros v H; [by exists [], v|].
  rewrite <- app_comm_cons in H. destruct v as [|x v]; [by rewrite matches_char_nil in H|].
  rewrite matches_char, andb_true_iff in H by done. destruct H as [_ H].
  destruct (IH v H) as (u & w & -> & Hl & Hw). exists (x :: u), w. simpl. by rewrite Hl.
Qed.

(** ** Correctness of the matcher *)

Lemma matches_star_grow p u v : pattern_matches (star_rune :: p) v = true -> pattern_matches (star_rune :: p) (u ++ v) = true.
Proof. rewrite !matches_star_suffix. intros (a & w & -> & H). exists (u ++ a), w. by rewrite (assoc_L (++)). Qed.

(** Trailing parts of equal length of the same list are equal. *)
Lemma suffix_of_app {A} (a w u v u' w' : list A) :
  a ++ w = u ++ v -> w = u' ++ w' -> length u' = length u -> exists b, v = b ++ w'.
Proof.
  intros E -> Hl. exists (drop (length u) (a ++ u')).
  rewrite (assoc_L (++)) in E. apply (f_equal (drop (length u))) in E.
  rewrite (drop_app_length' u v) in E by done. rewrite <- E, drop_app_le; [done|]. rewrite length_app. lia.
Qed.

(** What is left to decide in a state of the loop, and what the state
    remembers. *)
Definition remaining (p v : list Z) (star : option (list Z * list Z)) : bool :=
  match star with None => pattern_matches p v | Some (ps, vs) => pattern_matches (star_rune :: ps) vs end.

Definition remembers (p v : list Z) (star : option (list Z * list Z)) : Prop :=
  match star with
  | None => True
  | Some (ps, vs) => exists seg u, ps = seg ++ p /\ vs = u ++ v /\ Forall2 literal seg u
  end.

Lemma literal_no_star seg u : Forall2 literal seg u -> Forall (fun c => c <> star_rune) seg.
Proof. induction 1 as [|c x seg u [H _] _ IH]; by constructor. Qed.

Lemma bool_iff (a b : bool) : (a = true <-> b = true) -> a = b.
Proof. destruct a, b; naive_solver. Qed.

(** Passing a second star forgets the first. *)
Lemma star_segment seg u p v :
  Forall2 literal seg u ->
  pattern_matches (star_rune :: seg ++ star_rune :: p) (u ++ v) = pattern_matches (star_rune :: p) v.
Proof.
  intros Hl. apply bool_iff. split; intros H.
  - apply matches_star_suffix in H as (a & w & E & H).
    destruct (segment_consumes _ _ _ (literal_no_star _ _ Hl) H) as (u' & w' & Ew & Hlen & H').
    rewrite (Forall2_length _ _ _ Hl) in Hlen.
    destruct (suffix_of_app a w u v u' w' (eq_sym E) Ew Hlen) as [b ->]. by apply matches_star_grow.
  - apply matches_star_suffix. exists [], (u ++ v). split; [done|]. by rewrite literal_prefix.
Qed.

(** At the end of the value only the current attempt is left. *)
Lemma star_end seg u p :
  Forall2 literal seg u -> pattern_matches (star_rune :: seg ++ p) (u ++ []) = pattern_matches p [].
Proof.
  intros Hl. apply bool_iff. split; intros H.
  - apply matches_star_suffix in H as (a & w & E & H).
    destruct (segment_consumes _ _ _ (literal_no_star _ _ Hl) H) as (u' & w' & Ew & Hlen & H').
    rewrite (Forall2_length _ _ _ Hl) in Hlen.
    destruct (suffix_of_app a w u [] u' w' (eq_sym E) Ew Hlen) as [b Hb]. symmetry in Hb. by apply app_eq_nil in Hb as [_ ->].
  - apply matches_star_suffix. exists [], (u ++ []). split; [done|]. by rewrite literal_prefix.
Qed.

(** When the current attempt fails, the next one starts one position later. *)
Lemma star_retry seg u p v y vs :
  Forall2 literal seg u -> u ++ v = y :: vs -> pattern_matches p v = false ->
  pattern_matches (star_rune :: seg ++ p) (y :: vs) = pattern_matches (star_rune :: seg ++ p) vs.
Proof. intros Hl E Hf. rewrite matches_star, <- E, literal_prefix, Hf by done. done. Qed.

Lemma mismatch c p x v :
  (c =? question_rune) || (c =? x) = false -> c <> star_rune -> pattern_matches (c :: p) (x :: v) = false.
Proof. intros H Hs. by rewrite matches_char, H. Qed.

Definition stars_free (v : list Z) : Prop := Forall (fun c => c <> star_rune) v.
Definition star_value_free (star : option (list Z * list Z)) : Prop :=
  match star with None => True | Some (_, vs) => stars_free vs end.

(** The loop decides what remains, for a value without stars. *)
Lemma glob_loop_correct fuel p v star b :
  stars_free v -> star_value_free star -> remembers p v star ->
  glob_loop fuel p v star = Some b -> b = remaining p v star.
Proof.
  revert p v star. induction fuel as [|fuel IH]; intros p v star Hv Hs Hr H; [done|]. simpl in H.
  destruct v as [|x v].
  { injection H as <-. rewrite <- matches_nil. destruct star as [[ps vs]|]; [|done].
    destruct Hr as (seg & u & -> & -> & Hl). unfold remaining. by rewrite star_end. }
  inversion Hv as [|? ? Hx Hv']; subst.
  assert (Hback : forall p0, pattern_matches p0 (x :: v) = false -> remembers p0 (x :: v) star ->
    match star with
    | Some (ps, _ :: vs) => glob_loop fuel ps vs (Some (ps, vs))
    | _ => Some false
    end = Some b -> b = remaining p0 (x :: v) star).
  { intros p0 Hf Hr0 Hb. destruct star as [[ps vs]|]; [|injection Hb as <-; simpl; by rewrite Hf].
    destruct Hr0 as (seg & u & -> & -> & Hl). destruct (u ++ x :: v) as [|y vs] eqn:E; [by destruct u|].
    simpl in Hs. inversion Hs as [|? ? _ Hvs]; subst. unfold remaining. rewrite (star_retry seg u p0 (x :: v)) by done.
    apply (IH (seg ++ p0) vs (Some (seg ++ p0, vs))); [done|done| |done]. exists [], []. repeat split; constructor. }
  destruct p as [|c p]; [apply Hback; done|].
  destruct ((c =? question_rune) || (c =? x)) eqn:Ec.
  - assert (Hlit : literal c x).
    { apply orb_true_iff in Ec as [Ec|Ec]; apply Z.eqb_eq in Ec; subst; split; auto. }
    apply IH in H; [|done|done|].
    + rewrite H. destruct star as [[ps vs]|]; [done|]. unfold remaining. rewrite matches_char by apply Hlit. by rewrite Ec.
    + destruct star as [[ps vs]|]; [|done]. destruct Hr as (seg & u & -> & -> & Hl).
      exists (seg ++ [c]), (u ++ [x]). rewrite <- !(assoc_L (++)). repeat split. apply Forall2_app; [done|]. constructor; [done|constructor].
  - destruct (Z.eqb_spec c star_rune) as [->|Hn].
    + apply IH in H; [|done|done|by exists [], []; repeat split; constructor].
      rewrite H. destruct star as [[ps vs]|]; [|done]. destruct Hr as (seg & u & -> & -> & Hl). unfold remaining.
      by rewrite star_segment.
    + apply Hback; [by apply mismatch|done|done].
Qed.

(** ** The loop ends *)

(** Steps left: passed stars, then start positions, then value positions. *)
Definition glob_steps (lp lv : nat) (v : list Z) (star : option (list Z * list Z)) : nat :=
  (let a := match star with None => lp + 1 | Some (ps, _) => length ps end in
  let b := match star with None => 0 | Some (_, vs) => length vs end in
  (a * (lv + 1) + b) * (lv + 1) + length v)%nat.

Definition glob_bounded (lp lv : nat) (p v : list Z) (star : option (list Z * list Z)) : Prop :=
  (length v <= lv)%nat /\
  match star with
  | None => (length p <= lp)%nat
  | Some (ps, vs) => (length p <= length ps)%nat /\ (length v <= length vs <= lv)%nat
  end.

Lemma glob_loop_ends lp lv fuel p v star :
  glob_bounded lp lv p v star -> (glob_steps lp lv v star < fuel)%nat ->
  exists b, glob_loop fuel p v star = Some b.
Proof.
  revert p v star. induction fuel as [|fuel IH]; intros p v star Hb Hf; [lia|]. simpl.
  destruct v as [|x v]; [by eexists|]. destruct Hb as [Hv Hs]. simpl in Hv.
  assert (Hback : exists b, match star with
    | Some (ps, _ :: vs) => glob_loop fuel ps vs (Some (ps, vs))
    | _ => Some false
    end = Some b).
  { destruct star as [[ps [|y vs]]|]; [by eexists| |by eexists]. destruct Hs as [Hp Hvs]. simpl in Hvs.
    apply IH; [repeat split; simpl; lia|]. unfold glob_steps in *. simpl in *. nia. }
  destruct p as [|c p]; [done|]. simpl in Hs.
  destruct ((c =? question_rune) || (c =? x)).
  - apply IH; [|unfold glob_steps in *; simpl in *; lia]. split; [lia|].
    destruct star as [[ps vs]|]; simpl in *; lia.
  - destruct (c =? star_rune); [|done]. apply IH.
    + split; [simpl; lia|]. simpl. lia.
    + unfold glob_steps in *. simpl in *. destruct star as [[ps vs]|]; nia.
Qed.

Lemma glob_runes_correct p v : stars_free v -> glob_runes p v = pattern_matches p v.
Proof.
  intros Hv. unfold glob_runes.
  destruct (glob_loop_ends (length p) (length v) (glob_fuel p v) p v None) as [b Hb].
  - split; simpl; lia.
  - unfold glob_steps, glob_fuel. lia.
  - rewrite Hb. simpl. by apply (glob_loop_correct (glob_fuel p v) p v None).
Qed.

Lemma contains_spec values value : contains values value = true <-> value ∈ values.
Proof.
  induction values as [|x values IH]; simpl; [split; [discriminate|by intros ?%elem_of_nil]|].
  rewrite elem_of_cons. case_bool_decide; naive_solver.
Qed.

Lemma exactOptional_spec pattern value : exactOptional pattern value = true <-> pattern = "" \/ pattern = value.
Proof. unfold exactOptional. rewrite orb_true_iff, !bool_decide_eq_true. done. Qed.
