(* ===== verification/Encoding.v ===== *)
(** * Base64 decoding and the order of strings

    [base64.RawURLEncoding.DecodeString], the inverse of the encoding of
    [GoStrings], and the facts about the byte order of strings that [ORDER BY]
    and [sort.Strings] use. *)

From Stdlib Require Import Ascii OrderedTypeEx.
From S2P Require Import Prelude Model GoMonad GoLib GoStrings.

(** ** [base64.RawURLEncoding.DecodeString] *)

(** The value of a character of the URL alphabet. *)
Definition base64_value (b : Z) : option Z :=
  if (65 <=? b) && (b <=? 90) then Some (b - 65)
  else if (97 <=? b) && (b <=? 122) then Some (b - 71)
  else if (48 <=? b) && (b <=? 57) then Some (b + 4)
  else if b =? 45 then Some 62
  else if b =? 95 then Some 63
  else None.

(** Line feeds and carriage returns are skipped, any other character outside
    the alphabet (padding included) is an error. *)
Fixpoint base64_values (l : list Z) : option (list Z) :=
  match l with
  | [] => Some []
  | b :: rest =>
      if (b =? 10) || (b =? 13) then base64_values rest
      else v ← base64_value b; vs ← base64_values rest; Some (v :: vs)
  end.

(** Groups of four values; the surplus bits of a short last group are ignored. *)
Fixpoint base64_quanta (l : list Z) : option (list Z) :=
  match l with
  | [] => Some []
  | [_] => None
  | [a; b] => Some [a * 4 + b / 16]
  | [a; b; c] => Some [a * 4 + b / 16; b mod 16 * 16 + c / 4]
  | a :: b :: c :: d :: rest =>
      more ← base64_quanta rest;
      Some (a * 4 + b / 16 :: b mod 16 * 16 + c / 4 :: c mod 4 * 64 + d :: more)
  end.

Definition base64url_decode (s : string) : option (list Z) := vs ← base64_values (bytes s); base64_quanta vs.

(** ** Round trip *)

Lemma base64_value_char n : 0 <= n < 64 -> base64_value (byte_of (base64_char n)) = Some n.
Proof.
  intros H.
  assert (Hall : forallb (fun m => bool_decide (base64_value (byte_of (base64_char (Z.of_nat m))) = Some (Z.of_nat m))) (seq 0 64) = true)
    by (vm_compute; reflexivity).
  rewrite forallb_forall in Hall. specialize (Hall (Z.to_nat n)). rewrite Z2Nat.id in Hall by lia.
  apply bool_decide_eq_true in Hall; [done|]. apply in_seq. lia.
Qed.

Lemma base64_values_char n l :
  0 <= n < 64 -> base64_values (byte_of (base64_char n) :: l) = (vs ← base64_values l; Some (n :: vs)).
Proof.
  intros H. cbn [base64_values]. rewrite (base64_value_char n H).
  destruct ((byte_of (base64_char n) =? 10) || (byte_of (base64_char n) =? 13)) eqn:E; [|done]. exfalso.
  pose proof (base64_value_char n H) as Hv. apply orb_true_iff in E as [E|E]; apply Z.eqb_eq in E; rewrite E in Hv; discriminate.
Qed.

(** Three bytes are four sextets. *)
Lemma sextets_join a b c :
  0 <= a < 256 -> 0 <= b < 256 -> 0 <= c < 256 ->
  a / 4 * 4 + (a mod 4 * 16 + b / 16) / 16 = a /\
  (a mod 4 * 16 + b / 16) mod 16 * 16 + (b mod 16 * 4 + c / 64) / 4 = b /\
  (b mod 16 * 4 + c / 64) mod 4 * 64 + c mod 64 = c.
Proof.
  intros Ha Hb Hc. pose proof (Z.mod_pos_bound a 4). pose proof (Z.mod_pos_bound b 16).
  assert (0 <= b / 16 < 16) by (split; [apply Z.div_pos|apply Z.div_lt_upper_bound]; lia).
  assert (0 <= c / 64 < 4) by (split; [apply Z.div_pos|apply Z.div_lt_upper_bound]; lia).
  rewrite (Z.add_comm (a mod 4 * 16)), Z.div_add, Z.mod_add, (Z.div_small (b / 16)), (Z.mod_small (b / 16)) by lia.
  rewrite (Z.add_comm (b mod 16 * 4)), Z.div_add, Z.mod_add, (Z.div_small (c / 64)), (Z.mod_small (c / 64)) by lia.
  pose proof (Z.div_mod a 4). pose proof (Z.div_mod b 16). pose proof (Z.div_mod c 64). lia.
Qed.

Ltac sextet_bounds :=
  repeat match goal with
  | |- context [?a / ?n] => lazymatch goal with
      | _ : 0 <= a / n |- _ => fail
      | _ => assert (0 <= a / n) by (apply Z.div_pos; lia); assert (a / n * n <= a) by (rewrite Z.mul_comm; apply Z.mul_div_le; lia)
      end
  | |- context [?a mod ?n] => lazymatch goal with
      | _ : 0 <= a mod n < n |- _ => fail
      | _ => pose proof (Z.mod_pos_bound a n ltac:(lia))
      end
  end; lia.

Definition is_byte (b : Z) : Prop := 0 <= b < 256.

(** What the encoder wrote the decoder reads back. *)
Lemma base64_round_trip l : Forall is_byte l -> base64url_decode (base64url l) = Some l.
Proof.
  unfold base64url_decode, is_byte. revert l. fix IH 1. intros [|a [|b [|c l]]] Hl; [done| | |].
  - apply Forall_cons in Hl as [Ha _]. cbn [base64url bytes]. rewrite !base64_values_char by sextet_bounds. simpl.
    destruct (sextets_join a 0 0) as [E _]; [lia..|]. simpl in E. rewrite Z.add_0_r in E. by rewrite E.
  - apply Forall_cons in Hl as [Ha Hl]. apply Forall_cons in Hl as [Hb _]. cbn [base64url bytes].
    rewrite !base64_values_char by sextet_bounds. cbn [base64_values mbind option_bind base64_quanta].
    destruct (sextets_join a b 0) as (E1 & E2 & _); [lia..|]. change (0 / 64) with 0 in E2. rewrite Z.add_0_r in E2. by rewrite E1, E2.
  - apply Forall_cons in Hl as [Ha Hl]. apply Forall_cons in Hl as [Hb Hl]. apply Forall_cons in Hl as [Hc Hl].
    specialize (IH l Hl). cbn [base64url bytes]. rewrite !base64_values_char by sextet_bounds.
    destruct (base64_values (bytes (base64url l))) as [vs|]; [|discriminate]. simpl in IH |- *. rewrite IH. simpl.
    destruct (sextets_join a b c) as (E1 & E2 & E3); [lia..|]. by rewrite E1, E2, E3.
Qed.

Lemma base64url_nonnil l : l <> [] -> base64url l <> "".
Proof. by destruct l as [|a [|b [|c l]]]. Qed.

(** ** The byte order of strings *)

Lemma compare_Lt_trans a b c : String.compare a b = Lt -> String.compare b c = Lt -> String.compare a c = Lt.
Proof.
  intros H1 H2. apply String_as_OT.cmp_lt, (String_as_OT.lt_trans _ b); by apply String_as_OT.cmp_lt.
Qed.

Lemma leb_trans a b c : String.leb a b = true -> String.leb b c = true -> String.leb a c = true.
Proof.
  unfold String.leb. destruct (String.compare a b) eqn:E1; [|intros _|done].
  - apply String.compare_eq_iff in E1 as ->. done.
  - destruct (String.compare b c) eqn:E2; [|intros _|done].
    + apply String.compare_eq_iff in E2 as ->. by rewrite E1.
    + by rewrite (compare_Lt_trans a b c).
Qed.

(** * Decimal numbers

    [strconv.Itoa] and [strconv.Atoi] on 64-bit integers. *)

(** The digits of [n] before [tail]; twenty digits hold every 64-bit integer. *)
Fixpoint dec_digits (fuel : nat) (n : Z) (tail : list Z) : list Z :=
  match fuel with
  | O => tail
  | S fuel' => let tail := (48 + n mod 10) :: tail in if n <? 10 then tail else dec_digits fuel' (n / 10) tail
  end.

Definition Itoa (z : Z) : string := of_bytes (if z <? 0 then 45 :: dec_digits 20 (- z) [] else dec_digits 20 z []).

Fixpoint parse_digits (acc : Z) (l : list Z) : option Z :=
  match l with
  | [] => Some acc
  | b :: rest => if (48 <=? b) && (b <=? 57) then parse_digits (acc * 10 + (b - 48)) rest else None
  end.

(** A sign, then digits; [None] is a syntax or a range error. *)
Definition Atoi (s : string) : option Z :=
  let '(negative, l) := match bytes s with b :: rest => if b =? 45 then (true, rest) else if b =? 43 then (false, rest) else (false, b :: rest) | [] => (false, []) end in
  match l with
  | [] => None
  | _ =>
      v ← parse_digits 0 l;
      let z := if negative : bool then - v else v in
      if (- 2 ^ 63 <=? z) && (z <? 2 ^ 63) then Some z else None
  end.

Lemma bytes_of_bytes l : Forall is_byte l -> bytes (of_bytes l) = l.
Proof.
  induction 1 as [|b l Hb _ IH]; [done|]. cbn [of_bytes bytes]. rewrite IH. unfold is_byte, byte_of in *.
  rewrite nat_ascii_embedding by lia. by rewrite Z2Nat.id by lia.
Qed.

Lemma string_bytes s : Forall is_byte (bytes s).
Proof.
  induction s as [|c s IH]; [constructor|]. cbn [bytes]. constructor; [|done]. unfold is_byte, byte_of. pose proof (nat_ascii_bounded c). lia.
Qed.

Lemma of_bytes_bytes s : of_bytes (bytes s) = s.
Proof.
  induction s as [|c s IH]; [done|]. cbn [bytes of_bytes]. rewrite IH. unfold byte_of. by rewrite Nat2Z.id, ascii_nat_embedding.
Qed.

Lemma dec_digits_bytes fuel n tail :
  0 <= n -> Forall is_byte tail -> Forall is_byte (dec_digits fuel n tail).
Proof.
  revert n tail. induction fuel as [|fuel IH]; intros n tail Hn Ht; simpl; [done|].
  assert (Hd : is_byte (48 + n mod 10)) by (unfold is_byte; pose proof (Z.mod_pos_bound n 10); lia).
  destruct (n <? 10); [by constructor|]. apply IH; [by apply Z.div_pos|by constructor].
Qed.

Lemma dec_digits_first fuel n tail : (0 < fuel)%nat -> 0 <= n -> exists b rest, dec_digits fuel n tail = b :: rest /\ 48 <= b <= 57.
Proof.
  revert n tail. induction fuel as [|fuel IH]; intros n tail Hf Hn; simpl; [lia|]. pose proof (Z.mod_pos_bound n 10).
  destruct (n <? 10) eqn:E; [eexists _, _; split; [done|lia]|]. destruct fuel as [|fuel]; [simpl; eexists _, _; split; [done|lia]|].
  apply IH; [lia|by apply Z.div_pos].
Qed.

Lemma parse_dec_digits fuel n tail : 0 <= n < 10 ^ Z.of_nat fuel -> (0 < fuel)%nat -> parse_digits 0 (dec_digits fuel n tail) = parse_digits n tail.
Proof.
  revert n tail. induction fuel as [|fuel IH]; intros n tail Hn Hf; [lia|]. cbn [dec_digits]. cbv zeta. pose proof (Z.mod_pos_bound n 10).
  assert (Hstep : forall a, parse_digits a ((48 + n mod 10) :: tail) = parse_digits (a * 10 + n mod 10) tail).
  { intros a. cbn [parse_digits]. rewrite (proj2 (Z.leb_le 48 _)), (proj2 (Z.leb_le _ 57)) by lia. simpl. f_equal. lia. }
  destruct (n <? 10) eqn:E; split_bools; [rewrite Hstep; f_equal; rewrite Z.mod_small by lia; lia|].
  rewrite Nat2Z.inj_succ, Z.pow_succ_r in Hn by lia.
  destruct fuel as [|fuel]; [simpl in Hn; lia|]. rewrite IH; [rewrite Hstep; f_equal; pose proof (Z.div_mod n 10); lia| |lia].
  split; [apply Z.div_pos; lia|]. apply Z.div_lt_upper_bound; lia.
Qed.

(** What [Itoa] writes, [Atoi] reads. *)
Lemma Atoi_Itoa n : 0 <= n < 2 ^ 63 -> Atoi (Itoa n) = Some n.
Proof.
  intros Hn. unfold Itoa. rewrite (proj2 (Z.ltb_ge n 0)) by lia. unfold Atoi.
  rewrite bytes_of_bytes by (apply dec_digits_bytes; [lia|constructor]).
  destruct (dec_digits_first 20 n []) as (b & rest & E & Hb); [lia|lia|].
  pose proof (parse_dec_digits 20 n []) as Hp. rewrite E in *. rewrite !(proj2 (Z.eqb_neq b _)) by lia.
  rewrite Hp; [|split; [lia|]; transitivity (2 ^ 63); [lia|reflexivity]|lia]. simpl.
  rewrite (proj2 (Z.leb_le _ _)), (proj2 (Z.ltb_lt _ _)) by lia. done.
Qed.

Lemma Itoa_nonempty n : 0 <= n -> Itoa n <> "".
Proof.
  intros Hn. unfold Itoa. rewrite (proj2 (Z.ltb_ge n 0)) by lia. destruct (dec_digits_first 20 n []) as (b & rest & -> & _); [lia|lia|]. done.
Qed.
