(* ===== verification/Identity.v ===== *)
(** * Identities, tokens and projects

    The methods of [internal/control/sqlite/store.go] on users, projects,
    access tokens, enrollment codes, browser and device logins and GitHub
    trusts.  The keyed digest of a token, an HMAC-SHA256 under the store's
    pepper, is a parameter. *)
From Stdlib Require Import Ascii.
From S2P Require Import Prelude Model GoMonad GoLib GoStrings Glob Table Schema JobStore.

(** [Store.digest]. *)
Class Pepper := { digest : string -> string }.

(** ** Tokens *)

(** [control.PrincipalKind] of the kind field of a token. *)
Definition token_kind (field : string) : option PrincipalKind :=
  if bool_decide (field = "dt") then Some PrincipalDevice
  else if bool_decide (field = "gh") then Some PrincipalGitHub
  else if bool_decide (field = "ws") then Some PrincipalBrowser
  else None.

Definition parseToken (token : string) : option (PrincipalKind * string) :=
  match SplitN "_" 4 token with
  | [p0; p1; p2; p3] =>
      if negb (bool_decide (p0 = "autback")) || bool_decide (p2 = "") || bool_decide (p3 = "") then None
      else kind ← token_kind p1; Some (kind, p2)
  | _ => None
  end.

Definition parseOpaque (value kind : string) : option string :=
  match SplitN "_" 4 value with
  | [p0; p1; p2; p3] =>
      if bool_decide (p0 = "autback") && bool_decide (p1 = kind) && negb (bool_decide (p2 = ""))
         && negb (bool_decide (p3 = "")) then Some p2 else None
  | _ => None
  end.

(** The text of a token from its kind, identifier and random bytes. *)
Definition token_text (kind id : string) (secretBytes : list Z) : string :=
  "autback_" +:+ kind +:+ "_" +:+ id +:+ "_" +:+ base64url secretBytes.

Section Identity.
Context `{Pepper} `{CaseTables}.

Definition newToken (kind : string) : StoreM (string * string * string) :=
  id ← randomID "tok";
  secretBytes ← rand_Read 32;
  let secret := token_text kind id secretBytes in
  mret (id, secret, digest secret).

Definition newOpaque (kind : string) : StoreM (string * string * string) :=
  id ← randomID kind;
  secretBytes ← rand_Read 32;
  let secret := token_text kind id secretBytes in
  mret (id, secret, digest secret).

Definition user_code_alphabet : string := "ABCDEFGHJKLMNPQRSTUVWXYZ23456789".

Definition randomUserCode : StoreM string :=
  value ← rand_Read 8;
  let letters := map (fun b => nth (Z.to_nat (b mod 32)) (bytes user_code_alphabet) 0) value in
  mret (of_bytes (take 4 letters) +:+ "-" +:+ of_bytes (drop 4 letters)).

(** ** Errors *)

(** Any error of [m] becomes [e]. *)
Definition or_error {A : Type} (m : StoreM A) (e : Err) : StoreM A :=
  r ← attempt m; match r with Ok a => mret a | Fail _ => throw e end.

(** [strings.Contains(err.Error(), "UNIQUE")]. *)
Definition names_unique (e : Err) : bool :=
  match e with ErrUnique => true | ErrDriver s => str_contains s "UNIQUE" | _ => false end.

Definition or_already_exists {A : Type} (m : StoreM A) : StoreM A :=
  r ← attempt m;
  match r with
  | Ok a => mret a
  | Fail e => if names_unique e then throw ErrAlreadyExists else throw e
  end.

(** [SELECT 1 FROM users WHERE id=?]. *)
Definition user_row (id : string) : StoreM User :=
  query_row (fun d => head (select (fun u => bool_decide (us_ID u = id)) (users (tabs d)))).

Definition is_device_admin (principal : Principal) : bool :=
  bool_decide (pr_Kind principal = PrincipalDevice) && pr_Admin principal.

Definition actorID (principal : Principal) : string :=
  if negb (bool_decide (pr_UserID principal = "")) then pr_UserID principal else pr_Subject principal.

(** A token row with the columns its INSERT leaves NULL. *)
Definition new_token_row (id : string) (kind : PrincipalKind) (user project : option string)
    (name subject dig : string) (created : Z) (expires : option Z) : TokenRow :=
  mkToken id kind user project name subject dig created expires None None.

(** ** Users, projects and bootstrap *)

Definition BootstrapStore (input : Bootstrap) : StoreM BootstrapResult :=
  if bool_decide (TrimSpace (bo_UserName input) = "") || bool_decide (TrimSpace (bo_ProjectSlug input) = "")
     || bool_decide (TrimSpace (bo_TokenName input) = "")
  then throw (ErrText "bootstrap user, project slug, and token name are required") else
  let projectName := if bool_decide (bo_ProjectName input = "") then bo_ProjectSlug input else bo_ProjectName input in
  transaction (
    count ← query (fun d => Z.of_nat (length (users (tabs d))));
    if negb (count =? 0) then throw ErrAlreadyExists else
    userID ← randomID "usr";
    projectID ← randomID "prj";
    now ← time_Now;
    let user := mkUser userID (bo_UserName input) true now in
    let project := mkProject projectID (bo_ProjectSlug input) projectName "" "" true now in
    _ ← exec_insert Users (mkUser userID (bo_UserName input) true (unix now));
    _ ← exec_insert Projects (mkProject projectID (bo_ProjectSlug input) projectName "" "" true (unix now));
    _ ← exec_insert ProjectMembers (mkMember projectID userID (unix now));
    '(tokenID, secret, dig) ← newToken "dt";
    _ ← exec_insert AccessTokens
          (new_token_row tokenID PrincipalDevice (Some userID) None (bo_TokenName input) "" dig (unix now) None);
    mret (Commit (mkBootstrapResult user project secret))).

Definition Authenticate (token : string) : StoreM Principal :=
  match parseToken token with
  | None => throw ErrUnauthenticated
  | Some (kind, id) =>
      row ← or_error (query_row (fun d => head (select (fun k => bool_decide (tk_id k = id)) (access_tokens (tabs d)))))
              ErrUnauthenticated;
      now ← time_Now;
      if negb (bool_decide (tk_kind row = kind)) || bool_decide (tk_revoked_at row <> None)
         || match tk_expires_at row with Some e => fromUnix e <? now | None => false end
      then throw ErrUnauthenticated else
      if negb (bool_decide (digest token = tk_digest row)) then throw ErrUnauthenticated else
      let userID := default "" (tk_user_id row) in
      let projectID := default "" (tk_project_id row) in
      admin ← (if negb (bool_decide (userID = "")) then
                 user ← or_error (user_row userID) ErrUnauthenticated; mret (us_Admin user)
               else mret false);
      used ← time_Now;
      _ ← attempt (exec_update AccessTokens (fun k => bool_decide (tk_id k = id))
            (fun k => mkToken (tk_id k) (tk_kind k) (tk_user_id k) (tk_project_id k) (tk_name k) (tk_subject k)
                        (tk_digest k) (tk_created_at k) (tk_expires_at k) (Some (unix used)) (tk_revoked_at k)));
      mret (mkPrincipal kind id userID projectID admin (tk_subject row))
  end.

(** [Store.project]: by identifier or by slug. *)
Definition find_project (selector : string) (d : Database) : option Project :=
  head (select (fun p => bool_decide (pj_ID p = selector) || bool_decide (pj_Slug p = selector)) (projects (tabs d))).

Definition getProject (selector : string) : StoreM Project := or_not_found (query_row (find_project selector)).

Definition AuthorizeProject (principal : Principal) (selector : string) : StoreM Project :=
  project ← getProject selector;
  if negb (bool_decide (pr_ProjectID principal = "")) then
    if negb (bool_decide (pr_ProjectID principal = pj_ID project)) then throw ErrForbidden else mret project
  else if bool_decide (pr_UserID principal = "") then throw ErrForbidden
  else if pr_Admin principal then mret project
  else
    _ ← or_error (query_row (fun d =>
          head (select (fun m => bool_decide (mb_project_id m = pj_ID project)
                                 && bool_decide (mb_user_id m = pr_UserID principal)) (project_members (tabs d)))))
          ErrForbidden;
    mret project.

Definition CreateUser (principal : Principal) (name : string) (admin : bool) : StoreM User :=
  if negb (pr_Admin principal) then throw ErrForbidden else
  if bool_decide (TrimSpace name = "") then throw (ErrText "user name is required") else
  id ← randomID "usr";
  now ← time_Now;
  _ ← exec_insert Users (mkUser id name admin (unix now));
  mret (mkUser id name admin now).

Definition CreateProject (principal : Principal) (slug name : string) : StoreM Project :=
  if negb (pr_Admin principal) then throw ErrForbidden else
  if bool_decide (TrimSpace slug = "") then throw (ErrText "project slug is required") else
  let name := if bool_decide (name = "") then slug else name in
  id ← randomID "prj";
  now ← time_Now;
  _ ← or_already_exists (exec_insert Projects (mkProject id slug name "" "" true (unix now)));
  mret (mkProject id slug name "" "" true now).

Definition AddProjectMember (principal : Principal) (projectSelector userID : string) : StoreM unit :=
  if negb (pr_Admin principal) then throw ErrForbidden else
  project ← AuthorizeProject principal projectSelector;
  now ← time_Now;
  count ← exec_insert_ignore ProjectMembers (mkMember (pj_ID project) userID (unix now));
  if count =? 0 then _ ← or_error (user_row userID) ErrNotFound; mret tt else mret tt.

(** [changeProjectImage], its project with the images replaced. *)
Definition pj_images (active previous : string) (p : Project) : Project :=
  mkProject (pj_ID p) (pj_Slug p) (pj_Name p) active previous (pj_AllowImageOverrides p) (pj_CreatedAt p).

Definition changeProjectImage (principal : Principal) (projectID action image : string) : StoreM Project :=
  transaction (
    project ← query_row (fun d => head (select (fun p => bool_decide (pj_ID p = projectID)) (projects (tabs d))));
    let replaced := pj_ActiveImage project in
    image ← (if bool_decide (action = "rollback") then
               if bool_decide (pj_PreviousImage project = "") then throw ErrNotFound else mret (pj_PreviousImage project)
             else mret image);
    if bool_decide (image = pj_ActiveImage project) then mret (Return project) else
    let project := pj_images image replaced project in
    _ ← exec_update Projects (fun p => bool_decide (pj_ID p = pj_ID project)) (pj_images image replaced);
    eventID ← randomID "img";
    now ← time_Now;
    _ ← exec_insert ProjectImageEvents
          (mkImageEvent eventID (pj_ID project) action image replaced (actorID principal) (unix now));
    mret (Commit project)).

Definition ActivateProjectImage (principal : Principal) (projectID image : string) : StoreM Project :=
  if negb (is_device_admin principal) then throw ErrForbidden else
  changeProjectImage principal projectID "activate" image.

Definition RollbackProjectImage (principal : Principal) (projectID : string) : StoreM Project :=
  if negb (is_device_admin principal) then throw ErrForbidden else
  changeProjectImage principal projectID "rollback" "".

Definition SetProjectImagePolicy (principal : Principal) (projectID : string) (allow : bool) : StoreM Project :=
  if negb (is_device_admin principal) then throw ErrForbidden else
  count ← exec_update Projects (fun p => bool_decide (pj_ID p = projectID))
    (fun p => mkProject (pj_ID p) (pj_Slug p) (pj_Name p) (pj_ActiveImage p) (pj_PreviousImage p) allow (pj_CreatedAt p));
  if negb (count =? 1) then throw ErrNotFound else getProject projectID.

(** ** External identities *)

Definition BindExternalIdentity (principal : Principal) (userID : string) (identity : ExternalIdentity) : StoreM ExternalIdentity :=
  if negb (is_device_admin principal) then throw ErrForbidden else
  let provider := ToLower (TrimSpace (xi_Provider identity)) in
  let subject := TrimSpace (xi_Subject identity) in
  let login := TrimSpace (xi_Login identity) in
  if bool_decide (provider = "") || bool_decide (subject = "") || bool_decide (login = "") || bool_decide (userID = "")
  then throw (ErrText "identity provider, subject, login, and user are required") else
  _ ← or_error (user_row userID) ErrNotFound;
  created ← time_Now;
  _ ← or_already_exists (exec_insert ExternalIdentities (mkIdentity provider subject login userID (unix created) None));
  mret (mkExternalIdentity provider subject login userID created (xi_LastAuthenticatedAt identity)).

(** The tokens a revoked identity loses: the live device and browser tokens of
    its user. *)
Definition tk_revoke (now : Z) (k : TokenRow) : TokenRow :=
  mkToken (tk_id k) (tk_kind k) (tk_user_id k) (tk_project_id k) (tk_name k) (tk_subject k) (tk_digest k)
    (tk_created_at k) (tk_expires_at k) (tk_last_used_at k) (Some now).

Definition identity_token (userID : string) (k : TokenRow) : bool :=
  bool_decide (tk_user_id k = Some userID)
  && (bool_decide (tk_kind k = PrincipalBrowser) || bool_decide (tk_kind k = PrincipalDevice))
  && bool_decide (tk_revoked_at k = None).

Definition dl_consume (now : Z) (l : DeviceLoginRow) : DeviceLoginRow :=
  mkDeviceLogin (dl_id l) (dl_user_code l) (dl_device_name l) (dl_digest l) (dl_user_id l) (dl_created_at l)
    (dl_expires_at l) (dl_approved_at l) (Some now).

Definition RevokeExternalIdentity (principal : Principal) (userID provider : string) : StoreM unit :=
  if negb (is_device_admin principal) then throw ErrForbidden else
  let provider := ToLower (TrimSpace provider) in
  let userID := TrimSpace userID in
  if bool_decide (provider = "") || bool_decide (userID = "")
  then throw (ErrText "identity provider and user are required") else
  transaction (
    count ← exec_delete ExternalIdentities
      (fun i => bool_decide (ei_provider i = provider) && bool_decide (ei_user_id i = userID));
    if negb (count =? 1) then throw ErrNotFound else
    now ← time_Now;
    _ ← exec_update AccessTokens (identity_token userID) (tk_revoke (unix now));
    _ ← exec_update DeviceLogins
          (fun l => bool_decide (dl_user_id l = Some userID) && bool_decide (dl_consumed_at l = None))
          (dl_consume (unix now));
    mret (Commit tt)).

Definition find_identity (provider subject : string) (d : Database) : option IdentityRow :=
  head (select (fun i => bool_decide (ei_provider i = provider) && bool_decide (ei_subject i = subject))
          (external_identities (tabs d))).

Definition getExternalIdentity (provider subject : string) : StoreM ExternalIdentity :=
  row ← or_not_found (query_row (find_identity (ToLower (TrimSpace provider)) (TrimSpace subject)));
  mret (mkExternalIdentity (ei_provider row) (ei_subject row) (ei_login row) (ei_user_id row)
          (fromUnix (ei_created_at row)) (fromUnix <$> ei_last_authenticated_at row)).

(** The join of users and external identities. *)
Definition find_identity_user (provider subject : string) (d : Database) : option User :=
  head (u ← users (tabs d);
        i ← select (fun i => bool_decide (ei_user_id i = us_ID u) && bool_decide (ei_provider i = provider)
                             && bool_decide (ei_subject i = subject)) (external_identities (tabs d));
        [u]).

Definition UserByExternalIdentity (provider subject login : string) : StoreM User :=
  let provider := ToLower (TrimSpace provider) in
  let subject := TrimSpace subject in
  let login := TrimSpace login in
  if bool_decide (provider = "") || bool_decide (subject = "") || bool_decide (login = "") then throw ErrUnauthenticated else
  transaction (
    r ← attempt (query_row (find_identity_user provider subject));
    match r with
    | Fail ErrNoRows => throw ErrForbidden
    | Fail e => throw e
    | Ok user =>
        now ← time_Now;
        _ ← exec_update ExternalIdentities
              (fun i => bool_decide (ei_provider i = provider) && bool_decide (ei_subject i = subject))
              (fun i => mkIdentity (ei_provider i) (ei_subject i) login (ei_user_id i) (ei_created_at i) (Some (unix now)));
        mret (Commit (mkUser (us_ID user) (us_Name user) (us_Admin user) (fromUnix (us_CreatedAt user))))
    end).

(** ** Browser sessions and OAuth login states *)

Definition CreateBrowserSession (userID : string) (expiresAt : time) : StoreM BrowserSession :=
  now ← time_Now;
  if bool_decide (userID = "") || negb (now <? expiresAt) || (now + 30 * 24 * Hour <? expiresAt)
  then throw (ErrText "browser session user and expiry within 30 days are required") else
  _ ← or_error (user_row userID) ErrNotFound;
  '(id, secret, dig) ← newToken "ws";
  _ ← exec_insert AccessTokens
        (new_token_row id PrincipalBrowser (Some userID) None "browser-session" "" dig (unix now) (Some (unix expiresAt)));
  mret (mkBrowserSession secret userID expiresAt).

Definition RevokeBrowserSession (token : string) : StoreM unit :=
  match parseToken token with
  | Some (PrincipalBrowser, id) =>
      r ← attempt (Authenticate token);
      match r with
      | Ok principal =>
          if negb (bool_decide (pr_Kind principal = PrincipalBrowser)) || negb (bool_decide (pr_TokenID principal = id))
          then throw ErrUnauthenticated else
          now ← time_Now;
          count ← exec_update AccessTokens
            (fun k => bool_decide (tk_id k = id) && bool_decide (tk_kind k = PrincipalBrowser)
                      && bool_decide (tk_revoked_at k = None))
            (tk_revoke (unix now));
          if negb (count =? 1) then throw ErrNotFound else mret tt
      | Fail _ => throw ErrUnauthenticated
      end
  | _ => throw ErrUnauthenticated
  end.

Definition CreateOAuthLoginState (returnTo codeVerifier : string) (expiresAt : time) : StoreM OAuthLoginState :=
  now ← time_Now;
  if negb (HasPrefix returnTo "/") || HasPrefix returnTo "//" || bool_decide (TrimSpace codeVerifier = "")
     || negb (now <? expiresAt) || (now + 15 * Minute <? expiresAt)
  then throw (ErrText "valid local return path, verifier, and expiry within 15 minutes are required") else
  '(id, state, dig) ← newOpaque "ols";
  _ ← attempt (exec_delete OAuthLoginStates
        (fun l => (oa_expires_at l <=? unix now) || bool_decide (oa_consumed_at l <> None)));
  _ ← exec_insert OAuthLoginStates (mkOAuth id dig returnTo codeVerifier (unix now) (unix expiresAt) None);
  mret (mkOAuthLoginState state returnTo codeVerifier now expiresAt).

Definition ConsumeOAuthLoginState (state : string) (now : time) : StoreM OAuthLoginState :=
  match parseOpaque state "ols" with
  | None => throw ErrUnauthenticated
  | Some id =>
      transaction (
        row ← or_error (query_row (fun d => head (select (fun l => bool_decide (oa_id l = id)) (oauth_login_states (tabs d)))))
                ErrUnauthenticated;
        if bool_decide (oa_consumed_at row <> None) || negb (now <? fromUnix (oa_expires_at row))
           || negb (bool_decide (digest state = oa_digest row))
        then throw ErrUnauthenticated else
        _ ← exec_update OAuthLoginStates (fun l => bool_decide (oa_id l = id) && bool_decide (oa_consumed_at l = None))
              (fun l => mkOAuth (oa_id l) (oa_digest l) (oa_return_to l) (oa_code_verifier l) (oa_created_at l)
                          (oa_expires_at l) (Some (unix now)));
        mret (Commit (mkOAuthLoginState state (oa_return_to row) (oa_code_verifier row)
                        (fromUnix (oa_created_at row)) (fromUnix (oa_expires_at row)))))
  end.

(** ** Device logins *)

Definition CreateDeviceLogin (deviceName : string) (expiresAt : time) : StoreM IssuedDeviceLogin :=
  now ← time_Now;
  let deviceName := TrimSpace deviceName in
  if bool_decide (deviceName = "") || (128 <? Z.of_nat (String.length deviceName)) || negb (now <? expiresAt)
     || (now + 15 * Minute <? expiresAt)
  then throw (ErrText "device name and expiry within 15 minutes are required") else
  '(id, code, dig) ← newOpaque "dlc";
  _ ← attempt (exec_delete DeviceLogins
        (fun l => (dl_expires_at l <=? unix now) || bool_decide (dl_consumed_at l <> None)));
  userCode ← randomUserCode;
  _ ← exec_insert DeviceLogins (mkDeviceLogin id userCode deviceName dig None (unix now) (unix expiresAt) None None);
  mret (mkIssuedDeviceLogin (mkDeviceLoginInfo id userCode deviceName now expiresAt None None) code).

Definition DeviceLoginByUserCode (userCode : string) (now : time) : StoreM DeviceLogin :=
  row ← or_not_found (query_row (fun d =>
          head (select (fun l => bool_decide (dl_user_code l = ToUpper (TrimSpace userCode))) (device_logins (tabs d)))));
  if bool_decide (dl_consumed_at row <> None) || negb (now <? fromUnix (dl_expires_at row)) then throw ErrNotFound else
  mret (mkDeviceLoginInfo (dl_id row) (dl_user_code row) (dl_device_name row) (fromUnix (dl_created_at row))
          (fromUnix (dl_expires_at row)) (fromUnix <$> dl_approved_at row) (fromUnix <$> dl_consumed_at row)).

Definition dl_approve (userID : string) (now : Z) (l : DeviceLoginRow) : DeviceLoginRow :=
  mkDeviceLogin (dl_id l) (dl_user_code l) (dl_device_name l) (dl_digest l) (Some userID) (dl_created_at l)
    (dl_expires_at l) (Some now) (dl_consumed_at l).

Definition ApproveDeviceLogin (userCode : string) (principal : Principal) (now : time) : StoreM unit :=
  if negb (bool_decide (pr_Kind principal = PrincipalBrowser)) || bool_decide (pr_UserID principal = "")
  then throw ErrForbidden else
  count ← exec_update DeviceLogins
    (fun l => bool_decide (dl_user_code l = ToUpper (TrimSpace userCode)) && bool_decide (dl_approved_at l = None)
              && bool_decide (dl_consumed_at l = None) && (unix now <? dl_expires_at l))
    (dl_approve (pr_UserID principal) (unix now));
  if negb (count =? 1) then throw ErrNotFound else mret tt.

Definition ExchangeDeviceLogin (deviceCode : string) (now : time) : StoreM IssuedDeviceToken :=
  match parseOpaque deviceCode "dlc" with
  | None => throw ErrUnauthenticated
  | Some id =>
      transaction (
        row ← or_error (query_row (fun d => head (select (fun l => bool_decide (dl_id l = id)) (device_logins (tabs d)))))
                ErrUnauthenticated;
        if bool_decide (dl_consumed_at row <> None) || negb (now <? fromUnix (dl_expires_at row))
           || negb (bool_decide (digest deviceCode = dl_digest row))
        then throw ErrUnauthenticated else
        let userID := default "" (dl_user_id row) in
        if bool_decide (dl_approved_at row = None) || bool_decide (userID = "") then throw ErrLoginPending else
        '(tokenID, secret, tokenDigest) ← newToken "dt";
        _ ← exec_insert AccessTokens
              (new_token_row tokenID PrincipalDevice (Some userID) None (dl_device_name row) "" tokenDigest (unix now) None);
        count ← exec_update DeviceLogins (fun l => bool_decide (dl_id l = id) && bool_decide (dl_consumed_at l = None))
          (dl_consume (unix now));
        if negb (count =? 1) then throw ErrUnauthenticated else
        mret (Commit (mkIssuedDeviceToken (mkDeviceToken tokenID (dl_device_name row) userID now None None None) secret)))
  end.

(** ** Device tokens and enrollment *)

Definition CreateDeviceToken (principal : Principal) (input : CreateDeviceTokenInput) : StoreM IssuedDeviceToken :=
  if negb (bool_decide (pr_Kind principal = PrincipalDevice)) || bool_decide (pr_UserID principal = "")
  then throw ErrForbidden else
  let userID := if bool_decide (ci_UserID input = "") then pr_UserID principal else ci_UserID input in
  if negb (bool_decide (userID = pr_UserID principal)) && negb (pr_Admin principal) then throw ErrForbidden else
  if bool_decide (TrimSpace (ci_Name input) = "") then throw (ErrText "device token name is required") else
  _ ← or_error (user_row userID) ErrNotFound;
  '(id, secret, dig) ← newToken "dt";
  now ← time_Now;
  let expires := if bool_decide (ci_ExpiresAt input = zero_time) then None else Some (ci_ExpiresAt input) in
  _ ← exec_insert AccessTokens
        (new_token_row id PrincipalDevice (Some userID) None (ci_Name input) "" dig (unix now) (unix <$> expires));
  mret (mkIssuedDeviceToken (mkDeviceToken id (ci_Name input) userID now expires None None) secret).

Definition CreateEnrollmentCode (principal : Principal) (userID deviceName : string) (expiresAt : time) : StoreM IssuedEnrollmentCode :=
  if negb (is_device_admin principal) then throw ErrForbidden else
  if bool_decide (TrimSpace userID = "") || bool_decide (TrimSpace deviceName = "")
  then throw (ErrText "enrollment user and device name are required") else
  now ← time_Now;
  if negb (now <? expiresAt) || (now + 30 * Minute <? expiresAt)
  then throw (ErrText "enrollment expiry must be within 30 minutes") else
  _ ← or_error (user_row userID) ErrNotFound;
  '(id, secret, dig) ← newToken "enr";
  _ ← exec_insert EnrollmentCodes
        (mkEnrollment id userID deviceName dig (unix now) (unix expiresAt) None 0 5);
  mret (mkIssuedEnrollmentCode (mkEnrollmentCode id userID deviceName now expiresAt None 0 5) secret).

Definition scanEnrollment (r : EnrollmentRow) : EnrollmentCode :=
  mkEnrollmentCode (en_id r) (en_user_id r) (en_device_name r) (fromUnix (en_created_at r)) (fromUnix (en_expires_at r))
    (fromUnix <$> en_consumed_at r) (en_failed_attempts r) (en_max_attempts r).

Definition ec_set (consumed : option time) (failed : Z) (e : EnrollmentCode) : EnrollmentCode :=
  mkEnrollmentCode (ec_ID e) (ec_UserID e) (ec_DeviceName e) (ec_CreatedAt e) (ec_ExpiresAt e) consumed failed (ec_MaxAttempts e).

(** [ExchangeEnrollmentCode] returns [ErrUnauthenticated] together with the
    metadata of the code once it has read it. *)
Inductive ExchangeOutcome :=
| Exchanged (token : IssuedDeviceToken) (enrollment : EnrollmentCode)
| Refused (enrollment : EnrollmentCode).

Definition en_fail (failed : Z) (r : EnrollmentRow) : EnrollmentRow :=
  mkEnrollment (en_id r) (en_user_id r) (en_device_name r) (en_digest r) (en_created_at r) (en_expires_at r)
    (en_consumed_at r) failed (en_max_attempts r).
Definition en_consume (now : Z) (r : EnrollmentRow) : EnrollmentRow :=
  mkEnrollment (en_id r) (en_user_id r) (en_device_name r) (en_digest r) (en_created_at r) (en_expires_at r)
    (Some now) (en_failed_attempts r) (en_max_attempts r).

Definition ExchangeEnrollmentCode (code : string) : StoreM ExchangeOutcome :=
  match SplitN "_" 4 code with
  | [p0; p1; id; p3] =>
      if negb (bool_decide (p0 = "autback")) || negb (bool_decide (p1 = "enr")) || bool_decide (id = "") || bool_decide (p3 = "")
      then throw ErrUnauthenticated else
      transaction (
        r ← attempt (query_row (fun d => head (select (fun e => bool_decide (en_id e = id)) (enrollment_codes (tabs d)))));
        match r with
        | Fail ErrNoRows => throw ErrUnauthenticated
        | Fail e => throw e
        | Ok row =>
            let enrollment := scanEnrollment row in
            now ← time_Now;
            if bool_decide (ec_ConsumedAt enrollment <> None) || negb (now <? ec_ExpiresAt enrollment)
               || (ec_MaxAttempts enrollment <=? ec_FailedAttempts enrollment)
            then mret (Return (Refused enrollment)) else
            if negb (bool_decide (digest code = en_digest row)) then
              let failed := ec_FailedAttempts enrollment + 1 in
              _ ← exec_update EnrollmentCodes (fun e => bool_decide (en_id e = ec_ID enrollment)) (en_fail failed);
              mret (Commit (Refused (ec_set (ec_ConsumedAt enrollment) failed enrollment)))
            else
              '(tokenID, secret, tokenDigest) ← newToken "dt";
              let deviceToken := mkDeviceToken tokenID (ec_DeviceName enrollment) (ec_UserID enrollment) now None None None in
              _ ← exec_insert AccessTokens
                    (new_token_row tokenID PrincipalDevice (Some (dt_UserID deviceToken)) None (dt_Name deviceToken) ""
                       tokenDigest (unix now) None);
              count ← exec_update EnrollmentCodes
                (fun e => bool_decide (en_id e = ec_ID enrollment) && bool_decide (en_consumed_at e = None)
                          && (en_failed_attempts e <? en_max_attempts e))
                (en_consume (unix now));
              if negb (count =? 1) then mret (Return (Refused enrollment)) else
              mret (Commit (Exchanged (mkIssuedDeviceToken deviceToken secret)
                              (ec_set (Some now) (ec_FailedAttempts enrollment) enrollment)))
        end)
  | _ => throw ErrUnauthenticated
  end.

Definition scanDeviceToken (k : TokenRow) : DeviceToken :=
  mkDeviceToken (tk_id k) (tk_name k) (default "" (tk_user_id k)) (fromUnix (tk_created_at k)) (fromUnix <$> tk_expires_at k)
    (fromUnix <$> tk_last_used_at k) (fromUnix <$> tk_revoked_at k).

Definition ListDeviceTokens (principal : Principal) : StoreM (list DeviceToken) :=
  if negb (bool_decide (pr_Kind principal = PrincipalDevice)) || bool_decide (pr_UserID principal = "")
  then throw ErrForbidden else
  query (fun d => map scanDeviceToken
    (order_by (fun a b => tk_created_at b <=? tk_created_at a)
       (select (fun k => bool_decide (tk_kind k = PrincipalDevice) && bool_decide (tk_user_id k = Some (pr_UserID principal)))
          (access_tokens (tabs d))))).

Definition RevokeDeviceToken (principal : Principal) (id : string) : StoreM unit :=
  if negb (bool_decide (pr_Kind principal = PrincipalDevice)) || bool_decide (pr_UserID principal = "")
  then throw ErrForbidden else
  now ← time_Now;
  count ← exec_update AccessTokens
    (fun k => bool_decide (tk_id k = id) && bool_decide (tk_kind k = PrincipalDevice) && bool_decide (tk_revoked_at k = None)
              && (pr_Admin principal || bool_decide (tk_user_id k = Some (pr_UserID principal))))
    (tk_revoke (unix now));
  if negb (count =? 1) then throw ErrNotFound else mret tt.

Definition CreateProjectSession (projectID subject : string) (expiresAt : time) : StoreM IssuedAccessToken :=
  '(id, secret, dig) ← newToken "gh";
  now ← time_Now;
  _ ← exec_insert AccessTokens
        (new_token_row id PrincipalGitHub None (Some projectID) "github-oidc" subject dig (unix now) (Some (unix expiresAt)));
  mret (mkIssuedAccessToken secret expiresAt).

(** ** GitHub trusts *)

Definition scanTrust (r : TrustRow) : GitHubTrust :=
  mkGitHubTrust (gt_id r) (gt_project_id r) (gt_repository_owner_id r) (gt_repository_id r) (gt_workflow_ref r) (gt_ref r)
    (gt_environment r) (gt_events r) (fromUnix (gt_created_at r)) (fromUnix <$> gt_revoked_at r).

Definition CreateGitHubTrust (principal : Principal) (trust : GitHubTrust) : StoreM GitHubTrust :=
  if negb (pr_Admin principal) then throw ErrForbidden else
  project ← AuthorizeProject principal (tr_ProjectID trust);
  if bool_decide (tr_RepositoryOwnerID trust = "") || bool_decide (tr_RepositoryID trust = "")
     || bool_decide (tr_WorkflowRef trust = "") || bool_decide (tr_Ref trust = "") || bool_decide (tr_Events trust = [])
  then throw (ErrText "repository owner ID, repository ID, workflow ref, ref, and events are required") else
  if contains (tr_Events trust) "pull_request" && bool_decide (tr_Environment trust = "")
  then throw (ErrText "pull_request trust requires a protected GitHub environment") else
  trustID ← randomID "ght";
  created ← time_Now;
  _ ← exec_insert GitHubTrusts
        (mkTrust trustID (pj_ID project) (tr_RepositoryOwnerID trust) (tr_RepositoryID trust) (tr_WorkflowRef trust)
           (tr_Ref trust) (tr_Environment trust) (tr_Events trust) (unix created) None);
  mret (mkGitHubTrust trustID (pj_ID project) (tr_RepositoryOwnerID trust) (tr_RepositoryID trust) (tr_WorkflowRef trust)
          (tr_Ref trust) (tr_Environment trust) (tr_Events trust) created (tr_RevokedAt trust)).

Definition ListGitHubTrusts (principal : Principal) (projectSelector : string) : StoreM (list GitHubTrust) :=
  project ← AuthorizeProject principal projectSelector;
  query (fun d => map scanTrust
    (order_by (fun a b => gt_created_at a <=? gt_created_at b)
       (select (fun g => bool_decide (gt_project_id g = pj_ID project)) (github_trusts (tabs d))))).

Definition RevokeGitHubTrust (principal : Principal) (id : string) : StoreM unit :=
  if negb (pr_Admin principal) then throw ErrForbidden else
  now ← time_Now;
  count ← exec_update GitHubTrusts (fun g => bool_decide (gt_id g = id) && bool_decide (gt_revoked_at g = None))
    (fun g => mkTrust (gt_id g) (gt_project_id g) (gt_repository_owner_id g) (gt_repository_id g) (gt_workflow_ref g)
                (gt_ref g) (gt_environment g) (gt_events g) (gt_created_at g) (Some (unix now)));
  if negb (count =? 1) then throw ErrNotFound else mret tt.

(** The conditions a trust puts on the claims of a workflow run. *)
Definition trust_accepts (claims : GitHubClaims) (trust : GitHubTrust) : bool :=
  glob (tr_WorkflowRef trust) (cl_WorkflowRef claims) && glob (tr_Ref trust) (cl_Ref claims)
  && exactOptional (tr_Environment trust) (cl_Environment claims) && contains (tr_Events trust) (cl_EventName claims).

Definition MatchGitHubTrust (projectSelector : string) (claims : GitHubClaims) : StoreM GitHubTrust :=
  project ← or_error (getProject projectSelector) ErrForbidden;
  candidates ← query (fun d => map scanTrust
    (select (fun g => bool_decide (gt_project_id g = pj_ID project)
                      && bool_decide (gt_repository_owner_id g = cl_RepositoryOwnerID claims)
                      && bool_decide (gt_repository_id g = cl_RepositoryID claims)
                      && bool_decide (gt_revoked_at g = None)) (github_trusts (tabs d))));
  match head (select (trust_accepts claims) candidates) with
  | Some trust => mret trust
  | None => throw ErrForbidden
  end.

(** ** Audit and listings *)

Definition Audit (principal : Principal) (projectID action targetID : string) (metadata : list (string * string)) : StoreM unit :=
  now ← time_Now;
  exec_insert_with AuditEvents (fun t =>
    mkAudit (audit_seq t + 1) (pr_Kind principal) (actorID principal) projectID action targetID (unix now) metadata).

Definition RecordSecretAccess (projectID jobID name : string) : StoreM unit :=
  Audit (mkPrincipal PrincipalSystem "" "" "" false "dispatcher") projectID "job.secret.access" jobID [("name", name)].

(** [ORDER BY slug, id], in byte order. *)
Definition project_before (a b : Project) : bool :=
  match String.compare (pj_Slug a) (pj_Slug b) with
  | Lt => true
  | Gt => false
  | Eq => String.leb (pj_ID a) (pj_ID b)
  end.

Definition ListProjects (principal : Principal) : StoreM (list Project) :=
  if negb (bool_decide (pr_ProjectID principal = "")) then
    query (fun d => order_by project_before
      (select (fun p => bool_decide (pj_ID p = pr_ProjectID principal)) (projects (tabs d))))
  else if bool_decide (pr_UserID principal = "") then throw ErrForbidden
  else if pr_Admin principal then query (fun d => order_by project_before (projects (tabs d)))
  else query (fun d => order_by project_before
         (p ← projects (tabs d);
          _ ← select (fun m => bool_decide (mb_project_id m = pj_ID p) && bool_decide (mb_user_id m = pr_UserID principal))
                (project_members (tabs d));
          [p])).

Definition ListProjectImageHistory (projectID : string) : StoreM (list ProjectImageEvent) :=
  query (fun d => order_by (fun a b => (ie_CreatedAt b <? ie_CreatedAt a)
                                       || ((ie_CreatedAt a =? ie_CreatedAt b) && String.leb (ie_ID b) (ie_ID a)))
    (select (fun e => bool_decide (ie_ProjectID e = projectID)) (project_image_events (tabs d)))).

End Identity.
