(* ===== verification/IdentitySpec.v ===== *)
(** * What the identity methods do

    Specifications of token issuing and parsing, authentication, enrollment and
    device login, proved from the statements. *)
From Stdlib Require Import Ascii.
From S2P Require Import Prelude Model GoMonad GoLib GoStrings Glob Table Schema JobStore Identity.

(** ** Helper rules *)

Section Rules.
Context (o : Oracle).
Implicit Types (d : Database).

Lemma wp_or_error {A} (m : StoreM A) e Q (E : Err -> Database -> Prop) d :
  wp o m Q (fun _ d' => E e d') d -> wp o (or_error m e) Q E d.
Proof.
  intros H. unfold or_error. wp_step. apply wp_attempt. eapply wp_mono; [exact H| |]; simpl.
  - intros a d' HQ. by apply wp_ret.
  - intros e' d' HE. by apply wp_throw.
Qed.

Lemma wp_or_not_found {A} (f : Database -> option A) Q (E : Err -> Database -> Prop) d :
  match f d with Some a => Q a d | None => E ErrNotFound d end -> (forall s, fails o s -> E (ErrDriver s) d) ->
  wp o (or_not_found (query_row f)) Q E d.
Proof.
  intros H HE. unfold or_not_found. wp_step. wp_step. wp_step; [|intros s Hs; apply wp_throw; by apply HE].
  destruct (f d); [by apply wp_ret | by apply wp_throw].
Qed.

(** A primary-key lookup. *)
Lemma wp_row {R K} `{EqDecision K} (key : R -> K) (rows : Database -> list R) id Q (E : Err -> Database -> Prop) d :
  (forall r, r ∈ rows d -> key r = id -> Q r d) ->
  ((forall r, r ∈ rows d -> key r <> id) -> E ErrNoRows d) -> (forall s, fails o s -> E (ErrDriver s) d) ->
  wp o (query_row (fun d => head (select (fun r => bool_decide (key r = id)) (rows d)))) Q E d.
Proof.
  intros HQ Hn HE. apply wp_query_row; [|exact HE].
  destruct (head _) as [r|] eqn:Er.
  - apply head_Some_elem_of, elem_of_select in Er as [Hr Hk]. apply HQ; [done|]. by apply bool_decide_eq_true in Hk.
  - apply Hn. intros r Hr Hk. apply head_None in Er. eapply elem_of_nil. rewrite <- Er.
    apply elem_of_select. split; [exact Hr|]. by apply bool_decide_eq_true.
Qed.

Lemma wp_randomID prefix Q (E : Err -> Database -> Prop) d :
  (forall l, length l = 12%nat -> Forall (fun b => 0 <= b < 256) l -> Q (prefix +:+ hex_encode l) d) ->
  (forall s, fails o s -> E (ErrDriver s) d) -> wp o (randomID prefix) Q E d.
Proof. intros HQ HE. unfold randomID. wp_step. apply wp_rand_Read; [|exact HE]. intros l Hl Hb. apply wp_ret. auto. Qed.

End Rules.

(** ** Token texts *)

(** Fields that [SplitN] cannot split further. *)
Lemma SplitN_token kind id secret :
  has_byte "_" kind = false -> has_byte "_" id = false ->
  SplitN "_" 4 ("autback_" +:+ kind +:+ "_" +:+ id +:+ "_" +:+ secret) = ["autback"; kind; id; secret].
Proof.
  intros Hk Hi.
  change ("autback_" +:+ kind +:+ "_" +:+ id +:+ "_" +:+ secret)
    with ("autback" +:+ String "_" (kind +:+ String "_" (id +:+ String "_" secret))).
  unfold SplitN. rewrite (cut_app "_" "autback") by done. rewrite cut_app by done. by rewrite cut_app.
Qed.

Lemma base64url_nonempty b l : base64url (b :: l) <> "".
Proof. destruct l as [|c [|x l]]; discriminate. Qed.

Definition plain_id (prefix : string) (id : string) : Prop :=
  exists l, length l = 12%nat /\ Forall (fun b => 0 <= b < 256) l /\ id = prefix +:+ hex_encode l.

Lemma plain_id_has_byte prefix id : has_byte "_" prefix = false -> plain_id prefix id -> has_byte "_" id = false.
Proof. intros Hp (l & _ & Hb & ->). by rewrite has_byte_app, Hp, hex_encode_plain. Qed.

Lemma plain_id_nonempty prefix id : plain_id prefix id -> id <> "".
Proof.
  intros (l & Hl & _ & ->). destruct l as [|b l]; [discriminate|]. simpl. destruct prefix; discriminate.
Qed.

Lemma parseToken_text field kind id l :
  token_kind field = Some kind -> plain_id "tok" id -> length l = 32%nat ->
  parseToken (token_text field id l) = Some (kind, id).
Proof.
  intros Hk Hid Hl. unfold parseToken, token_text.
  assert (Hf : has_byte "_" field = false).
  { unfold token_kind in Hk. repeat case_bool_decide; subst; done. }
  rewrite SplitN_token; [|done|by apply (plain_id_has_byte "tok")]. destruct l as [|b l]; [discriminate|].
  rewrite (bool_decide_eq_false_2 (id = "")) by (by eapply plain_id_nonempty).
  rewrite (bool_decide_eq_false_2 (base64url (b :: l) = "")) by apply base64url_nonempty.
  rewrite bool_decide_eq_true_2 by done. simpl. by rewrite Hk.
Qed.

Lemma parseOpaque_text kind id l :
  has_byte "_" kind = false -> plain_id kind id -> length l = 32%nat ->
  parseOpaque (token_text kind id l) kind = Some id.
Proof.
  intros Hk Hid Hl. unfold parseOpaque, token_text. rewrite SplitN_token; [|done|by apply (plain_id_has_byte kind)].
  destruct l as [|b l]; [discriminate|].
  rewrite (bool_decide_eq_false_2 (id = "")) by (by eapply plain_id_nonempty).
  rewrite (bool_decide_eq_false_2 (base64url (b :: l) = "")) by apply base64url_nonempty.
  by rewrite !bool_decide_eq_true_2.
Qed.

Section Issue.
Context `{Pepper} (o : Oracle).

Lemma wp_newToken field Q (E : Err -> Database -> Prop) d :
  (forall id l, plain_id "tok" id -> length l = 32%nat ->
     Q (id, token_text field id l, digest (token_text field id l)) d) ->
  (forall s, fails o s -> E (ErrDriver s) d) -> wp o (newToken field) Q E d.
Proof.
  intros HQ HE. unfold newToken. wp_step. apply wp_randomID; [|exact HE]. intros l Hl Hb. wp_step.
  apply wp_rand_Read; [|exact HE]. intros l2 Hl2 _. apply wp_ret. apply HQ; [by exists l|done].
Qed.

Lemma wp_newOpaque kind Q (E : Err -> Database -> Prop) d :
  (forall id l, plain_id kind id -> length l = 32%nat ->
     Q (id, token_text kind id l, digest (token_text kind id l)) d) ->
  (forall s, fails o s -> E (ErrDriver s) d) -> wp o (newOpaque kind) Q E d.
Proof.
  intros HQ HE. unfold newOpaque. wp_step. apply wp_randomID; [|exact HE]. intros l Hl Hb. wp_step.
  apply wp_rand_Read; [|exact HE]. intros l2 Hl2 _. apply wp_ret. apply HQ; [by exists l|done].
Qed.

End Issue.

(** ** Authentication *)

Definition tk_use (used : Z) (k : TokenRow) : TokenRow :=
  mkToken (tk_id k) (tk_kind k) (tk_user_id k) (tk_project_id k) (tk_name k) (tk_subject k) (tk_digest k)
    (tk_created_at k) (tk_expires_at k) (Some used) (tk_revoked_at k).

(** The user a token belongs to, and whether it administers the server. *)
Definition token_admin (t : Tables) (k : TokenRow) (admin : bool) : Prop :=
  match default "" (tk_user_id k) with
  | "" => admin = false
  | id => exists u, u ∈ users t /\ us_ID u = id /\ us_Admin u = admin
  end.

Definition principal_of (k : TokenRow) (admin : bool) : Principal :=
  mkPrincipal (tk_kind k) (tk_id k) (default "" (tk_user_id k)) (default "" (tk_project_id k)) admin (tk_subject k).

(** Only [last_used_at] of the token changes. *)
Definition used (k : TokenRow) (d d' : Database) : Prop :=
  d' = d \/ exists now fd, d' = mkDB (set_access_tokens (replace_row tk_id (tk_use now k) (access_tokens (tabs d))) (tabs d)) fd.

Section Authenticate.
Context `{Pepper} (o : Oracle).

Lemma wp_use_token d k now (Q : Z -> Database -> Prop) (E : Err -> Database -> Prop) :
  t_valid AccessTokens (access_tokens (tabs d)) = true -> k ∈ access_tokens (tabs d) ->
  (forall fd, Q 1 (mkDB (set_access_tokens (replace_row tk_id (tk_use now k) (access_tokens (tabs d))) (tabs d)) fd)) ->
  (forall s, fails o s -> E (ErrDriver s) d) ->
  wp o (exec_update AccessTokens (fun x => bool_decide (tk_id x = tk_id k)) (tk_use now)) Q E d.
Proof.
  intros Hv Hk HQ HE. assert (Hnd : NoDup (map tk_id (access_tokens (tabs d)))) by (by apply bool_decide_eq_true in Hv).
  apply (wp_update_row AccessTokens tk_id k); try done.
  - intros r _ Hr. by apply bool_decide_eq_true in Hr.
  - by apply bool_decide_eq_true.
  - simpl. unfold unique. apply bool_decide_eq_true. unfold replace_row. rewrite map_update_same; [done|].
    intros r _ Hr. by apply bool_decide_eq_true in Hr.
Qed.

(** The look-up of the token's user. *)
Lemma wp_token_admin d k (E : Err -> Database -> Prop) :
  E ErrUnauthenticated d ->
  wp o (if negb (bool_decide (default "" (tk_user_id k) = "")) then
          user ← or_error (user_row (default "" (tk_user_id k))) ErrUnauthenticated; mret (us_Admin user)
        else mret false)
    (fun admin d' => d' = d /\ token_admin (tabs d) k admin) E d.
Proof.
  intros HE. unfold token_admin. destruct (default "" (tk_user_id k)) as [|c id]; simpl; [by apply wp_ret|].
  wp_step. apply wp_or_error, (wp_row o us_ID (fun d => users (tabs d))); try done.
  intros u Hu Hid. apply wp_ret. split; [done|]. by exists u.
Qed.

Lemma wp_token_admin_total d k :
  reliable o -> (forall id, tk_user_id k = Some id -> user_exists (tabs d) id = true) ->
  wp o (if negb (bool_decide (default "" (tk_user_id k) = "")) then
          user ← or_error (user_row (default "" (tk_user_id k))) ErrUnauthenticated; mret (us_Admin user)
        else mret false)
    (fun admin d' => d' = d /\ token_admin (tabs d) k admin) (fun _ _ => False) d.
Proof.
  intros Ho Hu. unfold token_admin. destruct (default "" (tk_user_id k)) as [|c id] eqn:Ek; simpl; [by apply wp_ret|].
  wp_step. apply wp_or_error, (wp_row o us_ID (fun d => users (tabs d))).
  - intros u Hin Hid. apply wp_ret. split; [done|]. by exists u.
  - intros Hn. destruct (tk_user_id k) as [id'|]; [|discriminate]. simpl in Ek. subst id'.
    specialize (Hu _ eq_refl). apply existsb_exists in Hu as (u & Hin & Hid). apply list_elem_of_In in Hin.
    apply bool_decide_eq_true in Hid. by apply (Hn u).
  - intros s Hs. by eapply reliable_fails.
Qed.

Lemma Authenticate_spec token d :
  t_valid AccessTokens (access_tokens (tabs d)) = true ->
  wp o (Authenticate token)
    (fun p d' => exists k admin, k ∈ access_tokens (tabs d) /\ parseToken token = Some (tk_kind k, tk_id k) /\
       digest token = tk_digest k /\ tk_revoked_at k = None /\
       (forall e, tk_expires_at k = Some e -> exists n, o_clock o n <= e) /\
       token_admin (tabs d) k admin /\ p = principal_of k admin /\ used k d d')
    (fun e d' => e = ErrUnauthenticated /\ d' = d) d.
Proof.
  intros Hv. unfold Authenticate. destruct (parseToken token) as [[kind id]|] eqn:Ep; [|by apply wp_throw].
  wp_step. apply wp_or_error. apply (wp_row o tk_id (fun d => access_tokens (tabs d))); try done. intros k Hk <-.
  wp_step. apply wp_clock. intros n.
  destruct (_ || _) eqn:Eg; [by apply wp_throw|]. apply orb_false_iff in Eg as [Eg Ee]. apply orb_false_iff in Eg as [Ekd Er].
  apply negb_false_iff, bool_decide_eq_true in Ekd. apply bool_decide_eq_false, dec_stable in Er.
  case_bool_decide as Ed; simpl; [|by apply wp_throw].
  assert (Hexp : forall e, tk_expires_at k = Some e -> exists n, o_clock o n <= e).
  { intros e He. rewrite He in Ee. exists n. apply Z.ltb_ge in Ee. unfold fromUnix in Ee. lia. }
  wp_step.
  apply wp_mono with (Q := fun admin d' => d' = d /\ token_admin (tabs d) k admin) (E := fun e d' => e = ErrUnauthenticated /\ d' = d);
    [by apply wp_token_admin| |done].
  intros admin d' [-> Ha]. wp_step. wp_step. wp_step. apply wp_attempt.
  apply (wp_use_token d k (unix t)); [done|done| |]; [intros fd|intros s _]; apply wp_ret; exists k, admin; subst kind;
    repeat (split; [done|]); [right; by exists (unix t), fd | by left].
Qed.

(** A token that exists, matches and has not expired is accepted. *)
Lemma Authenticate_accepts token d k :
  t_valid AccessTokens (access_tokens (tabs d)) = true -> reliable o ->
  k ∈ access_tokens (tabs d) -> parseToken token = Some (tk_kind k, tk_id k) -> digest token = tk_digest k ->
  tk_revoked_at k = None -> (forall e n, tk_expires_at k = Some e -> o_clock o n <= e) ->
  (forall id, tk_user_id k = Some id -> user_exists (tabs d) id = true) ->
  wp o (Authenticate token)
    (fun p d' => exists admin, p = principal_of k admin /\ token_admin (tabs d) k admin /\ used k d d')
    (fun _ _ => False) d.
Proof.
  intros Hv Ho Hk Ep Ed Er Hexp Hu. assert (Hnd : NoDup (map tk_id (access_tokens (tabs d)))) by (by apply bool_decide_eq_true in Hv).
  unfold Authenticate. rewrite Ep. wp_step. apply wp_or_error.
  apply (wp_row o tk_id (fun d => access_tokens (tabs d))).
  2:{ intros Hn. by apply (Hn k). }
  2:{ intros s Hs. by eapply reliable_fails. }
  intros x Hx Exk. assert (x = k) as -> by (by eapply NoDup_map_inj). clear Exk.
  wp_step. apply wp_clock. intros n. rewrite bool_decide_eq_true_2 by done.
  rewrite (bool_decide_eq_false_2 (tk_revoked_at k <> None)) by (intros Hn; by apply Hn).
  destruct (match tk_expires_at k with Some e => _ | None => _ end) eqn:Ee.
  { exfalso. destruct (tk_expires_at k) as [e|] eqn:E; [|done]. specialize (Hexp e n eq_refl). apply Z.ltb_lt in Ee. unfold fromUnix in Ee. lia. }
  simpl. rewrite bool_decide_eq_true_2 by done. simpl. wp_step.
  apply wp_mono with (Q := fun admin d' => d' = d /\ token_admin (tabs d) k admin) (E := fun _ _ => False);
    [by apply wp_token_admin_total| |done].
  intros admin d' [-> Ha]. wp_step. wp_step. wp_step. apply wp_attempt.
  apply (wp_use_token d k (unix t)); [done|done| |]; [intros fd|intros s _]; apply wp_ret; exists admin;
    repeat (split; [done|]); [right; by exists (unix t), fd | by left].
Qed.
End Authenticate.
