(* ===== verification/Keeps.v ===== *)
(** * Guarantees of programs, by composition

    [keeps G m]: whatever the environment does, the database after [m] is
    related to the one before by the preorder [G].  The rules reduce a method
    to its statements, so a guarantee of every method is a guarantee of the
    statements of each table. *)

From S2P Require Import Prelude Model GoMonad GoLib Table Schema JobStore Lease QueueInv QueueOps.

Definition keeps {D A : Type} (G : D -> D -> Prop) (m : M D A) : Prop :=
  forall o d, wp o m (fun _ d' => G d d') (fun _ d' => G d d') d.

Create HintDb keeps discriminated.

Section Rules.
Context {D : Type} (G : D -> D -> Prop) `{!PreOrder G}.

Lemma keeps_ret {A} (a : A) : keeps G (mret a).
Proof using PreOrder0. intros o d. by apply wp_ret. Qed.

Lemma keeps_throw {A} e : keeps G (throw (A := A) e).
Proof using PreOrder0. intros o d. by apply wp_throw. Qed.

Lemma keeps_bind {A B} (m : M D A) (k : A -> M D B) : keeps G m -> (forall a, keeps G (k a)) -> keeps G (m ≫= k).
Proof using PreOrder0.
  intros Hm Hk o d. apply wp_bind. eapply wp_mono; [apply Hm| |done]. simpl. intros a d' H.
  eapply wp_mono; [apply Hk| |]; simpl; intros; by etrans.
Qed.

Lemma keeps_fmap {A B} (f : A -> B) (m : M D A) : keeps G m -> keeps G (f <$> m).
Proof using PreOrder0. intros Hm. apply keeps_bind; [done|]. intros a. apply keeps_ret. Qed.

Lemma keeps_attempt {A} (m : M D A) : keeps G m -> keeps G (attempt m).
Proof using PreOrder0. intros Hm o d. apply wp_attempt. apply Hm. Qed.

Lemma keeps_now : keeps G time_Now.
Proof using PreOrder0. intros o d. by apply wp_now. Qed.

Lemma keeps_query {A} (f : D -> A) : keeps G (query f).
Proof using PreOrder0. intros o d. by apply wp_query. Qed.

Lemma keeps_query_row {A} (f : D -> option A) : keeps G (query_row f).
Proof using PreOrder0. intros o d. apply wp_query_row; [by destruct (f d)|done]. Qed.

Lemma keeps_rand n : keeps G (rand_Read n).
Proof using PreOrder0. intros o d. by apply wp_rand_Read. Qed.

Lemma keeps_transaction {A} (m : M D (tx A)) : keeps G m -> keeps G (transaction m).
Proof using PreOrder0.
  intros Hm o d. apply wp_transaction; [|done]. eapply wp_mono; [apply Hm| |]; simpl.
  - by intros [a|a] d' H.
  - done.
Qed.

Lemma keeps_statement {A} (f : D -> res (A * D)) :
  (forall d a d', f d = Ok (a, d') -> G d d') -> keeps G (statement f).
Proof using PreOrder0. intros H o d. apply wp_statement; [|done]. destruct (f d) as [[a d']|e] eqn:E; [by eapply H | done]. Qed.

End Rules.

(** ** Statements *)

Section Statements.
Context {T R : Type} (tb : Table T R) (G : DB T -> DB T -> Prop) `{!PreOrder G}.

(** What each kind of statement does, as a condition on [G]. *)
Definition update_ok (p : T -> R -> bool) (f : T -> R -> R) : Prop :=
  forall now n d d', update_rows tb now p f d = Ok (n, d') -> G d d'.
Definition insert_ok (mk : T -> R) : Prop :=
  forall now d d', insert_row tb now mk d = Ok (tt, d') -> G d d'.
Definition delete_ok (p : R -> bool) : Prop :=
  forall now n d d', delete_rows tb now p d = Ok (n, d') -> G d d'.

Lemma keeps_update_with p f : update_ok p f -> keeps G (exec_update_with tb p f).
Proof using PreOrder0.
  intros H. apply keeps_bind; [done|by apply keeps_now|]. intros now. apply keeps_statement; [done|]. intros d n d'. apply H.
Qed.

Lemma keeps_update p f : update_ok (fun _ => p) (fun _ => f) -> keeps G (exec_update tb p f).
Proof using PreOrder0. apply keeps_update_with. Qed.

Lemma keeps_insert_with mk : insert_ok mk -> keeps G (exec_insert_with tb mk).
Proof using PreOrder0.
  intros H. apply keeps_bind; [done|by apply keeps_now|]. intros now. apply keeps_statement; [done|]. intros d [] d'. apply H.
Qed.

Lemma keeps_insert r : insert_ok (fun _ => r) -> keeps G (exec_insert tb r).
Proof using PreOrder0. apply keeps_insert_with. Qed.

Lemma keeps_insert_ignore r : insert_ok (fun _ => r) -> keeps G (exec_insert_ignore tb r).
Proof using PreOrder0.
  intros H. apply keeps_bind; [done|by apply keeps_now|]. intros now. apply keeps_statement; [done|].
  intros d a d' E. destruct (insert_row tb now _ d) as [[[] d1]|[]] eqn:Ei; simplify_eq; try reflexivity. by eapply H.
Qed.

Lemma keeps_delete p : delete_ok p -> keeps G (exec_delete tb p).
Proof using PreOrder0.
  intros H. apply keeps_bind; [done|by apply keeps_now|]. intros now. apply keeps_statement; [done|]. intros d n d'. apply H.
Qed.

(** A statement changes its own table and the feed. *)
Lemma update_rows_inv now p f d n d' :
  update_rows tb now p f d = Ok (n, d') ->
  let rows := update_where (p (tabs d)) (f (tabs d)) (t_rows tb (tabs d)) in
  t_valid tb rows = true /\ tabs d' = t_set tb rows (tabs d) /\
  feed d' = fire tb now (map (f (tabs d)) (select (p (tabs d)) (t_rows tb (tabs d)))) (tabs d') (feed d).
Proof using.
  unfold update_rows. destruct (t_valid tb _) eqn:E; simpl; [|done]. destruct (forallb _ _); simpl; [|done].
  intros [= <- <-]. done.
Qed.

Lemma insert_row_inv now mk d d' :
  insert_row tb now mk d = Ok (tt, d') ->
  let rows := t_rows tb (tabs d) ++ [mk (tabs d)] in
  t_valid tb rows = true /\ t_refs tb (tabs d) (mk (tabs d)) = true /\
  tabs d' = t_set tb rows (t_bump tb (tabs d)) /\ feed d' = fire tb now [mk (tabs d)] (tabs d') (feed d).
Proof using.
  unfold insert_row. destruct (t_valid tb _) eqn:E; simpl; [|done]. destruct (t_refs tb _ _) eqn:Er; simpl; [|done].
  intros [= <-]. done.
Qed.

Lemma delete_rows_inv now p d n d' :
  delete_rows tb now p d = Ok (n, d') ->
  tabs d' = t_set tb (delete_where p (t_rows tb (tabs d))) (tabs d) /\
  feed d' = fire tb now (select p (t_rows tb (tabs d))) (tabs d') (feed d).
Proof using. unfold delete_rows. by intros [= <- <-]. Qed.

End Statements.

(** Walks a program down to its statements. *)
Ltac keep_step :=
  match goal with
  | |- keeps _ (mret _) => apply keeps_ret; [apply _]
  | |- keeps _ (throw _) => apply keeps_throw; [apply _]
  | |- keeps _ time_Now => apply keeps_now; [apply _]
  | |- keeps _ (query _) => apply keeps_query; [apply _]
  | |- keeps _ (query_row _) => apply keeps_query_row; [apply _]
  | |- keeps _ (rand_Read _) => apply keeps_rand; [apply _]
  | |- keeps _ (transaction _) => apply keeps_transaction; [apply _|]
  | |- keeps _ (_ <$> _) => apply keeps_fmap; [apply _|]
  | |- keeps _ (attempt _) => apply keeps_attempt; [apply _|]
  | |- keeps _ (_ ≫= _) => apply keeps_bind; [apply _| |intros ?]
  | |- keeps _ (exec_update _ _ _) => apply keeps_update; [apply _|]
  | |- keeps _ (exec_update_with _ _ _) => apply keeps_update_with; [apply _|]
  | |- keeps _ (exec_insert _ _) => apply keeps_insert; [apply _|]
  | |- keeps _ (exec_insert_with _ _) => apply keeps_insert_with; [apply _|]
  | |- keeps _ (exec_insert_ignore _ _) => apply keeps_insert_ignore; [apply _|]
  | |- keeps _ (exec_delete _ _) => apply keeps_delete; [apply _|]
  | |- keeps _ (match _ with _ => _ end) => case_match
  | |- keeps _ (let _ := _ in _) => cbv zeta
  | |- keeps _ _ => progress (cbv zeta)
  end.

(** * Guarantees of programs on the store and a runtime

    What the calls on the store guarantee, lifted to the programs of the
    dispatcher, the reconciler and the control API, and programs that never
    return an error of their own. *)

(** ** Guarantees of programs on the pair *)

(** The store part of a guarantee. *)
Definition store_rel {D R : Type} (G : D -> D -> Prop) (w w' : D * R) : Prop := G w.1 w'.1.

#[export] Instance store_rel_preorder {D R : Type} (G : D -> D -> Prop) `{!PreOrder G} : PreOrder (store_rel (R := R) G).
Proof. unfold store_rel. split; [by intros w|]. intros w1 w2 w3 H1 H2. by transitivity (w2.1). Qed.

Section Lifted.
Context {D R : Type} (G : D -> D -> Prop) `{!PreOrder G}.

Lemma keeps_on_store {A} (m : M D A) : keeps G m -> keeps (store_rel (R := R) G) (on_store m).
Proof using. intros Hm o [d r]. apply wp_on_store. apply Hm. Qed.

Lemma keeps_on_runtime {A} (m : M R A) : keeps (store_rel G) (on_runtime (D := D) m).
Proof using PreOrder0. intros o [d r] n. unfold on_runtime. destruct (m o (r, n)) as [[a|e] [r' n']]; unfold store_rel; reflexivity. Qed.

Lemma keeps_collect {A} ctx (m : M (D * R) A) : keeps (store_rel G) m -> keeps (store_rel G) (collect ctx m).
Proof using PreOrder0.
  intros Hm. unfold collect. apply keeps_bind; [apply _|apply keeps_attempt; [apply _|done]|]. intros r. apply keeps_ret. apply _.
Qed.

End Lifted.

(** Walks a program down to its calls on the store. *)
Ltac world_step :=
  match goal with
  | |- keeps _ (on_store _) => apply keeps_on_store
  | |- keeps _ (on_runtime _) => apply keeps_on_runtime; [apply _]
  | |- keeps _ (collect _ _) => apply keeps_collect; [apply _|]
  | _ => keep_step
  end.

(** ** The queue *)

(** The guarantee every call on the store gives from a consistent queue. *)
Definition good_rel (d d' : Database) : Prop := QInv (tabs d) -> good (tabs d) (tabs d').

#[export] Instance good_rel_preorder : PreOrder good_rel.
Proof.
  unfold good_rel. split; [intros d; apply good_refl|]. intros d1 d2 d3 H1 H2 HI. specialize (H1 HI).
  eapply good_trans; [done|]. apply H2, H1.
Qed.

Lemma keeps_preserves {A} (m : StoreM A) : preserves m -> keeps good_rel m.
Proof.
  intros Hm o d n. destruct (m o (d, n)) as [[a|e] [d' n']] eqn:Em; intros HI; specialize (Hm o d HI n); rewrite Em in Hm; exact Hm.
Qed.

(** A program that returns no error of its own. *)
Definition total {W A : Type} (m : M W A) : Prop := forall o w, wp o m (fun _ _ => True) (fun _ _ => False) w.

Section Total.
Context {W : Type}.

Lemma total_ret {A} (a : A) : total (W := W) (mret a).
Proof. intros o w. by apply wp_ret. Qed.
Lemma total_attempt {A} (m : M W A) : total (attempt m).
Proof. intros o w n. unfold attempt. by destruct (m o (w, n)) as [r [w' n']]. Qed.
Lemma total_now : total (W := W) time_Now.
Proof. intros o w. by apply wp_now. Qed.
Lemma total_bind {A B} (m : M W A) (k : A -> M W B) : total m -> (forall a, total (k a)) -> total (m ≫= k).
Proof. intros Hm Hk o w. apply wp_bind. eapply wp_mono; [apply Hm| |done]. intros a w' _. apply Hk. Qed.
Lemma total_collect {A} ctx (m : M W A) : total (collect ctx m).
Proof. unfold collect. apply total_bind; [apply total_attempt|]. intros r. apply total_ret. Qed.

End Total.

Ltac total_step :=
  match goal with
  | |- total (mret _) => apply total_ret
  | |- total (attempt _) => apply total_attempt
  | |- total time_Now => apply total_now
  | |- total (collect _ _) => apply total_collect
  | |- total (_ ≫= _) => apply total_bind; [|intros ?]
  | |- total (match _ with _ => _ end) => case_match
  | |- total _ => progress (cbv zeta)
  end.
