(* ===== verification/IdentitySystem.v ===== *)
(** * The identity methods as one family of calls

    Every identity, project and trust method as a constructor, and what all of
    them guarantee: they leave jobs, builds and the queue alone, token and
    enrollment rows evolve lawfully, and the change feed records what they
    do. *)
From S2P Require Import Prelude Model GoMonad GoLib GoStrings Glob Table Schema JobStore QueueInv QueueOps QueueSystem Identity Keeps.

Inductive IdentityCall :=
| CallBootstrap (input : Bootstrap)
| CallAuthenticate (token : string)
| CallAuthorizeProject (principal : Principal) (selector : string)
| CallCreateUser (principal : Principal) (name : string) (admin : bool)
| CallCreateProject (principal : Principal) (slug name : string)
| CallAddProjectMember (principal : Principal) (selector user : string)
| CallActivateProjectImage (principal : Principal) (project image : string)
| CallRollbackProjectImage (principal : Principal) (project : string)
| CallSetProjectImagePolicy (principal : Principal) (project : string) (allow : bool)
| CallBindExternalIdentity (principal : Principal) (user : string) (identity : ExternalIdentity)
| CallRevokeExternalIdentity (principal : Principal) (user provider : string)
| CallExternalIdentity (provider subject : string)
| CallUserByExternalIdentity (provider subject login : string)
| CallCreateBrowserSession (user : string) (expires : time)
| CallRevokeBrowserSession (token : string)
| CallCreateOAuthLoginState (returnTo verifier : string) (expires : time)
| CallConsumeOAuthLoginState (state : string) (now : time)
| CallCreateDeviceLogin (name : string) (expires : time)
| CallDeviceLoginByUserCode (code : string) (now : time)
| CallApproveDeviceLogin (code : string) (principal : Principal) (now : time)
| CallExchangeDeviceLogin (code : string) (now : time)
| CallCreateDeviceToken (principal : Principal) (input : CreateDeviceTokenInput)
| CallCreateEnrollmentCode (principal : Principal) (user device : string) (expires : time)
| CallExchangeEnrollmentCode (code : string)
| CallListDeviceTokens (principal : Principal)
| CallRevokeDeviceToken (principal : Principal) (id : string)
| CallCreateProjectSession (project subject : string) (expires : time)
| CallCreateGitHubTrust (principal : Principal) (trust : GitHubTrust)
| CallListGitHubTrusts (principal : Principal) (selector : string)
| CallRevokeGitHubTrust (principal : Principal) (id : string)
| CallMatchGitHubTrust (selector : string) (claims : GitHubClaims)
| CallAudit (principal : Principal) (project action target : string) (metadata : list (string * string))
| CallListProjects (principal : Principal)
| CallListProjectImageHistory (project : string).

Section System.
Context `{Pepper} `{CaseTables}.

Definition run_identity (c : IdentityCall) : StoreM unit :=
  match c with
  | CallBootstrap input => discard (BootstrapStore input)
  | CallAuthenticate token => discard (Authenticate token)
  | CallAuthorizeProject principal selector => discard (AuthorizeProject principal selector)
  | CallCreateUser principal name admin => discard (CreateUser principal name admin)
  | CallCreateProject principal slug name => discard (CreateProject principal slug name)
  | CallAddProjectMember principal selector user => AddProjectMember principal selector user
  | CallActivateProjectImage principal project image => discard (ActivateProjectImage principal project image)
  | CallRollbackProjectImage principal project => discard (RollbackProjectImage principal project)
  | CallSetProjectImagePolicy principal project allow => discard (SetProjectImagePolicy principal project allow)
  | CallBindExternalIdentity principal user identity => discard (BindExternalIdentity principal user identity)
  | CallRevokeExternalIdentity principal user provider => RevokeExternalIdentity principal user provider
  | CallExternalIdentity provider subject => discard (getExternalIdentity provider subject)
  | CallUserByExternalIdentity provider subject login => discard (UserByExternalIdentity provider subject login)
  | CallCreateBrowserSession user expires => discard (CreateBrowserSession user expires)
  | CallRevokeBrowserSession token => RevokeBrowserSession token
  | CallCreateOAuthLoginState returnTo verifier expires => discard (CreateOAuthLoginState returnTo verifier expires)
  | CallConsumeOAuthLoginState state now => discard (ConsumeOAuthLoginState state now)
  | CallCreateDeviceLogin name expires => discard (CreateDeviceLogin name expires)
  | CallDeviceLoginByUserCode code now => discard (DeviceLoginByUserCode code now)
  | CallApproveDeviceLogin code principal now => ApproveDeviceLogin code principal now
  | CallExchangeDeviceLogin code now => discard (ExchangeDeviceLogin code now)
  | CallCreateDeviceToken principal input => discard (CreateDeviceToken principal input)
  | CallCreateEnrollmentCode principal user device expires => discard (CreateEnrollmentCode principal user device expires)
  | CallExchangeEnrollmentCode code => discard (ExchangeEnrollmentCode code)
  | CallListDeviceTokens principal => discard (ListDeviceTokens principal)
  | CallRevokeDeviceToken principal id => RevokeDeviceToken principal id
  | CallCreateProjectSession project subject expires => discard (CreateProjectSession project subject expires)
  | CallCreateGitHubTrust principal trust => discard (CreateGitHubTrust principal trust)
  | CallListGitHubTrusts principal selector => discard (ListGitHubTrusts principal selector)
  | CallRevokeGitHubTrust principal id => RevokeGitHubTrust principal id
  | CallMatchGitHubTrust selector claims => discard (MatchGitHubTrust selector claims)
  | CallAudit principal project action target metadata => Audit principal project action target metadata
  | CallListProjects principal => discard (ListProjects principal)
  | CallListProjectImageHistory project => discard (ListProjectImageHistory project)
  end.

(** ** What the composition of a call needs of its statements *)

(** The statements of the identity methods, table by table. *)
Record StatementsOk (G : Database -> Database -> Prop) : Prop := {
  so_users_insert u : insert_ok Users G (fun _ => u);
  so_projects_insert p : insert_ok Projects G (fun _ => p);
  so_projects_update p f : (forall x, pj_ID (f x) = pj_ID x /\ pj_Slug (f x) = pj_Slug x) -> update_ok Projects G (fun _ => p) (fun _ => f);
  so_members_insert m : insert_ok ProjectMembers G (fun _ => m);
  so_identities_insert i : insert_ok ExternalIdentities G (fun _ => i);
  so_identities_update p f : update_ok ExternalIdentities G (fun _ => p) (fun _ => f);
  so_identities_delete p : delete_ok ExternalIdentities G p;
  so_tokens_insert k : tk_revoked_at k = None -> insert_ok AccessTokens G (fun _ => k);
  so_tokens_use p now : update_ok AccessTokens G (fun _ => p)
    (fun _ k => mkToken (tk_id k) (tk_kind k) (tk_user_id k) (tk_project_id k) (tk_name k) (tk_subject k)
                  (tk_digest k) (tk_created_at k) (tk_expires_at k) (Some now) (tk_revoked_at k));
  so_tokens_revoke p now : (forall k, p k = true -> tk_revoked_at k = None) ->
    update_ok AccessTokens G (fun _ => p) (fun _ => tk_revoke now);
  so_enrollments_insert e : en_consumed_at e = None -> en_failed_attempts e = 0 -> en_max_attempts e = 5 ->
    insert_ok EnrollmentCodes G (fun _ => e);
  (** this call writes a count it has read, so it answers for itself *)
  so_enrollments_exchange code : keeps G (ExchangeEnrollmentCode code);
  so_oauth_insert l : insert_ok OAuthLoginStates G (fun _ => l);
  so_oauth_update p f : update_ok OAuthLoginStates G (fun _ => p) (fun _ => f);
  so_oauth_delete p : delete_ok OAuthLoginStates G p;
  so_logins_insert l : insert_ok DeviceLogins G (fun _ => l);
  so_logins_update p f : update_ok DeviceLogins G (fun _ => p) (fun _ => f);
  so_logins_delete p : delete_ok DeviceLogins G p;
  so_trusts_insert g : insert_ok GitHubTrusts G (fun _ => g);
  so_trusts_update p f : update_ok GitHubTrusts G (fun _ => p) (fun _ => f);
  so_image_events_insert e : insert_ok ProjectImageEvents G (fun _ => e);
  so_audit_insert mk : insert_ok AuditEvents G mk
}.

Context (G : Database -> Database -> Prop) `{!PreOrder G} (HG : StatementsOk G).

Lemma so_or_error {A} (m : StoreM A) e : keeps G m -> keeps G (or_error m e).
Proof using PreOrder0. intros Hm. unfold or_error. repeat keep_step; done. Qed.

Lemma so_or_not_found {A} (m : StoreM A) : keeps G m -> keeps G (or_not_found m).
Proof using PreOrder0. intros Hm. unfold or_not_found. repeat keep_step; done. Qed.

Lemma so_or_already_exists {A} (m : StoreM A) : keeps G m -> keeps G (or_already_exists m).
Proof using PreOrder0. intros Hm. unfold or_already_exists. repeat keep_step; done. Qed.

(** Reduces a method to the statements of [StatementsOk]. *)
Ltac keep_identity :=
  repeat first
    [ keep_step
    | apply so_or_error | apply so_or_not_found | apply so_or_already_exists
    | apply HG; solve [done | intros; unfold identity_token in *; split_bools; done]
    | progress unfold discard, user_row, getProject, AuthorizeProject, newToken, newOpaque, randomUserCode, randomID, changeProjectImage, Authenticate ].

Lemma run_identity_keeps c : keeps G (run_identity c).
Proof using All.
  destruct c; cbn [run_identity];
    unfold BootstrapStore, CreateUser, CreateProject, AddProjectMember, ActivateProjectImage, RollbackProjectImage,
      SetProjectImagePolicy, BindExternalIdentity, RevokeExternalIdentity, getExternalIdentity, UserByExternalIdentity,
      CreateBrowserSession, RevokeBrowserSession, CreateOAuthLoginState, ConsumeOAuthLoginState, CreateDeviceLogin,
      DeviceLoginByUserCode, ApproveDeviceLogin, ExchangeDeviceLogin, CreateDeviceToken, CreateEnrollmentCode,
      ListDeviceTokens, RevokeDeviceToken, CreateProjectSession, CreateGitHubTrust, ListGitHubTrusts, RevokeGitHubTrust,
      MatchGitHubTrust, Audit, ListProjects, ListProjectImageHistory; keep_identity.
Qed.

End System.
