(* ===== verification/IdentityInv.v ===== *)
(** * Guarantees of the identity methods

    [queue_frame]: they leave jobs, builds and the queue alone.  [identity_good]:
    token and enrollment identifiers stay unique, their rows are never deleted
    and evolve one way: a revoked token stays revoked, a consumed or exhausted
    enrollment code stays as it is.  [control_step] is every call on the
    store. *)
From Stdlib Require Import Ascii.
From S2P Require Import Prelude Model GoMonad GoLib GoStrings Glob Table Schema JobStore QueueInv QueueOps QueueSystem Identity IdentitySpec Keeps IdentitySystem.

(** Opens the effect of a statement on the tables. *)
Ltac open_statement :=
  match goal with
  | |- update_ok _ _ _ _ =>
      let Hs := fresh "Hs" in
      intros ? ? ? ? Hs; apply update_rows_inv in Hs as (? & Hs & _)
  | |- insert_ok _ _ _ =>
      let Hs := fresh "Hs" in
      intros ? ? ? Hs; apply insert_row_inv in Hs as (? & ? & Hs & _)
  | |- delete_ok _ _ _ =>
      let Hs := fresh "Hs" in
      intros ? ? ? ? Hs; apply delete_rows_inv in Hs as (Hs & _)
  end.

(** ** Jobs, builds and the queue *)

Definition queue_frame (d d' : Database) : Prop :=
  control_jobs (tabs d') = control_jobs (tabs d) /\ control_builds (tabs d') = control_builds (tabs d) /\
  control_queue (tabs d') = control_queue (tabs d) /\ queue_seq (tabs d') = queue_seq (tabs d).

#[export] Instance queue_frame_preorder : PreOrder queue_frame.
Proof. unfold queue_frame. split; [done|]. intros d1 d2 d3 (?&?&?&?) (?&?&?&?). repeat split; congruence. Qed.

Ltac queue_frame_leaf := open_statement; unfold queue_frame; match goal with H : tabs _ = _ |- _ => rewrite H end; done.

Section Frame.
Context `{Pepper} `{CaseTables}.

Lemma statements_queue_frame : StatementsOk queue_frame.
Proof.
  split; intros; try queue_frame_leaf.
  unfold ExchangeEnrollmentCode, newToken, randomID. repeat (keep_step || queue_frame_leaf).
Qed.

Lemma run_identity_frame c : keeps queue_frame (run_identity c).
Proof. apply run_identity_keeps; [apply _ | apply statements_queue_frame]. Qed.

End Frame.

(** ** Tokens and enrollment codes *)

Record IdInv (t : Tables) : Prop := {
  ii_tokens : t_valid AccessTokens (access_tokens t) = true;
  ii_enrollments : t_valid EnrollmentCodes (enrollment_codes t) = true;
  ii_attempts : Forall (fun e => 0 <= en_failed_attempts e <= en_max_attempts e) (enrollment_codes t)
}.

Definition token_evolves (k k' : TokenRow) : Prop :=
  tk_id k' = tk_id k /\ tk_kind k' = tk_kind k /\ tk_user_id k' = tk_user_id k /\ tk_project_id k' = tk_project_id k /\
  tk_name k' = tk_name k /\ tk_subject k' = tk_subject k /\ tk_digest k' = tk_digest k /\
  tk_created_at k' = tk_created_at k /\ tk_expires_at k' = tk_expires_at k /\
  (tk_revoked_at k <> None -> tk_revoked_at k' = tk_revoked_at k).

(** A code that can no longer be exchanged. *)
Definition spent (e : EnrollmentRow) : Prop := en_consumed_at e <> None \/ en_max_attempts e <= en_failed_attempts e.

Definition enrollment_evolves (e e' : EnrollmentRow) : Prop :=
  en_id e' = en_id e /\ en_user_id e' = en_user_id e /\ en_device_name e' = en_device_name e /\
  en_digest e' = en_digest e /\ en_expires_at e' = en_expires_at e /\ en_max_attempts e' = en_max_attempts e /\
  en_failed_attempts e <= en_failed_attempts e' /\ (spent e -> e' = e).

Lemma token_evolves_refl k : token_evolves k k.
Proof. repeat split. Qed.
Lemma token_evolves_trans k1 k2 k3 : token_evolves k1 k2 -> token_evolves k2 k3 -> token_evolves k1 k3.
Proof.
  intros (?&?&?&?&?&?&?&?&?&HA) (?&?&?&?&?&?&?&?&?&HB). repeat split; try congruence.
  intros Hn. rewrite HB, HA; [done..|]. by rewrite HA.
Qed.
Lemma enrollment_evolves_refl e : enrollment_evolves e e.
Proof. repeat split; lia. Qed.
Lemma enrollment_evolves_trans e1 e2 e3 : enrollment_evolves e1 e2 -> enrollment_evolves e2 e3 -> enrollment_evolves e1 e3.
Proof.
  intros (?&?&?&?&?&?&?&HA) (?&?&?&?&?&?&?&HB). repeat split; try congruence; try lia.
  intros Hs. assert (e2 = e1) as -> by auto. auto.
Qed.

Record identity_evolves (t t' : Tables) : Prop := {
  ie_tokens : grows token_evolves (access_tokens t) (access_tokens t');
  ie_enrollments : grows enrollment_evolves (enrollment_codes t) (enrollment_codes t')
}.

Definition identity_good (d d' : Database) : Prop :=
  IdInv (tabs d) -> IdInv (tabs d') /\ identity_evolves (tabs d) (tabs d').

Lemma identity_evolves_refl t : identity_evolves t t.
Proof. split; apply grows_refl; auto using token_evolves_refl, enrollment_evolves_refl. Qed.

#[export] Instance identity_good_preorder : PreOrder identity_good.
Proof.
  split.
  - intros d Hd. split; [done | apply identity_evolves_refl].
  - intros d1 d2 d3 H12 H23 H1. destruct (H12 H1) as [H2 [E1 E2]]. destruct (H23 H2) as [H3 [E3 E4]]. split; [done|].
    split; eapply grows_trans; eauto using token_evolves_trans, enrollment_evolves_trans.
Qed.

(** Statements on other tables. *)
Lemma identity_frame d d' :
  access_tokens (tabs d') = access_tokens (tabs d) -> enrollment_codes (tabs d') = enrollment_codes (tabs d) ->
  identity_good d d'.
Proof.
  intros Et Ee [H1 H2 H3]. split; [by split; rewrite ?Et, ?Ee|].
  split; rewrite ?Et, ?Ee; apply grows_refl; auto using token_evolves_refl, enrollment_evolves_refl.
Qed.

Lemma tokens_change d d' rows :
  tabs d' = set_access_tokens rows (tabs d) -> t_valid AccessTokens rows = true ->
  grows token_evolves (access_tokens (tabs d)) rows -> identity_good d d'.
Proof.
  intros E Hv Hg [H1 H2 H3]. rewrite E. split; [by split|]. split; [done|]. apply grows_refl, enrollment_evolves_refl.
Qed.

Lemma enrollments_change d d' rows :
  tabs d' = set_enrollment_codes rows (tabs d) -> t_valid EnrollmentCodes rows = true ->
  Forall (fun e => 0 <= en_failed_attempts e <= en_max_attempts e) rows ->
  grows enrollment_evolves (enrollment_codes (tabs d)) rows -> IdInv (tabs d) ->
  IdInv (tabs d') /\ identity_evolves (tabs d) (tabs d').
Proof.
  intros E Hv Ha Hg [H1 H2 H3]. rewrite E. split; [by split|]. split; [|done]. apply grows_refl, token_evolves_refl.
Qed.

Ltac identity_frame_leaf :=
  open_statement; apply identity_frame; match goal with H : tabs _ = _ |- _ => rewrite H end; done.

(** ** Exchanging an enrollment code *)

(** The identifier in the text of an enrollment code. *)
Definition enrollment_id (code : string) : option string :=
  match SplitN "_" 4 code with
  | [p0; p1; id; p3] =>
      if negb (bool_decide (p0 = "autback")) || negb (bool_decide (p1 = "enr")) || bool_decide (id = "") || bool_decide (p3 = "")
      then None else Some id
  | _ => None
  end.

Definition with_enrollment (e : EnrollmentRow) (t : Tables) : Tables :=
  set_enrollment_codes (replace_row en_id e (enrollment_codes t)) t.
Definition with_token (k : TokenRow) (t : Tables) : Tables := set_access_tokens (access_tokens t ++ [k]) t.

(** Errors that leave the database as it was. *)
Definition refused_cleanly (o : Oracle) (d : Database) (e : Err) (d' : Database) : Prop :=
  d' = d /\ (e = ErrUnauthenticated \/ e = ErrUnique \/ e = ErrForeignKey \/ exists s, fails o s /\ e = ErrDriver s).

Section Exchange.
Context `{Pepper} (o : Oracle) (d : Database) (HI : IdInv (tabs d)).

Lemma enrollment_NoDup : NoDup (map en_id (enrollment_codes (tabs d))).
Proof using HI. destruct HI as [_ Hv _]. by apply bool_decide_eq_true in Hv. Qed.

Lemma valid_with_enrollment e e' :
  e ∈ enrollment_codes (tabs d) -> en_id e' = en_id e ->
  t_valid EnrollmentCodes (replace_row en_id e' (enrollment_codes (tabs d))) = true.
Proof using HI.
  intros He Hid. simpl. apply bool_decide_eq_true. unfold replace_row. rewrite map_update_same; [apply enrollment_NoDup|].
  intros r _ Hr. by apply bool_decide_eq_true in Hr.
Qed.

(** The two updates of a code. *)
Lemma wp_enrollment_update e p f (d1 : Database) (Q : Z -> Database -> Prop) (E : Err -> Database -> Prop) :
  enrollment_codes (tabs d1) = enrollment_codes (tabs d) ->
  e ∈ enrollment_codes (tabs d) -> (forall x, p x = true -> en_id x = en_id e) -> p e = true ->
  en_id (f e) = en_id e -> en_user_id (f e) = en_user_id e ->
  (forall fd, Q 1 (mkDB (with_enrollment (f e) (tabs d1)) fd)) ->
  (forall s, fails o s -> E (ErrDriver s) d1) ->
  wp o (exec_update EnrollmentCodes p f) Q E d1.
Proof using HI.
  intros Et He Hp Hpe Hid Huser HQ HE. apply (wp_update_row EnrollmentCodes en_id e); simpl; rewrite ?Et; try done.
  - apply enrollment_NoDup.
  - auto.
  - by rewrite Huser.
  - apply (valid_with_enrollment e); done.
  - intros fd. rewrite <- Et. apply HQ.
Qed.

(** What an exchange did. *)
Definition exchange_post (code : string) (r : ExchangeOutcome) (d' : Database) : Prop :=
  exists e, e ∈ enrollment_codes (tabs d) /\ enrollment_id code = Some (en_id e) /\
    match r with
    | Exchanged token _ =>
        ~ spent e /\ digest code = en_digest e /\ (exists n, o_clock o n < en_expires_at e) /\
        exists now k, tabs d' = with_enrollment (en_consume now e) (with_token k (tabs d)) /\
          t_valid AccessTokens (access_tokens (tabs d) ++ [k]) = true /\
          tk_kind k = PrincipalDevice /\ tk_user_id k = Some (en_user_id e) /\ tk_revoked_at k = None /\
          tk_digest k = digest (it_Secret token) /\ parseToken (it_Secret token) = Some (PrincipalDevice, tk_id k)
    | Refused _ =>
        (d' = d /\ (spent e \/ exists n, en_expires_at e <= o_clock o n)) \/
        (~ spent e /\ digest code <> en_digest e /\ tabs d' = with_enrollment (en_fail (en_failed_attempts e + 1) e) (tabs d))
    end.

Lemma not_spent e :
  bool_decide (ec_ConsumedAt (scanEnrollment e) <> None) = false -> en_failed_attempts e < en_max_attempts e -> ~ spent e.
Proof using.
  intros Hc Hf [Hs|Hs]; [|lia]. apply bool_decide_eq_false in Hc. apply Hc. simpl. by destruct (en_consumed_at e).
Qed.

Lemma is_spent e :
  bool_decide (ec_ConsumedAt (scanEnrollment e) <> None) = true -> spent e.
Proof using. intros Hc. apply bool_decide_eq_true in Hc. left. simpl in Hc. by destruct (en_consumed_at e). Qed.

Lemma ExchangeEnrollmentCode_spec code :
  wp o (ExchangeEnrollmentCode code) (exchange_post code) (refused_cleanly o d) d.
Proof using HI.
  unfold ExchangeEnrollmentCode, exchange_post, enrollment_id, refused_cleanly.
  destruct (SplitN "_" 4 code) as [|p0 [|p1 [|id [|p3 [|]]]]]; try (apply wp_throw; naive_solver).
  destruct (_ || _) eqn:Eg; [apply wp_throw; naive_solver|]. clear Eg.
  wp_step; [|naive_solver]. wp_step. wp_step.
  apply (wp_row o en_id (fun d => enrollment_codes (tabs d)));
    [|intros _; apply wp_throw; naive_solver|intros s Hs; apply wp_throw; naive_solver].
  intros e He <-. cbv zeta. wp_step. apply wp_clock. intros n.
  destruct (_ || _) eqn:Eg.
  { apply wp_ret. exists e. split; [done|]. split; [done|]. left. split; [done|].
    apply orb_true_iff in Eg as [Eg|Eg]; [apply orb_true_iff in Eg as [Eg|Eg]|].
    - left. by apply is_spent.
    - right. exists n. apply negb_true_iff, Z.ltb_ge in Eg. exact Eg.
    - left. right. apply Z.leb_le in Eg. exact Eg. }
  apply orb_false_iff in Eg as [Eg Ef]. apply orb_false_iff in Eg as [Ec Ee].
  apply negb_false_iff, Z.ltb_lt in Ee. apply Z.leb_gt in Ef. simpl in Ee, Ef. pose proof (not_spent e Ec Ef) as Hns.
  destruct (bool_decide_reflect (digest code = en_digest e)) as [Ed|Ed]; cbn [negb].
  - wp_step. apply wp_newToken; [|naive_solver]. intros tid l Htid Hl. wp_step.
    apply wp_insert; [|naive_solver..]. intros Hv _ fd. cbn [t_rows t_set t_bump AccessTokens no_bump]. wp_step.
    apply (wp_enrollment_update e); [done|done| | |done|done| |naive_solver].
    + intros x Hx. split_bools. done.
    + assert (en_consumed_at e = None) as -> by (destruct (en_consumed_at e) eqn:E; [exfalso; apply Hns; left; by rewrite E | done]).
      rewrite !bool_decide_eq_true_2 by done. by apply Z.ltb_lt.
    + intros fd2. apply wp_ret. exists e. do 4 (split; [done|]). split; [by exists n|]. eexists _, _. split; [reflexivity|].
      split; [exact Hv|]. do 4 (split; [done|]). by apply parseToken_text.
  - wp_step. apply (wp_enrollment_update e); [done|done| | |done|done| |naive_solver].
    + intros x Hx. by apply bool_decide_eq_true in Hx.
    + by apply bool_decide_eq_true.
    + intros fd. apply wp_ret. exists e. do 2 (split; [done|]). right. done.
Qed.

End Exchange.

(** ** Every identity method is good *)

Lemma elem_with_enrollment t e e' :
  NoDup (map en_id (enrollment_codes t)) -> e ∈ enrollment_codes t -> en_id e' = en_id e ->
  e' ∈ enrollment_codes (with_enrollment e' t).
Proof. intros Hnd He Hid. apply elem_of_replace with (r := e); [done|done|done|by left]. Qed.

(** Replacing one code by a later version of it. *)
Lemma good_with_enrollment d d' e e' :
  IdInv (tabs d) -> e ∈ enrollment_codes (tabs d) -> enrollment_evolves e e' ->
  0 <= en_failed_attempts e' <= en_max_attempts e' -> tabs d' = with_enrollment e' (tabs d) ->
  IdInv (tabs d') /\ identity_evolves (tabs d) (tabs d').
Proof.
  intros HI He Hev Ha E. destruct (Hev) as (Hid&_). pose proof (enrollment_NoDup d HI) as Hnd.
  assert (Heq : forall x, x ∈ enrollment_codes (tabs d) -> bool_decide (en_id x = en_id e') = true -> x = e).
  { intros x Hx Hp. apply bool_decide_eq_true in Hp. eapply NoDup_map_inj; [exact Hnd|done..|congruence]. }
  eapply enrollments_change; [exact E| | | |done].
  - by apply (valid_with_enrollment d HI e).
  - apply Forall_forall. intros x Hx. apply elem_of_replace with (r := e) in Hx as [->|[Hx _]]; [done| |done..].
    destruct HI as [_ _ Hat]. rewrite Forall_forall in Hat. auto.
  - apply grows_update; [apply enrollment_evolves_refl|]. intros x Hx Hp. by rewrite (Heq x Hx Hp).
Qed.

Lemma good_with_token d d' k :
  t_valid AccessTokens (access_tokens (tabs d) ++ [k]) = true -> tabs d' = with_token k (tabs d) -> identity_good d d'.
Proof. intros Hv E. eapply tokens_change; [exact E|done|]. apply grows_snoc, token_evolves_refl. Qed.

Lemma consumed_evolves e now : ~ spent e -> enrollment_evolves e (en_consume now e).
Proof. intros Hs. repeat split; simpl; try lia. done. Qed.

Lemma failed_evolves e : ~ spent e -> enrollment_evolves e (en_fail (en_failed_attempts e + 1) e).
Proof. intros Hs. repeat split; simpl; try lia. done. Qed.

Section Good.
Context `{Pepper} `{CaseTables}.

Lemma exchange_good code : keeps identity_good (ExchangeEnrollmentCode code).
Proof.
  intros o d. apply wp_mono with (Q := fun r d' => IdInv (tabs d) -> exchange_post o d code r d')
    (E := fun e d' => IdInv (tabs d) -> refused_cleanly o d e d').
  - intros n. destruct (ExchangeEnrollmentCode code o (d, n)) as [[r|e] [d' n']] eqn:E; intros HI;
      pose proof (ExchangeEnrollmentCode_spec o d HI code n) as Hs; by rewrite E in Hs.
  - intros r d' Hp HI. destruct (Hp HI) as (e & He & _ & Hr).
    assert (Hat : 0 <= en_failed_attempts e <= en_max_attempts e).
    { destruct (HI) as [_ _ Hat]. rewrite Forall_forall in Hat. auto. }
    destruct r as [token meta|meta].
    + destruct Hr as (Hns & _ & _ & now & k & E & Hv & _).
      destruct (good_with_token d (mkDB (with_token k (tabs d)) (feed d)) k Hv eq_refl HI) as [HI1 Hev1].
      destruct (good_with_enrollment (mkDB (with_token k (tabs d)) (feed d)) d' e (en_consume now e)) as [HI2 Hev2];
        [done|done|by apply consumed_evolves|done|done|].
      split; [done|]. destruct Hev1 as [A1 B1], Hev2 as [A2 B2].
      split; [eapply grows_trans; [apply token_evolves_trans|exact A1|exact A2] | eapply grows_trans; [apply enrollment_evolves_trans|exact B1|exact B2]].
    + destruct Hr as [[-> _]|(Hns & _ & E)]; [split; [done|apply identity_evolves_refl]|].
      apply (good_with_enrollment d d' e (en_fail (en_failed_attempts e + 1) e)); [done|done|by apply failed_evolves| |done].
      simpl. assert (~ en_max_attempts e <= en_failed_attempts e) by (intros Hle; apply Hns; by right). lia.
  - intros e d' Hp HI. destruct (Hp HI) as [-> _]. split; [done|apply identity_evolves_refl].
Qed.

Lemma statements_identity_good : StatementsOk identity_good.
Proof.
  split; intros; try identity_frame_leaf.
  - open_statement. by eapply good_with_token.
  - open_statement. eapply tokens_change; [eassumption|done|]. apply grows_update; [apply token_evolves_refl|]. done.
  - open_statement. eapply tokens_change; [eassumption|done|]. apply grows_update; [apply token_evolves_refl|].
    intros k _ Hp. repeat split. intros Hn. exfalso. auto.
  - open_statement. intros HI. eapply enrollments_change; [eassumption|done| | |done].
    + apply Forall_app. split; [apply HI|]. apply Forall_singleton. lia.
    + apply grows_snoc, enrollment_evolves_refl.
  - apply exchange_good.
Qed.

Lemma run_identity_good c : keeps identity_good (run_identity c).
Proof. apply run_identity_keeps; [apply _ | apply statements_identity_good]. Qed.

(** ** Every call on the store *)

Inductive control_step : Database -> Database -> Prop :=
| step_queue c o n r d d' n' : run_call c o (d, n) = (r, (d', n')) -> control_step d d'
| step_identity c o n r d d' n' : run_identity c o (d, n) = (r, (d', n')) -> control_step d d'.

Lemma keeps_run {A} (G : Database -> Database -> Prop) (m : StoreM A) o n r d d' n' :
  keeps G m -> m o (d, n) = (r, (d', n')) -> G d d'.
Proof. intros Hk E. specialize (Hk o d n). rewrite E in Hk. by destruct r. Qed.

(** Its steps are steps of the transition system of the queue. *)
Lemma control_step_store d d' : control_step d d' -> store_step d d'.
Proof.
  intros [c o n r d0 d1 n' E | c o n r d0 d1 n' E]; [by eapply step_call|].
  destruct (keeps_run _ _ _ _ _ _ _ _ (run_identity_frame c) E) as (?&?&?&?). by apply step_other.
Qed.

(** The queue methods leave tokens and enrollment codes alone. *)
Lemma run_call_identity c : keeps identity_good (run_call c).
Proof.
  destruct c; cbn [run_call];
    unfold discard, CreatePreparedJob, CreateBuild, QueueJob, SyncJob, RequestJobCancellation, FailJob, FinishBuild,
      AcquireNextOperation, RequeueAdmittingOperation, ActivateOperation, BeginOperationCleanup, ClaimOperationCleanup,
      RecordOperationCleanupFailure, CompleteOperationCleanup, EmergencyStopActiveOperation, emergency_finish,
      CancelQueuedOperation, RenewOperationLease, OperationStateOf, getJob, getBuild, or_not_found, expect_one, randomID;
    repeat (keep_step || identity_frame_leaf).
Qed.

Lemma control_step_good d d' : control_step d d' -> identity_good d d'.
Proof.
  intros [c o n r d0 d1 n' E | c o n r d0 d1 n' E]; eapply keeps_run; [| exact E | |exact E];
    [apply run_call_identity | apply run_identity_good].
Qed.

Lemma control_steps_good d d' : rtc control_step d d' -> identity_good d d'.
Proof. induction 1 as [|d1 d2 d3 H1 _ IH]; [reflexivity|]. etrans; [by apply control_step_good|done]. Qed.

End Good.
