(* ===== verification/IdentityTheorems.v ===== *)
(** * Correctness of identities, tokens and trusts *)
From Stdlib Require Import Ascii.
From S2P Require Import Prelude Model GoMonad GoLib GoStrings Glob Table Schema JobStore QueueInv QueueOps QueueSystem Identity IdentitySpec Keeps IdentitySystem IdentityInv.

(** ** Concrete parameters for the witnesses *)

#[local] Instance demo_pepper : Pepper := {| digest := fun s => "mac:" +:+ s |}.
#[local] Instance demo_tables : CaseTables := {| unicode_lower := fun s => s; unicode_upper := fun s => s |}.

(** Time stands still, the random source counts. *)
Definition still_oracle : Oracle := mkOracle (fun _ => 1000 * Second) (fun n => Z.of_nat n) (fun _ => None).

Lemma still_reliable : reliable still_oracle.
Proof. intros n. reflexivity. Qed.

Definition admin_principal : Principal := mkPrincipal PrincipalDevice "tok0" "usr1" "" true "".
Definition identity_db : Database :=
  mkDB (set_projects [mkProject "prj1" "demo" "Demo" "img1" "" true 0] (set_users [mkUser "usr1" "Ada" true 0] empty_tables)) (mkFeed [] 0).

Lemma empty_IdInv t : access_tokens t = [] -> enrollment_codes t = [] -> IdInv t.
Proof. intros Et Ee. split; rewrite ?Et, ?Ee; [done|done|constructor]. Qed.

(** ** Issuing *)

Section Issue.
Context `{Pepper} `{CaseTables}.

(** What [CreateDeviceToken] leaves behind. *)
Lemma CreateDeviceToken_spec o d principal input :
  wp o (CreateDeviceToken principal input)
    (fun issued d' => exists k, tabs d' = with_token k (tabs d) /\
       t_valid AccessTokens (access_tokens (tabs d')) = true /\
       tk_kind k = PrincipalDevice /\ tk_id k = dt_ID (it_Metadata issued) /\ tk_user_id k = Some (dt_UserID (it_Metadata issued)) /\
       tk_project_id k = None /\ tk_revoked_at k = None /\ tk_expires_at k = unix <$> dt_ExpiresAt (it_Metadata issued) /\
       tk_digest k = digest (it_Secret issued) /\ parseToken (it_Secret issued) = Some (PrincipalDevice, tk_id k) /\
       user_exists (tabs d) (dt_UserID (it_Metadata issued)) = true /\ dt_UserID (it_Metadata issued) <> "")
    (fun _ d' => d' = d) d.
Proof.
  unfold CreateDeviceToken. destruct (_ || _) eqn:Eg; [by apply wp_throw|]. split_bools.
  set (userID := if bool_decide (ci_UserID input = "") then pr_UserID principal else ci_UserID input).
  assert (Hne : userID <> "") by (unfold userID; case_bool_decide; done).
  destruct (_ && _); [by apply wp_throw|]. case_bool_decide; [by apply wp_throw|].
  wp_step. apply wp_or_error, (wp_row o us_ID (fun d => users (tabs d))); try done. intros u Hu Hid.
  wp_step. apply wp_newToken; [|done]. intros tid l Htid Hl. wp_step. wp_step. wp_step. apply wp_insert; try done.
  intros Hv Href fd. apply wp_ret. eexists. split; [reflexivity|]. split; [exact Hv|].
  do 7 (split; [reflexivity|]). split; [by apply parseToken_text|]. split; [|done]. simpl in Href. by apply andb_true_iff in Href as [? _].
Qed.

End Issue.

(** ** C10 *)

(** C10: a device token that [CreateDeviceToken] issued authenticates: its text
    parses back to its kind and identifier although the secret part may contain
    the separator, and until it expires [Authenticate] returns the device
    principal of the user it was issued for, with the administrator flag of
    that user, and never fails while the driver reports no error. *)
Theorem issued_token_authenticates `{Pepper} `{CaseTables} o1 n1 n2 d d1 principal input issued o2 :
  CreateDeviceToken principal input o1 (d, n1) = (Ok issued, (d1, n2)) -> reliable o2 ->
  (forall e n, dt_ExpiresAt (it_Metadata issued) = Some e -> o_clock o2 n <= unix e) ->
  wp o2 (Authenticate (it_Secret issued))
    (fun p d' => pr_Kind p = PrincipalDevice /\ pr_TokenID p = dt_ID (it_Metadata issued) /\
       pr_UserID p = dt_UserID (it_Metadata issued) /\ pr_ProjectID p = "" /\
       exists u, u ∈ users (tabs d1) /\ us_ID u = pr_UserID p /\ us_Admin u = pr_Admin p)
    (fun _ _ => False) d1.
Proof.
  intros Hc Ho He. pose proof (CreateDeviceToken_spec o1 d principal input n1) as Hs. rewrite Hc in Hs.
  destruct Hs as (k & Et & Hv & Ek & Eid & Eu & Ep & Er & Ee & Ed & Epar & Hu & Hne).
  eapply wp_mono; [apply (Authenticate_accepts o2 _ d1 k)| |done]; try done.
  - rewrite Et. simpl. set_solver.
  - by rewrite Ek.
  - intros e n Hexp. rewrite Ee in Hexp. destruct (dt_ExpiresAt (it_Metadata issued)) as [e'|]; [|done].
    injection Hexp as <-. by apply He.
  - intros id Hid. rewrite Eu in Hid. injection Hid as <-. by rewrite Et.
  - intros p d' (admin & -> & Ha & _). simpl. rewrite Ek, Eid, Eu, Ep. simpl. do 4 (split; [done|]).
    unfold token_admin in Ha. rewrite Eu in Ha. simpl in Ha. by destruct (dt_UserID (it_Metadata issued)).
Qed.

Definition demo_input : CreateDeviceTokenInput := mkCreateDeviceToken "" "laptop" zero_time.
Definition demo_issued : res IssuedDeviceToken * (Database * nat) :=
  CreateDeviceToken admin_principal demo_input still_oracle (identity_db, 0%nat).

Lemma issued_token_authenticates_witness :
  match demo_issued with
  | (Ok issued, (d1, _)) =>
      dt_UserID (it_Metadata issued) = "usr1" /\
      wp still_oracle (Authenticate (it_Secret issued)) (fun p _ => pr_UserID p = "usr1") (fun _ _ => False) d1
  | _ => False
  end.
Proof.
  assert (Hok : match demo_issued with (Ok issued, _) => dt_UserID (it_Metadata issued) = "usr1" /\ dt_ExpiresAt (it_Metadata issued) = None | _ => False end)
    by (vm_compute; split; reflexivity).
  destruct demo_issued as [[issued|e] [d1 n1]] eqn:E; [|contradiction]. destruct Hok as [Hu Hx]. split; [exact Hu|].
  eapply wp_mono; [apply (issued_token_authenticates still_oracle 0 n1 identity_db d1 admin_principal demo_input issued still_oracle)| |done].
  - exact E.
  - exact still_reliable.
  - intros e n He. rewrite Hx in He. discriminate.
  - intros p d' (_ & _ & -> & _). exact Hu.
Defined.

(** ** C11 *)

(** C11: [Authenticate] accepts nothing else.  A principal is returned only for a
    token whose identifier is recorded, with the same kind and the same keyed
    digest, not revoked, and not after its expiry; its user, project, subject
    and administrator flag are the recorded ones, and only the time of last use
    changes.  Every other outcome is [ErrUnauthenticated] with the database
    unchanged. *)
Theorem authentication_is_sound `{Pepper} `{CaseTables} o token d :
  IdInv (tabs d) ->
  wp o (Authenticate token)
    (fun p d' => exists k admin, k ∈ access_tokens (tabs d) /\ parseToken token = Some (tk_kind k, tk_id k) /\
       digest token = tk_digest k /\ tk_revoked_at k = None /\
       (forall e, tk_expires_at k = Some e -> exists n, o_clock o n <= e) /\
       token_admin (tabs d) k admin /\ p = principal_of k admin /\ used k d d')
    (fun e d' => e = ErrUnauthenticated /\ d' = d) d.
Proof. intros [Hv _ _]. by apply Authenticate_spec. Qed.

Lemma authentication_is_sound_witness :
  wp still_oracle (Authenticate "autback_dt_tok1_secret") (fun _ _ => False)
    (fun e _ => e = ErrUnauthenticated) identity_db.
Proof.
  eapply wp_mono; [apply (authentication_is_sound still_oracle "autback_dt_tok1_secret" identity_db)| |].
  - by apply empty_IdInv.
  - intros p d' (k & admin & Hk & _). by apply elem_of_nil in Hk.
  - by intros e d' [-> _].
Defined.

(** Revocation is final.  Once a token is revoked, no sequence of calls on
    the store makes its identifier authenticate again. *)
Lemma revoked_token_stays_refused `{Pepper} `{CaseTables} o d d' k kind token :
  IdInv (tabs d) -> k ∈ access_tokens (tabs d) -> tk_revoked_at k <> None -> rtc control_step d d' ->
  parseToken token = Some (kind, tk_id k) ->
  wp o (Authenticate token) (fun _ _ => False) (fun e d'' => e = ErrUnauthenticated /\ d'' = d') d'.
Proof.
  intros HI Hk Hr Hs Hp. destruct (control_steps_good d d' Hs HI) as [[Hv' _ _] [Ht _]].
  destruct (grows_elem _ _ _ k Ht Hk) as (k' & Hk' & Eid & _ & _ & _ & _ & _ & _ & _ & _ & Er).
  eapply wp_mono; [by apply Authenticate_spec| |done].
  intros p d'' (x & admin & Hx & Ep & _ & Ex & _). rewrite Hp in Ep. injection Ep as _ Ei.
  assert (x = k') as -> by (apply bool_decide_eq_true in Hv'; eapply NoDup_map_inj; [exact Hv'|done|done|congruence]).
  rewrite Er in Ex by done. done.
Qed.

Definition revoked_row : TokenRow := mkToken "tok1" PrincipalDevice (Some "usr1") None "old" "" "mac:autback_dt_tok1_s" 0 None None (Some 5).
Definition revoked_db : Database := mkDB (set_access_tokens [revoked_row] (tabs identity_db)) (mkFeed [] 0).

(** An enrollment code is exchanged at most once, and guessed at most as
    often as it allows.  Once a code is consumed or its failed attempts reach
    the maximum, then whatever calls run in between, presenting a code with its
    identifier, the right one included, is refused and changes nothing. *)
Lemma spent_code_is_refused `{Pepper} `{CaseTables} o d d' e code :
  IdInv (tabs d) -> e ∈ enrollment_codes (tabs d) -> spent e -> rtc control_step d d' ->
  enrollment_id code = Some (en_id e) ->
  wp o (ExchangeEnrollmentCode code) (fun r d'' => d'' = d' /\ exists meta, r = Refused meta)
    (refused_cleanly o d') d'.
Proof.
  intros HI He Hsp Hs Hid. destruct (control_steps_good d d' Hs HI) as [HI' [_ Hg]].
  destruct (grows_elem _ _ _ e Hg He) as (e' & He' & _ & _ & _ & _ & _ & _ & _ & Eq). rewrite (Eq Hsp) in He'.
  eapply wp_mono; [by apply ExchangeEnrollmentCode_spec| |done].
  intros r d'' (x & Hx & Ex & Hr). rewrite Hid in Ex. injection Ex as Ex.
  assert (x = e) as -> by (eapply NoDup_map_inj; [by apply enrollment_NoDup|done|done|done]).
  destruct r as [token meta|meta]; [by destruct Hr as [Hn _]|].
  destruct Hr as [[-> _]|[Hn _]]; [split; [done|by exists meta] | done].
Qed.

Definition demo_code : string := "autback_enr_tok7_s".
Definition spent_row : EnrollmentRow := mkEnrollment "tok7" "usr1" "phone" ("mac:" +:+ demo_code) 0 (2000 * Second) None 5 5.
Definition spent_db : Database := mkDB (set_enrollment_codes [spent_row] (tabs identity_db)) (mkFeed [] 0).

(** A successful exchange consumes the code and issues exactly one token.
    It succeeds only with the recorded digest, before the expiry and below the
    attempt limit; the new token is a device token of the code's user with the
    digest of the returned secret; the code is then spent.  A wrong secret
    counts one attempt and issues nothing. *)
Lemma enrollment_exchange_behaviour `{Pepper} `{CaseTables} o d code :
  IdInv (tabs d) ->
  wp o (ExchangeEnrollmentCode code)
    (fun r d' => exists e, e ∈ enrollment_codes (tabs d) /\ enrollment_id code = Some (en_id e) /\
       match r with
       | Exchanged token _ =>
           ~ spent e /\ digest code = en_digest e /\ (exists n, o_clock o n < en_expires_at e) /\
           (exists e', e' ∈ enrollment_codes (tabs d') /\ en_id e' = en_id e /\ spent e') /\
           exists k, access_tokens (tabs d') = access_tokens (tabs d) ++ [k] /\ tk_kind k = PrincipalDevice /\
             tk_user_id k = Some (en_user_id e) /\ tk_digest k = digest (it_Secret token) /\
             parseToken (it_Secret token) = Some (PrincipalDevice, tk_id k)
       | Refused _ => access_tokens (tabs d') = access_tokens (tabs d) /\
           (digest code = en_digest e -> d' = d) /\
           (digest code <> en_digest e -> d' = d \/
              exists e', e' ∈ enrollment_codes (tabs d') /\ en_id e' = en_id e /\
                en_failed_attempts e' = en_failed_attempts e + 1)
       end)
    (refused_cleanly o d) d.
Proof.
  intros HI. eapply wp_mono; [by apply ExchangeEnrollmentCode_spec| |done].
  intros r d' (e & He & Hid & Hr). exists e. do 2 (split; [done|]). pose proof (enrollment_NoDup d HI) as Hnd.
  destruct r as [token meta|meta].
  - destruct Hr as (Hns & Hd & Hc & now & k & Et & Hv & Hk & Hu & _ & Hdg & Hp). do 3 (split; [done|]). split.
    + exists (en_consume now e). rewrite Et. split; [by apply (elem_with_enrollment (with_token k (tabs d)) e)|].
      split; [done|]. by left.
    + exists k. rewrite Et. done.
  - destruct Hr as [[-> _]|(Hns & Hd & Et)]; [naive_solver|]. split; [by rewrite Et|]. split; [done|]. intros _. right.
    exists (en_fail (en_failed_attempts e + 1) e). rewrite Et. split; [by apply (elem_with_enrollment (tabs d) e)|]. done.
Qed.

Definition fresh_row : EnrollmentRow := mkEnrollment "tok7" "usr1" "phone" ("mac:" +:+ demo_code) 0 (2000 * Second) None 0 5.
Definition fresh_db : Database := mkDB (set_enrollment_codes [fresh_row] (tabs identity_db)) (mkFeed [] 0).

(** ** Device logins and OAuth states *)

Section Login.
Context `{Pepper} `{CaseTables}.

Definition with_login (l : DeviceLoginRow) (t : Tables) : Tables :=
  set_device_logins (replace_row dl_id l (device_logins t)) t.

Lemma login_valid rows l l' :
  t_valid DeviceLogins rows = true -> l ∈ rows -> dl_id l' = dl_id l -> dl_user_code l' = dl_user_code l ->
  t_valid DeviceLogins (replace_row dl_id l' rows) = true.
Proof.
  intros Hv Hl Hid Hc. simpl in *. unfold unique in *. apply andb_true_iff in Hv as [H1 H2]. apply bool_decide_eq_true in H1.
  assert (Heq : forall x, x ∈ rows -> bool_decide (dl_id x = dl_id l') = true -> x = l).
  { intros x Hx Hd. apply bool_decide_eq_true in Hd. eapply NoDup_map_inj; [exact H1|done..|congruence]. }
  unfold replace_row. rewrite !map_update_same, H2, bool_decide_eq_true_2; try done; intros x Hx Hd; by rewrite (Heq x Hx Hd).
Qed.

End Login.

(** A device login yields a token only after a browser approved it.  The
    exchange succeeds only for the recorded digest, before the expiry, on a
    login that was approved for a user and not consumed; the one new token
    belongs to that user, and the login is consumed by it, so that a second
    exchange of the same code on the resulting database is refused. *)
Lemma device_login_exchange `{Pepper} `{CaseTables} o d deviceCode now :
  t_valid DeviceLogins (device_logins (tabs d)) = true ->
  wp o (ExchangeDeviceLogin deviceCode now)
    (fun issued d' => exists l user, l ∈ device_logins (tabs d) /\ parseOpaque deviceCode "dlc" = Some (dl_id l) /\
       digest deviceCode = dl_digest l /\ dl_consumed_at l = None /\ now < dl_expires_at l /\
       dl_approved_at l <> None /\ dl_user_id l = Some user /\ user <> "" /\
       (exists k, access_tokens (tabs d') = access_tokens (tabs d) ++ [k] /\ tk_kind k = PrincipalDevice /\
          tk_user_id k = Some user /\ tk_digest k = digest (it_Secret issued)) /\
       (forall o' later, wp o' (ExchangeDeviceLogin deviceCode later) (fun _ _ => False) (fun _ d2 => d2 = d') d'))
    (fun _ d' => d' = d) d.
Proof.
  intros Hv. unfold ExchangeDeviceLogin. destruct (parseOpaque deviceCode "dlc") as [id|] eqn:Ep; [|by apply wp_throw].
  wp_step; [|done]. wp_step. apply wp_or_error, (wp_row o dl_id (fun d => device_logins (tabs d))); try done. intros l Hl <-.
  destruct (_ || _) eqn:Eg; [by apply wp_throw|]. split_bools. cbv zeta.
  destruct (_ || _) eqn:Ea; [by apply wp_throw|]. split_bools.
  wp_step. apply wp_newToken; [|done]. intros tid s Htid Hs. wp_step. apply wp_insert; try done. intros Hvt _ fd. wp_step.
  assert (Hnd : NoDup (map dl_id (device_logins (tabs d)))).
  { simpl in Hv. apply andb_true_iff in Hv as [Hv _]. by apply bool_decide_eq_true in Hv. }
  assert (Hnone : dl_consumed_at l = None) by (destruct (dl_consumed_at l); [exfalso; naive_solver|done]).
  assert (Huser : exists user, dl_user_id l = Some user /\ user <> "").
  { destruct (dl_user_id l) as [user|]; [by exists user|done]. }
  destruct Huser as (user & Euser & Hne).
  apply (wp_update_row DeviceLogins dl_id l); try done.
  - intros r _ Hr. split_bools. done.
  - by rewrite Hnone, !bool_decide_eq_true_2.
  - apply (login_valid _ l); done.
  - intros fd2. apply wp_ret. exists l, user. do 8 (split; [done|]). split.
    + eexists. split; [reflexivity|]. simpl. by rewrite Euser.
    + intros o' later. wp_step; [|done]. wp_step.
      apply wp_or_error, (wp_row o' dl_id (fun d => device_logins (tabs d))); try done.
      intros x Hx Hid. simpl in Hx. apply elem_of_replace with (r := l) in Hx as [->|[Hx Hxl]]; [| |done..].
      * simpl. by apply wp_throw.
      * exfalso. apply Hxl. by eapply NoDup_map_inj.
Qed.

Definition login_code : string := "autback_dlc_dlc1_s".
Definition login_row : DeviceLoginRow :=
  mkDeviceLogin "dlc1" "ABCD-EFGH" "phone" ("mac:" +:+ login_code) (Some "usr1") 0 (2000 * Second) (Some 5) None.
Definition login_db : Database := mkDB (set_device_logins [login_row] (tabs identity_db)) (mkFeed [] 0).

(** ** OAuth login states *)

(** An OAuth login state is consumed once.  [ConsumeOAuthLoginState]
    returns the recorded return path and verifier only for the recorded digest,
    before the expiry, on a state that was not consumed; afterwards the same
    state is refused on the resulting database. *)
Lemma oauth_state_is_single_use `{Pepper} `{CaseTables} o d state now :
  t_valid OAuthLoginStates (oauth_login_states (tabs d)) = true ->
  wp o (ConsumeOAuthLoginState state now)
    (fun login d' => exists l, l ∈ oauth_login_states (tabs d) /\ parseOpaque state "ols" = Some (oa_id l) /\
       digest state = oa_digest l /\ oa_consumed_at l = None /\ now < oa_expires_at l /\
       ols_ReturnTo login = oa_return_to l /\ ols_CodeVerifier login = oa_code_verifier l /\
       (forall o' later, wp o' (ConsumeOAuthLoginState state later) (fun _ _ => False) (fun _ d2 => d2 = d') d'))
    (fun _ d' => d' = d) d.
Proof.
  intros Hv. unfold ConsumeOAuthLoginState. destruct (parseOpaque state "ols") as [id|] eqn:Ep; [|by apply wp_throw].
  wp_step; [|done]. wp_step. apply wp_or_error, (wp_row o oa_id (fun d => oauth_login_states (tabs d))); try done. intros l Hl <-.
  destruct (_ || _) eqn:Eg; [by apply wp_throw|]. split_bools.
  assert (Hnd : NoDup (map oa_id (oauth_login_states (tabs d)))) by (by apply bool_decide_eq_true in Hv).
  assert (Hnone : oa_consumed_at l = None) by (destruct (oa_consumed_at l); [exfalso; naive_solver|done]).
  wp_step. apply (wp_update_row OAuthLoginStates oa_id l); try done.
  - intros r _ Hr. split_bools. done.
  - by rewrite Hnone, !bool_decide_eq_true_2.
  - simpl. apply bool_decide_eq_true. unfold replace_row. rewrite map_update_same; [done|].
    intros r _ Hr. by apply bool_decide_eq_true in Hr.
  - intros fd. apply wp_ret. exists l. do 7 (split; [done|]). intros o' later. wp_step; [|done]. wp_step.
    apply wp_or_error, (wp_row o' oa_id (fun d => oauth_login_states (tabs d))); try done.
    intros x Hx Hid. simpl in Hx. apply elem_of_replace with (r := l) in Hx as [->|[Hx Hxl]]; [| |done..].
    + simpl. by apply wp_throw.
    + exfalso. apply Hxl. by eapply NoDup_map_inj.
Qed.

Definition oauth_db : Database :=
  mkDB (set_oauth_login_states [mkOAuth "ols1" "mac:autback_ols_ols1_s" "/jobs" "v" 0 (2000 * Second) None] (tabs identity_db)) (mkFeed [] 0).

Lemma oauth_state_is_single_use_witness :
  wp still_oracle (ConsumeOAuthLoginState "autback_ols_ols1_s" (1000 * Second))
    (fun login _ => ols_ReturnTo login = "/jobs") (fun _ d' => d' = oauth_db) oauth_db.
Proof.
  eapply wp_mono; [apply (oauth_state_is_single_use still_oracle oauth_db "autback_ols_ols1_s" (1000 * Second)); reflexivity| |done].
  intros login d' (l & Hl & _ & _ & _ & _ & -> & _). by apply list_elem_of_singleton in Hl as ->.
Defined.

(** ** C17 *)

(** C17: [glob] decides the pattern language.  For every value without a literal
    star, the backtracking loop stops and its answer is the recursive meaning
    of the pattern: [*] any sequence of code points, [?] one, anything else
    itself. *)
Theorem glob_matches_pattern pattern value :
  stars_free (runes value) -> glob pattern value = pattern_matches (runes pattern) (runes value).
Proof. apply glob_runes_correct. Qed.

Lemma glob_matches_pattern_witness : glob "refs/heads/*-?" "refs/heads/release-2" = true.
Proof.
  rewrite (glob_matches_pattern "refs/heads/*-?" "refs/heads/release-2"); [reflexivity|].
  vm_compute. repeat constructor; discriminate.
Defined.

(** ** Values with a star *)

(** On a value that contains a star the literal comparison hides the
    wildcard: the pattern [*a] does not match the value [*ba], which it
    describes. *)
Lemma glob_misses_literal_star :
  glob "*a" "*ba" = false /\ pattern_matches (runes "*a") (runes "*ba") = true.
Proof. split; vm_compute; reflexivity. Qed.

(** ** Trusts *)

(** A workflow run is trusted exactly when a live trust of the project
    accepts it: [MatchGitHubTrust] returns a trust of the selected project, for
    the repository and owner of the claims, not revoked, whose workflow and ref
    patterns, environment and events accept the claims; if the project is
    unknown or no such trust exists it answers [ErrForbidden].  It changes
    nothing. *)
Lemma trust_matching `{Pepper} `{CaseTables} o d selector claims :
  wp o (MatchGitHubTrust selector claims)
    (fun trust d' => d' = d /\ exists p g, find_project selector d = Some p /\
       g ∈ github_trusts (tabs d) /\ trust = scanTrust g /\ gt_project_id g = pj_ID p /\ gt_revoked_at g = None /\
       gt_repository_owner_id g = cl_RepositoryOwnerID claims /\ gt_repository_id g = cl_RepositoryID claims /\
       glob (gt_workflow_ref g) (cl_WorkflowRef claims) = true /\ glob (gt_ref g) (cl_Ref claims) = true /\
       (gt_environment g = "" \/ gt_environment g = cl_Environment claims) /\ cl_EventName claims ∈ gt_events g)
    (fun e d' => d' = d /\
       ((exists s, fails o s) \/
        e = ErrForbidden /\ forall p g, find_project selector d = Some p -> g ∈ github_trusts (tabs d) ->
          gt_project_id g = pj_ID p -> gt_revoked_at g = None ->
          gt_repository_owner_id g = cl_RepositoryOwnerID claims -> gt_repository_id g = cl_RepositoryID claims ->
          trust_accepts claims (scanTrust g) = false))
    d.
Proof.
  unfold MatchGitHubTrust. wp_step. apply wp_or_error. unfold getProject. apply wp_or_not_found; [|naive_solver].
  destruct (find_project selector d) as [p|] eqn:Ep; [|split; [done|]; right; naive_solver].
  wp_step. wp_step; [|naive_solver]. destruct (head _) as [trust|] eqn:Eh.
  - apply wp_ret. split; [done|]. apply head_Some_elem_of, elem_of_select in Eh as [Hin Ha].
    apply list_elem_of_fmap in Hin as (g & -> & Hg). apply elem_of_select in Hg as [Hg Hm].
    unfold trust_accepts in Ha. rewrite !andb_true_iff, contains_spec, exactOptional_spec in Ha.
    rewrite !andb_true_iff, !bool_decide_eq_true in Hm. exists p, g. naive_solver.
  - apply wp_throw. split; [done|]. right. split; [done|]. intros p' g [= <-] Hg H1 H2 H3 H4.
    destruct (trust_accepts claims (scanTrust g)) eqn:Ea; [|done]. exfalso. apply head_None in Eh.
    eapply elem_of_nil. rewrite <- Eh. apply elem_of_select. split; [|exact Ea]. apply list_elem_of_fmap. exists g.
    split; [done|]. apply elem_of_select. split; [done|]. rewrite H1, H2, H3, H4. by rewrite !bool_decide_eq_true_2.
Qed.

(** ** Project images *)

Section Images.
Context `{Pepper} `{CaseTables}.

(** The project row with new images. *)
Definition with_images (active previous : string) (p : Project) (t : Tables) : Tables :=
  set_projects (replace_row pj_ID (pj_images active previous p) (projects t)) t.

Lemma projects_valid rows p active previous :
  t_valid Projects rows = true -> p ∈ rows -> t_valid Projects (replace_row pj_ID (pj_images active previous p) rows) = true.
Proof.
  intros Hv Hp. simpl in *. unfold unique in *. apply andb_true_iff in Hv as [H1 H2]. apply bool_decide_eq_true in H1.
  assert (Heq : forall x, x ∈ rows -> bool_decide (pj_ID x = pj_ID (pj_images active previous p)) = true -> x = p).
  { intros x Hx Hd. apply bool_decide_eq_true in Hd. by eapply NoDup_map_inj. }
  unfold replace_row. rewrite !map_update_same, H2, bool_decide_eq_true_2; try done; intros x Hx Hd; by rewrite (Heq x Hx Hd).
Qed.

(** What a change of image does: the new image becomes active and the replaced
    one is kept for a rollback, or nothing when the image is active already. *)
Lemma changeProjectImage_spec o d principal p action image :
  t_valid Projects (projects (tabs d)) = true -> p ∈ projects (tabs d) ->
  wp o (changeProjectImage principal (pj_ID p) action image)
    (fun r d' =>
       let target := if bool_decide (action = "rollback") then pj_PreviousImage p else image in
       (action = "rollback" -> pj_PreviousImage p <> "") /\
       if bool_decide (target = pj_ActiveImage p) then r = p /\ d' = d
       else r = pj_images target (pj_ActiveImage p) p /\
            projects (tabs d') = replace_row pj_ID (pj_images target (pj_ActiveImage p) p) (projects (tabs d)))
    (fun e d' => d' = d /\ (reliable o -> (action = "rollback" /\ pj_PreviousImage p = "" /\ e = ErrNotFound) \/ e = ErrUnique \/ e = ErrForeignKey))
    d.
Proof.
  intros Hv Hp.
  assert (Hnd : NoDup (map pj_ID (projects (tabs d)))) by (simpl in Hv; apply andb_true_iff in Hv as [Hv _]; by apply bool_decide_eq_true in Hv).
  unfold changeProjectImage.
  assert (HE : forall s, fails o s -> d = d /\ (reliable o -> (action = "rollback" /\ pj_PreviousImage p = "" /\ ErrDriver s = ErrNotFound) \/ ErrDriver s = ErrUnique \/ ErrDriver s = ErrForeignKey)).
  { intros s Hs. split; [done|]. intros Ho. exfalso. by eapply reliable_fails. }
  wp_step; [|done]. wp_step. apply (wp_row o pj_ID (fun d => projects (tabs d))); [|intros Hn; by destruct (Hn p)|done].
  intros x Hx Hid. assert (x = p) as -> by (by eapply NoDup_map_inj). clear Hid. cbv zeta. wp_step.
  set (target := if bool_decide (action = "rollback") then pj_PreviousImage p else image).
  apply wp_mono with (Q := fun i d' => i = target /\ d' = d /\ (action = "rollback" -> pj_PreviousImage p <> ""))
    (E := fun e d' => action = "rollback" /\ pj_PreviousImage p = "" /\ e = ErrNotFound).
  - unfold target. repeat case_bool_decide; first [by apply wp_ret | by apply wp_throw].
  - intros i d' (-> & -> & Hr). fold target. case_bool_decide; [by apply wp_ret|].
    wp_step. apply (wp_update_row Projects pj_ID p); try done.
    + intros r _ Hr'. by apply bool_decide_eq_true in Hr'.
    + by apply bool_decide_eq_true.
    + by apply projects_valid.
    + intros fd. wp_step. apply wp_randomID; [|done]. intros l _ _. wp_step. wp_step. wp_step.
      apply wp_insert; [|naive_solver..]. intros _ _ fd2. apply wp_ret. done.
  - intros e d' Hr. naive_solver.
Qed.

End Images.

(** ** A rollback undoes an activation *)

(** A rollback undoes an activation.  After an administrator's device
    activated a new image on a project that had one, rolling back makes the
    former image active again and keeps the new one for the next rollback; the
    rollback is refused only by a driver error or a clash of random
    identifiers. *)
Lemma rollback_undoes_activation `{Pepper} `{CaseTables} o1 n1 n2 d d1 principal p image project o2 :
  t_valid Projects (projects (tabs d)) = true -> p ∈ projects (tabs d) -> pj_ActiveImage p <> "" ->
  image <> pj_ActiveImage p ->
  ActivateProjectImage principal (pj_ID p) image o1 (d, n1) = (Ok project, (d1, n2)) ->
  wp o2 (RollbackProjectImage principal (pj_ID p))
    (fun r _ => r = pj_images (pj_ActiveImage p) image p)
    (fun e d' => d' = d1 /\ (reliable o2 -> e = ErrUnique \/ e = ErrForeignKey)) d1.
Proof.
  intros Hv Hp Hne Himg Ha. unfold ActivateProjectImage in Ha. unfold RollbackProjectImage.
  destruct (is_device_admin principal); [|done]. cbn [negb] in Ha |- *.
  pose proof (changeProjectImage_spec o1 d principal p "activate" image Hv Hp n1) as Hs. rewrite Ha in Hs.
  destruct Hs as [_ Hs]. rewrite bool_decide_eq_false_2 in Hs by done. destruct Hs as [-> Ep].
  set (p1 := pj_images image (pj_ActiveImage p) p) in *.
  change (pj_ID p) with (pj_ID p1). eapply wp_mono; [apply (changeProjectImage_spec o2 d1 principal p1 "rollback" "")| |]; simpl.
  - rewrite Ep. apply (projects_valid _ p image (pj_ActiveImage p)); done.
  - rewrite Ep. assert (Hnd : NoDup (map pj_ID (projects (tabs d)))).
    { simpl in Hv. apply andb_true_iff in Hv as [Hv _]. by apply bool_decide_eq_true in Hv. }
    apply elem_of_replace with (r := p); [done|done|done|by left].
  - intros r d' [_ Hr]. rewrite bool_decide_eq_false_2 in Hr by done. by destruct Hr as [-> _].
  - intros e d' [-> He]. split; [done|]. intros Ho. destruct (He Ho) as [(_ & Hprev & _)|He']; [done|exact He'].
Qed.

Definition image_project : Project := mkProject "prj1" "demo" "Demo" "img1" "" true 0.
Definition demo_activated : res Project * (Database * nat) :=
  ActivateProjectImage admin_principal "prj1" "img2" still_oracle (identity_db, 0%nat).

Lemma rollback_undoes_activation_witness :
  match demo_activated with
  | (Ok project, (d1, _)) => pj_ActiveImage project = "img2" /\
      wp still_oracle (RollbackProjectImage admin_principal "prj1")
        (fun r _ => pj_ActiveImage r = "img1" /\ pj_PreviousImage r = "img2") (fun _ d' => d' = d1) d1
  | _ => False
  end.
Proof.
  assert (Hok : match demo_activated with (Ok project, _) => pj_ActiveImage project = "img2" | _ => False end) by (vm_compute; reflexivity).
  destruct demo_activated as [[project|e] [d1 n1]] eqn:E; [|contradiction]. split; [exact Hok|].
  eapply wp_mono; [apply (rollback_undoes_activation still_oracle 0 n1 identity_db d1 admin_principal image_project "img2" project still_oracle)| |].
  - reflexivity.
  - constructor.
  - discriminate.
  - discriminate.
  - exact E.
  - by intros r d' ->.
  - by intros e d' [-> _].
Defined.

(** ** Unknown members *)

(** Adding an unknown user to a project reports the driver's foreign-key
    error: [INSERT OR IGNORE] does not ignore a missing reference, so the
    look-up that would answer [ErrNotFound] is never reached. *)
Lemma unknown_member_error `{Pepper} `{CaseTables} o d principal p userID :
  reliable o -> pr_Admin principal = true -> pr_UserID principal <> "" -> pr_ProjectID principal = "" ->
  find_project (pj_ID p) d = Some p -> user_exists (tabs d) userID = false ->
  unique (fun m => (mb_project_id m, mb_user_id m)) (project_members (tabs d) ++ [mkMember (pj_ID p) userID 0]) = true ->
  wp o (AddProjectMember principal (pj_ID p) userID) (fun _ _ => False) (fun e d' => e = ErrForeignKey /\ d' = d) d.
Proof.
  intros Ho Hadm Hu Hpr Hp Hx Hun. unfold AddProjectMember, AuthorizeProject, getProject. rewrite Hadm. simpl negb. cbv iota.
  assert (HE : forall s (e : Err), fails o s -> False) by (intros s e Hs; by eapply reliable_fails).
  wp_step. wp_step. apply wp_or_not_found; [rewrite Hp|intros s Hs; by destruct (HE s ErrNoRows)].
  rewrite (bool_decide_eq_true_2 (pr_ProjectID principal = "")), (bool_decide_eq_false_2 (pr_UserID principal = "")) by done. simpl negb. cbv iota. apply wp_ret.
  wp_step. wp_step. wp_step. unfold exec_insert_ignore. wp_step. wp_step.
  apply wp_statement; [|intros s Hs; by destruct (HE s ErrNoRows)].
  unfold insert_row. simpl t_valid. simpl t_rows. unfold unique in *. rewrite map_app in Hun |- *. simpl map in Hun |- *.
  rewrite Hun. simpl. unfold user_exists in Hx. unfold user_exists. rewrite Hx, andb_false_r. done.
Qed.

Lemma unknown_member_error_witness :
  wp still_oracle (AddProjectMember admin_principal "prj1" "ghost") (fun _ _ => False)
    (fun e d' => e = ErrForeignKey /\ d' = identity_db) identity_db.
Proof.
  apply (unknown_member_error still_oracle identity_db admin_principal image_project "ghost");
    [exact still_reliable | reflexivity | discriminate | reflexivity..].
Defined.
