(* ===== verification/ChangeFeed.v ===== *)
(** * The change feed

    [control_changes], filled by the triggers of
    [internal/control/sqlite/changes.go], its readers [CurrentRevision] and
    [ChangesAfter], and what a consumer can rely on: the retained changes are
    the last 10,001, numbered without gaps, and a call that leaves the revision
    alone has changed nothing a consumer can see. *)
From S2P Require Import Prelude Model GoMonad GoLib GoStrings Glob Table Schema JobStore QueueInv QueueOps QueueSystem Identity IdentitySpec Keeps IdentitySystem IdentityInv.

(** ** Readers *)

(** [SELECT COALESCE(MAX(sequence),0)]. *)
Definition CurrentRevision : StoreM Z :=
  query (fun d => fold_right Z.max 0 (map cc_Sequence (fd_rows (feed d)))).

Definition ChangesAfter (revision : Z) : StoreM (list ControlChange) :=
  query (fun d => order_by (fun a b => cc_Sequence a <=? cc_Sequence b)
    (select (fun c => revision <? cc_Sequence c) (fd_rows (feed d)))).

(** ** The notifier *)

(** [changeNotifier]: each subscriber's channel has room for one wake-up. *)
Record Notifier := mkNotifier { nf_next : Z; nf_subscribers : list (Z * bool) }.

Definition newChangeNotifier : Notifier := mkNotifier 0 [].
Definition subscribe (n : Notifier) : Z * Notifier :=
  let id := wrapu64 (nf_next n + 1) in (id, mkNotifier id (nf_subscribers n ++ [(id, false)])).
Definition unsubscribe (id : Z) (n : Notifier) : Notifier :=
  mkNotifier (nf_next n) (delete_where (fun s => s.1 =? id) (nf_subscribers n)).

(** A pending wake-up absorbs the next. *)
Definition notify (n : Notifier) : Notifier := mkNotifier (nf_next n) (map (fun s => (s.1, true)) (nf_subscribers n)).

(** The receiver takes the wake-up of its channel, if there is one. *)
Definition receive (id : Z) (n : Notifier) : bool * Notifier :=
  (existsb (fun s => (s.1 =? id) && s.2) (nf_subscribers n),
   mkNotifier (nf_next n) (map (fun s => if s.1 =? id then (s.1, false) else s) (nf_subscribers n))).

(** The commit hook: it wakes the subscribers when the transaction wrote
    [control_changes]. *)
Definition commit_hook (changed : bool) (n : Notifier) : Notifier := if changed then notify n else n.

(** ** The numbers of the retained changes *)

Definition oldest_retained (seq : Z) : Z := Z.max 1 (seq - 10000).

Record FeedInv (f : Feed) : Prop := {
  fi_seq : 0 <= fd_seq f;
  fi_rows : map cc_Sequence (fd_rows f) = seqZ (oldest_retained (fd_seq f)) (fd_seq f + 1 - oldest_retained (fd_seq f))
}.

(** [f'] continues [f]: it numbers on, and what it retains of the past is the
    past. *)
Definition feed_continues (f f' : Feed) : Prop :=
  fd_seq f <= fd_seq f' /\ forall c, c ∈ fd_rows f' -> cc_Sequence c <= fd_seq f -> c ∈ fd_rows f.

Lemma filter_all {A} (p : A -> bool) l : (forall x, x ∈ l -> p x = true) -> List.filter p l = l.
Proof.
  induction l as [|x l IH]; simpl; intros H; [done|]. rewrite H by constructor. f_equal. apply IH. intros y Hy. apply H. by constructor.
Qed.
Lemma filter_none {A} (p : A -> bool) l : (forall x, x ∈ l -> p x = false) -> List.filter p l = [].
Proof.
  induction l as [|x l IH]; simpl; intros H; [done|]. rewrite H by constructor. apply IH. intros y Hy. apply H. by constructor.
Qed.

Lemma seqZ_filter_ge lo n m :
  lo <= m <= lo + n -> List.filter (fun x => m <=? x) (seqZ lo n) = seqZ m (lo + n - m).
Proof.
  intros Hm. replace n with ((m - lo) + (lo + n - m)) at 1 by lia. rewrite seqZ_app, List.filter_app by lia.
  rewrite filter_none, filter_all; simpl.
  - f_equal; lia.
  - intros x Hx. apply elem_of_seqZ in Hx. apply Z.leb_le. lia.
  - intros x Hx. apply elem_of_seqZ in Hx. apply Z.leb_gt. lia.
Qed.

Lemma map_filter_sequence p rows :
  map cc_Sequence (select (fun c => p (cc_Sequence c)) rows) = List.filter p (map cc_Sequence rows).
Proof. induction rows as [|c rows IH]; simpl; [done|]. destruct (p (cc_Sequence c)); simpl; by rewrite IH. Qed.

Lemma record_change_inv now project kind id f : FeedInv f -> FeedInv (record_change now project kind id f).
Proof.
  intros [Hs Hr]. split; simpl; [lia|].
  rewrite (select_ext (retained (fd_seq f + 1)) (fun c => fd_seq f + 1 - 10000 <=? cc_Sequence c)).
  2:{ intros c _. unfold retained. by rewrite Z.ltb_antisym, negb_involutive. }
  rewrite (map_filter_sequence (fun x => fd_seq f + 1 - 10000 <=? x)), map_app. simpl. rewrite Hr.
  set (s := fd_seq f) in *. replace (seqZ (oldest_retained s) (s + 1 - oldest_retained s) ++ [s + 1])
    with (seqZ (oldest_retained s) (s + 2 - oldest_retained s)).
  2:{ replace (s + 2 - oldest_retained s) with ((s + 1 - oldest_retained s) + 1) by lia. unfold oldest_retained.
      rewrite seqZ_app by lia. f_equal. rewrite seqZ_cons by lia. rewrite seqZ_nil by lia. f_equal. lia. }
  destruct (Z.le_gt_cases (s + 1) 10001) as [Hle|Hgt].
  - rewrite filter_all; [unfold oldest_retained; f_equal; lia|]. intros x Hx. apply elem_of_seqZ in Hx. unfold oldest_retained in Hx.
    apply Z.leb_le. lia.
  - rewrite seqZ_filter_ge by (unfold oldest_retained; lia). unfold oldest_retained. f_equal; lia.
Qed.

Lemma record_change_continues now project kind id f : feed_continues f (record_change now project kind id f).
Proof.
  split; simpl; [lia|]. intros c Hc Hle. apply elem_of_select in Hc as [Hc _].
  apply elem_of_app in Hc as [Hc|Hc]; [done|]. apply list_elem_of_singleton in Hc as ->. simpl in Hle. lia.
Qed.

#[export] Instance feed_continues_preorder : PreOrder feed_continues.
Proof.
  split; [by split|]. intros f1 f2 f3 [L1 H1] [L2 H2]. split; [lia|]. intros c Hc Hle. apply H1; [|done]. apply H2; [done|lia].
Qed.

(** ** What a consumer of the feed sees *)

Definition visible (t : Tables) :=
  (users t, projects t, project_members t, access_tokens t, enrollment_codes t, github_trusts t,
   audit_events t, project_image_events t, control_jobs t, control_builds t, control_queue t).

(** The feed stays well numbered and continues; an unmoved revision means
    nothing visible moved. *)
Definition feed_good (d d' : Database) : Prop :=
  (FeedInv (feed d) -> FeedInv (feed d')) /\ feed_continues (feed d) (feed d') /\
  (fd_seq (feed d') = fd_seq (feed d) -> visible (tabs d') = visible (tabs d) /\ feed d' = feed d).

#[export] Instance feed_good_preorder : PreOrder feed_good.
Proof.
  split; [intros d; split; [done|]; split; [reflexivity|done]|]. intros d1 d2 d3 (A1 & B1 & C1) (A2 & B2 & C2). split; [auto|]. split; [by etrans|].
  intros E. destruct (B1) as [L1 _], (B2) as [L2 _]. destruct C2 as [V2 F2]; [lia|]. destruct C1 as [V1 F1]; [lia|].
  split; congruence.
Qed.

Section Fire.
Context {R : Type} (tb : Table Tables R).

(** The triggers number one change per row. *)
Lemma fire_none now rows t f : t_change tb = None -> fire tb now rows t f = f.
Proof. intros E. unfold fire. by rewrite E. Qed.

Lemma fire_good now rows t f :
  (FeedInv f -> FeedInv (fire tb now rows t f)) /\ feed_continues f (fire tb now rows t f) /\
  (t_change tb <> None -> fd_seq (fire tb now rows t f) = fd_seq f + Z.of_nat (length rows)).
Proof.
  unfold fire. destruct (t_change tb) as [describe|]; [|split; [done|split; [reflexivity|done]]].
  revert f. induction rows as [|r rows IH]; intros f; simpl.
  { split; [done|]. split; [reflexivity|]. intros _. lia. }
  destruct (describe t r) as [[project kind] id]. destruct (IH (record_change now project kind id f)) as (A & B & C).
  split; [intros HI; by apply A, record_change_inv|]. split; [etrans; [apply record_change_continues|exact B]|].
  intros Hn. rewrite C by done. simpl. lia.
Qed.

(** A statement that fired for some row moved the revision. *)
Lemma fired_good now hit t d d' :
  feed d' = fire tb now hit t (feed d) -> t_change tb <> None -> hit <> [] -> feed_good d d'.
Proof.
  intros E Hc Hh. destruct (fire_good now hit t (feed d)) as (A & B & C). rewrite <- E in *. split; [done|]. split; [done|].
  rewrite C by done. destruct hit; [done|]. simpl. lia.
Qed.

(** One that changed nothing visible, whether it fired or not. *)
Lemma quiet_good now hit t d d' :
  feed d' = fire tb now hit t (feed d) -> (hit = [] \/ t_change tb = None) -> visible (tabs d') = visible (tabs d) ->
  feed_good d d'.
Proof.
  intros E Hh Hv. assert (feed d' = feed d) as Ef.
  { rewrite E. unfold fire. destruct Hh as [-> | ->]; [|done]. by destruct (t_change tb). }
  unfold feed_good. rewrite Ef. split; [done|]. split; [reflexivity|]. done.
Qed.
End Fire.

(** ** Statements *)

Section StatementsGood.
Context {R : Type} (tb : Table Tables R).

Lemma update_feed_good p f :
  t_change tb <> None -> (forall t, t_set tb (t_rows tb t) t = t) -> update_ok tb feed_good p f.
Proof.
  intros Hc Hset now n d d' Hu. apply update_rows_inv in Hu as (_ & Et & Ef).
  destruct (select (p (tabs d)) (t_rows tb (tabs d))) as [|r l] eqn:E.
  - eapply quiet_good; [exact Ef|by left|]. rewrite Et, update_where_none, Hset by (by apply select_nil). done.
  - by eapply fired_good; [exact Ef| |].
Qed.

Lemma insert_feed_good mk : t_change tb <> None -> insert_ok tb feed_good mk.
Proof. intros Hc now d d' Hi. apply insert_row_inv in Hi as (_ & _ & _ & Ef). by eapply fired_good; [exact Ef| |]. Qed.

(** Tables without triggers are not visible. *)
Lemma update_hidden_good p f :
  t_change tb = None -> (forall rows t, visible (t_set tb rows t) = visible t) -> update_ok tb feed_good p f.
Proof.
  intros Hc Hset now n d d' Hu. apply update_rows_inv in Hu as (_ & Et & Ef).
  eapply quiet_good; [exact Ef|by right|]. by rewrite Et, Hset.
Qed.

Lemma insert_hidden_good mk :
  t_change tb = None -> (forall rows t, visible (t_set tb rows (t_bump tb t)) = visible t) -> insert_ok tb feed_good mk.
Proof.
  intros Hc Hset now d d' Hi. apply insert_row_inv in Hi as (_ & _ & Et & Ef).
  eapply quiet_good; [exact Ef|by right|]. by rewrite Et, Hset.
Qed.

Lemma delete_hidden_good p :
  t_change tb = None -> (forall rows t, visible (t_set tb rows t) = visible t) -> delete_ok tb feed_good p.
Proof.
  intros Hc Hset now n d d' Hu. apply delete_rows_inv in Hu as (Et & Ef).
  eapply quiet_good; [exact Ef|by right|]. by rewrite Et, Hset.
Qed.

End StatementsGood.

Ltac feed_leaf :=
  first [ apply update_feed_good; [done|by intros []] | apply insert_feed_good; done
        | apply update_hidden_good; done | apply insert_hidden_good; done | apply delete_hidden_good; done ].

Section Calls.
Context `{Pepper} `{CaseTables}.

Lemma statements_feed_good : StatementsOk feed_good.
Proof.
  split; intros; try feed_leaf.
  unfold ExchangeEnrollmentCode, newToken, randomID. repeat (keep_step || feed_leaf).
Qed.

Lemma run_identity_feed c : keeps feed_good (run_identity c).
Proof. apply run_identity_keeps; [apply _ | apply statements_feed_good]. Qed.

Lemma run_call_feed c : keeps feed_good (run_call c).
Proof.
  destruct c; cbn [run_call];
    unfold discard, CreatePreparedJob, CreateBuild, QueueJob, SyncJob, RequestJobCancellation, FailJob, FinishBuild,
      AcquireNextOperation, RequeueAdmittingOperation, ActivateOperation, BeginOperationCleanup, ClaimOperationCleanup,
      RecordOperationCleanupFailure, CompleteOperationCleanup, EmergencyStopActiveOperation, emergency_finish,
      CancelQueuedOperation, RenewOperationLease, OperationStateOf, getJob, getBuild, or_not_found, expect_one, randomID;
    repeat (keep_step || feed_leaf).
Qed.

Lemma control_step_feed d d' : control_step d d' -> feed_good d d'.
Proof.
  intros [c o n r d0 d1 n' E | c o n r d0 d1 n' E]; eapply keeps_run; [| exact E | |exact E];
    [apply run_call_feed | apply run_identity_feed].
Qed.

Lemma control_steps_feed d d' : rtc control_step d d' -> feed_good d d'.
Proof. induction 1 as [|d1 d2 d3 H1 _ IH]; [reflexivity|]. etrans; [by apply control_step_feed|done]. Qed.

End Calls.

(** ** The readers on a well-numbered feed *)

Lemma fold_max_seqZ lo n : 0 <= lo -> 0 < n -> fold_right Z.max 0 (seqZ lo n) = lo + n - 1.
Proof.
  intros Hlo Hn. assert (H : forall k, 0 <= lo -> fold_right Z.max 0 (seqZ lo (Z.of_nat k + 1)) = lo + Z.of_nat k).
  { intros k. revert lo Hlo. induction k as [|k IH]; intros lo Hlo _.
    - rewrite seqZ_cons, seqZ_nil by lia. simpl. lia.
    - rewrite seqZ_cons by lia. replace (Z.pred (Z.of_nat (S k) + 1)) with (Z.of_nat k + 1) by lia.
      simpl. rewrite IH by lia. lia. }
  specialize (H (Z.to_nat (n - 1)) Hlo). replace (Z.of_nat (Z.to_nat (n - 1)) + 1) with n in H by lia. lia.
Qed.

Lemma revision_of_feed f : FeedInv f -> fold_right Z.max 0 (map cc_Sequence (fd_rows f)) = fd_seq f.
Proof.
  intros [Hs Hr]. rewrite Hr. destruct (Z.eq_dec (fd_seq f) 0) as [->|Hne]; [done|].
  rewrite fold_max_seqZ; unfold oldest_retained; lia.
Qed.

Lemma order_by_sorted_id {R} (le : R -> R -> bool) l :
  StronglySorted (fun a b => le a b = true) l -> order_by le l = l.
Proof.
  induction 1 as [|x l Hs IH Hx]; simpl; [done|]. rewrite IH. destruct l as [|y l]; [done|]. simpl.
  inversion Hx as [|? ? Hxy]; subst. by rewrite Hxy.
Qed.

Lemma seqZ_sorted lo n : StronglySorted Z.le (seqZ lo n).
Proof.
  unfold seqZ. generalize (Z.to_nat n). intros k. revert lo. induction k as [|k IH]; intros lo; simpl; [constructor|].
  constructor.
  - specialize (IH (lo + 1)). rewrite <- fmap_S_seq, <- list_fmap_compose. eapply eq_ind; [exact IH|].
    apply list_fmap_ext. intros i x _. simpl. lia.
  - apply Forall_forall. intros x Hx. apply list_elem_of_fmap in Hx as (y & -> & _). lia.
Qed.

Lemma sorted_by_sequence rows lo n :
  map cc_Sequence rows = seqZ lo n -> StronglySorted (fun a b => (cc_Sequence a <=? cc_Sequence b) = true) rows.
Proof.
  revert lo n. induction rows as [|c rows IH]; intros lo n E; [constructor|]. simpl in E.
  destruct (Z.le_gt_cases n 0) as [Hn|Hn]; [by rewrite seqZ_nil in E|]. rewrite seqZ_cons in E by lia. injection E as Ec E.
  constructor; [by eapply IH|]. apply Forall_forall. intros x Hx. apply Z.leb_le.
  assert (Hin : cc_Sequence x ∈ map cc_Sequence rows) by (by apply list_elem_of_fmap_2). rewrite E in Hin.
  apply elem_of_seqZ in Hin. lia.
Qed.

(** ** C22 *)

(** C22: a consumer of the feed misses nothing.  In every database reached by
    calls on a store whose feed was well numbered, [CurrentRevision] is the
    number of the last change, and for every revision at most 10,001 changes
    old [ChangesAfter] returns exactly the changes numbered after it, in order
    and without a gap. *)
Theorem feed_is_gapless `{Pepper} `{CaseTables} o d d' revision :
  FeedInv (feed d) -> rtc control_step d d' ->
  oldest_retained (fd_seq (feed d')) - 1 <= revision <= fd_seq (feed d') ->
  wp o CurrentRevision (fun r d2 => r = fd_seq (feed d') /\ d2 = d') (fun _ d2 => d2 = d') d' /\
  wp o (ChangesAfter revision)
    (fun changes d2 => d2 = d' /\ map cc_Sequence changes = seqZ (revision + 1) (fd_seq (feed d') - revision))
    (fun _ d2 => d2 = d') d'.
Proof.
  intros HI Hs Hrev. destruct (control_steps_feed d d' Hs) as (HF & _ & _). specialize (HF HI). split.
  - apply wp_query; [|done]. by rewrite revision_of_feed.
  - apply wp_query; [|done]. split; [done|]. destruct HF as [Hseq Hr].
    assert (E : map cc_Sequence (select (fun c => revision <? cc_Sequence c) (fd_rows (feed d')))
                = seqZ (revision + 1) (fd_seq (feed d') - revision)).
    { rewrite (map_filter_sequence (fun x => revision <? x)), Hr.
      rewrite (List.filter_ext _ (fun x => revision + 1 <=? x)).
      2:{ intros x. destruct (Z.ltb_spec revision x), (Z.leb_spec (revision + 1) x); lia. }
      rewrite seqZ_filter_ge by (unfold oldest_retained in *; lia). f_equal. lia. }
    rewrite order_by_sorted_id; [exact E|]. by eapply sorted_by_sequence.
Qed.

#[local] Instance feed_demo_pepper : Pepper := {| digest := fun s => s |}.
#[local] Instance feed_demo_tables : CaseTables := {| unicode_lower := fun s => s; unicode_upper := fun s => s |}.

(** [run_calls] as calls on the whole store. *)
Lemma run_calls_control `{Pepper} `{CaseTables} calls d n : rtc control_step d (run_calls calls (d, n)).1.
Proof.
  revert d n. induction calls as [|c calls IH]; intros d n; simpl; [reflexivity|].
  destruct (run_call c demo_oracle (d, n)) as [r [d' n']] eqn:E. simpl.
  eapply rtc_l; [by eapply step_queue|]. apply IH.
Qed.

Lemma feed_is_gapless_witness :
  fd_seq (feed demo_state) = 5 /\
  wp demo_oracle (ChangesAfter 2) (fun changes _ => map cc_Sequence changes = [3; 4; 5]) (fun _ _ => True) demo_state.
Proof.
  assert (E : fd_seq (feed demo_state) = 5) by (vm_compute; reflexivity). split; [exact E|].
  eapply wp_mono; [apply (feed_is_gapless demo_oracle demo_db demo_state 2)| |done].
  - split; reflexivity.
  - apply run_calls_control.
  - rewrite E. unfold oldest_retained. lia.
  - intros changes d2 [_ H]. rewrite E in H. exact H.
Defined.

(** ** No silent change *)

(** No silent change.  If the revision is the same before and after any
    calls on the store, then no user, project, member, token, enrollment code,
    trust, audit event, image event, job, build or queue row changed, and the
    feed retains the same changes; and a change once recorded is never
    rewritten. *)
Lemma unmoved_revision_means_unchanged `{Pepper} `{CaseTables} d d' :
  rtc control_step d d' ->
  fd_seq (feed d) <= fd_seq (feed d') /\
  (forall c, c ∈ fd_rows (feed d') -> cc_Sequence c <= fd_seq (feed d) -> c ∈ fd_rows (feed d)) /\
  (fd_seq (feed d') = fd_seq (feed d) -> visible (tabs d') = visible (tabs d)).
Proof.
  intros Hs. destruct (control_steps_feed d d' Hs) as (_ & [H1 H2] & H3). split; [done|]. split; [done|].
  intros E. by apply H3.
Qed.

Lemma unmoved_revision_means_unchanged_witness :
  fd_seq (feed (run_calls [CallAcquireNextOperation] (demo_state, 0%nat)).1) = fd_seq (feed demo_state) /\
  visible (tabs (run_calls [CallAcquireNextOperation] (demo_state, 0%nat)).1) = visible (tabs demo_state).
Proof.
  assert (E : fd_seq (feed (run_calls [CallAcquireNextOperation] (demo_state, 0%nat)).1) = fd_seq (feed demo_state))
    by (vm_compute; reflexivity).
  split; [exact E|]. apply (unmoved_revision_means_unchanged demo_state); [apply run_calls_control | exact E].
Defined.
