(* ===== verification/Reads.v ===== *)
(** * The read methods of the store

    The joins that the reconciler works from, the paginated job list with its
    signed cursors, the image policies of the capacity controller, and the
    methods of [internal/control/sqlite/read.go]. *)
From stdpp Require Import gmap.
From S2P Require Import Prelude Model GoMonad GoLib Table Schema JobStore GoStrings Encoding Glob Identity.

(** ** Joins with the queue *)

(** [JOIN control_queue q ON q.kind=? AND q.operation_id=? AND q.state IN (states)]. *)
Definition queue_of (kind : OperationKind) (id : string) (states : list OperationState) (t : Tables) : list QueueRow :=
  select (q_match kind id states) (control_queue t).

Definition jobs_in (states : list OperationState) (t : Tables) : list (JobRow * QueueRow) :=
  j ← control_jobs t; q ← queue_of OperationJob (jr_id j) states t; [(j, q)].
Definition builds_in (states : list OperationState) (t : Tables) : list (BuildRow * QueueRow) :=
  b ← control_builds t; q ← queue_of OperationBuild (br_id b) states t; [(b, q)].

(** [COALESCE(q.leased_at,q.accepted_at)]. *)
Definition lease_time (q : QueueRow) : Z := default (q_accepted_at q) (q_leased_at q).

(** [ORDER BY created_at,id]. *)
Definition created_before (a b : Z * string) : bool := (a.1 <? b.1) || ((a.1 =? b.1) && String.leb a.2 b.2).

Definition ScheduledJobs : StoreM (list Job) :=
  query (fun d => map scanJob
    (order_by (fun a b => created_before (jr_created_at a, jr_id a) (jr_created_at b, jr_id b))
      (select (fun j => bool_decide (jr_status j ∈ [StatusQueued; StatusRunning]))
        (map fst (jobs_in [OperationAdmitting; OperationActive] (tabs d)))))).

(** Rows with the same lease time come in table order. *)
Definition StaleBuilds (before : time) : StoreM (list Build) :=
  query (fun d => map (fun bq => scanBuild bq.1)
    (order_by (fun x y => lease_time x.2 <=? lease_time y.2)
      (select (fun bq => bool_decide (br_status bq.1 ∈ [BuildQueued; BuildRunning]) && (lease_time bq.2 <? unix before))
        (builds_in [OperationQueued; OperationAdmitting; OperationActive] (tabs d))))).

Definition StalePreparingJobs (before : time) : StoreM (list Job) :=
  query (fun d => map (fun jq => scanJob jq.1)
    (order_by (fun x y => (lease_time x.2 <? lease_time y.2)
                          || ((lease_time x.2 =? lease_time y.2) && (q_sequence x.2 <=? q_sequence y.2)))
      (select (fun jq => bool_decide (jr_status jq.1 = StatusPreparing) && (lease_time jq.2 <? unix before))
        (jobs_in [OperationQueued; OperationAdmitting] (tabs d))))).

Definition TerminalJobIDsBefore (before : time) : StoreM (list string) :=
  query (fun d => map snd
    (order_by created_before
      (j ← select (fun j => Terminal (jr_status j)) (control_jobs (tabs d));
       match jr_finished_at j with
       | Some f => if f <? unix before then [(f, jr_id j)] else []
       | None => []
       end))).

(** ** Image policies *)

(** [capacity.ImagePolicy]. *)
Record ImagePolicy := mkPolicy { ip_Reference : string; ip_Protected : bool; ip_LastUsedAt : time }.

(** The zero value a missing key reads as. *)
Definition zero_policy : ImagePolicy := mkPolicy "" false zero_time.

Definition protect (reference : string) (policies : gmap string ImagePolicy) : gmap string ImagePolicy :=
  if bool_decide (reference = "") then policies else
  let policy := default zero_policy (policies !! reference) in
  <[reference := mkPolicy reference true (ip_LastUsedAt policy)]> policies.

Definition record_use (used : string * Z) (policies : gmap string ImagePolicy) : gmap string ImagePolicy :=
  let policy := default zero_policy (policies !! used.1) in
  <[used.1 := mkPolicy used.1 (ip_Protected policy) (fromUnix used.2)]> policies.

(** [SELECT image,MAX(created_at) FROM control_jobs WHERE image<>'' GROUP BY image]. *)
Definition last_created (image : string) (jobs : list JobRow) : Z :=
  let times := map jr_created_at (select (fun j => bool_decide (jr_image j = image)) jobs) in
  fold_right Z.max (hd 0 times) times.
Definition images_used (jobs : list JobRow) : list (string * Z) :=
  map (fun image => (image, last_created image jobs))
    (remove_dups (map jr_image (select (fun j => negb (bool_decide (jr_image j = ""))) jobs))).

Definition project_policies (ps : list Project) : gmap string ImagePolicy :=
  fold_left (fun policies p => protect (pj_PreviousImage p) (protect (pj_ActiveImage p) policies)) ps ∅.

Definition image_policies (ps : list Project) (jobs : list JobRow) : gmap string ImagePolicy :=
  fold_left (fun policies used => record_use used policies) (images_used jobs) (project_policies ps).

(** A [rows.Next] loop without a check of [rows.Err]: a row the driver fails to
    deliver ends the loop like the last one. *)
Fixpoint rows_unchecked {A : Type} (rows : list A) : StoreM (list A) :=
  match rows with
  | [] => mret []
  | r :: rest =>
      next ← attempt may_fail;
      match next with
      | Ok _ => more ← rows_unchecked rest; mret (r :: more)
      | Fail _ => mret []
      end
  end.

Definition CapacityImagePolicies : StoreM (list ImagePolicy) :=
  rows ← query (fun d => projects (tabs d));
  ps ← rows_unchecked rows;
  jobs ← query (fun d => control_jobs (tabs d));
  mret (order_by (fun a b => String.leb (ip_Reference a) (ip_Reference b))
          (map snd (map_to_list (image_policies ps jobs)))).

(** ** Job pages *)

Record jobCursor := mkCursor { jc_ProjectID : string; jc_CreatedAt : Z; jc_ID : string }.

Record JobPage := mkJobPage { jp_Jobs : list Job; jp_NextPageToken : string }.

(** [sha256.Size]. *)
Definition sha256_Size : nat := 32.

(** The JSON encoding of a cursor, its decoding, and the keyed MAC.  A cursor of
    ASCII strings decodes to itself; the encoding is not empty; a MAC has the
    size of the hash. *)
Class CursorCodec := {
  json_Marshal : jobCursor -> list Z;
  json_Unmarshal : list Z -> option jobCursor;
  hmac_Sum : list Z -> list Z;
  json_round_trip : forall c, ascii_only (jc_ProjectID c) = true -> ascii_only (jc_ID c) = true ->
    json_Unmarshal (json_Marshal c) = Some c;
  json_bytes : forall c, json_Marshal c <> [] /\ Forall is_byte (json_Marshal c);
  hmac_size : forall l, length (hmac_Sum l) = sha256_Size /\ Forall is_byte (hmac_Sum l)
}.

Section Pages.
Context `{CursorCodec}.

Definition encodeJobCursor (projectID : string) (job : Job) : string :=
  let payload := json_Marshal (mkCursor projectID (unix (jb_CreatedAt job)) (jb_ID job)) in
  base64url (payload ++ hmac_Sum payload).

Definition decodeJobCursor (projectID token : string) : option jobCursor :=
  value ← base64url_decode token;
  if (length value <=? sha256_Size)%nat then None else
  let payload := take (length value - sha256_Size) value in
  let signature := drop (length value - sha256_Size) value in
  if negb (bool_decide (signature = hmac_Sum payload)) then None else
  cursor ← json_Unmarshal payload;
  if negb (bool_decide (jc_ProjectID cursor = projectID)) || (jc_CreatedAt cursor <=? 0) || bool_decide (jc_ID cursor = "")
  then None else Some cursor.

(** [AND (created_at < ? OR (created_at = ? AND id < ?))]. *)
Definition past_cursor (c : jobCursor) (j : JobRow) : bool :=
  (jr_created_at j <? jc_CreatedAt c)
  || ((jr_created_at j =? jc_CreatedAt c) && bool_decide (String.compare (jr_id j) (jc_ID c) = Lt)).

(** [ORDER BY created_at DESC,id DESC]. *)
Definition newest_first (a b : JobRow) : bool := created_before (jr_created_at b, jr_id b) (jr_created_at a, jr_id a).

Definition project_jobs (projectID : string) (t : Tables) : list JobRow :=
  select (fun j => bool_decide (jr_project_id j = projectID)) (control_jobs t).

Definition ListJobs (projectID : string) (pageSize : Z) (pageToken : string) : StoreM JobPage :=
  if (pageSize <? 1) || (100 <? pageSize) then throw (ErrText "job page size must be between 1 and 100") else
  cursor ← (if bool_decide (pageToken = "") then mret None else
            match decodeJobCursor projectID pageToken with
            | None => throw ErrInvalidPageToken
            | Some c => mret (Some c)
            end);
  rows ← query (fun d => take (Z.to_nat (pageSize + 1))
    (order_by newest_first
      (select (fun j => match cursor with None => true | Some c => past_cursor c j end) (project_jobs projectID (tabs d)))));
  let jobs := map scanJob rows in
  if (pageSize <? Z.of_nat (length jobs)) then
    let jobs := take (Z.to_nat pageSize) jobs in
    match last jobs with
    | Some job => mret (mkJobPage jobs (encodeJobCursor projectID job))
    | None => throw (ErrText "index out of range")
    end
  else mret (mkJobPage jobs "").

End Pages.

(** ** [read.go] *)

Definition getUser (id : string) : StoreM User :=
  or_not_found (query_row (fun d => head (select (fun u => bool_decide (us_ID u = id)) (users (tabs d))))).

Definition ProjectMemberCount (projectID : string) : StoreM Z :=
  query (fun d => Z.of_nat (count (fun m => bool_decide (mb_project_id m = projectID)) (project_members (tabs d)))).

Definition ListBuilds (projectID : string) (limit : Z) : StoreM (list Build) :=
  if (limit <? 1) || (100 <? limit) then throw (ErrText "build limit must be between 1 and 100") else
  query (fun d => map scanBuild (take (Z.to_nat limit)
    (order_by (fun a b => created_before (br_created_at b, br_id b) (br_created_at a, br_id a))
      (select (fun b => bool_decide (br_project_id b = projectID)) (control_builds (tabs d)))))).

(** [control.QueueOperation]: the columns [ListQueue] reads; the cleanup fields
    keep their zero values. *)
Record QueueOperation := mkQueueOperation { qo_Operation : Operation; qo_ProjectID : string }.

Definition queue_item (t : Tables) (r : QueueRow) : QueueOperation :=
  mkQueueOperation
    (mkOperation (q_kind r) (q_operation_id r) (q_state r) (fromUnix (q_accepted_at r)) (fromUnix <$> q_leased_at r) 0 "" None)
    (queue_project t r).

(** [q.state<>'released' ORDER BY q.sequence]; the two left joins find the
    project of the job or build. *)
Definition ListQueue (principal : Principal) : StoreM (list QueueOperation) :=
  projects ← ListProjects principal;
  let authorized := map pj_ID projects in
  rows ← query (fun d => map (queue_item (tabs d))
    (order_by (fun a b => q_sequence a <=? q_sequence b)
      (select (fun r => negb (bool_decide (q_state r = OperationReleased))) (control_queue (tabs d)))));
  mret (select (fun item => negb (bool_decide (qo_ProjectID item = "")) && bool_decide (qo_ProjectID item ∈ authorized)) rows).

(** [control.AuditEvent]. *)
Record AuditEvent := mkAuditEvent {
  ae_ID : Z; ae_ActorKind : PrincipalKind; ae_ActorID : string; ae_ProjectID : string;
  ae_Action : string; ae_TargetID : string; ae_CreatedAt : time; ae_Metadata : list (string * string)
}.

Definition scanAudit (a : AuditRow) : AuditEvent :=
  mkAuditEvent (au_id a) (au_actor_kind a) (au_actor_id a) (au_project_id a) (au_action a) (au_target_id a)
    (fromUnix (au_created_at a)) (au_metadata a).

(** [project_id=?]: a missing project, the empty string here, equals nothing. *)
Definition audit_of (projectID : string) (a : AuditRow) : bool :=
  negb (bool_decide (au_project_id a = "")) && bool_decide (au_project_id a = projectID).

(** The rows a principal may read when it names no project. *)
Definition audit_visible (principal : Principal) (t : Tables) (a : AuditRow) : bool :=
  if bool_decide (pr_Kind principal = PrincipalGitHub) then
    audit_of (pr_ProjectID principal) a
  else if negb (pr_Admin principal) then
    existsb (fun m => bool_decide (mb_user_id m = pr_UserID principal) && audit_of (mb_project_id m) a) (project_members t)
    || (bool_decide (au_project_id a = "") && bool_decide (au_actor_id a = pr_UserID principal))
  else true.

Definition ListAuditEvents (principal : Principal) (projectID : string) (limit : Z) : StoreM (list AuditEvent) :=
  if (limit <? 1) || (200 <? limit) then throw (ErrText "audit limit must be between 1 and 200") else
  selection ← (if negb (bool_decide (projectID = "")) then
                 project ← AuthorizeProject principal projectID;
                 mret (fun _ => audit_of (pj_ID project))
               else mret (audit_visible principal));
  query (fun d => map scanAudit (take (Z.to_nat limit)
    (order_by (fun a b => (au_created_at b <? au_created_at a)
                          || ((au_created_at b =? au_created_at a) && (au_id b <=? au_id a)))
      (select (selection (tabs d)) (audit_events (tabs d)))))).
