(* ===== verification/ReadTheorems.v ===== *)
(** * What the reads return

    The pages of [ListJobs] together are the jobs of the project, newest first;
    a page token is bound to its project and to the key; [ListQueue] shows the
    line of the projects a principal may access; the image policies protect
    what the projects use. *)
From stdpp Require Import gmap.
From S2P Require Import Prelude Model GoMonad GoLib Table Schema JobStore GoStrings Encoding Glob Identity IdentitySpec Reads.

(** ** The order of pages *)

Lemma created_before_total a b : created_before a b = true \/ created_before b a = true.
Proof.
  unfold created_before. destruct a as [c1 i1], b as [c2 i2]; simpl.
  destruct (Z.lt_trichotomy c1 c2) as [Hlt|[->|Hlt]].
  - left. apply orb_true_iff. left. by apply Z.ltb_lt.
  - rewrite Z.ltb_irrefl, Z.eqb_refl. simpl. apply String.leb_total.
  - right. apply orb_true_iff. left. by apply Z.ltb_lt.
Qed.

Lemma created_before_spec a b : created_before a b = true <-> a.1 < b.1 \/ (a.1 = b.1 /\ String.leb a.2 b.2 = true).
Proof. unfold created_before. rewrite orb_true_iff, andb_true_iff, Z.ltb_lt, Z.eqb_eq. done. Qed.

Lemma created_before_trans a b c : created_before a b = true -> created_before b c = true -> created_before a c = true.
Proof.
  rewrite !created_before_spec. intros [?|[? H1]] [?|[? H2]]; [left; lia..|]. right. split; [lia|]. by eapply leb_trans.
Qed.

Lemma created_before_antisym a b : created_before a b = true -> created_before b a = true -> a = b.
Proof.
  rewrite !created_before_spec. destruct a as [c1 i1], b as [c2 i2]; simpl. intros [?|[-> H1]] [?|[? H2]]; try lia.
  f_equal. by apply String.leb_antisym.
Qed.

(** The key the jobs of a page are ordered by. *)
Definition page_key (j : JobRow) : Z * string := (jr_created_at j, jr_id j).

Definition newest (l : list JobRow) : Prop := StronglySorted (fun a b => newest_first a b = true) l.

Lemma newest_order l : newest (order_by newest_first l).
Proof.
  apply order_by_sorted; unfold newest_first.
  - intros a b. apply created_before_total.
  - intros a b c H1 H2. by eapply created_before_trans.
Qed.

(** Lists in page order with the same rows are the same list. *)
Lemma newest_unique l l' : NoDup (map jr_id l) -> newest l -> newest l' -> l ≡ₚ l' -> l = l'.
Proof.
  unfold newest. intros Hnd Hs. revert l'. induction Hs as [|x l Hs IH Hx]; intros l' Hs' Hp.
  { apply Permutation_nil in Hp. by subst. }
  destruct Hs' as [|y l' Hs' Hy]; [by apply Permutation_sym, Permutation_nil in Hp|].
  assert (x = y) as ->.
  { assert (H1 : x ∈ y :: l') by (rewrite <- Hp; constructor). assert (H2 : y ∈ x :: l) by (rewrite Hp; constructor).
    apply elem_of_cons in H1 as [->|H1]; [done|]. apply elem_of_cons in H2 as [->|H2]; [done|].
    rewrite Forall_forall in Hx, Hy. specialize (Hx _ H2). specialize (Hy _ H1).
    assert (E : page_key x = page_key y) by (by apply created_before_antisym). injection E as _ E.
    simpl in Hnd. apply NoDup_cons in Hnd as [Hnin _]. exfalso. apply Hnin. rewrite E. apply list_elem_of_In, List.in_map, list_elem_of_In, H2. }
  f_equal. apply IH; [by apply NoDup_cons in Hnd as [_ ?]|done|]. by apply Permutation_cons_inv in Hp.
Qed.

(** The rows past a cursor at [x] are those after [x] in page order. *)
Lemma past_cursor_spec p x j :
  past_cursor (mkCursor p (jr_created_at x) (jr_id x)) j = newest_first x j && negb (bool_decide (jr_id j = jr_id x /\ jr_created_at j = jr_created_at x)).
Proof.
  unfold past_cursor, newest_first, created_before; cbn [jc_CreatedAt jc_ID fst snd].
  destruct (Z.ltb_spec (jr_created_at j) (jr_created_at x)) as [Hlt|Hge]; simpl.
  { rewrite bool_decide_eq_false_2; [done|lia]. }
  destruct (Z.eqb_spec (jr_created_at j) (jr_created_at x)) as [E|Hne]; simpl; [|done].
  unfold String.leb. destruct (String.compare (jr_id j) (jr_id x)) eqn:Ec.
  - apply String.compare_eq_iff in Ec. rewrite (bool_decide_eq_true_2 (_ /\ _)) by done. by rewrite bool_decide_eq_false_2.
  - rewrite (bool_decide_eq_false_2 (_ /\ _)); [by rewrite bool_decide_eq_true_2|].
    intros [E' _]. pose proof (String.compare_antisym (jr_id x) (jr_id x)) as Ha. by rewrite E' in Ec; rewrite Ec in Ha.
  - by rewrite bool_decide_eq_false_2.
Qed.

(** Selecting past the last row of a page leaves the rest of the list. *)
Lemma rows_past rows p pre x post :
  NoDup (map jr_id rows) -> order_by newest_first rows = pre ++ x :: post ->
  order_by newest_first (select (past_cursor (mkCursor p (jr_created_at x) (jr_id x))) rows) = post.
Proof.
  intros Hnd E. pose proof (newest_order rows) as Hs. rewrite E in Hs. unfold newest in Hs.
  assert (Hp : rows ≡ₚ pre ++ x :: post) by (rewrite <- E; symmetry; apply order_by_perm).
  assert (Hnd' : NoDup (map jr_id (pre ++ x :: post))) by (by rewrite <- Hp).
  rewrite map_app, map_cons in Hnd'. apply NoDup_app in Hnd' as (_ & Hd & Hn). apply NoDup_cons in Hn as [Hx Hn].
  apply StronglySorted_app in Hs as (Hpre & _ & Hpost). apply StronglySorted_inv in Hpost as [Hpost Hafter].
  assert (Hsel : select (past_cursor (mkCursor p (jr_created_at x) (jr_id x))) (pre ++ x :: post) = post).
  { rewrite select_app. cbn [select List.filter]. rewrite past_cursor_spec, (bool_decide_eq_true_2 (_ /\ _)), andb_false_r by done.
    fold (select (past_cursor (mkCursor p (jr_created_at x) (jr_id x))) post).
    assert (Epre : select (past_cursor (mkCursor p (jr_created_at x) (jr_id x))) pre = []).
    { unfold select. rewrite (List.filter_ext_in _ (fun _ => false)), List.filter_false; [done|].
      intros j Hj. apply list_elem_of_In in Hj. rewrite past_cursor_spec. apply not_true_is_false. intros H. split_bools.
      assert (Hne : ~ (jr_id j = jr_id x /\ jr_created_at j = jr_created_at x)) by done. apply Hne.
      assert (Ek : page_key x = page_key j).
      { apply created_before_antisym; [|done]. apply (Hpre j x); [done|constructor]. }
      by injection Ek as -> ->. }
    rewrite Epre. simpl. rewrite <- (List.filter_true post) at 2. apply List.filter_ext_in. intros j Hj. apply list_elem_of_In in Hj.
    rewrite past_cursor_spec. rewrite Forall_forall in Hafter. rewrite (Hafter j Hj). simpl.
    rewrite bool_decide_eq_false_2; [done|]. intros [Ej _]. apply Hx. rewrite <- Ej. by apply list_elem_of_In, List.in_map, list_elem_of_In. }
  symmetry. apply newest_unique; [done|done|apply newest_order|].
  rewrite order_by_perm. rewrite <- Hsel at 1. symmetry. by apply select_perm.
Qed.

(** ** Page tokens *)

Section Pages.
Context `{CursorCodec}.

Lemma cursor_value_bytes l : Forall is_byte l -> Forall is_byte (l ++ hmac_Sum l).
Proof. intros Hl. apply Forall_app. split; [done|]. apply hmac_size. Qed.

(** A token that [encodeJobCursor] made decodes to its cursor, in its project. *)
Lemma cursor_round_trip projectID projectID' job :
  ascii_only projectID = true -> ascii_only (jb_ID job) = true -> jb_ID job <> "" -> 0 < jb_CreatedAt job < 2 ^ 63 ->
  decodeJobCursor projectID' (encodeJobCursor projectID job) =
    if bool_decide (projectID = projectID') then Some (mkCursor projectID (jb_CreatedAt job) (jb_ID job)) else None.
Proof.
  intros Hp Hi Hne Hc. unfold encodeJobCursor, decodeJobCursor, unix. rewrite (wrap64_id (jb_CreatedAt job)) by lia.
  set (c := mkCursor projectID (jb_CreatedAt job) (jb_ID job)). destruct (json_bytes c) as [Hnil Hb].
  rewrite base64_round_trip by (by apply cursor_value_bytes). cbn [mbind option_bind].
  destruct (hmac_size (json_Marshal c)) as [Hlen _]. rewrite length_app, Hlen.
  replace (length (json_Marshal c) + sha256_Size - sha256_Size)%nat with (length (json_Marshal c)) by lia.
  rewrite take_app_length, drop_app_length, (bool_decide_eq_true_2 (hmac_Sum _ = _)) by done.
  destruct (Nat.leb_spec (length (json_Marshal c) + sha256_Size) sha256_Size) as [Hle|_].
  { exfalso. apply Hnil, nil_length_inv. lia. }
  simpl. rewrite json_round_trip by done. simpl. rewrite (proj2 (Z.leb_gt _ _)), (bool_decide_eq_false_2 (jb_ID job = "")) by (done || lia).
  rewrite !orb_false_r. by case_bool_decide.
Qed.

Lemma encode_nonempty projectID job : encodeJobCursor projectID job <> "".
Proof.
  unfold encodeJobCursor. apply base64url_nonnil. intros E. apply app_eq_nil in E as [E _]. by destruct (json_bytes (mkCursor projectID (unix (jb_CreatedAt job)) (jb_ID job))).
Qed.

(** ** Walking the pages *)

(** A client that follows [NextPageToken] until it is empty. *)
Fixpoint all_pages (fuel : nat) (projectID : string) (pageSize : Z) (pageToken : string) : StoreM (list (list Job)) :=
  match fuel with
  | O => throw (ErrText "more pages")
  | S fuel' =>
      page ← ListJobs projectID pageSize pageToken;
      if bool_decide (jp_NextPageToken page = "") then mret [jp_Jobs page]
      else more ← all_pages fuel' projectID pageSize (jp_NextPageToken page); mret (jp_Jobs page :: more)
  end.

(** Job rows as the store writes them, after 1970. *)
Definition job_row_ok (j : JobRow) : Prop := jr_id j <> "" /\ ascii_only (jr_id j) = true /\ 0 < jr_created_at j < 2 ^ 63.

(** The token that continues after the rows [pre]. *)
Definition token_after (projectID : string) (pre : list JobRow) : string :=
  match last pre with None => "" | Some x => encodeJobCursor projectID (scanJob x) end.

Context (o : Oracle) (d : Database) (projectID : string) (pageSize : Z).
Context (Hproject : ascii_only projectID = true) (Hsize : 1 <= pageSize <= 100)
        (Hid : NoDup (map jr_id (project_jobs projectID (tabs d)))) (Hrows : Forall job_row_ok (project_jobs projectID (tabs d))).
#[local] Abbreviation listing := (order_by newest_first (project_jobs projectID (tabs d))).

Lemma listed_ok x : x ∈ listing -> job_row_ok x.
Proof using Hrows. intros Hx. rewrite order_by_perm in Hx. rewrite Forall_forall in Hrows. by apply Hrows. Qed.

(** One page: the next rows of the listing, and a token unless they are its end. *)
Lemma ListJobs_page pre post :
  listing = pre ++ post ->
  wp o (ListJobs projectID pageSize (token_after projectID pre))
    (fun page d' => d' = d /\ jp_Jobs page = map scanJob (take (Z.to_nat pageSize) post) /\
       jp_NextPageToken page = if pageSize <? Z.of_nat (length post)
                               then token_after projectID (pre ++ take (Z.to_nat pageSize) post) else "")
    (fun e d' => d' = d /\ exists s, fails o s /\ e = ErrDriver s) d.
Proof using Hproject Hsize Hid Hrows.
  intros E. unfold ListJobs. rewrite (proj2 (Z.ltb_ge pageSize 1)), (proj2 (Z.ltb_ge 100 pageSize)) by lia. cbn [orb].
  assert (Hsel : exists cursor,
    (if bool_decide (token_after projectID pre = "") then mret None else
       match decodeJobCursor projectID (token_after projectID pre) with
       | None => throw ErrInvalidPageToken
       | Some c => mret (Some c)
       end : StoreM (option jobCursor)) = mret cursor /\
    order_by newest_first (select (fun j => match cursor with None => true | Some c => past_cursor c j end)
                             (project_jobs projectID (tabs d))) = post).
  { unfold token_after. destruct (last pre) as [x|] eqn:El.
    - apply last_Some in El as [pre' ->]. rewrite <- (assoc_L (++)) in E. simpl in E.
      destruct (listed_ok x) as (Hne & Ha & Hc); [rewrite E; set_solver|].
      rewrite bool_decide_eq_false_2 by apply encode_nonempty.
      rewrite cursor_round_trip by done. rewrite bool_decide_eq_true_2 by done.
      eexists. split; [reflexivity|]. by apply (rows_past _ _ pre').
    - apply last_None in El as ->. exists None. split; [by rewrite bool_decide_eq_true_2|]. simpl in E. rewrite <- E. f_equal.
      unfold select. apply List.filter_true. }
  destruct Hsel as (cursor & -> & Hsel). wp_step. apply wp_ret. wp_step. apply wp_query; [|intros s Hs; split; [done|by exists s]].
  rewrite Hsel, length_map, length_take. 
  assert (Hiff : (pageSize <? Z.of_nat (Nat.min (Z.to_nat (pageSize + 1)) (length post))) = (pageSize <? Z.of_nat (length post))).
  { apply eq_true_iff_eq. rewrite !Z.ltb_lt. lia. }
  rewrite Hiff. destruct (Z.ltb_spec pageSize (Z.of_nat (length post))) as [Hlt|Hge].
  - rewrite firstn_map, take_take. replace (Z.to_nat pageSize `min` Z.to_nat (pageSize + 1))%nat with (Z.to_nat pageSize) by lia.
    change (last (map scanJob (take (Z.to_nat pageSize) post))) with (last (scanJob <$> take (Z.to_nat pageSize) post)).
    unfold token_after. rewrite last_app, fmap_last. destruct (last (take (Z.to_nat pageSize) post)) as [x|] eqn:El.
    + by apply wp_ret.
    + apply last_None, (f_equal length) in El. rewrite length_take in El. simpl in El. lia.
  - apply wp_ret. cbn [jp_Jobs jp_NextPageToken]. rewrite !take_ge by lia. done.
Qed.

(** A walk from a point of the listing returns the rest of it. *)
Lemma all_pages_rest fuel pre post :
  reliable o -> listing = pre ++ post -> (length post < fuel)%nat ->
  wp o (all_pages fuel projectID pageSize (token_after projectID pre))
    (fun pages d' => d' = d /\ List.concat pages = map scanJob post /\
       Forall (fun page => Z.of_nat (length page) <= pageSize) pages) (fun _ _ => False) d.
Proof using Hproject Hsize Hid Hrows.
  intros Ho. revert pre post. induction fuel as [|fuel IH]; intros pre post E Hf; [lia|]. cbn [all_pages]. wp_step.
  eapply wp_mono; [by apply ListJobs_page| |].
  2:{ intros e d' (_ & s & Hs & _). by eapply reliable_fails. }
  intros page d' (-> & Ej & Et). rewrite Et.
  assert (Hl : Z.of_nat (length (jp_Jobs page)) <= pageSize) by (rewrite Ej, length_map, length_take; lia).
  destruct (Z.ltb_spec pageSize (Z.of_nat (length post))) as [Hlt|Hge].
  - rewrite bool_decide_eq_false_2.
    2:{ unfold token_after. rewrite last_app. destruct (last (take (Z.to_nat pageSize) post)) as [x|] eqn:El; [apply encode_nonempty|].
        apply last_None, (f_equal length) in El. rewrite length_take in El. simpl in El. lia. }
    wp_step. eapply wp_mono; [apply (IH _ (drop (Z.to_nat pageSize) post))| |done].
    + rewrite <- (assoc_L (++)), take_drop. done.
    + rewrite length_drop. lia.
    + intros pages d' (-> & Ec & Hp). apply wp_ret. split; [done|]. split; [|by constructor].
      cbn [List.concat]. rewrite Ec, Ej, <- map_app, take_drop. done.
  - rewrite bool_decide_eq_true_2 by done. apply wp_ret. split; [done|]. split; [|by repeat constructor].
    cbn [List.concat]. rewrite app_nil_r, Ej, take_ge by lia. done.
Qed.

End Pages.

Lemma NoDup_map_select {R K} (key : R -> K) (p : R -> bool) rows : NoDup (map key rows) -> NoDup (map key (select p rows)).
Proof.
  unfold select. induction rows as [|r rows IH]; simpl; [done|]. intros Hnd. apply NoDup_cons in Hnd as [Hr Hnd].
  destruct (p r); [|by apply IH]. simpl. constructor; [|by apply IH]. intros Hin. apply Hr.
  apply list_elem_of_In, List.in_map_iff in Hin as (x & <- & Hx). apply List.filter_In in Hx as [Hx _].
  apply list_elem_of_In. by apply List.in_map.
Qed.

(** C27: the pages of a project's jobs miss nothing and repeat nothing.  A client
    that starts without a token and follows [NextPageToken] stops after at most
    one page more than there are jobs; no call fails; every page is within the
    page size; and the pages together are every job of the project exactly
    once, by decreasing creation time and identifier. *)
Theorem pages_cover_jobs `{CursorCodec} o d projectID pageSize :
  reliable o -> ascii_only projectID = true -> 1 <= pageSize <= 100 ->
  NoDup (map jr_id (control_jobs (tabs d))) -> Forall job_row_ok (project_jobs projectID (tabs d)) ->
  wp o (all_pages (S (length (project_jobs projectID (tabs d)))) projectID pageSize "")
    (fun pages d' => d' = d /\ Forall (fun page => Z.of_nat (length page) <= pageSize) pages /\
       exists rows, List.concat pages = map scanJob rows /\ rows ≡ₚ project_jobs projectID (tabs d) /\ newest rows)
    (fun _ _ => False) d.
Proof.
  intros Ho Hp Hs Hid Hrows. eapply wp_mono; [apply (all_pages_rest o d projectID pageSize Hp Hs) with (pre := [])
    (post := order_by newest_first (project_jobs projectID (tabs d)))| |done].
  - by apply NoDup_map_select.
  - done.
  - done.
  - reflexivity.
  - by rewrite order_by_perm; lia.
  - intros pages d' (-> & Ec & Hf). split; [done|]. split; [done|]. eexists. split; [exact Ec|].
    split; [apply order_by_perm|apply newest_order].
Qed.

(** A page token is bound to its project and to the key.  The token of a
    listed job resumes after that job in its own project and is refused in any
    other; and whatever token is accepted carries the MAC of its payload, and
    the project it is presented for. *)
Lemma page_token_is_bound `{CursorCodec} projectID projectID' job token c :
  ascii_only projectID = true -> ascii_only (jb_ID job) = true -> jb_ID job <> "" -> 0 < jb_CreatedAt job < 2 ^ 63 ->
  (decodeJobCursor projectID' (encodeJobCursor projectID job) =
     if bool_decide (projectID = projectID') then Some (mkCursor projectID (jb_CreatedAt job) (jb_ID job)) else None) /\
  (decodeJobCursor projectID' token = Some c -> jc_ProjectID c = projectID' /\
     exists payload, base64url_decode token = Some (payload ++ hmac_Sum payload) /\ json_Unmarshal payload = Some c).
Proof.
  intros H1 H2 H3 H4. split; [by apply cursor_round_trip|]. unfold decodeJobCursor.
  destruct (base64url_decode token) as [value|]; [|discriminate]. cbn [mbind option_bind].
  destruct (_ <=? _)%nat; [discriminate|]. set (k := (length value - sha256_Size)%nat).
  case_bool_decide as Em; cbn [negb]; [|discriminate].
  destruct (json_Unmarshal (take k value)) as [c'|] eqn:Eu; [|discriminate]. cbn [mbind option_bind].
  case_bool_decide as Ep; cbn [negb orb]; [|discriminate].
  destruct (_ || _); [discriminate|]. intros [= ->]. split; [done|]. exists (take k value).
  split; [|done]. by rewrite <- Em, take_drop.
Qed.

(** *** A codec for the examples *)

Fixpoint pos_bits (p : positive) : list Z :=
  match p with xH => [] | xO p => 0 :: pos_bits p | xI p => 1 :: pos_bits p end.
Fixpoint bits_pos (l : list Z) : positive :=
  match l with [] => xH | b :: rest => if b =? 0 then xO (bits_pos rest) else xI (bits_pos rest) end.

Lemma bits_pos_bits p : bits_pos (pos_bits p) = p.
Proof. induction p as [p IH|p IH|]; simpl; [by rewrite IH..|done]. Qed.

Lemma pos_bits_bytes p : Forall is_byte (pos_bits p).
Proof. induction p; simpl; constructor; unfold is_byte; (lia || done). Qed.

Definition demo_marshal (c : jobCursor) : list Z := 1 :: pos_bits (encode (jc_ProjectID c, jc_CreatedAt c, jc_ID c)).
Definition demo_unmarshal (l : list Z) : option jobCursor :=
  match l with
  | [] => None
  | _ :: bits => (fun '(p, t, i) => mkCursor p t i) <$> (decode (bits_pos bits) : option (string * Z * string))
  end.

#[local] Program Instance demo_codec : CursorCodec :=
  {| json_Marshal := demo_marshal; json_Unmarshal := demo_unmarshal; hmac_Sum := fun l => repeat (Z.of_nat (length l) mod 256) 32 |}.
Next Obligation. intros [p t i] _ _. unfold demo_unmarshal, demo_marshal. by rewrite bits_pos_bits, decode_encode. Qed.
Next Obligation. intros c. split; [done|]. constructor; [unfold is_byte; lia|apply pos_bits_bytes]. Qed.
Next Obligation.
  intros l. split; [by rewrite repeat_length|]. apply Forall_forall. intros x Hx%list_elem_of_In%repeat_spec. subst x.
  apply Z.mod_pos_bound. lia.
Qed.

Definition demo_row (id : string) (created : Z) : JobRow :=
  mkJobRow id "prj1" "" ["true"] "" [] [] [] 0 "" "" created id "" "" StatusQueued None None None "" false "".
Definition pages_db : Database :=
  mkDB (set_control_jobs [demo_row "job1" 10; demo_row "job2" 30; demo_row "job3" 20; demo_row "job4" 20] empty_tables) (mkFeed [] 0).
Definition pages_oracle : Oracle := mkOracle (fun _ => 0) (fun _ => 0) (fun _ => None).

Lemma pages_cover_jobs_witness :
  wp pages_oracle (all_pages 5 "prj1" 3 "") (fun pages _ => length (List.concat pages) = 4%nat) (fun _ _ => False) pages_db /\
  (all_pages 5 "prj1" 3 "" pages_oracle (pages_db, 0%nat)).1 =
    Ok [map scanJob [demo_row "job2" 30; demo_row "job4" 20; demo_row "job3" 20]; [scanJob (demo_row "job1" 10)]].
Proof.
  split; [|vm_compute; reflexivity].
  eapply wp_mono; [apply (pages_cover_jobs pages_oracle pages_db "prj1" 3)| |done]; try done.
  - change (NoDup ["job1"; "job2"; "job3"; "job4"]). apply (bool_decide_unpack _). vm_compute. exact I.
  - repeat constructor; done.
  - intros pages d' (_ & _ & rows & -> & Hp & _). rewrite length_map, Hp. reflexivity.
Defined.

(** ** Image policies *)

(** The project runs, or may roll back to, the image. *)
Definition keeps_image (r : string) (p : Project) : bool := bool_decide (pj_ActiveImage p = r) || bool_decide (pj_PreviousImage p = r).

Lemma protect_lookup r x m : protect x m !! r =
  if bool_decide (x = r) && negb (bool_decide (r = "")) then Some (mkPolicy r true (ip_LastUsedAt (default zero_policy (m !! r)))) else m !! r.
Proof.
  unfold protect. case_bool_decide as E0; case_bool_decide as E; subst; simpl; try done.
  - rewrite bool_decide_eq_false_2 by done. by rewrite lookup_insert_eq.
  - by rewrite lookup_insert_ne.
Qed.

Lemma project_policies_lookup ps r : project_policies ps !! r =
  if existsb (keeps_image r) ps && negb (bool_decide (r = "")) then Some (mkPolicy r true zero_time) else None.
Proof.
  unfold project_policies. induction ps as [|p ps IH] using rev_ind; [done|].
  rewrite fold_left_app, existsb_app. cbn [fold_left existsb]. rewrite orb_false_r, !protect_lookup, IH.
  assert (Ek : keeps_image r p = bool_decide (pj_ActiveImage p = r) || bool_decide (pj_PreviousImage p = r)) by done. rewrite Ek.
  destruct (existsb (keeps_image r) ps), (bool_decide (r = "")), (bool_decide (pj_ActiveImage p = r)), (bool_decide (pj_PreviousImage p = r));
    reflexivity.
Qed.

Lemma record_uses_lookup used m r :
  NoDup (map fst used) ->
  (forall t, (r, t) ∈ used -> fold_left (fun policies u => record_use u policies) used m !! r =
     Some (mkPolicy r (ip_Protected (default zero_policy (m !! r))) t)) /\
  (r ∉ map fst used -> fold_left (fun policies u => record_use u policies) used m !! r = m !! r).
Proof.
  revert m. induction used as [|[x s] used IH]; intros m Hnd.
  { split; [intros t Ht; by apply elem_of_nil in Ht|done]. }
  cbn [fold_left map fst] in *. apply NoDup_cons in Hnd as [Hx Hnd]. destruct (IH (record_use (x, s) m) Hnd) as [IH1 IH2].
  unfold record_use in IH1, IH2 |- *. cbn [fst snd] in *. split.
  - intros t Ht. apply elem_of_cons in Ht as [[= -> ->]|Ht].
    + by rewrite IH2, lookup_insert_eq.
    + rewrite (IH1 t Ht), lookup_insert_ne; [done|]. intros ->. apply Hx.
      change r with (fst (r, t)). apply list_elem_of_In, List.in_map, list_elem_of_In, Ht.
  - intros Hr. apply not_elem_of_cons in Hr as [Hne Hr]. by rewrite (IH2 Hr), lookup_insert_ne.
Qed.

Lemma fold_max_ge base times t : t ∈ times -> t <= fold_right Z.max base times.
Proof. induction 1 as [t times|t x times _ IH]; simpl; lia. Qed.

Lemma fold_max_in times base : times <> [] -> base ∈ times -> fold_right Z.max base times ∈ times.
Proof.
  intros _ Hb. assert (H : fold_right Z.max base times = base \/ fold_right Z.max base times ∈ times).
  { clear Hb. induction times as [|t times [IH|IH]]; simpl; [by left| |]; destruct (Z.max_spec t (fold_right Z.max base times)) as [[_ E]|[_ E]];
      rewrite E; auto using list_elem_of_here, list_elem_of_further. }
  by destruct H as [->|H].
Qed.

(** [MAX(created_at)] of the jobs with the image. *)
Lemma last_created_max image jobs :
  (exists j, j ∈ jobs /\ jr_image j = image) ->
  (exists j, j ∈ jobs /\ jr_image j = image /\ last_created image jobs = jr_created_at j) /\
  (forall j, j ∈ jobs -> jr_image j = image -> jr_created_at j <= last_created image jobs).
Proof.
  intros (j0 & Hj0 & E0). unfold last_created. set (sel := select _ jobs).
  assert (Hsel : forall j, j ∈ sel <-> j ∈ jobs /\ jr_image j = image).
  { intros j. unfold sel. rewrite elem_of_select, bool_decide_eq_true. done. }
  assert (Hin : forall j, j ∈ sel -> jr_created_at j ∈ map jr_created_at sel).
  { intros j Hj. by apply list_elem_of_In, List.in_map, list_elem_of_In. }
  split.
  - assert (Hb : fold_right Z.max (hd 0 (map jr_created_at sel)) (map jr_created_at sel) ∈ map jr_created_at sel).
    { assert (H0 : j0 ∈ sel) by (by apply Hsel). destruct sel as [|x l]; [by apply elem_of_nil in H0|]. apply fold_max_in; [done|]. constructor. }
    apply list_elem_of_In, List.in_map_iff in Hb as (j & Ej & Hj). apply list_elem_of_In, Hsel in Hj as [Hj Ei]. exists j. by rewrite Ej.
  - intros j Hj Ei. apply fold_max_ge, Hin. by apply Hsel.
Qed.

Lemma images_used_elem jobs r t :
  (r, t) ∈ images_used jobs <-> r <> "" /\ (exists j, j ∈ jobs /\ jr_image j = r) /\ t = last_created r jobs.
Proof.
  unfold images_used. rewrite list_elem_of_In, List.in_map_iff. setoid_rewrite <- list_elem_of_In. split.
  - intros (x & [= <- <-] & Hx). rewrite elem_of_remove_dups in Hx. apply list_elem_of_In, List.in_map_iff in Hx as (j & <- & Hj).
    apply list_elem_of_In, elem_of_select in Hj as [Hj Hn]. split_bools. split; [done|]. split; [by exists j|done].
  - intros (Hne & (j & Hj & <-) & ->). exists (jr_image j). split; [done|]. rewrite elem_of_remove_dups.
    apply list_elem_of_In, List.in_map, list_elem_of_In, elem_of_select. split; [done|]. by rewrite bool_decide_eq_false_2.
Qed.

Lemma images_used_keys jobs : NoDup (map fst (images_used jobs)).
Proof. unfold images_used. rewrite List.map_map. simpl. rewrite List.map_id. apply NoDup_remove_dups. Qed.

(** What the policy of an image says. *)
Definition policy_of (ps : list Project) (jobs : list JobRow) (r : string) : option ImagePolicy :=
  let used := existsb (fun j => bool_decide (jr_image j = r)) jobs in
  let kept := existsb (keeps_image r) ps in
  if bool_decide (r = "") || negb (used || kept) then None
  else Some (mkPolicy r kept (if used then last_created r jobs else zero_time)).

Lemma images_used_key jobs r :
  r ∈ map fst (images_used jobs) -> r <> "" /\ existsb (fun j => bool_decide (jr_image j = r)) jobs = true.
Proof.
  intros Hin. apply list_elem_of_In, List.in_map_iff in Hin as ([x t] & Ex & Hx). simpl in Ex. subst x.
  apply list_elem_of_In, images_used_elem in Hx as (Hne & (j & Hj & Ej) & _). split; [done|].
  apply existsb_exists. exists j. split; [by apply list_elem_of_In|by apply bool_decide_eq_true].
Qed.

Lemma image_policies_lookup ps jobs r : image_policies ps jobs !! r = policy_of ps jobs r.
Proof.
  unfold image_policies, policy_of. destruct (record_uses_lookup (images_used jobs) (project_policies ps) r (images_used_keys jobs)) as [H1 H2].
  case_bool_decide as E0; cbn [orb].
  - rewrite H2; [|by intros [? _]%images_used_key]. by rewrite project_policies_lookup, bool_decide_eq_true_2, andb_false_r.
  - destruct (existsb (fun j => bool_decide (jr_image j = r)) jobs) eqn:Eu; cbn [orb negb].
    + apply existsb_exists in Eu as (j & Hj & Ej). apply bool_decide_eq_true in Ej. rewrite (H1 (last_created r jobs)).
      * rewrite project_policies_lookup, (bool_decide_eq_false_2 (r = "")) by done. simpl. rewrite andb_true_r.
        by destruct (existsb (keeps_image r) ps).
      * apply images_used_elem. split; [done|]. split; [|done]. exists j. split; [by apply list_elem_of_In|done].
    + rewrite H2 by (intros [_ ?]%images_used_key; congruence).
      rewrite project_policies_lookup, bool_decide_eq_false_2 by done. rewrite andb_true_r. by destruct (existsb _ ps).
Qed.

Lemma rows_unchecked_reliable {A} o (rows : list A) (Q : list A -> Database -> Prop) E d :
  reliable o -> Q rows d -> wp o (rows_unchecked rows) Q E d.
Proof.
  intros Ho. revert Q. induction rows as [|r rows IH]; intros Q HQ; cbn [rows_unchecked]; [by apply wp_ret|].
  wp_step. apply wp_attempt, wp_may_fail; [|intros s Hs; exfalso; by eapply reliable_fails].
  wp_step. apply IH. by apply wp_ret.
Qed.

Lemma policies_listed ps jobs pol :
  pol ∈ map snd (map_to_list (image_policies ps jobs)) <-> policy_of ps jobs (ip_Reference pol) = Some pol.
Proof.
  rewrite list_elem_of_In, List.in_map_iff. setoid_rewrite <- list_elem_of_In. split.
  - intros ([r x] & Ex & Hx). simpl in Ex. subst x. apply elem_of_map_to_list in Hx. rewrite image_policies_lookup in Hx.
    assert (ip_Reference pol = r) as -> by (unfold policy_of in Hx; destruct (_ || _); by simplify_eq/=). done.
  - intros Hp. exists (ip_Reference pol, pol). split; [done|]. apply elem_of_map_to_list. by rewrite image_policies_lookup.
Qed.

Lemma policies_refs ps jobs : map ip_Reference (map snd (map_to_list (image_policies ps jobs))) = map fst (map_to_list (image_policies ps jobs)).
Proof.
  rewrite List.map_map. apply List.map_ext_in. intros [r x] Hx. apply list_elem_of_In, elem_of_map_to_list in Hx.
  rewrite image_policies_lookup in Hx. unfold policy_of in Hx. destruct (_ || _); by simplify_eq/=.
Qed.

Lemma image_policies_read o d :
  reliable o ->
  wp o CapacityImagePolicies
    (fun policies d' => d' = d /\ NoDup (map ip_Reference policies) /\
       forall pol, pol ∈ policies <-> policy_of (projects (tabs d)) (control_jobs (tabs d)) (ip_Reference pol) = Some pol)
    (fun _ _ => False) d.
Proof.
  intros Ho. unfold CapacityImagePolicies. wp_step. apply wp_query; [|intros s Hs; by eapply reliable_fails].
  wp_step. apply rows_unchecked_reliable; [done|]. wp_step. apply wp_query; [|intros s Hs; by eapply reliable_fails].
  apply wp_ret. split; [done|]. split.
  - rewrite order_by_perm, policies_refs. apply NoDup_fst_map_to_list.
  - intros pol. rewrite order_by_perm. apply policies_listed.
Qed.

(** The list is in order of reference, whatever the reads deliver. *)
Lemma image_policies_sorted o d :
  wp o CapacityImagePolicies
    (fun policies _ => StronglySorted (fun a b => String.leb (ip_Reference a) (ip_Reference b) = true) policies) (fun _ _ => True) d.
Proof.
  intros n. unfold CapacityImagePolicies, mbind, M_bind.
  repeat (case_match; simplify_eq; try done).
  match goal with Hm : mret _ _ _ = _ |- _ => injection Hm as <- _ end. apply order_by_sorted; intros; [apply String.leb_total|by eapply leb_trans].
Qed.

(** The image policies say what the projects and jobs use.  When no read
    fails, [CapacityImagePolicies] returns one policy per image that a project
    names or a job used, in order of reference: protected exactly when some
    project has it as active or previous image, last used when its newest job
    was created. *)
Lemma image_policies_exact o d :
  reliable o ->
  wp o CapacityImagePolicies
    (fun policies d' => d' = d /\ NoDup (map ip_Reference policies) /\
       StronglySorted (fun a b => String.leb (ip_Reference a) (ip_Reference b) = true) policies /\
       forall pol, pol ∈ policies <-> policy_of (projects (tabs d)) (control_jobs (tabs d)) (ip_Reference pol) = Some pol)
    (fun _ _ => False) d.
Proof.
  intros Ho. eapply wp_mono; [apply wp_and; [by apply image_policies_read|apply image_policies_sorted]| |by intros e d' [[] _]].
  by intros policies d' [(-> & Hnd & Hpol) Hs].
Qed.

Definition policies_db : Database :=
  mkDB (set_projects [mkProject "prj1" "one" "One" "img:2" "img:1" false 0]
         (set_control_jobs [mkJobRow "job1" "prj1" "img:2" ["true"] "" [] [] [] 0 "" "" 10 "" "" "" StatusQueued None None None "" false ""]
            empty_tables)) (mkFeed [] 0).

Lemma image_policies_exact_witness :
  wp pages_oracle CapacityImagePolicies
    (fun policies _ => mkPolicy "img:2" true 10 ∈ policies /\ mkPolicy "img:1" true zero_time ∈ policies) (fun _ _ => False) policies_db.
Proof.
  eapply wp_mono; [apply (image_policies_exact pages_oracle policies_db); done| |done].
  intros policies d' (_ & _ & _ & Hp). split; apply Hp; vm_compute; reflexivity.
Defined.

(** A failed read silently drops the protection.  The loop over the
    projects does not check [rows.Err]: when the driver fails to deliver the
    project row, [CapacityImagePolicies] still succeeds, without the rollback
    image and with the active image unprotected. *)
Lemma image_protection_lost :
  (CapacityImagePolicies (mkOracle (fun _ => 0) (fun _ => 0) (fun n => if Nat.eqb n 1 then Some "disk I/O error" else None))
     (policies_db, 0%nat)).1 = Ok [mkPolicy "img:2" false 10].
Proof. vm_compute. reflexivity. Qed.

(** ** The queue listing *)

(** The projects a principal may access: its own, for a principal bound to a
    project; every project, for an administrator; those it is a member of. *)
Definition may_access (principal : Principal) (t : Tables) (p : Project) : bool :=
  if negb (bool_decide (pr_ProjectID principal = "")) then bool_decide (pr_ProjectID principal = pj_ID p)
  else negb (bool_decide (pr_UserID principal = "")) &&
    (pr_Admin principal || existsb (fun m => bool_decide (mb_project_id m = pj_ID p) && bool_decide (mb_user_id m = pr_UserID principal)) (project_members t)).

Lemma ListProjects_spec o principal d :
  wp o (ListProjects principal)
    (fun ps d' => d' = d /\ forall p, p ∈ ps <-> p ∈ projects (tabs d) /\ may_access principal (tabs d) p = true)
    (fun _ d' => d' = d) d.
Proof.
  unfold ListProjects, may_access. case_bool_decide as Ep; cbn [negb].
  - case_bool_decide as Eu; cbn [negb andb]; [by apply wp_throw|].
    destruct (pr_Admin principal); (apply wp_query; [|done]); (split; [done|]); intros p; rewrite order_by_perm; cbn [orb]; [tauto|].
    rewrite list_elem_of_bind. split.
    + intros (q & Hp & Hq). apply list_elem_of_bind in Hp as (m & Hp & Hm). apply list_elem_of_singleton in Hp as ->.
      split; [done|]. apply elem_of_select in Hm as [Hm Hc]. apply existsb_exists. exists m. split; [by apply list_elem_of_In|done].
    + intros [Hp Hm]. exists p. split; [|done]. apply existsb_exists in Hm as (m & Hm & Hc). apply list_elem_of_bind. exists m.
      split; [by constructor|]. apply elem_of_select. split; [by apply list_elem_of_In|done].
  - apply wp_query; [|done]. split; [done|]. intros p. rewrite order_by_perm, elem_of_select, !bool_decide_eq_true. naive_solver.
Qed.

(** The operations of a listing: in the line or on the worker, of a project the
    principal may access. *)
Definition listed (principal : Principal) (t : Tables) (r : QueueRow) : Prop :=
  r ∈ control_queue t /\ q_state r <> OperationReleased /\ queue_project t r <> "" /\
  exists p, p ∈ projects t /\ pj_ID p = queue_project t r /\ may_access principal t p = true.

Lemma select_map {A B} (p : B -> bool) (f : A -> B) l : select p (map f l) = map f (select (fun x => p (f x)) l).
Proof. unfold select. apply filter_map_swap. Qed.

Lemma select_sorted {R} (le : R -> R -> Prop) (p : R -> bool) l : StronglySorted le l -> StronglySorted le (select p l).
Proof.
  unfold select. induction 1 as [|x l Hs IH Hx]; simpl; [constructor|]. destruct (p x); [|done]. constructor; [done|].
  rewrite Forall_forall in Hx |- *. intros y Hy. apply Hx. by apply elem_of_select in Hy as [? _].
Qed.

Lemma StronglySorted_weaken {R} (P Q : R -> R -> Prop) l : (forall a b, P a b -> Q a b) -> StronglySorted P l -> StronglySorted Q l.
Proof. intros HPQ. induction 1 as [|x l _ IH Hx]; constructor; [done|]. eapply Forall_impl; [exact Hx|auto]. Qed.

(** [AuthorizeProject] grants the projects a principal may access. *)
Lemma AuthorizeProject_spec o principal selector d :
  wp o (AuthorizeProject principal selector)
    (fun p d' => d' = d /\ find_project selector d = Some p /\ may_access principal (tabs d) p = true)
    (fun e d' => d' = d /\ ((exists s, fails o s) \/ (e = ErrNotFound /\ find_project selector d = None) \/
       (e = ErrForbidden /\ exists p, find_project selector d = Some p /\ may_access principal (tabs d) p = false))) d.
Proof.
  unfold AuthorizeProject, getProject. wp_step.
  apply wp_or_not_found; [|intros s Hs; split; [done|left; by exists s]].
  destruct (find_project selector d) as [p|]; [|by auto].
  assert (Ha : forall b, may_access principal (tabs d) p = b -> if b then may_access principal (tabs d) p = true else
    d = d /\ ((exists s, fails o s) \/ (ErrForbidden = ErrNotFound /\ Some p = None) \/
      (ErrForbidden = ErrForbidden /\ exists q, Some p = Some q /\ may_access principal (tabs d) q = false))).
  { intros [] E; [done|]. split; [done|]. right; right. eauto. }
  unfold may_access at 1 in Ha. case_bool_decide as Ep; cbn [negb] in *.
  - case_bool_decide as Eu; cbn [negb andb] in *; [apply wp_throw; by apply (Ha false)|].
    destruct (pr_Admin principal); cbn [orb] in *; [apply wp_ret; by split; [|split; [|apply (Ha true)]]|].
    wp_step. apply wp_or_error, wp_query_row; [|intros s Hs; split; [done|left; by exists s]].
    destruct (head _) as [m|] eqn:Eh; [apply wp_ret; split; [done|split; [done|]]; apply (Ha true)|apply (Ha false)].
    + apply head_Some_elem_of, elem_of_select in Eh as [Hm Hc]. apply existsb_exists. exists m. split; [by apply list_elem_of_In|exact Hc].
    + apply not_true_iff_false. intros Em. apply head_None in Eh. apply existsb_exists in Em as (m & Hm & Hc).
      eapply elem_of_nil. rewrite <- Eh. apply elem_of_select. split; [by apply list_elem_of_In|exact Hc].
  - case_bool_decide as E; cbn [negb]; [apply wp_ret; by split; [|split; [|apply (Ha true)]]|apply wp_throw; by apply (Ha false)].
Qed.

Lemma ListQueue_spec o principal d :
  wp o (ListQueue principal)
    (fun items d' => d' = d /\ exists rows, items = map (queue_item (tabs d)) rows /\
       StronglySorted (fun a b => q_sequence a <= q_sequence b) rows /\ forall r, r ∈ rows <-> listed principal (tabs d) r)
    (fun _ d' => d' = d) d.
Proof.
  unfold ListQueue. wp_step. eapply wp_mono; [apply ListProjects_spec| |done]. intros ps d' [-> Hps].
  wp_step. apply wp_query; [|done]. apply wp_ret. split; [done|]. rewrite select_map. eexists. split; [reflexivity|]. split.
  - apply select_sorted. eapply StronglySorted_weaken; [|apply (order_by_sorted (fun a b : QueueRow => q_sequence a <=? q_sequence b))].
    + intros a b. apply Z.leb_le.
    + intros a b. rewrite !Z.leb_le. lia.
    + intros a b c. rewrite !Z.leb_le. lia.
  - intros r. rewrite elem_of_select, order_by_perm, elem_of_select. cbn [queue_item qo_ProjectID]. unfold listed.
    rewrite andb_true_iff, !negb_true_iff, !bool_decide_eq_false, bool_decide_eq_true.
    change (map pj_ID ps) with (pj_ID <$> ps). rewrite list_elem_of_fmap. setoid_rewrite Hps. naive_solver.
Qed.

(** The queue listing shows a principal its own work.  [ListQueue] lists
    exactly the unreleased operations of the projects the principal may access,
    in the order they were accepted, and these are the projects that
    [AuthorizeProject] grants: for every other it answers an error, [ErrForbidden]
    unless the driver fails.  Nothing changes. *)
Lemma queue_listing_is_authorized o principal selector p d :
  find_project selector d = Some p ->
  wp o (ListQueue principal)
    (fun items d' => d' = d /\ exists rows, items = map (queue_item (tabs d)) rows /\
       StronglySorted (fun a b => q_sequence a <= q_sequence b) rows /\ forall r, r ∈ rows <-> listed principal (tabs d) r)
    (fun _ d' => d' = d) d /\
  wp o (AuthorizeProject principal selector)
    (fun r d' => d' = d /\ r = p /\ may_access principal (tabs d) p = true)
    (fun e d' => d' = d /\ ((exists s, fails o s) \/ (e = ErrForbidden /\ may_access principal (tabs d) p = false))) d.
Proof.
  intros Hsel. split.
  - apply ListQueue_spec.
  - eapply wp_mono; [apply AuthorizeProject_spec| |]; rewrite Hsel.
    + by intros r d' (-> & [= <-] & ?).
    + intros e d' (-> & [?|[[_ ?]|(-> & q & [= <-] & ?)]]); [auto|done|auto].
Qed.

Definition listing_db : Database :=
  mkDB (set_projects [mkProject "prj1" "one" "One" "" "" false 0; mkProject "prj2" "two" "Two" "" "" false 0]
         (set_project_members [mkMember "prj1" "usr1" 0]
           (set_control_builds [mkBuildRow "bld1" "prj1" 0 "" "" BuildQueued None None; mkBuildRow "bld2" "prj2" 0 "" "" BuildQueued None None]
             (set_control_queue [mkQueueRow 1 OperationBuild "bld1" 0 OperationQueued None 0 "" 0;
                                 mkQueueRow 2 OperationBuild "bld2" 0 OperationQueued None 0 "" 0] empty_tables)))) (mkFeed [] 0).

Lemma queue_listing_is_authorized_witness :
  find_project "one" listing_db <> None /\
  wp pages_oracle (ListQueue (mkPrincipal PrincipalDevice "tok1" "usr1" "" false ""))
    (fun items _ => exists rows, items = map (queue_item (tabs listing_db)) rows /\
       mkQueueRow 1 OperationBuild "bld1" 0 OperationQueued None 0 "" 0 ∈ rows) (fun _ d' => d' = listing_db) listing_db.
Proof.
  split; [discriminate|].
  destruct (queue_listing_is_authorized pages_oracle (mkPrincipal PrincipalDevice "tok1" "usr1" "" false "") "one"
    (mkProject "prj1" "one" "One" "" "" false 0) listing_db eq_refl) as [Hq _].
  eapply wp_mono; [exact Hq| |done]. intros items d' (_ & rows & -> & _ & Hr). exists rows. split; [done|]. apply Hr.
  split; [constructor|]. split; [discriminate|]. split; [discriminate|]. exists (mkProject "prj1" "one" "One" "" "" false 0).
  split; [constructor|]. split; reflexivity.
Defined.
