(* ===== verification/Resources.v ===== *)
(** * Ownership and cleanup of container resources

    [internal/operation/cleanup/resources.go] and [chain.go]: before an
    operation may create container resources their inventory is recorded; the
    teardown removes what appeared since, and verifies that nothing of it
    remains. *)
From S2P Require Import Prelude Model GoMonad GoLib Table Schema JobStore.

(** ** Inventories *)

Inductive ResourceKind := Services | Containers | Networks | Volumes.

#[export] Instance ResourceKind_eq_dec : EqDecision ResourceKind.
Proof. solve_decision. Defined.

Definition of_kind (k : ResourceKind) (r : ResourceSet) : list string :=
  match k with
  | Services => rs_Services r | Containers => rs_Containers r | Networks => rs_Networks r | Volumes => rs_Volumes r
  end.

Definition by_kind (f : ResourceKind -> list string) : ResourceSet :=
  mkResources (f Services) (f Containers) (f Networks) (f Volumes).

(** [uniqueSorted]: the loop with its [seen] map, then [sort.Strings]. *)
Fixpoint unique_loop (seen values : list string) : list string :=
  match values with
  | [] => []
  | value :: rest =>
      if bool_decide (value = "") || bool_decide (value ∈ seen) then unique_loop seen rest
      else value :: unique_loop (value :: seen) rest
  end.
Definition uniqueSorted (values : list string) : list string := order_by String.leb (unique_loop [] values).

Definition normalize (resources : ResourceSet) : ResourceSet := by_kind (fun k => uniqueSorted (of_kind k resources)).

Definition subtract (current baseline : list string) : list string :=
  select (fun id => negb (bool_decide (id ∈ baseline)) && negb (bool_decide (id = ""))) current.

Definition difference (current baseline : ResourceSet) : ResourceSet :=
  normalize (by_kind (fun k => subtract (of_kind k current) (of_kind k baseline))).

Definition resources_empty (r : ResourceSet) : bool :=
  bool_decide (rs_Services r = []) && bool_decide (rs_Containers r = []) && bool_decide (rs_Networks r = [])
  && bool_decide (rs_Volumes r = []).

(** ** The baseline store *)

Definition find_baseline (kind : OperationKind) (id : string) (d : Database) : option BaselineRow :=
  head (select (fun b => bool_decide ((bl_kind b, bl_operation_id b) = (kind, id))) (operation_resource_baselines (tabs d))).

Definition ResourceBaseline (kind : OperationKind) (id : string) : StoreM ResourceSet :=
  or_not_found (bl_resources <$> query_row (find_baseline kind id)).

Definition SaveResourceBaseline (kind : OperationKind) (id : string) (resources : ResourceSet) : StoreM unit :=
  now ← time_Now;
  _ ← exec_insert_ignore Baselines (mkBaseline kind id resources (unix now));
  mret tt.

(** ** The container runtime *)

(** [ResourceRuntime].  [rt_exists] is what exists, [rt_view] the part of it that
    an operation may own; taking an inventory reports the latter and changes
    nothing.  A removal finds its resource by the name in the identifier, which
    no two existing resources share, and touches no other. *)
Class ResourceRuntime (R : Type) := {
  rt_inventory : M R ResourceSet;
  rt_remove : ResourceKind -> string -> M R unit;
  rt_view : R -> ResourceSet;
  rt_exists : R -> ResourceKind -> string -> Prop;
  rt_name : ResourceKind -> string -> string;
  rt_kept (k : ResourceKind) (id : string) (r r' : R) : Prop :=
    forall k' id', (k', rt_name k' id') <> (k, rt_name k id) ->
      (rt_exists r k' id' -> rt_exists r' k' id') /\ (id' ∈ of_kind k' (rt_view r) -> id' ∈ of_kind k' (rt_view r'));
  rt_view_law : forall r k id, id ∈ of_kind k (rt_view r) -> rt_exists r k id;
  rt_name_law : forall r k x y, rt_exists r k x -> rt_exists r k y -> rt_name k x = rt_name k y -> x = y;
  rt_inventory_law : forall o r, wp o rt_inventory (fun s r' => r' = r /\ s = rt_view r) (fun _ r' => r' = r) r;
  rt_remove_law : forall o k id r, wp o (rt_remove k id) (fun _ r' => rt_kept k id r r') (fun _ r' => rt_kept k id r r') r
}.

Section Manager.
Context `{ResourceRuntime R}.
#[local] Abbreviation WorldM := (M (Database * R)).

(** [ResourceManager.Prepare]. *)
Definition Prepare (operation : Operation) : WorldM unit :=
  existing ← attempt (on_store (ResourceBaseline (op_Kind operation) (op_ID operation)));
  match existing with
  | Ok _ => mret tt
  | Fail ErrNotFound =>
      resources ← on_runtime rt_inventory;
      on_store (SaveResourceBaseline (op_Kind operation) (op_ID operation) (normalize resources))
  | Fail e => throw e
  end.

(** One of the four removal loops. *)
Fixpoint remove_all (k : ResourceKind) (ids : list string) : WorldM JoinedErr :=
  match ids with
  | [] => mret []
  | id :: rest =>
      errs ← collect ("remove " +:+ id) (on_runtime (rt_remove k id));
      more ← remove_all k rest;
      mret (errs ++ more)
  end.

(** [ResourceManager.Cleanup].  The wait of a job's grace period may fail when
    its context ends. *)
Definition Cleanup (operation : Operation) : WorldM JoinedErr :=
  found ← attempt (on_store (ResourceBaseline (op_Kind operation) (op_ID operation)));
  match found with
  | Fail ErrNotFound => mret []
  | Fail e => mret [mkWrapped "read resource baseline" e]
  | Ok baseline =>
      waited ← attempt (if bool_decide (op_Kind operation = OperationJob) then may_fail else mret tt);
      match waited with
      | Fail e => mret [mkWrapped "" e]
      | Ok _ =>
          inventory ← attempt (on_runtime rt_inventory);
          match inventory with
          | Fail e => mret [mkWrapped "inventory Docker resources" e]
          | Ok current =>
              let owned := difference current baseline in
              e1 ← remove_all Services (rs_Services owned);
              e2 ← remove_all Containers (rs_Containers owned);
              e3 ← remove_all Networks (rs_Networks owned);
              e4 ← remove_all Volumes (rs_Volumes owned);
              final ← attempt (on_runtime rt_inventory);
              let e5 :=
                match final with
                | Fail e => [mkWrapped "verify Docker resource cleanup" e]
                | Ok remaining =>
                    if resources_empty (difference remaining baseline) then []
                    else [mkWrapped "operation-owned Docker resources remain" (ErrText "")]
                end in
              mret (e1 ++ e2 ++ e3 ++ e4 ++ e5)
          end
      end
  end.

End Manager.

(** ** Facts about inventories *)

Lemma elem_of_unique_loop seen values x :
  x ∈ unique_loop seen values <-> (x ∈ values /\ x <> "" /\ x ∉ seen).
Proof.
  revert seen. induction values as [|v values IH]; intros seen; simpl; [set_solver|].
  destruct (bool_decide (v = "")) eqn:E1; simpl.
  { apply bool_decide_eq_true in E1. rewrite IH. set_solver. }
  apply bool_decide_eq_false in E1. destruct (bool_decide (v ∈ seen)) eqn:E2.
  { apply bool_decide_eq_true in E2. rewrite IH. set_solver. }
  apply bool_decide_eq_false in E2. rewrite elem_of_cons, IH. destruct (decide (x = v)) as [->|]; set_solver.
Qed.

Lemma NoDup_unique_loop seen values : NoDup (unique_loop seen values).
Proof.
  revert seen. induction values as [|v values IH]; intros seen; simpl; [constructor|].
  destruct (_ || _); [apply IH|]. constructor; [|apply IH]. rewrite elem_of_unique_loop. set_solver.
Qed.

Lemma elem_of_uniqueSorted values x : (x ∈ uniqueSorted values) <-> (x ∈ values /\ x <> "").
Proof. unfold uniqueSorted. rewrite order_by_perm, elem_of_unique_loop. set_solver. Qed.

Lemma elem_of_subtract current baseline x : (x ∈ subtract current baseline) <-> (x ∈ current /\ (x ∉ baseline) /\ x <> "").
Proof.
  unfold subtract. rewrite elem_of_select, andb_true_iff, !negb_true_iff, !bool_decide_eq_false. done.
Qed.

Lemma elem_of_difference k current baseline x :
  x ∈ of_kind k (difference current baseline) <-> (x ∈ of_kind k current /\ (x ∉ of_kind k baseline) /\ x <> "").
Proof.
  unfold difference, normalize. destruct k; simpl; rewrite elem_of_uniqueSorted, elem_of_subtract; tauto.
Qed.

Lemma resources_empty_spec r : resources_empty r = true <-> forall k, of_kind k r = [].
Proof.
  unfold resources_empty. rewrite !andb_true_iff, !bool_decide_eq_true. split.
  - intros [[[H1 H2] H3] H4] k. by destruct k.
  - intros H. repeat split; [apply (H Services)|apply (H Containers)|apply (H Networks)|apply (H Volumes)].
Qed.

(** ** What the manager guarantees *)

Section Guarantees.
Context `{ResourceRuntime R} (o : Oracle).

(** What [P] describes stays. *)
Definition spares (P : ResourceKind -> string -> Prop) (r r' : R) : Prop :=
  forall k x, P k x -> (rt_exists r k x -> rt_exists r' k x) /\ (x ∈ of_kind k (rt_view r) -> x ∈ of_kind k (rt_view r')).

(** The resources of [r] that the operation does not own: those of the baseline
    [b] and those that no inventory shows. *)
Definition foreign (b : ResourceSet) (r : R) (k : ResourceKind) (x : string) : Prop :=
  rt_exists r k x /\ (x ∈ of_kind k b \/ x ∉ of_kind k (rt_view r)).

(** Everything that exists is in [b]. *)
Definition clean (b : ResourceSet) (r : R) : Prop :=
  forall k x, x ∈ of_kind k (rt_view r) -> x <> "" -> x ∈ of_kind k b.

Lemma spares_refl P r : spares P r r.
Proof. by intros k x. Qed.
Lemma spares_trans P r1 r2 r3 : spares P r1 r2 -> spares P r2 r3 -> spares P r1 r3.
Proof. intros H1 H2 k x Hp. destruct (H1 k x Hp), (H2 k x Hp). auto. Qed.

(** A loop over resources with other names than those in [P] spares [P]. *)
Lemma wp_remove_all (P : ResourceKind -> string -> Prop) k ids d r (Q : JoinedErr -> Database * R -> Prop) (E : Err -> Database * R -> Prop) :
  (forall x y, x ∈ ids -> P k y -> rt_name k y <> rt_name k x) ->
  (forall errs r', spares P r r' -> Q errs (d, r')) -> wp o (remove_all k ids) Q E (d, r).
Proof.
  revert r Q. induction ids as [|id ids IH]; intros r Q Hids HQ; simpl.
  { apply wp_ret, HQ, spares_refl. }
  assert (Hid : forall r', rt_kept k id r r' -> spares P r r').
  { intros r' Hk k' x Hp. apply Hk. intros [= -> En]. by apply (Hids id x); [constructor|..]. }
  unfold collect. repeat wp_step. apply wp_on_runtime.
  eapply wp_mono; [apply rt_remove_law| |]; simpl; intros a r1 Hk; apply wp_ret; wp_step;
    (apply IH; [intros x y Hx; apply Hids; by constructor|]); intros errs r2 Hs; apply wp_ret, HQ; eapply spares_trans; eauto.
Qed.

(** What the operation owns has other names than what it does not. *)
Lemma owned_names b r k x y :
  x ∈ of_kind k (difference (rt_view r) b) -> foreign b r k y -> rt_name k y <> rt_name k x.
Proof.
  intros Hx [Hy Hf] En. apply elem_of_difference in Hx as (Hv & Hb & _).
  apply (rt_name_law r) in En; [subst|done|by apply rt_view_law]. by destruct Hf.
Qed.

(** The cleanup leaves the database alone, spares the baseline, and reports
    success only when nothing else remains. *)
Lemma wp_Cleanup operation d r (E : Err -> Database * R -> Prop) :
  wp o (Cleanup operation)
    (fun errs w => w.1 = d /\
       forall b, find_baseline (op_Kind operation) (op_ID operation) d = Some b ->
         spares (foreign (bl_resources b) r) r w.2 /\ (errs = [] -> clean (bl_resources b) w.2))
    E (d, r).
Proof.
  unfold Cleanup. wp_step. apply wp_attempt. apply wp_on_store. unfold ResourceBaseline, or_not_found.
  wp_step. wp_step. wp_step. apply wp_query_row; [|intros s Hs; simpl; apply wp_throw, wp_ret; simpl; split; [done|]; intros b _; split; [apply spares_refl|done]].
  destruct (find_baseline (op_Kind operation) (op_ID operation) d) as [b|] eqn:Eb; [|by apply wp_throw, wp_ret].
  apply wp_ret. wp_step. apply wp_attempt.
  apply wp_mono with (Q := fun _ w => w = (d, r)) (E := fun _ w => w = (d, r)).
  { case_bool_decide; [by apply wp_may_fail | by apply wp_ret]. }
  2:{ intros e w ->. apply wp_ret. split; [done|]. intros b' [= <-]. split; [apply spares_refl|done]. }
  intros _ w ->. wp_step. apply wp_attempt, wp_on_runtime.
  eapply wp_mono; [apply rt_inventory_law| |]; simpl.
  2:{ intros e r' ->. apply wp_ret. split; [done|]. intros b' [= <-]. split; [apply spares_refl|done]. }
  intros current r0 [-> ->].
  set (P := foreign (bl_resources b) r).
  assert (Hout : forall k x y, x ∈ of_kind k (difference (rt_view r) (bl_resources b)) -> P k y -> rt_name k y <> rt_name k x)
    by (intros k x y; apply owned_names).
  wp_step. apply (wp_remove_all P); [apply (Hout Services)|]. intros e1 r1 S1.
  wp_step. apply (wp_remove_all P); [apply (Hout Containers)|]. intros e2 r2 S2.
  wp_step. apply (wp_remove_all P); [apply (Hout Networks)|]. intros e3 r3 S3.
  wp_step. apply (wp_remove_all P); [apply (Hout Volumes)|]. intros e4 r4 S4.
  assert (S : spares P r r4) by (eauto using spares_trans).
  wp_step. apply wp_attempt, wp_on_runtime. eapply wp_mono; [apply rt_inventory_law| |]; simpl.
  - intros remaining r5 [-> ->]. apply wp_ret. split; [done|]. intros b' [= <-]. split; [done|]. intros Hnil k x Hx Hne.
    rewrite !(assoc_L (++)) in Hnil. apply app_eq_nil in Hnil as [_ Hnil].
    destruct (resources_empty (difference (rt_view r4) (bl_resources b))) eqn:Ee; [|done].
    destruct (decide (x ∈ of_kind k (bl_resources b))) as [|Hn]; [done|]. exfalso.
    apply resources_empty_spec with (k := k) in Ee. eapply elem_of_nil. rewrite <- Ee. by apply elem_of_difference.
  - intros e r5 ->. apply wp_ret. split; [done|]. intros b' [= <-]. split; [done|]. intros Hnil. exfalso.
    rewrite !(assoc_L (++)) in Hnil. by apply app_eq_nil in Hnil as [_ ?].
Qed.

End Guarantees.
