(* ===== verification/Coordinator.v ===== *)
(** * The cleanup coordinator

    [internal/operation/cleanup/coordinator.go] and [chain.go]: one durable
    teardown at a time is claimed, cleaned and completed, failures are recorded
    and retried, and wake-ups are coalesced into one worker goroutine. *)
From S2P Require Import Prelude Model GoMonad GoLib Table Schema JobStore Lease QueueInv QueueOps QueueSpec QueueSystem Resources.

(** ** [Lifecycle] *)

Section Lifecycle.
Context {R : Type}.
#[local] Abbreviation WorldM := (M (Database * R)).

(** A [Cleaner] returns the errors it joined; a nil one is skipped. *)
Definition Cleaner : Type := Operation -> WorldM JoinedErr.
Definition Preparer : Type := Operation -> WorldM unit.

Fixpoint LifecyclePrepare (preparers : list (option Preparer)) (operation : Operation) : WorldM unit :=
  match preparers with
  | [] => mret tt
  | None :: rest => LifecyclePrepare rest operation
  | Some preparer :: rest => _ ← preparer operation; LifecyclePrepare rest operation
  end.

Fixpoint LifecycleCleanup (cleaners : list (option Cleaner)) (operation : Operation) : WorldM JoinedErr :=
  match cleaners with
  | [] => mret []
  | None :: rest => LifecycleCleanup rest operation
  | Some cleaner :: rest =>
      errs ← cleaner operation;
      more ← LifecycleCleanup rest operation;
      mret (errs ++ more)
  end.

(** ** [Coordinator.Request] and [Coordinator.RunOnce] *)

(** Whether the context has ended and the error reports it: an answer of the
    environment. *)
Definition isContextCancellation : WorldM bool := fun o '(w, n) => (Ok (Z.odd (o_rand o n)), (w, S n)).

(** [error.Error]. *)
Class ErrorText := { error_text : JoinedErr -> string }.
Context `{ErrorText} (cleaner : Cleaner).

(** [Request], up to the wake-up of the worker. *)
Definition Request (kind : OperationKind) (id : string) : WorldM unit := on_store (BeginOperationCleanup kind id).

(** [RunOnce]: whether a teardown was claimed, and the errors. *)
Definition RunOnce : WorldM (bool * JoinedErr) :=
  claim ← attempt (on_store ClaimOperationCleanup);
  match claim with
  | Fail e => mret (false, [mkWrapped "" e])
  | Ok None => mret (false, [])
  | Ok (Some operation) =>
      errs ← cleaner operation;
      match errs with
      | [] =>
          completed ← collect ("complete cleanup for " +:+ kind_text (op_Kind operation) +:+ " " +:+ op_ID operation)
            (on_store (CompleteOperationCleanup (op_Kind operation) (op_ID operation)));
          mret (true, completed)
      | _ =>
          cancelled ← isContextCancellation;
          if cancelled : bool then mret (true, errs) else
          recorded ← collect "" (on_store (RecordOperationCleanupFailure (op_Kind operation) (op_ID operation) (error_text errs)));
          mret (true, errs ++ recorded)
      end
  end.

End Lifecycle.

(** ** The wake-up protocol *)

(** [Coordinator.mu] guards [running], [pending] and [draining]; the worker
    goroutine is at the top of its loop or in [RunOnce]. *)
Inductive WorkerPC := Looping | InRunOnce.

(** [cs_ended]: the coordinator's context has ended.  [cs_workers] are the
    goroutines that [Advance] started and that have not returned; [cs_requests]
    counts the accepted wake-ups and [cs_served] those that a [RunOnce] started
    after. *)
Record CoalescerState := mkCoalescer {
  cs_running : bool;
  cs_pending : bool;
  cs_draining : bool;
  cs_ended : bool;
  cs_workers : list WorkerPC;
  cs_requests : Z;
  cs_served : Z
}.

Definition coalescer_init : CoalescerState := mkCoalescer false false false false [] 0 0.

(** One critical section, or one boundary of [RunOnce], per step. *)
Inductive coalescer_step : CoalescerState -> CoalescerState -> Prop :=
| advance_draining s : cs_draining s = true -> coalescer_step s s
| advance_running s : cs_draining s = false -> cs_running s = true ->
    coalescer_step s (mkCoalescer true true false (cs_ended s) (cs_workers s) (cs_requests s + 1) (cs_served s))
| advance_start s : cs_draining s = false -> cs_running s = false ->
    coalescer_step s (mkCoalescer true true false (cs_ended s) (Looping :: cs_workers s) (cs_requests s + 1) (cs_served s))
| drain s :
    coalescer_step s (mkCoalescer (cs_running s) (cs_pending s) true (cs_ended s) (cs_workers s) (cs_requests s) (cs_served s))
| end_context s :
    coalescer_step s (mkCoalescer (cs_running s) (cs_pending s) (cs_draining s) true (cs_workers s) (cs_requests s) (cs_served s))
| worker_begin s w1 w2 : cs_workers s = w1 ++ Looping :: w2 ->
    coalescer_step s
      (mkCoalescer (cs_running s) false (cs_draining s) (cs_ended s) (w1 ++ InRunOnce :: w2) (cs_requests s) (cs_requests s))
| worker_again s w1 w2 : cs_workers s = w1 ++ InRunOnce :: w2 ->   (* claimed, an error after its delay, or pending *)
    coalescer_step s
      (mkCoalescer (cs_running s) (cs_pending s) (cs_draining s) (cs_ended s) (w1 ++ Looping :: w2) (cs_requests s) (cs_served s))
| worker_done s w1 w2 : cs_workers s = w1 ++ InRunOnce :: w2 -> cs_pending s = false ->
    coalescer_step s (mkCoalescer false false (cs_draining s) (cs_ended s) (w1 ++ w2) (cs_requests s) (cs_served s))
| worker_finish s w1 w2 : cs_workers s = w1 ++ InRunOnce :: w2 -> cs_ended s = true ->
    coalescer_step s (mkCoalescer false (cs_pending s) (cs_draining s) true (w1 ++ w2) (cs_requests s) (cs_served s)).

(** One worker while [running], none otherwise; until the context ends, a
    wake-up that no [RunOnce] has started after is still pending. *)
Record CoalescerInv (s : CoalescerState) : Prop := {
  ci_single : length (cs_workers s) = if cs_running s then 1%nat else 0%nat;
  ci_served : cs_served s <= cs_requests s;
  ci_pending : cs_ended s = false -> cs_served s < cs_requests s -> cs_pending s = true /\ cs_running s = true
}.

Lemma coalescer_init_inv : CoalescerInv coalescer_init.
Proof. split; simpl; [done|lia|lia]. Qed.

(** The goroutine that returns was the only one. *)
Lemma last_worker s w1 pc w2 :
  CoalescerInv s -> cs_workers s = w1 ++ pc :: w2 -> w1 = [] /\ w2 = [].
Proof.
  intros [H1 _ _] Ew. rewrite Ew, length_app in H1. simpl in H1. destruct (cs_running s); [|lia].
  split; apply nil_length_inv; lia.
Qed.

Lemma coalescer_step_inv s s' : CoalescerInv s -> coalescer_step s s' -> CoalescerInv s'.
Proof.
  intros HI Hs. pose proof HI as [H1 H2 H3].
  destruct Hs as [s|s Hd Hr|s Hd Hr|s|s|s w1 w2 Ew|s w1 w2 Ew|s w1 w2 Ew Hp|s w1 w2 Ew He]; try (by split).
  - split; simpl; rewrite ?Hr in *; try done; lia.
  - split; simpl; rewrite ?Hr in *; try done; [by rewrite H1|lia].
  - split; simpl; try lia. rewrite <- H1, Ew, !length_app. done.
  - split; simpl; try done. rewrite <- H1, Ew, !length_app. done.
  - destruct (last_worker _ _ _ _ HI Ew) as [-> ->]. split; simpl; [done|done|]. intros He Hlt.
    destruct (H3 He Hlt) as [Hpend _]. congruence.
  - destruct (last_worker _ _ _ _ HI Ew) as [-> ->]. by split.
Qed.

(** ** What a round of the coordinator does *)

Lemma wp_collect {W A} o ctx (m : M W A) (Q : JoinedErr -> W -> Prop) (E : Err -> W -> Prop) w :
  wp o m (fun _ w' => Q [] w') (fun e w' => Q [mkWrapped ctx e] w') w -> wp o (collect ctx m) Q E w.
Proof.
  intros Hm. unfold collect. wp_step. apply wp_attempt. eapply wp_mono; [exact Hm| |]; simpl; intros; by apply wp_ret.
Qed.

(** Recording a failure keeps the row in [cleaning]. *)
Lemma wp_record_failure o d row message (Q : unit -> Database -> Prop) (E : Err -> Database -> Prop) :
  QInv (tabs d) -> row ∈ control_queue (tabs d) -> q_state row = OperationCleaning ->
  (forall r' fd, q_key r' = q_key row -> q_state r' = OperationCleaning -> q_cleanup_error r' = message ->
     Q tt (mkDB (with_row r' (tabs d)) fd)) ->
  (forall s, fails o s -> E (ErrDriver s) d) ->
  wp o (RecordOperationCleanupFailure (q_kind row) (q_operation_id row) message) Q E d.
Proof.
  intros HI Hin Hs HQ HE. unfold RecordOperationCleanupFailure. wp_step. wp_step. wp_step.
  apply (wp_queue_hit o d HI row); try done; [rewrite Hs; constructor|by left; rewrite Hs|].
  intros fd. apply wp_ret. by apply HQ.
Qed.

Lemma wp_context_cancellation {R : Type} o (Q : bool -> Database * R -> Prop) (E : Err -> Database * R -> Prop) w :
  (forall b, Q b w) -> wp o isContextCancellation Q E w.
Proof. intros HQ n. apply HQ. Qed.

Section Round.
Context `{ResourceRuntime R} `{ErrorText} (o : Oracle).

(** The claimed teardown, cleaned by the resource manager. *)
Lemma RunOnce_spec d r k s :
  QInv (tabs d) -> holder (abs (tabs d)) = Some (k, s) -> tearing s = true ->
  wp o (RunOnce (LifecycleCleanup [Some Cleanup]))
    (fun res w =>
       if res.1 then
         (res.2 = [] /\ abs (tabs w.1) = mkLease (waiting (abs (tabs d))) None /\
          forall b, find_baseline k.1 k.2 d = Some b -> clean (bl_resources b) w.2) \/
         (res.2 <> [] /\ abs (tabs w.1) = mkLease (waiting (abs (tabs d))) (Some (k, OperationCleaning)))
       else res.2 <> [] /\ w = (d, r))
    (fun _ _ => False) (d, r).
Proof.
  intros HI Hh Ht. unfold RunOnce. wp_step. apply wp_attempt, wp_on_store.
  eapply wp_mono; [by apply ClaimOperationCleanup_spec| |].
  2:{ intros e d' [-> _]. by apply wp_ret. }
  rewrite Hh, Ht. intros c d1 (row & at_ & fd & op & Hin & Ek & Es & -> & Eop & _ & _ & _ & ->).
  destruct (claimed_teardown (tabs d) row at_ HI Hin) as (HI1 & Hin1 & Ew1); [by rewrite Es|].
  set (d1 := mkDB (with_row (claimed row at_) (tabs d)) fd) in *.
  assert (Ea1 : abs (tabs d1) = mkLease (waiting (abs (tabs d))) (Some (k, OperationCleaning))).
  { subst k. apply (abs_with_holder (tabs d) row (claimed row at_)); [done|done| |done|done]. by rewrite Es; apply tearing_reserved. }
  assert (Ekey : (op_Kind op, op_ID op) = q_key (claimed row at_)) by (by rewrite Eop, <- Ek).
  injection Ekey as Ek1 Ek2. rewrite Ek1, Ek2. subst k.
  wp_step. cbn [LifecycleCleanup]. wp_step. eapply wp_mono; [apply (wp_Cleanup o op d1 r (fun _ _ => False))| |done].
  intros errs [d2 r2] [Ed Hb]. simpl in Ed, Hb. subst d2. wp_step. apply wp_ret, wp_ret. rewrite app_nil_r. destruct errs as [|e errs].
  - wp_step. apply wp_collect, wp_on_store.
    change (q_kind (claimed row at_)) with (q_kind row). change (q_operation_id (claimed row at_)) with (q_operation_id row).
    eapply wp_mono; [apply (CompleteOperationCleanup_spec o d1 (claimed row at_) HI1 Hin1)| |]; cbn [tearing claimed q_set q_state].
    + intros ? d3 (now3 & fd3 & ->). apply wp_ret. left. split; [done|]. split.
      * destruct (completed_teardown (tabs d1) (claimed row at_) now3 HI1 Hin1 eq_refl) as [_ Ea]. cbn [fst snd tabs]. by rewrite Ea, Ea1.
      * intros b Eb. apply (Hb b); [|done]. rewrite Ek1, Ek2. exact Eb.
    + intros e d3 [[-> _]|(Hf & _)]; [|discriminate]. apply wp_ret. right. split; [done|exact Ea1].
  - wp_step. apply wp_context_cancellation. intros [].
    + apply wp_ret. right. split; [done|exact Ea1].
    + wp_step. apply wp_collect, wp_on_store.
      apply (wp_record_failure o d1 (claimed row at_)); [exact HI1|exact Hin1|done| |].
      * intros r' fd' Er Es' _. apply wp_ret. right. split; [done|]. cbn [fst tabs].
        rewrite (abs_with_holder (tabs d1) (claimed row at_) r'); [|exact HI1|exact Hin1|done|done|].
        -- rewrite Es', Ea1. done.
        -- unfold waits. by rewrite Es'.
      * intros s0 _. apply wp_ret. right. split; [done|exact Ea1].
Qed.
End Round.
