(* ===== verification/CleanupTheorems.v ===== *)
(** * Correctness of the teardown *)
From S2P Require Import Prelude Model GoMonad GoLib Table Schema JobStore Lease QueueInv QueueOps QueueSpec QueueSystem QueueTheorems Resources Coordinator.

(** ** A concrete runtime for the witnesses *)

(** The runtime is the set of its resources. *)
Definition drop_resource (k : ResourceKind) (id : string) (r : ResourceSet) : ResourceSet :=
  by_kind (fun k' => if bool_decide (k' = k) then select (fun x => negb (bool_decide (x = id))) (of_kind k' r) else of_kind k' r).

#[local] Instance demo_runtime : ResourceRuntime ResourceSet.
Proof.
  refine {| rt_inventory := query (fun r => r); rt_remove k id := statement (fun r => Ok (tt, drop_resource k id r)); rt_view := fun r => r;
            rt_exists r k id := id ∈ of_kind k r; rt_name _ id := id |}; [done|done| |].
  - intros o r. by apply wp_query.
  - intros o k id r. apply wp_statement; [|by intros s _ k' id' _].
    intros k' id' Hne. unfold drop_resource. split; intros Hin; destruct k, k'; simpl; try done; apply elem_of_select; (split; [done|]);
      apply negb_true_iff, bool_decide_eq_false; intros ->; by apply Hne.
Defined.

#[local] Instance demo_error_text : ErrorText := {| error_text _ := "cleanup failed" |}.

(** ** C24 *)

(** C24: the worker is released only when the operation's resources are gone.
    A round of the coordinator with the resource manager on a database in which
    an operation is being torn down either cannot claim it and changes nothing;
    or it completes the teardown, and then every container, service, network
    and volume that the runtime has is one of the baseline recorded before the
    operation was admitted; or it reports errors and the operation keeps the
    worker in [cleaning].  No call of the round fails in a way that skips these
    outcomes. *)
Theorem release_is_verified `{ResourceRuntime R} `{ErrorText} o d r k s :
  reachable d -> holder (abs (tabs d)) = Some (k, s) -> tearing s = true ->
  wp o (RunOnce (LifecycleCleanup [Some Cleanup]))
    (fun res w =>
       if res.1 then
         (res.2 = [] /\ abs (tabs w.1) = mkLease (waiting (abs (tabs d))) None /\
          forall b, find_baseline k.1 k.2 d = Some b -> clean (bl_resources b) w.2) \/
         (res.2 <> [] /\ abs (tabs w.1) = mkLease (waiting (abs (tabs d))) (Some (k, OperationCleaning)))
       else res.2 <> [] /\ w = (d, r))
    (fun _ _ => False) (d, r).
Proof. intros Hr. apply RunOnce_spec. by apply reachable_QInv. Qed.

(** The admitted job of [demo_state] has a baseline and is being torn down. *)
Definition demo_baseline : ResourceSet := mkResources [] ["base"] [] [].
Definition demo_torn : Database :=
  let d := (run_calls (demo_calls ++ [CallBeginOperationCleanup OperationJob demo_job_id]) (demo_db, 0%nat)).1 in
  mkDB (set_operation_resource_baselines [mkBaseline OperationJob demo_job_id demo_baseline 0] (tabs d)) (feed d).

Lemma reachable_baselines rows d :
  reachable d -> reachable (mkDB (set_operation_resource_baselines rows (tabs d)) (feed d)).
Proof. intros Hd. eapply rtc_r; [exact Hd|]. by apply step_other. Qed.

Lemma demo_torn_reachable : reachable demo_torn.
Proof. apply reachable_baselines, demo_reachable. Qed.

Lemma release_is_verified_witness :
  wp demo_oracle (RunOnce (LifecycleCleanup [Some Cleanup]))
    (fun res w => (res.1 = true /\ res.2 = [] /\ clean demo_baseline w.2) \/ res.2 <> []) (fun _ _ => False)
    (demo_torn, mkResources ["svc"] ["base"; "job-1"] [] []).
Proof.
  assert (Ha : holder (abs (tabs demo_torn)) = Some ((OperationJob, demo_job_id), OperationTerminalizing)) by (vm_compute; reflexivity).
  assert (Hb0 : find_baseline OperationJob demo_job_id demo_torn = Some (mkBaseline OperationJob demo_job_id demo_baseline 0))
    by (vm_compute; reflexivity).
  eapply wp_mono; [apply (release_is_verified demo_oracle demo_torn _ (OperationJob, demo_job_id) OperationTerminalizing)| |done].
  - apply demo_torn_reachable.
  - exact Ha.
  - reflexivity.
  - intros [[|] errs] w; cbn [fst snd]; [|by intros [? _]; right]. intros [(-> & _ & Hb)|[? _]]; [|by right].
    left. do 2 (split; [reflexivity|]). exact (Hb _ Hb0).
Defined.

(** The teardown removes nothing that existed before the operation.  For
    every operation with a baseline, whatever removals fail, each resource of
    the baseline that exists when the cleanup starts exists when it ends, and so
    does every resource that the inventory leaves out because it is protected;
    what the inventory showed of the baseline it still shows, and the store is
    not touched. *)
Lemma cleanup_spares_baseline `{ResourceRuntime R} o operation d r b :
  find_baseline (op_Kind operation) (op_ID operation) d = Some b ->
  wp o (Cleanup operation)
    (fun errs w => w.1 = d /\
       (forall k x, rt_exists r k x -> x ∈ of_kind k (bl_resources b) \/ x ∉ of_kind k (rt_view r) -> rt_exists w.2 k x) /\
       forall k x, x ∈ of_kind k (bl_resources b) -> x ∈ of_kind k (rt_view r) -> x ∈ of_kind k (rt_view w.2))
    (fun _ _ => False) (d, r).
Proof.
  intros Hb. eapply wp_mono; [apply (wp_Cleanup o operation d r (fun _ _ => False))| |done].
  intros errs w [Hd H1]. split; [done|]. destruct (H1 b Hb) as [Hs _]. split.
  - intros k x Hx Hf. by apply Hs.
  - intros k x Hx Hv. apply Hs; [|done]. split; [by apply rt_view_law|by left].
Qed.

Definition demo_operation : Operation := mkOperation OperationJob demo_job_id OperationCleaning 0 None 1 "" None.

(** ** C26 *)

(** C26: wake-ups are neither lost nor duplicated.  In every state of the
    coordinator's protocol at most one worker goroutine runs; and until the
    coordinator's context ends, a wake-up accepted after the last [RunOnce]
    began leaves the worker running with a further round pending: no step makes
    it go idle before a round starts after the wake-up. *)
Theorem wakeups_are_not_lost s :
  rtc coalescer_step coalescer_init s ->
  (length (cs_workers s) <= 1)%nat /\
  (cs_ended s = false -> cs_served s < cs_requests s ->
     cs_running s = true /\ cs_pending s = true /\ length (cs_workers s) = 1%nat /\
     forall s', coalescer_step s s' -> cs_running s' = true).
Proof.
  intros Hs. assert (HI : CoalescerInv s).
  { assert (Hgen : forall a b, rtc coalescer_step a b -> CoalescerInv a -> CoalescerInv b).
    { intros a b Hab. induction Hab; [done|]. intros Ha. apply IHHab. by eapply coalescer_step_inv. }
    by apply (Hgen _ _ Hs), coalescer_init_inv. }
  destruct HI as [H1 H2 H3]. split; [rewrite H1; by destruct (cs_running s); lia|].
  intros He Hlt. destruct (H3 He Hlt) as [Hp Hr]. rewrite H1, Hr. do 3 (split; [done|]).
  intros s' Hst. destruct Hst; simpl; congruence.
Qed.

(** A wake-up arrives while the worker is in its round. *)
Definition demo_wake : CoalescerState := mkCoalescer true true false false [InRunOnce] 2 1.

Lemma wakeups_are_not_lost_witness : length (cs_workers demo_wake) = 1%nat /\ cs_pending demo_wake = true.
Proof.
  destruct (wakeups_are_not_lost demo_wake) as (_ & H2).
  - eapply rtc_l; [apply (advance_start coalescer_init); reflexivity|]. simpl.
    eapply rtc_l; [by apply (worker_begin _ [] [])|]. simpl. eapply rtc_l; [by apply advance_running|]. reflexivity.
  - destruct H2 as (_ & Hp & Hl & _); [reflexivity|reflexivity|]. split; [exact Hl|exact Hp].
Defined.
