(* ===== verification/Dispatcher.v ===== *)
(** * The dispatcher

    [internal/control/dispatcher/dispatcher.go]: when the worker is idle the
    oldest operation is reserved, its resources are prepared, a job is created
    in the runtime, and the operation becomes active. *)
From S2P Require Import Prelude Model GoMonad GoLib Table Schema JobStore Lease QueueInv QueueOps QueueSpec QueueSystem Identity Keeps IdentitySystem IdentityInv Resources Coordinator.

(** ** The scheduler *)

(** [control.RuntimeJob]: an entry of the runtime's list of jobs, with the error
    of its inspection. *)
Record RuntimeJob := mkRuntimeJob { rt_ID : string; rt_Job : RemoteJob; rt_Err : option Err }.

(** What the dispatcher and the reconciler ask of the runtime.  [sch_service]:
    the runtime has a service for the job; [sch_cancelled]: it is marked as
    cancelled.  A created job has a service; cancelling marks the service if
    there is one; listing changes nothing; no call touches another job. *)
Class Scheduler (R : Type) := {
  sch_Create : Job -> M R unit;
  sch_Cancel : string -> M R unit;
  sch_ManagedJobs : M R (list RuntimeJob * option Err);
  sch_Remove : string -> M R unit;
  sch_service : R -> string -> Prop;
  sch_cancelled : R -> string -> Prop;
  sch_others (id : string) (r r' : R) : Prop :=
    forall id', id' <> id -> (sch_service r' id' <-> sch_service r id') /\ (sch_cancelled r' id' <-> sch_cancelled r id');
  sch_create_law : forall o j r,
    wp o (sch_Create j) (fun _ r' => sch_service r' (jb_ID j) /\ sch_others (jb_ID j) r r') (fun _ r' => sch_others (jb_ID j) r r') r;
  sch_cancel_law : forall o id r,
    wp o (sch_Cancel id)
      (fun _ r' => (sch_service r' id <-> sch_service r id) /\ (sch_service r' id -> sch_cancelled r' id) /\ sch_others id r r')
      (fun _ r' => (sch_service r' id <-> sch_service r id) /\ sch_others id r r') r;
  sch_managed_law : forall o r, wp o sch_ManagedJobs (fun _ r' => r' = r) (fun _ r' => r' = r) r;
  sch_remove_law : forall o id r, wp o (sch_Remove id) (fun _ r' => sch_others id r r') (fun _ r' => sch_others id r r') r
}.

(** [ResolutionError.Permanent], reached through [errors.As]. *)
Definition Permanent (e : Err) : bool :=
  match e with ErrResolution _ (CauseRevoked | CauseInvalidValue) => true | _ => false end.

Definition ErrDraining : Err := ErrText "dispatcher is draining".

Section Dispatcher.
Context {R : Type} `{Scheduler R} `{ErrorText}.
#[local] Abbreviation WorldM := (M (Database * R)).

(** [draining.Load()]: another goroutine may call [Drain] at any time. *)
Definition draining_Load : WorldM bool := fun o '(w, n) => (Ok (Z.odd (o_rand o n)), (w, S n)).

Context (preparer : option (Preparer (R := R))).

(** The end of an admission that failed for good: the job fails and its
    teardown is requested. *)
Definition fail_admission (id : string) (errs : JoinedErr) (e : Err) : WorldM JoinedErr :=
  failed ← attempt (on_store (FailJob id (error_text [mkWrapped "" e])));
  match failed with
  | Fail failErr => mret (errs ++ [mkWrapped "" failErr])
  | Ok _ =>
      released ← collect "" (Request OperationJob id);
      mret (errs ++ released)
  end.

(** From the creation of the job's service on. *)
Definition launch_job (operation : Operation) (job : Job) : WorldM JoinedErr :=
  created ← attempt (on_runtime (sch_Create job));
  match created with
  | Fail e =>
      cancelled ← isContextCancellation;
      if cancelled : bool then mret [mkWrapped "" e]
      else fail_admission (op_ID operation) [mkWrapped ("admit job " +:+ op_ID operation) e] e
  | Ok _ =>
      activated ← attempt (on_store (ActivateOperation (op_Kind operation) (op_ID operation)));
      match activated with
      | Fail e => mret [mkWrapped ("activate job " +:+ op_ID operation) e]
      | Ok _ =>
          read ← attempt (on_store (getJob (op_ID operation)));
          match read with
          | Fail e => mret [mkWrapped ("read active job " +:+ op_ID operation) e]
          | Ok job =>
              if jb_CancelRequested job
              then collect ("cancel admitted job " +:+ op_ID operation) (on_runtime (sch_Cancel (op_ID operation)))
              else mret []
          end
      end
  end.

(** From the preparation of the operation's resources on; [job] is the job of a
    job operation. *)
Definition prepare_operation (operation : Operation) (job : option Job) : WorldM JoinedErr :=
  prepared ← attempt (match preparer with Some prepare => prepare operation | None => mret tt end);
  match prepared with
  | Fail e =>
      if Permanent e && bool_decide (op_Kind operation = OperationJob)
      then fail_admission (op_ID operation) [mkWrapped ("prepare operation " +:+ op_ID operation) e] e
      else
        requeued ← collect "" (on_store (RequeueAdmittingOperation (op_Kind operation) (op_ID operation)));
        mret (mkWrapped ("prepare operation " +:+ op_ID operation +:+ " resources") e :: requeued)
  | Ok _ =>
      match job with
      | None =>
          collect ("activate build " +:+ op_ID operation)
            (on_store (ActivateOperation (op_Kind operation) (op_ID operation)))
      | Some job => launch_job operation job
      end
  end.

(** [runOnce].  Every path through the body of its loop returns, so the body
    runs once. *)
Definition runOnce : WorldM JoinedErr :=
  draining ← draining_Load;
  if draining : bool then mret [mkWrapped "" ErrDraining] else
  acquired ← attempt (on_store AcquireNextOperation);
  match acquired with
  | Fail e => mret [mkWrapped "" e]
  | Ok None => mret []
  | Ok (Some operation) =>
      match op_Kind operation with
      | OperationJob =>
          read ← attempt (on_store (getJob (op_ID operation)));
          match read with
          | Fail e => mret [mkWrapped ("read admitted job " +:+ op_ID operation) e]
          | Ok job =>
              if bool_decide (jb_Status job = StatusPreparing) then mret []
              else prepare_operation operation (Some job)
          end
      | OperationBuild => prepare_operation operation None
      end
  end.

(** [RunOnce]: with a capacity controller, the reservation runs inside its
    [Admit]. *)
Definition DispatchOnce (Admit : option (WorldM JoinedErr -> WorldM JoinedErr)) : WorldM JoinedErr :=
  draining ← draining_Load;
  if draining : bool then mret [mkWrapped "" ErrDraining] else
  match Admit with
  | Some guarded => guarded runOnce
  | None => runOnce
  end.

(** [Release]. *)
Definition Release (kind : OperationKind) (id : string) : WorldM unit := Request kind id.

(** ** The contract with the preparers *)

(** A preparer works outside jobs, builds and the queue. *)
Class QueuePreparer (p : Preparer (R := R)) : Prop :=
  preparer_frame : forall o operation d r,
    wp o (p operation) (fun _ w => queue_frame d w.1) (fun _ w => queue_frame d w.1) (d, r).

Lemma lifecycle_frame (preparers : list (option (Preparer (R := R)))) :
  (forall p, Some p ∈ preparers -> QueuePreparer p) -> QueuePreparer (LifecyclePrepare preparers).
Proof.
  intros Hp o operation d r. revert d r. induction preparers as [|[p|] rest IH]; intros d r; cbn [LifecyclePrepare].
  - by apply wp_ret.
  - wp_step. eapply wp_mono; [apply (Hp p); constructor| |done]. intros _ [d1 r1] H1. cbn [fst] in H1.
    eapply wp_mono; [apply IH; intros q Hq; apply Hp; by constructor| |]; intros a w H2; by transitivity d1.
  - apply IH. intros q Hq. apply Hp. by constructor.
Qed.

End Dispatcher.

(** The resource manager is one: it writes baselines only. *)
#[export] Instance resources_frame `{ResourceRuntime R} : QueuePreparer Prepare.
Proof.
  intros o operation d r. unfold Prepare. wp_step. apply wp_attempt, wp_on_store. unfold ResourceBaseline, or_not_found.
  wp_step. apply wp_attempt, wp_fmap. apply wp_query_row; [|intros s Hs; apply wp_throw; by apply wp_throw].
  destruct (find_baseline _ _ d); [apply wp_ret; by apply wp_ret|]. apply wp_throw. wp_step. apply wp_on_runtime.
  eapply wp_mono; [apply rt_inventory_law| |by intros e r' ->]. intros s r' [-> _]. apply wp_on_store.
  unfold SaveResourceBaseline. wp_step. apply wp_now. intros now. wp_step.
  apply wp_insert_ignore; try done; intros; by apply wp_ret.
Qed.

(** ** One round *)

Section Round.
Context {R : Type} `{Scheduler R} `{ErrorText} (o : Oracle).

(** The operation runs: a build is running, a job has its service, which is
    cancelled if that was requested. *)
Definition started (k : OperationKind * string) (w : Database * R) : Prop :=
  match k.1 with
  | OperationBuild => exists b, b ∈ control_builds (tabs w.1) /\ br_id b = k.2 /\ br_status b = BuildRunning
  | OperationJob => sch_service w.2 k.2 /\
      forall j, j ∈ control_jobs (tabs w.1) -> jr_id j = k.2 -> jr_cancel_requested j = true -> sch_cancelled w.2 k.2
  end.

(** How a round that admits [k], with [rest] behind it, may end. *)
Definition admission_outcome (d : Database) (r : R) (k : OperationKind * string) (rest : list (OperationKind * string))
    (errs : JoinedErr) (w : Database * R) : Prop :=
  (errs <> [] /\ abs (tabs w.1) = mkLease (k :: rest) None) \/
  (abs (tabs w.1) = mkLease rest (Some (k, OperationAdmitting)) /\
     (errs = [] -> w.2 = r /\ exists j, j ∈ control_jobs (tabs d) /\ k = (OperationJob, jr_id j) /\ jr_status j = StatusPreparing)) \/
  (abs (tabs w.1) = mkLease rest (Some (k, OperationActive)) /\ (errs = [] -> started k w)) \/
  (errs <> [] /\ abs (tabs w.1) = mkLease rest (Some (k, OperationTerminalizing)) /\
     exists j, j ∈ control_jobs (tabs w.1) /\ k = (OperationJob, jr_id j) /\ jr_status j = StatusFailed).

(** The state of the store while a row is admitted. *)
Record admitting (rest : list (OperationKind * string)) (row : QueueRow) (d1 : Database) : Prop := {
  am_inv : QInv (tabs d1);
  am_row : row ∈ control_queue (tabs d1);
  am_state : q_state row = OperationAdmitting;
  am_abs : abs (tabs d1) = mkLease rest (Some (q_key row, OperationAdmitting))
}.

Lemma admitting_frame rest row d1 d2 : admitting rest row d1 -> queue_frame d1 d2 -> admitting rest row d2.
Proof.
  intros [H1 H2 H3 H4] (Ej & Eb & Eq & Es). split; [|by rewrite Eq|done|].
  - by apply (good_frame (tabs d1)).
  - unfold abs in *. by rewrite Eq.
Qed.

Context (d0 : Database) (r0 : R) (rest : list (OperationKind * string)) (row : QueueRow).

Lemma fail_admission_spec d1 r1 j errs e :
  admitting rest row d1 -> j ∈ control_jobs (tabs d1) -> q_key row = (OperationJob, jr_id j) -> errs <> [] ->
  wp o (fail_admission (jr_id j) errs e)
    (fun errs' w => QInv (tabs w.1) /\ admission_outcome d0 r0 (q_key row) rest errs' w) (fun _ _ => False) (d1, r1).
Proof.
  intros [HI Hr Hs Ha] Hj Hk He. unfold fail_admission. wp_step. apply wp_attempt, wp_on_store.
  assert (Hne : forall l : JoinedErr, errs ++ l <> []) by (intros l; by destruct errs).
  eapply wp_mono; [by apply (FailJob_spec o d1 row)| |].
  - intros job d2 (HI2 & Ha2 & j2 & Hj2 & Eid & Est & _). rewrite Ha in Ha2. cbn [waiting] in Ha2.
    assert (Hh2 : holder (abs (tabs d2)) = Some (q_key row, OperationTerminalizing)). { by rewrite Ha2. }
    destruct (holder_row_inv _ _ _ Hh2) as (row2 & Hr2 & Ek2 & Es2 & Hres2).
    wp_step. apply wp_collect, wp_on_store. rewrite Hk in Ek2. injection Ek2 as E1 E2. rewrite <- E1, <- E2.
    assert (Hout : QInv (tabs d2) /\ forall errs', errs' <> [] -> admission_outcome d0 r0 (q_key row) rest errs' (d2, r1)).
    { split; [done|]. intros errs' Hne'. right; right; right. split; [done|]. split; [done|]. exists j2. split; [done|].
      split; [by rewrite Hk, Eid|done]. }
    eapply wp_mono; [by apply BeginOperationCleanup_spec| |].
    + rewrite Es2. simpl. intros _ d3 ->. apply wp_ret. split; apply Hout. apply Hne.
    + intros e2 d3 [-> _]. apply wp_ret. split; apply Hout. apply Hne.
  - intros e2 d2 [->|(HI2 & Ha2 & j2 & Hj2 & Eid & Est & _)]; apply wp_ret.
    + split; [done|]. right; left. split; [done|]. intros E. by apply Hne in E.
    + split; [done|]. right; right; right. split; [apply Hne|]. split; [cbn [fst]; by rewrite Ha2, Ha|]. exists j2. split; [done|].
      split; [by rewrite Hk, Eid|done].
Qed.


(** An admission that stops with the operation still admitted. *)
Lemma still_admitting d1 r1 errs :
  admitting rest row d1 -> errs <> [] ->
  QInv (tabs d1) /\ admission_outcome d0 r0 (q_key row) rest errs (d1, r1).
Proof. intros [HI _ _ Ha] He. split; [done|]. right; left. split; [done|]. by intros ->. Qed.

Lemma launch_job_spec operation d1 r1 j :
  admitting rest row d1 -> j ∈ control_jobs (tabs d1) -> q_key row = (OperationJob, jr_id j) ->
  op_Kind operation = q_kind row -> op_ID operation = q_operation_id row ->
  wp o (launch_job operation (scanJob j))
    (fun errs w => QInv (tabs w.1) /\ admission_outcome d0 r0 (q_key row) rest errs w) (fun _ _ => False) (d1, r1).
Proof.
  intros Hadm Hj Hk Ek Ei. pose proof Hadm as [HI Hr Hs Ha]. pose proof Hk as Hk'. injection Hk' as Ek1 Ek2.
  unfold launch_job. wp_step. apply wp_attempt, wp_on_runtime.
  eapply wp_mono; [apply sch_create_law| |].
  - intros _ r2 [Hsvc _]. wp_step. apply wp_attempt, wp_on_store. rewrite Ek, Ei.
    eapply wp_mono; [by apply ActivateOperation_spec| |].
    2:{ intros e d2 ->. apply wp_ret. by apply still_admitting. }
    intros _ d2 (HI2 & Ha2 & Ej2 & _). rewrite Ha in Ha2. cbn [waiting] in Ha2.
    assert (Hact : forall errs w2, w2.1 = d2 -> (errs = [] -> started (q_key row) w2) ->
              QInv (tabs w2.1) /\ admission_outcome d0 r0 (q_key row) rest errs w2).
    { intros errs [d3 r3] E Hst. cbn [fst] in E. subst d3. split; [done|]. right; right; left. by split. }
    assert (Hj2 : j ∈ control_jobs (tabs d2)) by (by rewrite Ej2).
    wp_step. apply wp_attempt, wp_on_store. rewrite Ek2.
    apply (wp_getJob o d2 j); [done|done| |].
    2:{ intros s _. apply wp_ret. by apply Hact. }
    assert (Hstarted : forall r3, sch_service r3 (jr_id j) -> (jr_cancel_requested j = true -> sch_cancelled r3 (jr_id j)) ->
              started (q_key row) (d2, r3)).
    { intros r3 H1 H2. unfold started. rewrite Hk. cbn [fst snd]. split; [done|]. intros x Hx Ex Hc.
      assert (x = j) as -> by (by apply (same_job d2 HI2 j Hj2)). auto. }
    change (jb_CancelRequested (scanJob j)) with (jr_cancel_requested j). destruct (jr_cancel_requested j) eqn:Ec.
    + apply wp_collect, wp_on_runtime. eapply wp_mono; [apply sch_cancel_law| |].
      * intros _ r3 (Hkeep & Hcan & _). apply Hact; [done|]. intros _. apply Hstarted; [by apply Hkeep|]. intros _. apply Hcan. by apply Hkeep.
      * intros e r3 _. by apply Hact.
    + apply wp_ret. apply Hact; [done|]. intros _. apply Hstarted; [done|]. done.
  - intros e r2 _. wp_step. apply wp_context_cancellation. intros [].
    + apply wp_ret. by apply still_admitting.
    + rewrite Ei, Ek2. by apply fail_admission_spec.
Qed.

Context (preparer : option (Preparer (R := R))) (Hprep : forall p, preparer = Some p -> QueuePreparer p).

Lemma prepare_operation_spec operation d1 r1 job :
  admitting rest row d1 -> op_Kind operation = q_kind row -> op_ID operation = q_operation_id row ->
  match job with
  | None => q_kind row = OperationBuild
  | Some job => exists j, job = scanJob j /\ j ∈ control_jobs (tabs d1) /\ q_key row = (OperationJob, jr_id j)
  end ->
  wp o (prepare_operation preparer operation job)
    (fun errs w => QInv (tabs w.1) /\ admission_outcome d0 r0 (q_key row) rest errs w) (fun _ _ => False) (d1, r1).
Proof using Hprep.
  intros Hadm Ek Ei Hjob. unfold prepare_operation. wp_step. apply wp_attempt.
  apply wp_mono with (Q := fun _ w => queue_frame d1 w.1) (E := fun _ w => queue_frame d1 w.1).
  { destruct preparer as [p|]; [by apply Hprep|]. by apply wp_ret. }
  - intros _ [d2 r2] Hf. cbn [fst] in Hf. pose proof (admitting_frame _ _ _ _ Hadm Hf) as Hadm2. pose proof Hadm2 as [HI2 Hr2 Hs2 Ha2].
    destruct job as [job|].
    + destruct Hjob as (j & -> & Hj & Hk). apply launch_job_spec; try done. destruct Hf as (Ej & _). by rewrite Ej.
    + apply wp_collect, wp_on_store. rewrite Ek, Ei. eapply wp_mono; [by apply ActivateOperation_spec| |].
      * intros _ d3 (HI3 & Ha3 & _ & Hb). rewrite Ha2 in Ha3. cbn [waiting] in Ha3. split; [done|]. right; right; left. split; [done|].
        intros _. unfold started, q_key. rewrite Hjob. cbn [fst snd]. by apply Hb.
      * intros e d3 ->. by apply still_admitting.
  - intros e [d2 r2] Hf. cbn [fst] in Hf. pose proof (admitting_frame _ _ _ _ Hadm Hf) as Hadm2. pose proof Hadm2 as [HI2 Hr2 Hs2 Ha2].
    destruct (Permanent e && bool_decide (op_Kind operation = OperationJob)) eqn:Ep.
    + apply andb_true_iff in Ep as [_ Ekj]. apply bool_decide_eq_true in Ekj. destruct job as [job|]; [|congruence].
      destruct Hjob as (j & -> & Hj & Hk). pose proof Hk as Hk'. injection Hk' as _ Ek2. rewrite Ei, Ek2.
      apply fail_admission_spec; try done. destruct Hf as (Ej & _). by rewrite Ej.
    + wp_step. apply wp_collect, wp_on_store. rewrite Ek, Ei. eapply wp_mono; [by apply RequeueAdmittingOperation_spec| |].
      * intros _ d3 (HI3 & Ha3 & _). apply wp_ret. split; [done|]. left. split; [done|]. cbn [fst]. rewrite Ha3, Ha2. done.
      * intros e2 d3 [-> _]. apply wp_ret. by apply still_admitting.
Qed.

End Round.

(** A row of the queue belongs to a job or to a build. *)
Lemma queue_row_job t row :
  QInv t -> row ∈ control_queue t -> q_kind row = OperationJob ->
  exists j, j ∈ control_jobs t /\ q_key row = (OperationJob, jr_id j).
Proof.
  intros HI Hr Hk. assert (Hin : q_key row ∈ map q_key (control_queue t)) by (by apply list_elem_of_fmap_2).
  rewrite (qi_operations _ HI) in Hin. unfold operation_keys in Hin. apply elem_of_app in Hin as [Hin|Hin];
    apply list_elem_of_fmap in Hin as (x & E & Hx); [by exists x|]. unfold q_key in E. rewrite Hk in E. discriminate.
Qed.

Lemma wp_draining {R : Type} o (Q : bool -> Database * R -> Prop) (E : Err -> Database * R -> Prop) w :
  (forall b, Q b w) -> wp o draining_Load Q E w.
Proof. intros HQ n. apply HQ. Qed.

Lemma runOnce_spec {R : Type} `{Scheduler R} `{ErrorText} o d r (preparer : option (Preparer (R := R))) :
  (forall p, preparer = Some p -> QueuePreparer p) -> QInv (tabs d) ->
  wp o (runOnce preparer)
    (fun errs w => QInv (tabs w.1) /\
       match waiting (abs (tabs d)), holder (abs (tabs d)) with
       | k :: rest, None => admission_outcome d r k rest errs w
       | _, _ => w = (d, r)
       end)
    (fun _ _ => False) (d, r).
Proof.
  intros Hprep HI. unfold runOnce. wp_step. apply wp_draining. intros draining.
  assert (Hnone : forall errs : JoinedErr, errs <> [] -> QInv (tabs (d, r).1) /\
            match waiting (abs (tabs d)), holder (abs (tabs d)) with
            | k :: rest, None => admission_outcome d r k rest errs (d, r)
            | _, _ => (d, r) = (d, r)
            end).
  { intros errs He. split; [done|]. destruct (waiting (abs (tabs d))) as [|k rest] eqn:Ew; [done|].
    destruct (holder (abs (tabs d))) eqn:Eh; [done|]. left. split; [done|]. cbn [fst]. destruct (abs (tabs d)). simpl in *. by subst. }
  destruct draining; [apply wp_ret; by apply Hnone|]. wp_step. apply wp_attempt, wp_on_store.
  eapply wp_mono; [apply wp_and; [by apply AcquireNextOperation_spec|by apply AcquireNextOperation_preserves]| |].
  2:{ intros e d' [[-> _] _]. apply wp_ret. by apply Hnone. }
  intros acquired d1 [Hacq [HI1 _]]. destruct (waiting (abs (tabs d))) as [|k rest] eqn:Ew.
  { destruct Hacq as [-> ->]. by apply wp_ret. }
  destruct (holder (abs (tabs d))) as [h|] eqn:Eh.
  { destruct Hacq as [-> ->]. by apply wp_ret. }
  destruct Hacq as (row & at_ & fd & Hin & <- & Hq & -> & ->).
  set (row1 := q_lease OperationAdmitting (Some (unix at_)) row).
  set (d1 := mkDB (with_row row1 (tabs d)) fd).
  assert (Hadm : admitting rest row1 d1).
  { split; [done|apply (elem_of_with_row (tabs d) row); auto|done|by apply (abs_with_admitted (tabs d) row)]. }
  change (q_key row) with (q_key row1). change (op_Kind (admitted row at_)) with (q_kind row1).
  destruct (q_kind row1) eqn:Ek.
  - destruct (queue_row_job (tabs d1) row1 HI1 (am_row _ _ _ Hadm) Ek) as (j & Hj & Hk). pose proof Hk as Hk'. injection Hk' as _ Ei.
    change (op_ID (admitted row at_)) with (q_operation_id row). rewrite Ei. wp_step. apply wp_attempt, wp_on_store.
    apply (wp_getJob o d1 j); [done|done| |].
    2:{ intros s _. apply wp_ret. by apply (still_admitting d r rest row1). }
    case_bool_decide as Est.
    + apply wp_ret. split; [done|]. right; left. split; [apply Hadm|]. intros _. split; [done|]. exists j. done.
    + apply (prepare_operation_spec o d r rest row1 preparer Hprep); [done|done|done|]. by exists j.
  - by apply (prepare_operation_spec o d r rest row1 preparer Hprep).
Qed.
