(* ===== verification/DispatchTheorems.v ===== *)
(** * Correctness of the dispatcher *)
From S2P Require Import Prelude Model GoMonad GoLib Table Schema JobStore Lease QueueInv QueueOps QueueSpec QueueSystem QueueTheorems Identity Keeps IdentitySystem IdentityInv Resources Coordinator Dispatcher.

(** ** A concrete scheduler for the witnesses *)

(** The services of the runtime, each with its cancellation mark. *)
Definition Services_state : Type := list (string * bool).

Definition mark_cancelled (id : string) (r : Services_state) : Services_state :=
  map (fun s => if bool_decide (s.1 = id) then (s.1, true) else s) r.

Lemma mark_cancelled_elem id id' b r :
  (id', b) ∈ mark_cancelled id r <-> (id' <> id /\ (id', b) ∈ r) \/ (id' = id /\ b = true /\ exists b', (id', b') ∈ r).
Proof.
  unfold mark_cancelled. rewrite list_elem_of_In, List.in_map_iff. setoid_rewrite <- list_elem_of_In. split.
  - intros ([x c] & E & Hx). cbn [fst] in E. case_bool_decide; simplify_eq; [right; eauto|left; eauto].
  - intros [[Hne Hin]|(-> & -> & b' & Hin)].
    + exists (id', b). cbn [fst]. by rewrite bool_decide_eq_false_2.
    + exists (id, b'). cbn [fst]. by rewrite bool_decide_eq_true_2.
Qed.

#[local] Instance demo_scheduler : Scheduler Services_state.
Proof.
  refine {| sch_Create j := statement (fun r => Ok (tt, (jb_ID j, false) :: r));
            sch_Cancel id := statement (fun r => Ok (tt, mark_cancelled id r));
            sch_ManagedJobs := query (fun r => ([], None));
            sch_Remove id := statement (fun r => Ok (tt, select (fun s => negb (bool_decide (s.1 = id))) r));
            sch_service r id := exists b, (id, b) ∈ r;
            sch_cancelled r id := (id, true) ∈ r |}.
  - intros o j r. apply wp_statement; [|intros s _ id' _; done]. split; [exists false; constructor|].
    intros id' Hne. setoid_rewrite elem_of_cons. split; [naive_solver|]. split; [|by right]. intros [[= ? _]|?]; done.
  - intros o id r. apply wp_statement; [|intros s _; split; [done|intros id' _; done]]. setoid_rewrite mark_cancelled_elem.
    split; [naive_solver|]. split; [naive_solver|]. intros id' Hne. split; naive_solver.
  - intros o r. by apply wp_query.
  - intros o id r. apply wp_statement; [|intros s _ id' _; done]. intros id' Hne. setoid_rewrite elem_of_select. cbn [fst].
    rewrite bool_decide_eq_false_2 by done. naive_solver.
Defined.

#[local] Instance demo_dispatch_text : ErrorText := {| error_text _ := "admission failed" |}.

Definition demo_preparer : Preparer (R := Services_state) := fun operation =>
  on_store (SaveResourceBaseline (op_Kind operation) (op_ID operation) (mkResources [] [] [] [])).

#[local] Instance demo_preparer_frame : QueuePreparer demo_preparer.
Proof.
  intros o operation d r. unfold demo_preparer, SaveResourceBaseline. apply wp_on_store. wp_step. apply wp_now. intros now. wp_step.
  apply wp_insert_ignore; try done; intros; by apply wp_ret.
Qed.

(** ** C32 *)

(** C32: a round of the dispatcher admits the head of the line and never loses
    it.  When the worker is held or nothing waits, the round changes nothing.
    Otherwise it ends in one of four ways: the operation is still the head of
    the line, with an error reported; it holds the worker as [admitting], and
    if no error is reported it is a job whose source is still being prepared,
    for which the runtime was not touched; it is active, and if no error is
    reported the build runs or the job has its service, cancelled if that was
    requested; or its job failed and it is being torn down, with the error
    reported.  The line behind it never changes. *)
Theorem admission_round {R : Type} `{Scheduler R} `{ErrorText} o d r (preparer : option (Preparer (R := R))) :
  (forall p, preparer = Some p -> QueuePreparer p) -> reachable d ->
  wp o (runOnce preparer)
    (fun errs w => QInv (tabs w.1) /\
       match waiting (abs (tabs d)), holder (abs (tabs d)) with
       | k :: rest, None => admission_outcome d r k rest errs w
       | _, _ => w = (d, r)
       end)
    (fun _ _ => False) (d, r).
Proof. intros Hp Hr. apply runOnce_spec; [done|]. by apply reachable_QInv. Qed.

(** The job's source is uploaded, so the job waits at the head of the line. *)
Definition ready_state : Database :=
  (run_calls [CallCreatePreparedJob demo_job (mkIdempotency "key-0001" "h1"); CallAcquireNextOperation; CallQueueJob demo_job_id "digest"] (demo_db, 0%nat)).1.

(** An oracle whose random source answers no question of the environment with yes. *)
Definition calm_oracle : Oracle := mkOracle (fun n => Z.of_nat n * Second) (fun n => 0) (fun _ => None).

Lemma admission_round_witness :
  waiting (abs (tabs ready_state)) = [(OperationJob, demo_job_id)] /\
  wp calm_oracle (runOnce (Some demo_preparer))
    (fun errs w => admission_outcome ready_state [] (OperationJob, demo_job_id) [] errs w) (fun _ _ => False) (ready_state, []) /\
  match runOnce (Some demo_preparer) calm_oracle ((ready_state, []), 0%nat) with
  | (Ok errs, ((d', r'), _)) => Some (errs, r', abs (tabs d'))
  | _ => None
  end = Some ([], [(demo_job_id, false)], mkLease [] (Some ((OperationJob, demo_job_id), OperationActive))).
Proof.
  assert (Ew : abs (tabs ready_state) = mkLease [(OperationJob, demo_job_id)] None) by (vm_compute; reflexivity).
  split; [by rewrite Ew|]. split; [|vm_compute; reflexivity].
  eapply wp_mono; [apply (admission_round calm_oracle ready_state [] (Some demo_preparer))| |done].
  - intros p [= <-]. apply demo_preparer_frame.
  - apply demo_reachable.
  - intros errs w [_ Hout]. by rewrite Ew in Hout.
Defined.
