(* ===== verification/DispatchLoop.v ===== *)
(** * The admission loop

    [Advance], [Drain], [advance] and [finishAdvance] of
    [internal/control/dispatcher/dispatcher.go]: one goroutine serves every
    wake-up, and waits after an error for a timer, for a wake-up or for the end
    of the server's context. *)
From S2P Require Import Prelude.

(** ** The state *)

(** Where the goroutine is: before it clears [advancePending], in [RunOnce], or
    in the wait after an error. *)
Inductive AdvancePC := AtLoop | AtRunOnce | AtBackoff.

(** [al_wake]: the channel [advanceWake], of capacity one, holds a token.
    [al_ended]: [advanceCtx] has ended.  [al_workers]: the goroutines that
    [Advance] started and that have not returned.  [al_requests] counts the
    accepted wake-ups, [al_served] those that a [RunOnce] started after. *)
Record AdvanceState := mkAdvance {
  al_advancing : bool;
  al_pending : bool;
  al_wake : bool;
  al_draining : bool;
  al_ended : bool;
  al_workers : list AdvancePC;
  al_requests : Z;
  al_served : Z
}.

Definition advance_init : AdvanceState := mkAdvance false false false false false [] 0 0.

(** ** The critical sections *)

(** [Advance], under [advanceMu]. *)
Definition Advance (s : AdvanceState) : AdvanceState :=
  if al_draining s then s
  else if al_advancing s then
    mkAdvance true true true false (al_ended s) (al_workers s) (al_requests s + 1) (al_served s)
  else
    mkAdvance true true (al_wake s) false (al_ended s) (AtLoop :: al_workers s) (al_requests s + 1) (al_served s).

Definition Drain (s : AdvanceState) : AdvanceState :=
  mkAdvance (al_advancing s) (al_pending s) (al_wake s) true (al_ended s) (al_workers s) (al_requests s) (al_served s).

(** The end of the context the server gave the dispatcher. *)
Definition end_advance_context (s : AdvanceState) : AdvanceState :=
  mkAdvance (al_advancing s) (al_pending s) (al_wake s) (al_draining s) true (al_workers s) (al_requests s) (al_served s).

(** The head of the loop: [advancePending = false]. *)
Definition begin_round (s : AdvanceState) (workers : list AdvancePC) : AdvanceState :=
  mkAdvance (al_advancing s) false (al_wake s) (al_draining s) (al_ended s) workers (al_requests s) (al_requests s).

Definition move (s : AdvanceState) (wake : bool) (workers : list AdvancePC) : AdvanceState :=
  mkAdvance (al_advancing s) (al_pending s) wake (al_draining s) (al_ended s) workers (al_requests s) (al_served s).

(** [finishAdvance], and the end of a loop without a pending wake-up. *)
Definition finishAdvance (s : AdvanceState) (workers : list AdvancePC) : AdvanceState :=
  mkAdvance false (al_pending s) (al_wake s) (al_draining s) (al_ended s) workers (al_requests s) (al_served s).

(** One critical section or one choice of a [select] per step. *)
Inductive advance_step : AdvanceState -> AdvanceState -> Prop :=
| step_advance s : advance_step s (Advance s)
| step_drain s : advance_step s (Drain s)
| step_end s : advance_step s (end_advance_context s)
| step_begin s w1 w2 : al_workers s = w1 ++ AtLoop :: w2 ->
    advance_step s (begin_round s (w1 ++ AtRunOnce :: w2))
| step_failed s w1 w2 : al_workers s = w1 ++ AtRunOnce :: w2 ->         (* an error of the round *)
    advance_step s (move s (al_wake s) (w1 ++ AtBackoff :: w2))
| step_stop s w1 w2 : al_workers s = w1 ++ AtRunOnce :: w2 ->           (* ErrDraining, or the context ended *)
    al_draining s || al_ended s = true -> advance_step s (finishAdvance s (w1 ++ w2))
| step_timer s w1 w2 : al_workers s = w1 ++ AtBackoff :: w2 ->
    advance_step s (move s (al_wake s) (w1 ++ AtLoop :: w2))
| step_woken s w1 w2 : al_workers s = w1 ++ AtBackoff :: w2 -> al_wake s = true ->
    advance_step s (move s false (w1 ++ AtLoop :: w2))
| step_done s w1 w2 : al_workers s = w1 ++ AtBackoff :: w2 -> al_ended s = true ->
    advance_step s (finishAdvance s (w1 ++ w2))
| step_again s w1 w2 : al_workers s = w1 ++ AtRunOnce :: w2 -> al_pending s = true ->
    advance_step s (move s (al_wake s) (w1 ++ AtLoop :: w2))
| step_idle s w1 w2 : al_workers s = w1 ++ AtRunOnce :: w2 -> al_pending s = false ->
    advance_step s (finishAdvance s (w1 ++ w2)).

(** ** The invariant *)

(** One goroutine while [advancing].  A wake-up that no round has started after
    is pending with a goroutine to serve it, until the loop is told to stop; once
    that goroutine is past the head of the loop, a token lies in the channel. *)
Record AdvanceInv (s : AdvanceState) : Prop := {
  ai_single : length (al_workers s) = if al_advancing s then 1%nat else 0%nat;
  ai_served : al_served s <= al_requests s;
  ai_pending : al_draining s || al_ended s = false -> al_served s < al_requests s -> al_pending s = true /\ al_advancing s = true;
  ai_token : al_served s < al_requests s -> forall pc, pc ∈ al_workers s -> pc <> AtLoop -> al_wake s = true
}.

Lemma advance_init_inv : AdvanceInv advance_init.
Proof. split; simpl; [done|lia|lia|lia]. Qed.

Lemma only_worker s w1 pc w2 : AdvanceInv s -> al_workers s = w1 ++ pc :: w2 -> w1 = [] /\ w2 = [] /\ al_advancing s = true.
Proof.
  intros [H1 _ _ _] Ew. rewrite Ew, length_app in H1. simpl in H1. destruct (al_advancing s); [|lia].
  repeat split; apply nil_length_inv; lia.
Qed.

Lemma Advance_inv s : AdvanceInv s -> AdvanceInv (Advance s).
Proof.
  intros HI. pose proof HI as [H1 H2 H3 H4]. unfold Advance.
  destruct (al_draining s) eqn:Ed; [done|]. destruct (al_advancing s) eqn:Ea; split; simpl; try done; try lia.
  intros _ pc Hpc Hne. apply nil_length_inv in H1. rewrite H1 in Hpc. apply list_elem_of_singleton in Hpc. congruence.
Qed.

(** The state after a step of the one goroutine. *)
Ltac the_worker HI :=
  match goal with Ew : al_workers ?s = ?w1 ++ ?pc :: ?w2 |- _ =>
    destruct (only_worker s w1 pc w2 HI Ew) as (-> & -> & Ha); simpl in Ew end.

Lemma advance_step_inv s s' : AdvanceInv s -> advance_step s s' -> AdvanceInv s'.
Proof.
  intros HI Hs. pose proof HI as [H1 H2 H3 H4].
  destruct Hs as [s|s|s|s w1 w2 Ew|s w1 w2 Ew|s w1 w2 Ew Hd|s w1 w2 Ew|s w1 w2 Ew Hw|s w1 w2 Ew Hd|s w1 w2 Ew Hp|s w1 w2 Ew Hp];
    [by apply Advance_inv|split; simpl; try done|split; simpl; try done|..]; try the_worker HI.
  - by rewrite orb_true_r.
  - split; simpl; [by rewrite Ha|lia|lia|lia].
  - split; simpl; [by rewrite Ha|done|done|]. intros Hlt pc Hpc Hne.
    apply (H4 Hlt AtRunOnce); [rewrite Ew; constructor|done].
  - split; simpl; [done|done| |]; [intros E; congruence|]. intros _ pc Hpc. by apply elem_of_nil in Hpc.
  - split; simpl; [by rewrite Ha|done|done|]. intros Hlt pc Hpc Hne. apply list_elem_of_singleton in Hpc. congruence.
  - split; simpl; [by rewrite Ha|done|done|]. intros Hlt pc Hpc Hne. apply list_elem_of_singleton in Hpc. congruence.
  - split; simpl; [done|done| |]; [intros E; rewrite Hd, orb_true_r in E; congruence|].
    intros _ pc Hpc. by apply elem_of_nil in Hpc.
  - split; simpl; [by rewrite Ha|done|done|]. intros Hlt pc Hpc Hne. apply list_elem_of_singleton in Hpc. congruence.
  - split; simpl; [done|done| |].
    + intros E Hlt. destruct (H3 E Hlt). congruence.
    + intros _ pc Hpc. by apply elem_of_nil in Hpc.
Qed.

Lemma reachable_advance s : rtc advance_step advance_init s -> AdvanceInv s.
Proof.
  intros Hr. apply rtc_ind_r with (P := AdvanceInv) in Hr; [done|apply advance_init_inv|].
  intros y z _ Hstep HI. by eapply advance_step_inv.
Qed.

(** ** Progress *)

(** One turn of the goroutine that does not wait for the timer; [failed]: the
    round it is in, if any, returns an error. *)
Definition turn (failed : bool) (s : AdvanceState) : option AdvanceState :=
  match al_workers s with
  | [AtLoop] => Some (begin_round s [AtRunOnce])
  | [AtRunOnce] =>
      if failed then Some (move s (al_wake s) [AtBackoff])
      else if al_pending s then Some (move s (al_wake s) [AtLoop])
      else Some (finishAdvance s [])
  | [AtBackoff] => if al_wake s then Some (move s false [AtLoop]) else None
  | _ => None
  end.

Lemma turn_is_step failed s s' : turn failed s = Some s' -> advance_step s s'.
Proof.
  unfold turn. destruct (al_workers s) as [|[] [|]] eqn:Ew; try done.
  - intros [= <-]. by apply (step_begin s [] []).
  - destruct failed; [intros [= <-]; by apply (step_failed s [] [])|].
    destruct (al_pending s) eqn:Ep; intros [= <-]; [by apply (step_again s [] [])|by apply (step_idle s [] [])].
  - destruct (al_wake s) eqn:Ek; [|done]. intros [= <-]. by apply (step_woken s [] []).
Qed.

Fixpoint turns (n : nat) (failed : bool) (s : AdvanceState) : option AdvanceState :=
  match n with O => Some s | S n => s' ← turn failed s; turns n failed s' end.

(** Whether rounds fail or not, an unserved wake-up is served by the goroutine
    within three turns of its own, none of which waits for the timer. *)
Lemma wakeup_is_served_promptly failed s :
  AdvanceInv s -> al_draining s || al_ended s = false -> al_served s < al_requests s ->
  exists n s', (n <= 3)%nat /\ turns n failed s = Some s' /\ al_served s' = al_requests s.
Proof.
  intros [H1 H2 H3 H4] Hd Hlt. destruct (H3 Hd Hlt) as [Hp Ha]. rewrite Ha in H1.
  destruct (al_workers s) as [|pc [|]] eqn:Ew; try done.
  assert (Hw : pc <> AtLoop -> al_wake s = true) by (intros Hne; apply (H4 Hlt pc); [constructor|done]).
  destruct pc.
  - exists 1%nat. eexists. split; [lia|]. unfold turns, turn. by rewrite Ew.
  - destruct failed; [exists 3%nat|exists 2%nat]; eexists; (split; [lia|]); unfold turns, turn; rewrite Ew, ?Hp; simpl; by rewrite ?Hw.
  - exists 2%nat. eexists. split; [lia|]. unfold turns, turn. by rewrite Ew, Hw.
Qed.

(** In every state the dispatcher reaches at most one admission loop runs, and
    until it is told to stop the loop does not end, nor wait for its timer,
    before it has served every wake-up. *)
Lemma admission_wakeups_are_not_lost s :
  rtc advance_step advance_init s ->
  (length (al_workers s) <= 1)%nat /\
  (al_draining s || al_ended s = false -> al_served s < al_requests s ->
     (forall s', advance_step s s' -> al_draining s' || al_ended s' = false -> length (al_workers s') = 1%nat) /\
     forall failed, exists n s', (n <= 3)%nat /\ turns n failed s = Some s' /\ al_served s' = al_requests s).
Proof.
  intros Hr. pose proof (reachable_advance s Hr) as HI. split; [rewrite (ai_single s HI); by destruct (al_advancing s); lia|].
  intros Hd Hlt. split; [|intros failed; by apply wakeup_is_served_promptly].
  destruct (ai_pending s HI Hd Hlt) as [Hp Ha]. intros s' Hs Hd'. pose proof (advance_step_inv s s' HI Hs) as HI'.
  rewrite (ai_single s' HI'). assert (E : al_advancing s' = true); [|by rewrite E].
  destruct Hs; simpl in *; try done; try congruence.
  - unfold Advance. destruct (al_draining s), (al_advancing s); done.
  - rewrite H0, orb_true_r in Hd. done.
Qed.
