(* ===== verification/Reconciler.v ===== *)
(** * The reconciler

    [internal/control/reconciler/reconciler.go]: each round cancels abandoned
    preparations and builds, carries the runtime's view of the scheduled jobs
    into the store, and removes services that have outlived their retention. *)
From stdpp Require Import gmap.
From S2P Require Import Prelude Model GoMonad GoLib Table Schema JobStore Lease QueueInv QueueOps QueueSpec Reads Identity Keeps IdentitySystem IdentityInv Resources Coordinator Dispatcher.

(** [Config]: the durations, and whether a dispatcher is configured. *)
Record Config := mkConfig {
  rc_Dispatcher : bool;
  rc_ServiceRetention : duration;
  rc_AdmissionGrace : duration;
  rc_BuildLeaseTimeout : duration;
  rc_JobPreparationLeaseTimeout : duration
}.

(** [New]: the defaults of the durations that are not positive. *)
Definition NewReconciler (c : Config) : Config :=
  let positive d default := if d <=? 0 then default else d in
  mkConfig (rc_Dispatcher c) (positive (rc_ServiceRetention c) Hour) (positive (rc_AdmissionGrace c) (15 * Second))
    (positive (rc_BuildLeaseTimeout c) (2 * Minute)) (positive (rc_JobPreparationLeaseTimeout c) (2 * Minute)).

Section Reconciler.
Context {R : Type} `{Scheduler R} (config : Config).
#[local] Abbreviation WorldM := (M (Database * R)).

(** A loop that collects the errors of its rounds. *)
Fixpoint each {A : Type} (f : A -> WorldM JoinedErr) (l : list A) : WorldM JoinedErr :=
  match l with
  | [] => mret []
  | x :: rest => errs ← f x; more ← each f rest; mret (errs ++ more)
  end.

(** A list whose error is collected reads as empty. *)
Definition list_or {A : Type} (context : string) (m : StoreM (list A)) : WorldM (list A * JoinedErr) :=
  r ← attempt (on_store m);
  mret match r with Ok l => (l, []) | Fail e => ([], [mkWrapped context e]) end.

Definition release (context : string) (kind : OperationKind) (id : string) : WorldM JoinedErr :=
  if rc_Dispatcher config then collect context (Release kind id) else mret [].

Definition cancel_preparation (job : Job) : WorldM JoinedErr :=
  r ← attempt (on_store (RequestJobCancellation (jb_ID job)));
  match r with
  | Fail e => mret [mkWrapped ("cancel stale job preparation " +:+ jb_ID job) e]
  | Ok _ => release ("release stale job preparation " +:+ jb_ID job) OperationJob (jb_ID job)
  end.

Definition cancel_build (build : Build) : WorldM JoinedErr :=
  r ← attempt (on_store (FinishBuild (bd_ID build) BuildCancelled 130));
  match r with
  | Fail e => mret [mkWrapped ("cancel stale build " +:+ bd_ID build) e]
  | Ok _ => release ("release stale build " +:+ bd_ID build) OperationBuild (bd_ID build)
  end.

(** *** The runtime's view *)

(** [remoteByID] and [poisoned], filled in list order. *)
Definition remotes (managed : list RuntimeJob) : gmap string RemoteJob :=
  fold_left (fun m result => match rt_Err result with Some _ => m | None => <[rj_ID (rt_Job result) := rt_Job result]> m end) managed ∅.
Definition poisoned (managed : list RuntimeJob) (id : string) : bool :=
  existsb (fun result => match rt_Err result with Some _ => bool_decide (rt_ID result = id) | None => false end) managed.
Definition inspection_errors (managed : list RuntimeJob) : JoinedErr :=
  result ← managed;
  match rt_Err result with Some e => [mkWrapped ("inspect managed job " +:+ rt_ID result) e] | None => [] end.

(** The report the reconciler makes up for a service that is gone. *)
Definition lost_job (id : string) (now : time) : RemoteJob :=
  mkRemoteJob id StatusLost "" zero_time None (Some now) false (Some 1) "managed Swarm service is missing".

(** The operation of a job, if there is one; another error is returned. *)
Definition operation_of (context id : string) : WorldM (JoinedErr + option Operation) :=
  r ← attempt (on_store (getOperation OperationJob id));
  mret match r with
       | Ok operation => inr (Some operation)
       | Fail ErrNotFound => inr None
       | Fail e => inl [mkWrapped context e]
       end.

(** Leased so recently that its service may not be listed yet. *)
Definition in_grace (now : time) (operation : option Operation) : bool :=
  match operation ≫= op_LeasedAt with Some t => now - rc_AdmissionGrace config <? t | None => false end.

(** The report to store for a job, or the end of its round. *)
Definition remote_state (now : time) (managed : list RuntimeJob) (managedErr : option Err) (id : string)
    : WorldM (JoinedErr + RemoteJob) :=
  match remotes managed !! id with
  | None =>
      match managedErr with
      | Some _ => mret (inl [])
      | None =>
          operation ← operation_of ("read admission lease for job " +:+ id) id;
          mret match operation with
               | inl errs => inl errs
               | inr operation => if in_grace now operation then inl [] else inr (lost_job id now)
               end
      end
  | Some remote =>
      operation ← operation_of ("read operation for job " +:+ id) id;
      match operation with
      | inl errs => mret (inl errs)
      | inr (Some operation) =>
          if bool_decide (op_State operation = OperationAdmitting) then
            errs ← collect ("activate admitted job " +:+ id) (on_store (ActivateOperation OperationJob id));
            mret match errs with [] => inr remote | _ => inl errs end
          else mret (inr remote)
      | inr None => mret (inr remote)
      end
  end.

Definition sync_job (now : time) (managed : list RuntimeJob) (managedErr : option Err) (id : string) : WorldM JoinedErr :=
  if poisoned managed id then mret [] else
  remote ← remote_state now managed managedErr id;
  match remote with
  | inl errs => mret errs
  | inr remote =>
      stored ← attempt (on_store (SyncJob id remote));
      match stored with
      | Fail e => mret [mkWrapped ("synchronize job " +:+ id) e]
      | Ok job => if Terminal (jb_Status job) then release ("release job " +:+ id) OperationJob id else mret []
      end
  end.

(** *** Services past their retention *)

Definition removeAfter (remote : RemoteJob) (stored : option Job) : time :=
  match stored with
  | Some job =>
      match jb_FinishedAt job, rj_FinishedAt remote with
      | Some t, _ => t
      | None, Some t => t
      | None, None => rj_CreatedAt remote
      end
  | None => default (rj_CreatedAt remote) (rj_FinishedAt remote)
  end.

Definition remove_service (now : time) (result : RuntimeJob) : WorldM JoinedErr :=
  match rt_Err result with
  | Some _ => mret []
  | None =>
      let remote := rt_Job result in
      read ← attempt (on_store (getJob (rj_ID remote)));
      let stored := match read with Ok job => Some job | Fail _ => None end in
      match read with
      | Fail ErrNotFound | Ok _ =>
          if match stored with Some job => negb (Terminal (jb_Status job)) | None => false end then mret [] else
          let t := removeAfter remote stored in
          if bool_decide (t = zero_time) || (now - rc_ServiceRetention config <? t) then mret []
          else collect ("remove managed job " +:+ rj_ID remote) (on_runtime (sch_Remove (rj_ID remote)))
      | Fail e => mret [mkWrapped ("read managed job " +:+ rj_ID remote) e]
      end
  end.

(** [RunOnce]. *)
Definition ReconcileOnce : WorldM JoinedErr :=
  now ← time_Now;
  stalePreparations ← list_or "list stale job preparations" (StalePreparingJobs (now - rc_JobPreparationLeaseTimeout config));
  errs1 ← each cancel_preparation stalePreparations.1;
  staleBuilds ← list_or "list stale builds" (StaleBuilds (now - rc_BuildLeaseTimeout config));
  errs2 ← each cancel_build staleBuilds.1;
  scheduled ← list_or "list scheduled jobs" ScheduledJobs;
  listed ← attempt (on_runtime sch_ManagedJobs);
  let managed := match listed with Ok (l, _) => l | Fail _ => [] end in
  let managedErr := match listed with Ok (_, e) => e | Fail e => Some e end in
  errs3 ← each (fun job => sync_job now managed managedErr (jb_ID job)) scheduled.1;
  errs4 ← each (remove_service now) managed;
  mret (stalePreparations.2 ++ errs1 ++ staleBuilds.2 ++ errs2 ++ scheduled.2 ++
        match managedErr with Some e => [mkWrapped "list managed jobs" e] | None => [] end ++
        inspection_errors managed ++ errs3 ++ errs4).

End Reconciler.
