(* ===== verification/ReconcilerTheorems.v ===== *)
(** * Correctness of the reconciler *)
From stdpp Require Import gmap.
From S2P Require Import Prelude Model GoMonad GoLib Table Schema JobStore Lease QueueInv QueueOps QueueSpec QueueSystem Reads Identity Keeps IdentitySystem IdentityInv Resources Coordinator Dispatcher Reconciler QueueTheorems DispatchTheorems.

(** A guarantee of what the reconciler asks of the store for one job is a
    guarantee of its round. *)
Section Loops.
Context {R : Type} `{Scheduler R} (config : Config) (G : Database -> Database -> Prop) `{!PreOrder G}.

Lemma keeps_each {A} (f : A -> M (Database * R) JoinedErr) l :
  (forall x, x ∈ l -> keeps (store_rel G) (f x)) -> keeps (store_rel G) (each f l).
Proof using PreOrder0.
  induction l as [|x l IH]; intros Hf; cbn [each]; repeat world_step; [apply Hf; constructor|].
  apply IH. intros y Hy. apply Hf. by constructor.
Qed.

Lemma keeps_sync_job now managed managedErr id :
  keeps G (getOperation OperationJob id) -> keeps G (ActivateOperation OperationJob id) ->
  (forall remote, keeps G (SyncJob id remote)) -> keeps G (BeginOperationCleanup OperationJob id) ->
  keeps (store_rel G) (sync_job (R := R) config now managed managedErr id).
Proof using PreOrder0.
  intros H1 H2 H3 H4. unfold sync_job, remote_state, operation_of, release, Release, Request.
  repeat (world_step || done).
Qed.

End Loops.

(** ** The queue under reconciliation *)

Lemma getOperation_preserves kind id : preserves (getOperation kind id).
Proof. unfold getOperation. apply or_not_found_preserves, preserves_fmap, preserves_query_row. Qed.

Lemma reconcile_keeps_good {R : Type} `{Scheduler R} config : keeps (store_rel good_rel) (ReconcileOnce (R := R) config).
Proof.
  unfold ReconcileOnce, list_or, StalePreparingJobs, StaleBuilds, ScheduledJobs.
  repeat (world_step || (apply keeps_each; [apply _|intros ? _])).
  - unfold cancel_preparation, release, Release, Request. repeat world_step; apply keeps_preserves.
    + apply RequestJobCancellation_preserves.
    + apply BeginOperationCleanup_preserves.
  - unfold cancel_build, release, Release, Request. repeat world_step; apply keeps_preserves.
    + apply FinishBuild_preserves.
    + apply BeginOperationCleanup_preserves.
  - apply keeps_sync_job; [apply _|..]; intros; apply keeps_preserves;
      auto using getOperation_preserves, ActivateOperation_preserves, SyncJob_preserves, BeginOperationCleanup_preserves.
  - unfold remove_service. repeat world_step. apply keeps_preserves, getJob_preserves.
Qed.

Lemma total_each {R A : Type} (f : A -> M (Database * R) JoinedErr) l : (forall x, total (f x)) -> total (each f l).
Proof. intros Hf. induction l as [|x l IH]; cbn [each]; repeat total_step; auto. Qed.

Lemma reconcile_total {R : Type} `{Scheduler R} config : total (ReconcileOnce (R := R) config).
Proof.
  unfold ReconcileOnce, list_or. repeat (total_step || (apply total_each; intros ?));
    unfold cancel_preparation, cancel_build, sync_job, remote_state, operation_of, remove_service, release; repeat total_step.
Qed.


(** ** When a job is declared lost *)

(** The rows of one job. *)
Definition same_rows (id : string) (d d' : Database) : Prop :=
  select (fun j => bool_decide (jr_id j = id)) (control_jobs (tabs d')) = select (fun j => bool_decide (jr_id j = id)) (control_jobs (tabs d)) /\
  select (fun q => bool_decide (q_key q = (OperationJob, id))) (control_queue (tabs d')) =
    select (fun q => bool_decide (q_key q = (OperationJob, id))) (control_queue (tabs d)).

#[export] Instance same_rows_preorder id : PreOrder (same_rows id).
Proof. unfold same_rows. split; [done|]. intros d1 d2 d3 [? ?] [? ?]. split; congruence. Qed.

Lemma select_update_other {A} (q p : A -> bool) f rows :
  (forall x, p x = true -> q x = false /\ q (f x) = false) -> select q (update_where p f rows) = select q rows.
Proof.
  intros Hf. unfold select, update_where. induction rows as [|x rows IH]; simpl; [done|].
  destruct (p x) eqn:E; [|by rewrite IH]. destruct (Hf x E) as [-> ->]. exact IH.
Qed.

(** A statement on the rows of another operation. *)
Ltac same_rows_leaf :=
  open_statement; unfold same_rows;
  match goal with Hs : tabs _ = _ |- _ => rewrite Hs end; cbn [t_rows t_set ControlJobs ControlQueue ControlBuilds];
  split; try reflexivity; apply select_update_other; intros x Hx;
  first [apply q_match_key in Hx | unfold j_match in Hx; apply andb_true_iff in Hx as [Hx _]; apply bool_decide_eq_true in Hx];
  split; apply bool_decide_eq_false; simpl; unfold q_key in *; simpl; congruence.

Lemma other_activate id kind id' : (kind, id') <> (OperationJob, id) -> keeps (same_rows id) (ActivateOperation kind id').
Proof. intros Hne. unfold ActivateOperation, expect_one. repeat keep_step; try same_rows_leaf. Qed.

Lemma other_sync id id' remote : id' <> id -> keeps (same_rows id) (SyncJob id' remote).
Proof. intros Hne. unfold SyncJob, getJob, or_not_found. repeat keep_step; same_rows_leaf. Qed.

Lemma other_begin id kind id' : (kind, id') <> (OperationJob, id) -> keeps (same_rows id) (BeginOperationCleanup kind id').
Proof. intros Hne. unfold BeginOperationCleanup, OperationStateOf, or_not_found. repeat keep_step; same_rows_leaf. Qed.

Lemma other_sync_job {R : Type} config now managed managedErr id id' :
  id' <> id -> keeps (store_rel (same_rows id)) (sync_job (R := R) config now managed managedErr id').
Proof.
  intros Hne. apply keeps_sync_job; [apply _|..].
  - unfold getOperation, or_not_found. repeat keep_step.
  - apply other_activate. congruence.
  - intros remote. by apply other_sync.
  - apply other_begin. congruence.
Qed.

(** Every status of the job afterwards is one it had before, or [s]. *)
Definition status_from (id : string) (s : Status) (d d' : Database) : Prop :=
  forall j', j' ∈ control_jobs (tabs d') -> jr_id j' = id ->
    jr_status j' = s \/ exists j, j ∈ control_jobs (tabs d) /\ jr_id j = id /\ jr_status j = jr_status j'.

#[export] Instance status_from_preorder id s : PreOrder (status_from id s).
Proof.
  unfold status_from. split; [intros d j' Hj E; eauto|]. intros d1 d2 d3 H1 H2 j' Hj E.
  destruct (H2 j' Hj E) as [?|(j & Hj2 & E2 & Es)]; [by left|]. rewrite <- Es. by apply H1.
Qed.

Lemma status_from_sync id remote : keeps (status_from id (rj_Status remote)) (SyncJob id remote).
Proof.
  unfold SyncJob, getJob, or_not_found. repeat keep_step; open_statement; unfold status_from; rewrite Hs;
    cbn [t_rows t_set ControlJobs ControlQueue control_jobs set_control_jobs set_control_queue]; intros j' Hj E.
  - apply elem_of_update in Hj as (j & Hj & ->). destruct (j_match id live j) eqn:Em; [by left|]. right. eauto.
  - right. eauto.
Qed.

Lemma status_from_begin id s kind id' : keeps (status_from id s) (BeginOperationCleanup kind id').
Proof.
  unfold BeginOperationCleanup, OperationStateOf, or_not_found. repeat keep_step. open_statement. unfold status_from. rewrite Hs.
  cbn [t_rows t_set ControlQueue control_jobs set_control_queue]. intros j' Hj E. right. eauto.
Qed.

Lemma status_from_activate id s kind id' : keeps (status_from id s) (ActivateOperation kind id').
Proof.
  unfold ActivateOperation, expect_one. repeat keep_step; try (open_statement; unfold status_from; rewrite Hs;
    cbn [t_rows t_set ControlQueue ControlBuilds control_jobs set_control_queue set_control_builds]; intros j' Hj E; right; by eauto).
Qed.

Section Lost.
Context {R : Type} (config : Config) (now : time) (managed : list RuntimeJob) (managedErr : option Err).

(** The report the round goes by for a job: none when its service cannot be
    judged, that is when its inspection failed, when the list is incomplete
    without it, or when it is missing within the grace period of its lease. *)
Definition evidence (d : Database) (id : string) : option RemoteJob :=
  if poisoned managed id then None else
  match remotes managed !! id with
  | Some remote => Some remote
  | None =>
      match managedErr with
      | Some _ => None
      | None => if in_grace config now (scanOperation <$> find_queue OperationJob id d) then None else Some (lost_job id now)
      end
  end.

Definition explained (d : Database) (id : string) (d' : Database) : Prop :=
  forall j', j' ∈ control_jobs (tabs d') -> jr_id j' = id ->
    (exists j, j ∈ control_jobs (tabs d) /\ jr_id j = id /\ jr_status j = jr_status j') \/
    (exists remote, evidence d id = Some remote /\ jr_status j' = rj_Status remote).

Lemma explained_from d id remote d' : evidence d id = Some remote -> status_from id (rj_Status remote) d d' -> explained d id d'.
Proof. intros He Hs j' Hj E. destruct (Hs j' Hj E) as [?|?]; [right; eauto|by left]. Qed.

Lemma explained_refl d id : explained d id d.
Proof. intros j' Hj E. left. eauto. Qed.

Lemma explained_frame d d1 d2 id : same_rows id d d1 -> explained d1 id d2 -> explained d id d2.
Proof.
  intros [Ej Eq] H j' Hj E. destruct (H j' Hj E) as [(j & Hj1 & E1 & Es)|(remote & He & Es)].
  - left. exists j. split; [|done]. assert (Hin : j ∈ select (fun j => bool_decide (jr_id j = id)) (control_jobs (tabs d1))).
    { apply elem_of_select. split; [done|]. by apply bool_decide_eq_true. }
    rewrite Ej in Hin. by apply elem_of_select in Hin as [? _].
  - right. exists remote. split; [|done]. unfold evidence, find_queue in *. by rewrite <- Eq.
Qed.

Lemma explained_after d d1 d2 id : explained d id d1 -> same_rows id d1 d2 -> explained d id d2.
Proof.
  intros H [Ej _] j' Hj E. apply H; [|done].
  assert (Hin : j' ∈ select (fun j => bool_decide (jr_id j = id)) (control_jobs (tabs d2))).
  { apply elem_of_select. split; [done|]. by apply bool_decide_eq_true. }
  rewrite Ej in Hin. by apply elem_of_select in Hin as [? _].
Qed.

(** [operation_of] reads the row of the operation. *)
Lemma wp_operation_of o ctx id d (r : R) (Q : JoinedErr + option Operation -> Database * R -> Prop) E :
  Q (inr (scanOperation <$> find_queue OperationJob id d)) (d, r) -> (forall errs, Q (inl errs) (d, r)) ->
  wp o (operation_of ctx id) Q E (d, r).
Proof.
  intros HQ HE. unfold operation_of, getOperation, or_not_found. wp_step. apply wp_attempt, wp_on_store. wp_step. apply wp_attempt, wp_fmap.
  apply wp_query_row; [|intros s _; apply wp_throw, wp_ret; apply HE].
  destruct (find_queue OperationJob id d) as [q|]; [by apply wp_ret, wp_ret|by apply wp_throw, wp_ret].
Qed.

Lemma sync_job_explained o d r id :
  wp o (sync_job (R := R) config now managed managedErr id) (fun _ w => explained d id w.1) (fun _ w => explained d id w.1) (d, r).
Proof.
  unfold sync_job. destruct (poisoned managed id) eqn:Ep; [apply wp_ret, explained_refl|]. wp_step.
  assert (Hstore : forall remote d1 (r1 : R), evidence d id = Some remote -> status_from id (rj_Status remote) d d1 ->
    wp o (stored ← attempt (on_store (SyncJob id remote));
          match stored with
          | Fail e => mret [mkWrapped ("synchronize job " +:+ id) e]
          | Ok job => if Terminal (jb_Status job) then release config ("release job " +:+ id) OperationJob id else mret []
          end) (fun _ w => explained d id w.1) (fun _ w => explained d id w.1) (d1, r1)).
  { intros remote d1 r1 He Hs1. eapply wp_mono; [|intros a w Hw; eapply explained_from; [exact He|]; transitivity d1; [exact Hs1|exact Hw]..].
    match goal with |- wp _ ?m _ _ _ => assert (Hk : keeps (store_rel (status_from id (rj_Status remote))) m) end; [|apply Hk].
    unfold release, Release, Request. repeat world_step; [apply status_from_sync|apply status_from_begin]. }
  unfold remote_state. destruct (remotes managed !! id) as [remote|] eqn:Er.
  - assert (He : evidence d id = Some remote) by (unfold evidence; by rewrite Ep, Er).
    wp_step. apply wp_operation_of; [|intros errs; apply wp_ret, wp_ret, explained_refl].
    destruct (find_queue OperationJob id d) as [q|]; cbn [fmap option_fmap option_map]; [|by apply wp_ret, Hstore].
    case_bool_decide; [|by apply wp_ret, Hstore]. wp_step. apply wp_collect, wp_on_store.
    eapply wp_mono; [apply (status_from_activate id (rj_Status remote))| |]; simpl.
    + intros _ d1 H1. apply wp_ret. by apply Hstore.
    + intros e d1 H1. apply wp_ret, wp_ret. by eapply explained_from.
  - destruct managedErr as [e|] eqn:Em; [apply wp_ret, wp_ret, explained_refl|]. wp_step.
    apply wp_operation_of; [|intros errs; apply wp_ret, wp_ret, explained_refl]. apply wp_ret.
    destruct (in_grace config now (scanOperation <$> find_queue OperationJob id d)) eqn:Eg; [apply wp_ret, explained_refl|].
    apply Hstore; [|done]. unfold evidence. by rewrite Ep, Er, Em, Eg.
Qed.

End Lost.


(** ** Which services are removed *)

(** A service may go: the list shows it, the store does not know its job or
    knows it as finished, and its retention is over. *)
Definition removable (config : Config) (now : time) (managed : list RuntimeJob) (d : Database) (id : string) : Prop :=
  exists result, result ∈ managed /\ rt_Err result = None /\ rj_ID (rt_Job result) = id /\
    let stored := scanJob <$> find_job id d in
    (forall job, stored = Some job -> Terminal (jb_Status job) = true) /\
    removeAfter (rt_Job result) stored <> zero_time /\
    removeAfter (rt_Job result) stored <= now - rc_ServiceRetention config.

Lemma remove_service_spec {R : Type} `{Scheduler R} config now result o d (r : R) :
  wp o (remove_service config now result)
    (fun _ w => w.1 = d /\ forall id, sch_service r id -> sch_service w.2 id \/ removable config now [result] d id)
    (fun _ _ => False) (d, r).
Proof.
  unfold remove_service. destruct (rt_Err result) as [e|] eqn:Ee; [apply wp_ret; split; [done|by left]|].
  wp_step. apply wp_attempt, wp_on_store. unfold getJob, or_not_found. wp_step. apply wp_attempt, wp_fmap.
  apply wp_query_row; [|intros s _; apply wp_throw; apply wp_ret; split; [done|by left]].
  set (id := rj_ID (rt_Job result)).
  assert (Hrem : forall stored, stored = scanJob <$> find_job id d -> (forall job, stored = Some job -> Terminal (jb_Status job) = true) ->
    wp o (if bool_decide (removeAfter (rt_Job result) stored = zero_time) || (now - rc_ServiceRetention config <? removeAfter (rt_Job result) stored)
          then mret [] else collect ("remove managed job " +:+ id) (on_runtime (sch_Remove id)))
      (fun _ w => w.1 = d /\ forall id, sch_service r id -> sch_service w.2 id \/ removable config now [result] d id)
      (fun _ _ => False) (d, r)).
  { intros stored Es Ht. destruct (_ || _) eqn:Ec; [apply wp_ret; split; [done|by left]|]. split_bools.
    assert (Hgone : forall r', sch_others id r r' -> (d, r').1 = d /\ forall id, sch_service r id -> sch_service (d, r').2 id \/ removable config now [result] d id).
    { intros r' Ho. split; [done|]. intros id' Hs'. destruct (decide (id' = id)) as [->|Hne]; [right|left; by apply Ho].
      exists result. split; [constructor|]. split; [done|]. split; [done|]. cbv zeta. rewrite <- Es. split; [done|]. split; [done|]. done. }
    apply wp_collect, wp_on_runtime. eapply wp_mono; [apply sch_remove_law| |]; intros a r' Ho; by apply Hgone. }
  destruct (find_job id d) as [j|] eqn:Ej.
  - apply wp_ret. cbv beta zeta iota. destruct (Terminal (jb_Status (scanJob j))) eqn:Et; cbn [negb]; [|apply wp_ret; split; [done|by left]].
    apply Hrem; [done|]. by intros job [= <-].
  - apply wp_throw. by apply Hrem.
Qed.

(** No service of a live job is removed.  The last phase of the round
    changes nothing in the store, and every service that disappears was listed
    without error, belongs to no job of the store or to a finished one, and is
    past its retention. *)
Lemma removed_services_are_expired {R : Type} `{Scheduler R} config now managed o d (r : R) :
  wp o (each (remove_service config now) managed)
    (fun _ w => w.1 = d /\ forall id, sch_service r id -> sch_service w.2 id \/ removable config now managed d id)
    (fun _ _ => False) (d, r).
Proof.
  revert r. induction managed as [|result managed IH]; intros r; cbn [each]; [apply wp_ret; split; [done|by left]|].
  wp_step. eapply wp_mono; [apply remove_service_spec| |done]. intros errs [d1 r1] [E H1]. cbn [fst snd] in *. subst d1.
  wp_step. eapply wp_mono; [apply IH| |done]. intros more [d2 r2] [E H2]. cbn [fst snd] in *. subst d2. apply wp_ret.
  split; [done|]. intros id Hs. destruct (H1 id Hs) as [Hs1|(x & Hx & Hrest)].
  - destruct (H2 id Hs1) as [?|(x & Hx & Hrest)]; [by left|]. right. exists x. split; [by constructor|done].
  - right. exists x. apply list_elem_of_singleton in Hx as ->. split; [constructor|done].
Qed.

(** ** Abandoned preparations *)

(** A released operation is not touched by a request for its teardown. *)
Lemma begin_released o d row :
  QInv (tabs d) -> row ∈ control_queue (tabs d) -> q_state row = OperationReleased ->
  wp o (BeginOperationCleanup (q_kind row) (q_operation_id row)) (fun _ d' => d' = d) (interrupted o d) d.
Proof.
  intros HI Hr Hs. unfold BeginOperationCleanup. wp_step. apply wp_now. intros now. wp_step.
  apply (wp_queue_miss o d HI); [| |auto].
  - intros x Hx Hk Hst. assert (x = row) as -> by (by eapply q_key_inj). rewrite Hs in Hst. set_solver.
  - simpl. wp_step. apply wp_OperationStateOf; [done|done| |auto]. rewrite Hs. by apply wp_ret.
Qed.

(** An abandoned preparation does not block the line.  When the reconciler
    cancels a job that is still being prepared, the job is finished as
    cancelled; if it waited it leaves the line, and if it was being admitted
    its operation is being torn down, which the cleanup then completes.  With a
    driver that reports no error nothing fails. *)
Lemma stale_preparation_is_freed {R : Type} config o d (r : R) j row :
  reachable d -> reliable o -> rc_Dispatcher config = true ->
  j ∈ control_jobs (tabs d) -> jr_status j = StatusPreparing ->
  row ∈ control_queue (tabs d) -> q_key row = (OperationJob, jr_id j) -> q_state row ∈ [OperationQueued; OperationAdmitting] ->
  wp o (cancel_preparation config (scanJob j))
    (fun errs w => errs = [] /\ w.2 = r /\
       (exists j', j' ∈ control_jobs (tabs w.1) /\ jr_id j' = jr_id j /\ jr_status j' = StatusCancelled) /\
       (exists row', row' ∈ control_queue (tabs w.1) /\ q_key row' = q_key row /\
          q_state row' = if waits row then OperationReleased else OperationTerminalizing))
    (fun _ _ => False) (d, r).
Proof.
  intros Hr Ho Hd Hj Hst Hrow Hk Hq. apply reachable_QInv in Hr.
  unfold cancel_preparation. wp_step. apply wp_attempt, wp_on_store. change (jb_ID (scanJob j)) with (jr_id j).
  eapply wp_mono; [apply wp_and; [by apply (RequestJobCancellation_spec o d j row)|by apply RequestJobCancellation_preserves]| |].
  2:{ intros e d1 [[(Ht & _)|(s & Hs & _)] _]; [by rewrite Hst in Ht|exfalso; by eapply reliable_fails]. }
  intros job d1 [(_ & finished & updated & _ & E1) (HI1 & _)].
  set (j' := cancelled_job (jr_id j) (tabs d) finished j) in *.
  assert (Hj1 : j' ∈ control_jobs (tabs d1) /\ jr_id j' = jr_id j /\ jr_status j' = StatusCancelled).
  { split; [|split; [done|]].
    - rewrite E1. unfold cancelled_queue. destruct (waits row);
        (apply elem_of_replace with (r := j); [apply unique_valid_jobs, Hr|done|done|by left]).
    - unfold j', cancelled_job, cancels_now. simpl. by rewrite Hst. }
  unfold release. rewrite Hd. apply wp_collect, wp_on_store. unfold cancelled_queue in E1. pose proof Hk as Hk'. injection Hk' as Ek1 Ek2.
  replace (BeginOperationCleanup OperationJob (jr_id j)) with (BeginOperationCleanup (q_kind row) (q_operation_id row))
    by (by rewrite Ek1, Ek2).
  destruct (waits row) eqn:Ew.
  - set (row' := q_move OperationReleased (unix updated) row) in *.
    assert (Hrow' : row' ∈ control_queue (tabs d1)).
    { rewrite E1. apply elem_of_replace with (r := row); [apply Hr|done|done|by left]. }
    eapply wp_mono; [by apply (begin_released o d1 row')| |].
    + intros _ d2 ->. split; [done|]. split; [done|]. split; [exists j'; exact Hj1|]. by exists row'.
    + intros e d2 Hi. exfalso. by eapply interrupted_reliable.
  - assert (Hrow1 : row ∈ control_queue (tabs d1)) by (by rewrite E1).
    assert (Hadm : q_state row = OperationAdmitting).
    { unfold waits in Ew. apply bool_decide_eq_false in Ew. apply elem_of_cons in Hq as [?|Hq]; [done|]. by apply list_elem_of_singleton in Hq. }
    eapply wp_mono; [apply (BeginOperationCleanup_spec o d1 row); [done|done|by rewrite Hadm]| |].
    + rewrite Hadm. simpl. intros _ d2 (now & fd & ->). split; [done|]. split; [done|]. split; [exists j'; exact Hj1|].
      exists (q_move OperationTerminalizing (unix now) row). split; [|done].
      apply elem_of_replace with (r := row); [apply HI1|done|done|by left].
    + intros e d2 Hi. exfalso. by eapply interrupted_reliable.
Qed.

(** ** Witnesses *)

#[local] Existing Instance demo_scheduler.

Definition demo_config : Config := NewReconciler (mkConfig true 0 0 0 0).



Lemma stale_preparation_is_freed_witness :
  exists j, control_jobs (tabs demo_state) = [j] /\
  wp demo_oracle (cancel_preparation demo_config (scanJob j))
    (fun errs w => errs = [] /\ exists j', j' ∈ control_jobs (tabs w.1) /\ jr_status j' = StatusCancelled)
    (fun _ _ => False) (demo_state, [] : Services_state).
Proof.
  destruct demo_rows as (j & r1 & r2 & Ej & Eq & Eid & Est & Ek & Es). exists j. split; [done|].
  eapply wp_mono; [apply (stale_preparation_is_freed demo_config demo_oracle demo_state ([] : Services_state) j r1)| |done].
  - apply demo_reachable.
  - by intros n.
  - reflexivity.
  - rewrite Ej. constructor.
  - exact Est.
  - rewrite Eq. constructor.
  - by rewrite Eid.
  - rewrite Es. repeat constructor.
  - intros errs w (-> & _ & (j' & Hj' & _ & Hs') & _). split; [reflexivity|]. exists j'. exact (conj Hj' Hs').
Defined.

(** ** A race with the dispatcher *)

(** A job listed as scheduled whose admission is then put back, so that its
    lease is cleared, is not in its grace period any more: a round that still
    holds the old list declares it lost although it waits in the line. *)
Lemma requeued_job_is_declared_lost :
  let now := 3 * Second in
  let requeued := (run_call (CallRequeueAdmittingOperation OperationJob demo_job_id) demo_oracle
                     ((run_call CallAcquireNextOperation demo_oracle (ready_state, 0%nat)).2)).2.1 in
  abs (tabs requeued) = mkLease [(OperationJob, demo_job_id)] None /\
  (fun w => map jr_status (control_jobs (tabs w.1.1)))
    (sync_job (R := Services_state) demo_config now [] None demo_job_id demo_oracle ((requeued, []), 0%nat)).2 = [StatusLost].
Proof. split; vm_compute; reflexivity. Qed.
