(* ===== verification/Capacity.v ===== *)
(** * The capacity controller

    [internal/capacity/policy.go] and [controller.go]: the thresholds of the
    worker's disk, and the decision, before each admission and in maintenance,
    to go on, to defer, to reclaim space or to stop the running operation. *)
From S2P Require Import Prelude Model GoMonad GoLib.

(** ** The policy *)

Record Policy := mkCapacityPolicy {
  cp_SoftFreePercent : Z;
  cp_SoftFreeMinimumBytes : Z;
  cp_HardFreePercent : Z;
  cp_HardFreeMinimumBytes : Z;
  cp_SweepPercent : Z;
  cp_SweepMinimumBytes : Z;
  cp_MinimumFreeInodes : Z;
  cp_JobRetention : duration;
  cp_CacheHighPercent : Z;
  cp_CacheLowPercent : Z;
  cp_NormalObjectAge : duration;
  cp_PressureThrottle : duration
}.

Record ThresholdSet := mkThresholds { th_SoftFreeBytes : Z; th_TargetFreeBytes : Z; th_HardFreeBytes : Z }.

Definition gib : Z := 1024 * 1024 * 1024.

Definition DefaultPolicy : Policy :=
  mkCapacityPolicy 20 (20 * gib) 5 (8 * gib) 5 (5 * gib) 10 (7 * 24 * Hour) 10 8 (24 * Hour) (30 * Second).

(** [total*percent/100] on [uint64]. *)
Definition percent_of (total percent : Z) : Z := wrapu64 (total * percent) / 100.

Definition Thresholds (p : Policy) (total : Z) : ThresholdSet :=
  let soft := Z.max (percent_of total (cp_SoftFreePercent p)) (cp_SoftFreeMinimumBytes p) in
  let hard := Z.max (percent_of total (cp_HardFreePercent p)) (cp_HardFreeMinimumBytes p) in
  let sweep := Z.max (percent_of total (cp_SweepPercent p)) (cp_SweepMinimumBytes p) in
  mkThresholds soft (wrapu64 (soft + sweep)) hard.

(** ** The controller *)

Inductive Trigger := TriggerAdmission | TriggerPeriodic | TriggerPressure | TriggerManual.

#[export] Instance Trigger_eq_dec : EqDecision Trigger.
Proof. solve_decision. Defined.

Record Snapshot := mkSnapshot {
  sn_TotalBytes : Z; sn_FreeBytes : Z; sn_TotalInodes : Z; sn_FreeInodes : Z; sn_ObservedAt : time
}.
Definition zero_snapshot : Snapshot := mkSnapshot 0 0 0 0 zero_time.

Record ReclaimRequest := mkReclaimRequest {
  rq_Trigger : Trigger; rq_Pressure : bool; rq_TargetFreeBytes : Z; rq_JobRetention : duration;
  rq_CacheHighBytes : Z; rq_CacheLowBytes : Z; rq_NormalObjectAge : duration
}.

(** A maintenance command the host reports; its rendering is not modelled. *)
Inductive Command :=
| ContainerPrune (age : duration) (all : bool)
| NetworkPrune (age : duration)
| VolumePrune
| ImagePrune (age : duration)
| ImageRemove (id : string)
| BuildkitPrune.

Record ReclaimReport := mkReport { rp_ReclaimedBytes : Z; rp_RemovedJobs : Z; rp_RemovedCaches : Z; rp_Commands : list Command }.
Definition zero_report : ReclaimReport := mkReport 0 0 0 [].

(** [Status.State]. *)
Inductive CapacityState := StateNone | StateHealthy | StateBlocked | StateDeferred | StateEmergency | StateReclaiming.

(** [Status]; its error is kept as a value. *)
Record CapacityStatus := mkStatus {
  cs_State : CapacityState; cs_Trigger : Trigger; cs_Before : Snapshot; cs_After : Snapshot;
  cs_Thresholds : ThresholdSet; cs_Reclaim : ReclaimReport; cs_Error : option Err; cs_CompletedAt : time
}.
Definition zero_status : CapacityStatus :=
  mkStatus StateNone TriggerAdmission zero_snapshot zero_snapshot (mkThresholds 0 0 0) zero_report None zero_time.

Definition st_fail (state : CapacityState) (e : Err) (s : CapacityStatus) : CapacityStatus :=
  mkStatus state (cs_Trigger s) (cs_Before s) (cs_After s) (cs_Thresholds s) (cs_Reclaim s) (Some e) (cs_CompletedAt s).
Definition st_state (state : CapacityState) (s : CapacityStatus) : CapacityStatus :=
  mkStatus state (cs_Trigger s) (cs_Before s) (cs_After s) (cs_Thresholds s) (cs_Reclaim s) (cs_Error s) (cs_CompletedAt s).
Definition st_after (after : Snapshot) (s : CapacityStatus) : CapacityStatus :=
  mkStatus (cs_State s) (cs_Trigger s) (cs_Before s) after (cs_Thresholds s) (cs_Reclaim s) (cs_Error s) (cs_CompletedAt s).
Definition st_reclaim (report : ReclaimReport) (s : CapacityStatus) : CapacityStatus :=
  mkStatus (cs_State s) (cs_Trigger s) (cs_Before s) (cs_After s) (cs_Thresholds s) report (cs_Error s) (cs_CompletedAt s).
Definition st_completed (now : time) (s : CapacityStatus) : CapacityStatus :=
  mkStatus (cs_State s) (cs_Trigger s) (cs_Before s) (cs_After s) (cs_Thresholds s) (cs_Reclaim s) (cs_Error s) now.

(** [status.Reclaim] after the report of a second reclaim is added to it. *)
Definition add_report (a b : ReclaimReport) : ReclaimReport :=
  mkReport (wrapu64 (rp_ReclaimedBytes a + rp_ReclaimedBytes b)) (wrap64 (rp_RemovedJobs a + rp_RemovedJobs b))
    (wrap64 (rp_RemovedCaches a + rp_RemovedCaches b)) (rp_Commands a ++ rp_Commands b).

Definition inodePressure (snapshot : Snapshot) (minimumPercent : Z) : bool :=
  (0 <? sn_TotalInodes snapshot) && (wrapu64 (sn_FreeInodes snapshot * 100) <? wrapu64 (sn_TotalInodes snapshot * minimumPercent)).

Definition capacityError (snapshot : Snapshot) (thresholds : ThresholdSet) (minimumInodes : Z) : Err :=
  ErrResourceExhausted (sn_FreeBytes snapshot) (th_SoftFreeBytes thresholds) (sn_FreeInodes snapshot)
    (percent_of (sn_TotalInodes snapshot) minimumInodes).

(** [Backend].  [bk_view] is the disk as it is and [bk_busy] whether an
    operation occupies the worker: measuring and asking report them and change
    nothing.  [Reclaim] returns its report also when it fails. *)
Class Backend (W : Type) := {
  bk_Lock : M W unit;
  bk_Snapshot : M W Snapshot;
  bk_Busy : M W bool;
  bk_Reclaim : ReclaimRequest -> M W (ReclaimReport * option Err);
  bk_Emergency : M W unit;
  bk_view : W -> Snapshot;
  bk_busy : W -> bool;
  bk_snapshot_law : forall o w,
    wp o bk_Snapshot (fun s w' => w' = w /\ s = bk_view w) (fun _ w' => w' = w) w;
  bk_busy_law : forall o w, wp o bk_Busy (fun b w' => w' = w /\ b = bk_busy w) (fun _ w' => w' = w) w
}.

(** The fields of [Controller] that change. *)
Record ControllerState := mkController { ct_status : CapacityStatus; ct_lastPressure : time }.

Section Controller.
Context {W : Type} `{Backend W} (policy : Policy).
#[local] Abbreviation CM := (M (W * ControllerState)).

(** An assignment to the controller's fields, under [Controller.mu]. *)
Definition set_controller (f : ControllerState -> ControllerState) : CM unit :=
  on_runtime (c ← get_db; put_db (f c)).

(** [c.status = status] and the return, at a time already read or read now. *)
Definition complete_at (now : time) (status : CapacityStatus) (err : option WrappedErr) : CM (CapacityStatus * option WrappedErr) :=
  _ ← set_controller (fun c => mkController (st_completed now status) (ct_lastPressure c));
  mret (st_completed now status, err).
Definition complete (status : CapacityStatus) (err : option WrappedErr) : CM (CapacityStatus * option WrappedErr) :=
  now ← time_Now; complete_at now status err.

Definition low (thresholdBytes : Z) (s : Snapshot) : bool :=
  (sn_FreeBytes s <? thresholdBytes) || inodePressure s (cp_MinimumFreeInodes policy).

Definition reclaim_request (trigger : Trigger) (pressure : bool) (before : Snapshot) (thresholds : ThresholdSet) : ReclaimRequest :=
  mkReclaimRequest trigger pressure (th_TargetFreeBytes thresholds) (cp_JobRetention policy)
    (percent_of (sn_TotalBytes before) (cp_CacheHighPercent policy))
    (percent_of (sn_TotalBytes before) (cp_CacheLowPercent policy)) (cp_NormalObjectAge policy).

(** The gate before a reclaim: go on with the status, or return. *)
Definition reclaim_gate (hardPressure : bool) (status : CapacityStatus)
    : CM (CapacityStatus * option WrappedErr + CapacityStatus) :=
  busy ← attempt (on_store bk_Busy);
  match busy with
  | Fail e => inl <$> complete (st_fail StateBlocked e status) (Some (mkWrapped "read worker activity" e))
  | Ok false => mret (inr status)
  | Ok true =>
      if negb hardPressure then inl <$> complete (st_state StateDeferred status) None else
      stopped ← attempt (on_store bk_Emergency);
      match stopped with
      | Fail e =>
          inl <$> complete (st_fail StateBlocked e status) (Some (mkWrapped "stop active operation before emergency reclaim" e))
      | Ok _ =>
          still ← attempt (on_store bk_Busy);
          match still with
          | Fail e =>
              inl <$> complete (st_fail StateBlocked e status) (Some (mkWrapped "verify worker activity after emergency" e))
          | Ok true =>
              let e := ErrText "worker remains busy after emergency stop" in
              inl <$> complete (st_fail StateBlocked e status) (Some (mkWrapped "" e))
          | Ok false => mret (inr (st_state StateEmergency status))
          end
      end
  end.

(** The throttle of pressure runs. *)
Definition throttle (trigger : Trigger) (status : CapacityStatus) : CM (CapacityStatus * option WrappedErr + CapacityStatus) :=
  if negb (bool_decide (trigger = TriggerPressure)) then mret (inr status) else
  now ← time_Now;
  c ← on_runtime get_db;
  if (0 <? cp_PressureThrottle policy) && (now - ct_lastPressure c <? cp_PressureThrottle policy)
  then inl <$> complete_at now (st_state StateReclaiming status) None
  else _ ← set_controller (fun c => mkController (ct_status c) now); mret (inr status).

(** Reclaim and measure again. *)
Definition reclaim (trigger : Trigger) (pressure : bool) (status : CapacityStatus)
    : CM (CapacityStatus * option WrappedErr + CapacityStatus) :=
  let request := reclaim_request trigger pressure (cs_Before status) (cs_Thresholds status) in
  result ← attempt (on_store (bk_Reclaim request));
  let '(report, err) := match result with Ok x => x | Fail e => (zero_report, Some e) end in
  let status := st_reclaim report status in
  match err with
  | Some e => inl <$> complete (st_fail StateBlocked e status) (Some (mkWrapped "reclaim worker capacity" e))
  | None =>
      after ← attempt (on_store bk_Snapshot);
      match after with
      | Fail e => mret (inl (zero_status, Some (mkWrapped "remeasure worker capacity" e)))
      | Ok s => mret (inr (st_after s status))
      end
  end.

(** Below the hard threshold: stop the operation and reclaim once more.  An
    error of the last measurement reads as an empty snapshot. *)
Definition emergency_reclaim (trigger : Trigger) (status : CapacityStatus) : CM CapacityStatus :=
  let status := st_state StateEmergency status in
  stopped ← attempt (on_store bk_Emergency);
  match stopped with
  | Fail e => mret (st_fail (cs_State status) e status)
  | Ok _ =>
      result ← attempt (on_store (bk_Reclaim (reclaim_request trigger true (cs_Before status) (cs_Thresholds status))));
      let '(report, err) := match result with Ok x => x | Fail e => (zero_report, Some e) end in
      let status := st_reclaim (add_report (cs_Reclaim status) report) status in
      let status := match err with Some e => st_fail (cs_State status) e status | None => status end in
      after ← attempt (on_store bk_Snapshot);
      mret (st_after (match after with Ok s => s | Fail _ => zero_snapshot end) status)
  end.

(** The verdict on the last measurement. *)
Definition verdict (status : CapacityStatus) : CM (CapacityStatus * option WrappedErr) :=
  if low (th_SoftFreeBytes (cs_Thresholds status)) (cs_After status) then
    let e := capacityError (cs_After status) (cs_Thresholds status) (cp_MinimumFreeInodes policy) in
    complete (st_fail StateBlocked e status) (Some (mkWrapped "" e))
  else complete (st_state StateHealthy status) None.

(** Go on with the status, unless the phase returned. *)
Definition and_then (phase : CM (CapacityStatus * option WrappedErr + CapacityStatus))
    (rest : CapacityStatus -> CM (CapacityStatus * option WrappedErr)) : CM (CapacityStatus * option WrappedErr) :=
  r ← phase; match r with inl result => mret result | inr status => rest status end.

Definition runLocked (trigger : Trigger) : CM (CapacityStatus * option WrappedErr) :=
  measured ← attempt (on_store bk_Snapshot);
  match measured with
  | Fail e => mret (zero_status, Some (mkWrapped "measure worker capacity" e))
  | Ok before =>
      let thresholds := Thresholds policy (sn_TotalBytes before) in
      let pressure := low (th_SoftFreeBytes thresholds) before in
      let hardPressure := low (th_HardFreeBytes thresholds) before in
      let status := mkStatus StateHealthy trigger before before thresholds zero_report None zero_time in
      if bool_decide (trigger = TriggerPressure) && negb pressure then complete status None else
      let needsReclaim := pressure || negb (bool_decide (trigger = TriggerAdmission)) in
      and_then (if needsReclaim then reclaim_gate hardPressure status else mret (inr status)) (fun status =>
      and_then (throttle trigger status) (fun status =>
      let status := if pressure then st_state StateReclaiming status else status in
      and_then (if needsReclaim then reclaim trigger pressure status else mret (inr status)) (fun status =>
      status ← (if low (th_HardFreeBytes thresholds) (cs_After status) then emergency_reclaim trigger status else mret status);
      verdict status)))
  end.

(** [Admit]: the reservation runs after a successful check, under both locks. *)
Definition Admit (reserve : CM JoinedErr) : CM JoinedErr :=
  locked ← attempt (on_store bk_Lock);
  match locked with
  | Fail e => mret [mkWrapped "lock worker capacity" e]
  | Ok _ =>
      r ← runLocked TriggerAdmission;
      match r.2 with
      | Some e => mret [e]
      | None => reserve
      end
  end.

(** [run], [Ensure] and [Maintain]. *)
Definition run (trigger : Trigger) : CM (CapacityStatus * option WrappedErr) :=
  locked ← attempt (on_store bk_Lock);
  match locked with
  | Fail e => mret (zero_status, Some (mkWrapped "lock worker capacity" e))
  | Ok _ => runLocked trigger
  end.
Definition Ensure : CM (option WrappedErr) := snd <$> run TriggerAdmission.
Definition Maintain (trigger : Trigger) : CM (CapacityStatus * option WrappedErr) := run trigger.

(** [Check]. *)
Definition CheckCapacity : CM (option Err) :=
  measured ← attempt (on_store bk_Snapshot);
  match measured with
  | Fail e => mret (Some e)
  | Ok snapshot =>
      let thresholds := Thresholds policy (sn_TotalBytes snapshot) in
      mret (if low (th_HardFreeBytes thresholds) snapshot
            then Some (capacityError snapshot thresholds (cp_MinimumFreeInodes policy)) else None)
  end.

End Controller.
