(* ===== verification/CapacityTheorems.v ===== *)
(** * Correctness of the capacity controller *)
From S2P Require Import Prelude Model GoMonad GoLib Coordinator Capacity.

(** ** Thresholds *)

(** The disk is small enough for the percentages not to overflow, and the hard
    limits do not exceed the soft ones. *)
Record policy_ok (p : Policy) (total : Z) : Prop := {
  po_total : 0 <= total;
  po_soft : 0 <= cp_SoftFreePercent p /\ total * cp_SoftFreePercent p < 2 ^ 64;
  po_hard : 0 <= cp_HardFreePercent p <= cp_SoftFreePercent p;
  po_minimum : 0 < cp_SoftFreeMinimumBytes p /\ cp_HardFreeMinimumBytes p <= cp_SoftFreeMinimumBytes p
}.

Lemma percent_exact total percent : 0 <= total -> 0 <= percent -> total * percent < 2 ^ 64 -> percent_of total percent = total * percent / 100.
Proof. intros H1 H2 H3. unfold percent_of. rewrite wrapu64_id; [done|]. nia. Qed.

Lemma percent_mono total p q : 0 <= total -> 0 <= p <= q -> total * q < 2 ^ 64 -> percent_of total p <= percent_of total q.
Proof. intros Ht Hp Hq. rewrite !percent_exact by nia. apply Z.div_le_mono; nia. Qed.

Lemma hard_le_soft p total : policy_ok p total -> th_HardFreeBytes (Thresholds p total) <= th_SoftFreeBytes (Thresholds p total).
Proof.
  intros [Ht [Hs1 Hs2] Hh [Hm1 Hm2]]. cbn [Thresholds th_HardFreeBytes th_SoftFreeBytes].
  apply Z.max_le_compat; [|done]. by apply percent_mono.
Qed.

Lemma soft_positive p total : policy_ok p total -> 0 < th_SoftFreeBytes (Thresholds p total).
Proof. intros [_ _ _ [Hm _]]. cbn [Thresholds th_SoftFreeBytes]. lia. Qed.

Lemma low_mono p a b s : a <= b -> low p a s = true -> low p b s = true.
Proof.
  intros Hab. unfold low. rewrite !orb_true_iff, !Z.ltb_lt. intros [?|?]; [left; lia|by right].
Qed.

(** The thresholds of the default policy.  For every disk below 922 PB the
    soft limit is a fifth of the disk but at least 20 GiB, the hard limit a
    twentieth but at least 8 GiB, and reclaiming aims a twentieth, at least
    5 GiB, above the soft limit, all exactly: no product or sum wraps around,
    and hard < soft < target. *)
Lemma default_thresholds total :
  0 <= total < 2 ^ 64 / 20 ->
  let t := Thresholds DefaultPolicy total in
  th_SoftFreeBytes t = Z.max (total / 5) (20 * gib) /\ th_HardFreeBytes t = Z.max (total / 20) (8 * gib) /\
  th_TargetFreeBytes t = Z.max (total / 5) (20 * gib) + Z.max (total / 20) (5 * gib) /\
  th_HardFreeBytes t < th_SoftFreeBytes t < th_TargetFreeBytes t.
Proof.
  intros Ht t. assert (Hb : 2 ^ 64 / 20 = 922337203685477580) by reflexivity. rewrite Hb in Ht.
  assert (E20 : percent_of total 20 = total / 5).
  { rewrite percent_exact by lia. change 100 with (5 * 20). by rewrite Z.div_mul_cancel_r by lia. }
  assert (E5 : percent_of total 5 = total / 20).
  { rewrite percent_exact by lia. change 100 with (20 * 5). by rewrite Z.div_mul_cancel_r by lia. }
  pose proof (Z.div_le_mono total 922337203685477580 5). pose proof (Z.div_le_mono total 922337203685477580 20).
  change (922337203685477580 / 5) with 184467440737095516 in *. change (922337203685477580 / 20) with 46116860184273879 in *.
  pose proof (Z.div_pos total 5). pose proof (Z.div_pos total 20).
  pose proof (Z.div_le_compat_l total 5 20). assert (Hg : gib = 1073741824) by reflexivity.
  unfold t, Thresholds, DefaultPolicy. cbn [cp_SoftFreePercent cp_SoftFreeMinimumBytes cp_HardFreePercent cp_HardFreeMinimumBytes
    cp_SweepPercent cp_SweepMinimumBytes th_SoftFreeBytes th_TargetFreeBytes th_HardFreeBytes].
  rewrite E20, E5, Hg. rewrite wrapu64_id by lia.
  assert (Hlt : total / 20 < total / 5 \/ total / 5 < 20 * 1073741824).
  { destruct (Z.lt_ge_cases (total / 5) (20 * 1073741824)) as [?|Hge]; [by right|left].
    assert (total / 20 = total / 5 / 4) as -> by (rewrite Z.div_div by lia; done). apply Z.div_lt; lia. }
  lia.
Qed.

Lemma default_thresholds_witness :
  th_SoftFreeBytes (Thresholds DefaultPolicy (500 * gib)) = 100 * gib.
Proof.
  destruct (default_thresholds (500 * gib)) as [-> _]; [split; vm_compute; congruence|]. reflexivity.
Defined.

(** ** Admission *)

Section Admission.
Context {W : Type} `{Backend W} (policy : Policy) (o : Oracle).

(** An admission may go ahead: the worker is busy, so that nothing will be
    admitted, or the disk as it is has the free space that the policy asks for
    a disk of the size first measured. *)
Definition admissible (w : W) : Prop :=
  bk_busy w = true \/
  exists w0, low policy (th_SoftFreeBytes (Thresholds policy (sn_TotalBytes (bk_view w0)))) (bk_view w) = false.

(** What a phase of the run may return. *)
Definition sound_end (r : CapacityStatus * option WrappedErr) (w : W * ControllerState) : Prop :=
  r.2 = None -> admissible w.1.

Lemma wp_set_controller f (Q : unit -> W * ControllerState -> Prop) E w c : Q tt (w, f c) -> wp o (set_controller f) Q E (w, c).
Proof. intros HQ. apply wp_on_runtime. apply wp_bind, wp_get_db, wp_put_db. exact HQ. Qed.

Lemma wp_complete status err (Q : CapacityStatus * option WrappedErr -> W * ControllerState -> Prop) E w c :
  (forall status' c', Q (status', err) (w, c')) -> wp o (complete status err) Q E (w, c).
Proof.
  intros HQ. unfold complete, complete_at. wp_step. apply wp_now. intros now. wp_step. apply wp_set_controller. apply wp_ret, HQ.
Qed.

Lemma wp_snapshot (Q : res Snapshot -> W * ControllerState -> Prop) E w c :
  Q (Ok (bk_view w)) (w, c) -> (forall e, Q (Fail e) (w, c)) -> wp o (attempt (on_store bk_Snapshot)) Q E (w, c).
Proof.
  intros H1 H2. apply wp_attempt, wp_on_store. eapply wp_mono; [apply bk_snapshot_law| |].
  - by intros s w' [-> ->].
  - by intros e w' ->.
Qed.

Lemma wp_busy (Q : res bool -> W * ControllerState -> Prop) E w c :
  Q (Ok (bk_busy w)) (w, c) -> (forall e, Q (Fail e) (w, c)) -> wp o (attempt (on_store bk_Busy)) Q E (w, c).
Proof.
  intros H1 H2. apply wp_attempt, wp_on_store. eapply wp_mono; [apply bk_busy_law| |].
  - by intros s w' [-> ->].
  - by intros e w' ->.
Qed.

(** A call whose effect is not described. *)
Lemma wp_any {A} (m : M W A) (Q : res A -> W * ControllerState -> Prop) E w c :
  (forall r w', Q r (w', c)) -> wp o (attempt (on_store m)) Q E (w, c).
Proof.
  intros HQ. apply wp_attempt, wp_on_store. intros n. destruct (m o (w, n)) as [[a|e] [w' n']]; apply HQ.
Qed.

Lemma wp_and_then phase rest Q E w :
  wp o phase (fun r w' => match r with inl result => Q result w' | inr status => wp o (rest status) Q E w' end) E w ->
  wp o (and_then (W := W) phase rest) Q E w.
Proof.
  intros Hp. unfold and_then. wp_step. eapply wp_mono; [exact Hp| |done]. intros [result|status] w' Hw; [by apply wp_ret|done].
Qed.

Context (w0 : W) (Hdisk : policy_ok policy (sn_TotalBytes (bk_view w0))).
#[local] Abbreviation limits := (Thresholds policy (sn_TotalBytes (bk_view w0))).

Definition phase_ok (r : CapacityStatus * option WrappedErr + CapacityStatus) (w : W * ControllerState) : Prop :=
  match r with inl result => sound_end result w | inr status => cs_Thresholds status = limits end.

(** A phase that returns reports an error or leaves an admissible worker. *)
Lemma wp_return status err (E : Err -> W * ControllerState -> Prop) w c :
  (err = None -> admissible w) -> wp o (inl <$> complete status err) phase_ok E (w, c).
Proof. intros He. apply wp_fmap, wp_complete. intros status' c'. exact He. Qed.

Lemma reclaim_gate_ok hardPressure status w c (E : Err -> W * ControllerState -> Prop) :
  cs_Thresholds status = limits -> wp o (reclaim_gate hardPressure status) phase_ok E (w, c).
Proof.
  intros Hl. unfold reclaim_gate. wp_step. apply wp_busy; [|intros e; by apply wp_return].
  destruct (bk_busy w) eqn:Eb; [|by apply wp_ret]. destruct hardPressure; cbn [negb]; [|apply wp_return; by left].
  wp_step. apply wp_any. intros [u|e] w1; [|by apply wp_return]. wp_step. apply wp_busy; [|intros e; by apply wp_return].
  destruct (bk_busy w1); [by apply wp_return|by apply wp_ret].
Qed.

(** After a reclaim the status holds the disk as it is. *)
Definition measured (r : CapacityStatus * option WrappedErr + CapacityStatus) (w : W * ControllerState) : Prop :=
  match r with inl result => sound_end result w | inr status => cs_Thresholds status = limits /\ cs_After status = bk_view w.1 end.

Lemma reclaim_measures trigger pressure status w c (E : Err -> W * ControllerState -> Prop) :
  cs_Thresholds status = limits -> wp o (reclaim policy trigger pressure status) measured E (w, c).
Proof.
  intros Hl. unfold reclaim. wp_step. apply wp_any. intros result w1.
  destruct (match result with Ok x => x | Fail e => (zero_report, Some e) end) as [report [e|]].
  - apply wp_fmap, wp_complete. by intros status' c'.
  - wp_step. apply wp_snapshot; [by apply wp_ret|]. intros e. apply wp_ret. by intros [=].
Qed.

(** The verdict is passed on the disk as it is, or it is a refusal. *)
Lemma verdict_ok status w c (E : Err -> W * ControllerState -> Prop) :
  cs_Thresholds status = limits ->
  (cs_After status = bk_view w \/ low policy (th_SoftFreeBytes limits) (cs_After status) = true) ->
  wp o (verdict policy status) sound_end E (w, c).
Proof.
  intros Hl Ha. unfold verdict. rewrite Hl. destruct (low policy (th_SoftFreeBytes limits) (cs_After status)) eqn:El.
  - apply wp_complete. by intros status' c'.
  - apply wp_complete. intros status' c' _. right. exists w0. cbn [fst]. destruct Ha as [<-|Ha]; [done|congruence].
Qed.

Lemma emergency_measures trigger status w c (E : Err -> W * ControllerState -> Prop) :
  cs_Thresholds status = limits -> low policy (th_HardFreeBytes limits) (cs_After status) = true ->
  wp o (emergency_reclaim policy trigger status)
    (fun status' w' => cs_Thresholds status' = limits /\
       (cs_After status' = bk_view w'.1 \/ low policy (th_SoftFreeBytes limits) (cs_After status') = true)) E (w, c).
Proof using Hdisk.
  intros Hl Hlow. pose proof (hard_le_soft _ _ Hdisk) as Hle. unfold emergency_reclaim. wp_step. apply wp_any. intros [u|e] w1.
  - wp_step. apply wp_any. intros result w2.
    destruct (match result with Ok x => x | Fail e => (zero_report, Some e) end) as [report err].
    wp_step. apply wp_snapshot; [|intros e]; apply wp_ret; (split; [by destruct err|]).
    + by left.
    + right. unfold low. apply orb_true_iff. left. apply Z.ltb_lt. apply (soft_positive _ _ Hdisk).
  - apply wp_ret. split; [done|]. right. by eapply low_mono.
Qed.

(** From the last measurement on. *)
Lemma final_ok trigger status w c (E : Err -> W * ControllerState -> Prop) :
  cs_Thresholds status = limits -> cs_After status = bk_view w ->
  wp o (status ← (if low policy (th_HardFreeBytes limits) (cs_After status) then emergency_reclaim policy trigger status else mret status);
        verdict policy status) sound_end E (w, c).
Proof using Hdisk.
  intros Hl Ha. wp_step. destruct (low policy (th_HardFreeBytes limits) (cs_After status)) eqn:El.
  - eapply wp_mono; [by apply emergency_measures| |done]. intros status' [w' c'] [Hl' Ha']. by apply verdict_ok.
  - apply wp_ret. apply verdict_ok; [done|]. by left.
Qed.

End Admission.

(** ** The run before an admission *)

Lemma runLocked_admission {W : Type} `{Backend W} policy o w c (E : Err -> W * ControllerState -> Prop) :
  policy_ok policy (sn_TotalBytes (bk_view w)) ->
  wp o (runLocked policy TriggerAdmission) (sound_end policy) E (w, c).
Proof.
  intros Hdisk. unfold runLocked. wp_step. apply wp_snapshot; [|intros e; apply wp_ret; by intros [=]].
  cbv zeta. rewrite (bool_decide_eq_false_2 (TriggerAdmission = TriggerPressure)) by done. cbn [andb].
  rewrite (bool_decide_eq_true_2 (TriggerAdmission = TriggerAdmission)) by done. cbn [negb]. rewrite orb_false_r.
  set (limits := Thresholds policy (sn_TotalBytes (bk_view w))).
  set (status := mkStatus StateHealthy TriggerAdmission (bk_view w) (bk_view w) limits zero_report None zero_time).
  destruct (low policy (th_SoftFreeBytes limits) (bk_view w)) eqn:Ep.
  - apply wp_and_then. eapply wp_mono; [by apply (reclaim_gate_ok policy o w)| |done]. intros [result|s1] [w1 c1] H1; [done|].
    apply wp_and_then. apply wp_ret. apply wp_and_then.
    eapply wp_mono; [by apply (reclaim_measures policy o w)| |done]. intros [result|s2] [w2 c2] H2; [done|]. destruct H2 as [Hl2 Ha2].
    by apply (final_ok policy o w Hdisk).
  - apply wp_and_then, wp_ret. apply wp_and_then, wp_ret. apply wp_and_then, wp_ret. by apply (final_ok policy o w Hdisk).
Qed.


(** A running operation is stopped for hard pressure only.  While the
    worker is busy and the disk is above the hard limit, a run of the
    controller, for whatever trigger, neither stops the operation nor reclaims
    anything: the worker and the disk are exactly as they were. *)
Lemma busy_worker_is_deferred {W : Type} `{Backend W} policy o trigger w c :
  bk_busy w = true -> low policy (th_HardFreeBytes (Thresholds policy (sn_TotalBytes (bk_view w)))) (bk_view w) = false ->
  wp o (runLocked policy trigger) (fun _ w' => w'.1 = w) (fun _ _ => False) (w, c).
Proof.
  intros Hb Hh. unfold runLocked. wp_step. apply wp_snapshot; [|intros e; by apply wp_ret]. cbv zeta. rewrite Hh.
  destruct (bool_decide (trigger = TriggerPressure) && _); [by apply wp_complete|].
  destruct (_ || _) eqn:En; apply wp_and_then.
  - unfold reclaim_gate. wp_step. apply wp_busy; [rewrite Hb; cbn [negb]|intros e]; apply wp_fmap; by apply wp_complete.
  - apply wp_ret, wp_and_then. unfold throttle. apply orb_false_iff in En as [Ep Et]. apply negb_false_iff, bool_decide_eq_true in Et as ->.
    apply wp_ret. rewrite Ep. apply wp_and_then, wp_ret. cbn [cs_After]. rewrite Hh. wp_step. apply wp_ret.
    unfold verdict. cbn [cs_Thresholds cs_After]. rewrite Ep. by apply wp_complete.
Qed.

(** ** Witnesses *)

(** A disk of 500 GiB with its free bytes, and a worker. *)
Definition demo_disk (w : Z * bool) : Snapshot := mkSnapshot (500 * gib) w.1 1000 900 0.

#[local] Instance demo_backend : Backend (Z * bool).
Proof.
  refine {| bk_Lock := may_fail;
            bk_Snapshot := query demo_disk;
            bk_Busy := query snd;
            bk_Reclaim request := statement (fun w => Ok ((zero_report, None), (w.1 + 30 * gib, w.2)));
            bk_Emergency := statement (fun w => Ok (tt, (w.1, false)));
            bk_view := demo_disk;
            bk_busy := snd |}.
  - intros o w. by apply wp_query.
  - intros o w. by apply wp_query.
Defined.

Lemma demo_policy_ok (w : Z * bool) : policy_ok DefaultPolicy (sn_TotalBytes (bk_view w)).
Proof. split; cbn; unfold gib; lia. Qed.

Definition demo_controller : ControllerState := mkController zero_status zero_time.


Lemma busy_worker_is_deferred_witness :
  wp (mkOracle (fun _ => 0) (fun _ => 0) (fun _ => None)) (runLocked DefaultPolicy TriggerPeriodic)
    (fun _ w' => w'.1 = (30 * gib, true)) (fun _ _ => False) ((30 * gib, true), demo_controller).
Proof. apply (busy_worker_is_deferred DefaultPolicy _ TriggerPeriodic (30 * gib, true)); reflexivity. Defined.
