(* ===== verification/Host.v ===== *)
(** * Reclaiming space on the worker

    [internal/capacity/host.go]: the backend of the capacity controller.  A
    reclaim removes, in this order and until the target is reached, the
    directories of old finished jobs, unused containers, networks and volumes,
    images by least recent use, project caches by age, and the build cache. *)
From stdpp Require Import gmap.
From Stdlib Require Import Ascii.
From S2P Require Import Prelude Model GoMonad GoLib Table Schema JobStore GoStrings Encoding Glob Identity Reads Capacity.

(** ** Paths *)

Definition slash : Z := 47.

Fixpoint drop_slashes (l : list Z) : list Z :=
  match l with [] => [] | b :: rest => if b =? slash then drop_slashes rest else l end.
Fixpoint until_slash (l : list Z) : list Z :=
  match l with [] => [] | b :: rest => if b =? slash then [] else b :: until_slash rest end.

(** [filepath.Base] on a Unix system, from the end of the path. *)
Definition Base (path : string) : string :=
  if bool_decide (path = "") then "." else
  match until_slash (drop_slashes (rev (bytes path))) with
  | [] => "/"
  | l => of_bytes (rev l)
  end.

Definition safeChild (value : string) : bool :=
  negb (bool_decide (value = "")) && negb (bool_decide (value = ".")) && negb (bool_decide (value = ".."))
  && bool_decide (Base value = value).

(** ** The host *)

Record RuntimeImage := mkImage { ri_ID : string; ri_RepoTags : list string; ri_RepoDigests : list string; ri_CreatedAt : time }.

Record cacheDirectory := mkCacheDirectory { cd_path : string; cd_modTime : time; cd_size : Z }.

(** An entry of [os.ReadDir], with the modification time of its [Info]. *)
Record DirEntry := mkDirEntry { de_Name : string; de_IsDir : bool; de_ModTime : time }.

(** The operating system, the container engine and the build cache.  A missing
    directory lists as [None].  [hr_images] are the images that exist: a removal
    touches the named image only. *)
Class HostRuntime (R : Type) := {
  hr_Statfs : M R Snapshot;
  hr_RemoveAll : string -> M R unit;
  hr_ReadDir : string -> M R (option (list DirEntry));
  hr_directorySize : string -> M R Z;
  hr_PruneContainers : duration -> bool -> M R unit;
  hr_PruneNetworks : duration -> M R unit;
  hr_PruneVolumes : M R unit;
  hr_PruneImages : duration -> M R unit;
  hr_ListImages : M R (list RuntimeImage);
  hr_RemoveImage : string -> M R unit;
  hr_PruneBuildCache : Z -> M R unit;
  hr_images : R -> list string;
  hr_statfs_law : forall o r, wp o hr_Statfs (fun _ r' => r' = r) (fun _ r' => r' = r) r;
  hr_list_law : forall o r, wp o hr_ListImages (fun l r' => r' = r) (fun _ r' => r' = r) r;
  hr_remove_law : forall o id r,
    let kept r' := forall id', id' <> id -> id' ∈ hr_images r -> id' ∈ hr_images r' in
    wp o (hr_RemoveImage id) (fun _ r' => kept r') (fun _ r' => kept r') r
}.

(** [HostConfig]: the paths, the dry run, and which collaborators are set. *)
Record HostConfig := mkHostConfig {
  hc_JobsRoot : string; hc_CacheRoot : string; hc_DryRun : bool;
  hc_Store : bool; hc_Runtime : bool; hc_BuildCache : bool
}.

Section Host.
Context {R : Type} `{HostRuntime R} (config : HostConfig).
#[local] Abbreviation WorldM := (M (Database * R)).

(** [Host.Snapshot]: what the file system reports, at the current time. *)
Definition HostSnapshot : WorldM Snapshot :=
  s ← on_runtime hr_Statfs;
  now ← time_Now;
  mret (mkSnapshot (sn_TotalBytes s) (sn_FreeBytes s) (sn_TotalInodes s) (sn_FreeInodes s) now).

(** [Host.Busy]. *)
Definition HostBusy : WorldM bool := if hc_Store config then on_store WorkerBusy else mret false.

Definition join_path (a b : string) : string := a +:+ "/" +:+ b.

(** *** Finished jobs *)

Fixpoint remove_jobs (ids : list string) (removed : Z) : WorldM (Z * option WrappedErr) :=
  match ids with
  | [] => mret (removed, None)
  | id :: rest =>
      if negb (safeChild id) then mret (removed, Some (mkWrapped "" (ErrText ("refuse unsafe job directory " +:+ id)))) else
      gone ← attempt (if hc_DryRun config then mret tt else on_runtime (hr_RemoveAll (join_path (hc_JobsRoot config) id)));
      match gone with
      | Fail e => mret (removed, Some (mkWrapped ("remove terminal job " +:+ id) e))
      | Ok _ => remove_jobs rest (removed + 1)
      end
  end.

Definition removeTerminalJobs (retention : duration) : WorldM (Z * option WrappedErr) :=
  if negb (hc_Store config) || (retention <=? 0) then mret (0, None) else
  now ← time_Now;
  ids ← attempt (on_store (TerminalJobIDsBefore (now - retention)));
  match ids with
  | Fail e => mret (0, Some (mkWrapped "list retained terminal jobs" e))
  | Ok ids => remove_jobs ids 0
  end.

(** *** Images by least recent use *)

Record dockerImage := mkDockerImage { di_Image : RuntimeImage; di_lastUsed : time; di_protected : bool }.

Definition policy_map (policies : list ImagePolicy) : gmap string ImagePolicy :=
  fold_left (fun m policy => <[ip_Reference policy := policy]> m) policies ∅.

(** One reference of an image: protection adds up, the latest use counts. *)
Definition apply_policy (byReference : gmap string ImagePolicy) (image : dockerImage) (reference : string) : dockerImage :=
  match byReference !! reference with
  | None => image
  | Some policy =>
      mkDockerImage (di_Image image)
        (if di_lastUsed image <? ip_LastUsedAt policy then ip_LastUsedAt policy else di_lastUsed image)
        (di_protected image || ip_Protected policy)
  end.

Definition rate_image (byReference : gmap string ImagePolicy) (image : RuntimeImage) : dockerImage :=
  fold_left (apply_policy byReference) (ri_RepoTags image ++ ri_RepoDigests image)
    (mkDockerImage image (ri_CreatedAt image) false).

Definition image_before (a b : dockerImage) : bool :=
  created_before (di_lastUsed a, ri_ID (di_Image a)) (di_lastUsed b, ri_ID (di_Image b)).

Fixpoint remove_images (grace : time) (targetFreeBytes : Z) (images : list dockerImage) (commands : list Command)
    : WorldM (list Command * option WrappedErr) :=
  match images with
  | [] => mret (commands, None)
  | image :: rest =>
      if di_protected image || (grace <? di_lastUsed image) then remove_images grace targetFreeBytes rest commands else
      let commands := commands ++ [ImageRemove (ri_ID (di_Image image))] in
      _ ← attempt (if hc_DryRun config then mret tt else on_runtime (hr_RemoveImage (ri_ID (di_Image image))));
      if 0 <? targetFreeBytes then
        snapshot ← attempt HostSnapshot;
        match snapshot with
        | Fail e => mret (commands, Some (mkWrapped "" e))
        | Ok s => if targetFreeBytes <=? sn_FreeBytes s then mret (commands, None)
                  else remove_images grace targetFreeBytes rest commands
        end
      else remove_images grace targetFreeBytes rest commands
  end.

Definition no_runtime : WrappedErr := mkWrapped "" (ErrText "Docker capacity runtime is not configured").

Definition pruneUnusedImages (targetFreeBytes : Z) : WorldM (list Command * option WrappedErr) :=
  if negb (hc_Runtime config) then mret ([], Some no_runtime) else
  listed ← attempt (on_runtime hr_ListImages);
  match listed with
  | Fail e => mret ([], Some (mkWrapped "list Docker images" e))
  | Ok [] => mret ([], None)
  | Ok runtimeImages =>
      read ← attempt (on_store CapacityImagePolicies);
      match read with
      | Fail e => mret ([], Some (mkWrapped "load protected Docker images" e))
      | Ok policies =>
          now ← time_Now;
          remove_images (now - 5 * Minute) targetFreeBytes
            (order_by image_before (map (rate_image (policy_map policies)) runtimeImages)) []
      end
  end.

(** *** Project caches by age *)

(** The caches of one project directory. *)
Fixpoint project_caches (path : string) (entries : list DirEntry) : WorldM (list cacheDirectory) :=
  match entries with
  | [] => mret []
  | entry :: rest =>
      if negb (de_IsDir entry) || negb (safeChild (de_Name entry)) then project_caches path rest else
      size ← on_runtime (hr_directorySize (join_path path (de_Name entry)));
      more ← project_caches path rest;
      mret (mkCacheDirectory (join_path path (de_Name entry)) (de_ModTime entry) size :: more)
  end.

Fixpoint all_caches (root : string) (projects : list DirEntry) : WorldM (list cacheDirectory) :=
  match projects with
  | [] => mret []
  | project :: rest =>
      if negb (de_IsDir project) || negb (safeChild (de_Name project)) then all_caches root rest else
      entries ← on_runtime (hr_ReadDir (join_path root (de_Name project)));
      match entries with
      | None => throw (ErrText "file does not exist")
      | Some entries =>
          caches ← project_caches (join_path root (de_Name project)) entries;
          more ← all_caches root rest;
          mret (caches ++ more)
      end
  end.

(** [total += size] on [uint64]. *)
Definition caches_total (caches : list cacheDirectory) : Z := fold_left (fun total c => wrapu64 (total + cd_size c)) caches 0.

Definition cacheDirectories (root : string) : WorldM (list cacheDirectory * Z) :=
  projects ← on_runtime (hr_ReadDir root);
  match projects with
  | None => mret ([], 0)
  | Some projects => caches ← all_caches root projects; mret (caches, caches_total caches)
  end.

Definition cache_before (a b : cacheDirectory) : bool := created_before (cd_modTime a, cd_path a) (cd_modTime b, cd_path b).

Fixpoint remove_caches (low total : Z) (caches : list cacheDirectory) (removed : Z) : WorldM (Z * option WrappedErr) :=
  match caches with
  | [] => mret (removed, None)
  | cache :: rest =>
      if total <=? low then mret (removed, None) else
      gone ← attempt (if hc_DryRun config then mret tt else on_runtime (hr_RemoveAll (cd_path cache)));
      match gone with
      | Fail e => mret (removed, Some (mkWrapped ("remove project cache " +:+ cd_path cache) e))
      | Ok _ => remove_caches low (if total <=? cd_size cache then 0 else total - cd_size cache) rest (removed + 1)
      end
  end.

Definition pruneCaches (high low : Z) (pressure : bool) : WorldM (Z * option WrappedErr) :=
  found ← attempt (cacheDirectories (hc_CacheRoot config));
  match found with
  | Fail e => mret (0, Some (mkWrapped "" e))
  | Ok (caches, total) =>
      if negb pressure && ((high =? 0) || (total <=? high)) then mret (0, None) else
      let low := if (high <? low) && negb (high =? 0) then high else low in
      remove_caches low total (order_by cache_before caches) 0
  end.

(** *** [Reclaim] *)

Definition reachedTarget (request : ReclaimRequest) : WorldM bool :=
  if negb (rq_Pressure request) || (rq_TargetFreeBytes request =? 0) then mret false else
  snapshot ← attempt HostSnapshot;
  mret match snapshot with Ok s => rq_TargetFreeBytes request <=? sn_FreeBytes s | Fail _ => false end.

(** [finishReport]: the bytes gained since [before]; a failed measurement reads
    as an empty one. *)
Definition finishReport (before : Snapshot) (report : ReclaimReport) (errs : JoinedErr) : WorldM (ReclaimReport * JoinedErr) :=
  snapshot ← attempt HostSnapshot;
  let after := match snapshot with Ok s => s | Fail _ => zero_snapshot end in
  let report := if sn_FreeBytes before <? sn_FreeBytes after
                then mkReport (sn_FreeBytes after - sn_FreeBytes before) (rp_RemovedJobs report) (rp_RemovedCaches report) (rp_Commands report)
                else report in
  mret (report, errs ++ match snapshot with Ok _ => [] | Fail e => [mkWrapped "" e] end).

(** Stop here if the target is reached, go on otherwise. *)
Definition unless_reached (before : Snapshot) (request : ReclaimRequest) (report : ReclaimReport) (errs : JoinedErr)
    (rest : WorldM (ReclaimReport * JoinedErr)) : WorldM (ReclaimReport * JoinedErr) :=
  reached ← reachedTarget request;
  if reached : bool then finishReport before report errs else rest.

Definition to_list (e : option WrappedErr) : JoinedErr := match e with Some e => [e] | None => [] end.

(** A command of the container engine, if it is configured and this is no dry run. *)
Definition engine_call (call : M R unit) : WorldM JoinedErr :=
  if hc_DryRun config then mret [] else
  if negb (hc_Runtime config) then mret [no_runtime] else collect "docker" (on_runtime call).

(** The prune commands in their order, each followed by a look at the target. *)
Fixpoint engine_calls (before : Snapshot) (request : ReclaimRequest) (report : ReclaimReport) (errs : JoinedErr)
    (calls : list (Command * M R unit)) (rest : ReclaimReport -> JoinedErr -> WorldM (ReclaimReport * JoinedErr))
    : WorldM (ReclaimReport * JoinedErr) :=
  match calls with
  | [] => rest report errs
  | (command, call) :: more =>
      let report := mkReport (rp_ReclaimedBytes report) (rp_RemovedJobs report) (rp_RemovedCaches report) (rp_Commands report ++ [command]) in
      new ← engine_call call;
      unless_reached before request report (errs ++ new) (engine_calls before request report (errs ++ new) more rest)
  end.

(** The last stage, under pressure only: the build cache above 2 GB. *)
Definition reclaim_build_cache (before : Snapshot) (request : ReclaimRequest) (report : ReclaimReport) (errs : JoinedErr)
    : WorldM (ReclaimReport * JoinedErr) :=
  if negb (rq_Pressure request) then finishReport before report errs else
  let report := mkReport (rp_ReclaimedBytes report) (rp_RemovedJobs report) (rp_RemovedCaches report) (rp_Commands report ++ [BuildkitPrune]) in
  new ← (if hc_DryRun config then mret [] else
         if negb (hc_BuildCache config) then mret [mkWrapped "" (ErrText "BuildKit capacity runtime is not configured")]
         else collect "prune BuildKit" (on_runtime (hr_PruneBuildCache 2000000000)));
  finishReport before report (errs ++ new).

(** Images, caches and the build cache. *)
Definition reclaim_images (age : duration) (before : Snapshot) (request : ReclaimRequest) (report : ReclaimReport) (errs : JoinedErr)
    : WorldM (ReclaimReport * JoinedErr) :=
  pruned ← (if rq_Pressure request then
              r ← pruneUnusedImages (rq_TargetFreeBytes request); mret (r.1, to_list r.2)
            else new ← engine_call (hr_PruneImages age); mret ([ImagePrune age], new));
  let report := mkReport (rp_ReclaimedBytes report) (rp_RemovedJobs report) (rp_RemovedCaches report) (rp_Commands report ++ pruned.1) in
  let errs := errs ++ pruned.2 in
  unless_reached before request report errs (
    caches ← pruneCaches (rq_CacheHighBytes request) (rq_CacheLowBytes request) (rq_Pressure request);
    let report := mkReport (rp_ReclaimedBytes report) (rp_RemovedJobs report) (rp_RemovedCaches report + caches.1) (rp_Commands report) in
    let errs := errs ++ to_list caches.2 in
    unless_reached before request report errs (reclaim_build_cache before request report errs)).

Definition Reclaim (request : ReclaimRequest) : WorldM (ReclaimReport * JoinedErr) :=
  measured ← attempt HostSnapshot;
  match measured with
  | Fail e => mret (zero_report, [mkWrapped "" e])
  | Ok before =>
      jobs ← removeTerminalJobs (rq_JobRetention request);
      let report := mkReport 0 jobs.1 0 [] in
      let errs := to_list jobs.2 in
      unless_reached before request report errs (
        let normal := if rq_NormalObjectAge request <=? 0 then 24 * Hour else rq_NormalObjectAge request in
        let age := if rq_Pressure request then 5 * Minute else normal in
        engine_calls before request report errs
          [ (ContainerPrune age (rq_Pressure request), hr_PruneContainers age (rq_Pressure request));
            (NetworkPrune age, hr_PruneNetworks age);
            (VolumePrune, hr_PruneVolumes) ]
          (reclaim_images age before request))
  end.

End Host.
