(* ===== verification/HostTheorems.v ===== *)
(** * Correctness of the reclaim *)
From stdpp Require Import gmap.
From S2P Require Import Prelude Model GoMonad GoLib Table Schema JobStore GoStrings Encoding Glob Identity Reads ReadTheorems Coordinator Capacity Host.

(** ** Rating the images *)

Lemma policy_map_lookup policies (m : gmap string ImagePolicy) ref :
  NoDup (map ip_Reference policies) ->
  fold_left (fun m policy => <[ip_Reference policy := policy]> m) policies m !! ref =
    match head (select (fun p => bool_decide (ip_Reference p = ref)) policies) with Some p => Some p | None => m !! ref end.
Proof.
  revert m. induction policies as [|p policies IH]; intros m Hnd; cbn [fold_left map select List.filter head]; [done|].
  cbn [map] in Hnd. apply NoDup_cons in Hnd as [Hp Hnd]. rewrite IH by done. fold (select (fun p => bool_decide (ip_Reference p = ref)) policies).
  case_bool_decide as E; cbn [head].
  - destruct (head (select _ policies)) as [q|] eqn:Eq; [|by rewrite <- E, lookup_insert_eq].
    apply head_Some_elem_of, elem_of_select in Eq as [Hq Hr]. apply bool_decide_eq_true in Hr. exfalso. apply Hp. rewrite E, <- Hr.
    by apply list_elem_of_fmap_2.
  - destruct (head (select _ policies)); [done|]. by rewrite lookup_insert_ne.
Qed.

(** The map of the exact policies is the policy of each image. *)
Lemma policy_map_exact policies ps jobs ref :
  NoDup (map ip_Reference policies) -> (forall pol, pol ∈ policies <-> policy_of ps jobs (ip_Reference pol) = Some pol) ->
  policy_map policies !! ref = policy_of ps jobs ref.
Proof.
  intros Hnd Hp. unfold policy_map. rewrite policy_map_lookup, lookup_empty by done.
  destruct (head (select _ policies)) as [q|] eqn:Eq.
  - apply head_Some_elem_of, elem_of_select in Eq as [Hq Hr]. apply bool_decide_eq_true in Hr. apply Hp in Hq. by rewrite <- Hr.
  - destruct (policy_of ps jobs ref) as [q|] eqn:Er; [|done]. exfalso.
    assert (Href : ip_Reference q = ref) by (unfold policy_of in Er; destruct (_ || _); by simplify_eq/=).
    apply head_None in Eq. eapply elem_of_nil. rewrite <- Eq. apply elem_of_select. split; [|by apply bool_decide_eq_true].
    apply Hp. by rewrite Href.
Qed.

Lemma rate_fold (m : gmap string ImagePolicy) refs image :
  let rated := fold_left (apply_policy m) refs image in
  di_Image rated = di_Image image /\ di_lastUsed image <= di_lastUsed rated /\ (di_protected image = true -> di_protected rated = true) /\
  forall ref pol, ref ∈ refs -> m !! ref = Some pol ->
    ip_LastUsedAt pol <= di_lastUsed rated /\ (ip_Protected pol = true -> di_protected rated = true).
Proof.
  revert image. induction refs as [|r refs IH]; intros image; cbn [fold_left].
  { split; [done|]. split; [done|]. split; [done|]. intros ref pol Hr. by apply elem_of_nil in Hr. }
  destruct (IH (apply_policy m image r)) as (H1 & H2 & H3 & H4).
  assert (Ha : di_Image (apply_policy m image r) = di_Image image /\ di_lastUsed image <= di_lastUsed (apply_policy m image r) /\
               (di_protected image = true -> di_protected (apply_policy m image r) = true) /\
               forall pol, m !! r = Some pol -> ip_LastUsedAt pol <= di_lastUsed (apply_policy m image r) /\
                 (ip_Protected pol = true -> di_protected (apply_policy m image r) = true)).
  { unfold apply_policy. destruct (m !! r) as [p|]; [|by repeat split]. cbn [di_Image di_lastUsed di_protected].
    split; [done|]. split; [destruct (Z.ltb_spec (di_lastUsed image) (ip_LastUsedAt p)); lia|]. split; [by intros ->|].
    intros pol [= <-]. split; [destruct (Z.ltb_spec (di_lastUsed image) (ip_LastUsedAt p)); lia|]. intros ->. apply orb_true_r. }
  destruct Ha as (A1 & A2 & A3 & A4). split; [congruence|]. split; [lia|]. split; [auto|].
  intros ref pol Hr Hm. apply elem_of_cons in Hr as [->|Hr]; [|by apply (H4 ref)].
  destruct (A4 pol Hm) as [B1 B2]. split; [lia|]. auto.
Qed.

(** ** What the pruning removes *)

(** No project runs the image or may roll back to it, and neither the image nor
    a job that uses it is younger than the grace period. *)
Definition unused (d : Database) (grace : time) (image : RuntimeImage) : Prop :=
  ri_CreatedAt image <= grace /\
  forall ref, ref ∈ ri_RepoTags image ++ ri_RepoDigests image -> ref <> "" ->
    (forall p, p ∈ projects (tabs d) -> pj_ActiveImage p <> ref /\ pj_PreviousImage p <> ref) /\
    (forall j, j ∈ control_jobs (tabs d) -> jr_image j = ref -> jr_created_at j <= grace).

Lemma rated_unused d grace image (m : gmap string ImagePolicy) :
  (forall ref, m !! ref = policy_of (projects (tabs d)) (control_jobs (tabs d)) ref) ->
  di_protected (rate_image m image) = false -> di_lastUsed (rate_image m image) <= grace -> unused d grace image.
Proof.
  intros Hm Hp Hu. destruct (rate_fold m (ri_RepoTags image ++ ri_RepoDigests image) (mkDockerImage image (ri_CreatedAt image) false)) as (_ & H2 & _ & H4).
  fold (rate_image m image) in H2, H4. cbn [di_lastUsed] in H2. split; [lia|]. intros ref Hr Hne.
  assert (Hpol : policy_of (projects (tabs d)) (control_jobs (tabs d)) ref =
    let used := existsb (fun j => bool_decide (jr_image j = ref)) (control_jobs (tabs d)) in
    let kept := existsb (keeps_image ref) (projects (tabs d)) in
    if negb (used || kept) then None else Some (mkPolicy ref kept (if used then last_created ref (control_jobs (tabs d)) else zero_time))).
  { unfold policy_of. by rewrite (bool_decide_eq_false_2 (ref = "")). }
  cbv zeta in Hpol. split.
  - intros p Hpin. assert (Hk : keeps_image ref p = true -> False).
    { intros Hk. assert (Hex : existsb (keeps_image ref) (projects (tabs d)) = true).
      { apply existsb_exists. exists p. split; [by apply list_elem_of_In|done]. }
      rewrite Hex, orb_true_r in Hpol. cbn [negb] in Hpol. destruct (H4 ref _ Hr (eq_trans (Hm ref) Hpol)) as [_ Hprot].
      rewrite Hprot in Hp by done. discriminate. }
    split; intros E; apply Hk; unfold keeps_image; rewrite (bool_decide_eq_true_2 _ E); [done|apply orb_true_r].
  - intros j Hj Ej. assert (Hex : existsb (fun j => bool_decide (jr_image j = ref)) (control_jobs (tabs d)) = true).
    { apply existsb_exists. exists j. split; [by apply list_elem_of_In|by apply bool_decide_eq_true]. }
    rewrite Hex in Hpol. cbn [orb negb] in Hpol. destruct (H4 ref _ Hr (eq_trans (Hm ref) Hpol)) as [Hlast _]. cbn [ip_LastUsedAt] in Hlast.
    destruct (last_created_max ref (control_jobs (tabs d))) as [_ Hmax]; [by exists j|]. specialize (Hmax j Hj Ej). lia.
Qed.

Lemma remove_images_spec {R : Type} `{HostRuntime R} config o grace target (m : gmap string ImagePolicy) images commands d (r0 r : R) :
  (forall ref, m !! ref = policy_of (projects (tabs d)) (control_jobs (tabs d)) ref) ->
  (forall i, i ∈ images -> exists image, i = rate_image m image) ->
  let spared (w : Database * R) := w.1 = d /\ forall id, id ∈ hr_images r0 ->
    id ∈ hr_images w.2 \/ exists image, ri_ID image = id /\ unused d grace image in
  spared (d, r) ->
  wp o (remove_images config grace target images commands) (fun _ w => spared w) (fun _ _ => False) (d, r).
Proof.
  intros Hm Him spared. revert r commands. induction images as [|i images IH]; intros r commands Hsp; cbn [remove_images]; [by apply wp_ret|].
  assert (IH' := IH (fun x Hx => Him x (list_elem_of_further _ _ _ Hx))).
  destruct (di_protected i || (grace <? di_lastUsed i)) eqn:Ec; [by apply IH'|]. split_bools.
  destruct (Him i) as [image Ei]; [constructor|]. subst i.
  assert (Hid : di_Image (rate_image m image) = image) by apply rate_fold.
  assert (Hgo : forall r', spared (d, r') -> wp o
    (if 0 <? target then
       snapshot ← attempt HostSnapshot;
       match snapshot with
       | Ok s => if target <=? sn_FreeBytes s then mret (commands ++ [ImageRemove (ri_ID (di_Image (rate_image m image)))], None)
                 else remove_images config grace target images (commands ++ [ImageRemove (ri_ID (di_Image (rate_image m image)))])
       | Fail e => mret (commands ++ [ImageRemove (ri_ID (di_Image (rate_image m image)))], Some (mkWrapped "" e))
       end
     else remove_images config grace target images (commands ++ [ImageRemove (ri_ID (di_Image (rate_image m image)))]))
    (fun _ w => spared w) (fun _ _ => False) (d, r')).
  { intros r' Hr'. destruct (0 <? target); [|by apply IH']. wp_step. apply wp_attempt. unfold HostSnapshot. wp_step. apply wp_on_runtime.
    eapply wp_mono; [apply hr_statfs_law| |]; [|intros e r2 ->; by apply wp_ret].
    intros s r2 ->. wp_step. apply wp_now. intros now. apply wp_ret. destruct (_ <=? _); [by apply wp_ret|by apply IH']. }
  wp_step. apply wp_attempt. destruct (hc_DryRun config); [apply wp_ret; by apply Hgo|]. apply wp_on_runtime.
  assert (Hk : forall r', (forall id', id' <> ri_ID image -> id' ∈ hr_images r -> id' ∈ hr_images r') -> spared (d, r')).
  { intros r' Hkept. split; [done|]. intros id Hin. destruct Hsp as [_ Hsp]. destruct (Hsp id Hin) as [Hr|?]; [|by right].
    destruct (decide (id = ri_ID image)) as [->|Hne]; [|left; by apply Hkept]. right. exists image. split; [done|]. by apply (rated_unused d grace image m). }
  rewrite Hid. eapply wp_mono; [apply hr_remove_law| |]; intros a r' Hkept; rewrite Hid in Hgo; apply Hgo, Hk, Hkept.
Qed.

(** The pruning of images spares what is in use.  While the database can
    be read, whatever the engine answers, every image that disappears is one
    that no project runs or may roll back to, that is older than five minutes,
    and that no job of the last five minutes uses.  The store is not changed. *)
Lemma pruning_spares_used_images {R : Type} `{HostRuntime R} config target o d (r : R) :
  reliable o ->
  wp o (pruneUnusedImages config target)
    (fun _ w => w.1 = d /\ exists now, forall id, id ∈ hr_images r ->
       id ∈ hr_images w.2 \/ exists image, ri_ID image = id /\ unused d (now - 5 * Minute) image)
    (fun _ _ => False) (d, r).
Proof.
  intros Ho. unfold pruneUnusedImages.
  assert (Hsame : forall w : Database * R, w = (d, r) -> w.1 = d /\ exists now, forall id, id ∈ hr_images r ->
    id ∈ hr_images w.2 \/ exists image, ri_ID image = id /\ unused d (now - 5 * Minute) image).
  { intros w ->. split; [done|]. exists 0. intros id Hid. by left. }
  destruct (hc_Runtime config); cbn [negb]; [|apply wp_ret; by apply Hsame].
  wp_step. apply wp_attempt, wp_on_runtime. eapply wp_mono; [apply hr_list_law| |intros e r' ->; apply wp_ret; by apply Hsame].
  intros [|i l] r' ->; [apply wp_ret; by apply Hsame|].
  wp_step. apply wp_attempt, wp_on_store. eapply wp_mono; [by apply image_policies_read| |done].
  intros policies d' (-> & Hnd & Hpol). wp_step. apply wp_now. intros now.
  eapply wp_mono; [apply (remove_images_spec config o (now - 5 * Minute) target (policy_map policies))| |done].
  - intros ref. by apply policy_map_exact.
  - intros x Hx. rewrite order_by_perm in Hx. apply list_elem_of_fmap in Hx as (image & -> & _). by exists image.
  - split; [done|]. intros id Hid. by left.
  - intros result w [Hd Hw]. split; [done|]. by exists now.
Qed.

(** The engine with its images. *)
#[local] Instance demo_host : HostRuntime (list RuntimeImage).
Proof.
  refine {| hr_Statfs := query (fun _ => mkSnapshot (500 * gib) (50 * gib) 1000 900 0);
            hr_RemoveAll _ := may_fail; hr_ReadDir _ := query (fun _ => None); hr_directorySize _ := query (fun _ => 0);
            hr_PruneContainers _ _ := may_fail; hr_PruneNetworks _ := may_fail; hr_PruneVolumes := may_fail;
            hr_PruneImages _ := may_fail; hr_ListImages := query (fun r => r);
            hr_RemoveImage id := statement (fun r => Ok (tt, select (fun i => negb (bool_decide (ri_ID i = id))) r));
            hr_PruneBuildCache _ := may_fail; hr_images r := map ri_ID r |}.
  - intros o r. by apply wp_query.
  - intros o r. by apply wp_query.
  - intros o id r kept. apply wp_statement; [|intros s _ id' _ Hin; exact Hin]. intros id' Hne Hin.
    apply list_elem_of_fmap in Hin as (i & -> & Hi). apply list_elem_of_fmap_2. apply elem_of_select. split; [done|].
    by rewrite bool_decide_eq_false_2.
Defined.

Definition demo_images : list RuntimeImage :=
  [mkImage "sha1" ["img:1"] [] 0; mkImage "sha2" ["img:2"] [] 0; mkImage "sha3" ["img:3"] [] 0].

(** ** Path components *)

(** [safeChild] accepts the root directory, which is its own base name: joined
    to the jobs directory it names that directory itself. *)
Lemma safe_child_accepts_root : safeChild "/" = true /\ safeChild "a/b" = false /\ safeChild "../x" = false.
Proof. repeat split; vm_compute; reflexivity. Qed.
