(* ===== verification/Retry.v ===== *)
(** * Bounded retries and ephemeral builders

    [internal/retry/retry.go]: [Do] repeats an operation until it succeeds, an
    error is not retryable, or a budget of attempts or time is spent.
    [internal/buildkit/buildkit.go] runs a build on a builder that it creates and
    removes, with retries, whatever the build does. *)

From S2P Require Import Prelude Model GoMonad GoLib GoStrings.

Section Retry.
Context {W : Type}.

Record RetryPolicy := mkRetryPolicy {
  rp_InitialDelay : duration;
  rp_MaxDelay : duration;
  rp_MaxAttempts : Z;
  rp_MaxElapsed : duration;
  rp_AttemptTimeout : duration;
  rp_Now : option (M W time);
  rp_Wait : option (duration -> M W unit);
  rp_Jitter : option (duration -> M W duration)
}.

(** [Time.Sub] saturates. *)
Definition time_Sub (a b : time) : duration := Z.max (- 2 ^ 63) (Z.min (2 ^ 63 - 1) (a - b)).

(** How [Do] returns.  [Exhausted] joins [ErrExhausted] with the last error. *)
Inductive RetryOutcome :=
| RetrySuccess
| RetryError (e : Err)
| ExhaustedAttempts (attempts : Z) (e : Err)
| ExhaustedTime (budget : duration) (e : Err)
| WaitInterrupted (e waitErr : Err).

(** [ctx.Err()]: the context may be cancelled at any time. *)
Definition ctx_Err : M W (option Err) := r ← attempt may_fail; mret match r with Ok _ => None | Fail e => Some e end.

(** [wait]: the timer fires or the context is cancelled. *)
Definition retry_wait (delay : duration) : M W unit := may_fail.

(** The default jitter, a value between three and five quarters of the delay. *)
Definition default_jitter (delay : duration) : M W duration := fun o '(w, n) => (Ok (delay * 3 / 4 + o_rand o n mod (delay / 2 + 1)), (w, S n)).

(** The policy with its defaults. *)
Definition normalize_policy (p : RetryPolicy) : RetryPolicy :=
  let initial := if rp_InitialDelay p <=? 0 then 250 * Millisecond else rp_InitialDelay p in
  let maxDelay := if rp_MaxDelay p <=? 0 then 5 * Second else rp_MaxDelay p in
  let maxDelay := if maxDelay <? initial then initial else maxDelay in
  mkRetryPolicy initial maxDelay (if rp_MaxAttempts p <=? 0 then 5 else rp_MaxAttempts p) (if rp_MaxElapsed p <=? 0 then 30 * Second else rp_MaxElapsed p)
    (rp_AttemptTimeout p) (Some (default time_Now (rp_Now p))) (Some (default retry_wait (rp_Wait p))) (Some (default default_jitter (rp_Jitter p))).

(** [attemptContext]: no deadline of its own, or one. *)
Definition attemptContext (timeout : duration) : option duration := if timeout <=? 0 then None else Some timeout.

(** An operation, given the deadline of its context. *)
Definition RetryOperation : Type := option duration -> M W unit.

Section Loop.
Context (maxDelay : duration) (maxAttempts : Z) (maxElapsed attemptTimeout : duration) (Now : M W time) (Wait : duration -> M W unit)
        (Jitter : duration -> M W duration) (operation : RetryOperation) (retryable : Err -> bool) (started : time).

(** The delay after the next. *)
Definition next_delay (delay : duration) : duration :=
  if delay <? maxDelay then let doubled := wrap64 (delay * 2) in if maxDelay <? doubled then maxDelay else doubled else delay.

(** The loop; [None] when the fuel is spent. *)
Fixpoint retry_loop (fuel : nat) (attempts : Z) (delay : duration) : M W (option RetryOutcome) :=
  match fuel with
  | O => mret None
  | S fuel' =>
      cancelled ← ctx_Err;
      match cancelled with
      | Some e => mret (Some (RetryError e))
      | None =>
          result ← attempt (operation (attemptContext attemptTimeout));
          match result with
          | Ok _ => mret (Some RetrySuccess)
          | Fail e =>
              cancelled ← ctx_Err;
              match cancelled with
              | Some c => mret (Some (RetryError c))
              | None =>
                  if negb (retryable e) then mret (Some (RetryError e)) else
                  if maxAttempts <=? attempts then mret (Some (ExhaustedAttempts attempts e)) else
                  now ← Now;
                  let remaining := wrap64 (maxElapsed - time_Sub now started) in
                  if remaining <=? 0 then mret (Some (ExhaustedTime maxElapsed e)) else
                  jittered ← Jitter delay;
                  let wait := if jittered <=? 0 then delay else jittered in
                  let wait := if remaining <? wait then remaining else wait in
                  waited ← attempt (Wait wait);
                  match waited with
                  | Fail waitErr => mret (Some (WaitInterrupted e waitErr))
                  | Ok _ => retry_loop fuel' (attempts + 1) (next_delay delay)
                  end
              end
          end
      end
  end.

End Loop.

(** [Do]: a pass of the loop per attempt. *)
Definition Do (policy : RetryPolicy) (operation : option RetryOperation) (retryable : option (Err -> bool)) : M W (option RetryOutcome) :=
  match operation, retryable with
  | Some operation, Some retryable =>
      let p := normalize_policy policy in
      let Now := default time_Now (rp_Now p) in
      started ← Now;
      retry_loop (rp_MaxDelay p) (rp_MaxAttempts p) (rp_MaxElapsed p) (rp_AttemptTimeout p) Now (default retry_wait (rp_Wait p))
        (default default_jitter (rp_Jitter p)) operation retryable started (Z.to_nat (rp_MaxAttempts p)) 1 (rp_InitialDelay p)
  | _, _ => mret (Some (RetryError (ErrText "retry operation and classifier are required")))
  end.

End Retry.
Arguments RetryPolicy : clear implicits.

(** ** Builders *)

Record Commands := mkCommands { bc_Create : list string; bc_Build : list string; bc_Remove : list string }.
Record TLS := mkTLS { tls_CA : string; tls_Certificate : string; tls_Key : string; tls_ServerName : string }.

Definition PlanWithTLS (address name : string) (arguments : list string) (c : TLS) : Commands :=
  let options :=
    if negb (bool_decide (tls_CA c = "")) || negb (bool_decide (tls_Certificate c = "")) || negb (bool_decide (tls_Key c = ""))
       || negb (bool_decide (tls_ServerName c = ""))
    then ["--driver-opt"; "cacert=" +:+ tls_CA c +:+ ",cert=" +:+ tls_Certificate c +:+ ",key=" +:+ tls_Key c +:+ ",servername=" +:+ tls_ServerName c]
    else [] in
  mkCommands (["buildx"; "create"; "--name"; name; "--driver"; "remote"] ++ options ++ [address])
    (["buildx"; "build"; "--builder"; name] ++ arguments) ["buildx"; "rm"; "--force"; name].

(** The result of running a command: it exits with a code, or cannot be run. *)
Inductive CommandResult := Exited (code : Z) | NotRun (e : Err).

Definition ran_ok (r : CommandResult) : bool := match r with Exited code => code =? 0 | NotRun _ => false end.
Definition command_error (r : CommandResult) : Err := match r with Exited _ => ErrText "exit status" | NotRun e => e end.

Section Builder.
Context {W : Type} `{CaseTables}.

(** [commandRunner]: the result of a command and what it wrote to its error
    output. *)
Definition Runner : Type := list string -> M W (CommandResult * string).

Record removePolicy := mkRemovePolicy {
  rm_Timeout : duration; rm_Attempts : Z; rm_RetryDelay : duration; rm_Wait : option (duration -> M W unit)
}.

Definition builderNotFound (output : string) : bool :=
  let message := ToLower output in
  (str_contains message "no builder" && str_contains message "found") || str_contains message "no such builder".

Context (runner : Runner).

(** One attempt to remove the builder. *)
Definition remove_once (command : list string) : RetryOperation (W := W) := fun _ =>
  '(result, output) ← runner command;
  if ran_ok result || builderNotFound output then mret tt
  else throw (ErrText ("remove ephemeral Buildx builder: " +:+ TrimSpace output)).

Definition removeBuilder (command : list string) (policy : removePolicy) : M W (option RetryOutcome) :=
  let timeout := if rm_Timeout policy <=? 0 then 15 * Second else rm_Timeout policy in
  let attempts := if rm_Attempts policy <=? 0 then 3 else rm_Attempts policy in
  let retryDelay := if rm_RetryDelay policy <=? 0 then 250 * Millisecond else rm_RetryDelay policy in
  Do (mkRetryPolicy retryDelay (wrap64 (4 * retryDelay)) attempts timeout 0 None (Some (default retry_wait (rm_Wait policy))) None)
    (Some (remove_once command)) (Some (fun _ => true)).

(** [runWithRunner]: the exit code, the error of the build, and the outcome of
    the removal. *)
Definition runWithRunner (address name : string) (arguments : list string) (credentials : TLS) (policy : removePolicy) :
    M W (Z * option Err * option RetryOutcome) :=
  let commands := PlanWithTLS address name arguments credentials in
  '(created, _) ← runner (bc_Create commands);
  if negb (ran_ok created) then
    cleanup ← removeBuilder (bc_Remove commands) policy;
    mret (1, Some (command_error created), cleanup)
  else
    '(built, _) ← runner (bc_Build commands);
    let '(code, buildErr) := match built with Exited code => (code, None) | NotRun e => (1, Some e) end in
    cleanup ← removeBuilder (bc_Remove commands) policy;
    mret (code, buildErr, cleanup).

End Builder.

(** * Retries end *)

Section Bounded.
Context {W : Type} (o : Oracle).

(** What is known of the world after [n] attempts, the last of which succeeded
    or not. *)
Context (P : nat -> bool -> W -> Prop).

Lemma wp_ctx_Err n b w (Q : option Err -> W -> Prop) E : P n b w -> (forall r, P n b w -> Q r w) -> wp o ctx_Err Q E w.
Proof using. intros HP HQ. unfold ctx_Err. repeat wp_step; [by apply HQ|]. intros s _. apply wp_ret. by apply HQ. Qed.

Context (maxDelay : duration) (maxAttempts : Z) (maxElapsed attemptTimeout : duration) (Now : M W time) (Wait : duration -> M W unit)
        (Jitter : duration -> M W duration) (operation : RetryOperation (W := W)) (retryable : Err -> bool) (started : time).

Context (Hdelay : 0 < maxDelay <= 2 ^ 62)
        (Hnow : forall n b w, P n b w -> wp o Now (fun _ => P n b) (fun _ _ => False) w)
        (Hjitter : forall n b d w, P n b w -> wp o (Jitter d) (fun _ => P n b) (fun _ _ => False) w)
        (Hwait : forall n b d w, 0 < d -> P n b w -> wp o (Wait d) (fun _ => P n b) (fun _ => P n b) w)
        (Hoperation : forall n b t w, P n b w -> wp o (operation t) (fun _ => P (S n) true) (fun _ => P (S n) false) w).

(** Delays stay positive and below the limit, without overflow. *)
Lemma next_delay_bound delay : 0 < delay <= maxDelay -> delay <= next_delay maxDelay delay <= maxDelay.
Proof using Hdelay.
  intros Hd. unfold next_delay. destruct (delay <? maxDelay) eqn:E; [|lia]. split_bools. rewrite wrap64_id by lia. cbv zeta.
  destruct (maxDelay <? delay * 2) eqn:E2; split_bools; lia.
Qed.

Definition retry_post (n : nat) (outcome : RetryOutcome) (w : W) : Prop :=
  Z.of_nat n <= maxAttempts /\ match outcome with
  | RetrySuccess => (0 < n)%nat /\ P n true w
  | ExhaustedAttempts k _ => k = maxAttempts /\ Z.of_nat n = maxAttempts /\ P n false w
  | _ => P n false w
  end.

Lemma retry_loop_ends fuel : forall n delay w,
  0 < delay <= maxDelay -> Z.of_nat n + Z.of_nat fuel = maxAttempts -> (0 < fuel)%nat -> P n false w ->
  wp o (retry_loop maxDelay maxAttempts maxElapsed attemptTimeout Now Wait Jitter operation retryable started fuel (Z.of_nat n + 1) delay)
    (fun r w' => exists outcome m, r = Some outcome /\ retry_post m outcome w') (fun _ _ => False) w.
Proof using All.
  assert (Hret : forall m outcome w, retry_post m outcome w ->
            wp o (mret (Some outcome)) (fun r w' => exists outcome m, r = Some outcome /\ retry_post m outcome w') (fun _ _ => False) w).
  { intros m outcome w Hp. apply wp_ret. by exists outcome, m. }
  induction fuel as [|fuel IH]; intros n delay w Hd Hn Hf HP; [lia|]. cbn [retry_loop]. wp_step.
  apply (wp_ctx_Err n false); [done|]. intros [e|] _; [apply (Hret n); by split; [lia|]|]. wp_step. wp_step.
  eapply wp_mono; [by apply (Hoperation n false)| |]; intros e w1 HP1; [apply (Hret (S n)); split; [lia|]; by split; [lia|]|].
  assert (Hn1 : Z.of_nat (S n) <= maxAttempts) by lia.
  wp_step. apply (wp_ctx_Err (S n) false); [done|]. intros [c|] _; [by apply (Hret (S n))|].
  destruct (negb (retryable e)); [by apply (Hret (S n))|]. destruct (maxAttempts <=? Z.of_nat n + 1) eqn:Ea; split_bools.
  { apply (Hret (S n)). split; [done|]. split; [lia|]. split; [lia|done]. }
  wp_step. eapply wp_mono; [by apply (Hnow (S n) false)| |done]. intros now w2 HP2. cbv zeta.
  destruct (wrap64 _ <=? 0) eqn:Er; split_bools; [by apply (Hret (S n))|].
  wp_step. eapply wp_mono; [by apply (Hjitter (S n) false)| |done]. intros jittered w3 HP3. wp_step. wp_step.
  eapply wp_mono; [apply (Hwait (S n) false)| |]; [|done| |].
  - destruct (jittered <=? 0) eqn:Ej; case_match; split_bools; lia.
  - intros a w4 HP4. replace (Z.of_nat n + 1 + 1) with (Z.of_nat (S n) + 1) by lia. pose proof (next_delay_bound delay Hd).
    apply IH; [lia|lia|lia|done].
  - intros e' w4 HP4. by apply (Hret (S n)).
Qed.

End Bounded.

(** The budget of [Do]. *)
Lemma retry_is_bounded_lemma {W : Type} (o : Oracle) (P : nat -> bool -> W -> Prop) (p : RetryPolicy W) (operation : RetryOperation (W := W)) retryable w :
  rp_InitialDelay p <= 2 ^ 62 -> rp_MaxDelay p <= 2 ^ 62 ->
  (forall n b w, P n b w -> wp o (default time_Now (rp_Now p)) (fun _ => P n b) (fun _ _ => False) w) ->
  (forall n b d w, P n b w -> wp o (default default_jitter (rp_Jitter p) d) (fun _ => P n b) (fun _ _ => False) w) ->
  (forall n b d w, 0 < d -> P n b w -> wp o (default retry_wait (rp_Wait p) d) (fun _ => P n b) (fun _ => P n b) w) ->
  (forall n b t w, P n b w -> wp o (operation t) (fun _ => P (S n) true) (fun _ => P (S n) false) w) ->
  P 0%nat false w ->
  wp o (Do p (Some operation) (Some retryable))
    (fun r w' => exists outcome n, r = Some outcome /\ retry_post P (rp_MaxAttempts (normalize_policy p)) n outcome w') (fun _ _ => False) w.
Proof.
  intros Hi Hm Hnow Hjitter Hwait Hop HP. unfold Do. cbv zeta. cbn [normalize_policy rp_Now rp_Wait rp_Jitter default rp_MaxDelay rp_MaxAttempts rp_InitialDelay rp_MaxElapsed rp_AttemptTimeout].
  set (initial := if rp_InitialDelay p <=? 0 then _ else _). set (maxDelay := if rp_MaxDelay p <=? 0 then _ else _).
  set (attempts := if rp_MaxAttempts p <=? 0 then 5 else _).
  assert (Hinit : 0 < initial <= 2 ^ 62) by (subst initial; unfold Millisecond; case_match; split_bools; lia).
  assert (Hmax : 0 < maxDelay <= 2 ^ 62) by (subst maxDelay; unfold Second; case_match; split_bools; lia).
  assert (Hatt : 0 < attempts) by (subst attempts; case_match; split_bools; lia).
  assert (Hlim : initial <= (if maxDelay <? initial then initial else maxDelay) <= 2 ^ 62) by (case_match; split_bools; lia).
  wp_step. eapply wp_mono; [by apply (Hnow 0%nat false)| |done]. intros started w1 HP1.
  eapply (retry_loop_ends o P _ attempts _ _ _ _ _ operation retryable started) with (n := 0%nat); eauto; lia.
Qed.

(** C29: a retry ends within its budget, and says the truth about its last
    attempt.  With delays below 2^62 ns, [Do] returns after at most
    [MaxAttempts] attempts (five by default); it waits only for positive
    times; it reports success only when the last attempt succeeded, exhaustion
    of the attempts exactly after [MaxAttempts] failures, and every other outcome
    after a failed last attempt or before the first one.  [P n b] stands for
    whatever the attempts, the clock and the waits keep. *)
Theorem retry_is_bounded {W : Type} (o : Oracle) (P : nat -> bool -> W -> Prop) (p : RetryPolicy W) (operation : RetryOperation (W := W)) retryable w :
  rp_InitialDelay p <= 2 ^ 62 -> rp_MaxDelay p <= 2 ^ 62 ->
  (forall n b w, P n b w -> wp o (default time_Now (rp_Now p)) (fun _ => P n b) (fun _ _ => False) w) ->
  (forall n b d w, P n b w -> wp o (default default_jitter (rp_Jitter p) d) (fun _ => P n b) (fun _ _ => False) w) ->
  (forall n b d w, 0 < d -> P n b w -> wp o (default retry_wait (rp_Wait p) d) (fun _ => P n b) (fun _ => P n b) w) ->
  (forall n b t w, P n b w -> wp o (operation t) (fun _ => P (S n) true) (fun _ => P (S n) false) w) ->
  P 0%nat false w ->
  wp o (Do p (Some operation) (Some retryable))
    (fun r w' => exists outcome n, r = Some outcome /\ retry_post P (rp_MaxAttempts (normalize_policy p)) n outcome w') (fun _ _ => False) w.
Proof. apply retry_is_bounded_lemma. Qed.

(** An operation that succeeds at its third attempt. *)
Definition third_time : RetryOperation (W := nat) := fun _ o '(w, n) => (if (w <? 2)%nat then Fail (ErrText "busy") else Ok tt, (S w, S n)).
Definition default_policy : RetryPolicy nat := mkRetryPolicy 0 0 0 0 0 None None None.
Definition retry_oracle : Oracle := mkOracle (fun n => Z.of_nat n) (fun _ => 7) (fun _ => None).

Lemma retry_is_bounded_witness :
  let run := Do default_policy (Some third_time) (Some (fun _ => true)) retry_oracle (0%nat, 0%nat) in
  run.1 = Ok (Some RetrySuccess) /\ (0 < run.2.1 <= 5)%nat.
Proof.
  intros run. assert (Er : run.1 = Ok (Some RetrySuccess)) by (vm_compute; reflexivity). split; [exact Er|].
  pose proof (retry_is_bounded retry_oracle (fun n _ w => w = n) default_policy third_time (fun _ => true) 0%nat) as Hw.
  assert (H1 : rp_InitialDelay default_policy <= 2 ^ 62) by (simpl; lia).
  specialize (Hw H1 H1). specialize (Hw ltac:(intros n b w Hn k; exact Hn) ltac:(intros n b d w Hn k; exact Hn)).
  specialize (Hw ltac:(intros n b d w _ Hn; by apply wp_may_fail)).
  specialize (Hw ltac:(intros n b t w Hn k; unfold third_time; destruct (w <? 2)%nat; by rewrite Hn) eq_refl 0%nat).
  subst run. destruct (Do _ _ _ _ _) as [[r|e] [w n]]; [|discriminate]. injection Er as ->. destruct Hw as (outcome & m & E & Hm & Hp).
  injection E as <-. destruct Hp as [Hp ->]. simpl in Hm |- *. lia.
Defined.

(** ** Builders *)

(** A removal that is reported as successful removed the builder, or found it
    gone; and the removal always ends. *)
Lemma removal_is_honest {W : Type} `{CaseTables} (o : Oracle) (runner : Runner (W := W)) (Gone : W -> Prop) command (policy : removePolicy (W := W)) w :
  (forall w, wp o (runner command) (fun '(result, output) w' => ran_ok result || builderNotFound output = true -> Gone w') (fun _ _ => False) w) ->
  (forall d w, wp o (default retry_wait (rm_Wait policy) d) (fun _ w' => w' = w) (fun _ w' => w' = w) w) ->
  rm_RetryDelay policy <= 2 ^ 60 ->
  wp o (removeBuilder runner command policy)
    (fun r w' => exists outcome, r = Some outcome /\ (outcome = RetrySuccess -> Gone w')) (fun _ _ => False) w.
Proof.
  intros Hrun Hwait Hd. unfold removeBuilder. cbv zeta.
  assert (Hr : (if rm_RetryDelay policy <=? 0 then 250 * Millisecond else rm_RetryDelay policy) <= 2 ^ 60) by (unfold Millisecond; case_match; lia).
  assert (Hr0 : 0 < (if rm_RetryDelay policy <=? 0 then 250 * Millisecond else rm_RetryDelay policy)) by (unfold Millisecond; case_match; split_bools; lia).
  eapply wp_mono; [eapply (retry_is_bounded_lemma o (fun _ b w => b = true -> Gone w))| |done].
  all: cbn [rp_InitialDelay rp_MaxDelay rp_Now rp_Jitter rp_Wait default].
  - lia.
  - rewrite wrap64_id by lia. lia.
  - intros n b w1 H1. by apply wp_now.
  - intros n b d w1 H1 k. exact H1.
  - intros n b d w1 _ H1. eapply wp_mono; [apply Hwait| |]; by intros ? w2 ->.
  - intros n b t w1 _. unfold remove_once. wp_step. eapply wp_mono; [apply Hrun| |done]. intros [result output] w2 Hg.
    destruct (ran_ok result || builderNotFound output); [by apply wp_ret; intros _; apply Hg|by apply wp_throw].
  - done.
  - intros r w1 (outcome & n & -> & _ & Hp). exists outcome. split; [done|]. intros ->. by apply Hp.
Qed.
