(* ===== verification/Path.v ===== *)
(** * Paths

    What the control plane uses of [path] and [path/filepath] on Unix: [Clean],
    [IsAbs] and [Join], with the facts that the validation of working
    directories, caches and secret files rests on.  A path is cut at its slashes
    into elements; [Clean] keeps a stack of them. *)
From Stdlib Require Import Ascii.
From S2P Require Import Prelude Model GoStrings.

(** [strings.Split] at slashes. *)
Fixpoint split_slash (s : string) : list string :=
  match s with
  | "" => [""]
  | String c rest =>
      if Ascii.eqb c "/"%char then "" :: split_slash rest
      else match split_slash rest with [] => [String c ""] | h :: t => String c h :: t end
  end.

Definition IsAbs (s : string) : bool := HasPrefix s "/".

(** One element, with the elements before it, the last one first. *)
Definition clean_push (rooted : bool) (stack : list string) (c : string) : list string :=
  if bool_decide (c = "") || bool_decide (c = ".") then stack else
  if bool_decide (c = "..") then
    match stack with
    | [] => if rooted then [] else [".."]
    | top :: below => if bool_decide (top = "..") then ".." :: stack else below
    end
  else c :: stack.

Definition clean_parts (rooted : bool) (s : string) : list string :=
  rev (fold_left (clean_push rooted) (split_slash s) []).

Definition join_slash (parts : list string) : string := String.concat "/" parts.

Definition Clean (s : string) : string :=
  if IsAbs s then "/" +:+ join_slash (clean_parts true s)
  else match clean_parts false s with [] => "." | parts => join_slash parts end.

(** [filepath.Join] of two elements. *)
Definition Join (a b : string) : string :=
  if bool_decide (a = "") then (if bool_decide (b = "") then "" else Clean b)
  else if bool_decide (b = "") then Clean a else Clean (a +:+ "/" +:+ b).

(** ** Elements *)

Lemma app_empty_r (s : string) : s +:+ "" = s.
Proof. induction s as [|c s IH]; [done|]. exact (f_equal (String c) IH). Qed.

Lemma app_assoc_s (a b c : string) : a +:+ (b +:+ c) = (a +:+ b) +:+ c.
Proof. induction a as [|x a IH]; [done|]. exact (f_equal (String x) IH). Qed.

(** An element that [Clean] keeps where it is. *)
Definition proper (c : string) : Prop := c <> "" /\ c <> "." /\ c <> ".." /\ has_byte "/"%char c = false.

(** The elements of a clean relative path: steps up, then names. *)
Definition clean_relative (parts : list string) : Prop :=
  exists up names, parts = repeat ".." up ++ names /\ Forall proper names.

Lemma split_slash_nonempty s : split_slash s <> [].
Proof. destruct s as [|c s]; simpl; [done|]. destruct (Ascii.eqb c "/"%char); [done|]. by destruct (split_slash s). Qed.

Lemma split_slash_plain s : Forall (fun c => has_byte "/"%char c = false) (split_slash s).
Proof.
  induction s as [|c s IH]; simpl; [by repeat constructor|]. destruct (Ascii.eqb_spec c "/"%char) as [->|Hc]; [by constructor|].
  assert (Hb : forall h, has_byte "/"%char h = false -> has_byte "/"%char (String c h) = false).
  { intros h Hh. unfold has_byte in *. cbn [bytes existsb]. rewrite Hh, orb_false_r. apply Z.eqb_neq. intros E.
    apply byte_of_inj in E. congruence. }
  destruct (split_slash s) as [|h t]; [constructor; [by apply Hb|done]|]. inversion IH; subst. constructor; [by apply Hb|done].
Qed.

Lemma split_slash_app a b : has_byte "/"%char a = false ->
  split_slash (a +:+ b) = match split_slash b with [] => [a] | h :: t => (a +:+ h) :: t end.
Proof.
  unfold has_byte. induction a as [|c a IH]; simpl; intros Ha.
  - by destruct (split_slash b) eqn:E; [destruct (split_slash_nonempty b)|].
  - apply orb_false_iff in Ha as [Hc Ha]. destruct (Ascii.eqb_spec c "/"%char) as [->|_]; [discriminate Hc|].
    rewrite (IH Ha). by destruct (split_slash b).
Qed.

Lemma split_slash_one a : has_byte "/"%char a = false -> split_slash a = [a].
Proof. intros Ha. pose proof (split_slash_app a "" Ha) as E. simpl in E. by rewrite !app_empty_r in E. Qed.

(** Joined elements are cut where they were joined. *)
Lemma split_join parts : parts <> [] -> Forall (fun c => has_byte "/"%char c = false) parts -> split_slash (join_slash parts) = parts.
Proof.
  intros Hne Hf. induction Hf as [|c parts Hc Hf IH]; [done|]. destruct parts as [|c' parts]; [by apply split_slash_one|].
  unfold join_slash in *. change (String.concat "/" (c :: c' :: parts)) with (c +:+ "/" +:+ String.concat "/" (c' :: parts)).
  rewrite split_slash_app by done. change ("/" +:+ ?x) with (String "/"%char x). cbn [split_slash Ascii.eqb Bool.eqb].
  rewrite IH by done. by rewrite app_empty_r.
Qed.

Lemma split_slash_sep a b : split_slash (a +:+ String "/"%char b) = split_slash a ++ split_slash b.
Proof.
  induction a as [|c a IH]; [done|]. change ((String c a) +:+ ?x) with (String c (a +:+ x)). cbn [split_slash]. rewrite IH.
  destruct (Ascii.eqb c "/"%char); [done|]. destruct (split_slash a) eqn:E; [by destruct (split_slash_nonempty a)|done].
Qed.

Lemma proper_plain names : Forall proper names -> Forall (fun c => has_byte "/"%char c = false) names.
Proof. intros H. eapply Forall_impl; [exact H|]. by intros c (_ & _ & _ & ?). Qed.

Lemma up_plain n : Forall (fun c => has_byte "/"%char c = false) (repeat ".." n).
Proof. induction n; simpl; by constructor. Qed.

(** ** What [Clean] leaves *)

Lemma push_proper rooted stack c : proper c -> clean_push rooted stack c = c :: stack.
Proof. intros (? & ? & ? & _). unfold clean_push. by rewrite !bool_decide_eq_false_2. Qed.

Lemma push_names rooted names stack :
  Forall proper names -> fold_left (clean_push rooted) names stack = rev names ++ stack.
Proof.
  intros H. revert stack. induction H as [|c names Hc _ IH]; intros stack; simpl; [done|].
  rewrite push_proper by done. by rewrite IH, <- (assoc_L (++)).
Qed.

Lemma push_up n stack : (exists k, stack = repeat ".." k) -> fold_left (clean_push false) (repeat ".." n) stack = repeat ".." n ++ stack.
Proof.
  revert stack. induction n as [|n IH]; intros stack [k ->]; simpl; [done|].
  assert (E : clean_push false (repeat ".." k) ".." = repeat ".." (S k)) by (destruct k; reflexivity).
  rewrite E, IH by (by eexists). rewrite <- !repeat_app. change (".." :: repeat ".." (n + k)) with (repeat ".." (S (n + k))).
  by rewrite Nat.add_succ_r.
Qed.

(** The stack of a relative path: names over steps up. *)
Lemma push_relative stack c :
  has_byte "/"%char c = false -> (exists up names, stack = names ++ repeat ".." up /\ Forall proper names) ->
  exists up names, clean_push false stack c = names ++ repeat ".." up /\ Forall proper names.
Proof.
  intros Hc (up & names & -> & Hn). unfold clean_push. repeat case_bool_decide; simpl; eauto.
  - destruct Hn as [|top names Ht Hn]; simpl.
    + exists (S up), []. destruct up; simpl; by constructor.
    + rewrite bool_decide_eq_false_2 by apply Ht. eauto.
  - exists up, (c :: names). split; [done|]. by constructor.
Qed.

Lemma push_rooted stack c :
  has_byte "/"%char c = false -> Forall proper stack -> Forall proper (clean_push true stack c).
Proof.
  intros Hc Hn. unfold clean_push. repeat case_bool_decide; simpl; try done.
  - destruct Hn as [|top names Ht Hn]; [constructor|]. by rewrite bool_decide_eq_false_2 by apply Ht.
  - by constructor.
Qed.

Lemma clean_parts_relative s : clean_relative (clean_parts false s).
Proof.
  unfold clean_parts. assert (H : exists up names, fold_left (clean_push false) (split_slash s) [] = names ++ repeat ".." up /\ Forall proper names).
  { pose proof (split_slash_plain s) as Hp. revert Hp. assert (H0 : exists up names, ([] : list string) = names ++ repeat ".." up /\ Forall proper names).
    { exists 0%nat, []. by split. }
    revert H0. generalize (@nil string). induction (split_slash s) as [|c l IH]; intros stack H0 Hp; simpl; [done|].
    inversion Hp; subst. apply IH; [by apply push_relative|done]. }
  destruct H as (up & names & -> & Hn). exists up, (rev names). split; [|by apply Forall_rev].
  by rewrite rev_app_distr, rev_repeat.
Qed.

Lemma clean_parts_rooted s : Forall proper (clean_parts true s).
Proof.
  unfold clean_parts. apply Forall_rev. pose proof (split_slash_plain s) as Hp. revert Hp.
  assert (H0 : Forall proper []) by constructor. revert H0. generalize (@nil string).
  induction (split_slash s) as [|c l IH]; intros stack H0 Hp; simpl; [done|]. inversion Hp; subst. apply IH; [by apply push_rooted|done].
Qed.

(** A clean absolute path, from its elements and back. *)
Lemma clean_parts_abs parts : Forall proper parts -> clean_parts true ("/" +:+ join_slash parts) = parts.
Proof.
  intros H. unfold clean_parts. change ("/" +:+ ?x) with (String "/"%char x). cbn [split_slash Ascii.eqb Bool.eqb].
  destruct (decide (parts = [])) as [->|Hne]; [done|]. rewrite split_join by (done || by apply proper_plain).
  simpl. by rewrite push_names, app_nil_r, rev_involutive.
Qed.

Lemma clean_parts_join up names :
  up <> 0%nat \/ names <> [] -> Forall proper names ->
  clean_parts false (join_slash (repeat ".." up ++ names)) = repeat ".." up ++ names.
Proof.
  intros Hne H. unfold clean_parts. rewrite split_join.
  - rewrite fold_left_app, push_up by (by exists 0%nat). rewrite app_nil_r, push_names by done. by rewrite rev_app_distr, rev_involutive, rev_repeat.
  - destruct up, names; try done. by destruct Hne.
  - apply Forall_app. split; [apply up_plain|by apply proper_plain].
Qed.

(** ** Staying below a directory *)

(** The test of [validateJob] and of [resolveWorkingDirectory] on a clean path. *)
Definition escapes (clean : string) : bool := bool_decide (clean = "..") || HasPrefix clean "../".

(** A relative path that does not escape is the directory itself, or names
    below it. *)
Lemma inside_names s :
  IsAbs s = false -> escapes (Clean s) = false ->
  Clean s = "." \/ exists names, names <> [] /\ Forall proper names /\ Clean s = join_slash names.
Proof.
  unfold Clean. intros -> He. destruct (clean_parts_relative s) as (up & names & E & Hn). rewrite E in *.
  destruct up as [|up].
  - destruct names as [|c names]; [by left|]. right. exists (c :: names). by repeat split.
  - exfalso. unfold escapes in He. apply orb_false_iff in He as [H1 H2]. apply bool_decide_eq_false in H1.
    simpl in *. destruct (repeat ".." up ++ names) as [|c l]; [by apply H1|]. unfold HasPrefix in H2.
    change (join_slash (".." :: c :: l)) with (".." +:+ "/" +:+ join_slash (c :: l)) in H2. simpl in H2.
    by destruct (join_slash (c :: l)).
Qed.

Lemma proper_first c names :
  Forall proper (c :: names) -> exists b rest, join_slash (c :: names) = String b rest /\ b <> "/"%char.
Proof.
  intros H. inversion H as [|? ? (Hc & _ & _ & Hb) _]; subst. destruct c as [|b c]; [done|].
  exists b. destruct names; simpl; eexists; (split; [reflexivity|]); intros ->; by unfold has_byte in Hb.
Qed.

Lemma join_relative names : names <> [] -> Forall proper names -> IsAbs (join_slash names) = false /\ join_slash names <> "".
Proof.
  intros Hne H. destruct names as [|c names]; [done|]. destruct (proper_first c names H) as (b & rest & -> & Hb).
  split; [|done]. unfold IsAbs, HasPrefix. cbn [String.prefix]. destruct (Ascii.ascii_dec _ _); congruence.
Qed.

(** A clean relative path is clean. *)
Lemma Clean_names names : names <> [] -> Forall proper names -> Clean (join_slash names) = join_slash names.
Proof.
  intros Hne H. unfold Clean. destruct (join_relative names Hne H) as [-> _].
  pose proof (clean_parts_join 0 names (or_intror Hne) H) as E. simpl in E. rewrite E. by destruct names.
Qed.

Lemma IsAbs_slash s : IsAbs (String "/"%char s) = true.
Proof. unfold IsAbs, HasPrefix. cbn [String.prefix]. by destruct (Ascii.ascii_dec _ _), s. Qed.

(** Joining names to a clean absolute path appends them. *)
Lemma Join_names parts names :
  Forall proper parts -> names <> [] -> Forall proper names ->
  Join ("/" +:+ join_slash parts) (join_slash names) = "/" +:+ join_slash (parts ++ names).
Proof.
  intros Hp Hne Hn. unfold Join. destruct (join_relative names Hne Hn) as [_ H0]. rewrite !bool_decide_eq_false_2 by done.
  unfold Clean. change (("/" +:+ ?x) +:+ "/" +:+ ?y) with (String "/"%char (x +:+ String "/"%char y)).
  rewrite IsAbs_slash. do 2 f_equal. unfold clean_parts.
  cbn [split_slash Ascii.eqb Bool.eqb]. rewrite split_slash_sep, (split_join names) by (done || by apply proper_plain).
  change (fold_left _ ("" :: ?l) []) with (fold_left (clean_push true) l []). rewrite fold_left_app, push_names by done.
  rewrite rev_app_distr, rev_involutive. f_equal.
  destruct (decide (parts = [])) as [->|Hpe]; [done|]. rewrite split_join by (done || by apply proper_plain).
  by rewrite push_names, app_nil_r, rev_involutive.
Qed.
