(* ===== verification/Validate.v ===== *)
(** * Validation of submitted jobs

    The patterns and validators of [internal/control/controlapi/server.go] that
    a submission passes before the store sees it: image, command, working
    directory, environment, caches, secrets, timeout and idempotency key.  The
    texts of errors carry the arguments of their format unquoted. *)
From Stdlib Require Import Ascii.
From S2P Require Import Prelude Model GoStrings Path.

(** ** Patterns *)

Definition byte_in (lo hi : ascii) (b : Z) : bool := (byte_of lo <=? b) && (b <=? byte_of hi).
Definition byte_is (c : ascii) (b : Z) : bool := b =? byte_of c.

Definition digit (b : Z) : bool := byte_in "0" "9" b.
Definition lower (b : Z) : bool := byte_in "a" "z" b.
Definition upper (b : Z) : bool := byte_in "A" "Z" b.
Definition lower_hex (b : Z) : bool := digit b || byte_in "a" "f" b.

(** A first byte and further ones. *)
Definition starts_with (first rest : Z -> bool) (s : string) : bool :=
  match bytes s with [] => false | b :: l => first b && forallb rest l end.

(** [`^.+@sha256:[0-9a-f]{64}$`]; the dot matches anything but a newline. *)
Definition imageDigestPattern (s : string) : bool :=
  let l := bytes s in
  let n := (length l - 72)%nat in
  (0 <? n)%nat && forallb (fun b => negb (b =? 10)) (take n l)
  && bool_decide (take 8 (drop n l) = bytes "@sha256:") && forallb lower_hex (drop 8 (drop n l)).

(** [`^[0-9a-f]{64}/[1-9][0-9]*$`] *)
Definition rootDigestPattern (s : string) : bool :=
  match cut "/"%char s with
  | Some (hash, size) =>
      (length (bytes hash) =? 64)%nat && forallb lower_hex (bytes hash) && starts_with (byte_in "1" "9") digit size
  | None => false
  end.

(** [`^[A-Za-z_][A-Za-z0-9_]*$`] *)
Definition environmentKey (s : string) : bool :=
  starts_with (fun b => upper b || lower b || byte_is "_" b) (fun b => upper b || lower b || digit b || byte_is "_" b) s.

(** [`^[A-Za-z0-9][A-Za-z0-9._:-]{7,127}$`] *)
Definition idempotencyKeyPattern (s : string) : bool :=
  starts_with (fun b => upper b || lower b || digit b)
    (fun b => upper b || lower b || digit b || byte_is "." b || byte_is "_" b || byte_is ":" b || byte_is "-" b) s
  && (8 <=? length (bytes s))%nat && (length (bytes s) <=? 128)%nat.

(** [`^[a-z0-9][a-z0-9._-]{0,62}$`] *)
Definition cacheNamePattern (s : string) : bool :=
  starts_with (fun b => lower b || digit b)
    (fun b => lower b || digit b || byte_is "." b || byte_is "_" b || byte_is "-" b) s
  && (length (bytes s) <=? 63)%nat.

(** [strings.ContainsRune(s, 0)] *)
Definition has_nul (s : string) : bool := existsb (Z.eqb 0) (bytes s).

(** ** Messages *)

(** [google.protobuf.Duration], by what [CheckValid] and [AsDuration] say. *)
Record DurationPB := mkDurationPB { dp_valid : bool; dp_duration : duration }.

Inductive SecretTarget := TargetEnvironment (name : string) | TargetFile (path : string) | TargetUnset.
Record JobSecret := mkJobSecret { js_Name : string; js_Target : SecretTarget }.

(** [autbackv1.PrepareJobRequest].  The environment is the map in the order in
    which [range] visits it; a list of messages may hold nil pointers. *)
Record PrepareJobRequest := mkPrepareJobRequest {
  rq_Project : string;
  rq_Image : string;
  rq_Command : list string;
  rq_WorkingDirectory : string;
  rq_Environment : list (string * string);
  rq_Timeout : option DurationPB;
  rq_IdempotencyKey : string;
  rq_Caches : list (option CacheMount);
  rq_Secrets : list (option JobSecret)
}.

(** ** Validators *)

Definition pathsOverlap (first second : string) : bool :=
  bool_decide (first = second) || HasPrefix first (second +:+ "/") || HasPrefix second (first +:+ "/").

Section Validators.
Context `{CaseTables}.

Definition containsSecretReference (value : string) : bool :=
  let lower := ToLower value in str_contains lower "secret://" || str_contains lower "${{ secrets.".

(** The [switch] on the target of a secret. *)
Definition secret_binding (environment : list (string * string)) (fileTargets : list string) (secret : JobSecret) : SecretBinding + Err :=
  let name := js_Name secret in
  match js_Target secret with
  | TargetEnvironment target =>
      if negb (environmentKey target) || HasPrefix target "AUTBACK_"
      then inr (ErrText ("secret " +:+ name +:+ " environment target is invalid")) else
      if existsb (fun kv => bool_decide (kv.1 = target)) environment
      then inr (ErrText ("secret " +:+ name +:+ " environment target overlaps a public environment value"))
      else inl (mkSecret name target "")
  | TargetFile target =>
      let clean := Clean target in
      if negb (IsAbs target) || negb (HasPrefix clean "/run/secrets/") || bool_decide (clean = "/run/secrets")
      then inr (ErrText ("secret " +:+ name +:+ " file target must be below /run/secrets")) else
      if existsb (pathsOverlap clean) fileTargets
      then inr (ErrText ("secret " +:+ name +:+ " file target overlaps another"))
      else inl (mkSecret name "" clean)
  | TargetUnset => inr (ErrText ("secret " +:+ name +:+ " requires an environment or file target"))
  end.

(** The loop of [validateSecrets]: names and targets seen so far, the files
    among them, and the bindings made. *)
Fixpoint secret_bindings (environment : list (string * string)) (names : list string) (targets : list (string * string))
    (fileTargets : list string) (input : list (option JobSecret)) : list SecretBinding + Err :=
  match input with
  | [] => inl []
  | item :: rest =>
      match item with
      | None => inr (ErrText "secret name must contain 1 to 63 lowercase safe characters")
      | Some secret =>
          let name := js_Name secret in
          if negb (cacheNamePattern name) then inr (ErrText "secret name must contain 1 to 63 lowercase safe characters") else
          if bool_decide (name ∈ names) then inr (ErrText ("secret " +:+ name +:+ " is declared more than once")) else
          match secret_binding environment fileTargets secret with
          | inr e => inr e
          | inl b =>
              let targetKey := (sb_Environment b, sb_File b) in
              if bool_decide (targetKey ∈ targets) then inr (ErrText "secret target is declared more than once") else
              let fileTargets := match js_Target secret with TargetFile _ => fileTargets ++ [sb_File b] | _ => fileTargets end in
              match secret_bindings environment (name :: names) (targetKey :: targets) fileTargets rest with
              | inl l => inl (b :: l)
              | inr e => inr e
              end
          end
      end
  end.

Definition validateSecrets (input : list (option JobSecret)) (environment : list (string * string)) : list SecretBinding + Err :=
  if (32 <? length input)%nat then inr (ErrText "a job may declare at most 32 secrets")
  else secret_bindings environment [] [] [] input.

Definition reserved_targets : list string :=
  ["/var/run/docker.sock"; "/usr/local/bin/autback-job-entrypoint"; "/run/autback/secrets"; "/run/secrets"].

(** The loop of [validateCaches]. *)
Fixpoint cache_mounts (names targets : list string) (input : list (option CacheMount)) : list CacheMount + Err :=
  match input with
  | [] => inl []
  | item :: rest =>
      match item with
      | None => inr (ErrText "cache name must contain 1 to 63 lowercase safe characters")
      | Some cache =>
          let name := cm_Name cache in
          if negb (cacheNamePattern name) then inr (ErrText "cache name must contain 1 to 63 lowercase safe characters") else
          let target := Clean (cm_Target cache) in
          if negb (IsAbs (cm_Target cache)) || bool_decide (target = "/") || has_nul (cm_Target cache)
          then inr (ErrText ("cache " +:+ name +:+ " target must be an absolute container path below /")) else
          if bool_decide (name ∈ names) then inr (ErrText ("cache name " +:+ name +:+ " is declared more than once")) else
          if bool_decide (target ∈ targets) then inr (ErrText ("cache target " +:+ target +:+ " is declared more than once")) else
          if existsb (pathsOverlap target) reserved_targets
          then inr (ErrText ("cache target " +:+ target +:+ " overlaps a protected runtime path")) else
          match cache_mounts (name :: names) (target :: targets) rest with
          | inl l => inl (mkCache name target :: l)
          | inr e => inr e
          end
      end
  end.

Definition cache_before (a b : CacheMount) : bool := String.leb (cm_Name a) (cm_Name b).

Definition validateCaches (input : list (option CacheMount)) : list CacheMount + Err :=
  if (16 <? length input)%nat then inr (ErrText "a job may declare at most 16 caches") else
  match cache_mounts [] [] input with
  | inl l => inl (order_by cache_before l)
  | inr e => inr e
  end.

(** The first argument that is refused, and why. *)
Fixpoint check_command (command : list string) : option Err :=
  match command with
  | [] => None
  | argument :: rest =>
      if has_nul argument then Some (ErrText "command contains a NUL byte") else
      if containsSecretReference argument then Some (ErrText "secret references must use the dedicated secrets field")
      else check_command rest
  end.

Fixpoint check_environment (environment : list (string * string)) : option Err :=
  match environment with
  | [] => None
  | (key, value) :: rest =>
      if negb (environmentKey key) || HasPrefix key "AUTBACK_" || has_nul value
      then Some (ErrText ("invalid environment value " +:+ key)) else
      if containsSecretReference value
      then Some (ErrText ("environment value " +:+ key +:+ " must use the dedicated secrets field"))
      else check_environment rest
  end.

Definition maximumJobTimeout : duration := 24 * Hour.

(** The tests of [validateJob] in their order; [allowUnpinned] is
    [config.AllowUnpinnedImages]. *)
Definition validateJob (allowUnpinned : bool) (projectID : string) (message : PrepareJobRequest) : PrepareJob + Err :=
  if bool_decide (rq_Image message = "") || (negb allowUnpinned && negb (imageDigestPattern (rq_Image message)))
  then inr (ErrText "image must be pinned by sha256 digest") else
  if (length (rq_Command message) =? 0)%nat || (128 <? length (rq_Command message))%nat
  then inr (ErrText "command must contain between 1 and 128 arguments") else
  match check_command (rq_Command message) with
  | Some e => inr e
  | None =>
  let workingDirectory := if bool_decide (rq_WorkingDirectory message = "") then "." else rq_WorkingDirectory message in
  let clean := Clean workingDirectory in
  if IsAbs workingDirectory || escapes clean then inr (ErrText "working directory must remain within the workspace") else
  if (128 <? length (rq_Environment message))%nat then inr (ErrText "environment may contain at most 128 values") else
  match validateCaches (rq_Caches message) with
  | inr e => inr e
  | inl caches =>
  match check_environment (rq_Environment message) with
  | Some e => inr e
  | None =>
  match validateSecrets (rq_Secrets message) (rq_Environment message) with
  | inr e => inr e
  | inl secrets =>
  let timeout :=
    match rq_Timeout message with
    | None => inl (30 * Minute)
    | Some d => if dp_valid d then inl (dp_duration d) else inr (ErrText "invalid timeout")
    end in
  match timeout with
  | inr e => inr e
  | inl timeout =>
  if (timeout <? Second) || (maximumJobTimeout <? timeout) then inr (ErrText "timeout must be between 1 second and 24 hours") else
  if negb (idempotencyKeyPattern (rq_IdempotencyKey message))
  then inr (ErrText "idempotency key must contain 8 to 128 safe characters") else
  inl (mkPrepareJob projectID (rq_Image message) (rq_Command message) clean (rq_Environment message) timeout caches secrets)
  end end end end end.

End Validators.

(** ** [resolveWorkingDirectory] of [cmd/autback-job-entrypoint/main.go] *)

Definition resolveWorkingDirectory (workspace relative : string) : string + Err :=
  if bool_decide (relative = "") || bool_decide (relative = ".") then inl workspace else
  if IsAbs relative then inr (ErrText "AUTBACK_WORKING_DIRECTORY must be relative to the workspace") else
  let clean := Clean relative in
  if escapes clean then inr (ErrText "AUTBACK_WORKING_DIRECTORY escapes the workspace")
  else inl (Join workspace clean).
