(* ===== verification/ValidateTheorems.v ===== *)
(** * What the validation of a submission guarantees *)
From Stdlib Require Import Ascii.
From S2P Require Import Prelude Model GoStrings Encoding Path Validate.

(** ** Paths apart *)

Lemma prefix_app_string p s : String.prefix p s = true <-> exists r, s = p +:+ r.
Proof.
  revert s. induction p as [|c p IH]; intros s.
  - destruct s; (split; [by eexists|done]).
  - destruct s as [|c' s]; [split; [done|by intros [r E]]|]. cbn [String.prefix].
    change (String c p +:+ ?x) with (String c (p +:+ x)). destruct (Ascii.ascii_dec c c') as [->|Hc].
    + rewrite IH. split; intros [r E]; exists r; [by rewrite E|by injection E].
    + split; [done|]. by intros [r [= ? ?]].
Qed.

Definition absolute (parts : list string) : string := "/" +:+ join_slash parts.

Lemma absolute_split parts : parts <> [] -> Forall proper parts -> split_slash (absolute parts) = "" :: parts.
Proof.
  intros Hne Hp. unfold absolute. change ("/" +:+ ?x) with (String "/"%char x). cbn [split_slash Ascii.eqb Bool.eqb].
  by rewrite split_join by (done || by apply proper_plain).
Qed.

Lemma absolute_inj p q : p <> [] -> q <> [] -> Forall proper p -> Forall proper q -> absolute p = absolute q -> p = q.
Proof.
  intros Hp Hq Hpp Hqp E. pose proof (absolute_split p Hp Hpp) as E1. rewrite E, absolute_split in E1 by done. by injection E1.
Qed.

Lemma join_slash_app p q : p <> [] -> q <> [] -> join_slash (p ++ q) = join_slash p +:+ String "/"%char (join_slash q).
Proof.
  intros Hp Hq. induction p as [|c p IH]; [done|]. destruct p as [|c' p].
  - destruct q as [|c' q]; [done|]. done.
  - change ((c :: c' :: p) ++ q) with (c :: (c' :: p ++ q)).
    change (join_slash (c :: c' :: p ++ q)) with (c +:+ "/" +:+ join_slash ((c' :: p) ++ q)).
    rewrite IH by done. change (join_slash (c :: c' :: p)) with (c +:+ "/" +:+ join_slash (c' :: p)).
    by rewrite <- !app_assoc_s.
Qed.

(** Two paths overlap exactly when one is the other or an ancestor of it. *)
Lemma prefix_parts p q :
  p <> [] -> q <> [] -> Forall proper p -> Forall proper q ->
  HasPrefix (absolute p) (absolute q +:+ "/") = true <-> exists k, k <> [] /\ p = q ++ k.
Proof.
  intros Hp Hq Hpp Hqp. unfold HasPrefix. rewrite prefix_app_string. split.
  - intros [r E]. rewrite <- app_assoc_s in E. change ("/" +:+ r) with (String "/"%char r) in E.
    pose proof (split_slash_sep (absolute q) r) as Es. rewrite <- E, !absolute_split in Es by done.
    exists (split_slash r). split; [apply split_slash_nonempty|]. by injection Es.
  - intros (k & Hk & ->). exists (join_slash k). unfold absolute. rewrite join_slash_app by done.
    by rewrite <- !app_assoc_s.
Qed.

Lemma pathsOverlap_parts p q :
  p <> [] -> q <> [] -> Forall proper p -> Forall proper q ->
  pathsOverlap (absolute p) (absolute q) = false -> ~ p `prefix_of` q /\ ~ q `prefix_of` p.
Proof.
  intros Hp Hq Hpp Hqp Ho. unfold pathsOverlap in Ho. split_bools.
  assert (Hpq : p <> q) by congruence.
  split; intros [k ->]; (assert (Hk : k <> []) by (intros ->; by rewrite app_nil_r in Hpq)).
  - match goal with H : HasPrefix _ (absolute p +:+ "/") = false |- _ => apply not_true_iff_false in H; apply H end.
    apply prefix_parts; try done. by exists k.
  - match goal with H : HasPrefix _ (absolute q +:+ "/") = false |- _ => apply not_true_iff_false in H; apply H end.
    apply prefix_parts; try done. by exists k.
Qed.

(** The elements of a cleaned absolute path. *)
Lemma Clean_absolute s : IsAbs s = true -> Clean s = absolute (clean_parts true s) /\ Forall proper (clean_parts true s).
Proof. intros Hs. unfold Clean. rewrite Hs. split; [done|apply clean_parts_rooted]. Qed.

(** ** A valid submission *)

(** Neither path is the other or an ancestor of it. *)
Definition apart (a b : string) : Prop :=
  exists p q, a = absolute p /\ b = absolute q /\ Forall proper p /\ Forall proper q /\
    ~ p `prefix_of` q /\ ~ q `prefix_of` p.

Lemma apart_sym a b : apart a b -> apart b a.
Proof. intros (p & q & -> & -> & Hp & Hq & H1 & H2). exists q, p. by repeat split. Qed.

Section Valid.
Context `{CaseTables}.

Record valid_caches (caches : list CacheMount) : Prop := {
  vc_count : (length caches <= 16)%nat;
  vc_sorted : StronglySorted (fun a b => cache_before a b = true) caches;
  vc_names : NoDup (map cm_Name caches) /\ Forall (fun c => cacheNamePattern (cm_Name c) = true) caches;
  vc_targets : NoDup (map cm_Target caches);
  vc_reserved : forall c r, c ∈ caches -> r ∈ reserved_targets -> apart (cm_Target c) r
}.

(** A binding has a variable or a file as its target. *)
Definition target_ok (environment : list (string * string)) (b : SecretBinding) : Prop :=
  (sb_File b = "" /\ environmentKey (sb_Environment b) = true /\ HasPrefix (sb_Environment b) "AUTBACK_" = false /\
     sb_Environment b ∉ map fst environment) \/
  (sb_Environment b = "" /\ exists names, names <> [] /\ Forall proper names /\ sb_File b = absolute (["run"; "secrets"] ++ names)).

Record valid_secrets (environment : list (string * string)) (secrets : list SecretBinding) : Prop := {
  vt_count : (length secrets <= 32)%nat;
  vt_names : NoDup (map sb_Name secrets) /\ Forall (fun b => cacheNamePattern (sb_Name b) = true) secrets;
  vt_targets : NoDup (map (fun b => (sb_Environment b, sb_File b)) secrets) /\ Forall (target_ok environment) secrets;
  vt_files : forall b b', b ∈ secrets -> b' ∈ secrets -> sb_File b <> "" -> sb_File b' <> "" -> b <> b' -> apart (sb_File b) (sb_File b')
}.

Record valid_submission (allowUnpinned : bool) (p : PrepareJob) : Prop := {
  vj_image : pp_Image p <> "" /\ (allowUnpinned = false -> imageDigestPattern (pp_Image p) = true);
  vj_command : (1 <= length (pp_Command p) <= 128)%nat /\
    Forall (fun a => has_nul a = false /\ containsSecretReference a = false) (pp_Command p);
  (** the directory the job runs in is the workspace or below it *)
  vj_directory : forall workspace, Forall proper workspace -> exists names, Forall proper names /\
    resolveWorkingDirectory (absolute workspace) (pp_WorkingDirectory p) = inl (absolute (workspace ++ names));
  vj_environment : (length (pp_Environment p) <= 128)%nat /\
    Forall (fun kv => environmentKey kv.1 = true /\ HasPrefix kv.1 "AUTBACK_" = false /\ has_nul kv.2 = false /\
                      containsSecretReference kv.2 = false) (pp_Environment p);
  vj_caches : valid_caches (pp_Caches p);
  vj_secrets : valid_secrets (pp_Environment p) (pp_Secrets p);
  vj_timeout : Second <= pp_Timeout p <= 24 * Hour
}.

(** ** Commands and environments *)

Lemma check_command_ok command :
  check_command command = None -> Forall (fun a => has_nul a = false /\ containsSecretReference a = false) command.
Proof.
  induction command as [|a command IH]; simpl; [constructor|].
  destruct (has_nul a) eqn:E1; [done|]. destruct (containsSecretReference a) eqn:E2; [done|]. constructor; auto.
Qed.

Lemma check_environment_ok environment :
  check_environment environment = None ->
  Forall (fun kv => environmentKey kv.1 = true /\ HasPrefix kv.1 "AUTBACK_" = false /\ has_nul kv.2 = false /\
                    containsSecretReference kv.2 = false) environment.
Proof.
  induction environment as [|[key value] environment IH]; simpl; [constructor|].
  destruct (_ || has_nul value) eqn:E1; [done|]. destruct (containsSecretReference value) eqn:E2; [done|].
  split_bools. constructor; auto.
Qed.

(** A working directory that passes is below every workspace. *)
Lemma directory_ok relative :
  IsAbs relative = false -> escapes (Clean relative) = false ->
  forall workspace, Forall proper workspace -> exists names, Forall proper names /\
    resolveWorkingDirectory (absolute workspace) (Clean relative) = inl (absolute (workspace ++ names)).
Proof.
  intros Ha He workspace Hw. destruct (inside_names _ Ha He) as [->|(names & Hne & Hn & E)].
  - exists []. split; [constructor|]. by rewrite app_nil_r.
  - exists names. split; [done|]. rewrite E in *. unfold resolveWorkingDirectory.
    destruct (join_relative names Hne Hn) as [Hr H0]. rewrite Hr, (Clean_names names Hne Hn), He.
    rewrite (bool_decide_eq_false_2 (join_slash names = "")) by done.
    rewrite bool_decide_eq_false_2; [unfold absolute; by rewrite Join_names|]. intros E0.
    pose proof (split_join names Hne (proper_plain _ Hn)) as Es. rewrite E0 in Es. simpl in Es. subst names.
    inversion Hn as [|? ? (_ & Hd & _) _]. done.
Qed.

(** ** Caches *)

Lemma reserved_proper r : r ∈ reserved_targets -> exists q, q <> [] /\ Forall proper q /\ r = absolute q.
Proof.
  intros Hr. exists (clean_parts true r). split; [|split; [apply clean_parts_rooted|]];
    repeat (apply elem_of_cons in Hr as [->|Hr]; [done|]); by apply elem_of_nil in Hr.
Qed.

Lemma cache_mounts_ok names targets input l :
  cache_mounts names targets input = inl l ->
  (length l = length input) /\
  NoDup (map cm_Name l) /\ (forall c, c ∈ l -> cm_Name c ∉ names) /\ Forall (fun c => cacheNamePattern (cm_Name c) = true) l /\
  NoDup (map cm_Target l) /\ (forall c, c ∈ l -> cm_Target c ∉ targets) /\
  (forall c r, c ∈ l -> r ∈ reserved_targets -> apart (cm_Target c) r).
Proof.
  revert names targets l. induction input as [|item input IH]; intros names targets l; cbn [cache_mounts]; cbv zeta.
  { intros [= <-]. repeat split; try constructor; intros; by match goal with Hc : _ ∈ [] |- _ => apply elem_of_nil in Hc end. }
  destruct item as [cache|]; [|done]. destruct (cacheNamePattern (cm_Name cache)) eqn:En; [|done]. cbn [negb].
  destruct (negb (IsAbs _) || _ || _) eqn:Et; [done|]. split_bools. case_bool_decide as Hn; [done|]. case_bool_decide as Ht; [done|].
  destruct (existsb _ reserved_targets) eqn:Er; [done|].
  destruct (cache_mounts _ _ input) as [l0|e] eqn:E; [|done]. intros [= <-].
  destruct (IH _ _ _ E) as (L0 & L1 & L2 & L3 & L4 & L5 & L6). split_bools. simpl.
  split; [by rewrite L0|]. split; [|split; [|split; [|split; [|split]]]].
  - constructor; [|done]. intros Hin. apply list_elem_of_fmap in Hin as (c & Ec & Hc). apply (L2 c Hc). rewrite <- Ec. constructor.
  - intros c [->|Hc]%elem_of_cons; [done|]. intros Hin. apply (L2 c Hc). by constructor.
  - by constructor.
  - constructor; [|done]. intros Hin. apply list_elem_of_fmap in Hin as (c & Ec & Hc). apply (L5 c Hc). rewrite <- Ec. constructor.
  - intros c [->|Hc]%elem_of_cons; [done|]. intros Hin. apply (L5 c Hc). by constructor.
  - intros c r [->|Hc]%elem_of_cons Hr; [|by apply L6]. cbn [cm_Target].
    match goal with H : IsAbs _ = true |- _ => destruct (Clean_absolute _ H) as [Ea Hp] end.
    destruct (reserved_proper r Hr) as (q & Hqe & Hq & ->). exists (clean_parts true (cm_Target cache)), q. split; [done|]. split; [done|].
    split; [done|]. split; [done|]. apply pathsOverlap_parts; try done.
    + intros E0. match goal with H : Clean _ <> "/" |- _ => apply H end. by rewrite Ea, E0.
    + rewrite <- Ea. apply not_true_iff_false. intros Ho. apply not_true_iff_false in Er. apply Er. apply existsb_exists.
      eexists. split; [by apply list_elem_of_In|done].
Qed.

Lemma validateCaches_ok input caches : validateCaches input = inl caches -> valid_caches caches.
Proof.
  unfold validateCaches. destruct (16 <? length input)%nat eqn:Ec; [done|]. destruct (cache_mounts [] [] input) as [l|e] eqn:E; [|done].
  intros [= <-]. destruct (cache_mounts_ok _ _ _ _ E) as (L0 & L1 & _ & L3 & L4 & _ & L6). apply Nat.ltb_ge in Ec.
  pose proof (order_by_perm cache_before l) as Hp. split.
  - rewrite Hp. lia.
  - apply order_by_sorted; unfold cache_before; intros; [apply String.leb_total|by eapply leb_trans].
  - rewrite Hp. done.
  - rewrite Hp. done.
  - intros c r Hc. apply L6. by rewrite <- Hp.
Qed.

(** ** Secrets *)

(** A file target that passes is below [/run/secrets]. *)
Lemma secret_file_ok target :
  IsAbs target = true -> HasPrefix (Clean target) "/run/secrets/" = true ->
  exists names, names <> [] /\ Forall proper names /\ Clean target = absolute (["run"; "secrets"] ++ names).
Proof.
  intros Ha Hp. destruct (Clean_absolute _ Ha) as [E Hn]. rewrite E in *.
  assert (Hrs : Forall proper ["run"; "secrets"]) by (by repeat constructor).
  assert (Hne : clean_parts true target <> []) by (intros E0; by rewrite E0 in Hp).
  change "/run/secrets/" with (absolute ["run"; "secrets"] +:+ "/") in Hp.
  apply prefix_parts in Hp as (k & Hk & Ek); [|done..]. exists k. rewrite Ek in *. apply Forall_app in Hn as [_ Hn]. done.
Qed.

(** A path that is the clean form of itself. *)
Definition clean_path (f : string) : Prop := exists q, q <> [] /\ Forall proper q /\ f = absolute q.

(** The binding of one secret, and the files after it. *)
Lemma secret_binding_ok environment files secret b :
  Forall clean_path files -> secret_binding environment files secret = inl b ->
  let files' := match js_Target secret with TargetFile _ => files ++ [sb_File b] | _ => files end in
  sb_Name b = js_Name secret /\ target_ok environment b /\
  (forall f, f ∈ files -> sb_File b <> "" -> apart (sb_File b) f) /\
  (forall f, f ∈ files' <-> f ∈ files \/ (sb_File b <> "" /\ f = sb_File b)) /\ Forall clean_path files'.
Proof.
  intros Hf. unfold secret_binding. destruct (js_Target secret) as [target|target|]; [| |done].
  - destruct (_ || _) eqn:E1; [done|]. destruct (existsb _ _) eqn:E2; [done|]. intros [= <-]. split_bools. simpl.
    split; [done|]. split; [left; simpl; repeat split; try done|by naive_solver].
    intros Hin. apply list_elem_of_fmap in Hin as ([k v] & Ek & Hkv). apply not_true_iff_false in E2. apply E2, existsb_exists.
    exists (k, v). split; [by apply list_elem_of_In|]. by apply bool_decide_eq_true.
  - destruct (_ || _ || _) eqn:E1; [done|]. destruct (existsb _ _) eqn:E2; [done|]. intros [= <-]. split_bools. simpl.
    match goal with Ha : IsAbs _ = true, Hp : HasPrefix _ _ = true |- _ => destruct (secret_file_ok _ Ha Hp) as (names & Hne & Hn & Ec) end.
    assert (Hcp : clean_path (Clean target)).
    { rewrite Ec. eexists. split; [|split; [|reflexivity]]; [done|]. by repeat constructor. }
    split; [done|]. split; [right; split; [done|by exists names]|]. split; [|split].
    + intros f Hin _. rewrite Forall_forall in Hf. destruct (Hf f Hin) as (q & Hq & Hqp & ->), Hcp as (p & Hp & Hpp & Ep). rewrite Ep in *.
      exists p, q. do 4 (split; [done|]). apply pathsOverlap_parts; try done. apply not_true_iff_false. intros Ho.
      apply not_true_iff_false in E2. apply E2, existsb_exists. eexists. split; [by apply list_elem_of_In|done].
    + intros f. rewrite elem_of_app, list_elem_of_singleton. split; [intros [?|?]; [by left|right]|intros [?|[_ ?]]; [by left|by right]].
      split; [|done]. destruct Hcp as (p & _ & _ & ->). done.
    + apply Forall_app. split; [done|]. by constructor.
Qed.

(** What the loop adds to the names, targets and files it has seen. *)
Lemma secret_bindings_ok environment names targets files input l :
  Forall clean_path files ->
  secret_bindings environment names targets files input = inl l ->
  length l = length input /\
  NoDup (map sb_Name l) /\ (forall b, b ∈ l -> sb_Name b ∉ names) /\ Forall (fun b => cacheNamePattern (sb_Name b) = true) l /\
  NoDup (map (fun b => (sb_Environment b, sb_File b)) l) /\ (forall b, b ∈ l -> (sb_Environment b, sb_File b) ∉ targets) /\
  Forall (target_ok environment) l /\
  (forall b f, b ∈ l -> sb_File b <> "" -> f ∈ files -> apart (sb_File b) f) /\
  (forall b b', b ∈ l -> b' ∈ l -> sb_File b <> "" -> sb_File b' <> "" -> b <> b' -> apart (sb_File b) (sb_File b')).
Proof.
  revert names targets files l. induction input as [|item input IH]; intros names targets files l Hf; cbn [secret_bindings].
  { intros [= <-]. repeat split; try constructor; intros; by match goal with Hb : _ ∈ [] |- _ => apply elem_of_nil in Hb end. }
  destruct item as [secret|]; [|done]. cbv zeta.
  destruct (cacheNamePattern (js_Name secret)) eqn:En; [|done]. cbn [negb]. case_bool_decide as Hn; [done|].
  destruct (secret_binding environment files secret) as [b|e] eqn:Eb; [|done]. case_bool_decide as Ht; [done|].
  set (files' := match js_Target secret with TargetFile _ => _ | _ => _ end).
  destruct (secret_bindings _ _ _ files' input) as [l0|e] eqn:E; [|done]. intros [= <-].
  pose proof (secret_binding_ok _ _ _ _ Hf Eb) as Hb. fold files' in Hb.
  destruct Hb as (Hbn & Hbt & Hbf & Hbf' & Hff).
  destruct (IH _ _ _ _ Hff E) as (L0 & L1 & L2 & L3 & L4 & L5 & L6 & L7 & L8). rewrite <- Hbn in Hn, En, L2.
  simpl. split; [by rewrite L0|]. repeat split.
  - constructor; [|done]. intros Hin. apply list_elem_of_fmap in Hin as (c & Ec & Hc). apply (L2 c Hc). rewrite <- Ec. constructor.
  - intros c [->|Hc]%elem_of_cons; [done|]. intros Hin. apply (L2 c Hc). by constructor.
  - by constructor.
  - constructor; [|done]. intros Hin. apply list_elem_of_fmap in Hin as (c & Ec & Hc). apply (L5 c Hc). rewrite <- Ec. constructor.
  - intros c [->|Hc]%elem_of_cons; [done|]. intros Hin. apply (L5 c Hc). by constructor.
  - by constructor.
  - intros c f [->|Hc]%elem_of_cons Hne Hfi; [by apply Hbf|]. apply L7; [done|done|]. apply Hbf'. by left.
  - intros c c' [->|Hc]%elem_of_cons [->|Hc']%elem_of_cons Hne Hne' Hcc; [done| | |by apply L8].
    + apply apart_sym, L7; [done|done|]. apply Hbf'. by right.
    + apply L7; [done|done|]. apply Hbf'. by right.
Qed.

Lemma validateSecrets_ok input environment secrets :
  validateSecrets input environment = inl secrets -> valid_secrets environment secrets.
Proof.
  unfold validateSecrets. destruct (32 <? length input)%nat eqn:Ec; [done|]. intros E. apply Nat.ltb_ge in Ec.
  destruct (secret_bindings_ok _ _ _ _ _ _ (Forall_nil_2 _) E) as (L0 & L1 & _ & L3 & L4 & _ & L6 & _ & L8).
  split; [lia|done..].
Qed.

(** ** Submissions *)

(** What [validateJob] accepts is a valid submission.  The image is pinned,
    unless unpinned images are allowed; no argument and no value hides a secret
    reference or a NUL byte; the working directory resolves, in the entrypoint
    of the job, to the workspace or below it; caches have distinct names and
    targets, and no target contains or lies in a path of the runtime; secrets
    have distinct names, each goes to one free variable or to one file below
    [/run/secrets], and no file lies in another; the timeout is between a second
    and a day. *)
Lemma validateJob_ok allowUnpinned projectID message p :
  validateJob allowUnpinned projectID message = inl p ->
  pp_ProjectID p = projectID /\ pp_Image p = rq_Image message /\ valid_submission allowUnpinned p /\ idempotencyKeyPattern (rq_IdempotencyKey message) = true.
Proof.
  unfold validateJob. destruct (_ || (negb _ && _)) eqn:E1; [done|]. destruct (_ || (128 <? length (rq_Command _))%nat) eqn:E2; [done|].
  destruct (check_command _) eqn:E3; [done|]. cbv zeta. destruct (IsAbs _ || _) eqn:E4; [done|].
  destruct (128 <? length (rq_Environment _))%nat eqn:E5; [done|]. destruct (validateCaches _) as [caches|] eqn:E6; [|done].
  destruct (check_environment _) eqn:E7; [done|]. destruct (validateSecrets _ _) as [secrets|] eqn:E8; [|done].
  set (timeout := match rq_Timeout message with None => _ | Some _ => _ end). destruct timeout as [t|]; [|done].
  destruct (_ || (maximumJobTimeout <? t)) eqn:E9; [done|]. destruct (idempotencyKeyPattern _) eqn:E10; [|done].
  intros [= <-]. split; [done|]. split; [done|]. split; [|done]. split_bools. unfold maximumJobTimeout in *.
  split; cbn [pp_Image pp_Command pp_WorkingDirectory pp_Environment pp_Caches pp_Secrets pp_Timeout].
  - split; [done|]. intros ->. match goal with Hi : negb false && _ = false |- _ => simpl in Hi; by apply negb_false_iff in Hi end.
  - split; [|by apply check_command_ok].
    repeat match goal with Hn : (_ =? _)%nat = false |- _ => apply Nat.eqb_neq in Hn | Hn : (_ <? _)%nat = false |- _ => apply Nat.ltb_ge in Hn end. lia.
  - by apply directory_ok.
  - split; [by apply Nat.ltb_ge in E5|by apply check_environment_ok].
  - by eapply validateCaches_ok.
  - by eapply validateSecrets_ok.
  - lia.
Qed.

End Valid.

#[export] Instance ascii_tables : CaseTables := {| unicode_lower s := s; unicode_upper s := s |}.

Definition demo_request : PrepareJobRequest :=
  mkPrepareJobRequest "demo" ("img@sha256:" +:+ of_bytes (repeat 97 64)) ["go"; "test"] "src/../pkg/./a" [("CI", "1")] None "key-0001"
    [Some (mkCache "go" "/root//go/")] [Some (mkJobSecret "token" (TargetEnvironment "TOKEN")); Some (mkJobSecret "key" (TargetFile "/run/secrets/a/../b"))].

Definition demo_submission : PrepareJob :=
  mkPrepareJob "prj1" ("img@sha256:" +:+ of_bytes (repeat 97 64)) ["go"; "test"] "pkg/a" [("CI", "1")] (30 * Minute)
    [mkCache "go" "/root/go"] [mkSecret "token" "TOKEN" ""; mkSecret "key" "" "/run/secrets/b"].

Example demo_request_valid : validateJob false "prj1" demo_request = inl demo_submission.
Proof. vm_compute. reflexivity. Qed.
