(* ===== verification/ControlAPI.v ===== *)
(** * The control API

    The handlers of [internal/control/controlapi/server.go]: each authenticates
    the bearer token, authorizes the project, calls the store, the scheduler and
    the dispatcher, and writes the audit log.  Protocol messages with the fields
    of a control record are that record; [connect.Error] is [ErrConnect]. *)
From Stdlib Require Import Ascii.
From S2P Require Import Prelude Model GoMonad GoLib Table Schema JobStore GoStrings Identity Reads Coordinator Dispatcher Path Validate.

(** ** Messages *)

(** [int32(value)]. *)
Definition wrap32 (z : Z) : Z := (z + 2 ^ 31) mod 2 ^ 32 - 2 ^ 31.

Inductive JobStatusPB :=
| JOB_STATUS_UNSPECIFIED | JOB_STATUS_PREPARING | JOB_STATUS_QUEUED | JOB_STATUS_RUNNING | JOB_STATUS_SUCCEEDED
| JOB_STATUS_FAILED | JOB_STATUS_CANCELLED | JOB_STATUS_TIMED_OUT | JOB_STATUS_LOST.

Definition jobStatusProto (s : Status) : JobStatusPB :=
  match s with
  | StatusPreparing => JOB_STATUS_PREPARING
  | StatusQueued => JOB_STATUS_QUEUED
  | StatusRunning => JOB_STATUS_RUNNING
  | StatusSucceeded => JOB_STATUS_SUCCEEDED
  | StatusFailed => JOB_STATUS_FAILED
  | StatusCancelled => JOB_STATUS_CANCELLED
  | StatusTimedOut => JOB_STATUS_TIMED_OUT
  | StatusLost => JOB_STATUS_LOST
  end.

Record JobPB := mkJobPB {
  jp_Id : string;
  jp_ProjectId : string;
  jp_Image : string;
  jp_Command : list string;
  jp_WorkingDirectory : string;
  jp_Environment : list (string * string);
  jp_RootDigest : string;
  jp_Status : JobStatusPB;
  jp_Timeout : duration;
  jp_CreatedAt : time;
  jp_ErrorMessage : string;
  jp_CancelRequested : bool;
  jp_WorkerId : string;
  jp_Caches : list CacheMount;
  jp_Secrets : list JobSecret;
  jp_StartedAt : option time;
  jp_FinishedAt : option time;
  jp_ExitCode : option Z
}.

Definition secretProto (b : SecretBinding) : JobSecret :=
  mkJobSecret (sb_Name b)
    (if negb (bool_decide (sb_Environment b = "")) then TargetEnvironment (sb_Environment b) else TargetFile (sb_File b)).

Definition jobProto (job : Job) : JobPB :=
  mkJobPB (jb_ID job) (jb_ProjectID job) (jb_Image job) (jb_Command job) (jb_WorkingDirectory job) (jb_Environment job)
    (jb_RootDigest job) (jobStatusProto (jb_Status job)) (jb_Timeout job) (jb_CreatedAt job) (jb_ErrorMessage job)
    (jb_CancelRequested job) (jb_WorkerID job) (jb_Caches job) (map secretProto (jb_Secrets job)) (jb_StartedAt job)
    (jb_FinishedAt job) (wrap32 <$> jb_ExitCode job).

Inductive BuildStatusPB :=
| BUILD_STATUS_QUEUED | BUILD_STATUS_RUNNING | BUILD_STATUS_SUCCEEDED | BUILD_STATUS_FAILED | BUILD_STATUS_CANCELLED.

Record BuildPB := mkBuildPB {
  bp_Id : string;
  bp_ProjectId : string;
  bp_Status : BuildStatusPB;
  bp_CreatedAt : time;
  bp_FinishedAt : option time;
  bp_ExitCode : option Z
}.

Definition buildProto (build : Build) : BuildPB :=
  mkBuildPB (bd_ID build) (bd_ProjectID build)
    match bd_Status build with
    | BuildQueued => BUILD_STATUS_QUEUED
    | BuildRunning => BUILD_STATUS_RUNNING
    | BuildSucceeded => BUILD_STATUS_SUCCEEDED
    | BuildFailed => BUILD_STATUS_FAILED
    | BuildCancelled => BUILD_STATUS_CANCELLED
    end
    (bd_CreatedAt build) (bd_FinishedAt build) (wrap32 <$> bd_ExitCode build).

(** The events in the order of [sort.Strings]. *)
Definition trustProto (trust : GitHubTrust) : GitHubTrust :=
  mkGitHubTrust (tr_ID trust) (tr_ProjectID trust) (tr_RepositoryOwnerID trust) (tr_RepositoryID trust) (tr_WorkflowRef trust)
    (tr_Ref trust) (tr_Environment trust) (order_by String.leb (tr_Events trust)) (tr_CreatedAt trust) (tr_RevokedAt trust).

Definition enrollmentProto (e : EnrollmentCode) : EnrollmentCode :=
  mkEnrollmentCode (ec_ID e) (ec_UserID e) (ec_DeviceName e) (ec_CreatedAt e) (ec_ExpiresAt e) (ec_ConsumedAt e)
    (wrap32 (ec_FailedAttempts e)) (wrap32 (ec_MaxAttempts e)).

(** ** Errors *)

Definition connectError (e : Err) : Err :=
  match e with
  | ErrUnauthenticated => ErrConnect CodeUnauthenticated ErrUnauthenticated
  | ErrForbidden => ErrConnect CodePermissionDenied ErrForbidden
  | ErrNotFound => ErrConnect CodeNotFound ErrNotFound
  | ErrAlreadyExists => ErrConnect CodeAlreadyExists ErrAlreadyExists
  | ErrIdempotencyConflict => ErrConnect CodeAlreadyExists ErrIdempotencyConflict
  | ErrInvalidPageToken => ErrConnect CodeInvalidArgument ErrInvalidPageToken
  | _ => ErrConnect CodeInternal (ErrText "internal autback error")
  end.

(** ** Headers *)

(** [http.Header] by canonical names. *)
Definition Header := list (string * list string).

Definition header_Values (header : Header) (name : string) : list string :=
  default [] (snd <$> head (select (fun h => bool_decide (h.1 = name)) header)).
Definition header_Get (header : Header) (name : string) : string := default "" (head (header_Values header name)).

Definition ClientVersionHeader : string := "Autback-Client-Version".
Definition ClientCapabilitiesHeader : string := "Autback-Client-Capabilities".

(** [strings.Split] at commas. *)
Definition split_commas (s : string) : list string := SplitN ","%char (S (String.length s)) s.

Definition headerContainsToken (header : Header) (name required : string) : bool :=
  existsb (fun value => existsb (fun token => bool_decide (TrimSpace token = required)) (split_commas value))
    (header_Values header name).

(** The token of [Authorization: Bearer ...]. *)
Definition bearer (header : Header) : option string :=
  let value := header_Get header "Authorization" in
  if negb (HasPrefix value "Bearer ") then None else
  let token := of_bytes (drop 7 (bytes value)) in
  if bool_decide (token = "") || existsb (fun b => (b =? 32) || (b =? 9) || (b =? 13) || (b =? 10)) (bytes token) then None
  else Some token.

(** ** Credentials *)

Record Credential := mkCredential {
  cr_CAPEM : string; cr_CertificatePEM : string; cr_PrivateKeyPEM : string; cr_ServerName : string; cr_ExpiresAt : time }.

(** The X.509 encodings: the authority's certificate and name, and the
    certificate and key made for an operation, a lifetime and a source of
    randomness. *)
Class X509 := {
  x5_ca : string; x5_server : string;
  x5_certificate : string -> string -> time -> time -> Z -> string; x5_key : Z -> string }.

Definition kind_name (kind : OperationKind) : string := match kind with OperationJob => "job" | OperationBuild => "build" end.

(** [Authority.Issue] of [internal/control/pki/pki.go]: the generation of the
    key, the serial number, the identity, the certificate and the encoding of
    the key may each fail. *)
Definition Issue `{X509} {D : Type} (kind : OperationKind) (id : string) (ttl : duration) : M D Credential :=
  if bool_decide (TrimSpace id = "") then throw (ErrText "operation ID is required") else
  if (ttl <? Minute) || (2 * Hour <? ttl) then throw (ErrText "credential lifetime must be between 1 minute and 2 hours") else
  _ ← may_fail;
  key ← rand_byte;
  now ← time_Now;
  let expires := now + ttl in
  _ ← may_fail;
  _ ← may_fail;
  _ ← may_fail;
  _ ← may_fail;
  mret (mkCredential x5_ca (x5_certificate (kind_name kind) id (now - Minute) expires key) (x5_key key) x5_server expires).

Record DataPlaneConnection := mkConnection { dc_Endpoint : string; dc_InstanceName : string; dc_Credential : Credential }.

(** ** Dependencies *)

(** [control.Scheduler]: what the handlers ask beyond [Create] and [Cancel].
    Both calls read. *)
Class JobRuntime (R : Type) := {
  rn_ValidateImage : string -> M R unit;
  rn_Status : string -> M R RemoteJob;
  rn_validate_law : forall o image r, wp o (rn_ValidateImage image) (fun _ r' => r' = r) (fun _ r' => r' = r) r;
  rn_status_law : forall o id r, wp o (rn_Status id) (fun _ r' => r' = r) (fun _ r' => r' = r) r
}.

(** The [Dispatcher] interface of the server. *)
Class ApiDispatcher (R : Type) := {
  ad_RunOnce : M (Database * R) JoinedErr;
  ad_Advance : M (Database * R) unit;
  ad_Release : OperationKind -> string -> M (Database * R) unit
}.

(** [admissionHash]: SHA-256 over the JSON of a submission, and of the project
    of a build. *)
Class AdmissionHash := { admissionHash : PrepareJob -> string; buildHash : string -> string }.

Record ServerConfig := mkServerConfig {
  sc_CASEndpoint : string;
  sc_CASInstance : string;
  sc_BuildKitEndpoint : string;
  sc_CredentialTTL : duration;
  sc_AllowUnpinnedImages : bool;
  sc_RequiredBuildClientCapability : string;
  sc_RequiredJobClientCapability : string
}.

Section Server.
Context {R : Type} `{Scheduler R} `{JobRuntime R} `{ApiDispatcher R} `{ErrorText} `{Pepper} `{CaseTables} `{AdmissionHash} `{X509}
        `{CursorCodec} (config : ServerConfig).
#[local] Abbreviation WorldM := (M (Database * R)).

(** A store call whose error goes to the client. *)
Definition rpc {A : Type} (m : StoreM A) : WorldM A :=
  r ← attempt (on_store m);
  match r with Ok a => mret a | Fail e => throw (connectError e) end.

Definition fail {A : Type} (code : ConnectCode) (message : string) : WorldM A := throw (ErrConnect code (ErrText message)).

(** [Dispatcher.RunOnce], with a wake-up of the background when it fails. *)
Definition dispatch : WorldM JoinedErr :=
  errs ← ad_RunOnce;
  match errs with
  | [] => mret []
  | _ => _ ← ad_Advance; mret errs
  end.

(** ** Principals and projects *)

Definition authenticate (header : Header) : WorldM Principal :=
  match bearer header with
  | None => throw (ErrConnect CodeUnauthenticated ErrUnauthenticated)
  | Some token =>
      principal ← rpc (Authenticate token);
      if bool_decide (pr_Kind principal = PrincipalBrowser) then throw (ErrConnect CodeUnauthenticated ErrUnauthenticated)
      else mret principal
  end.

Definition authorizedJob (principal : Principal) (id : string) : WorldM Job :=
  job ← rpc (getJob id);
  _ ← rpc (AuthorizeProject principal (jb_ProjectID job));
  mret job.

Definition authorizedBuild (principal : Principal) (id : string) : WorldM Build :=
  build ← rpc (getBuild id);
  _ ← rpc (AuthorizeProject principal (bd_ProjectID build));
  mret build.

Definition projectConfiguration (header : Header) (selector : string) : WorldM (Principal * Project) :=
  principal ← authenticate header;
  project ← rpc (AuthorizeProject principal selector);
  if negb (is_device_admin principal) then throw (connectError ErrForbidden) else mret (principal, project).

Definition CreateUserRPC (header : Header) (name : string) (admin : bool) : WorldM User :=
  principal ← authenticate header;
  user ← rpc (CreateUser principal name admin);
  _ ← rpc (Audit principal "" "user.create" (us_ID user) []);
  mret user.

(** [resolve] is [GitHubDirectory.Resolve], if it is configured. *)
Definition BindGitHubIdentityRPC (resolve : option (string -> M R ExternalIdentity)) (header : Header) (login userID : string)
    : WorldM ExternalIdentity :=
  principal ← authenticate header;
  if negb (is_device_admin principal) then throw (connectError ErrForbidden) else
  match resolve with
  | None => fail CodeFailedPrecondition "GitHub human authentication is not configured"
  | Some resolve =>
      r ← attempt (on_runtime (resolve login));
      match r with
      | Fail _ => fail CodeInvalidArgument "resolve GitHub login"
      | Ok external =>
          bound ← rpc (BindExternalIdentity principal userID external);
          _ ← rpc (Audit principal "" "identity.github.bind" (xi_UserID bound)
                     [("github_id", xi_Subject bound); ("github_login", xi_Login bound)]);
          mret bound
      end
  end.

Definition RevokeGitHubIdentityRPC (header : Header) (userID : string) : WorldM unit :=
  principal ← authenticate header;
  if negb (is_device_admin principal) then throw (connectError ErrForbidden) else
  _ ← rpc (RevokeExternalIdentity principal userID "github");
  rpc (Audit principal "" "identity.github.revoke" userID []).

Definition CreateProjectRPC (header : Header) (slug name : string) : WorldM Project :=
  principal ← authenticate header;
  project ← rpc (CreateProject principal slug name);
  _ ← rpc (AddProjectMember principal (pj_ID project) (pr_UserID principal));
  _ ← rpc (Audit principal (pj_ID project) "project.create" (pj_ID project) []);
  mret project.

Definition ListProjectsRPC (header : Header) : WorldM (list Project) :=
  principal ← authenticate header;
  rpc (ListProjects principal).

Definition AddProjectMemberRPC (header : Header) (selector userID : string) : WorldM unit :=
  principal ← authenticate header;
  project ← rpc (AuthorizeProject principal selector);
  _ ← rpc (AddProjectMember principal (pj_ID project) userID);
  rpc (Audit principal (pj_ID project) "project.member.add" userID []).

Definition images_metadata (project : Project) : list (string * string) :=
  [("image", pj_ActiveImage project); ("replaced_image", pj_PreviousImage project)].

Definition ActivateProjectImageRPC (header : Header) (selector image : string) : WorldM Project :=
  '(principal, project) ← projectConfiguration header selector;
  if negb (imageDigestPattern image) then fail CodeInvalidArgument "image must be pinned by sha256 digest" else
  valid ← attempt (on_runtime (rn_ValidateImage image));
  match valid with
  | Fail e => throw (ErrConnect CodeUnavailable e)
  | Ok _ =>
      project ← rpc (ActivateProjectImage principal (pj_ID project) image);
      _ ← rpc (Audit principal (pj_ID project) "project.image.activate" (pj_ID project) (images_metadata project));
      mret project
  end.

Definition RollbackProjectImageRPC (header : Header) (selector : string) : WorldM Project :=
  '(principal, project) ← projectConfiguration header selector;
  if bool_decide (pj_PreviousImage project = "") then fail CodeFailedPrecondition "project has no previous image" else
  valid ← attempt (on_runtime (rn_ValidateImage (pj_PreviousImage project)));
  match valid with
  | Fail e => throw (ErrConnect CodeUnavailable e)
  | Ok _ =>
      project ← rpc (RollbackProjectImage principal (pj_ID project));
      _ ← rpc (Audit principal (pj_ID project) "project.image.rollback" (pj_ID project) (images_metadata project));
      mret project
  end.

Definition SetProjectImagePolicyRPC (header : Header) (selector : string) (allow : bool) : WorldM Project :=
  '(principal, project) ← projectConfiguration header selector;
  project ← rpc (SetProjectImagePolicy principal (pj_ID project) allow);
  _ ← rpc (Audit principal (pj_ID project) "project.image.policy" (pj_ID project)
             [("allow_overrides", if pj_AllowImageOverrides project then "true" else "false")]);
  mret project.

Definition ListProjectImageHistoryRPC (header : Header) (selector : string) : WorldM (list ProjectImageEvent) :=
  principal ← authenticate header;
  project ← rpc (AuthorizeProject principal selector);
  rpc (ListProjectImageHistory (pj_ID project)).

(** ** Jobs *)

(** The answer to a client that lacks a required capability. *)
Definition upgrade_required {A : Type} (header : Header) (required : string) : WorldM A :=
  let version := TrimSpace (header_Get header ClientVersionHeader) in
  fail CodeFailedPrecondition ("autback client " +:+ (if bool_decide (version = "") then "unknown" else version) +:+
    " does not support " +:+ required +:+ "; upgrade the autback CLI").

Definition lacks_capability (header : Header) (required : string) : bool :=
  negb (bool_decide (required = "")) && negb (headerContainsToken header ClientCapabilitiesHeader required).

(** The image a job of the project runs in. *)
Definition choose_image (project : Project) (image : string) : string + Err :=
  if bool_decide (image = "") then
    if bool_decide (pj_ActiveImage project = "")
    then inr (ErrConnect CodeFailedPrecondition (ErrText "project has no active runner image; activate one or pass --image while overrides are enabled"))
    else inl (pj_ActiveImage project)
  else if negb (bool_decide (pj_ActiveImage project = "")) && negb (bool_decide (image = pj_ActiveImage project))
          && negb (pj_AllowImageOverrides project)
  then inr (ErrConnect CodePermissionDenied (ErrText "project image overrides are disabled"))
  else inl image.

Definition rq_with_image (image : string) (m : PrepareJobRequest) : PrepareJobRequest :=
  mkPrepareJobRequest (rq_Project m) image (rq_Command m) (rq_WorkingDirectory m) (rq_Environment m) (rq_Timeout m)
    (rq_IdempotencyKey m) (rq_Caches m) (rq_Secrets m).

(** Access to the CAS for a job that holds the worker and waits for its source. *)
Definition jobPreparationConnection (job : Job) : WorldM (option DataPlaneConnection) :=
  if negb (bool_decide (jb_Status job = StatusPreparing)) then mret None else
  state ← rpc (OperationStateOf OperationJob (jb_ID job));
  if negb (bool_decide (state = OperationAdmitting)) then mret None else
  credential ← rpc (Issue OperationJob (jb_ID job) (sc_CredentialTTL config));
  mret (Some (mkConnection (sc_CASEndpoint config) (sc_CASInstance config) credential)).

Definition renew_preparing (job : Job) : WorldM unit :=
  if bool_decide (jb_Status job = StatusPreparing) then rpc (RenewOperationLease OperationJob (jb_ID job)) else mret tt.

(** The rest of [PrepareJob], once the submission has been validated. *)
Definition submit_job (principal : Principal) (project : Project) (input : PrepareJob) (idempotencyKey : string)
    : WorldM (JobPB * option DataPlaneConnection) :=
  '(job, replayed) ← rpc (CreatePreparedJob input (mkIdempotency idempotencyKey (admissionHash input)));
  _ ← (if replayed : bool then mret tt else
         audited ← attempt (on_store (Audit principal (pj_ID project) "job.prepare" (jb_ID job) [("image", jb_Image job)]));
         match audited with
         | Ok _ => mret tt
         | Fail e =>
             _ ← attempt (on_store (FailJob (jb_ID job) "record job preparation audit"));
             _ ← attempt (ad_Release OperationJob (jb_ID job));
             throw (connectError e)
         end);
  _ ← dispatch;
  job ← rpc (getJob (jb_ID job));
  _ ← renew_preparing job;
  connection ← jobPreparationConnection job;
  mret (jobProto job, connection).

Definition PrepareJobRPC (header : Header) (request : PrepareJobRequest) : WorldM (JobPB * option DataPlaneConnection) :=
  principal ← authenticate header;
  project ← rpc (AuthorizeProject principal (rq_Project request));
  if lacks_capability header (sc_RequiredJobClientCapability config)
  then upgrade_required header (sc_RequiredJobClientCapability config) else
  match choose_image project (rq_Image request) with
  | inr e => throw e
  | inl image =>
  match validateJob (sc_AllowUnpinnedImages config) (pj_ID project) (rq_with_image image request) with
  | inr e => throw (ErrConnect CodeInvalidArgument e)
  | inl input => submit_job principal project input (rq_IdempotencyKey request)
  end end.

Definition StartJobRPC (header : Header) (id rootDigest : string) : WorldM JobPB :=
  principal ← authenticate header;
  job ← authorizedJob principal id;
  if negb (rootDigestPattern rootDigest) then fail CodeInvalidArgument "root digest must use REAPI hash/size form" else
  if negb (bool_decide (jb_Status job = StatusPreparing)) then
    if negb (bool_decide (jb_RootDigest job = rootDigest))
    then fail CodeFailedPrecondition "job was already started with a different root digest" else
    _ ← dispatch;
    mret (jobProto job)
  else
  state ← rpc (OperationStateOf OperationJob (jb_ID job));
  if negb (bool_decide (state = OperationAdmitting)) then fail CodeFailedPrecondition "job is still waiting for worker capacity" else
  job ← rpc (QueueJob (jb_ID job) rootDigest);
  dispatchErr ← dispatch;
  job ← rpc (getJob (jb_ID job));
  if negb (bool_decide (dispatchErr = [])) && bool_decide (jb_Status job = StatusFailed)
  then throw (ErrConnect CodeUnavailable (ErrText (error_text dispatchErr))) else
  _ ← rpc (Audit principal (jb_ProjectID job) "job.start" (jb_ID job) [("root_digest", jb_RootDigest job)]);
  mret (jobProto job).

(** [refreshJob]: the runtime's view of a job that may have one. *)
Definition refreshJob (job : Job) : WorldM Job :=
  if bool_decide (jb_Status job = StatusPreparing) || Terminal (jb_Status job) then mret job else
  state ← attempt (on_store (OperationStateOf OperationJob (jb_ID job)));
  match state with
  | Ok OperationQueued | Ok OperationAdmitting => mret job
  | Ok _ | Fail ErrNotFound =>
      remote ← on_runtime (rn_Status (jb_ID job));
      job ← on_store (SyncJob (jb_ID job) remote);
      _ ← (if Terminal (jb_Status job) then ad_Advance else mret tt);
      mret job
  | Fail e => throw e
  end.

(** An error of [refreshJob] goes to the client. *)
Definition refresh_rpc (job : Job) : WorldM Job :=
  r ← attempt (refreshJob job);
  match r with Ok job => mret job | Fail e => throw (connectError e) end.

Definition GetJobRPC (header : Header) (id : string) : WorldM (JobPB * option DataPlaneConnection) :=
  principal ← authenticate header;
  job ← authorizedJob principal id;
  job ← refresh_rpc job;
  _ ← renew_preparing job;
  connection ← jobPreparationConnection job;
  mret (jobProto job, connection).

Fixpoint refresh_all (jobs : list Job) : WorldM (list JobPB) :=
  match jobs with
  | [] => mret []
  | job :: rest =>
      r ← attempt (refreshJob job);
      more ← refresh_all rest;
      mret (jobProto match r with Ok refreshed => refreshed | Fail _ => job end :: more)
  end.

(** [limit] is the former name of the page size. *)
Definition ListJobsRPC (header : Header) (selector : string) (pageSize limit : Z) (pageToken : string) : WorldM (list JobPB * string) :=
  principal ← authenticate header;
  project ← rpc (AuthorizeProject principal selector);
  let pageSize := if pageSize =? 0 then limit else pageSize in
  let pageSize := if pageSize =? 0 then 20 else pageSize in
  if (pageSize <? 1) || (100 <? pageSize) then fail CodeInvalidArgument "page size must be between 1 and 100" else
  page ← rpc (ListJobs (pj_ID project) pageSize pageToken);
  jobs ← refresh_all (jp_Jobs page);
  mret (jobs, jp_NextPageToken page).

(** [jobProto(control.Job{})]. *)
Definition zero_job : JobPB :=
  mkJobPB "" "" "" [] "" [] "" JOB_STATUS_UNSPECIFIED 0 zero_time "" false "" [] [] None None None.

(** [job, _ = s.refreshJob(ctx, job)]: an error leaves the zero [Job], here
    [None]. *)
Definition refresh_or_zero (job : Job) : WorldM (option Job) :=
  if bool_decide (jb_Status job = StatusCancelled) then mret (Some job) else
  r ← attempt (refreshJob job);
  mret match r with Ok refreshed => Some refreshed | Fail _ => None end.

Definition CancelJobRPC (header : Header) (id : string) : WorldM JobPB :=
  principal ← authenticate header;
  job ← authorizedJob principal id;
  if Terminal (jb_Status job) then mret (jobProto job) else
  read ← attempt (on_store (OperationStateOf OperationJob (jb_ID job)));
  match read with
  | Fail ErrNotFound | Ok _ =>
      let active := match read with Ok OperationActive => true | _ => false end in
      _ ← (if active then
             r ← attempt (on_runtime (sch_Cancel (jb_ID job)));
             match r with Ok _ => mret tt | Fail e => throw (ErrConnect CodeUnavailable e) end
           else mret tt);
      job ← rpc (RequestJobCancellation (jb_ID job));
      refreshed ← refresh_or_zero job;
      let jobID := match refreshed with Some job => jb_ID job | None => "" end in
      let projectID := match refreshed with Some job => jb_ProjectID job | None => "" end in
      let terminal := match refreshed with Some job => Terminal (jb_Status job) | None => false end in
      _ ← (if terminal && negb active then
             r ← attempt (ad_Release OperationJob jobID);
             match r with Ok _ => mret tt | Fail e => throw (connectError e) end
           else _ ← ad_RunOnce; mret tt);
      _ ← rpc (Audit principal projectID "job.cancel" jobID []);
      mret match refreshed with Some job => jobProto job | None => zero_job end
  | Fail e => throw (connectError e)
  end.

(** ** Builds *)

Definition build_connection (build : Build) : WorldM DataPlaneConnection :=
  credential ← Issue OperationBuild (bd_ID build) (sc_CredentialTTL config);
  mret (mkConnection (sc_BuildKitEndpoint config) "" credential).

Definition PrepareBuildRPC (header : Header) (selector idempotencyKey : string) : WorldM (BuildPB * option DataPlaneConnection) :=
  principal ← authenticate header;
  project ← rpc (AuthorizeProject principal selector);
  if negb (idempotencyKeyPattern idempotencyKey) then fail CodeInvalidArgument "idempotency key must contain 8 to 128 safe characters" else
  if lacks_capability header (sc_RequiredBuildClientCapability config)
  then upgrade_required header (sc_RequiredBuildClientCapability config) else
  '(build, replayed) ← rpc (CreateBuild (pj_ID project) (mkIdempotency idempotencyKey (buildHash (pj_ID project))));
  _ ← (if replayed : bool then mret tt else
         audited ← attempt (on_store (Audit principal (pj_ID project) "build.prepare" (bd_ID build) []));
         match audited with
         | Ok _ => mret tt
         | Fail e =>
             _ ← attempt (on_store (FinishBuild (bd_ID build) BuildFailed 1));
             throw (connectError e)
         end);
  _ ← dispatch;
  build ← rpc (getBuild (bd_ID build));
  if negb (bool_decide (bd_Status build = BuildRunning)) then mret (buildProto build, None) else
  issued ← attempt (build_connection build);
  match issued with
  | Ok connection => mret (buildProto build, Some connection)
  | Fail e =>
      _ ← attempt (on_store (FinishBuild (bd_ID build) BuildFailed 1));
      _ ← ad_Advance;
      throw (connectError e)
  end.

Definition GetBuildRPC (header : Header) (id : string) : WorldM (BuildPB * option DataPlaneConnection) :=
  principal ← authenticate header;
  build ← authorizedBuild principal id;
  _ ← (if unfinished (bd_Status build) then rpc (RenewOperationLease OperationBuild (bd_ID build)) else mret tt);
  if negb (bool_decide (bd_Status build = BuildRunning)) then mret (buildProto build, None) else
  issued ← attempt (build_connection build);
  match issued with
  | Ok connection => mret (buildProto build, Some connection)
  | Fail e => throw (connectError e)
  end.

Definition CancelBuildRPC (header : Header) (id : string) : WorldM BuildPB :=
  principal ← authenticate header;
  build ← authorizedBuild principal id;
  if build_terminal (bd_Status build) then mret (buildProto build) else
  build ← rpc (FinishBuild (bd_ID build) BuildCancelled 130);
  _ ← rpc (Audit principal (bd_ProjectID build) "build.cancel" (bd_ID build) []);
  _ ← ad_Advance;
  mret (buildProto build).

Definition build_status_text (s : BuildStatus) : string :=
  match s with
  | BuildQueued => "queued" | BuildRunning => "running" | BuildSucceeded => "succeeded" | BuildFailed => "failed" | BuildCancelled => "cancelled"
  end.

Definition FinishBuildRPC (header : Header) (id : string) (cancelled : bool) (exitCode : Z) : WorldM BuildPB :=
  principal ← authenticate header;
  build ← rpc (getBuild id);
  _ ← rpc (AuthorizeProject principal (bd_ProjectID build));
  if negb (bool_decide (bd_Status build = BuildRunning)) then fail CodeFailedPrecondition "build is not running" else
  let status := if cancelled then BuildCancelled else if negb (exitCode =? 0) then BuildFailed else BuildSucceeded in
  build ← rpc (FinishBuild (bd_ID build) status exitCode);
  _ ← rpc (Audit principal (bd_ProjectID build) "build.finish" (bd_ID build) [("status", build_status_text status)]);
  _ ← ad_Advance;
  mret (buildProto build).

(** ** Trusts, tokens and enrollment *)

(** [verify] is [OIDCVerifier.Verify], if it is configured. *)
Definition ExchangeGitHubOIDCRPC (verify : option (string -> M R GitHubClaims)) (selector idToken : string) : WorldM IssuedAccessToken :=
  match verify with
  | None => fail CodeUnimplemented "GitHub OIDC is not configured"
  | Some verify =>
      if bool_decide (selector = "") || bool_decide (idToken = "") then fail CodeInvalidArgument "project and ID token are required" else
      verified ← attempt (on_runtime (verify idToken));
      match verified with
      | Fail _ => fail CodeUnauthenticated "invalid GitHub identity"
      | Ok claims =>
          trust ← rpc (MatchGitHubTrust selector claims);
          now ← time_Now;
          let expires := now + 15 * Minute in
          let expires := if negb (cl_ExpiresAt claims =? zero_time) && (cl_ExpiresAt claims <? expires) then cl_ExpiresAt claims else expires in
          issued ← rpc (CreateProjectSession (tr_ProjectID trust) (cl_Subject claims) expires);
          _ ← rpc (Audit (mkPrincipal PrincipalGitHub "" "" (tr_ProjectID trust) false (cl_Subject claims)) (tr_ProjectID trust)
                     "github.exchange" (tr_ID trust) [("repository_id", cl_RepositoryID claims)]);
          mret issued
      end
  end.

Definition CreateGitHubTrustRPC (header : Header) (trust : GitHubTrust) : WorldM GitHubTrust :=
  principal ← authenticate header;
  trust ← rpc (CreateGitHubTrust principal (mkGitHubTrust "" (tr_ProjectID trust) (tr_RepositoryOwnerID trust) (tr_RepositoryID trust)
             (tr_WorkflowRef trust) (tr_Ref trust) (tr_Environment trust) (tr_Events trust) zero_time None));
  _ ← rpc (Audit principal (tr_ProjectID trust) "github.trust.create" (tr_ID trust) []);
  mret (trustProto trust).

Definition ListGitHubTrustsRPC (header : Header) (selector : string) : WorldM (list GitHubTrust) :=
  principal ← authenticate header;
  trusts ← rpc (ListGitHubTrusts principal selector);
  mret (map trustProto trusts).

Definition RevokeGitHubTrustRPC (header : Header) (id : string) : WorldM unit :=
  principal ← authenticate header;
  _ ← rpc (RevokeGitHubTrust principal id);
  rpc (Audit principal "" "github.trust.revoke" id []).

Definition CreateDeviceTokenRPC (header : Header) (userID name : string) (expiresAt : option time) : WorldM IssuedDeviceToken :=
  principal ← authenticate header;
  issued ← rpc (CreateDeviceToken principal (mkCreateDeviceToken userID name (default zero_time expiresAt)));
  _ ← rpc (Audit principal "" "device-token.create" (dt_ID (it_Metadata issued)) []);
  mret issued.

Definition ListDeviceTokensRPC (header : Header) : WorldM (list DeviceToken) :=
  principal ← authenticate header;
  rpc (ListDeviceTokens principal).

Definition RevokeDeviceTokenRPC (header : Header) (id : string) : WorldM unit :=
  principal ← authenticate header;
  _ ← rpc (RevokeDeviceToken principal id);
  rpc (Audit principal "" "device-token.revoke" id []).

(** [expiresAt] is the timestamp of the request, if it has a valid one. *)
Definition CreateEnrollmentCodeRPC (header : Header) (userID deviceName : string) (expiresAt : option time) : WorldM (EnrollmentCode * string) :=
  principal ← authenticate header;
  match expiresAt with
  | None => fail CodeInvalidArgument "valid enrollment expiry is required"
  | Some expiresAt =>
      if (String.length deviceName <? 1)%nat || (128 <? String.length deviceName)%nat || has_nul deviceName
      then fail CodeInvalidArgument "device name must contain 1 to 128 characters" else
      now ← time_Now;
      if (expiresAt <? now + Minute) || (now + 30 * Minute <? expiresAt)
      then fail CodeInvalidArgument "enrollment expiry must be between 1 and 30 minutes" else
      issued ← rpc (CreateEnrollmentCode principal userID deviceName expiresAt);
      let metadata := ie_Metadata issued in
      _ ← rpc (Audit principal "" "enrollment.create" (ec_ID metadata) [("user_id", ec_UserID metadata); ("device_name", ec_DeviceName metadata)]);
      mret (enrollmentProto metadata, ie_Secret issued)
  end.

Definition ExchangeEnrollmentCodeRPC (code : string) : WorldM IssuedDeviceToken :=
  if (String.length code <? 32)%nat || (256 <? String.length code)%nat then throw (connectError ErrUnauthenticated) else
  outcome ← rpc (ExchangeEnrollmentCode code);
  match outcome with
  | Refused _ => throw (connectError ErrUnauthenticated)
  | Exchanged issued enrollment =>
      let token := it_Metadata issued in
      _ ← rpc (Audit (mkPrincipal PrincipalDevice (dt_ID token) (dt_UserID token) "" false "") "" "enrollment.exchange" (ec_ID enrollment)
                 [("device_token_id", dt_ID token)]);
      mret issued
  end.

End Server.
