(* ===== verification/ApiSystem.v ===== *)
(** * The requests as one family

    Every handler of the control API as a constructor, and the principle that
    carries guarantees of the store to the API: what every call on the store and
    the dispatcher guarantee, every request guarantees. *)
From S2P Require Import Prelude Model GoMonad GoLib GoStrings Glob Table Schema JobStore QueueInv QueueOps QueueSystem Identity Keeps IdentitySystem IdentityInv Reads Coordinator Dispatcher Path Validate ControlAPI.

(** The requests that carry a bearer token. *)
Inductive ApiRequest :=
| ReqCreateUser (name : string) (admin : bool)
| ReqBindGitHubIdentity (login userID : string)
| ReqRevokeGitHubIdentity (userID : string)
| ReqCreateProject (slug name : string)
| ReqListProjects
| ReqAddProjectMember (selector userID : string)
| ReqActivateProjectImage (selector image : string)
| ReqRollbackProjectImage (selector : string)
| ReqSetProjectImagePolicy (selector : string) (allow : bool)
| ReqListProjectImageHistory (selector : string)
| ReqPrepareJob (request : PrepareJobRequest)
| ReqStartJob (id rootDigest : string)
| ReqGetJob (id : string)
| ReqListJobs (selector : string) (pageSize limit : Z) (pageToken : string)
| ReqCancelJob (id : string)
| ReqPrepareBuild (selector idempotencyKey : string)
| ReqGetBuild (id : string)
| ReqCancelBuild (id : string)
| ReqFinishBuild (id : string) (cancelled : bool) (exitCode : Z)
| ReqCreateGitHubTrust (trust : GitHubTrust)
| ReqListGitHubTrusts (selector : string)
| ReqRevokeGitHubTrust (id : string)
| ReqCreateDeviceToken (userID name : string) (expiresAt : option time)
| ReqListDeviceTokens
| ReqRevokeDeviceToken (id : string)
| ReqCreateEnrollmentCode (userID deviceName : string) (expiresAt : option time).

(** The exchanges, which carry a credential of their own. *)
Inductive ApiExchange :=
| ReqExchangeGitHubOIDC (selector idToken : string)
| ReqExchangeEnrollmentCode (code : string).

(** The environment answers without touching the state. *)
Section Environment.
Context {D : Type} (G : D -> D -> Prop) `{!PreOrder G} `{X509}.

Lemma keeps_may_fail : keeps G may_fail.
Proof using PreOrder0. intros o d. by apply wp_may_fail. Qed.

Lemma keeps_rand_byte : keeps G rand_byte.
Proof using PreOrder0. intros o d. by apply wp_rand_byte. Qed.

Lemma keeps_issue kind id ttl : keeps G (Issue kind id ttl).
Proof using PreOrder0. unfold Issue. repeat (keep_step || (apply keeps_may_fail; apply _) || (apply keeps_rand_byte; apply _)). Qed.

End Environment.

Section System.
Context {R : Type} `{Scheduler R} `{JobRuntime R} `{ApiDispatcher R} `{ErrorText} `{Pepper} `{CaseTables} `{AdmissionHash} `{X509}
        `{CursorCodec} (config : ServerConfig)
        (resolve : option (string -> M R ExternalIdentity)) (verify : option (string -> M R GitHubClaims)).
#[local] Abbreviation WorldM := (M (Database * R)).

Definition ignore {A : Type} (m : WorldM A) : WorldM unit := _ ← m; mret tt.

Definition run_request (q : ApiRequest) (header : Header) : WorldM unit :=
  match q with
  | ReqCreateUser name admin => ignore (CreateUserRPC header name admin)
  | ReqBindGitHubIdentity login userID => ignore (BindGitHubIdentityRPC resolve header login userID)
  | ReqRevokeGitHubIdentity userID => ignore (RevokeGitHubIdentityRPC header userID)
  | ReqCreateProject slug name => ignore (CreateProjectRPC header slug name)
  | ReqListProjects => ignore (ListProjectsRPC header)
  | ReqAddProjectMember selector userID => ignore (AddProjectMemberRPC header selector userID)
  | ReqActivateProjectImage selector image => ignore (ActivateProjectImageRPC header selector image)
  | ReqRollbackProjectImage selector => ignore (RollbackProjectImageRPC header selector)
  | ReqSetProjectImagePolicy selector allow => ignore (SetProjectImagePolicyRPC header selector allow)
  | ReqListProjectImageHistory selector => ignore (ListProjectImageHistoryRPC header selector)
  | ReqPrepareJob request => ignore (PrepareJobRPC config header request)
  | ReqStartJob id rootDigest => ignore (StartJobRPC header id rootDigest)
  | ReqGetJob id => ignore (GetJobRPC config header id)
  | ReqListJobs selector pageSize limit pageToken => ignore (ListJobsRPC header selector pageSize limit pageToken)
  | ReqCancelJob id => ignore (CancelJobRPC header id)
  | ReqPrepareBuild selector key => ignore (PrepareBuildRPC config header selector key)
  | ReqGetBuild id => ignore (GetBuildRPC config header id)
  | ReqCancelBuild id => ignore (CancelBuildRPC header id)
  | ReqFinishBuild id cancelled exitCode => ignore (FinishBuildRPC header id cancelled exitCode)
  | ReqCreateGitHubTrust trust => ignore (CreateGitHubTrustRPC header trust)
  | ReqListGitHubTrusts selector => ignore (ListGitHubTrustsRPC header selector)
  | ReqRevokeGitHubTrust id => ignore (RevokeGitHubTrustRPC header id)
  | ReqCreateDeviceToken userID name expiresAt => ignore (CreateDeviceTokenRPC header userID name expiresAt)
  | ReqListDeviceTokens => ignore (ListDeviceTokensRPC header)
  | ReqRevokeDeviceToken id => ignore (RevokeDeviceTokenRPC header id)
  | ReqCreateEnrollmentCode userID deviceName expiresAt => ignore (CreateEnrollmentCodeRPC header userID deviceName expiresAt)
  end.

Definition run_exchange (q : ApiExchange) : WorldM unit :=
  match q with
  | ReqExchangeGitHubOIDC selector idToken => ignore (ExchangeGitHubOIDCRPC verify selector idToken)
  | ReqExchangeEnrollmentCode code => ignore (ExchangeEnrollmentCodeRPC code)
  end.

(** ** Guarantees *)

Context (G : Database -> Database -> Prop) `{!PreOrder G}.

(** What a guarantee needs: every call on the store gives it, and so do the
    operations of the dispatcher. *)
Record Guaranteed : Prop := {
  gd_queue : forall c, keeps G (run_call c);
  gd_identity : forall c, keeps G (run_identity c);
  gd_RunOnce : keeps (store_rel (R := R) G) ad_RunOnce;
  gd_Advance : keeps (store_rel (R := R) G) ad_Advance;
  gd_Release : forall kind id, keeps (store_rel (R := R) G) (ad_Release kind id)
}.

Lemma keeps_discard {A} (m : StoreM A) : keeps G (discard m) -> keeps G m.
Proof using. intros Hm o d n. specialize (Hm o d n). unfold discard, mbind, M_bind in Hm. by destruct (m o (d, n)) as [[a|e] [d' n']]. Qed.

Context (HG : Guaranteed).

(** A store call of a handler. *)
Ltac by_call :=
  lazymatch goal with
  | |- keeps _ (CreatePreparedJob _ _) => exact (keeps_discard _ (gd_queue HG (CallCreatePreparedJob _ _)))
  | |- keeps _ (CreateBuild _ _) => exact (keeps_discard _ (gd_queue HG (CallCreateBuild _ _)))
  | |- keeps _ (QueueJob _ _) => exact (keeps_discard _ (gd_queue HG (CallQueueJob _ _)))
  | |- keeps _ (SyncJob _ _) => exact (keeps_discard _ (gd_queue HG (CallSyncJob _ _)))
  | |- keeps _ (RequestJobCancellation _) => exact (keeps_discard _ (gd_queue HG (CallRequestJobCancellation _)))
  | |- keeps _ (FailJob _ _) => exact (keeps_discard _ (gd_queue HG (CallFailJob _ _)))
  | |- keeps _ (FinishBuild _ _ _) => exact (keeps_discard _ (gd_queue HG (CallFinishBuild _ _ _)))
  | |- keeps _ (RenewOperationLease _ _) => exact (gd_queue HG (CallRenewOperationLease _ _))
  | |- keeps _ (Authenticate _) => exact (keeps_discard _ (gd_identity HG (CallAuthenticate _)))
  | |- keeps _ (AuthorizeProject _ _) => exact (keeps_discard _ (gd_identity HG (CallAuthorizeProject _ _)))
  | |- keeps _ (CreateUser _ _ _) => exact (keeps_discard _ (gd_identity HG (CallCreateUser _ _ _)))
  | |- keeps _ (CreateProject _ _ _) => exact (keeps_discard _ (gd_identity HG (CallCreateProject _ _ _)))
  | |- keeps _ (ActivateProjectImage _ _ _) => exact (keeps_discard _ (gd_identity HG (CallActivateProjectImage _ _ _)))
  | |- keeps _ (RollbackProjectImage _ _) => exact (keeps_discard _ (gd_identity HG (CallRollbackProjectImage _ _)))
  | |- keeps _ (SetProjectImagePolicy _ _ _) => exact (keeps_discard _ (gd_identity HG (CallSetProjectImagePolicy _ _ _)))
  | |- keeps _ (BindExternalIdentity _ _ _) => exact (keeps_discard _ (gd_identity HG (CallBindExternalIdentity _ _ _)))
  | |- keeps _ (CreateDeviceToken _ _) => exact (keeps_discard _ (gd_identity HG (CallCreateDeviceToken _ _)))
  | |- keeps _ (CreateEnrollmentCode _ _ _ _) => exact (keeps_discard _ (gd_identity HG (CallCreateEnrollmentCode _ _ _ _)))
  | |- keeps _ (ExchangeEnrollmentCode _) => exact (keeps_discard _ (gd_identity HG (CallExchangeEnrollmentCode _)))
  | |- keeps _ (ListDeviceTokens _) => exact (keeps_discard _ (gd_identity HG (CallListDeviceTokens _)))
  | |- keeps _ (CreateProjectSession _ _ _) => exact (keeps_discard _ (gd_identity HG (CallCreateProjectSession _ _ _)))
  | |- keeps _ (CreateGitHubTrust _ _) => exact (keeps_discard _ (gd_identity HG (CallCreateGitHubTrust _ _)))
  | |- keeps _ (ListGitHubTrusts _ _) => exact (keeps_discard _ (gd_identity HG (CallListGitHubTrusts _ _)))
  | |- keeps _ (MatchGitHubTrust _ _) => exact (keeps_discard _ (gd_identity HG (CallMatchGitHubTrust _ _)))
  | |- keeps _ (ListProjects _) => exact (keeps_discard _ (gd_identity HG (CallListProjects _)))
  | |- keeps _ (ListProjectImageHistory _) => exact (keeps_discard _ (gd_identity HG (CallListProjectImageHistory _)))
  | |- keeps _ (AddProjectMember _ _ _) => exact (gd_identity HG (CallAddProjectMember _ _ _))
  | |- keeps _ (RevokeExternalIdentity _ _ _) => exact (gd_identity HG (CallRevokeExternalIdentity _ _ _))
  | |- keeps _ (RevokeDeviceToken _ _) => exact (gd_identity HG (CallRevokeDeviceToken _ _))
  | |- keeps _ (RevokeGitHubTrust _ _) => exact (gd_identity HG (CallRevokeGitHubTrust _ _))
  | |- keeps _ (Audit _ _ _ _ _) => exact (gd_identity HG (CallAudit _ _ _ _ _))
  | |- keeps _ ad_RunOnce => exact (gd_RunOnce HG)
  | |- keeps _ ad_Advance => exact (gd_Advance HG)
  | |- keeps _ (ad_Release _ _) => exact (gd_Release HG _ _)
  end.

Lemma keeps_read {A} (m : StoreM A) : keeps G m -> keeps G (or_not_found m).
Proof using PreOrder0. intros Hm. unfold or_not_found. repeat keep_step; done. Qed.

Ltac request :=
  repeat first
    [ by_call
    | match goal with
      | |- keeps _ (or_not_found _) => apply keeps_read
      | |- keeps _ (Issue _ _ _) => apply keeps_issue; apply _
      end
    | world_step
    | progress unfold ignore, rpc, fail, dispatch, authenticate, authorizedJob, authorizedBuild, projectConfiguration, getJob, getBuild, OperationStateOf,
        upgrade_required, renew_preparing, build_connection, jobPreparationConnection, refresh_rpc, refreshJob, refresh_or_zero ].

Lemma keeps_refresh_all jobs : keeps (store_rel (R := R) G) (refresh_all jobs).
Proof using PreOrder0 HG. induction jobs as [|job jobs IH]; cbn [refresh_all]; request. exact IH. Qed.


(** What the store and the dispatcher guarantee, every request guarantees,
    whatever it returns. *)
Lemma request_keeps q header : keeps (store_rel (R := R) G) (run_request q header).
Proof using PreOrder0 HG.
  destruct q; cbn [run_request];
    unfold CreateUserRPC, BindGitHubIdentityRPC, RevokeGitHubIdentityRPC, CreateProjectRPC, ListProjectsRPC, AddProjectMemberRPC,
      ActivateProjectImageRPC, RollbackProjectImageRPC, SetProjectImagePolicyRPC, ListProjectImageHistoryRPC, PrepareJobRPC, submit_job, StartJobRPC,
      GetJobRPC, ListJobsRPC, CancelJobRPC, PrepareBuildRPC, GetBuildRPC, CancelBuildRPC, FinishBuildRPC, CreateGitHubTrustRPC,
      ListGitHubTrustsRPC, RevokeGitHubTrustRPC, CreateDeviceTokenRPC, ListDeviceTokensRPC, RevokeDeviceTokenRPC, CreateEnrollmentCodeRPC;
    request; try apply keeps_refresh_all.
  all: unfold ListJobs; request.
Qed.

Lemma exchange_keeps q : keeps (store_rel (R := R) G) (run_exchange q).
Proof using PreOrder0 HG. destruct q; cbn [run_exchange]; unfold ExchangeGitHubOIDCRPC, ExchangeEnrollmentCodeRPC; request. Qed.

End System.
