(* ===== verification/ApiTheorems.v ===== *)
(** * Correctness of the control API *)
From S2P Require Import Prelude Model GoMonad GoLib GoStrings Glob Table Schema JobStore Lease QueueInv QueueOps QueueSpec QueueSystem QueueTheorems Identity IdentitySpec Keeps IdentitySystem IdentityInv IdentityTheorems Reads ReadTheorems Resources Coordinator Dispatcher DispatchTheorems Path Validate ValidateTheorems ControlAPI ApiSystem.

(** ** The dispatcher behind the API *)

(** The calls a round of the dispatcher makes. *)
Definition dispatched (c : StoreCall) : bool :=
  match c with
  | CallAcquireNextOperation | CallRequeueAdmittingOperation _ _ | CallActivateOperation _ _ | CallFailJob _ _
  | CallBeginOperationCleanup _ _ => true
  | _ => false
  end.

Section ServerDispatcher.
Context {R : Type} `{Scheduler R} `{ErrorText} (G : Database -> Database -> Prop) `{!PreOrder G}.
Context (preparer : option (Preparer (R := R))) (Admit : option (M (Database * R) JoinedErr -> M (Database * R) JoinedErr)).
Context (Hcall : forall c, dispatched c = true -> keeps G (run_call c))
        (Hprepare : forall p operation, preparer = Some p -> keeps (store_rel (R := R) G) (p operation))
        (Hadmit : forall guard m, Admit = Some guard -> keeps (store_rel (R := R) G) m -> keeps (store_rel (R := R) G) (guard m)).

(** The server's dispatcher.  A wake-up starts a goroutine, whose rounds are
    requests of their own. *)
Definition server_dispatcher : ApiDispatcher R :=
  {| ad_RunOnce := DispatchOnce preparer Admit; ad_Advance := mret tt; ad_Release := Release |}.

Lemma keeps_answer {A} (f : Z -> A) : keeps (store_rel (R := R) G) (fun o '(w, n) => (Ok (f (o_rand o n)), (w, S n))).
Proof using PreOrder0. intros o [d r] n. unfold store_rel. reflexivity. Qed.

Ltac round_call :=
  lazymatch goal with
  | |- keeps _ AcquireNextOperation => exact (keeps_discard _ _ (Hcall CallAcquireNextOperation eq_refl))
  | |- keeps _ (RequeueAdmittingOperation _ _) => exact (Hcall (CallRequeueAdmittingOperation _ _) eq_refl)
  | |- keeps _ (ActivateOperation _ _) => exact (Hcall (CallActivateOperation _ _) eq_refl)
  | |- keeps _ (FailJob _ _) => exact (keeps_discard _ _ (Hcall (CallFailJob _ _) eq_refl))
  | |- keeps _ (BeginOperationCleanup _ _) => exact (Hcall (CallBeginOperationCleanup _ _) eq_refl)
  | |- keeps _ (getJob _) => unfold getJob; apply keeps_read; [apply _|]
  | |- keeps _ draining_Load => apply (keeps_answer Z.odd)
  | |- keeps _ isContextCancellation => apply (keeps_answer Z.odd)
  end.

Lemma release_keeps kind id : keeps (store_rel (R := R) G) (Release kind id).
Proof using Hcall. unfold Release, Request. apply keeps_on_store. round_call. Qed.

Lemma runOnce_keeps : keeps (store_rel (R := R) G) (runOnce preparer).
Proof using PreOrder0 Hcall Hprepare.
  unfold runOnce, prepare_operation, launch_job, fail_admission, Request.
  repeat first [round_call | world_step]; by apply Hprepare.
Qed.

Lemma dispatch_keeps : keeps (store_rel (R := R) G) (DispatchOnce preparer Admit).
Proof using All.
  unfold DispatchOnce. repeat first [round_call | world_step]; [by eapply Hadmit; [|apply runOnce_keeps]|apply runOnce_keeps].
Qed.

End ServerDispatcher.

(** ** What every request guarantees *)

(** The guarantees of the queue and of the identities together. *)
Definition control_good (d d' : Database) : Prop := good_rel d d' /\ identity_good d d'.

#[export] Instance control_good_preorder : PreOrder control_good.
Proof.
  split; [by intros d; split|]. intros d1 d2 d3 [A1 A2] [B1 B2]. split; by transitivity d2.
Qed.

(** A dispatcher that respects them. *)
Class GoodDispatcher (R : Type) `{ApiDispatcher R} : Prop := {
  good_RunOnce : keeps (store_rel (R := R) control_good) ad_RunOnce;
  good_Advance : keeps (store_rel (R := R) control_good) ad_Advance;
  good_Release : forall kind id, keeps (store_rel (R := R) control_good) (ad_Release kind id)
}.

Lemma keeps_and {D A} (G1 G2 : D -> D -> Prop) (m : M D A) : keeps G1 m -> keeps G2 m -> keeps (fun d d' => G1 d d' /\ G2 d d') m.
Proof. intros H1 H2 o d n. specialize (H1 o d n). specialize (H2 o d n). by destruct (m o (d, n)) as [[a|e] [d' n']]. Qed.

Lemma run_call_good c : keeps control_good (run_call c).
Proof. apply keeps_and; [apply keeps_preserves, run_call_preserves|apply run_call_identity]. Qed.

Lemma frame_good d d' : queue_frame d d' -> good_rel d d'.
Proof. intros (?&?&?&?) HI. by apply good_frame. Qed.

Lemma keeps_weaken {D A} (G1 G2 : D -> D -> Prop) (m : M D A) : (forall d d', G1 d d' -> G2 d d') -> keeps G1 m -> keeps G2 m.
Proof. intros HG Hm o d. eapply wp_mono; [apply Hm| |]; simpl; auto. Qed.

Section Identity.
Context `{Pepper} `{CaseTables}.

Lemma run_identity_control c : keeps control_good (run_identity c).
Proof. apply keeps_and; [apply (keeps_weaken _ _ _ frame_good), run_identity_frame|apply run_identity_good]. Qed.

Lemma good_guaranteed (R : Type) `{GoodDispatcher R} : Guaranteed (R := R) control_good.
Proof.
  split; [apply run_call_good|apply run_identity_control|apply good_RunOnce|apply good_Advance|apply good_Release].
Qed.

End Identity.

(** The server's dispatcher is one, without a preparer or with one that writes
    outside its tables, and with a controller that only runs the admission. *)
Lemma server_dispatcher_good {R : Type} `{Scheduler R} `{ErrorText} preparer Admit :
  (forall p operation, preparer = Some p -> keeps (store_rel (R := R) control_good) (p operation)) ->
  (forall guard m, Admit = Some guard -> keeps (store_rel (R := R) control_good) m -> keeps (store_rel (R := R) control_good) (guard m)) ->
  @GoodDispatcher R (server_dispatcher preparer Admit).
Proof.
  intros Hp Ha. split; cbn.
  - apply dispatch_keeps; [apply _|intros; apply run_call_good|done|done].
  - apply keeps_ret. apply _.
  - intros kind id. apply release_keeps. intros. apply run_call_good.
Qed.

Section Requests.
Context `{Pepper} `{CaseTables}.

(** Databases that calls on the store can reach. *)
Definition control_reachable (d : Database) : Prop := rtc control_step empty_database d.

Lemma control_reachable_inv d : control_reachable d -> QInv (tabs d) /\ IdInv (tabs d).
Proof.
  intros Hd. split.
  - apply reachable_QInv. unfold reachable. clear -Hd. unfold control_reachable in Hd. induction Hd as [|d1 d2 d3 H12 _ IH]; [reflexivity|].
    eapply rtc_l; [by apply control_step_store|done].
  - by apply (control_steps_good _ _ Hd), empty_IdInv.
Qed.

Definition request_guarantee (d d' : Database) : Prop :=
  QInv (tabs d') /\ evolves (tabs d) (tabs d') /\ rtc lease_step (abs (tabs d)) (abs (tabs d')) /\
  IdInv (tabs d') /\ identity_evolves (tabs d) (tabs d').

Lemma control_good_guarantee d d' : control_reachable d -> control_good d d' -> request_guarantee d d'.
Proof.
  intros Hd [HG HI]. destruct (control_reachable_inv d Hd) as [HQ HT]. destruct (HG HQ) as (? & ? & ?), (HI HT) as [? ?].
  do 4 (split; [done|]). done.
Qed.

Context {R : Type} `{Scheduler R} `{JobRuntime R} `{HD : ApiDispatcher R} `{!GoodDispatcher R} `{ErrorText} `{AdmissionHash} `{X509} `{CursorCodec}.


(** ** Credentials *)

Definition unauthenticated : Err := ErrConnect CodeUnauthenticated ErrUnauthenticated.

(** The header carries a recorded token: of its kind and digest, not revoked,
    and not after its expiry. *)
Definition presents (o : Oracle) (header : Header) (d : Database) (k : TokenRow) : Prop :=
  exists token, bearer header = Some token /\ k ∈ access_tokens (tabs d) /\ parseToken token = Some (tk_kind k, tk_id k) /\
    digest token = tk_digest k /\ tk_revoked_at k = None /\ (forall e, tk_expires_at k = Some e -> exists n, o_clock o n <= e).

Lemma wp_rpc {A} (o : Oracle) (m : StoreM A) (Q : A -> Database * R -> Prop) E d r :
  wp o m (fun a d' => Q a (d', r)) (fun e d' => E (connectError e) (d', r)) d -> wp o (rpc m) Q E (d, r).
Proof using.
  intros Hm. unfold rpc. apply wp_bind, wp_attempt, wp_on_store. eapply wp_mono; [exact Hm| |]; simpl.
  - intros a d' Ha. by apply wp_ret.
  - intros e d' He. by apply wp_throw.
Qed.

Lemma authenticate_spec o header d (r : R) :
  IdInv (tabs d) ->
  wp o (authenticate header)
    (fun p w => exists k admin, presents o header d k /\ tk_kind k <> PrincipalBrowser /\ token_admin (tabs d) k admin /\
       p = principal_of k admin /\ used k d w.1 /\ w.2 = r)
    (fun e w => e = unauthenticated /\ w.2 = r /\
       (w.1 = d \/ exists k, presents o header d k /\ tk_kind k = PrincipalBrowser /\ used k d w.1)) (d, r).
Proof using.
  intros [Hv _ _]. unfold authenticate. destruct (bearer header) as [token|] eqn:Eb; [|apply wp_throw; auto].
  apply wp_bind, wp_rpc. eapply wp_mono; [by apply Authenticate_spec| |].
  - intros p d' (k & admin & Hk & Hp & Hd & Hr & He & Ha & -> & Hu).
    assert (Hpr : presents o header d k) by (exists token; by repeat split).
    case_bool_decide as Ek; [apply wp_throw|apply wp_ret].
    + split; [done|]. split; [done|]. right. by exists k.
    + exists k, admin. by repeat split.
  - intros e d' [-> ->]. by auto.
Qed.

(** A property that holds already holds after every program. *)
Lemma wp_fixed {W A} o (m : M W A) (P : Prop) w : P -> wp o m (fun _ _ => P) (fun _ _ => P) w.
Proof using. intros HP n. by destruct (m o (w, n)) as [[a|e] [w' n']]. Qed.

(** A handler begins with the authentication of its caller. *)
Definition gated (header : Header) {A} (m : M (Database * R) A) : Prop := exists (k : Principal -> M (Database * R) A), forall o w, m o w = (authenticate header ≫= k) o w.

Lemma gated_bind header {A} (k : Principal -> M (Database * R) A) : gated header (authenticate header ≫= k).
Proof using. by exists k. Qed.

Lemma gated_then header {A B} (m : M (Database * R) A) (f : A -> M (Database * R) B) : gated header m -> gated header (m ≫= f).
Proof using.
  intros [k Hk]. exists (fun p => k p ≫= f). intros o w. unfold mbind, M_bind. rewrite Hk. unfold mbind, M_bind.
  by destruct (authenticate header o w) as [[p|e] w'].
Qed.

Lemma request_gated config resolve q header : gated header (run_request config resolve q header).
Proof using.
  destruct q; cbn [run_request]; apply gated_then; try apply gated_bind; apply gated_then, gated_bind.
Qed.


End Requests.
