(* ===== verification/ApiJobs.v ===== *)
(** * Jobs that requests add

    Where the rows of [control_jobs] come from: every call on the store but
    [CreatePreparedJob] only updates them, and never the part that was
    submitted. *)

From S2P Require Import Prelude Model GoMonad GoLib Table Schema JobStore Lease QueueInv QueueOps QueueSpec QueueSystem GoStrings Glob Identity IdentitySpec Keeps IdentitySystem IdentityInv IdentityTheorems Reads ReadTheorems Coordinator Dispatcher DispatchTheorems Path Validate ValidateTheorems ControlAPI ApiSystem ApiTheorems.

(** The row was made from the submission. *)
Definition made_from (input : PrepareJob) (j : JobRow) : Prop :=
  jr_project_id j = pp_ProjectID input /\ jr_image j = pp_Image input /\ jr_command j = pp_Command input /\
  jr_working_directory j = pp_WorkingDirectory input /\ jr_environment j = pp_Environment input /\
  jr_secrets j = pp_Secrets input /\ jr_caches j = pp_Caches input /\ jr_timeout_millis j = Milliseconds (pp_Timeout input).

Lemma made_from_same input j j' : made_from input j -> same_job_input j j' -> made_from input j'.
Proof. intros (?&?&?&?&?&?&?&?) (?&?&?&?&?&?&?&?&?&?&?&?). repeat split; congruence. Qed.

(** Every job is an old one or satisfies [P]. *)
Definition jobs_from (P : JobRow -> Prop) (d d' : Database) : Prop :=
  forall j', j' ∈ control_jobs (tabs d') -> (exists j, j ∈ control_jobs (tabs d) /\ same_job_input j j') \/ P j'.

Definition no_new_jobs : Database -> Database -> Prop := jobs_from (fun _ => False).

Lemma same_job_input_refl j : same_job_input j j.
Proof. by repeat split. Qed.
Lemma same_job_input_trans j1 j2 j3 : same_job_input j1 j2 -> same_job_input j2 j3 -> same_job_input j1 j3.
Proof. intros (?&?&?&?&?&?&?&?&?&?&?&?) (?&?&?&?&?&?&?&?&?&?&?&?). repeat split; congruence. Qed.

Section JobsFrom.
Context (P : JobRow -> Prop) (HP : forall j j', P j -> same_job_input j j' -> P j').

#[local] Instance jobs_from_preorder : PreOrder (jobs_from P).
Proof using HP.
  split.
  - intros d j Hj. left. exists j. split; [done|apply same_job_input_refl].
  - intros d1 d2 d3 H12 H23 j3 Hj3. destruct (H23 j3 Hj3) as [(j2 & Hj2 & S23)|?]; [|by right].
    destruct (H12 j2 Hj2) as [(j1 & Hj1 & S12)|?]; [left|right; by eapply HP]. exists j1. split; [done|by eapply same_job_input_trans].
Qed.

Lemma jobs_same d d' : control_jobs (tabs d') = control_jobs (tabs d) -> jobs_from P d d'.
Proof using. intros E j Hj. rewrite E in Hj. left. exists j. split; [done|apply same_job_input_refl]. Qed.

Lemma jobs_update p f : (forall t r, same_job_input r (f t r)) -> update_ok ControlJobs (jobs_from P) p f.
Proof using.
  intros Hf now n d d' Hs. apply update_rows_inv in Hs as (_ & Hs & _). intros j Hj. rewrite Hs in Hj. left.
  change (j ∈ update_where (p (tabs d)) (f (tabs d)) (control_jobs (tabs d))) in Hj. apply elem_of_update in Hj as (j0 & Hj0 & ->).
  exists j0. split; [done|]. destruct (p (tabs d) j0); [apply Hf|apply same_job_input_refl].
Qed.

Lemma jobs_insert r : P r -> insert_ok ControlJobs (jobs_from P) (fun _ => r).
Proof using.
  intros Hr now d d' Hs. apply insert_row_inv in Hs as (_ & _ & Hs & _). intros j Hj. rewrite Hs in Hj.
  change (j ∈ control_jobs (tabs d) ++ [r]) in Hj. apply elem_of_app in Hj as [Hj|Hj]; [left|right].
  - exists j. split; [done|apply same_job_input_refl].
  - by apply list_elem_of_singleton in Hj as ->.
Qed.

Ltac jobs_leaf :=
  first
    [ apply jobs_update; by repeat split
    | open_statement; apply jobs_same; match goal with Hs : tabs _ = _ |- _ => rewrite Hs end; reflexivity ].

(** Only a submission adds jobs. *)
Lemma run_call_jobs c : (forall input idempotency, c <> CallCreatePreparedJob input idempotency) -> keeps (jobs_from P) (run_call c).
Proof using HP.
  intros Hc. destruct c; try (by destruct (Hc input idempotency)); cbn [run_call];
    unfold discard, CreateBuild, QueueJob, SyncJob, RequestJobCancellation, FailJob, FinishBuild, AcquireNextOperation, RequeueAdmittingOperation,
      ActivateOperation, BeginOperationCleanup, ClaimOperationCleanup, RecordOperationCleanupFailure, CompleteOperationCleanup,
      EmergencyStopActiveOperation, emergency_finish, CancelQueuedOperation, RenewOperationLease, expect_one, getJob, getBuild, OperationStateOf,
      or_not_found, randomID;
    repeat (keep_step || jobs_leaf).
Qed.

Lemma create_jobs input idempotency : (forall j, made_from input j -> P j) -> keeps (jobs_from P) (CreatePreparedJob input idempotency).
Proof using HP.
  intros Hi. unfold CreatePreparedJob, or_not_found, randomID.
  repeat first [keep_step | apply jobs_insert, Hi; by repeat split | jobs_leaf].
Qed.

Lemma run_identity_jobs `{Pepper} `{CaseTables} c : keeps (jobs_from P) (run_identity c).
Proof using. apply (keeps_weaken queue_frame); [|apply run_identity_frame]. intros d d' (E & _). by apply jobs_same. Qed.

End JobsFrom.

(** ** Requests *)

(** A dispatcher that adds no jobs. *)
Class JobsDispatcher (R : Type) `{ApiDispatcher R} : Prop := {
  jobs_RunOnce : keeps (store_rel (R := R) no_new_jobs) ad_RunOnce;
  jobs_Advance : keeps (store_rel (R := R) no_new_jobs) ad_Advance;
  jobs_Release : forall kind id, keeps (store_rel (R := R) no_new_jobs) (ad_Release kind id)
}.

Lemma no_new_jobs_from P d d' : no_new_jobs d d' -> jobs_from P d d'.
Proof. intros Hn j Hj. destruct (Hn j Hj) as [?|[]]. by left. Qed.

(** The server's dispatcher is one. *)
Lemma server_dispatcher_jobs {R : Type} `{Scheduler R} `{ErrorText} preparer Admit :
  (forall p operation, preparer = Some p -> keeps (store_rel (R := R) no_new_jobs) (p operation)) ->
  (forall guard m, Admit = Some guard -> keeps (store_rel (R := R) no_new_jobs) m -> keeps (store_rel (R := R) no_new_jobs) (guard m)) ->
  @JobsDispatcher R (server_dispatcher preparer Admit).
Proof.
  intros Hp Ha. assert (Hpre : PreOrder no_new_jobs) by (apply jobs_from_preorder; tauto).
  assert (Hcall : forall c, dispatched c = true -> keeps no_new_jobs (run_call c)).
  { intros c Hc. apply run_call_jobs; [tauto|]. by intros input idempotency ->. }
  split; cbn [ad_RunOnce ad_Advance ad_Release server_dispatcher].
  - by apply dispatch_keeps.
  - apply keeps_ret. by apply store_rel_preorder.
  - intros kind id. by apply release_keeps.
Qed.

Section Prepare.
Context {R : Type} `{Scheduler R} `{JobRuntime R} `{HD : ApiDispatcher R} `{HJ : !JobsDispatcher R} `{ErrorText} `{HPe : Pepper} `{HCa : CaseTables}
        `{AdmissionHash} `{X509} (config : ServerConfig).

Lemma submit_jobs principal project input key :
  keeps (store_rel (R := R) (jobs_from (made_from input))) (submit_job config principal project input key).
Proof using HJ HPe HCa.
  assert (Hpre : PreOrder (jobs_from (made_from input))) by (apply jobs_from_preorder, made_from_same).
  assert (Hcall : forall c, (forall input idempotency, c <> CallCreatePreparedJob input idempotency) -> keeps (jobs_from (made_from input)) (run_call c))
    by (intros c; apply run_call_jobs, made_from_same).
  assert (Hworld : forall A (m : M (Database * R) A), keeps (store_rel no_new_jobs) m -> keeps (store_rel (jobs_from (made_from input))) m)
    by (intros A m; apply keeps_weaken; intros w w'; apply no_new_jobs_from).
  unfold submit_job, dispatch, renew_preparing, jobPreparationConnection, fail, rpc.
  repeat first
    [ lazymatch goal with
      | |- keeps _ (CreatePreparedJob _ _) => apply create_jobs; [apply made_from_same|done]
      | |- keeps _ (Audit _ _ _ _ _) => exact (run_identity_jobs _ (CallAudit _ _ _ _ _))
      | |- keeps _ (FailJob _ _) => exact (keeps_discard _ _ (Hcall (CallFailJob _ _) ltac:(done)))
      | |- keeps _ (RenewOperationLease _ _) => exact (Hcall (CallRenewOperationLease _ _) ltac:(done))
      | |- keeps _ (getJob _) => unfold getJob; apply keeps_read; [apply _|]
      | |- keeps _ (OperationStateOf _ _) => unfold OperationStateOf; apply keeps_read; [apply _|]
      | |- keeps _ (Issue _ _ _) => apply keeps_issue; apply _
      | |- keeps _ ad_RunOnce => apply Hworld, jobs_RunOnce
      | |- keeps _ ad_Advance => apply Hworld, jobs_Advance
      | |- keeps _ (ad_Release _ _) => apply Hworld, jobs_Release
      end
    | world_step ].
Qed.

Lemma used_jobs P k d d' : used k d d' -> jobs_from P d d'.
Proof using. intros [->|(now & fd & ->)]; by apply jobs_same. Qed.

Lemma used_projects k d d' principal selector :
  used k d d' -> find_project selector d' = find_project selector d /\ forall p, may_access principal (tabs d') p = may_access principal (tabs d) p.
Proof using. by intros [->|(now & fd & ->)]. Qed.

(** The request may add this row: its caller may access the project it names,
    the image is the project's or an allowed override, and the submission is
    valid. *)
Definition may_submit (o : Oracle) (header : Header) (request : PrepareJobRequest) (d : Database) (j : JobRow) : Prop :=
  exists k admin project input, presents o header d k /\ tk_kind k <> PrincipalBrowser /\ token_admin (tabs d) k admin /\
    find_project (rq_Project request) d = Some project /\ may_access (principal_of k admin) (tabs d) project = true /\
    pp_ProjectID input = pj_ID project /\ choose_image project (rq_Image request) = inl (pp_Image input) /\
    valid_submission (sc_AllowUnpinnedImages config) input /\ made_from input j.

(** C21: every job in the database was validated.  Whatever the outcome of
    [PrepareJob], a job is an old one, with its submitted part unchanged, or it
    was made for a project that the presented credential may access, with the
    project's image or an override the project allows, from a submission that
    passed every check: a pinned image, a command and an environment without
    hidden secret references, a working directory that the entrypoint of the job
    resolves below its workspace, caches apart from the paths of the runtime,
    secrets with distinct targets below [/run/secrets], and a timeout within a
    day. *)
Theorem prepared_jobs_are_valid header request o d (r : R) :
  IdInv (tabs d) ->
  let added := jobs_from (may_submit o header request d) in
  wp o (PrepareJobRPC config header request) (fun _ w => added d w.1) (fun _ w => added d w.1) (d, r).
Proof using HJ.
  intros HI added. unfold PrepareJobRPC. apply wp_bind. eapply wp_mono; [by apply authenticate_spec| |].
  2:{ intros e [d' r'] (_ & _ & [E|(k & _ & _ & Hu)]); simpl in *; [rewrite E; by apply jobs_same|by apply (used_jobs _ k)]. }
  intros p [d1 r1] (k & admin & Hpr & Hk & Hadm & -> & Hu & _). simpl in Hu.
  assert (Hd1 : added d d1) by (by apply (used_jobs _ k)).
  apply wp_bind, wp_rpc. eapply wp_mono; [apply AuthorizeProject_spec| |].
  2:{ intros e d' [-> _]. exact Hd1. }
  intros project d' (-> & Hf & Ha). destruct (used_projects k d d1 (principal_of k admin) (rq_Project request) Hu) as [Ef Em].
  rewrite Ef in Hf. rewrite Em in Ha.
  destruct (lacks_capability _ _); [by apply wp_throw|]. destruct (choose_image _ _) as [image|e] eqn:Ei; [|by apply wp_throw].
  destruct (validateJob _ _ _) as [input|e] eqn:Ev; [|by apply wp_throw].
  apply validateJob_ok in Ev as (Epr & Eim & Hvalid & _). cbn [rq_Image rq_with_image] in Eim.
  assert (Hstep : forall w : Database * R, store_rel (jobs_from (made_from input)) (d1, r1) w -> added d w.1).
  { intros [d2 r2] Hj j Hin. destruct (Hj j Hin) as [(j1 & Hj1 & Hs1)|Hm].
    - simpl in Hj1. destruct (Hd1 j1 Hj1) as [(j0 & Hj0 & Hs0)|Hms]; [left; exists j0; split; [done|by eapply same_job_input_trans]|right].
      destruct Hms as (k' & a' & p' & i' & ?&?&?&?&?&?&?&?&Hmf). exists k', a', p', i'. do 8 (split; [done|]). by eapply made_from_same.
    - right. exists k, admin, project, input. rewrite Eim. do 8 (split; [done|]). done. }
  eapply wp_mono; [apply submit_jobs|intros a w; apply Hstep|intros e w; apply Hstep].
Qed.

End Prepare.

(** * The control API on a concrete server

    A database after the bootstrap of a user, a project and a token, and requests
    with that token, without one, and with a submission. *)

#[local] Existing Instance demo_scheduler.
#[local] Existing Instance demo_codec.
#[local] Existing Instance demo_pepper.
#[local] Instance server_text : ErrorText := {| error_text _ := "failed" |}.
#[local] Instance server_hash : AdmissionHash := {| admissionHash input := pp_ProjectID input +:+ pp_Image input; buildHash project := project |}.
#[local] Instance server_x509 : X509 := {| x5_ca := "ca"; x5_server := "server"; x5_certificate kind id _ _ _ := kind +:+ ":" +:+ id; x5_key _ := "key" |}.

#[local] Instance server_runtime : JobRuntime Services_state.
Proof.
  refine {| rn_ValidateImage _ := may_fail; rn_Status id := query (fun _ => mkRemoteJob id StatusRunning "" 0 None None false None "") |}.
  - intros o image r. by apply wp_may_fail.
  - intros o id r. by apply wp_query.
Defined.

#[local] Instance server_dispatch : ApiDispatcher Services_state := server_dispatcher None None.
#[local] Instance server_dispatch_good : GoodDispatcher Services_state.
Proof. by apply server_dispatcher_good. Qed.
#[local] Instance server_dispatch_jobs : JobsDispatcher Services_state.
Proof. by apply server_dispatcher_jobs. Qed.

(** Time advances by a second per reading; the dispatcher is never draining. *)
Definition server_oracle : Oracle := mkOracle (fun n => Z.of_nat n * Second) (fun n => 2 * Z.of_nat n) (fun _ => None).

Definition demo_bootstrap : Bootstrap := mkBootstrap "admin" "demo" "Demo" "laptop".

Definition server_db : Database := (run_identity (CallBootstrap demo_bootstrap) server_oracle (empty_database, 0%nat)).2.1.

Definition server_token : string :=
  match (BootstrapStore demo_bootstrap server_oracle (empty_database, 0%nat)).1 with Ok b => bo_Token b | Fail _ => "" end.

Definition server_header : Header := [("Authorization", ["Bearer " +:+ server_token])].
Definition server_config : ServerConfig := mkServerConfig "cas:443" "autback" "buildkit:443" (15 * Minute) false "" "".

Lemma server_reachable : control_reachable server_db.
Proof.
  unfold control_reachable, server_db. destruct (run_identity (CallBootstrap demo_bootstrap) server_oracle (empty_database, 0%nat)) as [r [d n]] eqn:E.
  apply rtc_once. by eapply step_identity.
Qed.



Definition server_outcome := PrepareJobRPC server_config server_header demo_request server_oracle ((server_db, [] : Services_state), 0%nat).

(** A submission makes the only job, which is valid and holds the worker. *)
Lemma prepared_jobs_are_valid_witness :
  abs (tabs server_outcome.2.1.1) = mkLease [] (Some ((OperationJob, "job1416181a1c1e20222426282a"), OperationAdmitting)) /\
  forall j, j ∈ control_jobs (tabs server_outcome.2.1.1) -> may_submit server_config server_oracle server_header demo_request server_db j.
Proof.
  split; [vm_compute; reflexivity|]. intros j Hj.
  pose proof (prepared_jobs_are_valid server_config server_header demo_request server_oracle server_db ([] : Services_state)
    (proj2 (control_reachable_inv _ server_reachable)) 0%nat) as Hv.
  assert (E0 : control_jobs (tabs server_db) = []) by (vm_compute; reflexivity).
  assert (Hw : jobs_from (may_submit server_config server_oracle server_header demo_request server_db) server_db server_outcome.2.1.1).
  { revert Hv. unfold server_outcome. destruct (PrepareJobRPC _ _ _ _ _) as [[a|e] [w n]]; intros Hv; exact Hv. }
  destruct (Hw j Hj) as [(j0 & Hj0 & _)|Hm]; [|exact Hm]. exfalso. rewrite E0 in Hj0. exact (proj1 (elem_of_nil j0) Hj0).
Defined.

(** ** A cancellation that loses its job *)

(** A runtime that does not answer for the status of a job. *)
Definition mute_runtime : JobRuntime Services_state.
Proof.
  refine {| rn_ValidateImage _ := may_fail; rn_Status _ := throw (ErrText "timeout") |}.
  - intros o image r. by apply wp_may_fail.
  - intros o id r. by apply wp_throw.
Defined.

Definition started_world : (Database * Services_state) * nat :=
  let w := (run_request server_config None (ReqPrepareJob demo_request) server_header server_oracle ((server_db, []), 0%nat)).2 in
  (run_request server_config None (ReqStartJob "job1416181a1c1e20222426282a" (of_bytes (repeat 97 64) +:+ "/1")) server_header server_oracle w).2.

(** [CancelJob] drops the error of [refreshJob] together with the job: when the
    runtime does not answer, the client gets the empty job, and the audit event
    names neither the job nor its project. *)
Lemma cancel_forgets_job :
  let '(answer, (w, _)) := CancelJobRPC (H0 := mute_runtime) server_header "job1416181a1c1e20222426282a" server_oracle started_world in
  answer = Ok zero_job /\
  (fun a => (au_action a, au_project_id a, au_target_id a)) <$> last (audit_events (tabs w.1)) = Some ("job.cancel", "", "").
Proof. vm_compute. split; reflexivity. Qed.
