(* ===== verification/Entrypoint.v ===== *)
(** * The entrypoint of a job

    [cmd/autback-job-entrypoint/main.go]: how it reads its environment, what
    environment the command of the job gets, and the status and exit code it ends
    with.  The redaction of the output and the durable log are in [Redact], the
    secrets in [Secrets], the working directory in [Validate]. *)
From Stdlib Require Import Ascii.
From S2P Require Import Prelude Model GoMonad GoLib GoStrings Encoding Retry.

(** ** The environment of the entrypoint *)

Definition defaultJobLogMaxBytes : Z := 256 * 1024 * 1024.

(** [AUTBACK_JOB_LOG_MAX_BYTES]. *)
Definition jobLogMaxBytes (value : string) : Z :=
  if bool_decide (value = "") then defaultJobLogMaxBytes else
  match Atoi value with
  | None => defaultJobLogMaxBytes
  | Some parsed => if parsed <? 1024 then defaultJobLogMaxBytes else parsed
  end.

(** [AUTBACK_HOST_UID] and [AUTBACK_HOST_GID]. *)
Definition hostIdentityFromEnvironment (uid gid : string) : (Z * Z) + Err :=
  match Atoi uid with
  | None => inr (ErrText "AUTBACK_HOST_UID must be a non-negative integer")
  | Some u =>
      if u <? 0 then inr (ErrText "AUTBACK_HOST_UID must be a non-negative integer") else
      match Atoi gid with
      | None => inr (ErrText "AUTBACK_HOST_GID must be a non-negative integer")
      | Some g => if g <? 0 then inr (ErrText "AUTBACK_HOST_GID must be a non-negative integer") else inl (u, g)
      end
  end.

(** [AUTBACK_TIMEOUT_MILLIS]; zero is no timeout. *)
Definition timeoutFromEnvironment (millis : string) : duration :=
  match Atoi millis with
  | None => 0
  | Some m => if m <? 1 then 0 else wrap64 (m * Millisecond)
  end.

(** ** The environment of the command *)

(** The key of an entry, if it has one. *)
Definition env_key (item : string) : option string := fst <$> cut "="%char item.

Definition mergeEnvironment (base overrides : list string) : list string :=
  let replaced := omap env_key overrides in
  select (fun item => match env_key item with Some key => negb (bool_decide (key ∈ replaced)) | None => true end) base ++ overrides.

(** What a process finds under a key: [os/exec] keeps the last entry. *)
Definition getenv (environment : list string) (key : string) : option string :=
  match last (select (fun item => bool_decide (env_key item = Some key)) environment) with
  | Some item => snd <$> cut "="%char item
  | None => None
  end.

(** ** The end of the job *)

Inductive ContextState := ContextAlive | DeadlineExceeded | ContextCancelled.

(** The status in the result and the exit code, after the command ran. *)
Definition entrypoint_result (ctx : ContextState) (ran : CommandResult) : string * Z :=
  match ctx with
  | DeadlineExceeded => ("timed_out", 124)
  | ContextCancelled => ("cancelled", 130)
  | ContextAlive =>
      match ran with
      | Exited 0 => ("succeeded", 0)
      | Exited code => ("failed", code)
      | NotRun _ => ("failed", 1)
      end
  end.

(** ** Secrets win *)

Lemma select_select {R} (p q : R -> bool) l : select p (select q l) = select (fun x => q x && p x) l.
Proof. unfold select. induction l as [|x l IH]; simpl; [done|]. destruct (q x); simpl; [destruct (p x); by rewrite IH|done]. Qed.

(** The command sees the value of every secret, and every other variable as it
    was. *)
Lemma secrets_override_environment base overrides key :
  getenv (mergeEnvironment base overrides) key =
    if bool_decide (Some key ∈ map env_key overrides) then getenv overrides key else getenv base key.
Proof.
  unfold getenv, mergeEnvironment. rewrite select_app.
  assert (Hin : forall k, k ∈ omap env_key overrides <-> Some k ∈ map env_key overrides).
  { intros k. rewrite list_elem_of_omap, list_elem_of_fmap. naive_solver. }
  case_bool_decide as Hk.
  - assert (Hne : select (fun item => bool_decide (env_key item = Some key)) overrides <> []).
    { intros E. apply list_elem_of_fmap in Hk as (item & Ek & Hi). pose proof (select_nil _ _ E item Hi) as Hf. apply bool_decide_eq_false in Hf. congruence. }
    rewrite last_app. destruct (last (select _ overrides)) as [item|] eqn:E; [done|]. by apply last_None in E.
  - assert (E : select (fun item => bool_decide (env_key item = Some key)) overrides = []).
    { destruct (select _ overrides) as [|item l] eqn:E; [done|]. exfalso. apply Hk. apply list_elem_of_fmap. exists item.
      assert (Hi : item ∈ select (fun item => bool_decide (env_key item = Some key)) overrides) by (rewrite E; constructor).
      apply elem_of_select in Hi as [Hi Hb]. apply bool_decide_eq_true in Hb. done. }
    rewrite E, app_nil_r. rewrite select_select.
    rewrite (select_ext _ (fun item => bool_decide (env_key item = Some key)) base); [done|].
    intros item _. case_bool_decide as Eb; [|by rewrite andb_false_r].
    rewrite Eb, (bool_decide_eq_false_2 (key ∈ _)); [done|]. by rewrite Hin.
Qed.
