(* ===== verification/LogStream.v ===== *)
(** * Streaming the log of a job

    [StreamJobLogs] and [followJob] of [internal/control/controlapi/server.go]
    with their writers, and the client's [waitServiceJob] of
    [internal/cli/service.go], which reconnects at the offset it has reached.
    The stream is a list of the messages that were sent. *)
From S2P Require Import Prelude Model GoMonad GoLib GoStrings Table Schema JobStore Identity Reads Coordinator Dispatcher ControlAPI Retry.

(** ** Writers *)

Record LogMessage := mkLogMessage { lm_Data : list Z; lm_NextOffset : Z; lm_TerminalJob : option JobPB }.

(** [offsetWriter.remaining], [streamWriter.offset], and the messages sent. *)
Record LogStream := mkLogStream { st_remaining : Z; st_offset : Z; st_sent : list LogMessage }.

Definition length64 (l : list Z) : Z := Z.of_nat (length l).

Definition stream_Send (message : LogMessage) : M LogStream unit :=
  statement (fun s => Ok (tt, mkLogStream (st_remaining s) (st_offset s) (st_sent s ++ [message]))).

Definition set_offset (offset : Z) : M LogStream unit :=
  s ← get_db; put_db (mkLogStream (st_remaining s) offset (st_sent s)).
Definition set_remaining (remaining : Z) : M LogStream unit :=
  s ← get_db; put_db (mkLogStream remaining (st_offset s) (st_sent s)).

(** [streamWriter.Write]. *)
Definition stream_Write (data : list Z) : M LogStream Z :=
  s ← get_db;
  let offset := wrap64 (st_offset s + length64 data) in
  _ ← set_offset offset;
  sent ← attempt (stream_Send (mkLogMessage data offset None));
  match sent with
  | Ok _ => mret (length64 data)
  | Fail e => _ ← set_offset (wrap64 (offset - length64 data)); throw e
  end.

(** [offsetWriter.Write]. *)
Definition offset_Write (data : list Z) : M LogStream Z :=
  s ← get_db;
  if length64 data <=? st_remaining s then
    _ ← set_remaining (st_remaining s - length64 data);
    mret (length64 data)
  else
    let rest := drop (Z.to_nat (st_remaining s)) data in
    _ ← set_remaining 0;
    _ ← stream_Write rest;
    mret (length64 data).

(** A source of logs hands its chunks to the output until one is refused. *)
Fixpoint deliver (filtered : bool) (chunks : list (list Z)) : M LogStream unit :=
  match chunks with
  | [] => mret tt
  | data :: rest => _ ← (if filtered then offset_Write data else stream_Write data); deliver filtered rest
  end.

(** ** The server *)

(** [Scheduler.Logs]: the chunks the log is read in, and the error its reading
    ends with. *)
Class LogSource (R : Type) := { ls_Logs : string -> bool -> M R (list (list Z) * option Err) }.

Section Server.
Context {R : Type} `{Scheduler R} `{JobRuntime R} `{ApiDispatcher R} `{ErrorText} `{Pepper} `{CaseTables} `{CursorCodec} `{LogSource R}.
#[local] Abbreviation SessionM := (M ((Database * R) * LogStream)).

(** [Logs] into the output of the session. *)
Definition session_Logs (id : string) (follow filtered : bool) : SessionM (option Err) :=
  '(chunks, e) ← on_store (on_runtime (ls_Logs id follow));
  written ← attempt (on_runtime (deliver filtered chunks));
  mret match written with Fail e' => Some e' | Ok _ => e end.

Definition canceled {A : Type} : SessionM A := throw (ErrConnect CodeCanceled (ErrText "context canceled")).

(** Waiting for the operation to become active.  [polls] is the number of ticks
    before the context ends.  The flag says whether the job runs. *)
Fixpoint await_active (polls : nat) (job : Job) : SessionM (Job * bool) :=
  match polls with
  | O => canceled
  | S polls' =>
      state ← attempt (on_store (on_store (OperationStateOf OperationJob (jb_ID job))));
      match state with
      | Ok OperationActive => mret (job, true)
      | Ok _ | Fail ErrNotFound =>
          job ← on_store (refresh_rpc job);
          if Terminal (jb_Status job) then mret (job, false) else
          cancelled ← ctx_Err;
          if bool_decide (cancelled = None) then await_active polls' job else canceled
      | Fail e => throw (connectError e)
      end
  end.

(** What the [select] of the second loop receives: the end of the context, the
    end of the log, or a tick. *)
Inductive SelectCase := CtxDone | LogsDone | Tick.
Definition select_case : SessionM SelectCase := fun o '(w, n) =>
  (Ok (match o_rand o n mod 3 with 0 => CtxDone | 1 => LogsDone | _ => Tick end), (w, S n)).

(** Polling until the job is terminal; [logsDone] is what the channel of the log
    holds, if it is still open. *)
Fixpoint poll_terminal (polls : nat) (job : Job) (logsDone : option (option Err)) : SessionM Job :=
  match polls with
  | O => canceled
  | S polls' =>
      job ← on_store (refresh_rpc job);
      if Terminal (jb_Status job) then mret job else
      case ← select_case;
      match case, logsDone with
      | CtxDone, _ => canceled
      | LogsDone, Some (Some e) =>
          cancelled ← ctx_Err;
          if bool_decide (cancelled = None) then throw (ErrConnect CodeUnavailable e) else poll_terminal polls' job None
      | LogsDone, Some None => poll_terminal polls' job None
      | LogsDone, None | Tick, _ => poll_terminal polls' job logsDone
      end
  end.

(** [followJob].  The goroutine that copies the log writes to the stream only,
    and has ended when the function returns. *)
Definition followJob (polls : nat) (job : Job) (filtered : bool) : SessionM Job :=
  '(job, active) ← await_active polls job;
  if active : bool then
    logs ← session_Logs (jb_ID job) true filtered;
    poll_terminal polls job (Some logs)
  else mret job.

Definition StreamJobLogsRPC (polls : nat) (header : Header) (id : string) (offset : Z) : SessionM unit :=
  if offset <? 0 then throw (ErrConnect CodeInvalidArgument (ErrText "log offset cannot be negative")) else
  principal ← on_store (authenticate header);
  job ← on_store (authorizedJob principal id);
  _ ← on_runtime (put_db (mkLogStream offset offset []));
  let filtered := 0 <? offset in
  job ← (if bool_decide (jb_Status job = StatusPreparing) then mret job else
         if Terminal (jb_Status job) then
           e ← session_Logs (jb_ID job) false filtered;
           match e with
           | None => mret job
           | Some e => cancelled ← ctx_Err; if bool_decide (cancelled = None) then throw (ErrConnect CodeUnavailable e) else mret job
           end
         else followJob polls job filtered);
  s ← on_runtime get_db;
  let nextOffset := if bool_decide (jb_Status job = StatusPreparing) then offset else st_offset s in
  on_runtime (stream_Send (mkLogMessage [] nextOffset (Some (jobProto job)))).

End Server.

(** ** The client *)

Definition protocolStatus (s : JobStatusPB) : Status :=
  match s with
  | JOB_STATUS_PREPARING => StatusPreparing
  | JOB_STATUS_QUEUED => StatusQueued
  | JOB_STATUS_RUNNING => StatusRunning
  | JOB_STATUS_SUCCEEDED => StatusSucceeded
  | JOB_STATUS_FAILED => StatusFailed
  | JOB_STATUS_CANCELLED => StatusCancelled
  | JOB_STATUS_TIMED_OUT => StatusTimedOut
  | JOB_STATUS_LOST => StatusLost
  | JOB_STATUS_UNSPECIFIED => StatusLost
  end.

(** [clientExitCode] of [protocolJob]. *)
Definition clientExitCode (job : JobPB) : Z :=
  match jp_ExitCode job with
  | Some code => code
  | None => if bool_decide (protocolStatus (jp_Status job) = StatusSucceeded) then 0 else 1
  end.

(** The state of [waitServiceJob]: the offset, what was printed, and the
    terminal job. *)
Record Follower := mkFollower { fo_offset : Z; fo_printed : list Z; fo_terminal : option JobPB }.

(** One message of a stream. *)
Definition receive (f : Follower) (m : LogMessage) : Follower :=
  mkFollower (if fo_offset f <=? lm_NextOffset m then lm_NextOffset m else fo_offset f) (fo_printed f ++ lm_Data m)
    (match lm_TerminalJob m with Some job => Some job | None => fo_terminal f end).

(** What one connection gives the client: the messages that arrive, and the error
    the stream ends with. *)
Record Connection := mkLogConnection { cn_messages : list LogMessage; cn_err : option Err }.

Definition is_unavailable (e : Err) : bool := match e with ErrConnect CodeUnavailable _ => true | _ => false end.

Inductive WaitOutcome := WaitExit (code : Z) | WaitFailed.

(** [waitServiceJob], over the connections it makes, each at the offset reached
    before; no outcome when they do not suffice.  A cancelled context and an
    output that refuses data end like a failure and are not modelled separately. *)
Fixpoint waitServiceJob (connect : nat -> Z -> Connection) (attempts : nat) (f : Follower) : option WaitOutcome * Follower :=
  match fo_terminal f with
  | Some job => (Some (WaitExit (clientExitCode job)), f)
  | None =>
      match attempts with
      | O => (None, f)
      | S attempts' =>
          let c := connect attempts' (fo_offset f) in
          let f := fold_left receive (cn_messages c) f in
          match fo_terminal f, cn_err c with
          | Some job, _ => (Some (WaitExit (clientExitCode job)), f)
          | None, Some e => if is_unavailable e then waitServiceJob connect attempts' f else (Some WaitFailed, f)
          | None, None => waitServiceJob connect attempts' f
          end
      end
  end.
