(* ===== verification/LogTheorems.v ===== *)
(** * A follower prints the log once

    The offsets of the stream are positions in the log, so a client that loses
    its connection and comes back at its offset prints every byte once. *)

From S2P Require Import Prelude Model GoMonad GoLib Table Schema JobStore GoStrings Identity IdentityTheorems Reads ReadTheorems Coordinator Dispatcher DispatchTheorems Retry ValidateTheorems ControlAPI ApiSystem ApiTheorems ApiJobs LogStream.

(** ** Streams *)

(** Every message says the position behind its data. *)
Fixpoint framed (offset : Z) (messages : list LogMessage) : Prop :=
  match messages with
  | [] => True
  | m :: rest => lm_NextOffset m = offset + length64 (lm_Data m) /\ framed (lm_NextOffset m) rest
  end.

Definition payload (messages : list LogMessage) : list Z := concat (map lm_Data messages).

(** The messages carry a part of the log from an offset on. *)
Definition session_ok (log : list Z) (offset : Z) (messages : list LogMessage) : Prop :=
  framed offset messages /\ payload messages `prefix_of` drop (Z.to_nat offset) log.

Lemma payload_app a b : payload (a ++ b) = payload a ++ payload b.
Proof. unfold payload. by rewrite map_app, concat_app. Qed.

Lemma payload_one m : payload [m] = lm_Data m.
Proof. unfold payload. cbn [map concat]. apply app_nil_r. Qed.

Lemma framed_app offset a b : framed offset (a ++ b) <-> framed offset a /\ framed (offset + length64 (payload a)) b.
Proof.
  unfold length64. revert offset. induction a as [|m a IH]; intros offset; simpl; [by rewrite Z.add_0_r; tauto|].
  rewrite IH. unfold payload. cbn [map concat]. rewrite length_app, Nat2Z.inj_add. unfold length64. split.
  - intros (E & H1 & H2). rewrite E in *. split; [done|]. by replace (offset + _) with (offset + Z.of_nat (length (lm_Data m)) + Z.of_nat (length (concat (map lm_Data a)))) by lia.
  - intros ((E & H1) & H2). rewrite E in *. split; [done|]. split; [done|].
    by replace (offset + Z.of_nat (length (lm_Data m)) + Z.of_nat (length (concat (map lm_Data a)))) with (offset + (Z.of_nat (length (lm_Data m)) + Z.of_nat (length (concat (map lm_Data a))))) by lia.
Qed.

Lemma session_prefix log offset a b : a `prefix_of` b -> session_ok log offset b -> session_ok log offset a.
Proof.
  intros [k ->] [Hf Hp]. apply framed_app in Hf as [Hf _]. split; [done|]. rewrite payload_app in Hp. by apply prefix_app_l in Hp.
Qed.

(** ** The server *)

Section Writers.
Context (o : Oracle) (log : list Z) (offset : Z).
Context (Hlog : Z.of_nat (length log) < 2 ^ 62) (Hoffset : 0 <= offset < 2 ^ 62).

(** The stream after the first [consumed] bytes of the log. *)
Definition streamed (consumed : nat) (s : LogStream) : Prop :=
  (consumed <= length log)%nat /\ framed offset (st_sent s) /\
  payload (st_sent s) = drop (Z.to_nat offset) (take consumed log) /\
  st_offset s = offset + length64 (payload (st_sent s)) /\
  st_remaining s = Z.max 0 (offset - Z.of_nat consumed).

Lemma streamed_session consumed s : streamed consumed s -> session_ok log offset (st_sent s).
Proof using.
  intros (Hc & Hf & Hp & _). split; [done|]. rewrite Hp. exists (drop (Z.to_nat offset - length (take consumed log)) (drop consumed log)).
  rewrite <- drop_app. by rewrite take_drop.
Qed.

(** A stream that can be closed. *)
Definition ready (s : LogStream) : Prop := session_ok log offset (st_sent s) /\ st_offset s = offset + length64 (payload (st_sent s)).

Lemma streamed_ready consumed s : streamed consumed s -> ready s.
Proof using. intros Hs. split; [by eapply streamed_session|]. by destruct Hs as (_ & _ & _ & ? & _). Qed.

(** The stream when nothing was written. *)
Lemma sending_start : streamed 0 (mkLogStream offset offset []).
Proof using Hoffset.
  unfold streamed, payload, length64. cbn. rewrite take_0, drop_nil. split; [lia|]. split; [done|]. split; [done|]. lia.
Qed.

Lemma wp_stream_Write data s (Q : Z -> LogStream -> Prop) E :
  0 <= st_offset s -> st_offset s + length64 data < 2 ^ 63 ->
  Q (length64 data) (mkLogStream (st_remaining s) (st_offset s + length64 data) (st_sent s ++ [mkLogMessage data (st_offset s + length64 data) None])) ->
  (forall e, E e s) -> wp o (stream_Write data) Q E s.
Proof using.
  clear log offset Hlog Hoffset. intros H0 H1 HQ HE. unfold stream_Write. wp_step. apply wp_get_db. cbv zeta. unfold length64 in *. rewrite (wrap64_id (st_offset s + _)) by lia.
  wp_step. unfold set_offset. wp_step. apply wp_get_db. apply wp_put_db. wp_step. wp_step. unfold stream_Send. apply wp_statement.
  - apply wp_ret. exact HQ.
  - intros x _. wp_step. wp_step. apply wp_get_db. apply wp_put_db. apply wp_throw. cbn [st_remaining st_sent st_offset].
    replace (wrap64 (st_offset s + Z.of_nat (length data) - Z.of_nat (length data))) with (st_offset s) by (rewrite wrap64_id; lia).
    destruct s. apply HE.
Qed.

(** The next chunk of the log. *)
Lemma streamed_step consumed data s :
  (take consumed log ++ data) `prefix_of` log -> streamed consumed s ->
  let sent := drop (Z.to_nat (st_remaining s)) data in
  take (consumed + length data) log = take consumed log ++ data /\ (consumed + length data <= length log)%nat /\
  drop (Z.to_nat offset) (take (consumed + length data) log) = payload (st_sent s) ++ sent.
Proof using Hoffset.
  intros [k Hk] (Hc & Hf & Hp & Ho & Hr) sent.
  assert (Hlen : length (take consumed log) = consumed) by (rewrite length_take; lia).
  assert (Et : take (consumed + length data) log = take consumed log ++ data).
  { rewrite Hk at 1. rewrite take_app_le by (rewrite length_app; lia). apply take_ge. rewrite length_app. lia. }
  split; [done|]. split; [apply (f_equal (@length Z)) in Hk; rewrite !length_app in Hk; lia|].
  rewrite Et, drop_app, Hp, Hlen. f_equal. subst sent. rewrite Hr. f_equal. lia.
Qed.

Lemma wp_output consumed data s (Q : Z -> LogStream -> Prop) E :
  (take consumed log ++ data) `prefix_of` log -> streamed consumed s ->
  (forall n s', streamed (consumed + length data) s' -> Q n s') -> (forall e s', ready s' -> E e s') ->
  wp o (if 0 <? offset then offset_Write data else stream_Write data) Q E s.
Proof using Hoffset Hlog.
  intros Hpre Hst HQ HE. destruct (streamed_step consumed data s Hpre Hst) as (Et & Hle & Ed).
  pose proof (streamed_ready _ _ Hst) as Hs. destruct Hst as (Hc & Hf & Hp & Ho & Hr).
  assert (Hpay : length64 (payload (st_sent s)) <= Z.of_nat (length log)).
  { unfold length64. rewrite Hp, length_drop, length_take. clear. lia. }
  assert (Hd : Z.of_nat (length data) <= Z.of_nat (length log)) by lia. unfold length64 in *.
  (* the stream after the part of the chunk behind the offset *)
  assert (Hsent : forall rest remaining, rest = drop (Z.to_nat (st_remaining s)) data -> remaining = Z.max 0 (offset - Z.of_nat (consumed + length data)) ->
            streamed (consumed + length data)
              (mkLogStream remaining (st_offset s + Z.of_nat (length rest)) (st_sent s ++ [mkLogMessage rest (st_offset s + Z.of_nat (length rest)) None]))).
  { intros rest remaining -> ->. unfold streamed. cbn [st_sent st_offset st_remaining]. rewrite payload_app, payload_one, framed_app, Ed.
    cbn [lm_Data]. split; [done|]. split; [|split; [done|]]; [|split; [|done]].
    - split; [done|]. cbn [framed lm_NextOffset lm_Data]. unfold length64. split; [lia|done].
    - unfold length64. rewrite length_app. lia. }
  destruct (0 <? offset) eqn:Ef; split_bools.
  - unfold offset_Write. wp_step. apply wp_get_db. unfold length64. destruct (Z.of_nat (length data) <=? st_remaining s) eqn:El; split_bools.
    + wp_step. unfold set_remaining. wp_step. apply wp_get_db. apply wp_put_db. apply wp_ret. apply HQ. unfold streamed. cbn [st_sent st_offset st_remaining].
      split; [done|]. split; [done|]. split; [|unfold length64; split; [done|lia]].
      rewrite Ed, (drop_ge data) by lia. by rewrite app_nil_r.
    + cbv zeta. wp_step. unfold set_remaining. wp_step. apply wp_get_db. apply wp_put_db. wp_step. apply wp_stream_Write; cbn [st_offset st_remaining st_sent].
      * lia.
      * unfold length64. rewrite length_drop. lia.
      * apply wp_ret, HQ. apply Hsent; [done|]. lia.
      * intros e. by apply HE.
  - assert (offset = 0) by lia. assert (Er : st_remaining s = 0) by lia. apply wp_stream_Write; [lia|unfold length64; lia| |by intros e; apply HE].
    apply HQ. apply Hsent; [by rewrite Er|lia].
Qed.

Lemma wp_deliver chunks : forall consumed s,
  (take consumed log ++ concat chunks) `prefix_of` log -> streamed consumed s ->
  wp o (deliver (0 <? offset) chunks) (fun _ s' => streamed (consumed + length (concat chunks)) s') (fun _ s' => ready s') s.
Proof using Hoffset Hlog.
  induction chunks as [|data chunks IH]; intros consumed s Hpre Hst; cbn [deliver concat].
  { apply wp_ret. by rewrite Nat.add_0_r. }
  cbn [concat] in Hpre. rewrite (assoc_L (++)) in Hpre. wp_step. apply (wp_output consumed); [by apply prefix_app_l in Hpre|done| |done].
  intros n s' Hs'. destruct (streamed_step consumed data s) as (Et & _); [by apply prefix_app_l in Hpre|done|].
  rewrite length_app, Nat.add_assoc. apply IH; [by rewrite Et|done].
Qed.

End Writers.

(** ** Answers *)

(** The answers of a program, whatever it does to its state. *)
Definition answers {W A : Type} (o : Oracle) (P : A -> Prop) (m : M W A) : Prop := forall w, wp o m (fun a _ => P a) (fun _ _ => True) w.

Section Answers.
Context (o : Oracle).

Lemma answers_bind {W A B} (P : B -> Prop) (m : M W A) (k : A -> M W B) : (forall a, answers o P (k a)) -> answers o P (m ≫= k).
Proof using. intros Hk w. wp_step. intros n. destruct (m o (w, n)) as [[a|e] [w' n']]; [apply Hk|done]. Qed.

Lemma answers_bind' {W A B} (P : A -> Prop) (Q : B -> Prop) (m : M W A) (k : A -> M W B) :
  answers o P m -> (forall a, P a -> answers o Q (k a)) -> answers o Q (m ≫= k).
Proof using. intros Hm Hk w. wp_step. eapply wp_mono; [apply Hm| |done]. intros a w' Ha. by apply Hk. Qed.

Lemma answers_ret {W A} (P : A -> Prop) (a : A) : P a -> answers (W := W) o P (mret a).
Proof using. intros HP w. by apply wp_ret. Qed.
Lemma answers_throw {W A} (P : A -> Prop) e : answers (W := W) o P (throw e).
Proof using. intros w. by apply wp_throw. Qed.

Lemma answers_store {D R A} (P : A -> Prop) (m : M D A) : answers o P m -> answers o P (on_store (R := R) m).
Proof using. intros Hm [d r]. apply wp_on_store. apply Hm. Qed.

Lemma answers_attempt {W A} (P : A -> Prop) (m : M W A) : answers o P m -> answers o (fun r => match r with Ok a => P a | Fail _ => True end) (attempt m).
Proof using. intros Hm w. wp_step. apply Hm. Qed.

Lemma answers_getJob id : answers o (fun j => jb_ID j = id) (getJob id).
Proof using.
  intros d. unfold getJob, or_not_found. repeat wp_step; [|intros; by apply wp_throw].
  unfold find_job. destruct (head (select _ _)) as [r|] eqn:E; [|by apply wp_throw]. apply wp_ret.
  assert (Hin : r ∈ select (fun r => bool_decide (jr_id r = id)) (control_jobs (tabs d))) by (destruct (select _ _); [done|]; injection E as ->; constructor).
  apply elem_of_select in Hin as [_ Hin]. by apply bool_decide_eq_true in Hin.
Qed.

Lemma answers_SyncJob id remote : answers o (fun j => jb_ID j = id) (SyncJob id remote).
Proof using. unfold SyncJob. repeat first [apply answers_getJob | apply answers_bind; intros ?]. Qed.

Context {R : Type} `{JobRuntime R} `{ApiDispatcher R}.

Lemma answers_refresh job : answers o (fun j => jb_ID j = jb_ID job) (refresh_rpc (R := R) job).
Proof using.
  unfold refresh_rpc. eapply answers_bind'; [apply (answers_attempt (fun j => jb_ID j = jb_ID job))|].
  - unfold refreshJob. destruct (_ || _); [by apply answers_ret|]. apply answers_bind. intros state.
    assert (Hsync : answers o (fun j => jb_ID j = jb_ID job) (remote ← on_runtime (rn_Status (jb_ID job)); job ← on_store (SyncJob (jb_ID job) remote);
              _ ← (if Terminal (jb_Status job) then ad_Advance else mret tt); mret job : M (Database * R) Job)).
    { apply answers_bind. intros remote. eapply answers_bind'; [apply answers_store, answers_SyncJob|]. intros j Hj. apply answers_bind. intros _. by apply answers_ret. }
    destruct state as [[]|[]]; try exact Hsync; try (by apply answers_ret); apply answers_throw.
  - intros [j|e] Hj; [by apply answers_ret|apply answers_throw].
Qed.

End Answers.

(** ** Sessions *)

Section Sessions.
Context {R : Type} `{Scheduler R} `{JobRuntime R} `{ApiDispatcher R} `{ErrorText} `{Pepper} `{CaseTables} `{CursorCodec} `{LogSource R}.
Context (o : Oracle) (log : list Z) (offset : Z) (id : string).
Context (Hlog : Z.of_nat (length log) < 2 ^ 62) (Hoffset : 0 <= offset < 2 ^ 62).
#[local] Abbreviation Session := ((Database * R) * LogStream)%type.

(** The program does not write to the stream. *)
Definition quiet {A} (m : M Session A) : Prop := forall w s, wp o m (fun _ w' => w'.2 = s) (fun _ w' => w'.2 = s) (w, s).

Lemma quiet_store {A} (m : M (Database * R) A) : quiet (on_store m).
Proof using. intros w s n. unfold on_store. by destruct (m o (w, n)) as [[a|e] [w' n']]. Qed.

Lemma wp_quiet {A} (m : M Session A) (Q : A -> Session -> Prop) (E : Err -> Session -> Prop) w s :
  quiet m -> (forall a w', Q a (w', s)) -> (forall e w', E e (w', s)) -> wp o m Q E (w, s).
Proof using.
  intros Hq HQ HE. eapply wp_mono; [apply Hq| |]; intros a [w' s'] E'; simpl in E'; subst s'; [apply HQ|apply HE].
Qed.

Lemma quiet_bind {A B} (m : M Session A) (k : A -> M Session B) : quiet m -> (forall a, quiet (k a)) -> quiet (m ≫= k).
Proof using. intros Hm Hk w s. wp_step. apply wp_quiet; [done| |done]. intros a w'. apply Hk. Qed.

Lemma quiet_attempt {A} (m : M Session A) : quiet m -> quiet (attempt m).
Proof using. intros Hm w s. wp_step. by apply wp_quiet. Qed.

Lemma quiet_ctx : quiet ctx_Err.
Proof using. intros w s. unfold ctx_Err. repeat wp_step; [done|]. intros x _. by apply wp_ret. Qed.

Lemma quiet_ret {A} (a : A) : quiet (mret a).
Proof using. intros w s. by apply wp_ret. Qed.
Lemma quiet_throw {A} e : quiet (throw (A := A) e).
Proof using. intros w s. by apply wp_throw. Qed.
Lemma quiet_select : quiet select_case.
Proof using. intros w s n. done. Qed.

Ltac quiet_step :=
  match goal with
  | |- quiet (on_store _) => apply quiet_store
  | |- quiet ctx_Err => apply quiet_ctx
  | |- quiet select_case => apply quiet_select
  | |- quiet (mret _) => apply quiet_ret
  | |- quiet (throw _) => apply quiet_throw
  | |- quiet canceled => apply quiet_throw
  | |- quiet (attempt _) => apply quiet_attempt
  | |- quiet (_ ≫= _) => apply quiet_bind; [|intros ?]
  | |- quiet (match _ with _ => _ end) => case_match
  end.

Lemma quiet_await polls job : quiet (await_active polls job).
Proof using. revert job. induction polls as [|polls IH]; intros job; cbn [await_active]; repeat quiet_step; apply IH. Qed.

Lemma quiet_poll polls job logsDone : quiet (poll_terminal polls job logsDone).
Proof using. revert job logsDone. induction polls as [|polls IH]; intros job logsDone; cbn [poll_terminal]; repeat quiet_step; apply IH. Qed.

Context (Hsource : forall o follow r, wp o (ls_Logs id follow) (fun c _ => concat c.1 `prefix_of` log) (fun _ _ => True) r).

Lemma session_Logs_spec follow w :
  wp o (session_Logs id follow (0 <? offset)) (fun _ w' => ready log offset w'.2) (fun _ w' => ready log offset w'.2) (w, mkLogStream offset offset []).
Proof using Hlog Hoffset Hsource.
  pose proof (sending_start log offset Hoffset) as Hst. unfold session_Logs. wp_step. destruct w as [d r]. apply wp_on_store, wp_on_runtime.
  eapply wp_mono; [apply Hsource| |]; [|intros; eapply streamed_ready, Hst]. intros [chunks e] r' Hc. simpl in Hc. wp_step. wp_step. apply wp_on_runtime.
  eapply wp_mono; [apply (wp_deliver o log offset Hlog Hoffset chunks 0); [by rewrite take_0|done]| |]; intros a s' Hs; apply wp_ret; [eapply streamed_ready, Hs|exact Hs].
Qed.

Lemma answers_await polls job : jb_ID job = id -> answers o (fun p => jb_ID p.1 = id) (await_active (R := R) polls job).
Proof using.
  revert job. induction polls as [|polls IH]; intros job Hid; cbn [await_active]; [apply answers_throw|]. apply answers_bind. intros state.
  assert (Hloop : answers o (fun p => jb_ID p.1 = id) (job ← on_store (refresh_rpc job);
          if Terminal (jb_Status job) then mret (job, false) else
          cancelled ← ctx_Err;
          if bool_decide (cancelled = None) then await_active polls job else canceled : M Session (Job * bool))).
  { eapply answers_bind'; [apply answers_store, answers_refresh|]. intros j Hj. rewrite Hid in Hj. destruct (Terminal _); [by apply answers_ret|].
    apply answers_bind. intros c. case_bool_decide; [by apply IH|apply answers_throw]. }
  destruct state as [[]|[]]; try exact Hloop; try (by apply answers_ret); apply answers_throw.
Qed.

Lemma answers_await' polls job : answers o (fun p => p.2 = false -> Terminal (jb_Status p.1) = true) (await_active (R := R) polls job).
Proof using.
  revert job. induction polls as [|polls IH]; intros job; cbn [await_active]; [apply answers_throw|]. apply answers_bind. intros state.
  assert (Hloop : answers o (fun p => p.2 = false -> Terminal (jb_Status p.1) = true) (job ← on_store (refresh_rpc job);
          if Terminal (jb_Status job) then mret (job, false) else
          cancelled ← ctx_Err;
          if bool_decide (cancelled = None) then await_active polls job else canceled : M Session (Job * bool))).
  { apply answers_bind. intros j. destruct (Terminal _) eqn:Et; [by apply answers_ret|].
    apply answers_bind. intros c. case_bool_decide; [by apply IH|apply answers_throw]. }
  destruct state as [[]|[]]; try exact Hloop; try (by apply answers_ret); apply answers_throw.
Qed.

Lemma followJob_spec polls job w : jb_ID job = id ->
  wp o (followJob polls job (0 <? offset)) (fun _ w' => ready log offset w'.2) (fun _ w' => ready log offset w'.2) (w, mkLogStream offset offset []).
Proof using Hlog Hoffset Hsource.
  intros Hid. pose proof (sending_start log offset Hoffset) as Hst. unfold followJob. wp_step.
  eapply wp_mono; [apply wp_and; [apply (quiet_await polls job w (mkLogStream offset offset []))|apply (answers_await polls job Hid)]| |].
  - intros [j active] [w' s'] [Es Hj]. simpl in Es, Hj. subst s'. destruct active; [|apply wp_ret; eapply streamed_ready, Hst].
    wp_step. rewrite Hj. eapply wp_mono; [apply session_Logs_spec| |done]. intros logs [w1 s1] Hr. apply wp_quiet; [apply quiet_poll|done|done].
  - intros e [w' s'] [Es _]. simpl in Es. subst s'. eapply streamed_ready, Hst.
Qed.

(** A job that is followed is followed to its end. *)
Lemma answers_follow polls job filtered : answers o (fun j => Terminal (jb_Status j) = true) (followJob (R := R) polls job filtered).
Proof using.
  assert (Hpoll : forall polls job logsDone, answers o (fun j => Terminal (jb_Status j) = true) (poll_terminal (R := R) polls job logsDone)).
  { clear. induction polls as [|polls IH]; intros job logsDone; cbn [poll_terminal]; [apply answers_throw|]. apply answers_bind. intros j.
    destruct (Terminal (jb_Status j)) eqn:Et; [by apply answers_ret|]. apply answers_bind. intros case.
    destruct case, logsDone as [[e|]|]; try apply answers_throw; try apply IH. apply answers_bind. intros c.
    case_bool_decide; [apply answers_throw|apply IH]. }
  unfold followJob. eapply answers_bind'; [apply (answers_await' polls job)|]. intros [j active] Hj. destruct active; [|by apply answers_ret, Hj].
  apply answers_bind. intros logs. apply Hpoll.
Qed.

Lemma StreamJobLogs_spec polls header w s :
  st_sent s = [] ->
  wp o (StreamJobLogsRPC polls header id offset) (fun _ w' => session_ok log offset (st_sent w'.2)) (fun _ w' => session_ok log offset (st_sent w'.2)) (w, s).
Proof using Hlog Hoffset Hsource.
  intros Hs. pose proof (sending_start log offset Hoffset) as Hst. assert (Hnil : session_ok log offset []) by (split; [done|apply prefix_nil]).
  unfold StreamJobLogsRPC. rewrite (proj2 (Z.ltb_ge offset 0)) by lia. wp_step. apply wp_quiet; [apply quiet_store| |]; [|intros e w'; simpl; by rewrite Hs].
  intros principal w1. wp_step.
  eapply wp_mono; [apply wp_and; [apply (quiet_store (authorizedJob principal id) w1 s)|apply (answers_store o (fun j => jb_ID j = id))]| |].
  { unfold authorizedJob, rpc. eapply answers_bind'; [eapply (answers_bind' o _ (fun j => jb_ID j = id)); [apply answers_attempt, answers_store, answers_getJob|]|].
    - intros [j|e] Hj; [by apply answers_ret|apply answers_throw].
    - intros j Hj. apply answers_bind. intros _. by apply answers_ret. }
  2:{ intros e [w' s'] [Es _]. simpl in Es |- *. by rewrite Es, Hs. }
  intros job [w2 s2] [Es Hid]. simpl in Es, Hid. subst s2. wp_step. apply wp_on_runtime. apply wp_put_db. cbv zeta. wp_step.
  assert (Hclose : forall j (w' : Database * R) s', ready log offset s' -> (jb_Status j = StatusPreparing -> st_sent s' = []) ->
            wp o (s ← on_runtime get_db; on_runtime (stream_Send (mkLogMessage []
                    (if bool_decide (jb_Status j = StatusPreparing) then offset else st_offset s) (Some (jobProto j)))))
              (fun _ (w' : Session) => session_ok log offset (st_sent w'.2)) (fun _ w' => session_ok log offset (st_sent w'.2)) (w', s')).
  { intros j w' s' [[Hf Hp] Ho] Hprep. wp_step. apply wp_on_runtime. apply wp_get_db. apply wp_on_runtime. unfold stream_Send. apply wp_statement; simpl; [|by split].
    split; [|by rewrite payload_app, payload_one, app_nil_r]. apply framed_app. split; [done|]. cbn [framed lm_NextOffset lm_Data]. split; [|done].
    unfold length64 in *. case_bool_decide as Ep; [rewrite (Hprep Ep); cbn; lia|]. cbn [length]. lia. }
  case_bool_decide as Ep; [apply wp_ret, Hclose; [eapply streamed_ready, Hst|done]|].
  destruct (Terminal (jb_Status job)) eqn:Et.
  - wp_step. rewrite Hid. eapply wp_mono; [apply session_Logs_spec| |by intros e w' [? _]]. intros e [w' s'] Hr.
    destruct e as [e|]; [|apply wp_ret, Hclose; [exact Hr|congruence]]. wp_step. apply wp_quiet; [apply quiet_ctx| |intros; apply Hr].
    intros c w3. case_bool_decide; [apply wp_throw, Hr|apply wp_ret, Hclose; [exact Hr|congruence]].
  - eapply wp_mono; [apply wp_and; [by apply followJob_spec|apply answers_follow]| |by intros e w' [[? _] _]].
    intros j [w' s'] [Hr Hj]. apply Hclose; [exact Hr|]. intros Ej. by rewrite Ej in Hj.
Qed.

End Sessions.

(** ** The client *)

(** The client has printed the log up to its offset. *)
Definition follows (log : list Z) (f : Follower) : Prop :=
  0 <= fo_offset f <= Z.of_nat (length log) /\ fo_printed f = take (Z.to_nat (fo_offset f)) log.

Lemma receive_session log messages : forall f, follows log f -> session_ok log (fo_offset f) messages -> follows log (fold_left receive messages f).
Proof.
  induction messages as [|m rest IH]; intros f Hf [Hfr Hp]; cbn [fold_left]; [done|]. destruct Hfr as [Hn Hfr]. destruct Hf as [Ho Hpr].
  unfold length64 in Hn. change (payload (m :: rest)) with (lm_Data m ++ payload rest) in Hp. destruct Hp as [k Hk]. rewrite <- (assoc_L (++)) in Hk.
  assert (Hlen : (length (lm_Data m) <= length log - Z.to_nat (fo_offset f))%nat).
  { rewrite <- length_drop, Hk, length_app. lia. }
  assert (Eo : Z.to_nat (lm_NextOffset m) = (Z.to_nat (fo_offset f) + length (lm_Data m))%nat) by lia.
  apply IH; unfold receive; cbn [fo_offset fo_printed]; rewrite (proj2 (Z.leb_le _ _)) by lia.
  - split; cbn [fo_offset fo_printed]; [lia|]. rewrite Hpr, Eo. rewrite <- (take_drop (Z.to_nat (fo_offset f)) log) at 2.
    assert (Et : length (take (Z.to_nat (fo_offset f)) log) = Z.to_nat (fo_offset f)) by (rewrite length_take; lia).
    rewrite take_app, Et, (take_ge (take _ _)) by lia. rewrite Hk, Nat.add_comm, Nat.add_sub. by rewrite take_app_length.
  - split; [done|]. rewrite Eo, <- drop_drop. rewrite Hk, drop_app_length. by eexists.
Qed.


(** * Following a job on a concrete server

    The server of [ApiJobs] with a started job whose service succeeds, and a
    client that loses its first connection after one message. *)

#[local] Existing Instance demo_scheduler.
#[local] Existing Instance demo_codec.
#[local] Existing Instance demo_pepper.
#[local] Existing Instance server_text.
#[local] Existing Instance server_dispatch.

#[local] Instance finished_runtime : JobRuntime Services_state.
Proof.
  refine {| rn_ValidateImage _ := may_fail; rn_Status id := query (fun _ => mkRemoteJob id StatusSucceeded "" 0 None (Some 9) false (Some 0) "") |}.
  - intros o image r. by apply wp_may_fail.
  - intros o id r. by apply wp_query.
Defined.

(** The log, and its reading in two chunks. *)
Definition demo_log : list Z := bytes "hello world".
#[local] Instance demo_source : LogSource Services_state :=
  {| ls_Logs _ _ := query (fun _ => ([bytes "hello "; bytes "world"], None)) |}.

Definition demo_job_name : string := "job1416181a1c1e20222426282a".

Definition demo_session (offset : Z) : list LogMessage :=
  st_sent (StreamJobLogsRPC 5 server_header demo_job_name offset server_oracle ((started_world.1, mkLogStream 0 0 []), 300%nat)).2.1.2.

(** The first connection breaks after one message. *)
Definition demo_connect (k : nat) (offset : Z) : Connection :=
  match k with
  | 1%nat => mkLogConnection (take 1 (demo_session offset)) (Some (ErrConnect CodeUnavailable (ErrText "reset")))
  | _ => mkLogConnection (demo_session offset) None
  end.


(** ** The tail of a followed log *)

(** [followJob] stops copying the log as soon as the job is terminal.  A reading
    that is behind at that moment ends early. *)
Definition slow_source : LogSource Services_state := {| ls_Logs _ _ := query (fun _ => ([bytes "hello "], None)) |}.

Definition slow_session : list LogMessage :=
  st_sent (StreamJobLogsRPC (H6 := slow_source) 5 server_header demo_job_name 0 server_oracle ((started_world.1, mkLogStream 0 0 []), 300%nat)).2.1.2.

(** The client gets the terminal job with the part of the log that was copied,
    exits, and never asks for the rest. *)
Lemma follow_cuts_the_tail :
  let '(outcome, f) := waitServiceJob (fun _ _ => mkLogConnection slow_session None) 2 (mkFollower 0 [] None) in
  outcome = Some (WaitExit 0) /\ fo_printed f = bytes "hello " /\ fo_printed f <> demo_log.
Proof. vm_compute. split; [reflexivity|]. split; [reflexivity|discriminate]. Qed.
