(* ===== verification/Secrets.v ===== *)
(** * Secrets of a job

    [internal/secrets/manager.go] and [internal/adapter/secretstore/directory.go]:
    before a job is admitted its secrets are read from the project's directory
    in the secret store and published, with a manifest, in the directory of the
    job; the entrypoint of the job loads them from there.  A file system maps
    the elements of clean absolute paths to files. *)
From stdpp Require Import gmap.
From S2P Require Import Prelude Model GoMonad GoLib Table Schema JobStore GoStrings Path Identity Coordinator Host.

(** ** Files *)

Record File := mkFile { fl_data : list Z; fl_regular : bool; fl_perm : Z }.
Abbreviation FS := (gmap (list string) File).

(** The elements a path leads through; there are no symbolic links. *)
Definition path_key (path : string) : list string := clean_parts true path.

Definition below (dir : list string) (fs : FS) : FS := filter (fun kv => dir `prefix_of` kv.1) fs.
Definition outside (dir : list string) (fs : FS) : FS := filter (fun kv => ~ dir `prefix_of` kv.1) fs.

(** The entries below [a], moved below [b]. *)
Definition moved (a b : list string) (fs : FS) : FS :=
  kmap (M2 := gmap (list string)) (fun k => b ++ drop (length a) k) (below a fs).

Definition ErrNotExist : Err := ErrText "file does not exist".

(** Directories are implicit. *)
Definition os_MkdirAll (path : string) : M FS unit := may_fail.
Definition os_Chmod (path : string) (perm : Z) : M FS unit := may_fail.

(** [os.MkdirTemp]: a name that is not in use; it fails when it finds none. *)
Definition os_MkdirTemp (dir pattern : string) : M FS string :=
  suffix ← rand_Read 4;
  let path := dir +:+ "/" +:+ pattern +:+ hex_encode suffix in
  taken ← query (fun fs => bool_decide (below (path_key path) fs <> ∅));
  if taken : bool then throw (ErrText "file exists") else mret path.

(** [os.WriteFile]: a failing write leaves a part of the data behind. *)
Definition os_WriteFile (path : string) (data : list Z) (perm : Z) : M FS unit :=
  fault ← attempt may_fail;
  fs ← get_db;
  let mode := match fs !! path_key path with Some f => fl_perm f | None => perm end in
  match fault with
  | Ok _ => put_db (<[path_key path := mkFile data true mode]> fs)
  | Fail e =>
      n ← rand_byte;
      _ ← put_db (<[path_key path := mkFile (take (Z.to_nat n) data) true mode]> fs);
      throw e
  end.

Definition os_RemoveAll (path : string) : M FS unit := statement (fun fs => Ok (tt, outside (path_key path) fs)).

(** [os.Rename] of a directory, to a name that is not in use. *)
Definition os_Rename (a b : string) : M FS unit :=
  statement (fun fs => Ok (tt, moved (path_key a) (path_key b) fs ∪ outside (path_key a) fs)).

Definition os_ReadFile (path : string) : M FS (list Z) :=
  r ← query (fun fs => fs !! path_key path);
  match r with Some f => mret (fl_data f) | None => throw ErrNotExist end.

(** ** [secretstore.Directory] *)

Definition maximumValueSize : Z := 2 ^ 20.

(** [Resolve]: the value, or why there is none.  [safe] is [safeChild]. *)
Definition Resolve (root projectID name : string) : M FS (list Z + ResolutionCause) :=
  if negb (safeChild projectID) || negb (safeChild name) || bool_decide (root = "") then mret (inr CauseRevoked) else
  opened ← attempt (query (fun fs => bool_decide (below (path_key root) fs <> ∅)));
  match opened with
  | Fail _ => mret (inr CauseProvider)
  | Ok false => mret (inr CauseRevoked)
  | Ok true =>
      file ← attempt (query (fun fs => fs !! path_key (Join root (Join projectID name))));
      match file with
      | Fail _ => mret (inr CauseProvider)
      | Ok None => mret (inr CauseRevoked)
      | Ok (Some f) =>
          stat ← attempt (may_fail (D := FS));
          match stat with
          | Fail _ => mret (inr CauseRevoked)
          | Ok _ =>
              if negb (fl_regular f) || negb (Z.land (fl_perm f) 63 =? 0) then mret (inr CauseRevoked) else
              read ← attempt (may_fail (D := FS));
              mret match read with
                   | Fail _ => inr CauseProvider
                   | Ok _ => inl (take (Z.to_nat (2 ^ 20 + 1)) (fl_data f))
                   end
          end
      end
  end.

(** ** The manifest *)

Record manifestBinding := mkBinding { mf_Name : string; mf_Source : string; mf_Environment : string; mf_File : string }.

(** The JSON encoding of a manifest. *)
Class ManifestCodec := {
  manifest_Marshal : list manifestBinding -> list Z;
  manifest_Unmarshal : list Z -> option (list manifestBinding);
  manifest_round_trip : forall l,
    Forall (fun b => ascii_only (mf_Name b) = true /\ ascii_only (mf_Source b) = true /\ ascii_only (mf_Environment b) = true /\
                     ascii_only (mf_File b) = true) l ->
    manifest_Unmarshal (manifest_Marshal l) = Some l
}.

Definition decimal_digit (n : nat) : string := String (hex_digit (Z.of_nat n)) "".

(** [fmt.Sprintf("%03d-%s", index, name)] for an index below 1000. *)
Definition ValueFile (index : nat) (name : string) : string :=
  decimal_digit (index / 100) +:+ decimal_digit (index / 10 mod 10) +:+ decimal_digit (index mod 10) +:+ "-" +:+ name.

(** ** [Manager] *)

(** [None] stands for a nil resolver; the root of the secret store otherwise. *)
Record SecretsConfig := mkSecretsConfig { sg_JobsRoot : string; sg_Resolver : option string; sg_Access : bool }.

Section Manager.
Context `{ManifestCodec} (config : SecretsConfig).
#[local] Abbreviation WorldM := (M (Database * FS)).

(** The loop over the bindings of the job, from position [index] on. *)
Fixpoint materialize (root temporary : string) (job : Job) (index : nat) (bindings : list SecretBinding) : WorldM (list manifestBinding) :=
  match bindings with
  | [] => mret []
  | binding :: rest =>
      resolved ← on_runtime (Resolve root (jb_ProjectID job) (sb_Name binding));
      match resolved with
      | inr cause => throw (ErrResolution (sb_Name binding) cause)
      | inl value =>
          if (length value =? 0)%nat || (maximumValueSize <? Z.of_nat (length value))
          then throw (ErrResolution (sb_Name binding) CauseInvalidValue) else
          let filename := ValueFile index (sb_Name binding) in
          _ ← on_runtime (os_WriteFile (Join temporary filename) value 384);
          _ ← (if sg_Access config then on_store (RecordSecretAccess (jb_ProjectID job) (jb_ID job) (sb_Name binding)) else mret tt);
          more ← materialize root temporary job (S index) rest;
          mret (mkBinding (sb_Name binding) filename (sb_Environment binding) (sb_File binding) :: more)
      end
  end.

(** From the temporary directory on. *)
Definition publish (root jobDirectory temporary : string) (job : Job) : WorldM unit :=
  _ ← on_runtime (os_Chmod temporary 448);
  data ← materialize root temporary job 0 (jb_Secrets job);
  _ ← on_runtime (os_WriteFile (Join temporary "manifest.json") (manifest_Marshal data) 384);
  let destination := Join jobDirectory "secrets" in
  _ ← on_runtime (os_RemoveAll destination);
  on_runtime (os_Rename temporary destination).

Definition SecretsPrepare (operation : Operation) : WorldM unit :=
  match op_Kind operation with
  | OperationBuild => mret tt
  | OperationJob =>
      match sg_Resolver config with
      | None => throw (ErrText "job secret manager is not configured")
      | Some root =>
          if bool_decide (sg_JobsRoot config = "") then throw (ErrText "job secret manager is not configured") else
          job ← on_store (getJob (op_ID operation));
          if bool_decide (jb_Secrets job = []) then mret tt else
          let jobDirectory := Join (sg_JobsRoot config) (jb_ID job) in
          _ ← on_runtime (os_MkdirAll jobDirectory);
          temporary ← on_runtime (os_MkdirTemp jobDirectory ".secrets-");
          published ← attempt (publish root jobDirectory temporary job);
          _ ← attempt (on_runtime (os_RemoveAll temporary));
          match published with Ok _ => mret tt | Fail e => throw e end
      end
  end.

Definition SecretsCleanup (operation : Operation) : WorldM unit :=
  match op_Kind operation with
  | OperationBuild => mret tt
  | OperationJob =>
      if bool_decide (sg_JobsRoot config = "") then mret tt else
      on_runtime (os_RemoveAll (Join (Join (sg_JobsRoot config) (op_ID operation)) "secrets"))
  end.

(** ** [LoadRuntime] *)

Record RuntimeValues := mkRuntimeValues { rv_Values : list (list Z); rv_Environment : list (string * list Z) }.

Fixpoint load_values (directory : string) (bindings : list manifestBinding) : M FS RuntimeValues :=
  match bindings with
  | [] => mret (mkRuntimeValues [] [])
  | binding :: rest =>
      if negb (bool_decide (Base (mf_Source binding) = mf_Source binding)) || str_contains (mf_Source binding) ".."
      then throw (ErrText "job secret manifest contains an invalid source") else
      read ← attempt (os_ReadFile (Join directory (mf_Source binding)));
      match read with
      | Fail _ => throw (ErrText ("read job secret " +:+ mf_Name binding))
      | Ok value =>
          more ← load_values directory rest;
          mret (mkRuntimeValues (value :: rv_Values more)
                  (if bool_decide (mf_Environment binding = "") then rv_Environment more
                   else (mf_Environment binding, value) :: rv_Environment more))
      end
  end.

(** The variables are pairs of a name and a value, joined by an equals sign when
    they are handed to the command. *)
Definition LoadRuntime (directory : string) : M FS RuntimeValues :=
  payload ← attempt (os_ReadFile (Join directory "manifest.json"));
  match payload with
  | Fail e => if bool_decide (e = ErrNotExist) then mret (mkRuntimeValues [] []) else throw (ErrText "read job secret manifest")
  | Ok payload =>
      match manifest_Unmarshal payload with
      | None => throw (ErrText "decode job secret manifest")
      | Some bindings => load_values directory bindings
      end
  end.

End Manager.
