(* ===== verification/SecretsTheorems.v ===== *)
(** * The secrets a job loads are the ones its project stores

    What [Prepare] publishes in the directory of a job, [LoadRuntime] reads back
    in the entrypoint: the values in the order of the bindings, and the
    variables of the bindings that have one.  A secret name with two dots in a
    row passes the validation of a submission and is refused by [LoadRuntime]. *)
From stdpp Require Import gmap.
From Stdlib Require Import Ascii.
From S2P Require Import Prelude Model GoMonad GoLib Table Schema JobStore GoStrings Encoding Path Identity Reads ReadTheorems Coordinator Host QueueSystem Validate ValidateTheorems Secrets.

(** ** Names *)

Lemma hex_digit_byte n : 0 <= n < 16 -> 48 <= byte_of (hex_digit n) <= 57 \/ 97 <= byte_of (hex_digit n) <= 102.
Proof.
  intros Hn. unfold hex_digit, byte_of. rewrite nat_ascii_embedding; destruct (n <? 10) eqn:E; split_bools; lia.
Qed.

Lemma decimal_digit_byte n : (n < 10)%nat -> byte_of (hex_digit (Z.of_nat n)) = 48 + Z.of_nat n.
Proof. intros Hn. unfold hex_digit, byte_of. rewrite (proj2 (Z.ltb_lt _ _)) by lia. rewrite nat_ascii_embedding; lia. Qed.

Lemma decimal_digit_inj a b : (a < 10)%nat -> (b < 10)%nat -> hex_digit (Z.of_nat a) = hex_digit (Z.of_nat b) -> a = b.
Proof. intros Ha Hb E. apply (f_equal byte_of) in E. rewrite !decimal_digit_byte in E by done. lia. Qed.

Lemma digits_bound i : (i < 1000)%nat -> (i / 100 < 10 /\ i / 10 mod 10 < 10 /\ i mod 10 < 10)%nat.
Proof.
  intros Hi. split; [apply Nat.Div0.div_lt_upper_bound; lia|]. split; apply Nat.mod_upper_bound; lia.
Qed.

Lemma digits_inj i : (i < 1000)%nat -> i = (i / 100 * 100 + i / 10 mod 10 * 10 + i mod 10)%nat.
Proof.
  intros Hi. pose proof (Nat.div_mod_eq i 10). pose proof (Nat.div_mod_eq (i / 10) 10).
  replace (i / 100)%nat with (i / 10 / 10)%nat by (by rewrite Nat.Div0.div_div). lia.
Qed.

(** Files of different positions have different names. *)
Lemma ValueFile_index i j a b : (i < 1000)%nat -> (j < 1000)%nat -> ValueFile i a = ValueFile j b -> i = j.
Proof.
  intros Hi Hj E. unfold ValueFile, decimal_digit in E. cbn [String.append] in E.
  injection E as E1 E2 E3 _. destruct (digits_bound i Hi) as (A1 & A2 & A3), (digits_bound j Hj) as (B1 & B2 & B3).
  assert (D1 : (i / 100 = j / 100)%nat) by (by apply decimal_digit_inj).
  assert (D2 : (i / 10 mod 10 = j / 10 mod 10)%nat) by (by apply decimal_digit_inj).
  assert (D3 : (i mod 10 = j mod 10)%nat) by (by apply decimal_digit_inj).
  rewrite (digits_inj i Hi), D1, D2, D3. symmetry. by apply digits_inj.
Qed.

Lemma hex_bytes l : Forall (fun b => 0 <= b < 256) l -> Forall (fun b => b <> 47) (bytes (hex_encode l)).
Proof.
  induction 1 as [|b l Hb _ IH]; [constructor|]. cbn [hex_encode bytes].
  assert (H1 : 0 <= b / 16 < 16) by (split; [apply Z.div_pos; lia|apply Z.div_lt_upper_bound; lia]).
  assert (H2 : 0 <= b mod 16 < 16) by (apply Z.mod_pos_bound; lia).
  constructor; [|constructor; [|done]]; [apply hex_digit_byte in H1|apply hex_digit_byte in H2]; lia.
Qed.

(** The bytes of the name of a file. *)
Lemma ValueFile_bytes i name : (i < 1000)%nat ->
  exists x y z, bytes (ValueFile i name) = x :: y :: z :: 45 :: bytes name /\ 48 <= x <= 57 /\ 48 <= y <= 57 /\ 48 <= z <= 57.
Proof.
  intros Hi. destruct (digits_bound i Hi) as (A1 & A2 & A3). unfold ValueFile, decimal_digit.
  eexists _, _, _. split; [reflexivity|].
  assert (Hd : forall n, (n < 10)%nat -> 48 <= byte_of (hex_digit (Z.of_nat n)) <= 57).
  { intros n Hn. rewrite decimal_digit_byte by done. lia. }
  auto.
Qed.

Lemma ValueFile_not_manifest i name : (i < 1000)%nat -> ValueFile i name <> "manifest.json".
Proof. intros Hi E0. destruct (ValueFile_bytes i name Hi) as (x & y & z & E & Hx & _). rewrite E0 in E. vm_compute in E. injection E. lia. Qed.

Lemma has_slash s : has_byte "/"%char s = false <-> Forall (fun b => b <> 47) (bytes s).
Proof.
  unfold has_byte. change (byte_of "/"%char) with 47. induction (bytes s) as [|b l IH]; cbn [existsb]; [by split|].
  rewrite orb_false_iff, IH, Forall_cons, Z.eqb_neq. naive_solver.
Qed.

Lemma until_slash_all l : Forall (fun b => b <> 47) l -> until_slash l = l /\ drop_slashes l = l.
Proof.
  unfold slash. induction 1 as [|b l Hb _ [IH _]]; [done|]. unfold until_slash, drop_slashes; fold until_slash; fold drop_slashes.
  unfold slash. rewrite (proj2 (Z.eqb_neq b 47)) by done. by rewrite IH.
Qed.

(** A name without a slash is its own base. *)
Lemma Base_plain s : s <> "" -> has_byte "/"%char s = false -> Base s = s.
Proof.
  intros Hs Hb. apply has_slash, Forall_rev in Hb. destruct (until_slash_all _ Hb) as [E1 E2].
  unfold Base. rewrite bool_decide_eq_false_2, E2, E1 by done. destruct (rev (bytes s)) as [|b l] eqn:E.
  - destruct s; [done|]. apply (f_equal (@length Z)) in E. rewrite length_rev in E. done.
  - by rewrite <- E, rev_involutive, of_bytes_bytes.
Qed.

(** A dot that does not follow a dot starts no pair of dots. *)
Lemma contains_cons c s : byte_of c <> 46 -> str_contains (String c s) ".." = str_contains s "..".
Proof.
  intros Hc. unfold str_contains. cbn [String.index String.prefix]. destruct (Ascii.ascii_dec "."%char c) as [<-|_]; [done|].
  by destruct (String.index 0 ".." s).
Qed.

(** The names of secrets the validation of a submission accepts. *)
Lemma name_bytes name : cacheNamePattern name = true ->
  proper name /\ ascii_only name = true.
Proof.
  unfold cacheNamePattern, starts_with. intros H. split_bools. destruct (bytes name) as [|b l] eqn:E; [done|]. split_bools.
  assert (Hall : Forall (fun b => b <> 47 /\ (b <? 128) = true) (b :: l) /\ b <> 46).
  { unfold lower, digit, byte_in, byte_is in *.
    change (byte_of "a"%char) with 97 in *. change (byte_of "z"%char) with 122 in *. change (byte_of "0"%char) with 48 in *.
    change (byte_of "9"%char) with 57 in *. change (byte_of "."%char) with 46 in *. change (byte_of "_"%char) with 95 in *.
    change (byte_of "-"%char) with 45 in *. split; [|by destruct (b =? 46) eqn:Eb; lia].
    constructor; [split; [|apply Z.ltb_lt]; lia|]. apply Forall_forall. intros x Hx%list_elem_of_In.
    match goal with Hf : forallb _ l = true |- _ => rewrite forallb_forall in Hf; specialize (Hf x Hx) end.
    split; [|apply Z.ltb_lt]; lia. }
  destruct Hall as [Hall Hdot]. apply Forall_and in Hall as [Hs Ha]. split.
  - repeat split; try (intros ->; vm_compute in E; congruence). apply has_slash. by rewrite E.
  - unfold ascii_only. rewrite E. apply forallb_forall. intros x Hx. rewrite Forall_forall in Ha. by apply Ha, list_elem_of_In.
Qed.

(** The file of a value, as an element of a path and as a source. *)
Lemma ValueFile_ok i name :
  (i < 1000)%nat -> proper name -> ascii_only name = true ->
  proper (ValueFile i name) /\ Base (ValueFile i name) = ValueFile i name /\ ascii_only (ValueFile i name) = true /\
  str_contains (ValueFile i name) ".." = str_contains name "..".
Proof.
  intros Hi (_ & _ & _ & Hs) Ha. destruct (ValueFile_bytes i name Hi) as (x & y & z & E & Hx & Hy & Hz).
  assert (Hp : proper (ValueFile i name)).
  { repeat split; try (intros E0; rewrite E0 in E; vm_compute in E; injection E; intros; lia); try (intros E0; by rewrite E0 in E). apply has_slash. apply has_slash in Hs. rewrite E.
    repeat (constructor; [lia|]). done. }
  split; [done|]. split; [apply Base_plain; apply Hp|]. split.
  - unfold ascii_only in *. rewrite E. cbn [forallb]. rewrite Ha, !(proj2 (Z.ltb_lt _ 128)) by lia. done.
  - destruct (digits_bound i Hi) as (A1 & A2 & A3). unfold ValueFile, decimal_digit. cbn [String.append].
    unfold String.append. rewrite !contains_cons; [done|by vm_compute|..]; rewrite decimal_digit_byte by done; lia.
Qed.

(** ** Paths and files *)

Lemma path_key_proper s : Forall proper (path_key s).
Proof. apply clean_parts_rooted. Qed.

Lemma path_key_sep a names : names <> [] -> Forall proper names -> path_key (a +:+ String "/"%char (join_slash names)) = path_key a ++ names.
Proof.
  intros Hne Hn. unfold path_key, clean_parts. rewrite split_slash_sep, fold_left_app, (split_join names) by (done || by apply proper_plain).
  rewrite push_names by done. by rewrite rev_app_distr, rev_involutive.
Qed.

Lemma path_key_Join a names :
  IsAbs a = true -> names <> [] -> Forall proper names ->
  path_key (Join a (join_slash names)) = path_key a ++ names /\ IsAbs (Join a (join_slash names)) = true.
Proof.
  intros Ha Hne Hn. destruct (join_relative names Hne Hn) as [_ H0].
  assert (Ea : a <> "") by (by intros ->). unfold Join. rewrite !bool_decide_eq_false_2 by done.
  change (a +:+ "/" +:+ join_slash names) with (a +:+ String "/"%char (join_slash names)).
  assert (Hs : IsAbs (a +:+ String "/"%char (join_slash names)) = true).
  { unfold IsAbs, HasPrefix in *. apply prefix_app_string in Ha as [r ->]. apply prefix_app_string. by eexists. }
  destruct (Clean_absolute _ Hs) as [-> Hp]. unfold absolute. split; [|apply IsAbs_slash].
  unfold path_key at 1. rewrite clean_parts_abs by done. by apply path_key_sep.
Qed.

Lemma path_key_child a x : IsAbs a = true -> proper x -> path_key (Join a x) = path_key a ++ [x] /\ IsAbs (Join a x) = true.
Proof. intros Ha Hx. by apply (path_key_Join a [x]); [|done|constructor]. Qed.

Lemma lookup_outside dir fs k : ~ dir `prefix_of` k -> outside dir fs !! k = fs !! k.
Proof.
  intros Hk. unfold outside. destruct (fs !! k) as [f|] eqn:E; [by apply map_lookup_filter_Some|].
  apply map_lookup_filter_None. by left.
Qed.

(** A moved directory holds at its new place what it held at the old one. *)
Lemma lookup_moved a b fs k : moved a b fs !! (b ++ k) = fs !! (a ++ k).
Proof.
  unfold moved, kmap. apply option_eq. intros f. split.
  - intros Hl. apply elem_of_list_to_map_2, list_elem_of_fmap in Hl as ([k' f'] & [= E ->] & Hin).
    apply elem_of_map_to_list, map_lookup_filter_Some in Hin as [Hf [k2 Ek]].
    simpl in E, Ek. subst k'. rewrite drop_app_length in E. by apply app_inv_head in E as <-.
  - intros Hf. apply elem_of_list_to_map_1.
    + rewrite <- list_fmap_compose. apply NoDup_fmap_2_strong; [|apply NoDup_map_to_list].
      intros [k1 f1] [k2 f2] H1 H2 E. apply elem_of_map_to_list, map_lookup_filter_Some in H1 as [L1 [p1 E1]], H2 as [L2 [p2 E2]].
      simpl in E, E1, E2. subst k1 k2. rewrite !drop_app_length in E. apply app_inv_head in E as ->. congruence.
    + apply list_elem_of_fmap. exists (a ++ k, f). split; [simpl; by rewrite drop_app_length|].
      apply elem_of_map_to_list, map_lookup_filter_Some. split; [done|]. by eexists.
Qed.

(** ... and nothing elsewhere. *)
Lemma lookup_moved_None a b fs k : ~ b `prefix_of` k -> moved a b fs !! k = None.
Proof.
  intros Hk. unfold moved, kmap. apply not_elem_of_list_to_map_1. rewrite <- list_fmap_compose. intros Hin.
  apply list_elem_of_fmap in Hin as ([k' f] & E & _). simpl in E. apply Hk. rewrite E. by eexists.
Qed.

Lemma not_prefix_child (j : list string) x y k : x <> y -> ~ (j ++ [x]) `prefix_of` (j ++ y :: k).
Proof. intros Hxy H. apply prefix_app_inv in H. by apply prefix_cons_inv_1 in H. Qed.

(** ** The operations on files *)

Lemma wp_WriteFile (o : Oracle) (path : string) (data : list Z) (perm : Z) (Q : unit -> FS -> Prop) (E : Err -> FS -> Prop) (fs : FS) :
  (forall mode, Q tt (<[path_key path := mkFile data true mode]> fs)) ->
  (forall e f, ~ reliable o -> E e (<[path_key path := f]> fs)) ->
  wp o (os_WriteFile path data perm) Q E fs.
Proof.
  intros HQ HE. unfold os_WriteFile. wp_step. wp_step. apply wp_may_fail.
  - wp_step. apply wp_get_db. apply wp_put_db. by apply HQ.
  - intros s Hs. wp_step. apply wp_get_db. wp_step. apply wp_rand_byte. intros b _. wp_step. apply wp_put_db. wp_step.
    apply HE. intros Hr. by eapply reliable_fails.
Qed.

Lemma wp_RemoveAll (o : Oracle) (path : string) (Q : unit -> FS -> Prop) (E : Err -> FS -> Prop) (fs : FS) :
  Q tt (outside (path_key path) fs) -> (forall e, ~ reliable o -> E e fs) -> wp o (os_RemoveAll path) Q E fs.
Proof. intros HQ HE. apply wp_statement; [done|]. intros s Hs. apply HE. intros Hr. by eapply reliable_fails. Qed.

(** A secret that can be handed to a job: a private regular file with one byte
    to a mebibyte. *)
Definition stored (fs : FS) (root projectID : string) (b : SecretBinding) (v : list Z) : Prop :=
  exists f, fs !! (path_key root ++ [projectID; sb_Name b]) = Some f /\ fl_regular f = true /\ Z.land (fl_perm f) 63 = 0 /\
    fl_data f = v /\ 0 < Z.of_nat (length v) <= 2 ^ 20.

(** A binding whose value the entrypoint accepts. *)
Definition loadable (b : SecretBinding) : Prop :=
  cacheNamePattern (sb_Name b) = true /\ str_contains (sb_Name b) ".." = false /\
  ascii_only (sb_Environment b) = true /\ ascii_only (sb_File b) = true.

(** The manifest of the bindings from a position on. *)
Fixpoint manifest_of (index : nat) (bindings : list SecretBinding) : list manifestBinding :=
  match bindings with
  | [] => []
  | b :: rest => mkBinding (sb_Name b) (ValueFile index (sb_Name b)) (sb_Environment b) (sb_File b) :: manifest_of (S index) rest
  end.

(** The variables of the job. *)
Fixpoint variables (bindings : list SecretBinding) (values : list (list Z)) : list (string * list Z) :=
  match bindings, values with
  | b :: bindings, v :: values =>
      if bool_decide (sb_Environment b = "") then variables bindings values else (sb_Environment b, v) :: variables bindings values
  | _, _ => []
  end.

Lemma manifest_source index bindings m :
  m ∈ manifest_of index bindings -> exists j name, (index <= j < index + length bindings)%nat /\ mf_Source m = ValueFile j name.
Proof.
  revert index. induction bindings as [|b rest IH]; intros index; simpl; [by intros ?%elem_of_nil|].
  intros [->|Hm]%elem_of_cons; [exists index, (sb_Name b); split; [lia|done]|].
  destruct (IH _ Hm) as (j & name & Hj & E). exists j, name. split; [lia|done].
Qed.

Lemma take_short {A} n (l : list A) : (length (take (S n) l) <= n)%nat -> take (S n) l = l.
Proof. rewrite length_take. intros Hl. apply take_ge. lia. Qed.

Section Published.
Context `{ManifestCodec} (config : SecretsConfig) (o : Oracle) (root : string) (job : Job).
Context (Hroot : IsAbs root = true) (Hjobs : IsAbs (sg_JobsRoot config) = true) (Hid : proper (jb_ID job)) (Hproject : proper (jb_ProjectID job)).
Context (Hapart : ~ path_key root `prefix_of` path_key (sg_JobsRoot config) /\ ~ path_key (sg_JobsRoot config) `prefix_of` path_key root).

(** The directory of the job. *)
#[local] Abbreviation J := (path_key (sg_JobsRoot config) ++ [jb_ID job]).

(** Two file systems that agree outside the directory of the job. *)
Definition same_outside (fs fs' : FS) : Prop := forall k, ~ J `prefix_of` k -> fs' !! k = fs !! k.

#[global] Instance same_outside_preorder : PreOrder same_outside.
Proof. split; [by intros fs k|]. intros f1 f2 f3 H1 H2 k Hk. by rewrite H2, H1. Qed.

Lemma store_apart names : ~ J `prefix_of` (path_key root ++ names).
Proof using Hapart.
  intros Hp. destruct Hapart as [H1 H2].
  assert (Hj : path_key (sg_JobsRoot config) `prefix_of` path_key root ++ names) by (eapply prefix_app_l; exact Hp).
  destruct (prefix_weak_total _ _ _ Hj (prefix_app_r _ _ _ (reflexivity _))); contradiction.
Qed.

Lemma stored_agree fs fs' b v : same_outside fs fs' -> stored fs' root (jb_ProjectID job) b v <-> stored fs root (jb_ProjectID job) b v.
Proof using Hapart. intros Hs. unfold stored. by rewrite (Hs _ (store_apart _)). Qed.

Lemma same_insert x names f fs : same_outside fs (<[J ++ x :: names := f]> fs).
Proof using. intros k Hk. apply lookup_insert_ne. intros <-. apply Hk. by eexists. Qed.

Lemma same_remove x names fs : same_outside fs (outside (J ++ x :: names) fs).
Proof using. intros k Hk. apply lookup_outside. intros Hp. apply Hk. by eapply prefix_app_l. Qed.

(** What the secret store answers for one name. *)
Lemma Resolve_spec (b : SecretBinding) (fs : FS) (Q : list Z + ResolutionCause -> FS -> Prop) (E : Err -> FS -> Prop) :
  cacheNamePattern (sb_Name b) = true ->
  (forall f, fs !! (path_key root ++ [jb_ProjectID job; sb_Name b]) = Some f -> fl_regular f = true -> Z.land (fl_perm f) 63 = 0 ->
     Q (inl (take (Z.to_nat (2 ^ 20 + 1)) (fl_data f))) fs) ->
  (forall cause, (reliable o -> ~ exists v, stored fs root (jb_ProjectID job) b v) -> Q (inr cause) fs) ->
  wp o (Resolve root (jb_ProjectID job) (sb_Name b)) Q E fs.
Proof using Hroot Hproject.
  clear Hapart Hjobs. intros Hn HQ HR. destruct (name_bytes _ Hn) as [Hp _].
  assert (Hsafe : forall x, proper x -> safeChild x = true).
  { intros x (H1 & H2 & H3 & H4). unfold safeChild. rewrite Base_plain, (bool_decide_eq_true_2 (x = x)) by done.
    by rewrite !bool_decide_eq_false_2. }
  assert (Hpn : Forall proper [jb_ProjectID job; sb_Name b]) by (constructor; [done|]; by constructor).
  assert (Ekey : path_key (Join root (Join (jb_ProjectID job) (sb_Name b))) = path_key root ++ [jb_ProjectID job; sb_Name b]).
  { assert (Ej : Join (jb_ProjectID job) (sb_Name b) = join_slash [jb_ProjectID job; sb_Name b]).
    { unfold Join. rewrite !bool_decide_eq_false_2 by (apply Hp || apply Hproject). by apply (Clean_names [jb_ProjectID job; sb_Name b]). }
    rewrite Ej. by apply path_key_Join. }
  unfold Resolve. rewrite !Hsafe by done. rewrite bool_decide_eq_false_2 by (by intros ->). cbn [negb orb]. rewrite Ekey.
  assert (Hfault : forall s, fails o s -> reliable o -> ~ exists v, stored fs root (jb_ProjectID job) b v).
  { intros s Hs Hr. by destruct (reliable_fails o s). }
  do 3 wp_step; [|intros s Hs; apply wp_ret, HR; by eapply Hfault]. case_bool_decide as Eb.
  2:{ apply wp_ret, HR. intros _ (v & f & Hf & _). destruct (decide (below (path_key root) fs = ∅)) as [E0|]; [|done].
      assert (E1 : below (path_key root) fs !! (path_key root ++ [jb_ProjectID job; sb_Name b]) = None) by (rewrite E0; apply lookup_empty).
      apply map_lookup_filter_None in E1 as [E1|E1]; [pose proof (eq_trans (eq_sym E1) Hf); discriminate|]. apply (E1 f Hf). by eexists. }
  do 3 wp_step; [|intros s Hs; apply wp_ret, HR; by eapply Hfault].
  destruct (fs !! _) as [f|] eqn:Ef; [|apply wp_ret, HR; intros _ (v & f & Hf & _); congruence].
  do 3 wp_step; [|intros s Hs; apply wp_ret, HR; by eapply Hfault].
  destruct (negb (fl_regular f) || _) eqn:Em.
  { apply wp_ret, HR. intros _ (v & f' & Hf' & Hr & Hl & _). rewrite Ef in Hf'. injection Hf' as <-. rewrite Hr, Hl in Em. done. }
  split_bools. do 3 wp_step; [|intros s Hs; apply wp_ret, HR; by eapply Hfault]. apply wp_ret. by apply HQ.
Qed.

(** What the loop over the bindings leaves, when it ends and when it fails. *)
Definition materialized (t : string) (fs : FS) (i : nat) (bindings : list SecretBinding) (data : list manifestBinding) (fs' : FS) : Prop :=
  same_outside fs fs' /\ data = manifest_of i bindings /\
  (forall k, (forall m, m ∈ data -> k <> J ++ [t; mf_Source m]) -> fs' !! k = fs !! k) /\
  exists values, Forall2 (stored fs root (jb_ProjectID job)) bindings values /\
    Forall2 (fun m v => fl_data <$> fs' !! (J ++ [t; mf_Source m]) = Some v) data values.

Definition refused (fs : FS) (bindings : list SecretBinding) (fs' : FS) : Prop :=
  same_outside fs fs' /\
  (reliable o -> sg_Access config = false -> exists b, b ∈ bindings /\ ~ exists v, stored fs root (jb_ProjectID job) b v).

Lemma refused_cons b rest x names f fs fs' : refused (<[J ++ x :: names := f]> fs) rest fs' -> refused fs (b :: rest) fs'.
Proof using Hapart.
  intros [H1 H2]. pose proof (same_insert x names f fs) as Hs. split; [by etrans|]. intros Hr Ha.
  destruct (H2 Hr Ha) as (b' & Hb & Hno). exists b'. split; [by constructor|]. intros [v Hv]. apply Hno. exists v. by apply (stored_agree fs).
Qed.

Lemma materialized_cons t b rest i value mode more fs fs' :
  (i + S (length rest) <= 1000)%nat -> stored fs root (jb_ProjectID job) b value ->
  materialized t (<[J ++ [t; ValueFile i (sb_Name b)] := mkFile value true mode]> fs) (S i) rest more fs' ->
  materialized t fs i (b :: rest) (mkBinding (sb_Name b) (ValueFile i (sb_Name b)) (sb_Environment b) (sb_File b) :: more) fs'.
Proof using Hapart.
  intros Hi Hst (S1 & -> & S3 & values & S4 & S5). pose proof (same_insert t [ValueFile i (sb_Name b)] (mkFile value true mode) fs) as Hs.
  split; [by etrans|]. split; [done|]. split.
  - intros k Hk. pose proof (Hk _ (list_elem_of_here _ _)) as Hne. cbn [mf_Source] in Hne. rewrite S3; [by apply lookup_insert_ne|].
    intros m Hm. apply Hk. by constructor.
  - exists (value :: values). split.
    { constructor; [done|]. eapply Forall2_impl; [exact S4|]. intros b' v'. apply (stored_agree _ _ _ _ Hs). }
    constructor; [|done].
    cbn [mf_Source]. rewrite S3; [by rewrite lookup_insert_eq|]. intros m Hm E. destruct (manifest_source _ _ _ Hm) as (j & name & Hj & Ej).
    apply app_inv_head in E. injection E as E. rewrite Ej in E. apply ValueFile_index in E; simpl in *; lia.
Qed.

(** A value of the store, and whether it is accepted. *)
Lemma value_stored fs b f :
  fs !! (path_key root ++ [jb_ProjectID job; sb_Name b]) = Some f -> fl_regular f = true -> Z.land (fl_perm f) 63 = 0 ->
  let value := take (Z.to_nat (2 ^ 20 + 1)) (fl_data f) in
  if (length value =? 0)%nat || (maximumValueSize <? Z.of_nat (length value))
  then ~ exists v, stored fs root (jb_ProjectID job) b v else stored fs root (jb_ProjectID job) b value.
Proof using.
  intros Hf Hreg Hperm value. unfold maximumValueSize.
  assert (exists n, 2 ^ 20 = Z.of_nat n /\ Z.to_nat (2 ^ 20 + 1) = S n) as (n & Hn & En) by (exists (Z.to_nat (2 ^ 20)); lia).
  subst value. rewrite En. destruct (_ || _) eqn:Ev.
  - intros (v & f' & Hf' & _ & _ & Hd & Hv'). rewrite Hf in Hf'. injection Hf' as <-. subst v.
    rewrite take_ge in Ev by lia. apply orb_true_iff in Ev as [Ev|Ev]; [apply Nat.eqb_eq in Ev|apply Z.ltb_lt in Ev]; lia.
  - apply orb_false_iff in Ev as [E0 E1]. apply Nat.eqb_neq in E0. apply Z.ltb_ge in E1.
    assert (Et : take (S n) (fl_data f) = fl_data f) by (apply take_short; lia). rewrite Et in *.
    exists f. repeat split; try done; lia.
Qed.

(** The loop writes the values below the temporary directory. *)
Lemma materialize_spec t temporary : IsAbs temporary = true -> path_key temporary = J ++ [t] ->
  forall bindings i d fs, (i + length bindings <= 1000)%nat -> Forall loadable bindings ->
  wp o (materialize config root temporary job i bindings)
    (fun data w => materialized t fs i bindings data w.2) (fun _ w => refused fs bindings w.2) (d, fs).
Proof using Hroot Hproject Hapart.
  intros Habs Hkey. induction bindings as [|b rest IH]; intros i d fs Hi Hl; cbn [materialize].
  { apply wp_ret. split; [reflexivity|]. split; [done|]. split; [done|]. exists []. split; constructor. }
  apply Forall_cons in Hl as [[Hn [Hdots _]] Hl]. destruct (name_bytes _ Hn) as [Hp Ha]. cbn [length] in Hi.
  destruct (ValueFile_ok i (sb_Name b)) as (Hv & _); [lia|done|done|].
  assert (Efile : path_key (Join temporary (ValueFile i (sb_Name b))) = J ++ [t; ValueFile i (sb_Name b)]).
  { destruct (path_key_child temporary _ Habs Hv) as [-> _]. by rewrite Hkey, <- (assoc_L (++)). }
  assert (Hno : (reliable o -> ~ exists v, stored fs root (jb_ProjectID job) b v) -> refused fs (b :: rest) fs).
  { intros Hno. split; [reflexivity|]. intros Hr _. exists b. split; [constructor|]. by apply Hno. }
  wp_step. apply wp_on_runtime. apply Resolve_spec; [done| |intros cause Hnone; apply wp_throw; by apply Hno].
  intros f Hf Hreg Hperm. pose proof (value_stored fs b f Hf Hreg Hperm) as Hst. cbv zeta in Hst. destruct (_ || _); [apply wp_throw; by apply Hno|].
  set (value := take _ _) in *. clearbody value. cbv zeta. wp_step. apply wp_on_runtime. apply wp_WriteFile; rewrite Efile.
  2:{ intros e f' Hnr. split; [apply same_insert|]. intros Hr. contradiction. }
  intros mode. set (fs1 := <[_ := _]> fs).
  assert (Hrest : forall d1, wp o (more ← materialize config root temporary job (S i) rest;
        mret (mkBinding (sb_Name b) (ValueFile i (sb_Name b)) (sb_Environment b) (sb_File b) :: more))
      (fun data w => materialized t fs i (b :: rest) data w.2) (fun _ w => refused fs (b :: rest) w.2) (d1, fs1)).
  { intros d1. wp_step. eapply wp_mono; [apply IH; [lia|done]| |].
    - intros more [d2 fs2] Hm. apply wp_ret. by eapply materialized_cons.
    - intros e w He. eapply (refused_cons b rest t), He. }
  wp_step. destruct (sg_Access config) eqn:Eacc; [|apply wp_ret; apply Hrest]. apply wp_on_store. intros n.
  destruct (RecordSecretAccess _ _ _ o (d, n)) as [[a|e] [d1 n1]]; [apply Hrest|]. split; [apply same_insert|congruence].
Qed.

(** A fresh directory for the values. *)
Lemma wp_MkdirTemp (dir : string) (fs : FS) (Q : string -> FS -> Prop) (E : Err -> FS -> Prop) :
  IsAbs dir = true ->
  (forall t, proper t -> t <> "secrets" -> forall temporary, IsAbs temporary = true -> path_key temporary = path_key dir ++ [t] -> Q temporary fs) ->
  (forall e, (reliable o -> below (path_key dir) fs <> ∅) -> E e fs) ->
  wp o (os_MkdirTemp dir ".secrets-") Q E fs.
Proof using.
  intros Hdir HQ HE. unfold os_MkdirTemp. wp_step. wp_step; [|intros s Hs; apply HE; intros Hr; by destruct (reliable_fails o s)].
  cbv zeta. set (t := ".secrets-" +:+ _). 
  assert (Ht : proper t /\ t <> "secrets").
  { subst t. split; [|done]. repeat split; try done. apply has_slash. rewrite bytes_app. apply Forall_app. split; [by repeat constructor|].
    apply hex_bytes. done. }
  assert (Ekey : path_key (dir +:+ "/" +:+ t) = path_key dir ++ [t]).
  { apply (path_key_sep dir [t]); [done|]. constructor; [apply Ht|done]. }
  assert (Habs : IsAbs (dir +:+ "/" +:+ t) = true).
  { unfold IsAbs, HasPrefix in *. apply prefix_app_string in Hdir as [r ->]. apply prefix_app_string. by eexists. }
  wp_step. wp_step; [|intros s Hs; apply HE; intros Hr; by destruct (reliable_fails o s)]. case_bool_decide as Eb.
  - apply wp_throw, HE. intros _ E0. apply Eb. rewrite Ekey. apply map_eq. intros k. rewrite lookup_empty.
    destruct (below (path_key dir ++ [t]) fs !! k) as [f|] eqn:Ef; [|done]. apply map_lookup_filter_Some in Ef as [Hf Hp].
    assert (Hin : below (path_key dir) fs !! k = Some f) by (apply map_lookup_filter_Some; split; [done|]; by eapply prefix_app_l).
    by rewrite E0, lookup_empty in Hin.
  - apply wp_ret. by apply (HQ t); [apply Ht..| |].
Qed.

(** The directory of the job holds the manifest and the values. *)
Definition published (fs fs' : FS) : Prop :=
  fl_data <$> fs' !! (J ++ ["secrets"; "manifest.json"]) = Some (manifest_Marshal (manifest_of 0 (jb_Secrets job))) /\
  exists values, Forall2 (stored fs root (jb_ProjectID job)) (jb_Secrets job) values /\
    Forall2 (fun m v => fl_data <$> fs' !! (J ++ ["secrets"; mf_Source m]) = Some v) (manifest_of 0 (jb_Secrets job)) values.

(** Renaming the directory [t] of the job to [secrets]. *)
Lemma rename_spec t fs : t <> "secrets" ->
  let fs1 := outside (J ++ ["secrets"]) fs in
  let fs2 := moved (J ++ [t]) (J ++ ["secrets"]) fs1 ∪ outside (J ++ [t]) fs1 in
  same_outside fs fs2 /\ (forall x f, fs !! (J ++ [t; x]) = Some f -> fs2 !! (J ++ ["secrets"; x]) = Some f).
Proof using.
  intros Ht fs1 fs2. split.
  - transitivity fs1; [apply same_remove|]. intros k Hk. subst fs2. rewrite lookup_union_r; [by apply (same_remove t [])|].
    apply lookup_moved_None. intros Hp. apply Hk. by eapply prefix_app_l.
  - intros x f Hf. subst fs2. apply lookup_union_Some_l. change (J ++ ["secrets"; x]) with (J ++ ["secrets"] ++ [x]).
    rewrite (assoc_L (++)), lookup_moved, <- (assoc_L (++)). subst fs1. rewrite lookup_outside; [done|].
    apply (not_prefix_child J "secrets" t [x]). congruence.
Qed.

Lemma publish_spec t temporary d fs :
  IsAbs temporary = true -> path_key temporary = J ++ [t] -> t <> "secrets" -> (length (jb_Secrets job) <= 1000)%nat -> Forall loadable (jb_Secrets job) ->
  wp o (publish config root (Join (sg_JobsRoot config) (jb_ID job)) temporary job)
    (fun _ w => same_outside fs w.2 /\ published fs w.2) (fun _ w => refused fs (jb_Secrets job) w.2) (d, fs).
Proof using Hroot Hproject Hapart Hjobs Hid.
  intros Habs Hkey Ht Hlen Hl. unfold publish. destruct (path_key_child _ _ Hjobs Hid) as [EJ HJ].
  assert (Hnot : forall fs', same_outside fs fs' -> ~ reliable o -> refused fs (jb_Secrets job) fs') by (intros fs' Hs Hnr; split; [done|]; intros Hr; contradiction).
  wp_step. apply wp_on_runtime. apply wp_may_fail; [|intros s Hs; apply Hnot; [reflexivity|]; intros Hr; by eapply reliable_fails].
  wp_step. eapply wp_mono; [by apply (materialize_spec t)| |done].
  intros data [d1 fs1] (S1 & -> & S3 & values & S4 & S5). cbn [snd] in *.
  assert (Hmp : proper "manifest.json") by (by repeat split). destruct (path_key_child _ _ Habs Hmp) as [Em _].
  rewrite Hkey, <- (assoc_L (++)) in Em. simpl in Em.
  wp_step. apply wp_on_runtime. apply wp_WriteFile; rewrite Em.
  2:{ intros e f Hnr. apply Hnot; [|done]. etrans; [exact S1|apply same_insert]. }
  intros mode. set (fs2 := <[_ := _]> fs1). assert (S6 : same_outside fs fs2) by (etrans; [exact S1|apply same_insert]).
  assert (Hsp : proper "secrets") by (by repeat split). destruct (path_key_child _ _ HJ Hsp) as [Ed _]. rewrite EJ in Ed.
  wp_step. apply wp_on_runtime. apply wp_RemoveAll; [rewrite Ed|intros e Hnr; by apply Hnot].
  apply wp_on_runtime. apply wp_statement; rewrite ?Hkey, ?Ed.
  2:{ intros s Hs. apply Hnot; [etrans; [exact S6|apply (same_remove "secrets" [])]|]. intros Hr. by eapply reliable_fails. }
  destruct (rename_spec t fs2 Ht) as [R1 R2]. cbn [snd]. split; [by etrans|]. split.
  - by rewrite (R2 _ (mkFile (manifest_Marshal (manifest_of 0 (jb_Secrets job))) true mode)) by apply lookup_insert_eq.
  - exists values. split; [done|]. apply Forall2_lookup. intros i. pose proof (proj1 (Forall2_lookup _ _ _) S5 i) as Hi.
    destruct (manifest_of 0 (jb_Secrets job) !! i) as [m|] eqn:Ei; [|by inversion Hi; constructor]. inversion Hi as [? v Hv|]; subst. constructor.
    apply fmap_Some in Hv as (f & Hf & ->). rewrite (R2 _ f); [done|]. subst fs2. rewrite lookup_insert_ne; [done|].
    apply list_elem_of_lookup_2 in Ei. destruct (manifest_source _ _ _ Ei) as (j & name & Hj & ->). intros E. apply app_inv_head in E.
    injection E as E. apply (ValueFile_not_manifest j name); [lia|done].
Qed.

End Published.

(** ** Loading *)

Lemma wp_ReadFile (o : Oracle) (path : string) (f : File) (Q : list Z -> FS -> Prop) (E : Err -> FS -> Prop) (fs : FS) :
  reliable o -> fs !! path_key path = Some f -> Q (fl_data f) fs -> wp o (os_ReadFile path) Q E fs.
Proof.
  intros Hr Hf HQ. unfold os_ReadFile. wp_step. wp_step; [rewrite Hf; by apply wp_ret|]. intros s Hs. by destruct (reliable_fails o s).
Qed.

Lemma load_values_spec (o : Oracle) (directory : string) (fs : FS) : reliable o -> IsAbs directory = true ->
  forall bindings i values, (i + length bindings <= 1000)%nat -> Forall loadable bindings ->
  Forall2 (fun m v => fl_data <$> fs !! (path_key directory ++ [mf_Source m]) = Some v) (manifest_of i bindings) values ->
  wp o (load_values directory (manifest_of i bindings))
    (fun r fs' => fs' = fs /\ r = mkRuntimeValues values (variables bindings values)) (fun _ _ => False) fs.
Proof.
  intros Hr Hd. induction bindings as [|b rest IH]; intros i values Hi Hl Hv; cbn [manifest_of load_values].
  { inversion Hv; subst. by apply wp_ret. }
  cbn [manifest_of] in Hv. apply Forall2_cons_inv_l in Hv as (v & values' & Hv & Hvs & ->). cbn [mf_Source mf_Name mf_Environment] in *.
  apply Forall_cons in Hl as [[Hn [Hdots _]] Hl]. destruct (name_bytes _ Hn) as [Hp Ha]. cbn [length] in Hi.
  destruct (ValueFile_ok i (sb_Name b)) as (Hf & HB & _ & Hc); [lia|done|done|].
  rewrite HB, bool_decide_eq_true_2, Hc, Hdots by done. cbn [negb orb].
  destruct (path_key_child _ _ Hd Hf) as [Ek _]. apply fmap_Some in Hv as (f & Hfs & ->).
  wp_step. wp_step. eapply wp_ReadFile; [done|by rewrite Ek|]. wp_step. eapply wp_mono; [apply (IH (S i) values'); [lia|done|done]| |done].
  intros more fs' [-> ->]. apply wp_ret. split; [done|]. cbn [variables rv_Values rv_Environment]. by case_bool_decide.
Qed.

(** The manifest of loadable bindings decodes. *)
Lemma manifest_ascii bindings i : (i + length bindings <= 1000)%nat -> Forall loadable bindings ->
  Forall (fun b => ascii_only (mf_Name b) = true /\ ascii_only (mf_Source b) = true /\ ascii_only (mf_Environment b) = true /\
                   ascii_only (mf_File b) = true) (manifest_of i bindings).
Proof.
  intros Hi Hl. revert i Hi. induction Hl as [|b rest (Hn & Hdots & He & Hf) _ IH]; intros i Hi; cbn [manifest_of length] in *; constructor.
  - destruct (name_bytes _ Hn) as [Hp Ha]. destruct (ValueFile_ok i (sb_Name b)) as (_ & _ & Hv & _); [lia|done|done|]. done.
  - apply IH. lia.
Qed.

(** ** The round trip *)

(** The removal of the temporary directory leaves what was published. *)
Lemma published_remove `{ManifestCodec} (config : SecretsConfig) (root : string) (job : Job) (t : string) (fs fs' : FS) :
  t <> "secrets" -> published config root job fs fs' ->
  published config root job fs (outside ((path_key (sg_JobsRoot config) ++ [jb_ID job]) ++ [t]) fs').
Proof.
  intros Ht [H1 (values & H2 & H3)]. split; [by rewrite lookup_outside by (by apply not_prefix_child)|]. exists values. split; [done|].
  eapply Forall2_impl; [exact H3|]. intros m v Hv. by rewrite lookup_outside by (by apply not_prefix_child).
Qed.

(** What was published is what is loaded. *)
Lemma loads_published `{ManifestCodec} (config : SecretsConfig) (root : string) (job : Job) (fs fs' : FS) :
  IsAbs (sg_JobsRoot config) = true -> proper (jb_ID job) -> (length (jb_Secrets job) <= 1000)%nat -> Forall loadable (jb_Secrets job) ->
  published config root job fs fs' ->
  exists values, Forall2 (stored fs root (jb_ProjectID job)) (jb_Secrets job) values /\
    forall o, reliable o ->
      wp o (LoadRuntime (Join (Join (sg_JobsRoot config) (jb_ID job)) "secrets"))
        (fun r fs1 => fs1 = fs' /\ r = mkRuntimeValues values (variables (jb_Secrets job) values)) (fun _ _ => False) fs'.
Proof.
  intros Hjobs Hid Hlen Hl [H1 (values & H2 & H3)]. exists values. split; [done|]. intros o Hr.
  assert (Hsp : proper "secrets") by (by repeat split). assert (Hmp : proper "manifest.json") by (by repeat split).
  destruct (path_key_child _ _ Hjobs Hid) as [EJ HJ]. destruct (path_key_child _ _ HJ Hsp) as [Ed Hd]. rewrite EJ in Ed.
  destruct (path_key_child _ _ Hd Hmp) as [Em _]. rewrite Ed, <- (assoc_L (++)) in Em.
  apply fmap_Some in H1 as (f & Hf & Ef). unfold LoadRuntime. wp_step. wp_step. eapply wp_ReadFile; [done|by rewrite Em|].
  rewrite <- Ef, manifest_round_trip by (by apply manifest_ascii). apply load_values_spec; [done..|]. rewrite Ed.
  eapply Forall2_impl; [exact H3|]. intros m v Hv. by rewrite <- (assoc_L (++)).
Qed.



(** ** A job with a secret *)

Definition binding_fields (b : manifestBinding) : string * string * string * string := (mf_Name b, mf_Source b, mf_Environment b, mf_File b).
Definition binding_of (f : string * string * string * string) : manifestBinding := let '(n, s, e, p) := f in mkBinding n s e p.

#[local] Program Instance demo_manifest : ManifestCodec :=
  {| manifest_Marshal l := pos_bits (encode (map binding_fields l));
     manifest_Unmarshal l := map binding_of <$> (decode (bits_pos l) : option (list (string * string * string * string))) |}.
Next Obligation.
  intros l _. simpl. rewrite bits_pos_bits, decode_encode. simpl. f_equal. rewrite map_map.
  rewrite <- (map_id l) at 2. apply map_ext. by intros [].
Qed.

Definition secret_row (name : string) : JobRow :=
  mkJobRow "job1" "prj1" "" ["true"] "" [] [mkSecret name "TOKEN" ""] [] 0 "" "" 10 "job1" "" "" StatusQueued None None None "" false "".
Definition secret_db (name : string) : Database := mkDB (set_control_jobs [secret_row name] empty_tables) (mkFeed [] 0).
Definition secret_fs (name : string) : FS := {[ ["store"; "prj1"; name] := mkFile [104; 105] true 384 ]}.
Definition secret_config : SecretsConfig := mkSecretsConfig "/var/jobs" (Some "/store") false.
Definition secret_operation : Operation := mkOperation OperationJob "job1" OperationAdmitting 0 None 1 "" None.

Definition secret_run (name : string) : res unit * ((Database * FS) * nat) :=
  SecretsPrepare secret_config secret_operation demo_oracle ((secret_db name, secret_fs name), 0%nat).


(** A name with two dots in a row passes the validation of the submission and
    is published, but the entrypoint refuses the manifest. *)
Lemma dotted_secret_refused :
  validateSecrets [Some (mkJobSecret "a..b" (TargetEnvironment "TOKEN"))] [] = inl [mkSecret "a..b" "TOKEN" ""] /\
  (secret_run "a..b").1 = Ok tt /\
  (LoadRuntime "/var/jobs/job1/secrets" demo_oracle ((secret_run "a..b").2.1.2, 0%nat)).1 = Fail (ErrText "job secret manifest contains an invalid source").
Proof. vm_compute. repeat split; reflexivity. Qed.
