(* ===== verification/Swarm.v ===== *)
(** * Jobs as Swarm services

    [internal/control/swarmscheduler/scheduler.go] and the Swarm part of
    [internal/adapter/docker] ([swarm.go], [errors.go]): a job becomes a service
    that runs once, its identity and its limits are written into labels, and the
    status of a job is read back from the service and its tasks.  Maps of labels
    are association lists without duplicate keys. *)
From Stdlib Require Import Ascii.
From S2P Require Import Prelude Model GoMonad GoLib GoStrings Encoding Path Host Dispatcher Secrets.

(** ** Errors of the engine *)

Inductive ErrorClass := ErrorNotFound | ErrorRetryable | ErrorPoisoned | ErrorContract | ErrorPermanent.

#[export] Instance ErrorClass_eq_dec : EqDecision ErrorClass.
Proof. solve_decision. Defined.

(** [Classify] of an error that is not nil. *)
Definition Classify (e : Err) : ErrorClass :=
  match e with
  | ErrRuntime IsNotFound _ => ErrorNotFound
  | ErrRuntime (IsUnavailable | IsDeadlineExceeded | IsAborted | IsResourceExhausted | IsConflict | IsInternal | IsTransport | IsUnexpectedEOF) _ =>
      ErrorRetryable
  | ErrRuntime (IsDataLoss | IsInvalidArgument) _ => ErrorPoisoned
  | ErrRuntime (IsNotImplemented | IsOutOfRange) _ => ErrorContract
  | _ => ErrorPermanent
  end.

(** [fmt.Errorf("...: %w", ..., e)]: the text before the error, and what
    [errors.Is] and [errors.As] find in it. *)
Definition Errorf (context : string) (e : Err) : Err :=
  match e with
  | ErrRuntime kind message => ErrRuntime kind (context +:+ ": " +:+ message)
  | ErrText message => ErrText (context +:+ ": " +:+ message)
  | ErrDriver message => ErrDriver (context +:+ ": " +:+ message)
  | e => e
  end.

(** ** Services *)

Definition Labels := list (string * string).

(** [labels[key]]: the empty string when there is none. *)
Definition label (labels : Labels) (key : string) : string :=
  match list_find (fun kv => kv.1 = key) labels with Some (_, (_, v)) => v | None => "" end.

(** [labels[key] = value]. *)
Fixpoint set_label (key value : string) (labels : Labels) : Labels :=
  match labels with
  | [] => [(key, value)]
  | (k, v) :: rest => if bool_decide (k = key) then (key, value) :: rest else (k, v) :: set_label key value rest
  end.

Inductive MountType := TypeBind | TypeTmpfs.
Record Mount := mkMount { mt_Type : MountType; mt_Source : string; mt_Target : string; mt_ReadOnly : bool; mt_SizeBytes : option Z }.

Record ResourceEnvelope := mkEnvelope {
  re_CPULimitNano : Z; re_CPUReservationNano : Z; re_MemoryLimitBytes : Z; re_MemoryReservationBytes : Z; re_PIDsLimit : Z
}.

Record ContainerSpec := mkContainer {
  ct_Image : string; ct_Command : list string; ct_Args : list string; ct_Env : list string; ct_User : string; ct_Init : bool;
  ct_Mounts : list Mount; ct_StopGracePeriod : duration
}.

(** [engineswarm.ServiceSpec], with the fields the adapter sets.  The restart
    policy is [none], the network [host]; [ss_TotalCompletions] is [None] when
    the service is not a replicated job. *)
Record ServiceSpec := mkServiceSpec {
  ss_Name : string; ss_Labels : Labels; ss_Container : option ContainerSpec; ss_Resources : ResourceEnvelope;
  ss_LogOptions : Labels; ss_MaxConcurrent : Z; ss_TotalCompletions : option Z
}.

Record Service := mkService { sv_ID : string; sv_Version : Z; sv_CreatedAt : time; sv_UpdatedAt : time; sv_Spec : ServiceSpec }.

Inductive TaskState :=
| TaskNew | TaskAllocated | TaskPending | TaskAssigned | TaskAccepted | TaskPreparing | TaskReady | TaskStarting
| TaskRunning | TaskComplete | TaskShutdown | TaskFailed | TaskRejected | TaskRemove | TaskOrphaned | TaskOther (name : string).

Record Task := mkTask {
  tk_CreatedAt : time; tk_UpdatedAt : time; tk_NodeID : string; tk_State : TaskState; tk_Timestamp : time; tk_Err : string;
  tk_ContainerExit : option Z
}.

(** ** The engine *)

(** How a call refers to a service.  The engine takes a string for an identifier
    first and for a name otherwise.  Its identifiers have 25 characters and those
    of jobs, which are the names of services, have 27: a string is one or the
    other. *)
Inductive ServiceKey := ByName (name : string) | ByID (id : string).

Definition refers (key : ServiceKey) (s : Service) : bool :=
  match key with ByName name => bool_decide (ss_Name (sv_Spec s) = name) | ByID id => bool_decide (sv_ID s = id) end.
Definition find_service (key : ServiceKey) (services : list Service) : option Service := head (select (refers key) services).

(** The parts of a specification that the engine keeps as they are; it resolves
    the image to a digest. *)
Definition same_spec (a b : ServiceSpec) : Prop :=
  ss_Name a = ss_Name b /\ ss_Labels a = ss_Labels b /\ ss_TotalCompletions a = ss_TotalCompletions b /\
  option_map ct_Args (ss_Container a) = option_map ct_Args (ss_Container b).

Definition replace_service (s : Service) (services : list Service) : list Service :=
  map (fun x => if bool_decide (sv_ID x = sv_ID s) then s else x) services.

Definition drop_service (key : ServiceKey) (services : list Service) : list Service := select (fun s => negb (refers key s)) services.

(** The Docker Engine: its services and their tasks.  A call that returns an
    error may have taken effect, with the exception of "not found", which says
    that the object is not there.  Identifiers and names of services are
    unique. *)
Class SwarmEngine (R : Type) := {
  se_services : R -> list Service;
  se_tasks : R -> string -> list Task;
  se_ClientVersion : string;
  se_Info : M R string;
  se_ServiceCreate : ServiceSpec -> M R string;
  se_ServiceInspect : ServiceKey -> M R Service;
  se_ServiceList : string -> M R (list Service);
  se_TaskList : string -> M R (list Task);
  se_ServiceUpdate : string -> Z -> ServiceSpec -> M R unit;
  se_ServiceRemove : ServiceKey -> M R unit;
  se_ImagePull : string -> M R unit;
  se_ImageInspect : string -> M R string;
  se_ids : forall r, NoDup (map sv_ID (se_services r)) /\ NoDup (map (fun s => ss_Name (sv_Spec s)) (se_services r)) /\
    forall s, s ∈ se_services r -> sv_ID s <> "";
  se_create_law : forall o spec r,
    let created id r' := exists s, se_services r' = se_services r ++ [s] /\ sv_ID s = id /\ same_spec (sv_Spec s) spec /\ se_tasks r' id = [] in
    wp o (se_ServiceCreate spec) (fun id r' => created id r') (fun _ r' => se_services r' = se_services r \/ exists id, created id r') r;
  se_inspect_law : forall o key r,
    wp o (se_ServiceInspect key) (fun s r' => r' = r /\ find_service key (se_services r) = Some s)
      (fun e r' => r' = r /\ (Classify e = ErrorNotFound -> find_service key (se_services r) = None)) r;
  se_list_law : forall o key r,
    wp o (se_ServiceList key) (fun l r' => r' = r /\ l = select (fun s => bool_decide (label (ss_Labels (sv_Spec s)) key = "true")) (se_services r))
      (fun _ r' => r' = r) r;
  se_task_law : forall o id r, wp o (se_TaskList id) (fun l r' => r' = r /\ l = se_tasks r id) (fun _ r' => r' = r) r;
  se_update_law : forall o id version spec r,
    let updated r' := exists s s', s ∈ se_services r /\ sv_ID s = id /\ sv_ID s' = id /\ same_spec (sv_Spec s') spec /\
      se_services r' = replace_service s' (se_services r) in
    wp o (se_ServiceUpdate id version spec) (fun _ r' => updated r')
      (fun e r' => (se_services r' = se_services r \/ updated r') /\ (Classify e = ErrorNotFound -> (id ∉ map sv_ID (se_services r)) /\ se_services r' = se_services r)) r;
  se_remove_law : forall o key r,
    wp o (se_ServiceRemove key) (fun _ r' => se_services r' = drop_service key (se_services r))
      (fun _ r' => se_services r' = se_services r \/ se_services r' = drop_service key (se_services r)) r;
  se_pull_law : forall o image r, wp o (se_ImagePull image) (fun _ r' => r' = r) (fun _ r' => r' = r) r;
  se_image_law : forall o image r, wp o (se_ImageInspect image) (fun _ r' => r' = r) (fun _ r' => r' = r) r
}.

(** ** [swarmscheduler] *)

Record SecretMount := mkSecretMount { sm_Source : string; sm_Target : string }.

Record Spec := mkSpec {
  sp_ID : string; sp_Image : string; sp_CASAddress : string; sp_CASInstance : string; sp_RootDigest : string; sp_JobsRoot : string;
  sp_Command : list string; sp_WorkingDirectory : string; sp_Environment : list (string * string); sp_EntrypointHostPath : string;
  sp_Timeout : duration; sp_CacheRoot : string; sp_ProjectID : string; sp_Caches : list CacheMount; sp_Secrets : list SecretMount;
  sp_HasSecrets : bool; sp_HostUID : string; sp_HostGID : string; sp_Resources : ResourceEnvelope
}.

Record SwarmConfig := mkSwarmConfig {
  wc_CASAddress : string; wc_CASInstance : string; wc_JobsRoot : string; wc_EntrypointHostPath : string; wc_CacheRoot : string;
  wc_HostUID : string; wc_HostGID : string; wc_Resources : ResourceEnvelope
}.

(** [ResourceEnvelope.Validate]. *)
Definition envelope_Validate (r : ResourceEnvelope) : option Err :=
  if (re_CPULimitNano r <=? 0) || (re_CPUReservationNano r <=? 0) || (re_MemoryLimitBytes r <=? 0) || (re_MemoryReservationBytes r <=? 0)
     || (re_PIDsLimit r <=? 0)
  then Some (ErrText "job CPU, memory, and PID resource limits are required") else
  if (re_CPULimitNano r <? re_CPUReservationNano r) || (re_MemoryLimitBytes r <? re_MemoryReservationBytes r)
  then Some (ErrText "job resource reservations cannot exceed limits") else None.

(** The mounts of the secrets that have a file, by their position among all. *)
Fixpoint secret_mounts (directory : string) (index : nat) (secrets : list SecretBinding) : list SecretMount :=
  match secrets with
  | [] => []
  | b :: rest =>
      let more := secret_mounts directory (S index) rest in
      if bool_decide (sb_File b = "") then more
      else mkSecretMount (Join directory (ValueFile index (sb_Name b))) (sb_File b) :: more
  end.

Definition specForJob (config : SwarmConfig) (job : Job) : Spec :=
  mkSpec (jb_ID job) (jb_Image job) (wc_CASAddress config) (wc_CASInstance config) (jb_RootDigest job) (wc_JobsRoot config)
    (jb_Command job) (jb_WorkingDirectory job) (jb_Environment job) (wc_EntrypointHostPath config) (jb_Timeout job) (wc_CacheRoot config)
    (jb_ProjectID job) (jb_Caches job) (secret_mounts (Join (Join (wc_JobsRoot config) (jb_ID job)) "secrets") 0 (jb_Secrets job))
    (negb (bool_decide (jb_Secrets job = []))) (wc_HostUID config) (wc_HostGID config) (wc_Resources config).

(** ** [serviceSpec] *)

Definition managedLabel : string := "autback.managed".
Definition cancelledLabel : string := "autback.cancelled".
Definition RuntimeDirectory : string := "/run/autback/secrets".

Definition fallback (value defaultValue : string) : string := if bool_decide (value = "") then defaultValue else value.
Definition encodeLabel (value : string) : string := base64url (bytes value).
Definition decodeLabel (value : string) : string := match base64url_decode value with Some l => of_bytes l | None => value end.

Definition cache_mount_before (a b : CacheMount) : bool :=
  if bool_decide (cm_Name a = cm_Name b) then String.leb (cm_Target a) (cm_Target b) else String.leb (cm_Name a) (cm_Name b).

Definition bind_mount (source target : string) (readOnly : bool) : Mount := mkMount TypeBind source target readOnly None.

Definition spec_environment (spec : Spec) : list string :=
  let workspace := Join (Join (sp_JobsRoot spec) (sp_ID spec)) "workspace" in
  [ "AUTBACK_JOB_ID=" +:+ sp_ID spec; "AUTBACK_WORKSPACE=" +:+ workspace; "AUTBACK_HOST_UID=" +:+ sp_HostUID spec;
    "AUTBACK_HOST_GID=" +:+ sp_HostGID spec; "AUTBACK_CAS_ADDRESS=" +:+ sp_CASAddress spec;
    "AUTBACK_CAS_INSTANCE=" +:+ fallback (sp_CASInstance spec) "autback"; "AUTBACK_ROOT_DIGEST=" +:+ sp_RootDigest spec;
    "AUTBACK_TIMEOUT_MILLIS=" +:+ Itoa (Milliseconds (sp_Timeout spec));
    "AUTBACK_WORKING_DIRECTORY=" +:+ fallback (sp_WorkingDirectory spec) "."; "TESTCONTAINERS_HOST_OVERRIDE=localhost";
    "TESTCONTAINERS_DOCKER_SOCKET_OVERRIDE=/var/run/docker.sock"; "RYUK_RECONNECTION_TIMEOUT=5s"; "TMPDIR=/tmp";
    "TEST_DATA_DIR=" +:+ Join (Join workspace ".autback") "data" ]
  ++ map (fun kv => kv.1 +:+ "=" +:+ kv.2) (order_by (fun a b => String.leb a.1 b.1) (sp_Environment spec)).

Definition spec_mounts (spec : Spec) : list Mount :=
  [ bind_mount (sp_JobsRoot spec) (sp_JobsRoot spec) false; bind_mount "/var/run/docker.sock" "/var/run/docker.sock" false;
    mkMount TypeTmpfs "" "/dev/shm" false (Some (2 ^ 30)) ]
  ++ (if sp_HasSecrets spec then [bind_mount (Join (Join (sp_JobsRoot spec) (sp_ID spec)) "secrets") RuntimeDirectory true] else [])
  ++ map (fun s => bind_mount (sm_Source s) (sm_Target s) true) (sp_Secrets spec)
  ++ map (fun c => bind_mount (Join (Join (sp_CacheRoot spec) (sp_ProjectID spec)) (cm_Name c)) (cm_Target c) false)
       (order_by cache_mount_before (sp_Caches spec))
  ++ (if bool_decide (sp_EntrypointHostPath spec = "") then []
      else [bind_mount (sp_EntrypointHostPath spec) "/usr/local/bin/autback-job-entrypoint" true]).

(** The label of the timeout is [int(Timeout.Seconds())]: whole seconds, for the
    timeouts of at most a day that a submission may have. *)
Definition serviceSpec (spec : Spec) : ServiceSpec :=
  mkServiceSpec (sp_ID spec)
    [ (managedLabel, "true"); ("autback.project", sp_ProjectID spec); ("autback.job", sp_ID spec); ("autback.image", encodeLabel (sp_Image spec));
      ("autback.timeout_seconds", Itoa (Z.quot (sp_Timeout spec) Second)); ("autback.root_digest", sp_RootDigest spec) ]
    (Some (mkContainer (sp_Image spec) ["/usr/local/bin/autback-job-entrypoint"] (sp_Command spec) (spec_environment spec) "0:0" true
             (spec_mounts spec) (15 * Second)))
    (sp_Resources spec) [("max-size", "10m"); ("max-file", "2")] 1 (Some 1).

(** ** Versions *)

Definition minimumRuntimeAPI : string := "1.41".

Definition parseAPIVersion (value : string) : option (Z * Z) :=
  match cut "."%char value with
  | None => None
  | Some (majorText, minorText) => major ← Atoi majorText; minor ← Atoi minorText; Some (major, minor)
  end.

Definition apiVersionAtLeast (actual minimum : string) : bool :=
  match parseAPIVersion actual, parseAPIVersion minimum with
  | Some (actualMajor, actualMinor), Some (minimumMajor, minimumMinor) =>
      (minimumMajor <? actualMajor) || ((actualMajor =? minimumMajor) && (minimumMinor <=? actualMinor))
  | _, _ => false
  end.

(** ** Status *)

Definition runtimeTaskStatus (state : TaskState) (exitCode : Z) (cancelled : bool) : Status :=
  if cancelled then StatusCancelled else
  match state with
  | TaskNew | TaskAllocated | TaskPending | TaskAssigned | TaskAccepted | TaskPreparing | TaskReady | TaskStarting => StatusQueued
  | TaskRunning => StatusRunning
  | TaskComplete => if exitCode =? 0 then StatusSucceeded else StatusFailed
  | TaskFailed | TaskRejected => if exitCode =? 124 then StatusTimedOut else StatusFailed
  | TaskOrphaned | TaskShutdown | TaskRemove => StatusLost
  | TaskOther _ => StatusLost
  end.

Definition state_name (state : TaskState) : string :=
  match state with
  | TaskNew => "new" | TaskAllocated => "allocated" | TaskPending => "pending" | TaskAssigned => "assigned" | TaskAccepted => "accepted"
  | TaskPreparing => "preparing" | TaskReady => "ready" | TaskStarting => "starting" | TaskRunning => "running" | TaskComplete => "complete"
  | TaskShutdown => "shutdown" | TaskFailed => "failed" | TaskRejected => "rejected" | TaskRemove => "remove" | TaskOrphaned => "orphaned"
  | TaskOther name => name
  end.

(** [%q] of a state name, which has no character to escape. *)
Definition quoted (name : string) : string := String "034"%char name +:+ String "034"%char "".

(** [protocol.Job]: what the reconciler uses, and the rest. *)
Record ProtocolJob := mkProtocolJob {
  pj_Job : RemoteJob; pj_ProjectID : string; pj_Image : string; pj_Command : list string; pj_RootDigest : string; pj_TimeoutSeconds : Z
}.

Definition poisonedService (id detail : string) : Err := ErrRuntime IsDataLoss ("inspect Swarm job " +:+ id +:+ ": " +:+ detail).

Definition required_labels : list string :=
  [managedLabel; "autback.project"; "autback.job"; "autback.image"; "autback.timeout_seconds"; "autback.root_digest"].

(** The first required label that a service lacks. *)
Definition missing_label (labels : Labels) : option string := head (select (fun key => bool_decide (label labels key = "")) required_labels).

(** The checks of [status], and the job as the labels describe it. *)
Definition labelled_job (service : Service) (fallbackID : string) : ProtocolJob + Err :=
  let id := fallback (ss_Name (sv_Spec service)) fallbackID in
  match ss_Container (sv_Spec service) with
  | None => inr (poisonedService id "missing container spec")
  | Some container =>
      let labels := ss_Labels (sv_Spec service) in
      if bool_decide (sv_ID service = "") then inr (poisonedService id "missing service ID") else
      match missing_label labels with
      | Some key => inr (poisonedService id ("missing " +:+ key +:+ " label"))
      | None =>
          if negb (bool_decide (label labels managedLabel = "true")) then inr (poisonedService id ("invalid " +:+ managedLabel +:+ " label")) else
          if negb (bool_decide (label labels "autback.job" = id)) then inr (poisonedService id "autback.job label does not match service name") else
          match Atoi (label labels "autback.timeout_seconds") with
          | None => inr (poisonedService id "invalid autback.timeout_seconds label")
          | Some timeoutSeconds =>
              if timeoutSeconds <? 0 then inr (poisonedService id "invalid autback.timeout_seconds label") else
              let cancelled := bool_decide (label labels cancelledLabel = "true") in
              inl (mkProtocolJob
                (mkRemoteJob id (if cancelled then StatusCancelled else StatusQueued) "" (sv_CreatedAt service) None
                   (if cancelled then Some (sv_UpdatedAt service) else None) cancelled None "")
                (label labels "autback.project") (decodeLabel (label labels "autback.image")) (ct_Args container)
                (label labels "autback.root_digest") timeoutSeconds)
          end
      end
  end.

Section Status.
Context `{CaseTables}.

Definition resourceFailureMessage (exitCode : Z) (runtimeError : string) : string :=
  let lower := ToLower runtimeError in
  let explain (diagnosis : string) := if bool_decide (runtimeError = "") then diagnosis else diagnosis +:+ ": " +:+ runtimeError in
  if (exitCode =? 137) || str_contains lower "oom" || str_contains lower "out of memory"
  then explain "workload exceeded the memory/resource envelope or was OOM-killed; inspect cgroup memory.events and PSI telemetry" else
  if str_contains lower "pids limit" || str_contains lower "resource temporarily unavailable" || str_contains lower "cannot fork"
  then explain "workload exceeded its process/PID limit; inspect cgroup pids.current and pids.max" else
  if str_contains lower "no space left" && str_contains lower "inode"
  then explain "worker inode capacity was exhausted; inspect disk inode telemetry and capacity status" else
  if str_contains lower "no space left"
  then explain "worker disk capacity was exhausted; inspect disk telemetry and capacity status"
  else runtimeError.

Definition exit_code (task : Task) (cancelled : bool) : Z :=
  match tk_ContainerExit task with
  | Some code => code
  | None => if cancelled then 130 else if Terminal (runtimeTaskStatus (tk_State task) 1 false) then 1 else 0
  end.

Definition failure_message (task : Task) (status : Status) (exitCode : Z) : string :=
  let message := resourceFailureMessage exitCode (tk_Err task) in
  if bool_decide (message = "") && negb (bool_decide (status = StatusCancelled)) then
    match tk_ContainerExit task with
    | None => "Swarm task entered terminal state " +:+ quoted (state_name (tk_State task)) +:+ " without container status"
    | Some _ => if bool_decide (status = StatusLost) then "Swarm task entered non-success state " +:+ quoted (state_name (tk_State task)) else message
    end
  else message.

(** The job with what its newest task says. *)
Definition with_task (task : Task) (job : ProtocolJob) : ProtocolJob :=
  let r := pj_Job job in
  let exitCode := exit_code task (rj_CancelRequested r) in
  let status := runtimeTaskStatus (tk_State task) exitCode (rj_CancelRequested r) in
  let started := if bool_decide (tk_CreatedAt task = zero_time) then rj_StartedAt r else Some (tk_CreatedAt task) in
  let finished := if bool_decide (tk_Timestamp task = zero_time) then tk_UpdatedAt task else tk_Timestamp task in
  let r' :=
    if Terminal status
    then mkRemoteJob (rj_ID r) status (tk_NodeID task) (rj_CreatedAt r) started (Some finished) (rj_CancelRequested r) (Some exitCode)
           (failure_message task status exitCode)
    else mkRemoteJob (rj_ID r) status (tk_NodeID task) (rj_CreatedAt r) started (rj_FinishedAt r) (rj_CancelRequested r) (rj_ExitCode r)
           (rj_ErrorMessage r) in
  mkProtocolJob r' (pj_ProjectID job) (pj_Image job) (pj_Command job) (pj_RootDigest job) (pj_TimeoutSeconds job).

Definition newest_task (a b : Task) : bool := tk_CreatedAt b <=? tk_CreatedAt a.

(** ** [docker.Client] *)

Section Client.
Context {R : Type} `{SwarmEngine R}.

Definition in_context {A : Type} (context : string) (m : M R A) : M R A :=
  r ← attempt m; match r with Ok a => mret a | Fail e => throw (Errorf context e) end.

(** [Check]: the state of the local node, by its name. *)
Definition swarm_Check : M R unit :=
  state ← in_context "inspect Docker Swarm" se_Info;
  if negb (apiVersionAtLeast se_ClientVersion minimumRuntimeAPI)
  then throw (ErrRuntime IsOutOfRange ("Docker Engine API " +:+ se_ClientVersion +:+ " is below Autback minimum " +:+ minimumRuntimeAPI)) else
  if bool_decide (state = "active") then mret tt
  else throw (ErrText ("Docker Swarm is " +:+ fallback state "unavailable" +:+ ", want active")).

Definition swarm_ValidateImage (image : string) : M R unit :=
  _ ← in_context ("pull image " +:+ image) (se_ImagePull image);
  id ← in_context ("inspect image " +:+ image) (se_ImageInspect image);
  if HasPrefix id "sha256:" then mret tt else throw (ErrRuntime IsDataLoss ("inspect image " +:+ image)).

Definition client_Create (spec : Spec) : M R string :=
  if bool_decide (sp_ID spec = "") then throw (ErrRuntime IsInvalidArgument "job ID is required") else
  if bool_decide (sp_Image spec = "") then throw (ErrRuntime IsInvalidArgument "project image is required") else
  match envelope_Validate (sp_Resources spec) with
  | Some e => throw (ErrRuntime IsOutOfRange ("job resource envelope: " +:+ match e with ErrText message => message | _ => "" end))
  | None => in_context ("create Swarm job " +:+ sp_ID spec) (se_ServiceCreate (serviceSpec spec))
  end.

Definition client_status (service : Service) (fallbackID : string) : M R ProtocolJob :=
  match labelled_job service fallbackID with
  | inr e => throw e
  | inl job =>
      tasks ← in_context ("list Swarm job " +:+ rj_ID (pj_Job job) +:+ " tasks") (se_TaskList (sv_ID service));
      mret match order_by newest_task tasks with [] => job | task :: _ => with_task task job end
  end.

Definition client_Status (id : string) : M R ProtocolJob :=
  service ← in_context ("inspect Swarm job " +:+ id) (se_ServiceInspect (ByName id));
  client_status service id.

(** The specification of a cancelled service. *)
Definition cancelled_spec (spec : ServiceSpec) : ServiceSpec :=
  mkServiceSpec (ss_Name spec) (set_label cancelledLabel "true" (ss_Labels spec)) (ss_Container spec) (ss_Resources spec) (ss_LogOptions spec)
    (ss_MaxConcurrent spec) (Some 0).

(** [left] attempts remain, this one included. *)
Fixpoint cancel_attempts (left : nat) (id : string) : M R unit :=
  match left with
  | O => mret tt
  | S left' =>
      inspection ← attempt (se_ServiceInspect (ByName id));
      match inspection with
      | Fail e => if bool_decide (Classify e = ErrorNotFound) then mret tt else throw (Errorf ("inspect Swarm job " +:+ id +:+ " for cancellation") e)
      | Ok service =>
          match ss_TotalCompletions (sv_Spec service) with
          | None => throw (ErrRuntime IsDataLoss ("cancel Swarm job " +:+ id +:+ ": service is not a replicated job"))
          | Some _ =>
              updated ← attempt (se_ServiceUpdate (sv_ID service) (sv_Version service) (cancelled_spec (sv_Spec service)));
              match updated with
              | Ok _ => mret tt
              | Fail e =>
                  if bool_decide (Classify e = ErrorNotFound) then mret tt else
                  if negb (bool_decide (Classify e = ErrorRetryable)) || (left' =? 0)%nat then throw (Errorf ("cancel Swarm job " +:+ id) e)
                  else cancel_attempts left' id
              end
          end
      end
  end.

Definition swarm_Cancel (id : string) : M R unit := cancel_attempts 3 id.

Definition swarm_Remove (id : string) : M R unit :=
  removed ← attempt (se_ServiceRemove (ByName id));
  match removed with
  | Ok _ => mret tt
  | Fail e => if bool_decide (Classify e = ErrorNotFound) then mret tt else throw (Errorf ("remove Swarm job " +:+ id) e)
  end.

(** The zero value of [protocol.Job]. *)
Definition zero_remote : RemoteJob := mkRemoteJob "" StatusPreparing "" zero_time None None false None "".

(** The loop of [ListResults]. *)
Fixpoint list_results (summaries : list Service) : M R (list RuntimeJob) :=
  match summaries with
  | [] => mret []
  | summary :: rest =>
      let id := fallback (ss_Name (sv_Spec summary)) (sv_ID summary) in
      inspection ← attempt (se_ServiceInspect (if bool_decide (sv_ID summary = "") then ByName id else ByID (sv_ID summary)));
      result ← match inspection with
               | Fail e => mret (mkRuntimeJob id zero_remote (Some (Errorf ("inspect Swarm job " +:+ id) e)))
               | Ok service =>
                   status ← attempt (client_status service id);
                   mret match status with
                        | Ok job => mkRuntimeJob id (pj_Job job) None
                        | Fail e => mkRuntimeJob id zero_remote (Some e)
                        end
               end;
      more ← list_results rest;
      mret (result :: more)
  end.

Definition result_before (a b : RuntimeJob) : bool :=
  if rj_CreatedAt (rt_Job a) =? rj_CreatedAt (rt_Job b) then String.leb (rt_ID a) (rt_ID b)
  else rj_CreatedAt (rt_Job b) <=? rj_CreatedAt (rt_Job a).

(** [ListResults], handed on by [Scheduler.ManagedJobs] with its error. *)
Definition swarm_ManagedJobs : M R (list RuntimeJob * option Err) :=
  services ← attempt (se_ServiceList managedLabel);
  match services with
  | Fail e => mret ([], Some (Errorf "list Swarm jobs" e))
  | Ok services => results ← list_results services; mret (order_by result_before results, None)
  end.

(** ** [swarmscheduler.Scheduler] *)

Context (config : SwarmConfig).

Fixpoint cache_directories (root projectID : string) (caches : list CacheMount) : M R unit :=
  match caches with
  | [] => mret tt
  | cache :: rest =>
      if negb (safeChild (cm_Name cache)) then throw (ErrText "cache name is not a safe path component") else
      _ ← may_fail; _ ← may_fail; _ ← time_Now; _ ← may_fail;
      cache_directories root projectID rest
  end.

(** Directories, their permissions and times are outside the model. *)
Definition prepareCacheDirectories (root projectID : string) (caches : list CacheMount) : M R unit :=
  if bool_decide (caches = []) then mret tt else
  if bool_decide (root = "") || negb (safeChild projectID) then throw (ErrText "cache root and safe project ID are required") else
  cache_directories root projectID caches.

Definition swarm_Create (job : Job) : M R unit :=
  match envelope_Validate (wc_Resources config) with
  | Some e => throw e
  | None =>
      _ ← prepareCacheDirectories (wc_CacheRoot config) (jb_ProjectID job) (jb_Caches job);
      _ ← client_Create (specForJob config job);
      mret tt
  end.

End Client.
End Status.
