(* ===== verification/SwarmTheorems.v ===== *)
(** * Swarm services implement the scheduler

    The adapter of [Swarm] over an engine is a [Scheduler] and a [JobRuntime]:
    the theorems about the dispatcher, the reconciler and the control API apply
    to it.  What was created is what the status describes. *)
From S2P Require Import Prelude Model GoMonad GoLib GoStrings Encoding Path Host Dispatcher Validate ValidateTheorems Secrets ControlAPI Swarm.

Section Context.
Context {R : Type}.

Lemma wp_in_context {A} o context (m : M R A) (Q : A -> R -> Prop) E r :
  wp o m Q (fun e => E (Errorf context e)) r -> wp o (in_context context m) Q E r.
Proof.
  intros Hm. unfold in_context. wp_step. wp_step. eapply wp_mono; [exact Hm| |]; intros; [by apply wp_ret|by apply wp_throw].
Qed.

End Context.

Lemma label_set key value labels : label (set_label key value labels) key = value.
Proof.
  unfold label. induction labels as [|[k v] rest IH]; simpl; [by rewrite decide_True|]. case_bool_decide as E; simpl.
  - by rewrite decide_True by done.
  - rewrite decide_False by done. by destruct (list_find _ (set_label key value rest)) as [[i [k' v']]|].
Qed.

Section Implements.
Context {R : Type} `{SwarmEngine R} `{CaseTables} (config : SwarmConfig).

(** A service of the job, and one that is marked as cancelled. *)
Definition has_service (r : R) (id : string) : Prop := exists s, s ∈ se_services r /\ ss_Name (sv_Spec s) = id.
Definition has_cancelled (r : R) (id : string) : Prop :=
  exists s, s ∈ se_services r /\ ss_Name (sv_Spec s) = id /\ label (ss_Labels (sv_Spec s)) cancelledLabel = "true".
Definition others (id : string) (r r' : R) : Prop :=
  forall id', id' <> id -> (has_service r' id' <-> has_service r id') /\ (has_cancelled r' id' <-> has_cancelled r id').

Lemma others_same id r r' : se_services r' = se_services r -> others id r r'.
Proof using. intros E id' _. unfold has_service, has_cancelled. by rewrite E. Qed.

Lemma others_trans id r1 r2 r3 : others id r1 r2 -> others id r2 r3 -> others id r1 r3.
Proof using. intros H1 H2 id' Hne. destruct (H1 id' Hne) as [A1 B1], (H2 id' Hne) as [A2 B2]. split; [by rewrite A2, A1|by rewrite B2, B1]. Qed.

(** Services of other jobs are the same. *)
Lemma others_services id r r' :
  (forall s, ss_Name (sv_Spec s) <> id -> s ∈ se_services r' <-> s ∈ se_services r) -> others id r r'.
Proof using. intros Hs id' Hne. split; split; intros (s & Hin & Hr); exists s; (split; [apply Hs; [naive_solver|done]|exact Hr]). Qed.

Lemma others_append id s r r' : ss_Name (sv_Spec s) = id -> se_services r' = se_services r ++ [s] -> others id r r'.
Proof using.
  intros Hn E. apply others_services. intros x Hx. rewrite E, elem_of_app, list_elem_of_singleton. split; [|by left].
  intros [? | ->]; [done|contradiction].
Qed.

Lemma same_id r s s' : s ∈ se_services r -> s' ∈ se_services r -> sv_ID s = sv_ID s' -> s = s'.
Proof using. intros. eapply (NoDup_map_inj sv_ID); [apply se_ids|done..]. Qed.

(** A service that takes the place of another one of the same name. *)
Lemma replace_spec r s s' x :
  s ∈ se_services r -> sv_ID s' = sv_ID s -> x ∈ replace_service s' (se_services r) <-> x = s' \/ (x ∈ se_services r /\ x <> s).
Proof using.
  intros Hs Hid. unfold replace_service. rewrite list_elem_of_fmap. split.
  - intros (y & -> & Hy). case_bool_decide as E; [by left|]. right. split; [done|]. intros ->. by apply E.
  - intros [-> |[Hx Hne]].
    + exists s. by rewrite bool_decide_eq_true_2.
    + exists x. split; [|done]. rewrite bool_decide_eq_false_2; [done|]. intros E. apply Hne. apply (same_id r); congruence.
Qed.

Lemma others_replace r r' s s' :
  s ∈ se_services r -> sv_ID s' = sv_ID s -> ss_Name (sv_Spec s') = ss_Name (sv_Spec s) -> se_services r' = replace_service s' (se_services r) ->
  others (ss_Name (sv_Spec s)) r r' /\ forall id, has_service r' id <-> has_service r id.
Proof using.
  intros Hs Hid Hn E. split.
  - apply others_services. intros x Hx. rewrite E, (replace_spec r s) by done. split; [intros [-> |[? _]]; [congruence|done]|].
    intros Hin. right. split; [done|]. congruence.
  - intros id. unfold has_service. setoid_rewrite E. setoid_rewrite (fun x => replace_spec r s s' x Hs Hid). split.
    + intros (x & [-> |[Hx _]] & Hnx); [exists s; split; [done|congruence]|by exists x].
    + intros (x & Hx & Hnx). destruct (decide (ss_Name (sv_Spec x) = ss_Name (sv_Spec s))) as [En|En].
      * exists s'. split; [by left|congruence].
      * exists x. split; [right; split; [done|congruence]|done].
Qed.

Lemma find_by_name r id : match find_service (ByName id) (se_services r) with
  | Some s => s ∈ se_services r /\ ss_Name (sv_Spec s) = id
  | None => ~ has_service r id
  end.
Proof using.
  unfold find_service. destruct (select _ _) as [|s l] eqn:E; simpl.
  - intros (s & Hs & Hn). assert (Hin : s ∈ select (refers (ByName id)) (se_services r)).
    { apply elem_of_select. split; [done|]. simpl. by apply bool_decide_eq_true. }
    rewrite E in Hin. by apply elem_of_nil in Hin.
  - assert (Hin : s ∈ select (refers (ByName id)) (se_services r)) by (rewrite E; constructor).
    apply elem_of_select in Hin as [Hin Hr]. simpl in Hr. by apply bool_decide_eq_true in Hr.
Qed.

(** ** The laws *)

Lemma client_Create_spec o spec r :
  let created id r' := exists s, se_services r' = se_services r ++ [s] /\ sv_ID s = id /\ same_spec (sv_Spec s) (serviceSpec spec) /\ se_tasks r' id = [] in
  wp o (client_Create spec) created (fun _ r' => se_services r' = se_services r \/ exists id, created id r') r.
Proof using.
  intros created. unfold client_Create. do 2 (case_bool_decide; [apply wp_throw; by left|]).
  destruct (envelope_Validate _); [apply wp_throw; by left|]. apply wp_in_context. apply se_create_law.
Qed.

Lemma cache_directories_frame o root projectID caches r (Q : unit -> R -> Prop) E :
  Q tt r -> (forall e, E e r) -> wp o (cache_directories root projectID caches) Q E r.
Proof using.
  intros HQ HE. induction caches as [|cache caches IH]; simpl; [by apply wp_ret|]. destruct (negb _); [by apply wp_throw|].
  repeat wp_step; auto.
Qed.

Lemma swarm_create_spec o job r :
  let created r' := exists s, se_services r' = se_services r ++ [s] /\ same_spec (sv_Spec s) (serviceSpec (specForJob config job)) /\ se_tasks r' (sv_ID s) = [] in
  wp o (swarm_Create config job) (fun _ => created) (fun _ r' => se_services r' = se_services r \/ created r') r.
Proof using.
  intros created. unfold swarm_Create. destruct (envelope_Validate _); [apply wp_throw; by left|].
  assert (Hend : wp o (_ ← client_Create (specForJob config job); mret tt) (fun _ => created) (fun _ r' => se_services r' = se_services r \/ created r') r).
  { wp_step. eapply wp_mono; [apply client_Create_spec| |].
    - intros id r' (s & E & Hid & Hs & Ht). apply wp_ret. exists s. by subst id.
    - intros e r' [E|(id & s & E & Hid & Hs & Ht)]; [by left|]. right. exists s. by subst id. }
  unfold prepareCacheDirectories. wp_step. case_bool_decide; [by apply wp_ret|]. destruct (_ || _); [apply wp_throw; by left|].
  apply cache_directories_frame; [exact Hend|by left].
Qed.

Lemma swarm_cancel_spec o left id r0 r :
  (has_service r id <-> has_service r0 id) -> others id r0 r -> (0 < left)%nat ->
  wp o (cancel_attempts left id)
    (fun _ r' => (has_service r' id <-> has_service r0 id) /\ (has_service r' id -> has_cancelled r' id) /\ others id r0 r')
    (fun _ r' => (has_service r' id <-> has_service r0 id) /\ others id r0 r') r.
Proof using.
  revert r. induction left as [|left IH]; intros r Hs Ho Hl; [lia|]. cbn [cancel_attempts]. wp_step. wp_step.
  pose proof (find_by_name r id) as Hf. eapply wp_mono; [apply se_inspect_law| |].
  2:{ intros e r' [-> He]. case_bool_decide as Ec; [|by apply wp_throw]. apply wp_ret. rewrite (He Ec) in Hf. split; [done|]. split; [by intros ?|done]. }
  intros s r' [-> Es]. rewrite Es in Hf. destruct Hf as [Hin Hn].
  destruct (ss_TotalCompletions _); [|by apply wp_throw]. wp_step. wp_step.
  assert (Hup : forall s' r', sv_ID s' = sv_ID s -> same_spec (sv_Spec s') (cancelled_spec (sv_Spec s)) ->
            se_services r' = replace_service s' (se_services r) ->
            (has_service r' id <-> has_service r0 id) /\ (has_service r' id -> has_cancelled r' id) /\ others id r0 r').
  { intros s' r' Hid (Hsn & Hsl & _) Er. destruct (others_replace r r' s s' Hin Hid Hsn Er) as [H1 H2]. rewrite Hn in H1.
    split; [by rewrite H2|]. split; [|by eapply others_trans]. intros _. exists s'. rewrite Er, (replace_spec r s) by done.
    split; [by left|]. split; [by rewrite Hsn|]. rewrite Hsl. apply label_set. }
  eapply wp_mono; [apply se_update_law| |].
  - intros _ r' (x & s' & Hx & Hxid & Hid & Hsame & Er). apply wp_ret. by eapply Hup.
  - intros e r' [Hr Hnf]. case_bool_decide as Ec.
    { apply wp_ret. destruct (Hnf Ec) as [Hno _]. exfalso. apply Hno. apply list_elem_of_fmap. by exists s. }
    assert (Hk : (has_service r' id <-> has_service r0 id) /\ others id r0 r').
    { destruct Hr as [Er|(x & s' & Hx & Hxid & Hid & Hsame & Er)]; [|by destruct (Hup s' r' Hid Hsame Er) as (? & ? & ?)].
      split; [unfold has_service in *; by rewrite Er|]. eapply others_trans; [exact Ho|by apply others_same]. }
    destruct (_ || _) eqn:Eb; [by apply wp_throw|]. destruct Hk. apply IH; [done..|].
    apply orb_false_iff in Eb as [_ Eb]. apply Nat.eqb_neq in Eb. lia.
Qed.

Lemma client_status_reads o service id r (Q : ProtocolJob -> R -> Prop) E :
  (forall job, labelled_job service id = inl job ->
     Q match order_by newest_task (se_tasks r (sv_ID service)) with [] => job | task :: _ => with_task task job end r) ->
  (forall e, E e r) -> wp o (client_status service id) Q E r.
Proof using.
  intros HQ HE. unfold client_status. destruct (labelled_job _ _) as [job|e]; [|by apply wp_throw]. wp_step. apply wp_in_context.
  eapply wp_mono; [apply se_task_law| |]; [intros l r' [-> ->]; apply wp_ret; by apply HQ|intros e r' ->; apply HE].
Qed.

Lemma client_Status_reads o id r (Q : ProtocolJob -> R -> Prop) E :
  (forall s job, find_service (ByName id) (se_services r) = Some s -> labelled_job s id = inl job ->
     Q match order_by newest_task (se_tasks r (sv_ID s)) with [] => job | task :: _ => with_task task job end r) ->
  (forall e, E e r) -> wp o (client_Status id) Q E r.
Proof using.
  intros HQ HE. unfold client_Status. wp_step. apply wp_in_context. eapply wp_mono; [apply se_inspect_law| |].
  - intros s r' [-> Es]. apply client_status_reads; [|done]. intros job. by apply HQ.
  - intros e r' [-> _]. apply HE.
Qed.

(** What is listed for a service: its job as it stands, or why it cannot be
    read. *)
Definition listed (r : R) (s : Service) (result : RuntimeJob) : Prop :=
  rt_ID result = fallback (ss_Name (sv_Spec s)) (sv_ID s) /\
  match rt_Err result with
  | Some _ => rt_Job result = zero_remote
  | None => exists job, labelled_job s (rt_ID result) = inl job /\
      rt_Job result = pj_Job match order_by newest_task (se_tasks r (sv_ID s)) with [] => job | task :: _ => with_task task job end
  end.

Lemma find_by_id r s : s ∈ se_services r -> find_service (ByID (sv_ID s)) (se_services r) = Some s.
Proof using.
  intros Hs. unfold find_service. destruct (select _ _) as [|x l] eqn:E; simpl.
  - assert (Hin : s ∈ select (refers (ByID (sv_ID s))) (se_services r)) by (apply elem_of_select; split; [done|]; simpl; by apply bool_decide_eq_true).
    rewrite E in Hin. by apply elem_of_nil in Hin.
  - assert (Hin : x ∈ select (refers (ByID (sv_ID s))) (se_services r)) by (rewrite E; constructor).
    apply elem_of_select in Hin as [Hin Hr]. simpl in Hr. apply bool_decide_eq_true in Hr. f_equal. by apply (same_id r).
Qed.

Lemma list_results_spec o r summaries :
  (forall s, s ∈ summaries -> s ∈ se_services r) ->
  wp o (list_results summaries) (fun results r' => r' = r /\ Forall2 (listed r) summaries results) (fun _ _ => False) r.
Proof using.
  induction summaries as [|s rest IH]; intros Hin; cbn [list_results]; [apply wp_ret; split; [done|constructor]|].
  assert (Hs : s ∈ se_services r) by (apply Hin; constructor). pose proof (proj2 (proj2 (se_ids r)) s Hs) as Hid.
  rewrite (bool_decide_eq_false_2 (sv_ID s = "")) by done. cbv zeta.
  assert (Hrest : forall result, listed r s result -> wp o (more ← list_results rest; mret (result :: more))
            (fun results r' => r' = r /\ Forall2 (listed r) (s :: rest) results) (fun _ _ => False) r).
  { intros result Hl. wp_step. eapply wp_mono; [apply IH; intros x Hx; apply Hin; by constructor| |done].
    intros more r' [-> Hm]. apply wp_ret. split; [done|by constructor]. }
  wp_step. wp_step. eapply wp_mono; [apply se_inspect_law| |].
  - intros x r' [-> Ex]. rewrite (find_by_id r s Hs) in Ex. injection Ex as <-. wp_step. wp_step. wp_step.
    apply client_status_reads; [intros job Hj|intros e]; apply wp_ret, Hrest; (split; [done|]); simpl; [by exists job|done].
  - intros e r' [-> _]. wp_step. wp_step. apply Hrest. by split.
Qed.

Lemma swarm_managed_spec o r :
  wp o swarm_ManagedJobs
    (fun '(results, err) r' => r' = r /\
       (err = None -> exists listing, results ≡ₚ listing /\
          Forall2 (listed r) (select (fun s => bool_decide (label (ss_Labels (sv_Spec s)) managedLabel = "true")) (se_services r)) listing))
    (fun _ _ => False) r.
Proof using.
  unfold swarm_ManagedJobs. wp_step. wp_step. eapply wp_mono; [apply se_list_law| |].
  - intros l r' [-> ->]. wp_step. eapply wp_mono; [apply list_results_spec; intros s Hs; apply elem_of_select in Hs; apply Hs| |done].
    intros results r' [-> Hl]. apply wp_ret. split; [done|]. intros _. exists results. split; [apply order_by_perm|done].
  - intros e r' ->. apply wp_ret. by split.
Qed.

#[global] Instance swarm_scheduler : Scheduler R.
Proof using H H0 config.
  refine {| sch_Create := swarm_Create config; sch_Cancel := swarm_Cancel; sch_ManagedJobs := swarm_ManagedJobs; sch_Remove := swarm_Remove;
            sch_service := has_service; sch_cancelled := has_cancelled |}.
  - intros o j r. eapply wp_mono; [apply swarm_create_spec| |]; intros x r'.
    + intros (s & E & (Hn & _) & _). split; [|by eapply others_append]. exists s. rewrite E, elem_of_app, list_elem_of_singleton. by split; [right|].
    + intros [E|(s & E & (Hn & _) & _)]; [by apply others_same|by eapply others_append].
  - intros o id r. apply swarm_cancel_spec; [done|by apply others_same|lia].
  - intros o r. eapply wp_mono; [apply swarm_managed_spec| |done]. by intros [results err] r' [-> _].
  - intros o id r. unfold swarm_Remove. wp_step. wp_step.
    assert (Hd : forall r', se_services r' = drop_service (ByName id) (se_services r) -> others id r r').
    { intros r' E. apply others_services. intros s Hs. rewrite E. unfold drop_service. rewrite elem_of_select. simpl.
      rewrite bool_decide_eq_false_2 by done. naive_solver. }
    eapply wp_mono; [apply se_remove_law| |]; intros x r' Hr; [apply wp_ret; by apply Hd|].
    assert (Ho : others id r r') by (destruct Hr as [E|E]; [by apply others_same|by apply Hd]).
    case_bool_decide; [by apply wp_ret|by apply wp_throw].
Defined.

#[global] Instance swarm_runtime : JobRuntime R.
Proof using H H0.
  refine {| rn_ValidateImage := swarm_ValidateImage; rn_Status id := pj_Job <$> client_Status id |}.
  - intros o image r. unfold swarm_ValidateImage. wp_step. apply wp_in_context. eapply wp_mono; [apply se_pull_law| |done].
    intros _ r' ->. wp_step. apply wp_in_context. eapply wp_mono; [apply se_image_law| |done].
    intros id r' ->. destruct (HasPrefix _ _); [by apply wp_ret|by apply wp_throw].
  - intros o id r. wp_step. by apply client_Status_reads.
Defined.

End Implements.

(** ** What was created is what is described *)

Lemma decode_encode_label s : decodeLabel (encodeLabel s) = s.
Proof. unfold decodeLabel, encodeLabel. rewrite base64_round_trip by apply string_bytes. apply of_bytes_bytes. Qed.

Lemma encodeLabel_nonempty s : s <> "" -> encodeLabel s <> "".
Proof. intros Hs. apply base64url_nonnil. by destruct s. Qed.

(** A job that is ready to run. *)
Definition runnable (job : Job) : Prop :=
  jb_ID job <> "" /\ jb_ProjectID job <> "" /\ jb_Image job <> "" /\ jb_RootDigest job <> "" /\ 0 <= jb_Timeout job < 2 ^ 63.

(** A job as its new service describes it. *)
Definition described (job : Job) (createdAt : time) : ProtocolJob :=
  mkProtocolJob (mkRemoteJob (jb_ID job) StatusQueued "" createdAt None None false None "")
    (jb_ProjectID job) (jb_Image job) (jb_Command job) (jb_RootDigest job) (Z.quot (jb_Timeout job) Second).

Lemma labelled_created config job s id :
  runnable job -> sv_ID s <> "" -> same_spec (sv_Spec s) (serviceSpec (specForJob config job)) ->
  labelled_job s id = inl (described job (sv_CreatedAt s)).
Proof.
  intros (Hid & Hp & Hi & Hd & Ht) Hs (En & El & _ & Ea). unfold labelled_job. rewrite En, El. cbn [serviceSpec ss_Name ss_Labels specForJob sp_ID].
  destruct (ss_Container (sv_Spec s)) as [c|]; [|discriminate Ea]. simpl in Ea. injection Ea as Ea.
  assert (Hq : 0 <= Z.quot (jb_Timeout job) Second < 2 ^ 63).
  { unfold Second. rewrite Z.quot_div_nonneg by lia. split; [apply Z.div_pos; lia|]. apply Z.div_lt_upper_bound; lia. }
  set (labels := [_; _; _; _; _; _]).
  assert (L1 : label labels managedLabel = "true") by reflexivity.
  assert (L2 : label labels "autback.project" = jb_ProjectID job) by reflexivity.
  assert (L3 : label labels "autback.job" = jb_ID job) by reflexivity.
  assert (L4 : label labels "autback.image" = encodeLabel (jb_Image job)) by reflexivity.
  assert (L5 : label labels "autback.timeout_seconds" = Itoa (Z.quot (jb_Timeout job) Second)) by reflexivity.
  assert (L6 : label labels "autback.root_digest" = jb_RootDigest job) by reflexivity.
  assert (L7 : label labels cancelledLabel = "") by reflexivity.
  clearbody labels. rewrite (bool_decide_eq_false_2 (sv_ID s = "")) by done. unfold fallback. rewrite (bool_decide_eq_false_2 (jb_ID job = "")) by done.
  assert (Em : missing_label labels = None).
  { unfold missing_label, required_labels, select. cbn [List.filter]. rewrite L1, L2, L3, L4, L5, L6.
    rewrite !bool_decide_eq_false_2; try done; [apply Itoa_nonempty; lia|by apply encodeLabel_nonempty]. }
  rewrite Em, L1, L2, L3, L4, L5, L6, L7. rewrite !bool_decide_eq_true_2 by done. cbn [negb]. rewrite Atoi_Itoa by done.
  rewrite (proj2 (Z.ltb_ge _ 0)) by lia. rewrite bool_decide_eq_false_2 by done. cbn [negb]. rewrite decode_encode_label. unfold described. by rewrite Ea.
Qed.


(** ** The status is what the engine knows *)

(** The newest task of a service. *)
Definition newest (tasks : list Task) (t : Task) : Prop := t ∈ tasks /\ forall t', t' ∈ tasks -> tk_CreatedAt t' <= tk_CreatedAt t.

(** A task that will not run again. *)
Definition over (t : Task) : Prop := Terminal (runtimeTaskStatus (tk_State t) 1 false) = true.

Record truthful (s : Service) (tasks : list Task) (j : RemoteJob) : Prop := {
  tr_created : rj_CreatedAt j = sv_CreatedAt s;
  tr_cancelled : rj_CancelRequested j = bool_decide (label (ss_Labels (sv_Spec s)) cancelledLabel = "true");
  tr_status : rj_Status j = StatusCancelled <-> rj_CancelRequested j = true;
  tr_preparing : rj_Status j <> StatusPreparing;
  tr_finished : Terminal (rj_Status j) = true -> rj_FinishedAt j <> None;
  tr_running : rj_Status j = StatusRunning -> exists t, newest tasks t /\ tk_State t = TaskRunning;
  tr_succeeded : rj_Status j = StatusSucceeded -> exists t, newest tasks t /\ tk_State t = TaskComplete /\ tk_ContainerExit t = Some 0;
  tr_over : Terminal (rj_Status j) = true -> rj_CancelRequested j = false ->
    exists t code, newest tasks t /\ over t /\ rj_ExitCode j = Some code /\ (tk_ContainerExit t = None -> code <> 0)
}.

Lemma newest_head tasks t l : order_by newest_task tasks = t :: l -> newest tasks t.
Proof.
  intros E. assert (Hs : StronglySorted (fun a b => newest_task a b = true) (order_by newest_task tasks)).
  { apply order_by_sorted; unfold newest_task; intros; repeat rewrite ?Z.leb_le in *; lia. }
  pose proof (order_by_perm newest_task tasks) as Hp. rewrite E in Hs, Hp. inversion Hs as [|? ? _ Hall]; subst. split; [rewrite <- Hp; constructor|].
  intros t'. rewrite <- Hp. intros [-> |Hin]%elem_of_cons; [lia|]. rewrite Forall_forall in Hall. specialize (Hall t' Hin).
  by apply Z.leb_le in Hall.
Qed.

Lemma labelled_truthful s id job : labelled_job s id = inl job ->
  truthful s [] (pj_Job job) /\ rj_ID (pj_Job job) = fallback (ss_Name (sv_Spec s)) id.
Proof.
  unfold labelled_job. destruct (ss_Container _) as [c|]; [|done]. cbv zeta. case_bool_decide; [done|]. destruct (missing_label _); [done|].
  case_bool_decide; [|done]. cbn [negb]. case_bool_decide; [|done]. cbn [negb]. destruct (Atoi _) as [t|]; [|done]. destruct (t <? 0); [done|].
  intros [= <-]. cbn [pj_Job]. case_bool_decide as Ec; (split; [|done]);
    split; simpl; rewrite ?bool_decide_eq_true_2, ?bool_decide_eq_false_2 by done; done.
Qed.

(** The status of a task alone, when nothing was cancelled. *)
Lemma task_status_over t : Terminal (runtimeTaskStatus (tk_State t) (exit_code t false) false) = true ->
  over t /\ (tk_ContainerExit t = None -> exit_code t false <> 0).
Proof.
  unfold over, exit_code. destruct (tk_ContainerExit t) as [code|].
  - destruct (tk_State t); simpl; try done; intros _; repeat case_match; done.
  - destruct (tk_State t); simpl; try done.
Qed.

Lemma task_truthful `{CaseTables} s tasks t job :
  truthful s [] (pj_Job job) -> newest tasks t -> truthful s tasks (pj_Job (with_task t job)).
Proof.
  intros [T1 T2 T3 T4 T5 T6 T7 T8] Hn. unfold with_task. cbn [pj_Job]. set (r := pj_Job job) in *. cbv zeta.
  set (status := runtimeTaskStatus (tk_State t) (exit_code t (rj_CancelRequested r)) (rj_CancelRequested r)).
  assert (Hc : status = StatusCancelled <-> rj_CancelRequested r = true).
  { subst status. destruct (rj_CancelRequested r); [done|]. split; [|done]. simpl. destruct (tk_State t); simpl; repeat case_match; done. }
  assert (Hp : status <> StatusPreparing).
  { subst status. destruct (rj_CancelRequested r); [done|]. simpl. destruct (tk_State t); simpl; repeat case_match; done. }
  assert (Hr : status = StatusRunning -> tk_State t = TaskRunning).
  { subst status. destruct (rj_CancelRequested r); [done|]. simpl. destruct (tk_State t); simpl; repeat case_match; done. }
  assert (Hs : status = StatusSucceeded -> tk_State t = TaskComplete /\ tk_ContainerExit t = Some 0).
  { subst status. destruct (rj_CancelRequested r); [done|]. unfold exit_code. destruct (tk_ContainerExit t) as [code|]; simpl.
    - destruct (tk_State t); simpl; try done; case_match; try done. intros _. split; [done|]. f_equal. by apply Z.eqb_eq.
    - destruct (tk_State t); simpl; done. }
  destruct (Terminal status) eqn:Et; split; cbn [rj_CreatedAt rj_CancelRequested rj_Status rj_FinishedAt rj_ExitCode]; try done; try congruence.
  - intros E. exists t. split; [done|]. by apply Hr.
  - intros E. exists t. destruct (Hs E). done.
  - intros _ Ef. exists t, (exit_code t (rj_CancelRequested r)). subst status. rewrite Ef in *. destruct (task_status_over t Et). done.
  - intros E. exists t. split; [done|]. by apply Hr.
  - intros E. by rewrite E in Et.
Qed.

(** The listing of the scheduler misses nothing and invents nothing.  When
    it ends without an error, it has exactly one entry per managed service of
    the engine; an entry without an error tells the truth: a job is cancelled
    exactly when its service carries the label, running when its newest task is,
    succeeded only if the container of its newest task completed with exit code
    zero; a finished job has a finishing time, and unless it was cancelled its
    newest task is over and it has an exit code, which is not zero when no
    container ran. *)
Lemma listing_is_complete_and_truthful {R : Type} `{SwarmEngine R} `{CaseTables} o r :
  wp o swarm_ManagedJobs
    (fun '(results, err) r' => r' = r /\
       (err = None -> exists listing, results ≡ₚ listing /\
          Forall2 (fun s result => rt_ID result = fallback (ss_Name (sv_Spec s)) (sv_ID s) /\
                     (rt_Err result = None -> rj_ID (rt_Job result) = rt_ID result /\ truthful s (se_tasks r (sv_ID s)) (rt_Job result)))
            (select (fun s => bool_decide (label (ss_Labels (sv_Spec s)) managedLabel = "true")) (se_services r)) listing))
    (fun _ _ => False) r.
Proof.
  eapply wp_mono; [apply swarm_managed_spec| |done]. intros [results err] r' [-> Hl]. split; [done|]. intros E.
  destruct (Hl E) as (listing & Hp & Hf). exists listing. split; [done|]. eapply Forall2_impl; [exact Hf|].
  intros s result [Hid Hr]. split; [done|]. intros En. rewrite En in Hr. destruct Hr as (job & Hj & ->).
  destruct (labelled_truthful _ _ _ Hj) as [Ht Hi].
  destruct (order_by newest_task (se_tasks r (sv_ID s))) as [|t l] eqn:Eo.
  - split; [rewrite Hi, Hid; unfold fallback; by repeat case_bool_decide|].
    destruct (se_tasks r (sv_ID s)) as [|t l] eqn:Es; [done|]. pose proof (order_by_perm newest_task (t :: l)) as Hperm.
    rewrite Eo in Hperm. by apply Permutation_nil_cons in Hperm.
  - split; [|by eapply task_truthful, newest_head].
    assert (Ew : rj_ID (pj_Job (with_task t job)) = rj_ID (pj_Job job)) by (unfold with_task; cbn [pj_Job]; cbv zeta; by case_match).
    rewrite Ew, Hi, Hid. unfold fallback. by repeat case_bool_decide.
Qed.

(** ** An engine *)

(** An engine that accepts services and never runs a task. *)
Definition engine_ok (l : list Service) : Prop :=
  NoDup (map sv_ID l) /\ NoDup (map (fun s => ss_Name (sv_Spec s)) l) /\ Forall (fun s => sv_ID s <> "") l.

#[local] Instance engine_ok_dec l : Decision (engine_ok l).
Proof. unfold engine_ok. apply _. Defined.

Definition IdleEngine : Type := { l : list Service | bool_decide (engine_ok l) = true }.

(** A change that keeps names and identifiers unique, or an error. *)
Definition change (f : list Service -> list Service) : M IdleEngine unit :=
  statement (fun r => match decide (bool_decide (engine_ok (f (`r))) = true) with
                      | left H => Ok (tt, f (`r) ↾ H)
                      | right _ => Fail (ErrRuntime IsConflict "conflict")
                      end).

Lemma wp_change o f (Q : unit -> IdleEngine -> Prop) E r :
  (forall r', `r' = f (`r) -> Q tt r') -> (forall e, Classify e <> ErrorNotFound -> E e r) -> wp o (change f) Q E r.
Proof.
  intros HQ HE. apply wp_statement; [|by intros s _; apply HE]. destruct (decide _) as [Hd|Hd]; [by apply HQ|by apply HE].
Qed.

#[local] Instance idle_engine : SwarmEngine IdleEngine.
Proof.
  refine {|
    se_services r := `r; se_tasks _ _ := []; se_ClientVersion := "1.47"; se_Info := query (fun _ => "active");
    se_ServiceCreate spec := _ ← change (fun l => l ++ [mkService ("svc-" +:+ ss_Name spec) 1 10 10 spec]); mret ("svc-" +:+ ss_Name spec);
    se_ServiceInspect key := r ← query (fun r => find_service key (`r)); match r with Some s => mret s | None => throw (ErrRuntime IsNotFound "no such service") end;
    se_ServiceList key := query (fun r => select (fun s => bool_decide (label (ss_Labels (sv_Spec s)) key = "true")) (`r));
    se_TaskList _ := query (fun _ => []);
    se_ServiceUpdate id version spec :=
      r ← query (fun r => find_service (ByID id) (`r));
      match r with
      | Some s => change (replace_service (mkService id (sv_Version s + 1) (sv_CreatedAt s) 20 spec))
      | None => throw (ErrRuntime IsNotFound "no such service")
      end;
    se_ServiceRemove key := change (drop_service key);
    se_ImagePull _ := may_fail; se_ImageInspect image := query (fun _ => "sha256:" +:+ image) |}.
  - intros [l Hl]. simpl. apply bool_decide_eq_true in Hl as (H1 & H2 & H3). rewrite Forall_forall in H3. done.
  - intros o spec r. cbv zeta. wp_step. apply wp_change; [|by left]. intros r' E. apply wp_ret. eexists. split; [exact E|]. by repeat split.
  - intros o key r. wp_step. wp_step; [|done]. destruct (find_service key (`r)) as [s|] eqn:E; [by apply wp_ret|by apply wp_throw].
  - intros o key r. by apply wp_query.
  - intros o id r. by apply wp_query.
  - intros o id version spec r. cbv zeta. wp_step. wp_step; [|by split; [left|]].
    assert (Hf : match find_service (ByID id) (`r) with Some s => s ∈ `r /\ sv_ID s = id | None => id ∉ map sv_ID (`r) end).
    { unfold find_service. destruct (select _ _) as [|s l] eqn:E; simpl.
      - intros Hin. apply list_elem_of_fmap in Hin as (s & -> & Hs). assert (Hin : s ∈ select (refers (ByID (sv_ID s))) (`r))
          by (apply elem_of_select; split; [done|]; simpl; by apply bool_decide_eq_true). rewrite E in Hin. by apply elem_of_nil in Hin.
      - assert (Hin : s ∈ select (refers (ByID id)) (`r)) by (rewrite E; constructor). apply elem_of_select in Hin as [? Hr].
        simpl in Hr. by apply bool_decide_eq_true in Hr. }
    destruct (find_service (ByID id) (`r)) as [s|]; [|by apply wp_throw; split; [left|]]. destruct Hf as [Hs Hid].
    apply wp_change; [|by intros e He; split; [left|]]. intros r' E. exists s. eexists. split; [done|]. split; [done|]. split; [|split; [|exact E]]; done.
  - intros o key r. apply wp_change; [done|by left].
  - intros o image r. by apply wp_may_fail.
  - intros o image r. by apply wp_query.
Defined.

Definition swarm_config : SwarmConfig := mkSwarmConfig "cas:8980" "" "/var/jobs" "" "/var/cache" "1000" "1000" (mkEnvelope 2000 1000 2000 1000 64).
Definition swarm_job : Job :=
  mkJob "job1" "prj1" "img@sha256:0" ["go"; "test"] "" [("CI", "1")] "00/1" StatusQueued (90 * Second) 5 None None None "" false "" [] [].
Definition swarm_oracle : Oracle := mkOracle (fun n => Z.of_nat n) (fun _ => 0) (fun _ => None).
Definition swarm_run := swarm_Create (R := IdleEngine) swarm_config swarm_job swarm_oracle ([] ↾ eq_refl, 0%nat).

