(* ===== verification/DockerAdapters.v ===== *)
(** * The container resources of an operation in Docker

    [internal/adapter/docker/resources.go]: the inventory that the cleanup takes
    and the removals it asks for, over the Docker Engine.  The instance
    [docker_resources] discharges the interface of the cleanup. *)

From Stdlib Require Import Ascii.
From S2P Require Import Prelude Model GoMonad GoLib Table Schema JobStore GoStrings Encoding Resources Capacity Host Swarm SwarmTheorems.

(** ** The engine *)

(** A service, a container or a network with its identifier; a volume with its
    name and the time the engine gives for its creation. *)
Record EngineObject := mkObject { eo_Name : string; eo_Labels : Labels; eo_CreatedAt : string }.

(** The part of the engine that the adapter uses.  Lists are complete and change
    nothing; a removal, whatever it returns, touches at most the object with that
    identifier, or with that name for a volume; these are unique.  The name of a
    volume has letters, digits and [_.-] only. *)
Class ResourceEngine (R : Type) := {
  en_objects : R -> ResourceKind -> list EngineObject;
  en_List : ResourceKind -> M R (list EngineObject);
  en_Remove : ResourceKind -> string -> M R unit;
  en_unique : forall r k, NoDup (map eo_Name (en_objects r k));
  en_volumes : forall r x, x ∈ en_objects r Volumes -> has_byte "000"%char (eo_Name x) = false;
  en_list_law : forall o k r, wp o (en_List k) (fun l r' => r' = r /\ l = en_objects r k) (fun _ r' => r' = r) r;
  en_remove_law : forall o k name r,
    let kept r' := forall k' x, (k', eo_Name x) <> (k, name) -> x ∈ en_objects r k' -> x ∈ en_objects r' k' in
    wp o (en_Remove k name) (fun _ r' => kept r') (fun _ r' => kept r') r
}.

(** ** The adapter *)

Definition managed (labels : Labels) : bool := bool_decide (label labels managedLabel = "true").

Definition protectedContainer (labels : Labels) : bool :=
  managed labels || negb (bool_decide (label labels "com.docker.swarm.service.id" = ""))
  || negb (bool_decide (label labels "com.docker.swarm.task.id" = "")).

(** What the inventory leaves out, and how it identifies the rest. *)
Definition protected (k : ResourceKind) (labels : Labels) : bool :=
  match k with Containers => protectedContainer labels | _ => managed labels end.

Definition object_id (k : ResourceKind) (x : EngineObject) : string :=
  match k with
  | Volumes => if bool_decide (eo_CreatedAt x = "") then eo_Name x else eo_Name x +:+ String "000"%char (eo_CreatedAt x)
  | _ => eo_Name x
  end.

Definition owned_ids (k : ResourceKind) (objects : list EngineObject) : list string :=
  order_by String.leb (map (object_id k) (select (fun x => negb (protected k (eo_Labels x))) objects)).

(** The name of a volume in its identifier. *)
Definition volume_name (id : string) : string := match cut "000"%char id with Some (name, _) => name | None => id end.

Section Adapter.
Context {R : Type} `{ResourceEngine R}.

Definition Inventory : M R ResourceSet :=
  services ← in_context "list Docker services" (en_List Services);
  containers ← in_context "list Docker containers" (en_List Containers);
  networks ← in_context "list Docker networks" (en_List Networks);
  volumes ← in_context "list Docker volumes" (en_List Volumes);
  mret (mkResources (owned_ids Services services) (owned_ids Containers containers) (owned_ids Networks networks) (owned_ids Volumes volumes)).

Definition classifyRemoval (kind id : string) (m : M R unit) : M R unit :=
  removed ← attempt m;
  match removed with
  | Ok _ => mret tt
  | Fail e => if bool_decide (Classify e = ErrorNotFound) then mret tt else throw (Errorf ("remove Docker " +:+ kind +:+ " " +:+ id) e)
  end.

Definition RemoveService (id : string) : M R unit := classifyRemoval "service" id (en_Remove Services id).
Definition RemoveContainer (id : string) : M R unit := classifyRemoval "container" id (en_Remove Containers id).
Definition RemoveNetwork (id : string) : M R unit := classifyRemoval "network" id (en_Remove Networks id).
Definition RemoveVolume (id : string) : M R unit :=
  let name := volume_name id in classifyRemoval "volume" name (en_Remove Volumes name).

Definition remove_resource (k : ResourceKind) : string -> M R unit :=
  match k with Services => RemoveService | Containers => RemoveContainer | Networks => RemoveNetwork | Volumes => RemoveVolume end.

(** ** The interface of the cleanup *)

(** The objects of [r] other than the named one are in [r']. *)
Definition untouched (k : ResourceKind) (name : string) (r r' : R) : Prop :=
  forall k' x, (k', eo_Name x) <> (k, name) -> x ∈ en_objects r k' -> x ∈ en_objects r' k'.

Definition resource_name (k : ResourceKind) (id : string) : string := match k with Volumes => volume_name id | _ => id end.

Definition docker_view (r : R) : ResourceSet := by_kind (fun k => owned_ids k (en_objects r k)).

Definition docker_exists (r : R) (k : ResourceKind) (id : string) : Prop := exists x, x ∈ en_objects r k /\ object_id k x = id.

Lemma elem_of_owned k objects id :
  id ∈ owned_ids k objects <-> exists x, x ∈ objects /\ protected k (eo_Labels x) = false /\ object_id k x = id.
Proof using.
  unfold owned_ids. rewrite order_by_perm, list_elem_of_fmap. setoid_rewrite elem_of_select. setoid_rewrite negb_true_iff. naive_solver.
Qed.

Lemma elem_of_view r k id : id ∈ of_kind k (docker_view r) <-> id ∈ owned_ids k (en_objects r k).
Proof using. by destruct k. Qed.

Lemma cut_none sep s : has_byte sep s = false -> cut sep s = None.
Proof using.
  unfold has_byte. induction s as [|c s IH]; simpl; [done|]. intros E. apply orb_false_iff in E as [Hc Hs].
  destruct (Ascii.eqb_spec c sep) as [->|Hn]; [by rewrite Z.eqb_refl in Hc|]. by rewrite (IH Hs).
Qed.

(** An identifier leads back to the name of its object, and so to the object. *)
Lemma name_of_id r k x : x ∈ en_objects r k -> resource_name k (object_id k x) = eo_Name x.
Proof using.
  destruct k; simpl; try done. intros Hx. apply en_volumes in Hx. unfold volume_name. case_bool_decide.
  - by rewrite cut_none.
  - by rewrite cut_app.
Qed.

Lemma object_of_id r k x y : x ∈ en_objects r k -> y ∈ en_objects r k -> resource_name k (object_id k x) = resource_name k (object_id k y) -> x = y.
Proof using.
  intros Hx Hy. rewrite !(name_of_id r) by done. intros En. eapply NoDup_map_inj; [apply (en_unique r k)|done|done|done].
Qed.

Lemma wp_classifyRemoval o kind id (m : M R unit) (P : R -> Prop) r :
  wp o m (fun _ => P) (fun _ => P) r -> wp o (classifyRemoval kind id m) (fun _ => P) (fun _ => P) r.
Proof using.
  intros Hm. unfold classifyRemoval. wp_step. wp_step. eapply wp_mono; [exact Hm|intros; by apply wp_ret|]. intros e r' Hp. simpl.
  case_bool_decide; [by apply wp_ret|by apply wp_throw].
Qed.

#[global] Instance docker_resources : ResourceRuntime R.
Proof using H.
  refine {| rt_inventory := Inventory; rt_remove := remove_resource; rt_view := docker_view; rt_exists := docker_exists; rt_name := resource_name |}.
  - intros r k id. rewrite elem_of_view, elem_of_owned. intros (x & Hx & _ & E). by exists x.
  - intros r k id1 id2 (x & Hx & <-) (y & Hy & <-) En. by rewrite (object_of_id r k x y).
  - intros o r. unfold Inventory. do 4 (wp_step; apply wp_in_context; eapply wp_mono; [apply en_list_law| |done]; intros ? ? [-> ->]).
    by apply wp_ret.
  - intros o k id r. set (P := untouched k (resource_name k id) r).
    assert (Hw : wp o (en_Remove k (resource_name k id)) (fun _ => P) (fun _ => P) r) by apply en_remove_law.
    apply wp_mono with (Q := fun _ => P) (E := fun _ => P); [destruct k; by apply wp_classifyRemoval|..].
    all: intros a r' Hk k' id' Hne; rewrite !elem_of_view, !elem_of_owned; split.
    all: try (intros (x & Hx & <-); exists x; split; [apply Hk; [by rewrite <- (name_of_id r k' x Hx)|done]|done]).
    all: intros (x & Hx & Hp & <-); exists x; split; [apply Hk; [by rewrite <- (name_of_id r k' x Hx)|done]|done].
Defined.

(** The cleanup of an operation with a baseline leaves every protected object of
    the engine where it is, in particular those of the control plane itself and
    the containers of Swarm tasks. *)
Lemma cleanup_spares_protected o operation d r b k x :
  find_baseline (op_Kind operation) (op_ID operation) d = Some b -> x ∈ en_objects r k -> protected k (eo_Labels x) = true ->
  wp o (Cleanup operation) (fun _ w => docker_exists w.2 k (object_id k x)) (fun _ _ => False) (d, r).
Proof using.
  intros Hb Hx Hp. eapply wp_mono; [apply (wp_Cleanup o operation d r (fun _ _ => False))| |done].
  intros errs w [_ Hs]. destruct (Hs b Hb) as [Hs' _]. apply (Hs' k (object_id k x)); [|by exists x].
  split; [by exists x|]. right. intros Hv. apply elem_of_view, elem_of_owned in Hv as (y & Hy & Hpy & Ey).
  assert (y = x) as -> by (apply (object_of_id r k); [done|done|by rewrite Ey]). congruence.
Qed.

End Adapter.

(** * The capacity of the host in Docker

    [internal/adapter/docker/capacity.go]: pruning and the images of the engine.
    With the file system and the build cache they make up the host of the
    capacity controller, instance [docker_host]. *)

(** ** [time.Duration.String] *)

Fixpoint zeros (n : nat) : string := match n with O => "" | S n => String "0"%char (zeros n) end.

Fixpoint trim_zeros (s : string) : string :=
  match s with
  | "" => ""
  | String c rest => let rest := trim_zeros rest in if Ascii.eqb c "0"%char && bool_decide (rest = "") then "" else String c rest
  end.

(** A fraction of [prec] digits without its trailing zeros. *)
Definition fmtFrac (v : Z) (prec : nat) : string :=
  let digits := Itoa v in
  let digits := trim_zeros (zeros (prec - String.length digits) +:+ digits) in
  if bool_decide (digits = "") || (v =? 0) then "" else String "."%char digits.

Definition duration_String (d : duration) : string :=
  let u := Z.abs d in
  let sign := if d <? 0 then "-" else "" in
  sign +:+
  (if u =? 0 then "0s" else
   if u <? 1000 then Itoa u +:+ "ns" else
   if u <? 1000000 then Itoa (u / 1000) +:+ fmtFrac (u mod 1000) 3 +:+ String "194"%char (String "181"%char "s") else
   if u <? Second then Itoa (u / 1000000) +:+ fmtFrac (u mod 1000000) 6 +:+ "ms" else
   let secs := u / Second in
   let text := Itoa (secs mod 60) +:+ fmtFrac (u mod Second) 9 +:+ "s" in
   if secs <? 60 then text else
   let minutes := secs / 60 in
   let text := Itoa (minutes mod 60) +:+ "m" +:+ text in
   if minutes <? 60 then text else Itoa (minutes / 60) +:+ "h" +:+ text).

Definition dockerDuration (d : duration) : string :=
  let d := if d <=? 0 then 24 * Hour else d in
  if d mod Hour =? 0 then Itoa (d / Hour) +:+ "h" else
  if d mod Minute =? 0 then Itoa (d / Minute) +:+ "m" else duration_String d.

Example duration_texts :
  map dockerDuration [0; 3 * Hour; 90 * Minute; 3661 * Second + 50 * Millisecond; 1500; 5 * Millisecond] =
    ["24h"; "3h"; "90m"; "1h1m1.05s"; "1.5" +:+ String "194"%char (String "181"%char "s"); "5ms"].
Proof. vm_compute. reflexivity. Qed.

(** ** The engine *)

(** A filter of the engine: keys with their values. *)
Definition Filters := list (string * string).

(** An image as the engine lists it; [Created] is in seconds. *)
Record EngineImage := mkEngineImage { ei_ID : string; ei_RepoTags : list string; ei_RepoDigests : list string; ei_Created : Z }.

(** Listing the images changes nothing; removing one, whatever the call returns,
    touches no other that the list shows. *)
Class CapacityEngine (R : Type) := {
  ce_images : R -> list EngineImage;
  ce_ContainerPrune : Filters -> M R unit;
  ce_NetworkPrune : Filters -> M R unit;
  ce_VolumePrune : Filters -> M R unit;
  ce_ImagePrune : Filters -> M R unit;
  ce_ImageList : M R (list EngineImage);
  ce_ImageRemove : string -> M R unit;
  ce_list_law : forall o r, wp o ce_ImageList (fun l r' => r' = r /\ l = ce_images r) (fun _ r' => r' = r) r;
  ce_remove_law : forall o id r,
    let kept r' := forall x, ei_ID x <> id -> x ∈ ce_images r -> x ∈ ce_images r' in
    wp o (ce_ImageRemove id) (fun _ r' => kept r') (fun _ r' => kept r') r
}.

(** The file system of the host and the build cache. *)
Class HostSystem (R : Type) := {
  hs_Statfs : M R Snapshot;
  hs_RemoveAll : string -> M R unit;
  hs_ReadDir : string -> M R (option (list DirEntry));
  hs_directorySize : string -> M R Z;
  hs_PruneBuildCache : Z -> M R unit;
  hs_statfs_law : forall o r, wp o hs_Statfs (fun _ r' => r' = r) (fun _ r' => r' = r) r
}.

Section Adapter.
Context {R : Type} `{CapacityEngine R} `{HostSystem R}.

Definition PruneContainers (age : duration) (all : bool) : M R unit :=
  let filters := [("until", dockerDuration age)] ++ (if all then [] else [("label", "org.testcontainers=true")]) in
  in_context "prune Docker containers" (ce_ContainerPrune filters).

Definition PruneNetworks (age : duration) : M R unit := in_context "prune Docker networks" (ce_NetworkPrune [("until", dockerDuration age)]).

Definition PruneVolumes : M R unit := in_context "prune Docker volumes" (ce_VolumePrune []).

Definition PruneImages (age : duration) : M R unit :=
  in_context "prune Docker images" (ce_ImagePrune [("dangling", "true"); ("until", dockerDuration age)]).

Definition ListImages : M R (list RuntimeImage) :=
  images ← in_context "list Docker images" ce_ImageList;
  mret (map (fun x => mkImage (ei_ID x) (ei_RepoTags x) (ei_RepoDigests x) (ei_Created x * Second)) images).

Definition RemoveImage (id : string) : M R unit :=
  removed ← attempt (ce_ImageRemove id);
  match removed with
  | Ok _ => mret tt
  | Fail e => if bool_decide (Classify e = ErrorNotFound) then mret tt else throw (Errorf ("remove Docker image " +:+ id) e)
  end.

#[global] Instance docker_host : HostRuntime R.
Proof using H H0.
  refine {| hr_Statfs := hs_Statfs; hr_RemoveAll := hs_RemoveAll; hr_ReadDir := hs_ReadDir; hr_directorySize := hs_directorySize;
            hr_PruneContainers := PruneContainers; hr_PruneNetworks := PruneNetworks; hr_PruneVolumes := PruneVolumes; hr_PruneImages := PruneImages;
            hr_ListImages := ListImages; hr_RemoveImage := RemoveImage; hr_PruneBuildCache := hs_PruneBuildCache;
            hr_images r := map ei_ID (ce_images r) |}.
  - apply hs_statfs_law.
  - intros o r. unfold ListImages. wp_step. apply wp_in_context. eapply wp_mono; [apply ce_list_law| |done]. intros l r' [-> _]. by apply wp_ret.
  - intros o id r kept.
    assert (Hk : forall r', (forall x, ei_ID x <> id -> x ∈ ce_images r -> x ∈ ce_images r') -> kept r').
    { intros r' Hr id' Hne Hin. apply list_elem_of_fmap in Hin as (x & -> & Hx). apply list_elem_of_fmap_2. by apply Hr. }
    unfold RemoveImage. wp_step. wp_step. eapply wp_mono; [apply ce_remove_law| |]; intros a r' Hr; simpl; [by apply wp_ret, Hk|].
    case_bool_decide; [by apply wp_ret, Hk|by apply wp_throw, Hk].
Defined.

End Adapter.
