(* ===== verification/Limiter.v ===== *)
(** * The rate limiter of the login endpoints

    [windowLimiter] of [internal/humanauth/handler.go]: per client address the
    times of its requests, of which those that have left the window are
    forgotten, and a bound on the number of addresses that are tracked. *)
From stdpp Require Import gmap.
From S2P Require Import Prelude Model.

Definition maxLimiterClients : nat := 4096.

Record windowLimiter := mkLimiter { wl_limit : nat; wl_window : duration; wl_requests : gmap string (list time) }.

Definition newWindowLimiter (limit : nat) (window : duration) : windowLimiter := mkLimiter limit window ∅.

(** The times from the first one after the threshold on. *)
Fixpoint drop_old (threshold : time) (values : list time) : list time :=
  match values with
  | [] => []
  | t :: rest => if threshold <? t then values else drop_old threshold rest
  end.

(** Whether the latest request of an address is after the threshold. *)
Definition live (threshold : time) (values : list time) : bool :=
  match last values with Some t => threshold <? t | None => false end.

(** [Allow] at the time its clock gives. *)
Definition Allow (now : time) (key : string) (l : windowLimiter) : bool * windowLimiter :=
  let threshold := now - wl_window l in
  let full (requests : gmap string (list time)) := bool_decide (requests !! key = None) && (maxLimiterClients <=? size requests)%nat in
  let requests := if full (wl_requests l) then filter (fun kv => live threshold kv.2 = true) (wl_requests l) else wl_requests l in
  if full requests then (false, mkLimiter (wl_limit l) (wl_window l) requests) else
  let values := drop_old threshold (default [] (requests !! key)) ++ [now] in
  ((length values <=? wl_limit l)%nat, mkLimiter (wl_limit l) (wl_window l) (<[key := values]> requests)).

(** ** Runs *)

(** A request with its time, its address and the answer. *)
Record Answer := mkAnswer { an_time : time; an_key : string; an_allowed : bool }.

Fixpoint answers (l : windowLimiter) (requests : list (time * string)) : list Answer * windowLimiter :=
  match requests with
  | [] => ([], l)
  | (now, key) :: rest =>
      let '(allowed, l') := Allow now key l in
      let '(more, l'') := answers l' rest in (mkAnswer now key allowed :: more, l'')
  end.

(** How many times of a list are after [s]. *)
Definition after (s : time) (values : list time) : nat := count (fun t => s <? t) values.

(** The times of the requests of an address, and of those that were allowed. *)
Definition asked (key : string) (l : list Answer) : list time := map an_time (select (fun a => bool_decide (an_key a = key)) l).
Definition passed (key : string) (l : list Answer) : list time :=
  map an_time (select (fun a => bool_decide (an_key a = key) && an_allowed a) l).

(** The clock does not run backwards. *)
Definition in_time (requests : list (time * string)) : Prop := StronglySorted Z.le (map fst requests).

(** ** Counting *)

Lemma after_app s a b : after s (a ++ b) = (after s a + after s b)%nat.
Proof. unfold after, count. by rewrite select_app, length_app. Qed.

Lemma after_length s values : (after s values <= length values)%nat.
Proof. unfold after, count, select. induction values as [|t l IH]; simpl; [done|]. destruct (s <? t); simpl; lia. Qed.

Lemma after_one s t : after s [t] = if s <? t then 1%nat else 0%nat.
Proof. unfold after, count, select. simpl. by destruct (s <? t). Qed.

Lemma after_none s values : Forall (fun t => t <= s) values -> after s values = 0%nat.
Proof. intros H. unfold after. apply count_none. intros t Ht. rewrite Forall_forall in H. apply Z.ltb_ge. by apply H. Qed.

Lemma after_all s values : Forall (fun t => s < t) values -> after s values = length values.
Proof.
  unfold after, count, select. induction 1 as [|t l Ht Hl IH]; simpl; [done|]. rewrite (proj2 (Z.ltb_lt s t) Ht). simpl. by rewrite IH.
Qed.

Lemma after_mono s s' values : s <= s' -> (after s' values <= after s values)%nat.
Proof.
  intros Hs. unfold after, count, select. induction values as [|t l IH]; simpl; [done|].
  destruct (Z.ltb_spec s' t), (Z.ltb_spec s t); simpl; lia.
Qed.

Lemma after_drop_old threshold s values : threshold <= s -> after s (drop_old threshold values) = after s values.
Proof.
  intros Hs. induction values as [|t l IH]; [done|]. simpl. destruct (threshold <? t) eqn:E; [done|]. split_bools. rewrite IH.
  change (t :: l) with ([t] ++ l). rewrite after_app, after_one, (proj2 (Z.ltb_ge s t)) by lia. done.
Qed.

Lemma drop_old_sorted threshold values :
  StronglySorted Z.le values -> StronglySorted Z.le (drop_old threshold values) /\ Forall (fun t => threshold < t) (drop_old threshold values).
Proof.
  induction 1 as [|t l Hl IH Ht]; [split; constructor|]. simpl. destruct (threshold <? t) eqn:E; [|done]. split_bools.
  split; [by constructor|]. constructor; [done|]. eapply Forall_impl; [exact Ht|]. simpl. intros x Hx. lia.
Qed.

Lemma drop_old_Forall P threshold values : Forall P values -> Forall P (drop_old threshold values).
Proof. induction 1 as [|t l Ht Hl IH]; simpl; [constructor|]. destruct (threshold <? t); [by constructor|done]. Qed.

(** The latest time bounds the others. *)
Lemma sorted_last values t : StronglySorted Z.le values -> last values = Some t -> Forall (fun x => x <= t) values.
Proof.
  induction 1 as [|x l Hl IH Hx]; [done|]. destruct l as [|y l]; [intros [= ->]; by repeat constructor|]. intros E.
  change (last (y :: l) = Some t) in E. specialize (IH E). constructor; [|done].
  apply last_Some_elem_of in E. rewrite Forall_forall in Hx. by apply Hx.
Qed.

Lemma live_false threshold values : StronglySorted Z.le values -> live threshold values = false -> Forall (fun t => t <= threshold) values.
Proof.
  unfold live. intros Hs. destruct (last _) as [t|] eqn:E; [|by apply last_None in E as ->]. intros Ht.
  eapply Forall_impl; [exact (sorted_last values t Hs E)|]. simpl. intros x Hx. apply Z.ltb_ge in Ht. lia.
Qed.

Lemma live_after threshold values : live threshold values = true -> (0 < after threshold values)%nat.
Proof.
  unfold live. destruct (last _) as [t|] eqn:E; [|done]. intros Ht. apply last_Some in E as [l ->].
  rewrite after_app, after_one, Ht. lia.
Qed.

Lemma times_snoc values t : StronglySorted Z.le values -> Forall (fun x => x <= t) values -> StronglySorted Z.le (values ++ [t]).
Proof.
  induction 1 as [|x l Hl IH Hx]; intros Hf; simpl; [by repeat constructor|]. apply Forall_cons in Hf as [Hxt Hf].
  constructor; [by apply IH|]. apply Forall_app. split; [done|]. by repeat constructor.
Qed.

(** ** The invariant *)

(** The times that are recorded for an address. *)
Definition recorded (l : windowLimiter) (key : string) : list time := default [] (wl_requests l !! key).

(** [h] are the answers so far, [now] the time of the last one.  Within the
    window, a limiter has recorded every request that it allowed, and only
    requests that were made; it tracks a bounded number of addresses. *)
Record LimiterInv (l : windowLimiter) (h : list Answer) (now : time) : Prop := {
  li_size : (size (wl_requests l) <= maxLimiterClients)%nat;
  li_sorted : forall key, StronglySorted Z.le (recorded l key) /\ Forall (fun t => t <= now) (recorded l key);
  li_passed : forall key s, now - wl_window l <= s -> (after s (passed key h) <= after s (recorded l key))%nat;
  li_asked : forall key s, (after s (recorded l key) <= after s (asked key h))%nat
}.

Lemma limiter_init limit window now : LimiterInv (newWindowLimiter limit window) [] now.
Proof.
  split; unfold recorded; simpl; try (intros; rewrite lookup_empty); [|by split; constructor|done|done].
  rewrite map_size_empty. unfold maxLimiterClients. lia.
Qed.

Lemma asked_snoc key h a : asked key (h ++ [a]) = asked key h ++ (if bool_decide (an_key a = key) then [an_time a] else []).
Proof. unfold asked. rewrite select_app, map_app. f_equal. unfold select. simpl. by case_bool_decide. Qed.

Lemma passed_snoc key h a :
  passed key (h ++ [a]) = passed key h ++ (if bool_decide (an_key a = key) && an_allowed a then [an_time a] else []).
Proof. unfold passed. rewrite select_app, map_app. f_equal. unfold select. simpl. by destruct (_ && _). Qed.

(** Forgetting addresses without a recent request. *)
Definition forget (threshold : time) (l : windowLimiter) : windowLimiter :=
  mkLimiter (wl_limit l) (wl_window l) (filter (fun kv => live threshold kv.2 = true) (wl_requests l)).

Lemma recorded_forget threshold l key :
  recorded (forget threshold l) key = if live threshold (recorded l key) then recorded l key else [].
Proof.
  unfold recorded, forget. simpl. destruct (wl_requests l !! key) as [values|] eqn:E; simpl.
  - destruct (live threshold values) eqn:El.
    + by rewrite (map_lookup_filter_Some_2 _ _ key values).
    + rewrite (proj2 (map_lookup_filter_None _ _ key)); [done|]. right. intros x Hx. rewrite E in Hx. injection Hx as <-. simpl. by rewrite El.
  - rewrite (proj2 (map_lookup_filter_None _ _ key)); [done|by left].
Qed.

Lemma forget_inv l h before now :
  before <= now -> LimiterInv l h before -> LimiterInv (forget (now - wl_window l) l) h now.
Proof.
  intros Hle [H1 H2 H3 H4]. split.
  - etrans; [|exact H1]. apply map_subseteq_size, map_filter_subseteq.
  - intros key. rewrite recorded_forget. destruct (H2 key) as [Hs Hf]. destruct (live _ _); [|by split; constructor].
    split; [done|]. eapply Forall_impl; [exact Hf|]. simpl. lia.
  - intros key s Hs. simpl in Hs. rewrite recorded_forget. destruct (live _ _) eqn:El; [apply H3; lia|].
    assert (E : after s (recorded l key) = 0%nat).
    { apply after_none. eapply Forall_impl; [apply (live_false _ _ (proj1 (H2 key)) El)|]. simpl. lia. }
    specialize (H3 key s ltac:(lia)). unfold after at 2, count, select. simpl. lia.
  - intros key s. rewrite recorded_forget. destruct (live _ _); [apply H4|]. unfold after at 1, count, select. simpl. lia.
Qed.

(** A request that is recorded. *)
Definition record (now : time) (key : string) (l : windowLimiter) : windowLimiter :=
  mkLimiter (wl_limit l) (wl_window l) (<[key := drop_old (now - wl_window l) (recorded l key) ++ [now]]> (wl_requests l)).

Lemma recorded_record now key l key' :
  recorded (record now key l) key' = if bool_decide (key = key') then drop_old (now - wl_window l) (recorded l key) ++ [now] else recorded l key'.
Proof. unfold recorded at 1, record. simpl. case_bool_decide as E; [subst; by rewrite lookup_insert_eq|by rewrite lookup_insert_ne]. Qed.

Lemma record_inv l h before now key allowed :
  before <= now -> (wl_requests l !! key <> None \/ (size (wl_requests l) < maxLimiterClients)%nat) ->
  LimiterInv l h before -> LimiterInv (record now key l) (h ++ [mkAnswer now key allowed]) now.
Proof.
  intros Hle Hroom [H1 H2 H3 H4]. split.
  - unfold record. simpl. destruct (wl_requests l !! key) as [values|] eqn:E.
    + rewrite map_size_insert_Some by (by rewrite E). done.
    + rewrite map_size_insert_None by done. destruct Hroom; [done|lia].
  - intros key'. rewrite recorded_record. destruct (H2 key') as [Hs Hf]. case_bool_decide as E.
    + subst. destruct (drop_old_sorted (now - wl_window l) _ Hs) as [Hs' _].
      assert (Hf' : Forall (fun t => t <= now) (drop_old (now - wl_window l) (recorded l key')))
        by (apply drop_old_Forall; eapply Forall_impl; [exact Hf|]; simpl; lia).
      split; [by apply times_snoc|]. apply Forall_app. split; [done|]. repeat constructor. lia.
    + split; [done|]. eapply Forall_impl; [exact Hf|]. simpl. lia.
  - intros key' s Hs. simpl in Hs. rewrite recorded_record, passed_snoc. cbn [an_key an_allowed an_time]. specialize (H3 key' s ltac:(lia)).
    case_bool_decide as E; cbn [andb]; [subst; rewrite !after_app, after_drop_old by lia; destruct allowed; [lia|]|]; rewrite ?app_nil_r; [|done].
    unfold after at 2, count, select. simpl. lia.
  - intros key' s. rewrite recorded_record, asked_snoc. cbn [an_key an_time]. specialize (H4 key' s).
    case_bool_decide as E; [|by rewrite app_nil_r]. subst. rewrite !after_app. apply Nat.add_le_mono_r. etrans; [|exact H4].
    clear. induction (recorded l key') as [|t values IH]; [done|]. simpl. case_match; [done|]. etrans; [exact IH|].
    change (t :: values) with ([t] ++ values). rewrite after_app. lia.
Qed.

Lemma refused_inv l h now key : LimiterInv l h now -> LimiterInv l (h ++ [mkAnswer now key false]) now.
Proof.
  intros [H1 H2 H3 H4]. split; [done|done| |].
  - intros key' s Hs. rewrite passed_snoc. cbn. rewrite andb_false_r, app_nil_r. by apply H3.
  - intros key' s. rewrite asked_snoc, after_app. specialize (H4 key' s). lia.
Qed.

(** ** Answers *)

(** As many other addresses as the limiter tracks have asked within the window. *)
Definition crowded (threshold : time) (key : string) (h : list Answer) : Prop :=
  exists keys, NoDup keys /\ length keys = maxLimiterClients /\ (key ∉ keys) /\ forall k, k ∈ keys -> (0 < after threshold (asked k h))%nat.

Definition full (key : string) (l : windowLimiter) : bool :=
  bool_decide (wl_requests l !! key = None) && (maxLimiterClients <=? size (wl_requests l))%nat.

Lemma Allow_cases now key l :
  let l' := if full key l then forget (now - wl_window l) l else l in
  Allow now key l =
    if full key l' then (false, l') else ((length (recorded (record now key l') key) <=? wl_limit l)%nat, record now key l').
Proof.
  unfold Allow, full. destruct (bool_decide (wl_requests l !! key = None) && _) eqn:E; cbn [forget wl_requests].
  - destruct (bool_decide (filter _ _ !! key = None) && _); [done|]. by rewrite recorded_record, bool_decide_eq_true_2.
  - rewrite E, recorded_record, bool_decide_eq_true_2 by done. by destruct l.
Qed.

Lemma full_crowded threshold key l h now :
  LimiterInv l h now -> full key (forget threshold l) = true -> crowded threshold key h.
Proof.
  intros HI Hf. pose proof (li_size _ _ _ HI) as H1. unfold full in Hf. apply andb_true_iff in Hf as [Hk Hn].
  apply bool_decide_eq_true in Hk. apply Nat.leb_le in Hn. exists ((map_to_list (wl_requests (forget threshold l))).*1).
  split; [apply NoDup_fst_map_to_list|]. split.
  - rewrite length_fmap, length_map_to_list. apply Nat.le_antisymm; [|done]. etrans; [|exact H1]. apply map_subseteq_size, map_filter_subseteq.
  - split.
    + intros Hin. apply list_elem_of_fmap in Hin as ([k values] & -> & Hv). apply elem_of_map_to_list in Hv. simpl in *. congruence.
    + intros k Hin. apply list_elem_of_fmap in Hin as ([k' values] & -> & Hv). apply elem_of_map_to_list in Hv.
      unfold forget in Hv. apply map_lookup_filter_Some in Hv as [Hv Hl]. simpl in Hv, Hl |- *.
      pose proof (li_asked _ _ _ HI k' threshold) as Ha. unfold recorded in Ha. rewrite Hv in Ha. simpl in Ha.
      apply live_after in Hl. lia.
Qed.

(** What an answer says about the requests up to it. *)
Definition justified (limit : nat) (window : duration) (h : list Answer) (now : time) (key : string) (allowed : bool) : Prop :=
  let h' := h ++ [mkAnswer now key allowed] in
  if allowed then (after (now - window)%Z (passed key h') <= limit)%nat
  else (limit < after (now - window)%Z (asked key h'))%nat \/ crowded (now - window) key h'.

Lemma recorded_justified l h before now key :
  0 < wl_window l -> before <= now -> (wl_requests l !! key <> None \/ (size (wl_requests l) < maxLimiterClients)%nat) -> LimiterInv l h before ->
  justified (wl_limit l) (wl_window l) h now key (length (recorded (record now key l) key) <=? wl_limit l)%nat.
Proof.
  intros Hw Hle Hroom HI. set (allowed := (length _ <=? _)%nat). pose proof (record_inv l h before now key allowed Hle Hroom HI) as HI'.
  unfold justified. destruct allowed eqn:Ea.
  - etrans; [apply (li_passed _ _ _ HI')|]; [cbn; lia|]. etrans; [apply after_length|]. by apply Nat.leb_le.
  - left. eapply Nat.lt_le_trans; [|apply (li_asked _ _ _ HI')]. apply Nat.leb_gt in Ea. rewrite after_all; [done|].
    rewrite recorded_record, bool_decide_eq_true_2 by done. apply Forall_app. split; [|repeat constructor; lia].
    apply drop_old_sorted. by apply (li_sorted _ _ _ HI).
Qed.

Lemma Allow_spec l h before now key :
  0 < wl_window l -> before <= now -> LimiterInv l h before ->
  let '(allowed, l') := Allow now key l in
  wl_limit l' = wl_limit l /\ wl_window l' = wl_window l /\ LimiterInv l' (h ++ [mkAnswer now key allowed]) now /\
  justified (wl_limit l) (wl_window l) h now key allowed.
Proof.
  intros Hw Hle HI. rewrite Allow_cases. cbv zeta.
  assert (Hl : exists l' before', l' = (if full key l then forget (now - wl_window l) l else l) /\ before' <= now /\ LimiterInv l' h before' /\
             wl_limit l' = wl_limit l /\ wl_window l' = wl_window l).
  { destruct (full key l); [exists (forget (now - wl_window l) l), now|exists l, before]; (split; [done|]); (split; [lia|]); [|done].
    split; [by apply (forget_inv l h before now)|done]. }
  destruct Hl as (l' & before' & El & Hle' & HI' & E1 & E2). rewrite <- El. destruct (full key l') eqn:Ef.
  - assert (E : l' = forget (now - wl_window l) l) by (destruct (full key l) eqn:E; [done|]; subst l'; congruence).
    rewrite E in Ef |- *. split; [done|]. split; [done|]. split; [by apply refused_inv, (forget_inv l h before now)|]. right.
    apply (full_crowded _ key l _ now); [|exact Ef]. apply refused_inv.
    destruct HI as [? Hs Hp ?]. split; [done| | |done].
    + intros k. destruct (Hs k) as [? Hf]. split; [done|]. eapply Forall_impl; [exact Hf|]. simpl. lia.
    + intros k s Hk. apply Hp. lia.
  - assert (Hroom : wl_requests l' !! key <> None \/ (size (wl_requests l') < maxLimiterClients)%nat).
    { unfold full in Ef. apply andb_false_iff in Ef as [Ef|Ef]; [left; by apply bool_decide_eq_false in Ef|right; by apply Nat.leb_gt]. }
    split; [done|]. split; [done|]. split; [by apply (record_inv l' h before')|]. rewrite <- E1, <- E2. apply (recorded_justified _ _ before'); [lia|done|done|done].
Qed.

(** ** Runs of the limiter *)

(** How many times of a list lie in a window. *)
Definition within (s t : time) (values : list time) : nat := count (fun x => (s <? x) && (x <=? t)) values.

Lemma within_after s t values : (within s t values <= after s values)%nat.
Proof. unfold within, after, count, select. induction values as [|x l IH]; simpl; [done|]. destruct (s <? x), (x <=? t); simpl; lia. Qed.

Lemma within_app s t a b : within s t (a ++ b) = (within s t a + within s t b)%nat.
Proof. unfold within, count. by rewrite select_app, length_app. Qed.

(** Every window holds at most [limit] allowed requests of an address. *)
Definition limited (limit : nat) (window : duration) (h : list Answer) : Prop :=
  forall key t, (within (t - window)%Z t (passed key h) <= limit)%nat.

Lemma limited_snoc limit window h now key allowed :
  limited limit window h -> justified limit window h now key allowed -> limited limit window (h ++ [mkAnswer now key allowed]).
Proof.
  intros Hl Hj key' t. destruct allowed.
  2:{ rewrite passed_snoc. cbn. rewrite andb_false_r, app_nil_r. apply Hl. }
  destruct (decide (key = key')) as [<-|Hne].
  - destruct (decide (now <= t)) as [Hle|Hgt].
    + etrans; [apply within_after|]. etrans; [apply (after_mono (now - window) (t - window)); lia|exact Hj].
    + assert (E : within (t - window) t [now] = 0%nat).
      { unfold within, count, select. cbn. by rewrite (proj2 (Z.leb_gt now t)), andb_false_r by lia. }
      rewrite passed_snoc, within_app. cbn [an_key an_allowed an_time andb]. rewrite bool_decide_eq_true_2 by done.
      cbn [andb]. rewrite E, Nat.add_0_r. apply Hl.
  - rewrite passed_snoc. cbn. rewrite bool_decide_eq_false_2, app_nil_r by done. apply Hl.
Qed.

Lemma answers_spec requests : forall l h before,
  0 < wl_window l -> StronglySorted Z.le (before :: map fst requests) -> LimiterInv l h before -> limited (wl_limit l) (wl_window l) h ->
  let '(h', l') := answers l requests in
  (size (wl_requests l') <= maxLimiterClients)%nat /\ limited (wl_limit l) (wl_window l) (h ++ h') /\
  forall h1 a h2, h' = h1 ++ a :: h2 -> justified (wl_limit l) (wl_window l) (h ++ h1) (an_time a) (an_key a) (an_allowed a).
Proof.
  induction requests as [|[now key] requests IH]; intros l h before Hw Hs HI Hl; simpl.
  { rewrite app_nil_r. split; [apply HI|]. split; [done|]. intros [|x h1] a h2 E; discriminate. }
  apply StronglySorted_inv in Hs as [Hs Hb]. apply Forall_cons in Hb as [Hb _]. simpl in Hs, Hb.
  pose proof (Allow_spec l h before now key Hw Hb HI) as Ha. destruct (Allow now key l) as [allowed l1]. destruct Ha as (E1 & E2 & HI1 & Hj).
  specialize (IH l1 (h ++ [mkAnswer now key allowed]) now). rewrite E1, E2 in IH. specialize (IH Hw Hs HI1 (limited_snoc _ _ _ _ _ _ Hl Hj)).
  destruct (answers l1 requests) as [more l2]. destruct IH as (IH1 & IH2 & IH3). rewrite <- !(assoc_L (++)) in IH2. split; [done|]. split; [done|].
  intros [|x h1] a h2 E; simpl in E; injection E as <- E.
  - by rewrite app_nil_r.
  - specialize (IH3 h1 a h2 E). by rewrite <- (assoc_L (++)) in IH3.
Qed.

(** C36: the limiter limits, and refuses nobody else.  On a clock that does not run
    backwards, whatever addresses ask: every window of time holds at most [limit]
    allowed requests of one address; a request is refused only if its address
    has made more than [limit] requests in the window that ends with it, or if
    4096 other addresses have asked in that window; and no more than 4096
    addresses are ever tracked. *)
Theorem limiter_is_exact limit window requests :
  0 < window -> in_time requests ->
  let '(h, l) := answers (newWindowLimiter limit window) requests in
  limited limit window h /\ (size (wl_requests l) <= maxLimiterClients)%nat /\
  forall h1 a h2, h = h1 ++ a :: h2 -> an_allowed a = false ->
    (limit < after (an_time a - window)%Z (asked (an_key a) (h1 ++ [a])))%nat \/ crowded (an_time a - window) (an_key a) (h1 ++ [a]).
Proof.
  intros Hw Hs. destruct requests as [|[now key] requests].
  { simpl. split; [intros k t; cbn; lia|]. split; [rewrite map_size_empty; lia|]. intros [|x h1] a h2 E; discriminate. }
  pose proof (answers_spec ((now, key) :: requests) (newWindowLimiter limit window) [] now Hw) as H.
  destruct (answers _ _) as [h l]. destruct H as (H1 & H2 & H3).
  - unfold in_time in Hs. simpl in Hs |- *. constructor; [done|]. apply StronglySorted_inv in Hs as [_ Hs]. constructor; [lia|done].
  - apply limiter_init.
  - intros k t. cbn. lia.
  - split; [done|]. split; [done|]. intros h1 a h2 E Ha. specialize (H3 h1 a h2 E). unfold justified in H3. rewrite Ha in H3.
    by destruct a as [t k b]; simpl in *; subst.
Qed.

Definition burst : list (time * string) := [(0, "a"); (1, "a"); (2, "b"); (3, "a"); (12, "a")].

(** Of four requests of one address the third comes too early. *)
Lemma limiter_is_exact_witness :
  map an_allowed (answers (newWindowLimiter 2 10) burst).1 = [true; true; true; false; true] /\
  (within (-7)%Z 3%Z (passed "a" (answers (newWindowLimiter 2 10%Z) burst).1) <= 2)%nat.
Proof.
  split; [vm_compute; reflexivity|].
  assert (Ht : in_time burst) by (repeat constructor; vm_compute; congruence).
  pose proof (limiter_is_exact 2 10 burst ltac:(lia) Ht) as Hl. destruct (answers (newWindowLimiter 2 10) burst) as [h l].
  destruct Hl as [Hl _]. exact (Hl "a" 3).
Defined.
