(* ===== verification/HumanAuth.v ===== *)
(** * Human login

    [internal/humanauth/handler.go]: login with GitHub in a browser, and the
    approval and exchange of device logins for the command line.  A handler maps
    a request to a response and changes the store, the rate limiters and the
    network behind the provider. *)
From Stdlib Require Import Ascii.
From S2P Require Import Prelude Model GoMonad GoLib GoStrings Encoding Table Schema JobStore Identity Reads Limiter.

(** ** Requests and responses *)

(** A request as [net/http] presents it: the query, the cookies, the [Origin]
    header; the form is [None] when it cannot be parsed; [hq_JSON] is the field
    that [decodeJSON] finds in the body, [None] when it fails. *)
Record HttpRequest := mkHttpRequest {
  hq_RemoteAddr : string; hq_Query : list (string * string); hq_Cookies : list (string * string); hq_Origin : string;
  hq_Form : option (list (string * string)); hq_JSON : option string
}.

Definition first_value (key : string) (values : list (string * string)) : option string :=
  snd <$> head (select (fun kv => bool_decide (kv.1 = key)) values).

(** [url.Values.Get] and [Request.Cookie]. *)
Definition Get (values : list (string * string)) (key : string) : string := default "" (first_value key values).
Definition request_Cookie (request : HttpRequest) (name : string) : option string := first_value name (hq_Cookies request).

(** [http.Cookie].  Every cookie is [HttpOnly] and [SameSite=Lax]; a negative
    [MaxAge] deletes it. *)
Record Cookie := mkCookie {
  ck_Name : string; ck_Value : string; ck_Path : string; ck_MaxAge : Z; ck_Expires : option time; ck_Secure : bool
}.

Inductive Body :=
| BodyText (message : string)
| BodyPage (title : string)
| BodyDeviceStart (deviceCode userCode verificationURI complete : string) (expiresInSeconds intervalSeconds : Z)
| BodyDeviceToken (status token tokenID : string) (intervalSeconds : Z)
| BodyEmpty.

Record HttpResponse := mkResponse { hr_Status : Z; hr_SetCookies : list Cookie; hr_Location : option string; hr_Body : Body }.

Definition http_Error (message : string) (status : Z) : HttpResponse := mkResponse status [] None (BodyText message).
Definition render (status : Z) (title : string) : HttpResponse := mkResponse status [] None (BodyPage title).
Definition writeJSON (status : Z) (body : Body) : HttpResponse := mkResponse status [] None body.

(** [http.Redirect] with [StatusSeeOther], to the given target. *)
Definition http_Redirect (cookies : list Cookie) (target : string) : HttpResponse := mkResponse 303 cookies (Some target) BodyEmpty.

(** ** URLs *)

Record URL := mkURL { url_Scheme : string; url_Host : string; url_Hostname : string }.

(** [url.Parse] of absolute URLs, [URL.ResolveReference] to a path with a query,
    and [url.Values.Encode] of one value. *)
Class UrlParser := {
  url_Parse : string -> option URL;
  url_Resolve : URL -> string -> string -> string;
  url_Encode : string -> string -> string
}.

Definition unhex (b : Z) : option Z :=
  if (48 <=? b) && (b <=? 57) then Some (b - 48) else
  if (97 <=? b) && (b <=? 102) then Some (b - 87) else
  if (65 <=? b) && (b <=? 70) then Some (b - 55) else None.

(** [url.unescape] of a path or a fragment. *)
Fixpoint url_unescape (l : list Z) : option (list Z) :=
  match l with
  | [] => Some []
  | b :: rest =>
      if b =? 37 then
        match rest with
        | h1 :: h2 :: rest => a ← unhex h1; c ← unhex h2; tail ← url_unescape rest; Some (a * 16 + c :: tail)
        | _ => None
        end
      else tail ← url_unescape rest; Some (b :: tail)
  end.

Fixpoint before_byte (b : Z) (l : list Z) : list Z :=
  match l with [] => [] | x :: rest => if x =? b then [] else x :: before_byte b rest end.
Fixpoint after_byte (b : Z) (l : list Z) : list Z :=
  match l with [] => [] | x :: rest => if x =? b then rest else after_byte b rest end.

(** The path of [url.Parse] of a string that begins with one slash: such a URL
    has neither a scheme nor a host.  [None] is an error: a control character
    before the fragment, or a malformed escape. *)
Definition rooted_path (value : string) : option (list Z) :=
  let l := bytes value in
  let u := before_byte 35 l in
  if existsb (fun b => (b <? 32) || (b =? 127)) u then None else
  path ← url_unescape (before_byte 63 u);
  _ ← url_unescape (after_byte 35 l);
  Some path.

Definition validReturnTo (value : string) : bool :=
  if negb (HasPrefix value "/") || HasPrefix value "//" then false else
  match rooted_path value with
  | None => false
  | Some path =>
      bool_decide (path = bytes "/app") || bool_decide (take 5 path = bytes "/app/") || bool_decide (path = bytes "/auth/device")
  end.

(** ** The server *)

Record GitHubIdentity := mkGitHubIdentity { gi_Subject : string; gi_Login : string; gi_Name : string }.

(** [GitHubProvider]; [N] is the network it uses. *)
Class GitHubProvider (N : Type) := {
  gh_AuthorizationURL : string -> string -> string;
  gh_Exchange : string -> string -> M N GitHubIdentity
}.

Class Sha256 := { sha256 : list Z -> list Z }.

Definition oauthStateCookie : string := "autback_oauth_state".
Definition sessionCookie : string := "autback_session".

Record LoginServer := mkLoginServer { ls_publicURL : URL; ls_sessionTTL : duration; ls_loginTTL : duration }.

Record Limiters := mkLimiters { lm_login : windowLimiter; lm_start : windowLimiter; lm_poll : windowLimiter }.

Definition initial_limiters : Limiters := mkLimiters (newWindowLimiter 30 Minute) (newWindowLimiter 20 Minute) (newWindowLimiter 300 Minute).

Definition isLoopbackHost (host : string) : bool :=
  bool_decide (host = "localhost") || bool_decide (host = "127.0.0.1") || bool_decide (host = "::1").

(** [New], on the parsed public URL, up to the routes. *)
Definition NewLoginServer (publicURL : option URL) (sessionTTL loginTTL : duration) : LoginServer + Err :=
  match publicURL with
  | None => inr (ErrText "human auth public URL must use HTTPS or loopback HTTP")
  | Some u =>
      if bool_decide (url_Host u = "")
         || (negb (bool_decide (url_Scheme u = "https")) && negb (bool_decide (url_Scheme u = "http") && isLoopbackHost (url_Hostname u)))
      then inr (ErrText "human auth public URL must use HTTPS or loopback HTTP") else
      let sessionTTL := if sessionTTL =? 0 then 7 * 24 * Hour else sessionTTL in
      if (sessionTTL <? Minute) || (30 * 24 * Hour <? sessionTTL)
      then inr (ErrText "browser session TTL must be between one minute and 30 days") else
      let loginTTL := if loginTTL =? 0 then 10 * Minute else loginTTL in
      if (loginTTL <? Minute) || (15 * Minute <? loginTTL) then inr (ErrText "login TTL must be between one and 15 minutes") else
      inl (mkLoginServer u sessionTTL loginTTL)
  end.

(** ** Addresses *)

(** The bytes before and after the last occurrence. *)
Fixpoint split_last (b : Z) (l : list Z) : option (list Z * list Z) :=
  match l with
  | [] => None
  | x :: rest =>
      match split_last b rest with
      | Some (p, q) => Some (x :: p, q)
      | None => if x =? b then Some ([], rest) else None
      end
  end.

Definition has (b : Z) (l : list Z) : bool := existsb (Z.eqb b) l.

(** [net.SplitHostPort], the host: a host in brackets must be followed by the
    last colon; any other host has no colon; there are no further brackets. *)
Definition SplitHostPort_host (hostport : list Z) : option (list Z) :=
  match split_last 58 hostport with
  | None => None
  | Some (front, port) =>
      match hostport with
      | 91 :: rest =>
          if negb (has 93 rest) then None else
          let host := before_byte 93 rest in
          if bool_decide (front = 91 :: host ++ [93]) && negb (has 91 rest) && negb (has 93 port) then Some host else None
      | _ => if has 58 front || has 91 hostport || has 93 hostport then None else Some front
      end
  end.

Definition clientAddress (request : HttpRequest) : string :=
  match SplitHostPort_host (bytes (hq_RemoteAddr request)) with
  | Some (b :: host) => of_bytes (b :: host)
  | _ => hq_RemoteAddr request
  end.

Example client_addresses :
  map (fun a => clientAddress (mkHttpRequest a [] [] "" None None)) ["10.0.0.1:5000"; "[::1]:80"; "::1:80"; "host"; ":80"] =
    ["10.0.0.1"; "::1"; "::1:80"; "host"; ":80"].
Proof. vm_compute. reflexivity. Qed.

(** ** Handlers *)

Section Handlers.
Context {N : Type} `{GitHubProvider N} `{Pepper} `{CaseTables} `{UrlParser} `{Sha256} (s : LoginServer).
#[local] Abbreviation LoginM := (M ((Database * N) * Limiters)).

(** A call on the store, a call of the provider, a question to a limiter. *)
Definition on_db {A} (m : StoreM A) : LoginM A := on_store (on_store m).
Definition on_network {A} (m : M N A) : LoginM A := on_store (on_runtime m).

Definition allow (limiter : Limiters -> windowLimiter) (update : windowLimiter -> Limiters -> Limiters) (key : string) : LoginM bool :=
  now ← time_Now;
  on_runtime (l ← get_db; let '(allowed, l') := Allow now key (limiter l) in _ ← put_db (update l' l); mret allowed).

Definition allow_login : string -> LoginM bool := allow lm_login (fun x l => mkLimiters x (lm_start l) (lm_poll l)).
Definition allow_start : string -> LoginM bool := allow lm_start (fun x l => mkLimiters (lm_login l) x (lm_poll l)).
Definition allow_poll : string -> LoginM bool := allow lm_poll (fun x l => mkLimiters (lm_login l) (lm_start l) x).

Definition secure : bool := bool_decide (url_Scheme (ls_publicURL s) = "https").

Definition sameOrigin (request : HttpRequest) : bool :=
  if bool_decide (hq_Origin request = "") then true else
  match url_Parse (hq_Origin request) with
  | None => false
  | Some u => bool_decide (url_Scheme u = url_Scheme (ls_publicURL s)) && bool_decide (url_Host u = url_Host (ls_publicURL s))
  end.

Definition randomValue (size : nat) : LoginM string := value ← rand_Read size; mret (base64url value).

Definition pkceChallenge (verifier : string) : string := base64url (sha256 (bytes verifier)).

(** [constantEqual]. *)
Definition constantEqual (left right : string) : bool := bool_decide (left = right).

(** The principal of the session cookie, if it is a browser's. *)
Definition browserPrincipal (request : HttpRequest) : LoginM (option Principal) :=
  match request_Cookie request sessionCookie with
  | None | Some "" => mret None
  | Some value =>
      r ← attempt (on_db (Authenticate value));
      mret match r with
           | Ok principal => if bool_decide (pr_Kind principal = PrincipalBrowser) then Some principal else None
           | Fail _ => None
           end
  end.

Definition logoutPage (request : HttpRequest) : LoginM HttpResponse :=
  principal ← browserPrincipal request;
  mret match principal with None => http_Redirect [] "/auth/login" | Some _ => render 200 "Sign out" end.

(** The end of a session: its cookie is deleted. *)
Definition signed_out : HttpResponse := http_Redirect [mkCookie sessionCookie "" "/" (-1) None secure] "/auth/login".

Definition logout (request : HttpRequest) : LoginM HttpResponse :=
  if negb (sameOrigin request) then mret (http_Error "invalid origin" 403) else
  match request_Cookie request sessionCookie with
  | None | Some "" => mret signed_out
  | Some value =>
      principal ← browserPrincipal request;
      match principal with
      | None => mret signed_out
      | Some principal =>
          revoked ← attempt (on_db (RevokeBrowserSession value));
          match revoked with
          | Fail _ => mret (http_Error "sign out unavailable" 500)
          | Ok _ =>
              audited ← attempt (on_db (Audit principal "" "auth.browser.logout" (pr_UserID principal) []));
              mret match audited with Fail _ => http_Error "sign out unavailable" 500 | Ok _ => signed_out end
          end
      end
  end.

Definition login (request : HttpRequest) : LoginM HttpResponse :=
  allowed ← allow_login (clientAddress request);
  if negb allowed then mret (http_Error "too many login attempts" 429) else
  let returnTo := Get (hq_Query request) "return_to" in
  let returnTo := if bool_decide (returnTo = "") then "/app" else returnTo in
  if negb (validReturnTo returnTo) then mret (http_Error "invalid return path" 400) else
  verifier ← attempt (randomValue 32);
  match verifier with
  | Fail _ => mret (http_Error "login unavailable" 500)
  | Ok verifier =>
      now ← time_Now;
      state ← attempt (on_db (CreateOAuthLoginState returnTo verifier (now + ls_loginTTL s)));
      mret match state with
           | Fail _ => http_Error "login unavailable" 500
           | Ok state =>
               http_Redirect
                 [mkCookie oauthStateCookie (ols_State state) "/auth/github/callback" (ls_loginTTL s / Second) None secure]
                 (gh_AuthorizationURL (ols_State state) (pkceChallenge verifier))
           end
  end.

(** From the user of the identity on. *)
Definition start_session (account : GitHubIdentity) (transaction : OAuthLoginState) (user : User) : LoginM HttpResponse :=
  now ← time_Now;
  session ← attempt (on_db (CreateBrowserSession (us_ID user) (now + ls_sessionTTL s)));
  match session with
  | Fail _ => mret (http_Error "login unavailable" 500)
  | Ok session =>
      let principal := mkPrincipal PrincipalBrowser "" (us_ID user) "" (us_Admin user) "" in
      audited ← attempt (on_db (Audit principal "" "auth.github.login" (us_ID user)
                                  [("github_id", gi_Subject account); ("github_login", gi_Login account)]));
      match audited with
      | Fail _ =>
          _ ← attempt (on_db (RevokeBrowserSession (bs_Token session)));
          mret (http_Error "login unavailable" 500)
      | Ok _ =>
          mret (http_Redirect
            [ mkCookie sessionCookie (bs_Token session) "/" 0 (Some (bs_ExpiresAt session)) secure;
              mkCookie oauthStateCookie "" "/auth/github/callback" (-1) None secure ]
            (ols_ReturnTo transaction))
      end
  end.

Definition callback (request : HttpRequest) : LoginM HttpResponse :=
  let state := Get (hq_Query request) "state" in
  let code := Get (hq_Query request) "code" in
  let matched := match request_Cookie request oauthStateCookie with Some value => constantEqual value state | None => false end in
  if negb matched || bool_decide (code = "") then mret (http_Error "invalid login state" 401) else
  now ← time_Now;
  transaction ← attempt (on_db (ConsumeOAuthLoginState state now));
  match transaction with
  | Fail _ => mret (http_Error "invalid or expired login" 401)
  | Ok transaction =>
      account ← attempt (on_network (gh_Exchange code (ols_CodeVerifier transaction)));
      match account with
      | Fail _ => mret (http_Error "GitHub login failed" 502)
      | Ok account =>
          if bool_decide (gi_Subject account = "") || bool_decide (gi_Login account = "") then mret (http_Error "GitHub login failed" 502) else
          user ← attempt (on_db (UserByExternalIdentity "github" (gi_Subject account) (gi_Login account)));
          match user with
          | Fail ErrForbidden | Fail ErrNotFound => mret (render 403 "Access not provisioned")
          | Fail _ => mret (http_Error "login unavailable" 500)
          | Ok user => start_session account transaction user
          end
      end
  end.

Definition devicePage (request : HttpRequest) : LoginM HttpResponse :=
  principal ← browserPrincipal request;
  let code := Get (hq_Query request) "code" in
  match principal with
  | None => mret (http_Redirect [] ("/auth/login?" +:+ url_Encode "return_to" ("/auth/device?" +:+ url_Encode "code" code)))
  | Some principal =>
      now ← time_Now;
      found ← attempt (on_db (DeviceLoginByUserCode code now));
      match found with
      | Fail _ => mret (render 404 "Login request unavailable")
      | Ok _ =>
          user ← attempt (on_db (getUser (pr_UserID principal)));
          mret match user with Fail _ => http_Error "login unavailable" 500 | Ok _ => render 200 "Approve device" end
      end
  end.

Definition approveDevice (request : HttpRequest) : LoginM HttpResponse :=
  principal ← browserPrincipal request;
  match principal with
  | None => mret (http_Error "authentication required" 401)
  | Some principal =>
      if negb (sameOrigin request) then mret (http_Error "invalid origin" 403) else
      match hq_Form request with
      | None => mret (http_Error "invalid approval" 400)
      | Some form =>
          now ← time_Now;
          found ← attempt (on_db (DeviceLoginByUserCode (Get form "code") now));
          match found with
          | Fail _ => mret (render 404 "Login request unavailable")
          | Ok login =>
              now ← time_Now;
              approved ← attempt (on_db (ApproveDeviceLogin (dv_UserCode login) principal now));
              match approved with
              | Fail _ => mret (render 404 "Login request unavailable")
              | Ok _ =>
                  audited ← attempt (on_db (Audit principal "" "auth.device.approve" (pr_UserID principal)
                                              [("device_login_id", dv_ID login); ("device_name", dv_DeviceName login)]));
                  mret match audited with Fail _ => http_Error "approve device unavailable" 500 | Ok _ => render 200 "Device approved" end
              end
          end
      end
  end.

Definition startDevice (request : HttpRequest) : LoginM HttpResponse :=
  allowed ← allow_start (clientAddress request);
  if negb allowed then mret (http_Error "too many login attempts" 429) else
  let deviceName := default "" (hq_JSON request) in
  if bool_decide (TrimSpace deviceName = "") then mret (http_Error "valid device_name is required" 400) else
  now ← time_Now;
  issued ← attempt (on_db (CreateDeviceLogin deviceName (now + ls_loginTTL s)));
  mret match issued with
       | Fail _ => http_Error "create login request" 400
       | Ok issued =>
           let userCode := dv_UserCode (il_Login issued) in
           writeJSON 201 (BodyDeviceStart (il_DeviceCode issued) userCode
             (url_Resolve (ls_publicURL s) "/auth/device" "") (url_Resolve (ls_publicURL s) "/auth/device" (url_Encode "code" userCode))
             (ls_loginTTL s / Second) 2)
       end.

Definition exchangeDevice (request : HttpRequest) : LoginM HttpResponse :=
  allowed ← allow_poll (clientAddress request);
  if negb allowed then mret (http_Error "too many login attempts" 429) else
  let deviceCode := default "" (hq_JSON request) in
  if bool_decide (deviceCode = "") then mret (http_Error "valid device_code is required" 400) else
  now ← time_Now;
  issued ← attempt (on_db (ExchangeDeviceLogin deviceCode now));
  match issued with
  | Fail ErrLoginPending => mret (writeJSON 202 (BodyDeviceToken "authorization_pending" "" "" 2))
  | Fail _ => mret (writeJSON 401 (BodyDeviceToken "invalid_or_expired" "" "" 0))
  | Ok issued =>
      let id := dt_ID (it_Metadata issued) in
      let principal := mkPrincipal PrincipalDevice id (dt_UserID (it_Metadata issued)) "" false "" in
      audited ← attempt (on_db (Audit principal "" "auth.device.issue" id [("device_name", dt_Name (it_Metadata issued))]));
      match audited with
      | Fail _ =>
          _ ← attempt (on_db (RevokeDeviceToken principal id));
          mret (http_Error "issue device credential" 500)
      | Ok _ => mret (writeJSON 200 (BodyDeviceToken "authorized" (it_Secret issued) id 0))
      end
  end.

End Handlers.
