(* ===== verification/HumanAuthTheorems.v ===== *)
(** * Correctness of the human login *)

From Stdlib Require Import Ascii.
From S2P Require Import Prelude Model GoMonad GoLib Table Schema JobStore Lease QueueInv QueueOps QueueSystem QueueTheorems GoStrings Encoding Identity IdentitySpec Keeps IdentitySystem IdentityInv IdentityTheorems Reads ValidateTheorems ApiSystem ApiTheorems ApiJobs Limiter HumanAuth.

(** ** The handlers as one family *)

Inductive LoginHandler :=
| HandleLogin | HandleCallback | HandleLogoutPage | HandleLogout | HandleDevicePage | HandleApproveDevice | HandleStartDevice | HandleExchangeDevice.

#[export] Instance LoginHandler_eq_dec : EqDecision LoginHandler.
Proof. solve_decision. Defined.

Section Family.
Context {N : Type} `{GitHubProvider N} `{Pepper} `{CaseTables} `{UrlParser} `{Sha256} (s : LoginServer).

Definition handle (h : LoginHandler) : HttpRequest -> M ((Database * N) * Limiters) HttpResponse :=
  match h with
  | HandleLogin => login s
  | HandleCallback => callback s
  | HandleLogoutPage => logoutPage
  | HandleLogout => logout s
  | HandleDevicePage => devicePage
  | HandleApproveDevice => approveDevice s
  | HandleStartDevice => startDevice s
  | HandleExchangeDevice => exchangeDevice
  end.

(** ** Guarantees of the store *)

(** The calls the handlers make; logins are recorded with local paths only. *)
Definition login_made (c : IdentityCall) : bool :=
  match c with
  | CallCreateOAuthLoginState returnTo _ _ => validReturnTo returnTo
  | CallAuthenticate _ | CallRevokeBrowserSession _ | CallAudit _ _ _ _ _ | CallConsumeOAuthLoginState _ _ | CallUserByExternalIdentity _ _ _
  | CallCreateBrowserSession _ _ | CallDeviceLoginByUserCode _ _ | CallApproveDeviceLogin _ _ _ | CallCreateDeviceLogin _ _
  | CallExchangeDeviceLogin _ _ | CallRevokeDeviceToken _ _ => true
  | _ => false
  end.

Section Guaranteed.
Context (G : Database -> Database -> Prop) `{!PreOrder G} (Hcall : forall c, login_made c = true -> keeps G (run_identity c)).

Lemma keeps_db {A} (m : StoreM A) : keeps G m -> keeps (store_rel (store_rel (R := N) G)) (on_db (N := N) m).
Proof using. intros Hm. by apply keeps_on_store, keeps_on_store. Qed.

Lemma keeps_network {A} (m : M N A) : keeps (store_rel (store_rel G)) (on_network m).
Proof using PreOrder0. apply keeps_on_store, keeps_on_runtime. apply _. Qed.

Lemma keeps_allow limiter update key : keeps (store_rel (store_rel G)) (allow (N := N) limiter update key).
Proof using PreOrder0. unfold allow. repeat world_step. Qed.

Ltac login_side := first [done | cbn [login_made]; by apply negb_false_iff].

Ltac login_call :=
  lazymatch goal with
  | |- keeps _ (Authenticate ?t) => exact (keeps_discard _ _ (Hcall (CallAuthenticate t) ltac:(login_side)))
  | |- keeps _ (RevokeBrowserSession ?t) => exact (Hcall (CallRevokeBrowserSession t) ltac:(login_side))
  | |- keeps _ (Audit ?p ?j ?a ?t ?m) => exact (Hcall (CallAudit p j a t m) ltac:(login_side))
  | |- keeps _ (CreateOAuthLoginState ?r ?v ?e) => exact (keeps_discard _ _ (Hcall (CallCreateOAuthLoginState r v e) ltac:(login_side)))
  | |- keeps _ (ConsumeOAuthLoginState ?s ?n) => exact (keeps_discard _ _ (Hcall (CallConsumeOAuthLoginState s n) ltac:(login_side)))
  | |- keeps _ (UserByExternalIdentity ?p ?s ?l) => exact (keeps_discard _ _ (Hcall (CallUserByExternalIdentity p s l) ltac:(login_side)))
  | |- keeps _ (CreateBrowserSession ?u ?e) => exact (keeps_discard _ _ (Hcall (CallCreateBrowserSession u e) ltac:(login_side)))
  | |- keeps _ (DeviceLoginByUserCode ?c ?n) => exact (keeps_discard _ _ (Hcall (CallDeviceLoginByUserCode c n) ltac:(login_side)))
  | |- keeps _ (ApproveDeviceLogin ?c ?p ?n) => exact (Hcall (CallApproveDeviceLogin c p n) ltac:(login_side))
  | |- keeps _ (CreateDeviceLogin ?c ?e) => exact (keeps_discard _ _ (Hcall (CallCreateDeviceLogin c e) ltac:(login_side)))
  | |- keeps _ (ExchangeDeviceLogin ?c ?n) => exact (keeps_discard _ _ (Hcall (CallExchangeDeviceLogin c n) ltac:(login_side)))
  | |- keeps _ (RevokeDeviceToken ?p ?i) => exact (Hcall (CallRevokeDeviceToken p i) ltac:(login_side))
  | |- keeps _ (on_db _) => apply keeps_db
  | |- keeps _ (on_network _) => apply keeps_network
  | |- keeps _ (allow _ _ _) => apply keeps_allow
  | |- keeps _ (getUser _) => unfold getUser; apply keeps_read; [apply _|]
  end.

Lemma handle_keeps h request : keeps (store_rel (store_rel (R := N) G)) (handle h request).
Proof using PreOrder0 Hcall.
  destruct h; cbn [handle];
    unfold login, callback, start_session, logoutPage, logout, devicePage, approveDevice, startDevice, exchangeDevice, browserPrincipal,
      allow_login, allow_start, allow_poll, randomValue;
    repeat first [login_call | world_step].
Qed.

End Guaranteed.

(** *** Return paths *)

(** Every recorded login leads back to a page of this server. *)
Definition local_returns (d : Database) : Prop := Forall (fun l => validReturnTo (oa_return_to l) = true) (oauth_login_states (tabs d)).
Definition local_rel (d d' : Database) : Prop := local_returns d -> local_returns d'.

#[local] Instance local_rel_preorder : PreOrder local_rel.
Proof using. unfold local_rel. split; [by intros d|]. intros d1 d2 d3. auto. Qed.

Ltac local_leaf :=
  open_statement; unfold local_rel, local_returns; match goal with E : tabs _ = _ |- _ => rewrite E end; simpl; try done.

Lemma login_call_local c : login_made c = true -> keeps local_rel (run_identity c).
Proof using.
  intros Hc. destruct c; try discriminate Hc; cbn [run_identity];
    unfold Authenticate, RevokeBrowserSession, Audit, ConsumeOAuthLoginState, UserByExternalIdentity, CreateBrowserSession, DeviceLoginByUserCode,
      ApproveDeviceLogin, CreateDeviceLogin, ExchangeDeviceLogin, RevokeDeviceToken, CreateOAuthLoginState, Authenticate, discard, user_row, newToken,
      newOpaque, randomUserCode, randomID, or_error, or_not_found;
    repeat first [keep_step | local_leaf].
  - rewrite !Forall_forall. intros Hd l Hl. apply Hd. by apply elem_of_select in Hl as [? _].
  - intros Hd. apply Forall_app. split; [done|]. by apply Forall_singleton.
  - rewrite !Forall_forall. intros Hd l Hl. apply elem_of_update in Hl as (l0 & Hl0 & ->). specialize (Hd l0 Hl0). by destruct (_ && _).
Qed.

(** ** What the calls of a login do *)

Lemma ConsumeOAuthLoginState_spec o d state now :
  wp o (ConsumeOAuthLoginState state now)
    (fun transaction d' => exists l, l ∈ oauth_login_states (tabs d) /\ parseOpaque state "ols" = Some (oa_id l) /\
       digest state = oa_digest l /\ oa_consumed_at l = None /\ now < oa_expires_at l /\ ols_ReturnTo transaction = oa_return_to l /\
       ols_CodeVerifier transaction = oa_code_verifier l /\
       exists rows l', tabs d' = set_oauth_login_states rows (tabs d) /\ l' ∈ rows /\ oa_id l' = oa_id l /\ oa_consumed_at l' = Some (unix now))
    (fun _ d' => d' = d) d.
Proof using.
  unfold ConsumeOAuthLoginState. destruct (parseOpaque state "ols") as [id|]; [|by apply wp_throw].
  wp_step; [|done]. wp_step. apply wp_or_error, (wp_row o oa_id (fun d => oauth_login_states (tabs d))); try done. intros l Hl <-.
  destruct (_ || _) eqn:Eg; [by apply wp_throw|]. split_bools.
  assert (Hnone : oa_consumed_at l = None) by (destruct (oa_consumed_at l); [exfalso; naive_solver|done]).
  wp_step. apply wp_update; try done. intros _ fd. apply wp_ret. exists l. do 7 (split; [done|]). eexists.
  exists (mkOAuth (oa_id l) (oa_digest l) (oa_return_to l) (oa_code_verifier l) (oa_created_at l) (oa_expires_at l) (Some (unix now))).
  split; [reflexivity|]. split; [|done]. apply elem_of_update. exists l. split; [done|]. by rewrite Hnone, !bool_decide_eq_true_2.
Qed.

(** The user that an identity is bound to. *)
Definition provisioned (d : Database) (provider subject userID : string) : Prop :=
  exists u i, u ∈ users (tabs d) /\ i ∈ external_identities (tabs d) /\ ei_user_id i = us_ID u /\ ei_provider i = ToLower (TrimSpace provider) /\
    ei_subject i = TrimSpace subject /\ us_ID u = userID.

Lemma UserByExternalIdentity_spec o d provider subject name :
  wp o (UserByExternalIdentity provider subject name)
    (fun u d' => provisioned d provider subject (us_ID u) /\ exists rows, tabs d' = set_external_identities rows (tabs d)) (fun _ d' => d' = d) d.
Proof using.
  unfold UserByExternalIdentity. cbv zeta. destruct (_ || _); [by apply wp_throw|]. wp_step; [|done]. wp_step. wp_step. wp_step.
  - destruct (find_identity_user _ _ d) as [u|] eqn:Eu; [|by apply wp_throw]. wp_step. wp_step. wp_step. apply wp_update; try done. intros _ fd.
    apply wp_ret. split; [|by eexists]. unfold find_identity_user in Eu. apply head_Some_elem_of in Eu.
    apply list_elem_of_bind in Eu as (u' & Hu & Hu'). apply list_elem_of_bind in Hu as (i & Hi & Hi'). apply list_elem_of_singleton in Hi as ->.
    apply elem_of_select in Hi' as [Hi' Eb]. rewrite !andb_true_iff, !bool_decide_eq_true in Eb. destruct Eb as [[E1 E2] E3]. by exists u', i.
  - intros s0 _. simpl. by apply wp_throw.
Qed.

(** A token that the text stands for. *)
Definition issued_to (d : Database) (token userID : string) : Prop :=
  exists k, k ∈ access_tokens (tabs d) /\ parseToken token = Some (PrincipalBrowser, tk_id k) /\ tk_kind k = PrincipalBrowser /\
    digest token = tk_digest k /\ tk_user_id k = Some userID /\ tk_revoked_at k = None.

Lemma CreateBrowserSession_spec o d userID expires :
  wp o (CreateBrowserSession userID expires)
    (fun session d' => issued_to d' (bs_Token session) userID /\ exists k, tabs d' = with_token k (tabs d)) (fun _ d' => d' = d) d.
Proof using.
  unfold CreateBrowserSession. wp_step. wp_step. destruct (_ || _); [by apply wp_throw|].
  wp_step. apply wp_or_error, (wp_row o us_ID (fun d => users (tabs d))); try done. intros u Hu _.
  wp_step. apply wp_newToken; [|done]. intros id l Hid Hl. wp_step. apply wp_insert; try done. intros _ _ fd. apply wp_ret.
  split; [|by eexists]. eexists. split; [simpl; apply elem_of_app; right; by constructor|]. simpl. split; [by apply parseToken_text|done].
Qed.

Lemma Audit_spec o d principal project action target metadata :
  wp o (Audit principal project action target metadata)
    (fun _ d' => access_tokens (tabs d') = access_tokens (tabs d) /\ oauth_login_states (tabs d') = oauth_login_states (tabs d)) (fun _ d' => d' = d) d.
Proof using. unfold Audit. wp_step. wp_step. by apply wp_insert_with. Qed.

(** What a call returned, it returned. *)
Lemma wp_self {W A} o (m : M W A) w : wp o m (fun a _ => exists w n, (m o (w, n)).1 = Ok a) (fun _ _ => True) w.
Proof using. intros n. destruct (m o (w, n)) as [[a|e] [w' n']] eqn:E; [|done]. exists w, n. by rewrite E. Qed.

Lemma wp_ignored {W A} o (m : M W A) (Q : res A -> W -> Prop) E w : (forall r w', Q r w') -> wp o (attempt m) Q E w.
Proof using. intros HQ. apply wp_attempt. intros n. destruct (m o (w, n)) as [[a|e] [w' n']]; apply HQ. Qed.

(** ** Sessions *)

(** The response gives the browser a session. *)
Definition opens_session (response : HttpResponse) (token : string) : Prop :=
  exists c, c ∈ hr_SetCookies response /\ ck_Name c = sessionCookie /\ 0 <= ck_MaxAge c /\ ck_Value c = token.

(** How a session is come by: the browser brought the cookie of the login that
    the query names; that login was recorded, neither consumed nor expired, and
    is consumed now; for its verifier and the code of the query GitHub named an
    account that is bound to a user, and the token is a new one of that user;
    the browser is sent to the path recorded with the login. *)
Definition earned (o : Oracle) (request : HttpRequest) (d d' : Database) (response : HttpResponse) (token : string) : Prop :=
  exists l account userID,
    request_Cookie request oauthStateCookie = Some (Get (hq_Query request) "state") /\
    l ∈ oauth_login_states (tabs d) /\ parseOpaque (Get (hq_Query request) "state") "ols" = Some (oa_id l) /\
    digest (Get (hq_Query request) "state") = oa_digest l /\ oa_consumed_at l = None /\ (exists n, o_clock o n < oa_expires_at l) /\
    (exists l', l' ∈ oauth_login_states (tabs d') /\ oa_id l' = oa_id l /\ oa_consumed_at l' <> None) /\
    (exists w n, (gh_Exchange (Get (hq_Query request) "code") (oa_code_verifier l) o (w, n)).1 = Ok account) /\
    provisioned d "github" (gi_Subject account) userID /\ issued_to d' token userID /\ hr_Location response = Some (oa_return_to l).

Lemma wp_db {A} o (m : StoreM A) (Q : A -> (Database * N) * Limiters -> Prop) E d net lim :
  wp o m (fun a d' => Q a ((d', net), lim)) (fun e d' => E e ((d', net), lim)) d -> wp o (on_db m) Q E ((d, net), lim).
Proof using. intros Hm. unfold on_db. by apply wp_on_store, wp_on_store. Qed.

Lemma wp_network {A} o (m : M N A) (Q : A -> (Database * N) * Limiters -> Prop) E d net lim :
  wp o m (fun a net' => Q a ((d, net'), lim)) (fun e net' => E e ((d, net'), lim)) net -> wp o (on_network m) Q E ((d, net), lim).
Proof using. intros Hm. unfold on_network. by apply wp_on_store, wp_on_runtime. Qed.

Lemma plain_response status cookies location body token :
  Forall (fun c => ck_Name c = sessionCookie -> ck_MaxAge c < 0) cookies -> ~ opens_session (mkResponse status cookies location body) token.
Proof using. intros Hf (c & Hc & Hn & Hm & _). rewrite Forall_forall in Hf. specialize (Hf c Hc Hn). lia. Qed.

Lemma no_cookies status location body token (P : Prop) : opens_session (mkResponse status [] location body) token -> P.
Proof using. intros Hs. by apply plain_response in Hs; [|constructor]. Qed.

Ltac refuse := apply wp_ret; intros token Hs; exact (no_cookies _ _ _ _ _ Hs).

Lemma start_session_spec o account transaction user d net lim :
  wp o (start_session s account transaction user)
    (fun response (w : (Database * N) * Limiters) => forall token, opens_session response token ->
       oauth_login_states (tabs w.1.1) = oauth_login_states (tabs d) /\ issued_to w.1.1 token (us_ID user) /\
       hr_Location response = Some (ols_ReturnTo transaction))
    (fun _ _ => False) ((d, net), lim).
Proof using.
  unfold start_session. wp_step. wp_step. wp_step. wp_step. apply wp_db. eapply wp_mono; [apply CreateBrowserSession_spec| |].
  2:{ intros e d' ->. refuse. }
  intros session d1 [Hi (k & Ek)]. simpl. wp_step. wp_step. apply wp_db. eapply wp_mono; [apply Audit_spec| |]; simpl.
  - intros _ d2 [E1 E2]. apply wp_ret. cbn [fst]. intros token (c & Hc & Hn & Hm & Hv). simpl in Hc.
    apply elem_of_cons in Hc as [->|Hc]; [|apply list_elem_of_singleton in Hc as ->; done]. simpl in Hv. subst token.
    split; [by rewrite E2, Ek|]. split; [|done]. destruct Hi as (k' & Hk & Hr). exists k'. by rewrite E1.
  - intros e d2 ->. wp_step. apply wp_ignored. intros r w'. refuse.
Qed.

Lemma callback_spec o request d net lim :
  wp o (callback s request)
    (fun response (w : (Database * N) * Limiters) => forall token, opens_session response token -> earned o request d w.1.1 response token)
    (fun _ _ => False) ((d, net), lim).
Proof using.
  unfold callback. cbv zeta. destruct (negb _ || _) eqn:Eg; [refuse|]. apply orb_false_iff in Eg as [Em _].
  destruct (request_Cookie request oauthStateCookie) as [value|] eqn:Ec; [|done]. apply negb_false_iff, bool_decide_eq_true in Em as ->.
  wp_step. apply wp_clock. intros n. wp_step. wp_step. apply wp_db. eapply wp_mono; [apply ConsumeOAuthLoginState_spec| |].
  2:{ intros e d' ->. refuse. }
  intros transaction d1 (l & Hl & Hp & Hd & Hc & He & Hr & Hv & rows & l' & Et & Hl' & Hid & Hc'). wp_step. wp_step. apply wp_network.
  eapply wp_mono; [apply wp_self| |]; [|intros e net' _; refuse]. intros account net1 (w & k & Hex).
  destruct (_ || _); [refuse|]. wp_step. wp_step. apply wp_db. eapply wp_mono; [apply UserByExternalIdentity_spec| |].
  2:{ intros e d2 ->. destruct e; refuse. }
  intros user d2 [(u & i & Hu & Hi & Hrest) (ids & E2)]. eapply wp_mono; [apply start_session_spec| |done].
  intros response w2 Hs token Ho. destruct (Hs token Ho) as (E3 & Hiss & Hloc). exists l, account, (us_ID user).
  split; [done|]. do 4 (split; [done|]). split; [by exists n|]. split.
  { exists l'. rewrite E3, E2, Et. split; [done|]. split; [done|]. by rewrite Hc'. }
  split; [exists w, k; by rewrite <- Hv|]. split; [|by rewrite Hloc, Hr]. exists u, i. rewrite Et in Hu, Hi. done.
Qed.

(** *** The other handlers *)

(** A program that always returns, and returns something with [P]. *)
Definition returns {A} (P : A -> Prop) (m : M ((Database * N) * Limiters) A) : Prop := forall o w, wp o m (fun a _ => P a) (fun _ _ => False) w.

Lemma returns_ret {A} (P : A -> Prop) a : P a -> returns P (mret a).
Proof using. intros Hp o w. by apply wp_ret. Qed.
Lemma returns_bind {A B} (P : B -> Prop) (m : M ((Database * N) * Limiters) A) k : total m -> (forall a, returns P (k a)) -> returns P (m ≫= k).
Proof using. intros Hm Hk o w. apply wp_bind. eapply wp_mono; [apply Hm| |done]. intros a w' _. apply Hk. Qed.

Lemma total_allow limiter update key : total (allow (N := N) limiter update key).
Proof using.
  unfold allow. apply total_bind; [apply total_now|]. intros now o [d l]. apply wp_on_runtime. wp_step. wp_step.
  destruct (Allow now key (limiter l)) as [allowed l']. wp_step. wp_step. by apply wp_ret.
Qed.

Lemma total_browserPrincipal request : total (browserPrincipal (N := N) request).
Proof using. unfold browserPrincipal. repeat total_step. Qed.

Definition quiet (response : HttpResponse) : Prop := forall token, ~ opens_session response token.

Lemma quiet_response status cookies location body :
  Forall (fun c => ck_Name c = sessionCookie -> ck_MaxAge c < 0) cookies -> quiet (mkResponse status cookies location body).
Proof using. intros Hc token. by apply plain_response. Qed.

Ltac quiet_leaf := repeat case_match; apply quiet_response; repeat constructor; done.

Lemma others_quiet h request : h <> HandleCallback -> returns quiet (handle h request).
Proof using.
  intros Hh. destruct h; try done; cbn [handle];
    unfold login, logoutPage, logout, devicePage, approveDevice, startDevice, exchangeDevice, allow_login, allow_start, allow_poll; cbv zeta;
    repeat first
      [ apply returns_bind; [first [apply total_allow | apply total_browserPrincipal | apply total_attempt | apply total_now]|intros ?]
      | apply returns_ret; quiet_leaf
      | case_match ].
Qed.

(** C31: sessions are earned.  Whatever request reaches the login pages of
    a reachable server, and whatever GitHub, the clock and the driver do: only
    the callback gives a browser a session, and only as [earned] says; it leads
    the browser to a page of this server.  Every handler leaves the queue
    consistent, moves the worker only by steps of the lease, and undoes no
    revocation, and records only logins that lead back to this server. *)
Theorem sessions_are_earned h request o d net lim :
  control_reachable d -> local_returns d ->
  wp o (handle h request)
    (fun response (w : (Database * N) * Limiters) => request_guarantee d w.1.1 /\ local_returns w.1.1 /\
       forall token, opens_session response token -> h = HandleCallback /\ earned o request d w.1.1 response token /\
         exists path, hr_Location response = Some path /\ validReturnTo path = true)
    (fun _ _ => False) ((d, net), lim).
Proof using.
  intros Hd Hl.
  assert (Hw1 : wp o (handle h request) (fun response (w : (Database * N) * Limiters) =>
                 forall token, opens_session response token -> h = HandleCallback /\ earned o request d w.1.1 response token)
                 (fun _ _ => False) ((d, net), lim)).
  { destruct (decide (h = HandleCallback)) as [->|Hh].
    - eapply wp_mono; [apply callback_spec| |done]. intros response w Hs token Ho. auto.
    - eapply wp_mono; [by apply others_quiet| |done]. intros response w Hq token Ho. by apply Hq in Ho. }
  pose proof (handle_keeps control_good (fun c _ => run_identity_control c) h request o ((d, net), lim)) as Hw2.
  pose proof (handle_keeps local_rel login_call_local h request o ((d, net), lim)) as Hw3.
  eapply wp_mono; [apply wp_and; [exact Hw1|apply wp_and; [exact Hw2|exact Hw3]]| |by intros e w [[] _]].
  intros response w [Hs [Hg Hr]]. split; [by apply control_good_guarantee|]. split; [by apply Hr|]. intros token Ho.
  destruct (Hs token Ho) as [-> He]. split; [done|]. split; [done|]. destruct He as (l & _ & _ & _ & Hin & _ & _ & _ & _ & _ & _ & _ & _ & Eloc).
  exists (oa_return_to l). split; [done|]. unfold local_returns in Hl. rewrite Forall_forall in Hl. by apply Hl.
Qed.

End Family.

(** A valid return path begins with one slash and continues with neither a slash
    nor a backslash, so a browser reads no other host into it. *)
Lemma return_path_is_local value :
  validReturnTo value = true ->
  exists rest, value = String "/" rest /\ forall c tail, rest = String c tail -> c <> "/"%char /\ c <> "\"%char.
Proof.
  unfold validReturnTo. destruct (negb _ || _) eqn:Eg; [done|]. apply orb_false_iff in Eg as [E1 E2]. apply negb_false_iff in E1.
  unfold HasPrefix in E1, E2. destruct value as [|c0 rest]; [done|]. cbn [String.prefix] in E1, E2. destruct (Ascii.ascii_dec "/" c0) as [<-|]; [|done]. intros Hv.
  exists rest. split; [done|]. intros c tail ->. split; intros ->; [vm_compute in E2; by destruct tail|]. revert Hv. unfold rooted_path.
  change (bytes (String "/" (String "\" tail))) with (47 :: 92 :: bytes tail). cbn [before_byte Z.eqb Pos.eqb]. cbv zeta.
  destruct (existsb _ _); [done|]. cbn [before_byte url_unescape Z.eqb Pos.eqb].
  destruct (url_unescape (before_byte 63 _)) as [l|]; [|done]. simpl. destruct (url_unescape _); [|done]. simpl.
  by destruct l as [|? [|? [|? ?]]].
Qed.

(** * The human login on a concrete server

    The bootstrapped user of [ApiJobs] is bound to a GitHub account and
    signs in. *)

#[local] Existing Instance demo_pepper.
#[local] Instance login_urls : UrlParser :=
  {| url_Parse _ := Some (mkURL "https" "ci.example" "ci.example"); url_Resolve _ path query := path +:+ "?" +:+ query; url_Encode key value := key +:+ "=" +:+ value |}.
#[local] Instance login_sha : Sha256 := {| sha256 l := l |}.
#[local] Instance login_github : GitHubProvider unit :=
  {| gh_AuthorizationURL state challenge := "https://github.com/login?state=" +:+ state; gh_Exchange code verifier := mret (mkGitHubIdentity "42" "dev" "Dev") |}.

Definition login_server : LoginServer := mkLoginServer (mkURL "https" "ci.example" "ci.example") (7 * 24 * Hour) (10 * Minute).

Definition login_user : string := default "" (us_ID <$> head (users (tabs server_db))).

Definition bind_call : IdentityCall :=
  CallBindExternalIdentity (mkPrincipal PrincipalDevice "" login_user "" true "") login_user (mkExternalIdentity "github" "42" "dev" "" 0 None).
Definition bound_db : Database := (run_identity bind_call server_oracle (server_db, 50%nat)).2.1.

Definition login_call : IdentityCall := CallCreateOAuthLoginState "/app/jobs" "verifier" (70 * Second + Minute).
Definition login_db : Database := (run_identity login_call server_oracle (bound_db, 60%nat)).2.1.
Definition login_state : string :=
  match (CreateOAuthLoginState "/app/jobs" "verifier" (70 * Second + Minute) server_oracle (bound_db, 60%nat)).1 with Ok s => ols_State s | Fail _ => "" end.

Definition login_request : HttpRequest :=
  mkHttpRequest "10.0.0.1:4000" [("state", login_state); ("code", "c0de")] [(oauthStateCookie, login_state)] "" None None.

Lemma login_reachable : control_reachable login_db.
Proof.
  unfold control_reachable. etrans; [apply server_reachable|].
  assert (Hs : forall c d n, rtc control_step d (run_identity c server_oracle (d, n)).2.1).
  { intros c d n. destruct (run_identity c server_oracle (d, n)) as [r [d' n']] eqn:E. apply rtc_once. by eapply step_identity. }
  etrans; [apply (Hs bind_call server_db 50%nat)|apply Hs].
Qed.

(** What holds of every outcome holds of this one. *)
Lemma wp_run {W A} o (m : M W A) (Q : A -> W -> Prop) E w n a : wp o m Q E w -> (m o (w, n)).1 = Ok a -> Q a (m o (w, n)).2.1.
Proof. intros Hw Er. specialize (Hw n). by destruct (m o (w, n)) as [[b|e] [w' n']]; [injection Er as ->|]. Qed.

Definition login_outcome := handle login_server HandleCallback login_request server_oracle (((login_db, tt), initial_limiters), 80%nat).

Definition login_response : HttpResponse := match login_outcome.1 with Ok r => r | Fail _ => http_Error "" 0 end.
Definition session_token : string := default "" (ck_Value <$> head (hr_SetCookies login_response)).

(** The callback opens a session for the bound user, who lands on the page the
    login started from. *)
Lemma sessions_are_earned_witness :
  (hr_Status login_response, hr_Location login_response) = (303, Some "/app/jobs") /\
  opens_session login_response session_token /\ earned server_oracle login_request login_db login_outcome.2.1.1.1 login_response session_token.
Proof.
  split; [vm_compute; reflexivity|].
  assert (Ho : opens_session login_response session_token).
  { exists (mkCookie sessionCookie session_token "/" 0 (ck_Expires (hd (mkCookie "" "" "" 0 None false) (hr_SetCookies login_response))) true).
    split; [|repeat split; vm_compute; congruence]. vm_compute. constructor. }
  split; [exact Ho|].
  assert (Hl : local_returns login_db) by (vm_compute; repeat constructor).
  assert (Er : (handle login_server HandleCallback login_request server_oracle (((login_db, tt), initial_limiters), 80%nat)).1 = Ok login_response)
    by (vm_compute; reflexivity).
  destruct (wp_run _ _ _ _ _ 80%nat _ (sessions_are_earned login_server HandleCallback login_request server_oracle login_db tt initial_limiters login_reachable Hl) Er)
    as (_ & _ & Hs).
  exact (proj1 (proj2 (Hs session_token Ho))).
Defined.
