(* ===== verification/Redact.v ===== *)
(** * Output of a job

    [internal/operation/redact/writer.go] hides the secrets of a job in its
    output, and the [boundedLogWriter] of [cmd/autback-job-entrypoint/main.go]
    limits the size of its durable log.  Both are [io.Writer]s in front of
    another one, which is a parameter with the documented contract of
    [io.Writer]. *)
From S2P Require Import Prelude Model GoStrings Encoding.

(** ** [io.Writer] *)

(** [sink_Write] returns the number of bytes written and an error; fewer bytes
    than given come with an error.  [sink_log] is what has been written. *)
Class Sink (W : Type) := {
  sink_Write : list Z -> W -> (Z * option Err) * W;
  sink_log : W -> list Z;
  sink_law : forall data w, let '((n, err), w') := sink_Write data w in
    0 <= n <= Z.of_nat (length data) /\ sink_log w' = sink_log w ++ take (Z.to_nat n) data /\
    (n < Z.of_nat (length data) -> err <> None)
}.

(** ** [redact.Writer] *)

Definition replacementCandidates : list (list Z) := map bytes ["[REDACTED]"; "***"; "[HIDDEN]"].

Record Redactor (W : Type) := mkRedactor {
  rd_destination : W;
  rd_secrets : list (list Z);
  rd_replacement : list Z;
  rd_pending : list Z;
  rd_closed : bool;
  rd_err : option Err
}.
Arguments mkRedactor {W}.
Arguments rd_destination {W}.
Arguments rd_secrets {W}.
Arguments rd_replacement {W}.
Arguments rd_pending {W}.
Arguments rd_closed {W}.
Arguments rd_err {W}.

(** [bytes.Contains]. *)
Fixpoint bytes_contains (l sub : list Z) : bool :=
  bool_decide (sub `prefix_of` l) || match l with [] => false | _ :: rest => bytes_contains rest sub end.

(** The first candidate that contains no secret; none is a nil slice. *)
Definition safeReplacement (secrets : list (list Z)) : list Z :=
  default [] (head (select (fun candidate => forallb (fun s => negb (bytes_contains candidate s)) secrets) replacementCandidates)).

(** The longer first, equal lengths in the order of [bytes.Compare]. *)
Definition secret_before (a b : list Z) : bool :=
  if (length a =? length b)%nat
  then bool_decide (String.compare (of_bytes a) (of_bytes b) <> Gt) else (length b <? length a)%nat.

(** The values without their repetitions; an empty one is refused. *)
Fixpoint unique_values (seen : list string) (values : list string) : option (list (list Z)) :=
  match values with
  | [] => Some []
  | value :: rest =>
      if bool_decide (value = "") then None else
      if bool_decide (value ∈ seen) then unique_values seen rest
      else cons (bytes value) <$> unique_values (value :: seen) rest
  end.

Definition NewWriter {W} (destination : option W) (values : list string) : Redactor W + Err :=
  match destination with
  | None => inr (ErrText "redaction destination is required")
  | Some d =>
      match unique_values [] values with
      | None => inr (ErrText "secret value must not be empty")
      | Some l =>
          let secrets := order_by secret_before l in
          inl (mkRedactor d secrets (safeReplacement secrets) [] false None)
      end
  end.

(** The length of the longest secret at the head of the pending bytes, and
    whether they are the beginning of a longer one. *)
Definition matchPrefix (secrets : list (list Z)) (pending : list Z) : nat * bool :=
  fold_left (fun '(exactLength, possibleLonger) secret =>
    if (length secret <=? length pending)%nat && bool_decide (take (length secret) pending = secret)
    then ((if (exactLength <? length secret)%nat then length secret else exactLength), possibleLonger)
    else if (length pending <? length secret)%nat && bool_decide (pending = take (length pending) secret)
    then (exactLength, true)
    else (exactLength, possibleLonger)) secrets (0%nat, false).

Section Writer.
Context {W : Type} `{Sink W}.
Implicit Types w : Redactor W.

Definition rd_set (destination : W) (pending : list Z) (err : option Err) w : Redactor W :=
  mkRedactor destination (rd_secrets w) (rd_replacement w) pending (rd_closed w) err.

Definition ErrShortWrite : Err := ErrText "short write".

Definition write (contents : list Z) w : Redactor W :=
  if bool_decide (contents = []) then w else
  let '((written, err), d) := sink_Write contents (rd_destination w) in
  rd_set d (rd_pending w)
    match err with
    | Some e => Some e
    | None => if negb (written =? Z.of_nat (length contents)) then Some ErrShortWrite else rd_err w
    end w.

(** The loop of [process].  Every turn consumes a pending byte or ends. *)
Fixpoint process_loop (fuel : nat) (final : bool) w : option (Redactor W) :=
  match fuel with
  | O => None
  | S fuel' =>
      if bool_decide (rd_pending w = []) || bool_decide (rd_err w <> None) then Some w else
      let (exactLength, possibleLonger) := matchPrefix (rd_secrets w) (rd_pending w) in
      if (0 <? exactLength)%nat && (final || negb possibleLonger) then
        let w := write (rd_replacement w) w in
        process_loop fuel' final (rd_set (rd_destination w) (drop exactLength (rd_pending w)) (rd_err w) w)
      else if possibleLonger && negb final then Some w
      else
        let w := write (take 1 (rd_pending w)) w in
        process_loop fuel' final (rd_set (rd_destination w) (drop 1 (rd_pending w)) (rd_err w) w)
  end.

Definition process (final : bool) w : Redactor W := default w (process_loop (S (length (rd_pending w))) final w).

(** [Write]. *)
Definition Write (contents : list Z) w : (Z * option Err) * Redactor W :=
  if rd_closed w then ((0, Some (ErrText "write to closed redactor")), w) else
  match rd_err w with
  | Some e => ((0, Some e), w)
  | None =>
      if bool_decide (rd_secrets w = []) then
        let '((written, err), d) := sink_Write contents (rd_destination w) in
        ((written, err), rd_set d (rd_pending w) err w)
      else
        let w := process false (rd_set (rd_destination w) (rd_pending w ++ contents) (rd_err w) w) in
        ((Z.of_nat (length contents), rd_err w), w)
  end.

(** [Close]. *)
Definition Close w : option Err * Redactor W :=
  if rd_closed w then (rd_err w, w) else
  let w := mkRedactor (rd_destination w) (rd_secrets w) (rd_replacement w) (rd_pending w) true (rd_err w) in
  let w := if bool_decide (rd_err w = None) then process true w else w in
  (rd_err w, w).

End Writer.

(** ** [boundedLogWriter] *)

Definition logTruncationMarker : list Z :=
  10 :: bytes "[autback: durable job log reached its configured limit]" ++ [10].

Record boundedLogWriter (W : Type) := mkBounded { bl_destination : W; bl_remaining : Z; bl_truncated : bool }.
Arguments mkBounded {W}.
Arguments bl_destination {W}.
Arguments bl_remaining {W}.
Arguments bl_truncated {W}.

(** [size] is the size of the file, as [Stat] reports it. *)
Definition newBoundedLogWriter {W} (file : W) (size maximum : Z) : boundedLogWriter W :=
  let remaining := maximum - size in
  mkBounded file (if remaining <? 0 then 0 else remaining) false.

Definition boundedWrite {W} `{Sink W} (data : list Z) (w : boundedLogWriter W) : (Z * option Err) * boundedLogWriter W :=
  let original := Z.of_nat (length data) in
  if bl_truncated w || (bl_remaining w =? 0)
  then ((original, None), mkBounded (bl_destination w) (bl_remaining w) true) else
  if original <=? bl_remaining w then
    let '((written, err), d) := sink_Write data (bl_destination w) in
    ((written, err), mkBounded d (bl_remaining w - written) (bl_truncated w))
  else
    let payloadBytes := bl_remaining w - Z.of_nat (length logTruncationMarker) in
    let '(failed, d, remaining) :=
      if 0 <? payloadBytes then
        let '((_, err), d) := sink_Write (take (Z.to_nat payloadBytes) data) (bl_destination w) in
        (err, d, match err with Some _ => bl_remaining w | None => bl_remaining w - payloadBytes end)
      else (None, bl_destination w, bl_remaining w) in
    match failed with
    | Some e => ((0, Some e), mkBounded d remaining true)
    | None =>
        let marker := if remaining <? Z.of_nat (length logTruncationMarker)
                      then take (Z.to_nat remaining) logTruncationMarker else logTruncationMarker in
        if bool_decide (marker = []) then ((original, None), mkBounded d remaining true) else
        let '((_, err), d) := sink_Write marker d in
        match err with
        | Some e => ((0, Some e), mkBounded d remaining true)
        | None => ((original, None), mkBounded d (remaining - Z.of_nat (length marker)) true)
        end
    end.
