(* ===== verification/RedactTheorems.v ===== *)
(** * Correctness of the output of a job *)

From S2P Require Import Prelude Model GoStrings Encoding Redact.

(** ** What redaction means *)

(** [redacted secrets replacement l out]: from left to right, the longest secret
    that starts at a position is replaced, every other byte is kept. *)
Inductive redacted (secrets : list (list Z)) (replacement : list Z) : list Z -> list Z -> Prop :=
| redacted_nil : redacted secrets replacement [] []
| redacted_keep b l out :
    (forall s, s ∈ secrets -> ~ s `prefix_of` b :: l) ->
    redacted secrets replacement l out -> redacted secrets replacement (b :: l) (b :: out)
| redacted_hide s l out :
    s ∈ secrets -> s <> [] -> (forall s', s' ∈ secrets -> s' `prefix_of` s ++ l -> (length s' <= length s)%nat) ->
    redacted secrets replacement l out -> redacted secrets replacement (s ++ l) (replacement ++ out).

Lemma redacted_nothing secrets replacement out : redacted secrets replacement [] out -> out = [].
Proof.
  intros Hr. remember [] as l eqn:El. destruct Hr as [|b l out|s l out _ Hs _ _]; [done|discriminate|].
  by apply app_eq_nil in El as [-> _].
Qed.

(** ** The search for a secret *)

Record matches (secrets : list (list Z)) (pending : list Z) (n : nat) (more : bool) : Prop := {
  mt_some : n = 0%nat \/ exists s, s ∈ secrets /\ s `prefix_of` pending /\ length s = n;
  mt_max : forall s, s ∈ secrets -> s `prefix_of` pending -> (length s <= n)%nat;
  mt_more : forall s, s ∈ secrets -> (length pending < length s)%nat -> pending `prefix_of` s -> more = true
}.

Lemma take_is_prefix {A} (s l : list A) : take (length s) l = s <-> s `prefix_of` l.
Proof.
  split.
  - intros E. exists (drop (length s) l). rewrite <- E at 1. by rewrite take_drop.
  - intros [k ->]. by rewrite take_app_length.
Qed.

Lemma matchPrefix_spec secrets pending n more : matchPrefix secrets pending = (n, more) -> matches secrets pending n more.
Proof.
  unfold matchPrefix. revert n more. induction secrets as [|s secrets IH] using rev_ind; intros n more.
  - simpl. intros [= <- <-]. split; [by left| |]; intros s Hs; by apply elem_of_nil in Hs.
  - rewrite fold_left_app. destruct (fold_left _ secrets _) as [n0 more0]. destruct (IH _ _ eq_refl) as [H1 H2 H3].
    cbn [fold_left]. intros E. destruct ((length s <=? length pending)%nat && _) eqn:E1; [|destruct ((length pending <? length s)%nat && _) eqn:E2]; injection E as <- <-; split_bools.
    + assert (Hp : s `prefix_of` pending) by (by apply take_is_prefix).
      match goal with H : (_ <=? _)%nat = true |- _ => apply Nat.leb_le in H end.
      destruct (Nat.ltb_spec n0 (length s)); (split; [|intros s'|intros s']); rewrite ?elem_of_app, ?list_elem_of_singleton.
      * right. exists s. split; [set_solver|done].
      * intros [Hs| ->] Hs'; [specialize (H2 _ Hs Hs')|]; lia.
      * intros [Hs| ->] Hl Hs'; [by eapply H3|lia].
      * destruct H1 as [->|(s' & ? & ? & ?)]; [by left|]. right. exists s'. split; [set_solver|done].
      * intros [Hs| ->] Hs'; [by apply H2|lia].
      * intros [Hs| ->] Hl Hs'; [by eapply H3|lia].
    + match goal with H : (_ <? _)%nat = true |- _ => apply Nat.ltb_lt in H end.
      split; [|intros s'|done]; rewrite ?elem_of_app, ?list_elem_of_singleton.
      * destruct H1 as [->|(s' & ? & ? & ?)]; [by left|]. right. exists s'. split; [set_solver|done].
      * intros [Hs| ->] Hs'; [by apply H2|]. apply prefix_length in Hs'. lia.
    + apply andb_false_iff in E1. apply andb_false_iff in E2.
      split; [|intros s'|intros s']; rewrite ?elem_of_app, ?list_elem_of_singleton.
      * destruct H1 as [->|(s' & ? & ? & ?)]; [by left|]. right. exists s'. split; [set_solver|done].
      * intros [Hs| ->] Hs'; [by apply H2|]. exfalso. pose proof (prefix_length _ _ Hs') as Hl.
        destruct E1 as [E1|E1]; [apply Nat.leb_gt in E1; lia|]. apply bool_decide_eq_false in E1. by apply E1, take_is_prefix.
      * intros [Hs| ->] Hl Hs'; [by eapply H3|]. exfalso.
        destruct E2 as [E2|E2]; [apply Nat.ltb_ge in E2; lia|]. apply bool_decide_eq_false in E2.
        apply E2. symmetry. by apply take_is_prefix.
Qed.

(** ** Consuming pending bytes *)

Section Consume.
Context (secrets : list (list Z)) (replacement : list Z).
Context (Hsecrets : forall s, s ∈ secrets -> s <> []).

(** [out] is the redaction of what [p] has more than [p'], whatever follows;
    after the final chunk nothing follows. *)
Definition consumed (final : bool) (p out p' : list Z) : Prop :=
  forall f out', (final = true -> f = []) ->
    redacted secrets replacement (p' ++ f) out' -> redacted secrets replacement (p ++ f) (out ++ out').

Lemma consumed_nothing final p : consumed final p [] p.
Proof. by intros f out' _ Hr. Qed.

Lemma consumed_trans final p1 p2 p3 o1 o2 : consumed final p1 o1 p2 -> consumed final p2 o2 p3 -> consumed final p1 (o1 ++ o2) p3.
Proof. intros H1 H2 f out' Hf Hr. rewrite <- (assoc_L (++)). by apply H1, H2. Qed.

(** A secret at the head of what is pending and of what may follow. *)
Lemma prefix_extend n more final p f s :
  matches secrets p n more -> final || negb more = true -> (final = true -> f = []) ->
  s ∈ secrets -> s `prefix_of` p ++ f -> s `prefix_of` p /\ (length s <= n)%nat.
Proof using.
  intros [_ Hmax Hmore] Hfm Hf Hs Hp.
  assert (Hsp : s `prefix_of` p).
  { destruct final; [specialize (Hf eq_refl); subst f; by rewrite app_nil_r in Hp|].
    destruct (prefix_weak_total s p (p ++ f) Hp) as [?|Hps]; [by exists f|done|].
    destruct (decide (length p < length s)%nat) as [Hl|Hl].
    - rewrite (Hmore s Hs Hl Hps) in Hfm. discriminate.
    - destruct Hps as [k ->]. rewrite length_app in Hl. assert (length k = 0%nat) as Hk by lia.
      apply nil_length_inv in Hk as ->. by rewrite app_nil_r. }
  split; [done|by apply Hmax].
Qed.

Lemma consumed_secret n more final p :
  matches secrets p n more -> (0 < n)%nat -> final || negb more = true -> consumed final p replacement (drop n p).
Proof using Hsecrets.
  intros Hm Hn Hfm f out' Hf Hr. destruct (mt_some _ _ _ _ Hm) as [->|(s & Hs & [k ->] & <-)]; [lia|].
  rewrite drop_app_length in Hr. rewrite <- (assoc_L (++)). apply redacted_hide; [done|by apply Hsecrets| |done].
  intros s' Hs' Hp. rewrite (assoc_L (++)) in Hp. by eapply (prefix_extend _ more final).
Qed.

Lemma consumed_byte more final b p :
  matches secrets (b :: p) 0 more -> final || negb more = true -> consumed final (b :: p) [b] p.
Proof using Hsecrets.
  intros Hm Hfm f out' Hf Hr. simpl. apply redacted_keep; [|done]. intros s Hs Hp.
  destruct (prefix_extend _ _ final _ f s Hm Hfm Hf Hs Hp) as [_ Hl].
  destruct s; [by apply (Hsecrets _ Hs)|simpl in Hl; lia].
Qed.

(** Every input has a redaction. *)
Lemma redacted_total l : exists out, redacted secrets replacement l out.
Proof using Hsecrets.
  remember (length l) as k eqn:Ek. revert l Ek. induction k as [k IH] using lt_wf_ind. intros l ->.
  destruct l as [|b l]; [eexists; constructor|].
  destruct (matchPrefix secrets (b :: l)) as [n more] eqn:E. apply matchPrefix_spec in E.
  destruct n as [|n].
  - destruct (IH (length l) (Nat.lt_succ_diag_r _) l eq_refl) as [out Ho]. exists (b :: out).
    pose proof (consumed_byte more true b l E eq_refl [] out) as Hc. rewrite !app_nil_r in Hc. by apply Hc.
  - assert (Hl : (length (drop (S n) (b :: l)) < length (b :: l))%nat) by (rewrite length_drop; simpl; lia).
    destruct (IH _ Hl _ eq_refl) as [out Ho]. exists (replacement ++ out).
    pose proof (consumed_secret (S n) more true (b :: l) E (Nat.lt_0_succ n) eq_refl [] out) as Hc.
    rewrite !app_nil_r in Hc. by apply Hc.
Qed.

End Consume.

(** Without secrets everything is kept. *)
Lemma consumed_all replacement final c : consumed [] replacement final c c [].
Proof.
  intros f out' _ Hr. induction c as [|b c IH]; [done|]. simpl. apply redacted_keep; [|done].
  intros s Hs. by apply elem_of_nil in Hs.
Qed.

(** ** The writer *)

Section Stream.
Context {W : Type} `{Sink W}.
Implicit Types w : Redactor W.

Definition log_of w : list Z := sink_log (rd_destination w).

(** [w'] is [w] after it wrote [out], as far as the destination accepted it. *)
Record wrote w (out : list Z) w' : Prop := {
  wr_secrets : rd_secrets w' = rd_secrets w;
  wr_replacement : rd_replacement w' = rd_replacement w;
  wr_closed : rd_closed w' = rd_closed w;
  wr_prefix : log_of w' `prefix_of` log_of w ++ out;
  wr_grows : log_of w `prefix_of` log_of w';
  wr_full : rd_err w' = None -> rd_err w = None /\ log_of w' = log_of w ++ out
}.

Lemma sink_wrote contents d n err d' :
  sink_Write contents d = ((n, err), d') ->
  sink_log d' `prefix_of` sink_log d ++ contents /\ sink_log d `prefix_of` sink_log d' /\
  (err = None -> n = Z.of_nat (length contents) /\ sink_log d' = sink_log d ++ contents).
Proof.
  intros E. pose proof (sink_law contents d) as L. rewrite E in L. destruct L as (Hn & -> & Hs).
  split; [apply prefix_app; by apply prefix_take|]. split; [by eexists|].
  intros ->. assert (n = Z.of_nat (length contents)) as ->.
  { destruct (Z.lt_ge_cases n (Z.of_nat (length contents))) as [Hl|Hl]; [by destruct (Hs Hl)|lia]. }
  split; [done|]. by rewrite Nat2Z.id, firstn_all.
Qed.

Lemma write_wrote contents w :
  rd_err w = None -> wrote w contents (write contents w) /\ rd_pending (write contents w) = rd_pending w.
Proof.
  intros Hw. unfold write. case_bool_decide as Ec; [subst; by repeat split; try rewrite app_nil_r|].
  destruct (sink_Write contents (rd_destination w)) as [[n err] d] eqn:E. destruct (sink_wrote _ _ _ _ _ E) as (H1 & H2 & H3).
  split; [|done]. split; [done..|]. unfold rd_set. cbn [rd_err]. destruct err; [discriminate|].
  destruct (H3 eq_refl) as [-> Hl]. rewrite Z.eqb_refl. simpl. intros _. by split.
Qed.

Lemma wrote_trans w1 w2 w3 o1 o2 : wrote w1 o1 w2 -> rd_err w2 = None -> wrote w2 o2 w3 -> wrote w1 (o1 ++ o2) w3.
Proof.
  intros [A1 A2 A3 A4 A5 A6] E [B1 B2 B3 B4 B5 B6]. destruct (A6 E) as [E1 L1].
  split; [congruence..| | |].
  - by rewrite (assoc_L (++)), <- L1.
  - by etransitivity.
  - intros E3. destruct (B6 E3) as [_ L2]. split; [done|]. by rewrite L2, L1, (assoc_L (++)).
Qed.

Lemma wrote_more w w' o1 o2 : wrote w o1 w' -> rd_err w' <> None -> wrote w (o1 ++ o2) w'.
Proof.
  intros [A1 A2 A3 A4 A5 A6] E. split; try done. rewrite (assoc_L (++)). by apply prefix_app_r.
Qed.

(** Pending bytes are not part of what a writer wrote. *)
Lemma wrote_pending w o w' p : wrote w o w' -> wrote w o (rd_set (rd_destination w') p (rd_err w') w').
Proof. by intros [A1 A2 A3 A4 A5 A6]. Qed.

Lemma process_stops fuel final w : rd_err w <> None -> process_loop (S fuel) final w = Some w.
Proof. intros E. cbn [process_loop]. rewrite (bool_decide_eq_true_2 (rd_err w <> None)) by done. by rewrite orb_true_r. Qed.

(** What the loop returns: it ended, and what it consumed has been written. *)
Definition outcome (final : bool) w (r : option (Redactor W)) : Prop :=
  exists w' out, r = Some w' /\ wrote w out w' /\
    consumed (rd_secrets w) (rd_replacement w) final (rd_pending w) out (rd_pending w') /\
    (rd_err w' = None -> final = true -> rd_pending w' = []).

Lemma outcome_stop final w : (rd_err w = None -> final = true -> rd_pending w = []) -> outcome final w (Some w).
Proof.
  intros E. exists w, []. split; [done|]. split; [split; rewrite ?app_nil_r; by intros|].
  split; [apply consumed_nothing|done].
Qed.

(** One turn that writes [c] for the first [k] pending bytes. *)
Lemma outcome_turn fuel final w c k :
  rd_err w = None -> rd_pending w <> [] -> (length (rd_pending w) < S fuel)%nat -> (0 < k)%nat ->
  consumed (rd_secrets w) (rd_replacement w) final (rd_pending w) c (drop k (rd_pending w)) ->
  (forall w2, rd_secrets w2 = rd_secrets w -> (length (rd_pending w2) < fuel)%nat -> outcome final w2 (process_loop fuel final w2)) ->
  let w1 := write c w in
  outcome final w (process_loop fuel final (rd_set (rd_destination w1) (drop k (rd_pending w1)) (rd_err w1) w1)).
Proof.
  intros Ew Ep Hf Hk Hc IH w1. destruct (write_wrote c w Ew) as [Hw1 Hp1]. fold w1 in Hw1, Hp1. rewrite Hp1.
  apply (wrote_pending _ _ _ (drop k (rd_pending w))) in Hw1. set (w2 := rd_set _ _ _ _) in *.
  assert (Hl : (length (rd_pending w2) < fuel)%nat).
  { simpl. rewrite length_drop. destruct (rd_pending w); [done|simpl in *; lia]. }
  destruct (decide (rd_err w2 = None)) as [E2|E2].
  - destruct (IH w2) as (w' & out & Hl' & Hw' & Hc' & He'); [apply Hw1|done|].
    exists w', (c ++ out). split; [done|]. split; [by eapply wrote_trans|]. split; [|done].
    rewrite (wr_secrets _ _ _ Hw1), (wr_replacement _ _ _ Hw1) in Hc'. by eapply consumed_trans.
  - destruct fuel as [|fuel]; [lia|]. exists w2, c. rewrite process_stops by done.
    split; [done|]. split; [done|]. split; [done|]. by intros.
Qed.

Lemma process_loop_spec fuel final w :
  (forall s, s ∈ rd_secrets w -> s <> []) -> (length (rd_pending w) < fuel)%nat ->
  outcome final w (process_loop fuel final w).
Proof.
  revert w. induction fuel as [|fuel IH]; intros w Hs Hf; [lia|].
  destruct (decide (rd_err w = None)) as [Ew|Ew]; [|rewrite process_stops by done; by apply outcome_stop].
  cbn [process_loop]. rewrite (bool_decide_eq_false_2 (rd_err w <> None)) by (rewrite Ew; tauto). rewrite orb_false_r.
  case_bool_decide as Ep; [by apply outcome_stop|].
  destruct (matchPrefix _ _) as [n more] eqn:Em. apply matchPrefix_spec in Em.
  assert (IH' : forall w2, rd_secrets w2 = rd_secrets w -> (length (rd_pending w2) < fuel)%nat ->
    outcome final w2 (process_loop fuel final w2)) by (intros w2 E; apply IH; by rewrite E).
  destruct (0 <? n)%nat eqn:En; cbn [andb].
  - apply Nat.ltb_lt in En. destruct (final || negb more) eqn:Efm.
    + apply outcome_turn; try done. by eapply consumed_secret.
    + destruct final; [discriminate|]. destruct more; [|discriminate]. by apply outcome_stop.
  - apply Nat.ltb_ge in En. assert (n = 0%nat) as -> by lia. destruct (more && negb final) eqn:Efm.
    + apply outcome_stop. intros _ ->. by rewrite andb_false_r in Efm.
    + apply outcome_turn; try done; [lia|]. destruct (rd_pending w) as [|b p] eqn:E; [done|]. simpl.
      eapply consumed_byte; [done|exact Em|]. destruct final, more; done.
Qed.

Lemma process_spec final w :
  (forall s, s ∈ rd_secrets w -> s <> []) ->
  exists out, wrote w out (process final w) /\
    consumed (rd_secrets w) (rd_replacement w) final (rd_pending w) out (rd_pending (process final w)) /\
    (rd_err (process final w) = None -> final = true -> rd_pending (process final w) = []).
Proof.
  intros Hs. destruct (process_loop_spec (S (length (rd_pending w))) final w Hs) as (w' & out & E & H1 & H2 & H3); [lia|].
  exists out. unfold process. by rewrite E.
Qed.

(** ** What has been written so far *)

Section Written.
Context (w0 : Redactor W) (Hsecrets : forall s, s ∈ rd_secrets w0 -> s <> []).

(** The state of a writer that was given [input]. *)
Record streamed (input : list Z) w : Prop := {
  sm_secrets : rd_secrets w = rd_secrets w0;
  sm_replacement : rd_replacement w = rd_replacement w0;
  sm_closed : rd_closed w = false;
  sm_pending : rd_secrets w0 = [] -> rd_pending w = [];
  sm_out : exists out, log_of w `prefix_of` log_of w0 ++ out /\
    (rd_err w = None -> log_of w = log_of w0 ++ out /\
       consumed (rd_secrets w0) (rd_replacement w0) false input out (rd_pending w)) /\
    (rd_err w <> None -> forall f, exists out', redacted (rd_secrets w0) (rd_replacement w0) (input ++ f) (out ++ out'))
}.

Lemma streamed_start : rd_closed w0 = false -> rd_err w0 = None -> rd_pending w0 = [] -> streamed [] w0.
Proof.
  intros Hc He Hp. split; try done. exists []. rewrite app_nil_r, Hp. split; [done|]. split; [|by rewrite He].
  intros _. split; [done|apply consumed_nothing].
Qed.

(** The writer goes on from [w] to [w'], which wrote [o]. *)
Lemma streamed_more input c w w' o :
  streamed input w -> rd_err w = None -> wrote w o w' ->
  consumed (rd_secrets w0) (rd_replacement w0) false (rd_pending w ++ c) o (rd_pending w') ->
  (rd_secrets w0 = [] -> rd_pending w' = []) -> streamed (input ++ c) w'.
Proof using Hsecrets.
  intros [S1 S2 S3 _ (out & _ & Hok & _)] Ew [A1 A2 A3 A4 A5 A6] Hc Hpend. destruct (Hok Ew) as [El Hi].
  assert (Hi' : consumed (rd_secrets w0) (rd_replacement w0) false (input ++ c) (out ++ o) (rd_pending w')).
  { intros f out' Hf Hr. rewrite <- !(assoc_L (++)). apply Hi; [done|]. rewrite (assoc_L (++)). by apply Hc. }
  split; [congruence..|done|]. exists (out ++ o). rewrite (assoc_L (++)), <- El. split; [done|]. split.
  - intros E. split; [by apply A6|done].
  - intros _ f. destruct (redacted_total _ (rd_replacement w0) Hsecrets (rd_pending w' ++ f)) as [out' Ho].
    exists out'. by apply Hi'.
Qed.

Lemma Write_streamed input c w : streamed input w -> streamed (input ++ c) (Write c w).2.
Proof using Hsecrets.
  intros Hs. destruct (rd_err w) as [e|] eqn:Ew.
  - destruct Hs as [S1 S2 S3 S4 (out & Hp & _ & Hf)]. unfold Write. rewrite S3, Ew. cbn [snd]. split; try done.
    exists out. split; [done|]. split; [by rewrite Ew|]. intros _ f. rewrite <- (assoc_L (++)). apply Hf. by rewrite Ew.
  - unfold Write. rewrite (sm_closed _ _ Hs), Ew. case_bool_decide as Es.
    + destruct (sink_Write c (rd_destination w)) as [[n err] d] eqn:E. destruct (sink_wrote _ _ _ _ _ E) as (H1 & H2 & H3).
      apply (streamed_more input c w _ c Hs Ew).
      * split; [done..|]. simpl. intros ->. by destruct (H3 eq_refl).
      * simpl. rewrite (sm_secrets _ _ Hs) in Es. rewrite (sm_pending _ _ Hs Es), Es. apply consumed_all.
      * apply (sm_pending _ _ Hs).
    + set (w1 := rd_set _ _ _ _). destruct (process_spec false w1) as (o & Hw & Hc & _).
      { simpl. rewrite (sm_secrets _ _ Hs). exact Hsecrets. }
      apply (streamed_more input c w _ o Hs Ew); [| |].
      * destruct Hw as [? ? ? ? ? Hfull]. split; try assumption. intros E. split; [done|by apply Hfull].
      * simpl in Hc. by rewrite (sm_secrets _ _ Hs), (sm_replacement _ _ Hs) in Hc.
      * intros E0. by rewrite (sm_secrets _ _ Hs), E0 in Es.
Qed.

End Written.

End Stream.

(** ** C18 *)

(** The writer after a sequence of calls of [Write]. *)
Definition write_all {W} `{Sink W} (chunks : list (list Z)) (w : Redactor W) : Redactor W :=
  fold_left (fun w c => (Write c w).2) chunks w.

Lemma write_all_streamed {W} `{Sink W} (w0 : Redactor W) chunks input w :
  (forall s, s ∈ rd_secrets w0 -> s <> []) -> streamed w0 input w -> streamed w0 (input ++ concat chunks) (write_all chunks w).
Proof.
  intros Hs. revert input w. induction chunks as [|c chunks IH]; intros input w Hi; simpl; [by rewrite app_nil_r|].
  rewrite (assoc_L (++)). apply IH. by apply Write_streamed.
Qed.

(** Closing a writer completes the redaction of its input. *)
Lemma Close_redacted {W} `{Sink W} (w0 : Redactor W) input w :
  (forall s, s ∈ rd_secrets w0 -> s <> []) -> streamed w0 input w ->
  exists out, redacted (rd_secrets w0) (rd_replacement w0) input out /\
    log_of w `prefix_of` log_of (Close w).2 /\ log_of (Close w).2 `prefix_of` log_of w0 ++ out /\
    ((Close w).1 = None -> log_of (Close w).2 = log_of w0 ++ out).
Proof.
  intros Hs [S1 S2 S3 _ (out & Hp & Hok & Hfail)]. unfold Close. rewrite S3. cbn [rd_err]. case_bool_decide as Ew; cbn [fst snd].
  - set (w1 := mkRedactor _ _ _ _ _ _). destruct (Hok Ew) as [El Hc].
    destruct (process_spec true w1) as (o & Hw & Hc1 & Hend); [simpl; by rewrite S1|].
    simpl in Hc1. rewrite S1, S2 in Hc1.
    destruct (redacted_total _ (rd_replacement w0) Hs (rd_pending (process true w1))) as [o2 Ho].
    assert (Hr : redacted (rd_secrets w0) (rd_replacement w0) input (out ++ o ++ o2)).
    { specialize (Hc1 [] o2 (fun _ => eq_refl)). rewrite !app_nil_r in Hc1. specialize (Hc [] (o ++ o2) (fun _ => eq_refl)).
      rewrite !app_nil_r in Hc. by apply Hc, Hc1. }
    exists (out ++ o ++ o2). split; [done|]. destruct Hw as [_ _ _ W4 W5 W6]. change (log_of w1) with (log_of w) in *.
    split; [exact W5|]. rewrite El in W4, W6. split.
    + rewrite !(assoc_L (++)). by apply prefix_app_r.
    + intros E. destruct (W6 E) as [_ ->]. rewrite (Hend E eq_refl) in Ho. apply redacted_nothing in Ho as ->.
      by rewrite app_nil_r, (assoc_L (++)).
  - destruct (Hfail Ew []) as [out' Ho]. rewrite app_nil_r in Ho. exists (out ++ out'). split; [done|].
    split; [done|]. split; [|done]. rewrite (assoc_L (++)). by apply prefix_app_r.
Qed.

(** The secrets of a new writer are the values it was given. *)
Lemma unique_values_spec seen values l :
  unique_values seen values = Some l ->
  (forall s, s ∈ l -> s <> []) /\ (forall s, s ∈ l -> exists v, v ∈ values /\ s = bytes v) /\
  (forall v, v ∈ values -> v ∈ seen \/ bytes v ∈ l).
Proof.
  revert seen l. induction values as [|v values IH]; intros seen l; simpl.
  - intros [= <-]. split; [|split]; intros ? Hin; by apply elem_of_nil in Hin.
  - case_bool_decide as E0; [discriminate|]. case_bool_decide as Es.
    + intros Hl. destruct (IH _ _ Hl) as (H1 & H2 & H3). split; [done|]. split.
      * intros s Hs. destruct (H2 s Hs) as (x & ? & ?). exists x. split; [by constructor|done].
      * intros x [->|Hx]%elem_of_cons; [by left|by apply H3].
    + destruct (unique_values (v :: seen) values) as [l0|] eqn:E; [|discriminate]. intros [= <-].
      destruct (IH _ _ E) as (H1 & H2 & H3). split; [|split].
      * intros s [->|Hs]%elem_of_cons; [by destruct v|by apply H1].
      * intros s [->|Hs]%elem_of_cons; [exists v; split; [constructor|done]|].
        destruct (H2 s Hs) as (x & ? & ?). exists x. split; [by constructor|done].
      * intros x [->|Hx]%elem_of_cons; [right; constructor|].
        destruct (H3 x Hx) as [[->|?]%elem_of_cons|?]; [right; constructor|by left|right; by constructor].
Qed.

(** The replacement reveals nothing: no secret occurs in it. *)
Lemma safeReplacement_safe secrets s :
  (forall s', s' ∈ secrets -> s' <> []) -> s ∈ secrets -> bytes_contains (safeReplacement secrets) s = false.
Proof.
  intros Hne Hs. unfold safeReplacement. destruct (select _ replacementCandidates) as [|c l] eqn:E; simpl.
  - rewrite orb_false_r. apply bool_decide_eq_false. intros Hp. apply (Hne s Hs). by apply prefix_nil_inv in Hp.
  - assert (Hc : c ∈ select (fun candidate => forallb (fun s => negb (bytes_contains candidate s)) secrets) replacementCandidates)
      by (rewrite E; constructor).
    apply elem_of_select in Hc as [_ Hc]. rewrite forallb_forall in Hc. apply list_elem_of_In, Hc in Hs. by apply negb_true_iff in Hs.
Qed.

(** C18: a job's output is redacted exactly, however it is cut into chunks.  The
    writer made for some values, given chunks by [Write] and then closed, leaves
    behind the redaction of their concatenation: from left to right the longest
    secret that starts at a position is replaced, every other byte is kept.  The
    secrets are the values, and none occurs in the replacement.  If the
    destination fails, [Close] reports an error and what was written is a prefix
    of the redaction. *)
Theorem redaction_is_exact {W} `{Sink W} (destination : W) values chunks w :
  NewWriter (Some destination) values = inl w ->
  (forall s, s ∈ rd_secrets w <-> exists v, v ∈ values /\ s = bytes v) /\
  (forall s, s ∈ rd_secrets w -> bytes_contains (rd_replacement w) s = false) /\
  let written := write_all chunks w in
  exists out, redacted (rd_secrets w) (rd_replacement w) (concat chunks) out /\
    log_of written `prefix_of` log_of (Close written).2 /\
    log_of (Close written).2 `prefix_of` sink_log destination ++ out /\
    ((Close written).1 = None -> log_of (Close written).2 = sink_log destination ++ out).
Proof.
  unfold NewWriter. destruct (unique_values [] values) as [l|] eqn:E; [|discriminate]. intros [= <-].
  destruct (unique_values_spec _ _ _ E) as (H1 & H2 & H3).
  assert (Hl : forall s, s ∈ order_by secret_before l <-> s ∈ l) by (intros s; by rewrite order_by_perm).
  split; [|split]; cbn [rd_secrets rd_replacement].
  - intros s. rewrite Hl. split; [apply H2|]. intros (v & Hv & ->). destruct (H3 v Hv) as [Hn|?]; [by apply elem_of_nil in Hn|done].
  - intros s. apply safeReplacement_safe. intros s'. rewrite Hl. apply H1.
  - set (w := mkRedactor _ _ _ _ _ _). assert (Hs : forall s, s ∈ rd_secrets w -> s <> []) by (intros s; simpl; rewrite Hl; apply H1).
    apply (Close_redacted w (concat chunks)); [done|]. apply (write_all_streamed w chunks []); [done|]. by apply streamed_start.
Qed.

(** A buffer, which accepts everything. *)
#[local] Instance buffer_sink : Sink (list Z).
Proof.
  refine {| sink_Write data w := ((Z.of_nat (length data), None), w ++ data); sink_log w := w |}.
  intros data w. split; [lia|]. rewrite Nat2Z.id, firstn_all. split; [done|lia].
Defined.

Definition demo_redactor : Redactor (list Z) :=
  match NewWriter (Some []) ["token"; "token-long"; "long"] with
  | inl w => w
  | inr _ => mkRedactor [] [] [] [] true None
  end.

Definition demo_chunks : list (list Z) := map bytes ["ordinary token"; "-lo"; "ng and longhouse"].

(** Secrets that overlap, cut by the chunks. *)
Lemma redaction_is_exact_witness :
  let w := (Close (write_all demo_chunks demo_redactor)).2 in
  log_of w = bytes "ordinary [REDACTED] and [REDACTED]house" /\
  redacted (rd_secrets demo_redactor) (rd_replacement demo_redactor) (bytes "ordinary token-long and longhouse") (log_of w).
Proof.
  intros w. assert (E : NewWriter (Some ([] : list Z)) ["token"; "token-long"; "long"] = inl demo_redactor) by (vm_compute; reflexivity).
  assert (Ec : (Close (write_all demo_chunks demo_redactor)).1 = None) by (vm_compute; reflexivity).
  assert (Ei : concat demo_chunks = bytes "ordinary token-long and longhouse") by (vm_compute; reflexivity).
  split; [vm_compute; reflexivity|].
  destruct (redaction_is_exact ([] : list Z) ["token"; "token-long"; "long"] demo_chunks demo_redactor E)
    as (_ & _ & out & Hr & _ & _ & Hok).
  unfold w. rewrite (Hok Ec), <- Ei. exact Hr.
Defined.

(** * The durable log of a job is bounded *)

Section Bounded.
Context {W : Type} `{Sink W}.
Implicit Types (w : boundedLogWriter W).

(** The writes of a job, one after the other. *)
Definition log_all (chunks : list (list Z)) w : boundedLogWriter W := fold_left (fun w data => (boundedWrite data w).2) chunks w.

Definition log_size w : Z := Z.of_nat (length (sink_log (bl_destination w))).

(** The log and what may still be written stay within [limit]. *)
Definition within (limit : Z) w : Prop :=
  0 <= bl_remaining w /\ log_size w <= limit /\ (bl_truncated w = false -> log_size w + bl_remaining w <= limit).

Lemma sink_grows data d n err d' : sink_Write data d = ((n, err), d') ->
  0 <= n <= Z.of_nat (length data) /\ sink_log d' = sink_log d ++ take (Z.to_nat n) data /\ (n < Z.of_nat (length data) -> err <> None).
Proof using. intros E. pose proof (sink_law data d) as Hl. rewrite E in Hl. exact Hl. Qed.

Lemma sink_size data d n err d' : sink_Write data d = ((n, err), d') ->
  Z.of_nat (length (sink_log d')) = Z.of_nat (length (sink_log d)) + n /\ 0 <= n <= Z.of_nat (length data).
Proof using. intros E. destruct (sink_grows _ _ _ _ _ E) as (Hn & -> & _). rewrite length_app, length_take. lia. Qed.

Lemma bounded_step limit data w : within limit w -> within limit (boundedWrite data w).2.
Proof using.
  intros (Hr & Hs & Ht). unfold boundedWrite. destruct (bl_truncated w || _) eqn:E0; [by split|].
  apply orb_false_iff in E0 as [Et Er]. apply Z.eqb_neq in Er. specialize (Ht Et). unfold within, log_size in *.
  destruct (_ <=? bl_remaining w) eqn:El; split_bools.
  { destruct (sink_Write data _) as [[n err] d] eqn:Ew. destruct (sink_size _ _ _ _ _ Ew) as [Hsz Hn]. simpl. rewrite Hsz. split; [lia|]. split; [lia|]. lia. }
  set (marker := Z.of_nat (length logTruncationMarker)). assert (Hm : 0 < marker) by (vm_compute; done). cbv zeta.
  (* the part of the data that fits, then the marker *)
  assert (Hmarker : forall d remaining, 0 <= remaining -> Z.of_nat (length (sink_log d)) + remaining <= limit ->
            within limit (let m := if remaining <? marker then take (Z.to_nat remaining) logTruncationMarker else logTruncationMarker in
                          if bool_decide (m = []) then ((Z.of_nat (length data), None), mkBounded d remaining true) else
                          let '((_, err), d) := sink_Write m d in
                          match err with
                          | Some e => ((0, Some e), mkBounded d remaining true)
                          | None => ((Z.of_nat (length data), None), mkBounded d (remaining - Z.of_nat (length m)) true)
                          end).2).
  { intros d remaining H0 Hle. cbv zeta. set (m := if remaining <? marker then _ else _).
    assert (Hlen : Z.of_nat (length m) <= remaining) by (subst m; destruct (remaining <? marker) eqn:E1; split_bools; [rewrite length_take; lia|done]).
    case_bool_decide; [split; simpl; [done|]; unfold log_size; simpl; split; [lia|done]|].
    destruct (sink_Write m d) as [[n err] d'] eqn:Ew. destruct (sink_size _ _ _ _ _ Ew) as [Hsz Hn].
    destruct err; split; simpl; try lia; unfold log_size; simpl; (split; [lia|done]). }
  destruct (0 <? bl_remaining w - marker) eqn:Ep; split_bools; [|apply Hmarker; lia].
  destruct (sink_Write (take _ data) _) as [[n err] d] eqn:Ew. destruct (sink_size _ _ _ _ _ Ew) as [Hsz Hn]. rewrite length_take in Hn.
  destruct err as [e|]; [simpl; split; [lia|split; [lia|done]]|]. apply Hmarker; lia.
Qed.

Lemma bounded_all limit chunks w : within limit w -> within limit (log_all chunks w).
Proof using. unfold log_all. revert w. induction chunks as [|data chunks IH]; intros w Hw; simpl; [done|]. by apply IH, bounded_step. Qed.

(** ** What the log holds *)

(** A destination that takes every byte. *)
Definition takes_all : Prop := forall data d, (sink_Write data d).1 = (Z.of_nat (length data), None).

(** The log is everything written so far, or a part of it before the marker or
    as much of the marker as fits. *)
Definition holds (start all : list Z) w : Prop :=
  (bl_truncated w = false /\ sink_log (bl_destination w) = start ++ all) \/
  (bl_truncated w = true /\ exists kept mark, kept `prefix_of` all /\ mark `prefix_of` logTruncationMarker /\
     sink_log (bl_destination w) = start ++ kept ++ mark).

Lemma takes_spec data d : takes_all -> exists d', sink_Write data d = ((Z.of_nat (length data), None), d') /\ sink_log d' = sink_log d ++ data.
Proof using.
  intros Hall. destruct (sink_Write data d) as [[n err] d'] eqn:Ew. pose proof (Hall data d) as Hd. rewrite Ew in Hd. simpl in Hd. injection Hd as -> ->.
  exists d'. split; [done|]. destruct (sink_grows _ _ _ _ _ Ew) as (_ & -> & _). by rewrite Nat2Z.id, firstn_all.
Qed.

Lemma holds_step start all data w : takes_all -> holds start all w ->
  (boundedWrite data w).1 = (Z.of_nat (length data), None) /\ holds start (all ++ data) (boundedWrite data w).2.
Proof using.
  intros Hall Hh. unfold boundedWrite. destruct (bl_truncated w || _) eqn:E0.
  { split; [done|]. right. simpl. split; [done|]. destruct Hh as [[_ E]|(_ & kept & mark & Hk & Hm & E)].
    - exists all, []. split; [by eexists|]. split; [apply prefix_nil|]. by rewrite app_nil_r.
    - exists kept, mark. split; [by apply prefix_app_r|]. done. }
  apply orb_false_iff in E0 as [Et Er]. destruct Hh as [[_ Eh]|[Hh _]]; [|congruence].
  destruct (_ <=? bl_remaining w) eqn:El.
  { destruct (takes_spec data (bl_destination w) Hall) as (d & -> & Ed). split; [done|]. left. simpl. split; [done|]. by rewrite Ed, Eh, <- (assoc_L (++)). }
  set (marker := Z.of_nat (length logTruncationMarker)). cbv zeta.
  assert (Hmarker : forall kept d remaining, kept `prefix_of` all ++ data -> sink_log d = start ++ kept ->
            let r := (let m := if remaining <? marker then take (Z.to_nat remaining) logTruncationMarker else logTruncationMarker in
                          if bool_decide (m = []) then ((Z.of_nat (length data), None), mkBounded d remaining true) else
                          let '((_, err), d) := sink_Write m d in
                          match err with
                          | Some e => ((0, Some e), mkBounded d remaining true)
                          | None => ((Z.of_nat (length data), None), mkBounded d (remaining - Z.of_nat (length m)) true)
                          end) in
            r.1 = (Z.of_nat (length data), None) /\ holds start (all ++ data) r.2).
  { intros kept d remaining Hk Ed. cbv zeta. set (m := if remaining <? marker then _ else _).
    assert (Hm : m `prefix_of` logTruncationMarker).
    { subst m. destruct (remaining <? marker); [|done]. exists (drop (Z.to_nat remaining) logTruncationMarker). symmetry. apply take_drop. }
    clearbody m. case_bool_decide as Em.
    - split; [done|]. right. split; [done|]. exists kept, []. split; [done|]. split; [apply prefix_nil|]. simpl. by rewrite app_nil_r.
    - destruct (takes_spec m d Hall) as (d' & -> & Ed'). split; [done|]. right. split; [done|]. exists kept, m. split; [done|]. split; [done|].
      simpl. by rewrite Ed', Ed, <- (assoc_L (++)). }
  destruct (0 <? bl_remaining w - marker); [|apply (Hmarker all); [by eexists|done]].
  destruct (takes_spec (take (Z.to_nat (bl_remaining w - marker)) data) (bl_destination w) Hall) as (d & -> & Ed).
  apply (Hmarker (all ++ take (Z.to_nat (bl_remaining w - marker)) data)).
  - apply prefix_app. exists (drop (Z.to_nat (bl_remaining w - marker)) data). symmetry. apply take_drop.
  - by rewrite Ed, Eh, <- (assoc_L (++)).
Qed.

Lemma holds_all start : takes_all -> forall chunks all w, holds start all w -> holds start (all ++ concat chunks) (log_all chunks w).
Proof using.
  intros Hall. induction chunks as [|data chunks IH]; intros all w Hh; unfold log_all; simpl; [by rewrite app_nil_r|].
  rewrite (assoc_L (++)). apply IH. by apply holds_step.
Qed.

End Bounded.


#[local] Existing Instance buffer_sink.

