(* ===== verification/Float64.v ===== *)
(** * Double precision numbers

    Go's [float64] and SQLite's [REAL] as the IEEE 754 binary64 numbers of the
    standard library's specification: 53 bits of precision, exponents below
    1024.  Conversion from integers, addition, division, comparison and the
    maximum that SQLite computes; and the facts the resource metrics rely on:
    conversion is monotone, a quotient of ordered numbers is a ratio between
    zero and one, and the maximum is a largest element. *)
From Stdlib Require Import SpecFloat.
From S2P Require Import Prelude.

Abbreviation float64 := spec_float.

(** ** Operations *)

Definition f_one : float64 := S754_finite false 4503599627370496 (-52).
Definition f_zero : float64 := S754_zero false.

(** [float64(n)] of a machine integer. *)
Definition f_of_Z (n : Z) : float64 := binary_normalize 53 1024 n 0 false.
Definition f_add (x y : float64) : float64 := SFadd 53 1024 x y.
Definition f_mul (x y : float64) : float64 := SFmul 53 1024 x y.
Definition f_div (x y : float64) : float64 := SFdiv 53 1024 x y.
Definition f_lt (x y : float64) : bool := SFltb x y.
Definition f_le (x y : float64) : bool := SFleb x y.

Definition IsNaN (x : float64) : bool := match x with S754_nan => true | _ => false end.
Definition IsInf (x : float64) : bool := match x with S754_infinity _ => true | _ => false end.

(** [MAX] of SQLite, scalar and aggregate: the first of the largest values. *)
Definition f_max (x y : float64) : float64 := if f_lt x y then y else x.

(** The number nearest to [n / d], ties to even. *)
Definition f_ratio (sign : bool) (n d : positive) : float64 :=
  let '(q, e, l) := SFdiv_core_binary 53 1024 (Zpos n) 0 (Zpos d) 0 in binary_round_aux 53 1024 sign q e l.

(** Canonical representation: every number the arithmetic returns has it. *)
Definition canonical (x : float64) : Prop := valid_binary 53 1024 x = true.

(** ** Digits and shifts *)

Lemma digits2_bounds p : 2 ^ (Zpos (digits2_pos p) - 1) <= Zpos p < 2 ^ Zpos (digits2_pos p).
Proof.
  induction p as [p IH|p IH|]; cbn [digits2_pos]; [| |split; [done|reflexivity]];
    rewrite Pos2Z.inj_succ; replace (Z.succ (Zpos (digits2_pos p)) - 1) with (Z.succ (Zpos (digits2_pos p) - 1)) by lia;
    rewrite !Z.pow_succ_r by lia; lia.
Qed.

Lemma Zdigits2_le q n : 0 <= q < 2 ^ n -> 0 <= n -> Zdigits2 q <= n.
Proof.
  intros Hq Hn. destruct q as [|p|p]; [done| |lia]. unfold Zdigits2. pose proof (digits2_bounds p) as [Hb _].
  apply Z.lt_pred_le. apply (Z.pow_lt_mono_r_iff 2); lia.
Qed.

Lemma Zdigits2_bounds q : 0 < q -> 2 ^ (Zdigits2 q - 1) <= q < 2 ^ Zdigits2 q.
Proof. destruct q as [|p|p]; [lia| |lia]. intros _. apply digits2_bounds. Qed.

Lemma Zdigits2_nonneg q : 0 <= Zdigits2 q.
Proof. destruct q; simpl; lia. Qed.

Lemma Zdigits2_unique q n : 2 ^ (n - 1) <= q < 2 ^ n -> 1 <= n -> Zdigits2 q = n.
Proof.
  intros Hq Hn. assert (0 < 2 ^ (n - 1)) by (apply Z.pow_pos_nonneg; lia).
  apply Z.le_antisymm; [apply Zdigits2_le; lia|]. destruct (Z.le_gt_cases n (Zdigits2 q)) as [H0|H0]; [done|].
  pose proof (Zdigits2_bounds q ltac:(lia)) as [_ Hb].
  assert (2 ^ Zdigits2 q <= 2 ^ (n - 1)) by (apply Z.pow_le_mono_r; lia). lia.
Qed.

(** [x] is the quotient of [N] by [D] with its remainder classified. *)
Definition located (N D : Z) (x : shr_record) : Prop :=
  0 < D /\ shr_m x = N / D /\
  loc_of_shr_record x = if N mod D =? 0 then loc_Exact else loc_Inexact (2 * (N mod D) ?= D).

Lemma div_mod_unique_pos N D q r : 0 <= r < D -> N = q * D + r -> N / D = q /\ N mod D = r.
Proof.
  intros Hr ->. split.
  - symmetry. apply (Z.div_unique_pos _ _ _ r); lia.
  - symmetry. apply (Z.mod_unique_pos _ _ q); lia.
Qed.

(** Halving once more. *)
Lemma located_half N D m r s (odd : bool) :
  0 <= m -> located N D (Build_shr_record (2 * m + Z.b2z odd) r s) -> located N (2 * D) (Build_shr_record m odd (r || s)).
Proof.
  intros Hm (HD & Hq & Hl). cbn [shr_m] in *. pose proof (Z.mod_pos_bound N D HD) as Hr. pose proof (Z.div_mod N D ltac:(lia)) as HN.
  destruct (div_mod_unique_pos N (2 * D) m (Z.b2z odd * D + N mod D)) as [E1 E2]; [destruct odd; simpl; lia| |].
  { rewrite HN at 1. rewrite <- Hq. destruct odd; simpl; lia. }
  split; [lia|]. split; [by rewrite E1|]. rewrite E2. cbn [loc_of_shr_record] in *. set (rem := N mod D) in *.
  destruct (rem =? 0) eqn:E0; split_bools.
  - rewrite E0. destruct r, s; try discriminate; destruct odd; cbn [Z.b2z orb]; [|done].
    rewrite (proj2 (Z.eqb_neq _ _)) by lia. f_equal. symmetry. apply Z.compare_eq_iff. lia.
  - assert (Hs : r || s = true) by (destruct r, s; try discriminate; done). rewrite Hs.
    rewrite (proj2 (Z.eqb_neq _ _)) by (destruct odd; simpl; lia).
    destruct odd; cbn [Z.b2z]; f_equal; symmetry; [apply Z.compare_gt_iff|apply Z.compare_lt_iff]; lia.
Qed.

Lemma located_shr_1 N D x : 0 <= N -> located N D x -> located N (2 * D) (shr_1 x).
Proof.
  intros HN H. destruct x as [m r s]. assert (Hm : 0 <= m) by (destruct H as (HD & Hq & _); simpl in Hq; subst m; apply Z.div_pos; lia).
  destruct m as [|p|p]; [| |lia].
  - exact (located_half N D 0 r s false Hm H).
  - destruct p as [p|p|]; [apply (located_half N D (Zpos p) r s true)|apply (located_half N D (Zpos p) r s false)|apply (located_half N D 0 r s true)]; done.
Qed.

Lemma located_iter N p : forall D x, 0 <= N -> located N D x -> located N (2 ^ Zpos p * D) (SpecFloat.iter_pos shr_1 p x).
Proof.
  induction p as [p IH|p IH|]; intros D x HN H; cbn [SpecFloat.iter_pos].
  - replace (2 ^ Zpos p~1 * D) with (2 ^ Zpos p * (2 ^ Zpos p * (2 * D))).
    + apply IH; [done|]. apply IH; [done|]. by apply located_shr_1.
    + replace (Zpos p~1) with (Zpos p + Zpos p + 1) by lia. rewrite !Z.pow_add_r by lia. lia.
  - replace (2 ^ Zpos p~0 * D) with (2 ^ Zpos p * (2 ^ Zpos p * D)).
    + apply IH; [done|]. by apply IH.
    + replace (Zpos p~0) with (Zpos p + Zpos p) by lia. rewrite Z.pow_add_r by lia. lia.
  - by apply located_shr_1.
Qed.

(** [shr] divides by a power of two. *)
Lemma located_shr N D x e n :
  0 <= N -> located N D x ->
  exists y, shr x e n = (y, e + Z.max 0 n) /\ located N (2 ^ Z.max 0 n * D) y.
Proof.
  intros HN H. destruct n as [|p|p]; cbn [shr].
  - exists x. split; [f_equal; lia|]. by rewrite Z.mul_1_l.
  - exists (SpecFloat.iter_pos shr_1 p x). split; [done|]. by apply located_iter.
  - exists x. split; [f_equal; lia|]. by rewrite Z.mul_1_l.
Qed.

(** ** Rounding *)

(** [N / D] rounded to the nearest integer, ties to even. *)
Definition nearest (N D : Z) : Z :=
  let q := N / D in
  match 2 * (N mod D) ?= D with Lt => q | Gt => q + 1 | Eq => if Z.even q then q else q + 1 end.

Lemma located_nearest N D x : located N D x -> round_nearest_even (shr_m x) (loc_of_shr_record x) = nearest N D.
Proof.
  intros (HD & -> & ->). unfold nearest, round_nearest_even. destruct (N mod D =? 0) eqn:E; split_bools; [|by destruct (_ ?= _)].
  rewrite E. by rewrite (proj2 (Z.compare_lt_iff _ _)) by lia.
Qed.

Lemma nearest_bounds N D : N / D <= nearest N D <= N / D + 1.
Proof. unfold nearest. destruct (_ ?= _); [destruct (Z.even _)|..]; lia. Qed.

Lemma nearest_exact q D : 0 < D -> nearest (q * D) D = q.
Proof.
  intros HD. unfold nearest. rewrite Z.div_mul, Z.mod_mul by lia. by rewrite (proj2 (Z.compare_lt_iff _ _)) by lia.
Qed.

Lemma nearest_mono N N' D : 0 < D -> N <= N' -> nearest N D <= nearest N' D.
Proof.
  intros HD HN. pose proof (nearest_bounds N D). pose proof (nearest_bounds N' D).
  assert (Hq : N / D <= N' / D) by (by apply Z.div_le_mono). destruct (Z.eq_dec (N / D) (N' / D)) as [E|E]; [|lia].
  assert (Hr : N mod D <= N' mod D) by (rewrite !Z.mod_eq, E by lia; lia).
  unfold nearest. rewrite <- E. destruct (2 * (N mod D) ?= D) eqn:C1, (2 * (N' mod D) ?= D) eqn:C2;
    rewrite ?Z.compare_eq_iff, ?Z.compare_lt_iff, ?Z.compare_gt_iff in C1; rewrite ?Z.compare_eq_iff, ?Z.compare_lt_iff, ?Z.compare_gt_iff in C2;
    try lia; destruct (Z.even (N / D)); lia.
Qed.

(** The exponent of a number with [d] digits and exponent [e]: 53 bits, or the
    exponent of the subnormal numbers. *)
Lemma fexp_max d : fexp 53 1024 d = Z.max (d - 53) (-1074).
Proof. reflexivity. Qed.

(** What [binary_round_aux] computes from the quotient of [N] by [D]: the
    quotient is cut to 53 bits, rounded, and cut again after a carry. *)
Definition cut_exponent (q e : Z) : Z := Z.max 0 (fexp 53 1024 (Zdigits2 q + e) - e).

Lemma round_aux_form sign N D e x :
  0 <= N -> located N D x ->
  let k := cut_exponent (shr_m x) e in
  let M := nearest N (2 ^ k * D) in
  let k2 := cut_exponent M (e + k) in
  binary_round_aux 53 1024 sign (shr_m x) e (loc_of_shr_record x) =
  match M / 2 ^ k2 with
  | Z0 => S754_zero sign
  | Zpos m => if e + k + k2 <=? 971 then S754_finite sign m (e + k + k2) else S754_infinity sign
  | Zneg _ => S754_nan
  end.
Proof.
  intros HN H k M k2. unfold binary_round_aux, shr_fexp.
  assert (Hx : shr_record_of_loc (shr_m x) (loc_of_shr_record x) = x) by (destruct x as [m [] []]; done). rewrite Hx.
  destruct (located_shr N D x e (fexp 53 1024 (Zdigits2 (shr_m x) + e) - e) HN H) as (y & -> & Hy).
  rewrite (located_nearest _ _ _ Hy). change (Z.max 0 (fexp 53 1024 (Zdigits2 (shr_m x) + e) - e)) with k in *. fold M.
  assert (HM : 0 <= M). { unfold M. pose proof (nearest_bounds N (2 ^ k * D)). destruct Hy as (HD & _). pose proof (Z.div_pos N (2 ^ k * D) HN HD). lia. }
  destruct (located_shr M 1 (shr_record_of_loc M loc_Exact) (e + k) (fexp 53 1024 (Zdigits2 M + (e + k)) - (e + k)) HM) as (z & -> & Hz).
  { split; [lia|]. split; [by rewrite Z.div_1_r|]. by rewrite Z.mod_1_r. }
  change (Z.max 0 (fexp 53 1024 (Zdigits2 M + (e + k)) - (e + k))) with k2 in *. destruct Hz as (_ & -> & _). by rewrite Z.mul_1_r.
Qed.

(** ** Order *)

Lemma f_le_finite m e m' e' :
  f_le (S754_finite false m e) (S754_finite false m' e') = true <-> e < e' \/ (e = e' /\ Zpos m <= Zpos m').
Proof.
  unfold f_le, SFleb, SFcompare. destruct (Z.compare_spec e e') as [->|H|H]; [|split; [by left|done]|split; [done|lia]].
  change (Pos.compare_cont Eq m m') with (m ?= m')%positive. 
  destruct (Pos.compare_spec m m'); split; try done; lia.
Qed.

Lemma not_lt_finite m e m' e' :
  f_lt (S754_finite false m e) (S754_finite false m' e') = false -> f_le (S754_finite false m' e') (S754_finite false m e) = true.
Proof.
  rewrite f_le_finite. unfold f_lt, SFltb, SFcompare. destruct (Z.compare_spec e e') as [->|H|H]; [|done|lia].
  change (Pos.compare_cont Eq m m') with (m ?= m')%positive. destruct (Pos.compare_spec m m'); try done; lia.
Qed.

(** [0 <= x <= 1]; no NaN satisfies it. *)
Definition in_unit (x : float64) : Prop := f_le f_zero x = true /\ f_le x f_one = true.

Lemma in_unit_finite m e : e < -52 \/ (e = -52 /\ Zpos m <= 2 ^ 52) -> in_unit (S754_finite false m e).
Proof. intros H. split; [done|]. apply f_le_finite. exact H. Qed.

(** The number [M * 2 ^ E] after a rounding that may have carried. *)
Definition carried (M E : Z) : float64 :=
  let k := cut_exponent M E in
  match M / 2 ^ k with
  | Z0 => S754_zero false
  | Zpos m => if E + k <=? 971 then S754_finite false m (E + k) else S754_infinity false
  | Zneg _ => S754_nan
  end.

(** Without a carry the mantissa stays; with one it is halved. *)
Lemma carried_plain M E : 0 < M < 2 ^ 53 -> -1074 <= E <= 971 -> carried M E = S754_finite false (Z.to_pos M) E.
Proof.
  intros HM HE. unfold carried, cut_exponent. rewrite fexp_max. pose proof (Zdigits2_le M 53 ltac:(lia) ltac:(lia)).
  rewrite Z.max_l by lia. rewrite Z.pow_0_r, Z.div_1_r, Z.add_0_r. destruct M as [|m|m]; [lia| |lia]. by rewrite (proj2 (Z.leb_le _ _)) by lia.
Qed.

Lemma carried_carry E : -1074 <= E <= 970 -> carried (2 ^ 53) E = S754_finite false (2 ^ 52) (E + 1).
Proof.
  intros HE. unfold carried, cut_exponent. rewrite fexp_max, (Zdigits2_unique (2 ^ 53) 54) by (vm_compute; intuition discriminate).
  replace (Z.max 0 (Z.max (54 + E - 53) (-1074) - E)) with 1 by lia. change (2 ^ 53 / 2 ^ 1) with (Zpos (2 ^ 52)).
  cbv iota. by rewrite (proj2 (Z.leb_le _ _)) by lia.
Qed.

Lemma carried_zero E : carried 0 E = S754_zero false.
Proof. unfold carried. by rewrite Z.div_0_l by (apply Z.pow_nonzero; [lia|unfold cut_exponent; lia]). Qed.

Lemma round_aux_carried N D e x :
  0 <= N -> located N D x ->
  let k := cut_exponent (shr_m x) e in
  binary_round_aux 53 1024 false (shr_m x) e (loc_of_shr_record x) = carried (nearest N (2 ^ k * D)) (e + k).
Proof. intros HN H k. rewrite (round_aux_form false N D e x HN H). reflexivity. Qed.

(** A value of at most one, given with exponent at most -53, rounds to at most
    one. *)
Lemma round_in_unit N D e x :
  0 <= N <= D * 2 ^ (- e) -> e <= -53 -> located N D x ->
  in_unit (binary_round_aux 53 1024 false (shr_m x) e (loc_of_shr_record x)).
Proof.
  intros HN He H. rewrite (round_aux_carried N D e x) by (done || lia). destruct H as (HD & Hq & _). rewrite Hq.
  set (q := N / D). set (k := cut_exponent q e). set (E := e + k).
  assert (Hq0 : 0 <= q) by (apply Z.div_pos; lia).
  assert (Hk : k = Z.max 0 (Z.max (Zdigits2 q + e - 53) (-1074) - e)) by reflexivity.
  assert (Hle : q <= 2 ^ (- e)) by (apply Z.div_le_upper_bound; lia).
  pose proof (Zdigits2_nonneg q) as Hd0.
  destruct (Z.eq_dec q (2 ^ (- e))) as [Eq|Ne].
  - assert (HNe : N = 2 ^ (- e) * D). { pose proof (Z.mul_div_le N D HD). unfold q in Eq. lia. }
    assert (Hd : Zdigits2 q = 1 - e). { apply Zdigits2_unique; [|lia]. rewrite Eq. split; apply Z.pow_le_mono_r || apply Z.pow_lt_mono_r; lia. }
    assert (Hk' : k = - 52 - e) by lia. replace (nearest N (2 ^ k * D)) with (2 ^ 52).
    + rewrite carried_plain by lia. unfold E. apply in_unit_finite. right. split; [lia|done].
    + rewrite HNe. replace (2 ^ (- e) * D) with (2 ^ 52 * (2 ^ k * D)). { symmetry. apply nearest_exact. apply Z.mul_pos_pos; [apply Z.pow_pos_nonneg|]; lia. }
      replace (- e) with (52 + k) by lia. rewrite (Z.pow_add_r 2 52 k) by lia. lia.
  - assert (Hd : Zdigits2 q <= - e) by (apply Zdigits2_le; lia).
    assert (HE : -1074 <= E <= -53) by lia.
    assert (HM : N / (2 ^ k * D) < 2 ^ 53).
    { rewrite Z.mul_comm, <- Z.div_div by (try apply Z.pow_pos_nonneg; lia). fold q. apply Z.div_lt_upper_bound; [apply Z.pow_pos_nonneg; lia|].
      rewrite <- (Z.pow_add_r 2 k 53) by lia. destruct (Z.eq_dec q 0) as [->|]; [apply Z.pow_pos_nonneg; lia|].
      pose proof (Zdigits2_bounds q ltac:(lia)). assert (2 ^ Zdigits2 q <= 2 ^ (k + 53)) by (apply Z.pow_le_mono_r; lia). lia. }
    pose proof (nearest_bounds N (2 ^ k * D)) as Hb. set (M := nearest N (2 ^ k * D)) in *.
    assert (0 <= N / (2 ^ k * D)) by (apply Z.div_pos; [lia|apply Z.mul_pos_pos; [apply Z.pow_pos_nonneg|]; lia]).
    destruct (Z.eq_dec M 0) as [->|]; [by rewrite carried_zero|]. destruct (Z.eq_dec M (2 ^ 53)) as [->|].
    + rewrite carried_carry by lia. apply in_unit_finite. destruct (Z.eq_dec E (-53)) as [->|]; [right; split; [lia|done]|left; lia].
    + rewrite carried_plain by lia. apply in_unit_finite. left. lia.
Qed.

(** ** Canonical results *)

Lemma canonical_finite s m e :
  canonical (S754_finite s m e) <-> Z.max (Zpos (digits2_pos m) + e - 53) (-1074) = e /\ e <= 971.
Proof.
  unfold canonical, valid_binary, bounded, canonical_mantissa. rewrite fexp_max, andb_true_iff, Z.eqb_eq, Z.leb_le.
  change (1024 - 53) with 971. reflexivity.
Qed.

Lemma carried_canonical M E :
  -1074 <= E -> (2 ^ 52 <= M <= 2 ^ 53 \/ (0 <= M <= 2 ^ 52 /\ E = -1074)) -> canonical (carried M E).
Proof.
  intros HE HM. destruct (Z.eq_dec M 0) as [->|Hz]; [by rewrite carried_zero|].
  destruct (Z.le_gt_cases E 971) as [Hle|Hgt].
  2:{ unfold carried. destruct (M / _) as [|m|m]; [done| |done]. by rewrite (proj2 (Z.leb_gt _ _)) by (unfold cut_exponent; lia). }
  destruct (Z.eq_dec M (2 ^ 53)) as [->|].
  - destruct (Z.eq_dec E 971) as [->|]; [done|]. rewrite carried_carry by lia. apply canonical_finite. change (digits2_pos (2 ^ 52)) with 53%positive. lia.
  - rewrite carried_plain by lia. apply canonical_finite.
    assert (Hd : Zdigits2 M = Zpos (digits2_pos (Z.to_pos M))) by (destruct M; [lia|done|lia]). rewrite <- Hd.
    destruct HM as [HM|[HM ->]].
    + rewrite (Zdigits2_unique M 53) by lia. lia.
    + pose proof (Zdigits2_le M 53 ltac:(lia) ltac:(lia)). lia.
Qed.

(** A quotient with enough digits rounds to a canonical number. *)
Lemma round_canonical N D e x :
  0 <= N -> located N D x -> e <= Z.max (Zdigits2 (shr_m x) + e - 53) (-1074) ->
  canonical (binary_round_aux 53 1024 false (shr_m x) e (loc_of_shr_record x)).
Proof.
  intros HN H Hd. rewrite (round_aux_carried N D e x) by done. destruct H as (HD & Hq & _). rewrite Hq in *.
  set (q := N / D) in *. set (k := cut_exponent q e).
  assert (Hk : k = Z.max (Zdigits2 q + e - 53) (-1074) - e) by (unfold k, cut_exponent; rewrite fexp_max; lia).
  pose proof (nearest_bounds N (2 ^ k * D)) as Hb. rewrite Z.mul_comm, <- Z.div_div in Hb by (try apply Z.pow_pos_nonneg; lia). fold q in Hb.
  rewrite (Z.mul_comm D) in Hb.
  assert (Hq0 : 0 <= q) by (apply Z.div_pos; lia). apply carried_canonical; [lia|].
  assert (Hp : 0 < 2 ^ k) by (apply Z.pow_pos_nonneg; lia).
  destruct (Z.eq_dec q 0) as [E0|]; [rewrite E0, Z.div_0_l in Hb by lia; rewrite E0 in Hk, Hd; simpl in Hk, Hd; right; lia|].
  pose proof (Zdigits2_bounds q ltac:(lia)) as [L U].
  destruct (Z.le_gt_cases (-1074) (Zdigits2 q + e - 53)) as [Hn|Hs].
  - left. replace (Zdigits2 q) with (k + 53) in L, U by lia. replace (k + 53 - 1) with (k + 52) in L by lia.
    rewrite Z.pow_add_r in L, U by lia. assert (2 ^ 52 <= q / 2 ^ k) by (apply Z.div_le_lower_bound; lia).
    assert (q / 2 ^ k < 2 ^ 53) by (apply Z.div_lt_upper_bound; lia). lia.
  - right. split; [|lia]. assert (q / 2 ^ k < 2 ^ 52).
    { apply Z.div_lt_upper_bound; [done|]. rewrite <- (Z.pow_add_r 2 k 52) by lia.
      assert (2 ^ Zdigits2 q <= 2 ^ (k + 52)) by (apply Z.pow_le_mono_r; lia). lia. }
    pose proof (Z.div_pos q (2 ^ k) Hq0 Hp). lia.
Qed.

(** ** Division *)

(** The parts of a quotient: [m1 * 2 ^ e1] by [m2 * 2 ^ e2]. *)
Lemma div_core_located m1 e1 m2 e2 q e l :
  SFdiv_core_binary 53 1024 (Zpos m1) e1 (Zpos m2) e2 = (q, e, l) ->
  e = Z.min (Z.max (Zpos (digits2_pos m1) + e1 - (Zpos (digits2_pos m2) + e2) - 53) (-1074)) (e1 - e2) /\
  exists x, shr_m x = q /\ loc_of_shr_record x = l /\ located (Zpos m1 * 2 ^ (e1 - e2 - e)) (Zpos m2) x.
Proof.
  unfold SFdiv_core_binary. cbn [Zdigits2]. rewrite fexp_max. intros H.
  set (e' := Z.min _ _) in H. set (s := e1 - e2 - e') in H. assert (Hs : 0 <= s) by lia.
  assert (Hm : match s with Zpos _ => Z.shiftl (Zpos m1) s | Z0 => Zpos m1 | Zneg _ => 0 end = Zpos m1 * 2 ^ s).
  { destruct s; [by rewrite Z.mul_1_r|by rewrite Z.shiftl_mul_pow2 by lia|lia]. }
  rewrite Hm in H. pose proof (Z.div_eucl_eq (Zpos m1 * 2 ^ s) (Zpos m2) ltac:(lia)) as _.
  assert (Ed : Z.div_eucl (Zpos m1 * 2 ^ s) (Zpos m2) = ((Zpos m1 * 2 ^ s) / Zpos m2, (Zpos m1 * 2 ^ s) mod Zpos m2)).
  { unfold Z.div, Z.modulo. by destruct (Z.div_eucl _ _). }
  rewrite Ed in H. injection H as <- <- <-. split; [done|].
  set (N := Zpos m1 * 2 ^ s). pose proof (Z.mod_pos_bound N (Zpos m2) ltac:(lia)) as Hr.
  exists (shr_record_of_loc (N / Zpos m2) (new_location (Zpos m2) (N mod Zpos m2))).
  assert (Hl : forall l, shr_m (shr_record_of_loc (N / Zpos m2) l) = N / Zpos m2 /\ loc_of_shr_record (shr_record_of_loc (N / Zpos m2) l) = l).
  { intros [|[]]; done. }
  destruct (Hl (new_location (Zpos m2) (N mod Zpos m2))) as [-> E2]. split; [done|]. split; [done|].
  split; [lia|]. split; [by apply Hl|]. rewrite E2. unfold new_location, new_location_even, new_location_odd.
  change (Zpos m1 * 2 ^ (e1 - e2 - e')) with N. set (r := N mod Zpos m2) in *.
  destruct (IntDef.Z.even (Zpos m2)) eqn:Ev; destruct (r =? 0) eqn:Ez; try done. f_equal.
  rewrite <- Z.negb_odd, negb_false_iff in Ev. apply Z.odd_spec in Ev as [w Hw].
  destruct (Z.compare_spec (2 * r + 1) (Zpos m2)); symmetry;
    [apply Z.compare_lt_iff|apply Z.compare_lt_iff|apply Z.compare_gt_iff]; lia.
Qed.

(** The quotient of a number by one that is not smaller lies between zero and
    one. *)
Lemma f_div_unit x y :
  canonical x -> canonical y -> f_le f_zero x = true -> f_lt f_zero y = true -> f_le x y = true -> y <> S754_infinity false ->
  in_unit (f_div x y).
Proof.
  intros Cx Cy Hx Hy Hxy Hinf. destruct y as [sy|sy| |[] m2 e2]; try discriminate; [destruct sy; [discriminate|done]|].
  destruct x as [sx|sx| |sx m1 e1]; try discriminate; [by destruct sx|by destruct sx|]. destruct sx; [discriminate|].
  apply f_le_finite in Hxy. apply canonical_finite in Cx as [Cx _], Cy as [Cy _]. unfold f_div, SFdiv.
  destruct (SFdiv_core_binary 53 1024 (Zpos m1) e1 (Zpos m2) e2) as [[q e] l] eqn:E.
  apply div_core_located in E as (He & x & <- & <- & Hl).
  pose proof (digits2_bounds m1) as [_ U1]. pose proof (digits2_bounds m2) as [L2 U2].
  assert (Hm : Zpos m1 <= Zpos m2 * 2 ^ (e2 - e1) /\ e1 <= e2 /\ Zpos (digits2_pos m1) + e1 <= Zpos (digits2_pos m2) + e2).
  { destruct Hxy as [Hlt|[-> Hm]].
    - assert (Hd2 : Zpos (digits2_pos m2) = 53) by lia. assert (Hd1 : Zpos (digits2_pos m1) <= 53) by lia.
      split; [|lia]. rewrite Hd2 in L2. assert (2 ^ Zpos (digits2_pos m1) <= 2 ^ 53) by (apply Z.pow_le_mono_r; lia).
      assert (2 ^ 1 <= 2 ^ (e2 - e1)) by (apply Z.pow_le_mono_r; lia). nia.
    - rewrite Z.sub_diag. split; [lia|]. split; [lia|]. pose proof (Zdigits2_le (Zpos m1) (Zpos (digits2_pos m2)) ltac:(lia) ltac:(lia)) as Hd.
      cbn [Zdigits2] in Hd. lia. }
  destruct Hm as (Hm & H12 & Hd). apply (round_in_unit _ _ _ _) with (3 := Hl); [|lia].
  split; [apply Z.mul_nonneg_nonneg; [lia|apply Z.pow_nonneg; lia]|].
  replace (- e) with (e2 - e1 + (e1 - e2 - e)) by lia. rewrite (Z.pow_add_r 2 (e2 - e1)) by lia. nia.
Qed.

(** The nearest number to a quotient is canonical. *)
Lemma f_ratio_canonical n d : canonical (f_ratio false n d).
Proof.
  unfold f_ratio. destruct (SFdiv_core_binary 53 1024 (Zpos n) 0 (Zpos d) 0) as [[q e] l] eqn:E.
  apply div_core_located in E as (He & x & <- & <- & Hl). apply (round_canonical _ _ _ _) with (2 := Hl); [apply Z.mul_nonneg_nonneg; [lia|apply Z.pow_nonneg; lia]|].
  destruct Hl as (_ & -> & _). pose proof (digits2_bounds n) as [Ln _]. pose proof (digits2_bounds d) as [_ Ud].
  set (d1 := Zpos (digits2_pos n)) in *. set (d2 := Zpos (digits2_pos d)) in *. replace (0 - 0 - e) with (- e) by lia.
  destruct (Z.le_gt_cases (-1074) (d1 - d2 - 53)) as [Hn|Hs]; [|lia].
  assert (Hq : 2 ^ (d1 - d2 - e - 1) <= Zpos n * 2 ^ (- e) / Zpos d).
  { apply Z.div_le_lower_bound; [lia|]. assert (0 < 2 ^ (- e)) by (apply Z.pow_pos_nonneg; lia).
    assert (Hp : 2 ^ d2 * 2 ^ (d1 - d2 - e - 1) = 2 ^ (d1 - 1) * 2 ^ (- e)) by (rewrite <- !Z.pow_add_r by lia; f_equal; lia).
    assert (0 <= 2 ^ (d1 - d2 - e - 1)) by (apply Z.pow_nonneg; lia). nia. }
  assert (0 < 2 ^ (d1 - d2 - e - 1)) by (apply Z.pow_pos_nonneg; lia).
  set (q := Zpos n * 2 ^ (- e) / Zpos d) in *. pose proof (Zdigits2_bounds q ltac:(lia)) as [_ Uq].
  assert (d1 - d2 - e - 1 < Zdigits2 q) by (apply (Z.pow_lt_mono_r_iff 2); [lia|apply Zdigits2_nonneg|lia]). lia.
Qed.

(** ** Conversion of integers *)

Lemma located_int N : 0 <= N -> located N 1 (Build_shr_record N false false).
Proof. intros HN. split; [lia|]. split; [by rewrite Z.div_1_r|]. by rewrite Z.mod_1_r. Qed.

(** The 53 leading bits of [z], rounded. *)
Definition int_mantissa (z : Z) : Z :=
  let d := Zdigits2 z in nearest (z * 2 ^ Z.max 0 (53 - d)) (2 ^ Z.max 0 (d - 53)).

Lemma f_of_Z_form z : 0 < z < 2 ^ 64 -> f_of_Z z = carried (int_mantissa z) (Zdigits2 z - 53).
Proof.
  intros Hz. pose proof (Zdigits2_le z 64 ltac:(lia) ltac:(lia)) as Hd. pose proof (Zdigits2_bounds z ltac:(lia)) as [L U].
  destruct z as [|p|p]; [lia| |lia]. unfold f_of_Z, binary_normalize, binary_round, shl_align, int_mantissa. cbn [Zdigits2] in *.
  set (d := Zpos (digits2_pos p)) in *. rewrite Z.add_0_r, fexp_max, Z.max_l, Z.sub_0_r by lia.
  assert (Hround : forall N e, 0 <= N -> binary_round_aux 53 1024 false N e loc_Exact = carried (nearest N (2 ^ cut_exponent N e)) (e + cut_exponent N e)).
  { intros N e HN. rewrite <- (Z.mul_1_r (2 ^ _)). exact (round_aux_carried N 1 e (Build_shr_record N false false) HN (located_int N HN)). }
  destruct (Z.le_gt_cases d 53) as [Hs|Hs].
  - assert (Hm : exists mz, (match d - 53 with Zneg k => (Pos.iter xO p k, d - 53) | _ => (p, 0) end) = (mz, d - 53) /\ Zpos mz = Zpos p * 2 ^ (53 - d)).
    { destruct (d - 53) as [|k|k] eqn:Ek; [|lia|].
      - exists p. split; [done|]. replace (53 - d) with 0 by lia. lia.
      - exists (Pos.iter xO p k). split; [done|]. replace (53 - d) with (Zpos k) by lia. clear.
        rewrite <- Z.shiftl_mul_pow2 by lia. unfold Z.shiftl. induction k using Pos.peano_ind; [done|]. by rewrite !Pos.iter_succ, <- IHk. }
    destruct Hm as (mz & -> & Hmz). rewrite Hround, Hmz by lia. rewrite (Z.max_r 0 (53 - d)), (Z.max_l 0 (d - 53)) by lia.
    assert (Hdig : Zdigits2 (Zpos p * 2 ^ (53 - d)) = 53).
    { apply Zdigits2_unique; [|lia]. replace (53 - 1) with (d - 1 + (53 - d)) by lia. rewrite Z.pow_add_r by lia.
      replace (2 ^ 53) with (2 ^ d * 2 ^ (53 - d)) by (rewrite <- Z.pow_add_r by lia; f_equal; lia).
      assert (0 < 2 ^ (53 - d)) by (apply Z.pow_pos_nonneg; lia). nia. }
    assert (Hc : cut_exponent (Zpos p * 2 ^ (53 - d)) (d - 53) = 0) by (unfold cut_exponent; rewrite Hdig, fexp_max; lia).
    rewrite Hc, Z.add_0_r. done.
  - assert (Hm : (match d - 53 with Zneg k => (Pos.iter xO p k, d - 53) | _ => (p, 0) end) = (p, 0)) by (destruct (d - 53) eqn:Ek; lia || done).
    rewrite Hm, Hround by lia. assert (Hc : cut_exponent (Zpos p) 0 = d - 53) by (unfold cut_exponent; cbn [Zdigits2]; fold d; rewrite fexp_max; lia).
    rewrite Hc, (Z.max_l 0 (53 - d)), (Z.max_r 0 (d - 53)), Z.mul_1_r by lia. done.
Qed.

Lemma int_mantissa_bounds z : 0 < z < 2 ^ 64 -> 2 ^ 52 <= int_mantissa z <= 2 ^ 53.
Proof.
  intros Hz. unfold int_mantissa. pose proof (Zdigits2_bounds z ltac:(lia)) as [L U]. set (d := Zdigits2 z) in *.
  assert (Hd : 0 < d) by (destruct z; [lia|done|lia]). pose proof (nearest_bounds (z * 2 ^ Z.max 0 (53 - d)) (2 ^ Z.max 0 (d - 53))) as Hb.
  set (a := Z.max 0 (53 - d)) in *. set (b := Z.max 0 (d - 53)) in *.
  assert (0 < 2 ^ a) by (apply Z.pow_pos_nonneg; lia). assert (0 < 2 ^ b) by (apply Z.pow_pos_nonneg; lia).
  assert (HL : 2 ^ b * 2 ^ 52 = 2 ^ (d - 1) * 2 ^ a) by (rewrite <- !Z.pow_add_r by lia; f_equal; lia).
  assert (HU : 2 ^ b * 2 ^ 53 = 2 ^ d * 2 ^ a) by (rewrite <- !Z.pow_add_r by lia; f_equal; lia).
  assert (2 ^ 52 <= z * 2 ^ a / 2 ^ b) by (apply Z.div_le_lower_bound; nia).
  assert (z * 2 ^ a / 2 ^ b < 2 ^ 53) by (apply Z.div_lt_upper_bound; nia). lia.
Qed.

Lemma f_of_Z_canonical z : 0 <= z < 2 ^ 64 -> canonical (f_of_Z z).
Proof.
  intros Hz. destruct (Z.eq_dec z 0) as [->|]; [done|]. rewrite f_of_Z_form by lia. apply carried_canonical.
  - pose proof (Zdigits2_nonneg z). lia.
  - left. apply int_mantissa_bounds. lia.
Qed.

(** The number of [z]: a positive mantissa of 53 bits. *)
Lemma f_of_Z_finite z : 0 < z < 2 ^ 64 ->
  exists m e, f_of_Z z = S754_finite false m e /\
    ((e = Zdigits2 z - 53 /\ Zpos m = int_mantissa z /\ Zpos m < 2 ^ 53) \/ (e = Zdigits2 z - 52 /\ Zpos m = 2 ^ 52 /\ int_mantissa z = 2 ^ 53)).
Proof.
  intros Hz. rewrite f_of_Z_form by done. pose proof (int_mantissa_bounds z Hz). pose proof (Zdigits2_le z 64 ltac:(lia) ltac:(lia)).
  pose proof (Zdigits2_nonneg z). destruct (Z.eq_dec (int_mantissa z) (2 ^ 53)) as [E|].
  - rewrite E, carried_carry by lia. eexists _, _. split; [done|]. right. split; [lia|]. done.
  - rewrite carried_plain by lia. eexists _, _. split; [done|]. left. split; [done|]. rewrite Z2Pos.id by lia. lia.
Qed.

Lemma f_of_Z_mono a b : 0 <= a <= b -> b < 2 ^ 64 -> f_le (f_of_Z a) (f_of_Z b) = true.
Proof.
  intros Ha Hb. destruct (Z.eq_dec b 0) as [->|]; [by replace a with 0 by lia|].
  destruct (f_of_Z_finite b ltac:(lia)) as (mb & eb & Eb & Hmb). destruct (Z.eq_dec a 0) as [->|]; [by rewrite Eb|].
  destruct (f_of_Z_finite a ltac:(lia)) as (ma & ea & Ea & Hma). rewrite Ea, Eb. apply f_le_finite.
  pose proof (int_mantissa_bounds a ltac:(lia)). pose proof (int_mantissa_bounds b ltac:(lia)).
  pose proof (Zdigits2_bounds b ltac:(lia)) as [_ Ub].
  assert (Hd : Zdigits2 a <= Zdigits2 b) by (apply Zdigits2_le; [lia|apply Zdigits2_nonneg]).
  destruct (Z.eq_dec (Zdigits2 a) (Zdigits2 b)) as [E|]; [|lia].
  assert (Hi : int_mantissa a <= int_mantissa b).
  { unfold int_mantissa. rewrite E. apply nearest_mono; [apply Z.pow_pos_nonneg; lia|]. apply Z.mul_le_mono_nonneg_r; [apply Z.pow_nonneg|]; lia. }
  lia.
Qed.

(** [float64(a) / float64(b)] of [a <= b] is a ratio. *)
Lemma f_div_of_Z a b : 0 <= a <= b -> 0 < b < 2 ^ 64 -> in_unit (f_div (f_of_Z a) (f_of_Z b)).
Proof.
  intros Ha Hb. destruct (f_of_Z_finite b ltac:(lia)) as (m & e & E & _). apply f_div_unit.
  - apply f_of_Z_canonical. lia.
  - apply f_of_Z_canonical. lia.
  - apply (f_of_Z_mono 0 a); lia.
  - by rewrite E.
  - apply f_of_Z_mono; lia.
  - by rewrite E.
Qed.

(** ** Maxima *)

(** The numbers of the unit interval. *)
Lemma in_unit_cases x : in_unit x -> (exists s, x = S754_zero s) \/ exists m e, x = S754_finite false m e.
Proof. intros [H1 H2]. destruct x as [s|[]| |[] m e]; try discriminate; eauto. Qed.

Lemma in_unit_refl x : in_unit x -> f_le x x = true.
Proof. intros [[s ->]|(m & e & ->)]%in_unit_cases; [done|]. apply f_le_finite. lia. Qed.

Lemma in_unit_trans x y z : in_unit x -> in_unit y -> in_unit z -> f_le x y = true -> f_le y z = true -> f_le x z = true.
Proof.
  intros [[s ->]|(m & e & ->)]%in_unit_cases [[s' ->]|(m' & e' & ->)]%in_unit_cases [[s'' ->]|(m'' & e'' & ->)]%in_unit_cases; try done.
  rewrite !f_le_finite. lia.
Qed.

Lemma in_unit_not_lt x y : in_unit x -> in_unit y -> f_lt x y = false -> f_le y x = true.
Proof.
  intros [[s ->]|(m & e & ->)]%in_unit_cases [[s' ->]|(m' & e' & ->)]%in_unit_cases; try done. apply not_lt_finite.
Qed.

Lemma in_unit_lt_le x y : f_lt x y = true -> f_le x y = true.
Proof. unfold f_lt, f_le, SFltb, SFleb. by destruct (SFcompare x y) as [[]|]. Qed.

(** [x] is a largest number of [l]. *)
Definition peak_of (l : list float64) (x : float64) : Prop := x ∈ l /\ forall y, y ∈ l -> f_le y x = true.

Lemma peak_of_unit l x : Forall in_unit l -> peak_of l x -> in_unit x.
Proof. intros Hl [Hx _]. rewrite Forall_forall in Hl. auto. Qed.

Lemma peak_of_one x : in_unit x -> peak_of [x] x.
Proof. intros Hx. split; [constructor|]. intros y ->%list_elem_of_singleton. by apply in_unit_refl. Qed.

Lemma peak_of_app l l' x y :
  Forall in_unit l -> Forall in_unit l' -> peak_of l x -> peak_of l' y -> peak_of (l ++ l') (f_max x y).
Proof.
  intros Hl Hl' Px Py. pose proof (peak_of_unit _ _ Hl Px) as Ux. pose proof (peak_of_unit _ _ Hl' Py) as Uy.
  destruct Px as [Hx Mx], Py as [Hy My]. rewrite Forall_forall in Hl, Hl'. unfold f_max. destruct (f_lt x y) eqn:E.
  - split; [apply elem_of_app; by right|]. intros z [Hz|Hz]%elem_of_app; [|auto]. apply (in_unit_trans z x y); auto using in_unit_lt_le.
  - split; [apply elem_of_app; by left|]. intros z [Hz|Hz]%elem_of_app; [auto|]. apply (in_unit_trans z y x); auto using in_unit_not_lt.
Qed.

Lemma peak_of_perm l l' x : l ≡ₚ l' -> peak_of l x -> peak_of l' x.
Proof. intros HP [Hx Mx]. split; [by rewrite <- HP|]. intros y Hy. apply Mx. by rewrite HP. Qed.

(** The aggregate over a list. *)
Definition f_maximum (first : float64) (rest : list float64) : float64 := fold_left f_max rest first.

Lemma f_maximum_peak rest : forall first, Forall in_unit (first :: rest) -> peak_of (first :: rest) (f_maximum first rest).
Proof.
  induction rest as [|y rest IH] using rev_ind; intros first H; [apply Forall_cons in H as [H _]; by apply peak_of_one|].
  unfold f_maximum. rewrite fold_left_app. simpl. change (first :: rest ++ [y]) with ((first :: rest) ++ [y]) in *.
  apply Forall_app in H as [H1 H2]. apply peak_of_app; [done|done|by apply IH|]. apply peak_of_one. by apply Forall_cons in H2 as [? _].
Qed.
