(* ===== verification/Metrics.v ===== *)
(** * The resource metrics of the store

    [internal/control/sqlite/resources.go] with its records of
    [internal/control/model.go]: raw samples of the host, one summary per
    operation that every sample updates, minute rollups into which old samples
    are compacted, and their readers.  A sample also appends to the change
    feed.  The summation of SQLite ([SUM]) is a parameter: its result depends on
    the order and the algorithm of the library. *)
From S2P Require Import Prelude Model GoMonad GoLib GoStrings Encoding Table Schema JobStore Float64.

(** ** Data *)

Record ResourceScope := mkScope { sc_ProjectID : string; sc_OperationKind : string; sc_OperationID : string }.
Definition zero_scope : ResourceScope := mkScope "" "" "".
#[export] Instance scope_eq_dec : EqDecision ResourceScope.
Proof. solve_decision. Defined.

Record ResourceSample := mkSample {
  rs_Scope : ResourceScope; rs_ObservedAt : time;
  rs_CPUUtilization : float64; rs_CPUCores : Z; rs_MemoryUtilization : float64;
  rs_MemoryUsageBytes : Z; rs_MemoryTotalBytes : Z; rs_DiskUsageBytes : Z; rs_DiskTotalBytes : Z;
  rs_DiskInodesUsed : Z; rs_DiskInodesTotal : Z;
  rs_CPUPressure : float64; rs_MemoryPressure : float64; rs_MemoryFullPressure : float64;
  rs_IOPressure : float64; rs_IOFullPressure : float64;
  rs_MemoryHighEvents : Z; rs_OOMEvents : Z; rs_OOMKills : Z; rs_PIDsCurrent : Z; rs_PIDsLimit : Z
}.

Record ResourceFilter := mkFilter {
  rf_ProjectID : string; rf_OperationKind : string; rf_OperationID : string; rf_From : time; rf_To : time
}.

Record ResourceSummary := mkSummary {
  sm_Scope : ResourceScope; sm_SampleCount : Z; sm_ObservedStartedAt : time; sm_ObservedFinishedAt : time;
  sm_CPUAverage : float64; sm_CPUPeak : float64; sm_MemoryAverage : float64; sm_MemoryPeak : float64; sm_MemoryBytesPeak : Z
}.

Record ResourceRollup := mkRollup {
  ru_Scope : ResourceScope; ru_BucketAt : time; ru_SampleCount : Z;
  ru_CPUAverage : float64; ru_CPUPeak : float64; ru_MemoryAverage : float64; ru_MemoryPeak : float64;
  ru_MemoryBytesPeak : Z; ru_DiskUsageBytes : Z; ru_DiskTotalBytes : Z; ru_CPUCores : Z
}.

(** ** Tables *)

(** A row of [resource_samples]: its key, [observed_at], and the other columns,
    which are the fields of the sample. *)
Record SampleRow := mkSampleRow { sr_id : Z; sr_observed_at : Z; sr_sample : ResourceSample }.

Record SummaryRow := mkSummaryRow {
  sm_operation_kind : string; sm_operation_id : string; sm_project_id : string; sm_sample_count : Z;
  sm_observed_started_at : Z; sm_observed_finished_at : Z;
  sm_cpu_sum : float64; sm_cpu_peak : float64; sm_memory_sum : float64; sm_memory_peak : float64; sm_memory_bytes_peak : Z
}.

Record RollupRow := mkRollupRow {
  ru_bucket_at : Z; ru_scope : ResourceScope; ru_sample_count : Z;
  ru_cpu_sum : float64; ru_cpu_peak : float64; ru_memory_sum : float64; ru_memory_peak : float64;
  ru_memory_bytes_peak : Z; ru_disk_usage_bytes : Z; ru_disk_total_bytes : Z; ru_cpu_cores : Z
}.

Record Metrics := mkMetrics {
  resource_samples : list SampleRow; sample_seq : Z;
  resource_minute_rollups : list RollupRow; resource_operation_summaries : list SummaryRow
}.
Definition empty_metrics : Metrics := mkMetrics [] 0 [] [].

(** The database of the store with the tables of the metrics. *)
Record MetricsDB := mkMetricsDB { md_store : Database; md_metrics : Metrics }.
Definition on_metrics (f : Metrics -> Metrics) (d : MetricsDB) : MetricsDB := mkMetricsDB (md_store d) (f (md_metrics d)).

Abbreviation MetricsM := (M MetricsDB).

Definition minuteNanoseconds : Z := 60 * Second.

(** [INSERT ... ON CONFLICT(key) DO UPDATE]: the row with the key is merged with
    the new one, or the new one is added. *)
Definition upsert {R K : Type} `{EqDecision K} (key : R -> K) (merge : R -> R -> R) (r : R) (rows : list R) : list R :=
  let same := fun x => bool_decide (key x = key r) in
  if existsb same rows then update_where same (fun x => merge x r) rows else rows ++ [r].

(** ** Validation *)

Definition validRatio (value : float64) : bool :=
  negb (IsNaN value) && negb (IsInf value) && f_le f_zero value && f_le value f_one.

Definition is_empty (s : string) : bool := bool_decide (s = "").

Definition validateResourceSample (sample : ResourceSample) : option Err :=
  let scope := rs_Scope sample in
  if (rs_ObservedAt sample =? zero_time) || (rs_CPUCores sample <? 1) || (rs_MemoryTotalBytes sample =? 0)
     || (rs_MemoryTotalBytes sample <? rs_MemoryUsageBytes sample) || (rs_DiskTotalBytes sample <? rs_DiskUsageBytes sample)
     || (rs_DiskInodesTotal sample <? rs_DiskInodesUsed sample)
  then Some (ErrText "resource sample capacities and observation time are invalid")
  else if negb (validRatio (rs_CPUUtilization sample)) || negb (validRatio (rs_MemoryUtilization sample))
     || negb (validRatio (rs_CPUPressure sample)) || negb (validRatio (rs_MemoryPressure sample))
     || negb (validRatio (rs_MemoryFullPressure sample)) || negb (validRatio (rs_IOPressure sample))
     || negb (validRatio (rs_IOFullPressure sample))
  then Some (ErrText "resource utilization must be between zero and one")
  else if xorb (is_empty (sc_OperationID scope)) (is_empty (sc_OperationKind scope))
     || (negb (is_empty (sc_OperationID scope)) && is_empty (sc_ProjectID scope))
  then Some (ErrText "resource operation scope is incomplete")
  else None.

(** The [uint64] columns of a sample; [database/sql] refuses an argument with
    the high bit set. *)
Definition uint64_columns (sample : ResourceSample) : list Z :=
  [rs_MemoryUsageBytes sample; rs_MemoryTotalBytes sample; rs_DiskUsageBytes sample; rs_DiskTotalBytes sample;
   rs_DiskInodesUsed sample; rs_DiskInodesTotal sample; rs_MemoryHighEvents sample; rs_OOMEvents sample;
   rs_OOMKills sample; rs_PIDsCurrent sample; rs_PIDsLimit sample].
Definition convertible (sample : ResourceSample) : bool := forallb (fun v => v <? 2 ^ 63) (uint64_columns sample).
Definition ErrHighBit : Err := ErrText "uint64 values with high bit set are not supported".

(** ** Recording a sample *)

(** The row of a first sample, and its merge into an existing row. *)
Definition summary_of (sample : ResourceSample) : SummaryRow :=
  let at_ := unix (rs_ObservedAt sample) in
  mkSummaryRow (sc_OperationKind (rs_Scope sample)) (sc_OperationID (rs_Scope sample)) (sc_ProjectID (rs_Scope sample)) 1 at_ at_
    (rs_CPUUtilization sample) (rs_CPUUtilization sample) (rs_MemoryUtilization sample) (rs_MemoryUtilization sample)
    (rs_MemoryUsageBytes sample).
Definition merge_summary (row excluded : SummaryRow) : SummaryRow :=
  mkSummaryRow (sm_operation_kind row) (sm_operation_id row) (sm_project_id excluded) (sm_sample_count row + 1)
    (Z.min (sm_observed_started_at row) (sm_observed_started_at excluded))
    (Z.max (sm_observed_finished_at row) (sm_observed_finished_at excluded))
    (f_add (sm_cpu_sum row) (sm_cpu_sum excluded)) (f_max (sm_cpu_peak row) (sm_cpu_peak excluded))
    (f_add (sm_memory_sum row) (sm_memory_sum excluded)) (f_max (sm_memory_peak row) (sm_memory_peak excluded))
    (Z.max (sm_memory_bytes_peak row) (sm_memory_bytes_peak excluded)).
Definition sm_key (r : SummaryRow) : string * string := (sm_operation_kind r, sm_operation_id r).

Definition add_sample (sample : ResourceSample) (m : Metrics) : Metrics :=
  let id := sample_seq m + 1 in
  mkMetrics (resource_samples m ++ [mkSampleRow id (unix (rs_ObservedAt sample)) sample]) id
    (resource_minute_rollups m) (resource_operation_summaries m).
Definition add_summary (sample : ResourceSample) (m : Metrics) : Metrics :=
  mkMetrics (resource_samples m) (sample_seq m) (resource_minute_rollups m)
    (upsert sm_key merge_summary (summary_of sample) (resource_operation_summaries m)).

(** [INSERT INTO control_changes] followed by its retention trigger; a [NULL]
    project reads as the empty string. *)
Definition insert_change (created : Z) (project kind id : string) (f : Feed) : Feed :=
  let seq := fd_seq f + 1 in
  mkFeed (select (retained seq) (fd_rows f ++ [mkChange seq project kind id (fromUnix created)])) seq.
Definition add_change (created : Z) (project kind id : string) (d : MetricsDB) : MetricsDB :=
  mkMetricsDB (mkDB (tabs (md_store d)) (insert_change created project kind id (feed (md_store d)))) (md_metrics d).

Definition exec_metrics (f : Metrics -> Metrics) : MetricsM unit := statement (fun d => Ok (tt, on_metrics f d)).

Definition entity_of (sample : ResourceSample) : string :=
  let scope := rs_Scope sample in
  if is_empty (sc_OperationID scope) then Itoa (unix (rs_ObservedAt sample))
  else sc_OperationKind scope +:+ ":" +:+ sc_OperationID scope.

Definition AppendResourceSample (sample : ResourceSample) : MetricsM unit :=
  match validateResourceSample sample with
  | Some e => throw e
  | None =>
      transaction (
        _ ← (if convertible sample then exec_metrics (add_sample sample) else throw ErrHighBit);
        _ ← (if is_empty (sc_OperationID (rs_Scope sample)) then mret tt else exec_metrics (add_summary sample));
        _ ← statement (fun d => Ok (tt, add_change (unix (rs_ObservedAt sample)) (sc_ProjectID (rs_Scope sample))
               "resource-sample" (entity_of sample) d));
        mret (Commit tt))
  end.

(** ** The scope of the running operation *)

(** [COALESCE(j.project_id,b.project_id,'')] over the two outer joins. *)
Definition active_scope (d : MetricsDB) : option ResourceScope :=
  let t := tabs (md_store d) in
  q ← head (select (fun q => bool_decide (q_state q = OperationActive)) (control_queue t));
  Some (mkScope (queue_project t q) (kind_text (q_kind q)) (q_operation_id q)).

(** The scope and whether there is one; no row is not an error. *)
Definition ActiveResourceScope : MetricsM (ResourceScope * bool) :=
  r ← attempt (query_row active_scope);
  match r with
  | Ok scope => mret (scope, true)
  | Fail ErrNoRows => mret (zero_scope, false)
  | Fail e => throw e
  end.

(** ** Compaction *)

(** What the aggregates of a group return; [SUM] of the library is a parameter. *)
Class SqlAggregates := { sql_sum : list float64 -> float64 }.

Definition bucket_of (observed : Z) : Z := Z.quot observed minuteNanoseconds * minuteNanoseconds.

(** The group of a row, [(observed_at/?),project_id,operation_kind,operation_id]. *)
Definition group_of (r : SampleRow) : Z * ResourceScope := (bucket_of (sr_observed_at r), rs_Scope (sr_sample r)).
Definition ru_key (r : RollupRow) : Z * ResourceScope := (ru_bucket_at r, ru_scope r).

(** [MAX] of a column of a group, which is not empty. *)
Definition z_maximum (l : list Z) : Z := fold_right Z.max (hd 0 l) l.
Definition float_maximum (l : list float64) : float64 := match l with [] => f_zero | x :: rest => f_maximum x rest end.

Section Compact.
Context `{SqlAggregates}.

Definition rollup_of (group : Z * ResourceScope) (rows : list SampleRow) : RollupRow :=
  let column {A} (f : ResourceSample -> A) := map (fun r => f (sr_sample r)) rows in
  mkRollupRow group.1 group.2 (Z.of_nat (length rows))
    (sql_sum (column rs_CPUUtilization)) (float_maximum (column rs_CPUUtilization))
    (sql_sum (column rs_MemoryUtilization)) (float_maximum (column rs_MemoryUtilization))
    (z_maximum (column rs_MemoryUsageBytes)) (z_maximum (column rs_DiskUsageBytes)) (z_maximum (column rs_DiskTotalBytes))
    (z_maximum (column rs_CPUCores)).

Definition merge_rollup (row excluded : RollupRow) : RollupRow :=
  mkRollupRow (ru_bucket_at row) (ru_scope row) (ru_sample_count row + ru_sample_count excluded)
    (f_add (ru_cpu_sum row) (ru_cpu_sum excluded)) (f_max (ru_cpu_peak row) (ru_cpu_peak excluded))
    (f_add (ru_memory_sum row) (ru_memory_sum excluded)) (f_max (ru_memory_peak row) (ru_memory_peak excluded))
    (Z.max (ru_memory_bytes_peak row) (ru_memory_bytes_peak excluded))
    (ru_disk_usage_bytes excluded) (ru_disk_total_bytes excluded) (ru_cpu_cores excluded).

(** [SELECT ... WHERE observed_at<? GROUP BY ...], in the order the groups
    first occur. *)
Definition grouped (rows : list SampleRow) : list RollupRow :=
  map (fun g => rollup_of g (select (fun r => bool_decide (group_of r = g)) rows)) (remove_dups (map group_of rows)).

Definition older_than (before : Z) (r : SampleRow) : bool := sr_observed_at r <? before.

Definition roll_up (before : Z) (m : Metrics) : Metrics :=
  mkMetrics (resource_samples m) (sample_seq m)
    (fold_left (fun rollups r => upsert ru_key merge_rollup r rollups) (grouped (select (older_than before) (resource_samples m)))
       (resource_minute_rollups m))
    (resource_operation_summaries m).
Definition drop_samples (before : Z) (m : Metrics) : Metrics :=
  mkMetrics (delete_where (older_than before) (resource_samples m)) (sample_seq m)
    (resource_minute_rollups m) (resource_operation_summaries m).
Definition drop_rollups (before : Z) (m : Metrics) : Metrics :=
  mkMetrics (resource_samples m) (sample_seq m)
    (delete_where (fun r => ru_bucket_at r <? before) (resource_minute_rollups m)) (resource_operation_summaries m).

Definition CompactResourceSamples (rawBefore rollupBefore : time) : MetricsM unit :=
  if (rawBefore =? zero_time) || (rollupBefore =? zero_time) || negb (rollupBefore <? rawBefore)
  then throw (ErrText "resource retention boundaries are invalid")
  else transaction (
    _ ← exec_metrics (roll_up (unix rawBefore));
    _ ← exec_metrics (drop_samples (unix rawBefore));
    _ ← exec_metrics (drop_rollups (unix rollupBefore));
    mret (Commit tt)).

End Compact.

(** ** Readers *)

(** The conditions that the fields of a filter contribute; an empty field
    contributes none. *)
Definition resourceWhere {R : Type} (filter : ResourceFilter) (scope : R -> ResourceScope) (timeColumn : R -> Z) : list (R -> bool) :=
  (if is_empty (rf_ProjectID filter) then [] else [fun r => bool_decide (sc_ProjectID (scope r) = rf_ProjectID filter)])
  ++ (if is_empty (rf_OperationKind filter) then [] else [fun r => bool_decide (sc_OperationKind (scope r) = rf_OperationKind filter)])
  ++ (if is_empty (rf_OperationID filter) then [] else [fun r => bool_decide (sc_OperationID (scope r) = rf_OperationID filter)])
  ++ (if rf_From filter =? zero_time then [] else [fun r => unix (rf_From filter) <=? timeColumn r])
  ++ (if rf_To filter =? zero_time then [] else [fun r => timeColumn r <=? unix (rf_To filter)]).
(** [strings.Join(clauses, " AND ")]. *)
Definition where_all {R : Type} (clauses : list (R -> bool)) (r : R) : bool := forallb (fun c => c r) clauses.

Definition at_time (t : time) (s : ResourceSample) : ResourceSample :=
  mkSample (rs_Scope s) t (rs_CPUUtilization s) (rs_CPUCores s) (rs_MemoryUtilization s) (rs_MemoryUsageBytes s)
    (rs_MemoryTotalBytes s) (rs_DiskUsageBytes s) (rs_DiskTotalBytes s) (rs_DiskInodesUsed s) (rs_DiskInodesTotal s)
    (rs_CPUPressure s) (rs_MemoryPressure s) (rs_MemoryFullPressure s) (rs_IOPressure s) (rs_IOFullPressure s)
    (rs_MemoryHighEvents s) (rs_OOMEvents s) (rs_OOMKills s) (rs_PIDsCurrent s) (rs_PIDsLimit s).
Definition scan_sample (r : SampleRow) : ResourceSample := at_time (fromUnix (sr_observed_at r)) (sr_sample r).

(** The loop that reverses a slice in place: [left] and [right] move towards
    each other. *)
Fixpoint swap_ends {A : Type} (fuel left right : nat) (l : list A) : list A :=
  match fuel with
  | O => l
  | S fuel' =>
      if (left <? right)%nat then
        match l !! left, l !! right with
        | Some a, Some b => swap_ends fuel' (S left) (Nat.pred right) (<[right := a]> (<[left := b]> l))
        | _, _ => l
        end
      else l
  end.
Definition reverse_in_place {A : Type} (l : list A) : list A := swap_ends (length l) 0 (Nat.pred (length l)) l.

Definition limit_error (what : string) : Err := ErrText ("resource " +:+ what +:+ " limit must be between 1 and 5000").

(** [ORDER BY observed_at DESC,id DESC]. *)
Definition newer_sample (a b : SampleRow) : bool :=
  (sr_observed_at b <? sr_observed_at a) || ((sr_observed_at a =? sr_observed_at b) && (sr_id b <=? sr_id a)).

Definition ListResourceSamples (filter : ResourceFilter) (limit : Z) : MetricsM (list ResourceSample) :=
  if (limit <? 1) || (5000 <? limit) then throw (limit_error "sample") else
  reversed ← query (fun d => map scan_sample (take (Z.to_nat limit) (order_by newer_sample
    (select (where_all (resourceWhere filter (fun r => rs_Scope (sr_sample r)) sr_observed_at)) (resource_samples (md_metrics d))))));
  mret (reverse_in_place reversed).

Definition scan_rollup (r : RollupRow) : ResourceRollup :=
  mkRollup (ru_scope r) (fromUnix (ru_bucket_at r)) (ru_sample_count r)
    (f_div (ru_cpu_sum r) (f_of_Z (ru_sample_count r))) (ru_cpu_peak r)
    (f_div (ru_memory_sum r) (f_of_Z (ru_sample_count r))) (ru_memory_peak r)
    (wrapu64 (ru_memory_bytes_peak r)) (ru_disk_usage_bytes r) (ru_disk_total_bytes r) (ru_cpu_cores r).

(** Buckets of the same minute come in table order. *)
Definition ListResourceRollups (filter : ResourceFilter) (limit : Z) : MetricsM (list ResourceRollup) :=
  if (limit <? 1) || (5000 <? limit) then throw (limit_error "rollup") else
  query (fun d => map scan_rollup (take (Z.to_nat limit) (order_by (fun a b => ru_bucket_at b <=? ru_bucket_at a)
    (select (where_all (resourceWhere filter ru_scope ru_bucket_at)) (resource_minute_rollups (md_metrics d)))))).

Definition scan_summary (r : SummaryRow) : ResourceSummary :=
  mkSummary (mkScope (sm_project_id r) (sm_operation_kind r) (sm_operation_id r)) (sm_sample_count r)
    (fromUnix (sm_observed_started_at r)) (fromUnix (sm_observed_finished_at r))
    (f_div (sm_cpu_sum r) (f_of_Z (sm_sample_count r))) (sm_cpu_peak r)
    (f_div (sm_memory_sum r) (f_of_Z (sm_sample_count r))) (sm_memory_peak r) (wrapu64 (sm_memory_bytes_peak r)).

Definition find_summary (kind id : string) (m : Metrics) : option SummaryRow :=
  head (select (fun r => bool_decide (sm_key r = (kind, id))) (resource_operation_summaries m)).

Definition getResourceSummary (filter : ResourceFilter) : MetricsM ResourceSummary :=
  if is_empty (rf_OperationKind filter) || is_empty (rf_OperationID filter)
  then throw (ErrText "resource summary requires an operation")
  else
    r ← attempt (query_row (fun d => find_summary (rf_OperationKind filter) (rf_OperationID filter) (md_metrics d)));
    match r with
    | Ok row => mret (scan_summary row)
    | Fail ErrNoRows => throw ErrNotFound
    | Fail e => throw e
    end.

(** Summaries that finished at the same time come in table order. *)
Definition ListResourceSummaries (projectID : string) (limit : Z) : MetricsM (list ResourceSummary) :=
  if (limit <? 1) || (5000 <? limit) then throw (limit_error "summary") else
  query (fun d => map scan_summary (take (Z.to_nat limit) (order_by (fun a b => sm_observed_finished_at b <=? sm_observed_finished_at a)
    (select (fun r => is_empty projectID || bool_decide (sm_project_id r = projectID)) (resource_operation_summaries (md_metrics d)))))).

(** ** Migration *)

(** The columns of [resource_samples] that later versions added. *)
Definition added_columns : list (string * string) :=
  [("disk_inodes_used", "INTEGER"); ("disk_inodes_total", "INTEGER"); ("cpu_pressure", "REAL"); ("memory_pressure", "REAL");
   ("memory_full_pressure", "REAL"); ("io_pressure", "REAL"); ("io_full_pressure", "REAL"); ("memory_high_events", "INTEGER");
   ("oom_events", "INTEGER"); ("oom_kills", "INTEGER"); ("pids_current", "INTEGER"); ("pids_limit", "INTEGER")].
Definition first_columns : list string :=
  ["id"; "observed_at"; "project_id"; "operation_kind"; "operation_id"; "cpu_utilization"; "cpu_cores"; "memory_utilization";
   "memory_usage_bytes"; "memory_total_bytes"; "disk_usage_bytes"; "disk_total_bytes"].

(** The kind that the map of allowed columns gives; a missing key is empty. *)
Definition allowed_kind (column : string) : string :=
  default "" (snd <$> List.find (fun c => bool_decide (c.1 = column)) added_columns).

(** On the columns of an existing table: each is added once. *)
Definition ensureResourceSampleColumn (column kind fallback : string) : M (list string) unit :=
  if negb (bool_decide (allowed_kind column = kind)) || negb (bool_decide (fallback = "0"))
  then throw (ErrText "unsupported resource sample migration column")
  else
    columns ← query (fun columns => columns);
    if existsb (fun name => bool_decide (name = column)) columns then mret tt
    else statement (fun columns => Ok (tt, columns ++ [column])).

Fixpoint ensure_columns (columns : list (string * string)) : M (list string) unit :=
  match columns with
  | [] => mret tt
  | (name, kind) :: rest => _ ← ensureResourceSampleColumn name kind "0"; ensure_columns rest
  end.

(** [CREATE TABLE IF NOT EXISTS] creates the table with every column, then each
    later column is ensured; an absent table has no columns. *)
Definition migrateResourceMetrics : M (list string) unit :=
  _ ← statement (fun columns => Ok (tt, if bool_decide (columns = []) then first_columns ++ map fst added_columns else columns));
  ensure_columns added_columns.

(** The columns that later versions added to the other tables.  A catalog lists
    the columns of every table with their defaults, in order. *)
Record ColumnInfo := mkColumn { co_table : string; co_name : string; co_default : string }.
#[export] Instance column_info_eq_dec : EqDecision ColumnInfo.
Proof. solve_decision. Defined.

Definition text_migrations : list (string * string) :=
  [("control_jobs", "idempotency_key"); ("control_jobs", "request_hash"); ("control_jobs", "caches_json"); ("control_jobs", "secrets_json");
   ("control_builds", "idempotency_key"); ("control_builds", "request_hash"); ("projects", "active_image"); ("projects", "previous_image");
   ("control_queue", "cleanup_error"); ("operation_resource_baselines", "services_json")].

Definition allowed_text : list string :=
  ["control_jobs.idempotency_key"; "control_jobs.request_hash"; "control_jobs.caches_json"; "control_jobs.secrets_json";
   "control_builds.idempotency_key"; "control_builds.request_hash"; "projects.active_image"; "projects.previous_image";
   "control_queue.cleanup_error"; "operation_resource_baselines.services_json"].
Definition allowed_integer : list (string * Z) :=
  [("projects.allow_image_overrides", 1); ("control_queue.cleanup_attempts", 0); ("control_queue.cleanup_updated_at", 0)].

Definition text_default (table column : string) : string :=
  if (bool_decide (table = "control_jobs") && (bool_decide (column = "caches_json") || bool_decide (column = "secrets_json")))
     || (bool_decide (table = "operation_resource_baselines") && bool_decide (column = "services_json"))
  then "'[]'" else "''".

Definition has_column (table column : string) (catalog : list ColumnInfo) : bool :=
  existsb (fun c => bool_decide (co_table c = table) && bool_decide (co_name c = column)) catalog.

(** [ALTER TABLE] of a table that exists. *)
Definition alter_table (table column value : string) : M (list ColumnInfo) unit :=
  statement (fun catalog => if existsb (fun c => bool_decide (co_table c = table)) catalog then Ok (tt, catalog ++ [mkColumn table column value])
                            else Fail (ErrText "no such table")).

Definition ensure_column (table column value : string) : M (list ColumnInfo) unit :=
  found ← query (has_column table column);
  if found : bool then mret tt else alter_table table column value.

Definition ensureTextColumn (table column : string) : M (list ColumnInfo) unit :=
  if negb (bool_decide (table +:+ "." +:+ column ∈ allowed_text)) then throw (ErrText "unsupported migration column")
  else ensure_column table column (text_default table column).

Definition ensureIntegerColumn (table column : string) (defaultValue : Z) : M (list ColumnInfo) unit :=
  if negb (bool_decide ((table +:+ "." +:+ column, defaultValue) ∈ allowed_integer)) then throw (ErrText "unsupported integer migration column")
  else ensure_column table column (if defaultValue =? 0 then "0" else "1").

Fixpoint ensure_text_columns (columns : list (string * string)) : M (list ColumnInfo) unit :=
  match columns with
  | [] => mret tt
  | (table, name) :: rest => _ ← ensureTextColumn table name; ensure_text_columns rest
  end.

Definition migrate_columns : M (list ColumnInfo) unit :=
  _ ← ensure_text_columns text_migrations;
  _ ← ensureIntegerColumn "projects" "allow_image_overrides" 1;
  _ ← ensureIntegerColumn "control_queue" "cleanup_attempts" 0;
  ensureIntegerColumn "control_queue" "cleanup_updated_at" 0.
