(* ===== verification/MetricsTheorems.v ===== *)
(** * What the resource metrics keep

    [recorded] are the databases that appends and compactions can produce, with
    the samples they accepted and the cutoffs of the rollups.  In each of them a
    summary is the aggregate of all the samples of its operation, and no sample
    is lost or counted twice: it is still there, counted in the rollup of its
    minute, or older than a cutoff. *)
From S2P Require Import Prelude Model GoMonad GoLib GoStrings Encoding Table Schema JobStore Float64 Metrics.

(** ** Tables with upserts *)

Section Upsert.
Context {R K : Type} `{EqDecision K} (key : R -> K) (merge : R -> R -> R).
Context (merge_key : forall x r, key r = key x -> key (merge x r) = key x).

(** The row with a key. *)
Definition row_at (k : K) (rows : list R) : option R := head (select (fun x => bool_decide (key x = k)) rows).

Lemma upsert_row_at r rows k :
  row_at k (upsert key merge r rows) =
  if bool_decide (key r = k) then Some (match row_at k rows with Some x => merge x r | None => r end) else row_at k rows.
Proof using merge_key.
  unfold upsert, row_at. set (same := fun x => bool_decide (key x = key r)). destruct (existsb same rows) eqn:Ex.
  - apply existsb_exists in Ex as (y & Hy & Es). induction rows as [|x rows IH]; [done|]. simpl.
    destruct (decide (key x = key r)) as [Exr|Nxr].
    + assert (same x = true) as -> by (by apply bool_decide_eq_true). rewrite (merge_key x r) by done. rewrite Exr.
      case_bool_decide as Ek; [done|]. clear IH Hy. induction rows as [|z rows IH2]; [done|]. simpl. destruct (same z) eqn:Ez; split_bools.
      * unfold same in Ez. split_bools. rewrite merge_key, Ez by done. by rewrite (bool_decide_eq_false_2 _ Ek).
      * case_bool_decide; [done|exact IH2].
    + assert (same x = false) as -> by (by apply bool_decide_eq_false).
      destruct Hy as [<-|Hy]; [unfold same in Es; case_bool_decide; congruence|].
      specialize (IH Hy). destruct (bool_decide (key x = k)) eqn:Ex; [|exact IH]. split_bools. simpl.
      by rewrite bool_decide_eq_false_2 by congruence.
  - rewrite select_app. simpl. destruct (decide (key r = k)) as [<-|Ne].
    + rewrite bool_decide_eq_true_2 by done. assert (select same rows = []) as Hs; [|unfold same in Hs; by rewrite Hs].
      apply nil_length_inv, count_none. intros x Hx. destruct (same x) eqn:E; [|done]. exfalso.
      assert (existsb same rows = true) by (apply existsb_exists; exists x; split; [by apply list_elem_of_In|exact E]). congruence.
    + rewrite !(bool_decide_eq_false_2 _ Ne). by rewrite app_nil_r.
Qed.

Lemma delete_row_at (p : K -> bool) rows k :
  row_at k (delete_where (fun r => p (key r)) rows) = if p k then None else row_at k rows.
Proof using.
  unfold row_at, delete_where, select. induction rows as [|x rows IH]; simpl; [by destruct (p k)|].
  destruct (p (key x)) eqn:Ep; simpl; [rewrite IH; destruct (p k) eqn:Ek; [done|]; rewrite bool_decide_eq_false_2; [done|congruence]|].
  case_bool_decide as E; [simpl; subst k; by rewrite Ep|exact IH].
Qed.

End Upsert.

(** ** Selections by a key *)

Section Groups.
Context {R K : Type} `{EqDecision K} (key : R -> K).

Definition having (k : K) (l : list R) : list R := select (fun r => bool_decide (key r = k)) l.

Lemma having_app k l l' : having k (l ++ l') = having k l ++ having k l'.
Proof. apply select_app. Qed.

Lemma having_perm k l l' : l ≡ₚ l' -> having k l ≡ₚ having k l'.
Proof. apply select_perm. Qed.

Lemma having_all k l : (forall r, r ∈ l -> key r = k) -> having k l = l.
Proof.
  unfold having, select. induction l as [|x l IH]; intros H; [done|]. simpl. rewrite bool_decide_eq_true_2 by (apply H; constructor).
  f_equal. apply IH. intros r Hr. apply H. by constructor.
Qed.

Lemma having_none k l : (forall r, r ∈ l -> key r <> k) -> having k l = [].
Proof. intros H. apply nil_length_inv, count_none. intros r Hr. apply bool_decide_eq_false. auto. Qed.

Lemma elem_of_having k l r : r ∈ having k l <-> r ∈ l /\ key r = k.
Proof. unfold having. rewrite elem_of_select, bool_decide_eq_true. reflexivity. Qed.

Lemma select_split (p : R -> bool) (l : list R) : l ≡ₚ select p l ++ delete_where p l.
Proof.
  unfold select, delete_where. induction l as [|x l IH]; [done|]. simpl. destruct (p x); simpl; [by rewrite <- IH|].
  rewrite <- Permutation_middle. by rewrite <- IH.
Qed.

(** The groups of a list are the list. *)
Lemma groups_perm (ks : list K) (l : list R) :
  NoDup ks -> (forall r, r ∈ l -> key r ∈ ks) -> concat (map (fun k => having k l) ks) ≡ₚ l.
Proof.
  revert l. induction ks as [|k ks IH]; intros l Hnd Hall; simpl.
  { destruct l as [|r l]; [done|]. exfalso. apply (elem_of_nil (key r)). apply Hall. constructor. }
  apply NoDup_cons in Hnd as [Hk Hnd]. 
  etrans; [|symmetry; apply (select_split (fun r => bool_decide (key r = k)) l)]. fold (having k l).
  apply Permutation_app_head. set (rest := delete_where _ l). etrans; [|apply (IH rest); [done|]].
  - apply Permutation_refl'. f_equal. apply List.map_ext_in. intros k' Hk'. apply list_elem_of_In in Hk'.
    unfold having, rest, select, delete_where. clear -Hk Hk'. induction l as [|x l IH]; [done|]. simpl.
    destruct (decide (key x = k)) as [E|E].
    + rewrite (bool_decide_eq_false_2 (key x = k')), (bool_decide_eq_true_2 (key x = k)) by congruence. simpl. exact IH.
    + rewrite (bool_decide_eq_false_2 (key x = k)) by done. simpl. by rewrite IH.
  - intros r Hr. unfold rest, delete_where in Hr. apply list_elem_of_In, List.filter_In in Hr as [Hr Hn]. apply list_elem_of_In in Hr.
    split_bools. specialize (Hall r Hr). apply elem_of_cons in Hall as [?|?]; [congruence|done].
Qed.

End Groups.

(** ** Largest integers *)

Definition max_of (l : list Z) (x : Z) : Prop := x ∈ l /\ forall y, y ∈ l -> y <= x.

Lemma max_of_app l l' x y : max_of l x -> max_of l' y -> max_of (l ++ l') (Z.max x y).
Proof.
  intros [Hx Mx] [Hy My]. split; [|intros z [Hz|Hz]%elem_of_app; [apply Mx in Hz|apply My in Hz]; lia].
  apply elem_of_app. destruct (Z.max_spec x y) as [[_ ->]|[_ ->]]; auto.
Qed.

Lemma max_of_perm l l' x : l ≡ₚ l' -> max_of l x -> max_of l' x.
Proof. intros HP [Hx Mx]. split; [by rewrite <- HP|]. intros y Hy. apply Mx. by rewrite HP. Qed.

Lemma fold_max_bounds d l : d <= fold_right Z.max d l /\ forall y, y ∈ l -> y <= fold_right Z.max d l.
Proof.
  induction l as [|x l [IH1 IH2]]; simpl; [split; [lia|]; intros y Hy; by apply elem_of_nil in Hy|].
  split; [lia|]. intros y [->|Hy]%elem_of_cons; [lia|]. specialize (IH2 y Hy). lia.
Qed.

Lemma fold_max_member d l : fold_right Z.max d l ∈ d :: l.
Proof.
  induction l as [|x l IH]; simpl; [constructor|]. destruct (Z.max_spec x (fold_right Z.max d l)) as [[_ ->]|[_ ->]].
  - apply elem_of_cons in IH as [IH|IH]; apply elem_of_cons; [by left|right; by constructor].
  - apply elem_of_cons. right. constructor.
Qed.

Lemma z_maximum_max l : l <> [] -> max_of l (z_maximum l).
Proof.
  intros Hl. unfold z_maximum. destruct (fold_max_bounds (hd 0 l) l) as [_ Hb]. split; [|exact Hb].
  pose proof (fold_max_member (hd 0 l) l) as H. apply elem_of_cons in H as [->|H]; [|done]. destruct l; [done|]. constructor.
Qed.

Lemma float_maximum_peak l : l <> [] -> Forall in_unit l -> peak_of l (float_maximum l).
Proof. destruct l as [|x rest]; [done|]. intros _. apply f_maximum_peak. Qed.

Lemma validRatio_unit x : validRatio x = true <-> in_unit x.
Proof.
  unfold validRatio, in_unit. rewrite !andb_true_iff. split; [tauto|]. intros [H1 H2]. destruct x as [s|[]| |s m e]; try discriminate; done.
Qed.

(** ** Aggregates of a history *)

Definition sample_op (s : ResourceSample) : string * string := (sc_OperationKind (rs_Scope s), sc_OperationID (rs_Scope s)).
Definition sample_group (s : ResourceSample) : Z * ResourceScope := (bucket_of (unix (rs_ObservedAt s)), rs_Scope s).

(** The summary of the samples [first :: rest] of an operation, computed at once:
    their number, first and last time, sums in the order of arrival and maxima;
    the project is the one of the last. *)
Definition batch_summary (first : ResourceSample) (rest : list ResourceSample) : SummaryRow :=
  let all := first :: rest in
  let times := map (fun s => unix (rs_ObservedAt s)) rest in
  mkSummaryRow (sc_OperationKind (rs_Scope first)) (sc_OperationID (rs_Scope first))
    (sc_ProjectID (rs_Scope (List.last rest first))) (Z.of_nat (length all))
    (fold_left Z.min times (unix (rs_ObservedAt first))) (fold_left Z.max times (unix (rs_ObservedAt first)))
    (fold_left f_add (map rs_CPUUtilization rest) (rs_CPUUtilization first)) (f_maximum (rs_CPUUtilization first) (map rs_CPUUtilization rest))
    (fold_left f_add (map rs_MemoryUtilization rest) (rs_MemoryUtilization first)) (f_maximum (rs_MemoryUtilization first) (map rs_MemoryUtilization rest))
    (fold_left Z.max (map rs_MemoryUsageBytes rest) (rs_MemoryUsageBytes first)).
Definition summarize (op : string * string) (history : list ResourceSample) : option SummaryRow :=
  match having sample_op op history with [] => None | first :: rest => Some (batch_summary first rest) end.

(** [r] counts the samples [l] and has their maxima. *)
Definition describes (r : RollupRow) (l : list ResourceSample) : Prop :=
  ru_sample_count r = Z.of_nat (length l) /\ peak_of (map rs_CPUUtilization l) (ru_cpu_peak r) /\
  peak_of (map rs_MemoryUtilization l) (ru_memory_peak r) /\ max_of (map rs_MemoryUsageBytes l) (ru_memory_bytes_peak r).

(** The rollups describe the samples compacted into them, minute by minute and
    scope by scope. *)
Definition rolled (compacted : list ResourceSample) (rollups : list RollupRow) : Prop :=
  forall g, match row_at ru_key g rollups with
            | None => having sample_group g compacted = []
            | Some r => describes r (having sample_group g compacted)
            end.

Definition valid_sample (s : ResourceSample) : Prop := validateResourceSample s = None.

(** No sample is lost before its minute is older than a cutoff, and none is
    counted twice. *)
Definition conserved (history : list ResourceSample) (cutoffs : list Z) (m : Metrics) : Prop :=
  exists dropped compacted,
    history ≡ₚ dropped ++ compacted ++ map sr_sample (resource_samples m) /\
    Forall (fun s => Exists (fun c => bucket_of (unix (rs_ObservedAt s)) < c) cutoffs) dropped /\
    rolled compacted (resource_minute_rollups m).

Definition well_timed (rows : list SampleRow) : Prop := Forall (fun r => sr_observed_at r = unix (rs_ObservedAt (sr_sample r))) rows.

(** ** Summaries *)

Lemma valid_sample_unit s : valid_sample s -> in_unit (rs_CPUUtilization s) /\ in_unit (rs_MemoryUtilization s).
Proof.
  unfold valid_sample, validateResourceSample. destruct (_ || _); [done|]. destruct (_ || _) eqn:E; [done|]. intros _. split_bools.
  split; by apply validRatio_unit.
Qed.

Lemma merge_batch first rest s :
  sample_op s = sample_op first -> merge_summary (batch_summary first rest) (summary_of s) = batch_summary first (rest ++ [s]).
Proof.
  intros _. unfold merge_summary, batch_summary, summary_of, f_maximum. simpl. rewrite !map_app, !fold_left_app, length_app, List.last_last. simpl.
  f_equal. lia.
Qed.

Lemma add_summary_row op s m history :
  (forall op, op.2 <> "" -> row_at sm_key op (resource_operation_summaries m) = summarize op history) -> op.2 <> "" ->
  row_at sm_key op (resource_operation_summaries (add_summary s m)) = summarize op (history ++ [s]).
Proof.
  intros H Hop. simpl. rewrite upsert_row_at by (by intros x r). rewrite (H op Hop). unfold summarize. rewrite having_app.
  change (sm_key (summary_of s)) with (sample_op s). case_bool_decide as E.
  2:{ by rewrite (having_none sample_op op [s]), app_nil_r by (by intros r ->%list_elem_of_singleton). }
  rewrite (having_all sample_op op [s]) by (by intros r ->%list_elem_of_singleton). destruct (having sample_op op history) as [|first rest] eqn:Eh; [done|]. simpl. f_equal. apply merge_batch.
  assert (Hf : first ∈ having sample_op op history) by (rewrite Eh; constructor). apply elem_of_having in Hf as [_ ->]. done.
Qed.

Lemma summarize_other op s history : op.2 <> "" -> sc_OperationID (rs_Scope s) = "" -> summarize op (history ++ [s]) = summarize op history.
Proof.
  intros Hop Hs. unfold summarize. rewrite having_app, (having_none sample_op op [s]), app_nil_r; [done|].
  intros r ->%list_elem_of_singleton <-. by apply Hop.
Qed.

(** ** Rollups *)

Lemma describes_merge r r0 l l0 :
  Forall valid_sample l -> Forall valid_sample l0 -> describes r l -> describes r0 l0 -> describes (merge_rollup r r0) (l ++ l0).
Proof.
  intros V V0 (C & P1 & P2 & P3) (C0 & P1' & P2' & P3'). unfold describes, merge_rollup. simpl. rewrite length_app, !map_app.
  assert (U : forall l f, Forall valid_sample l -> (forall s, valid_sample s -> in_unit (f s)) -> Forall in_unit (map f l)).
  { intros k f Hk Hf. apply List.Forall_map. eapply Forall_impl; [exact Hk|]. exact Hf. }
  split; [lia|]. split; [|split; [|by apply max_of_app]]; apply peak_of_app; try done; apply U; try done; intros s Hs; by apply valid_sample_unit.
Qed.

Lemma rollup_describes `{SqlAggregates} g rows :
  rows <> [] -> Forall valid_sample (map sr_sample rows) -> describes (rollup_of g rows) (map sr_sample rows).
Proof.
  intros Hne V. unfold describes, rollup_of. simpl. rewrite length_map, !List.map_map.
  assert (Hm : forall A (f : ResourceSample -> A), map (fun r => f (sr_sample r)) rows <> []) by (by destruct rows).
  assert (U : forall f, (forall s, valid_sample s -> in_unit (f s)) -> Forall in_unit (map (fun r => f (sr_sample r)) rows)).
  { intros f Hf. apply List.Forall_map. rewrite List.Forall_map in V. eapply Forall_impl; [exact V|]. intros r Hr. by apply Hf. }
  split; [done|]. split; [|split; [|by apply z_maximum_max]]; apply float_maximum_peak; try done; apply U; intros s Hs; by apply valid_sample_unit.
Qed.

(** One group is merged into its rollup. *)
Lemma rolled_upsert compacted rollups r l :
  rolled compacted rollups -> Forall valid_sample compacted -> Forall valid_sample l ->
  describes r l -> l <> [] -> (forall s, s ∈ l -> sample_group s = ru_key r) ->
  rolled (compacted ++ l) (upsert ru_key merge_rollup r rollups).
Proof.
  intros H V V' D Hne Hl g. rewrite upsert_row_at by (by intros x y). specialize (H g). rewrite having_app.
  case_bool_decide as E.
  - subst g. rewrite (having_all sample_group _ l) by done. destruct (row_at _ _ _) as [x|].
    + apply describes_merge; try done. apply Forall_forall. intros s Hs. apply elem_of_having in Hs as [Hs _]. rewrite Forall_forall in V. auto.
    + rewrite H. done.
  - rewrite (having_none sample_group g l), app_nil_r; [done|]. intros s Hs <-. by apply E; rewrite Hl.
Qed.

Lemma group_samples rows g :
  well_timed rows -> map sr_sample (having group_of g rows) = having sample_group g (map sr_sample rows).
Proof.
  unfold having, select. induction 1 as [|r rows Hr _ IH]; [done|]. simpl.
  assert (group_of r = sample_group (sr_sample r)) as -> by (unfold group_of, sample_group; by rewrite Hr).
  case_bool_decide; simpl; by rewrite IH.
Qed.

(** Compaction moves the old samples into the rollups. *)
Lemma rolled_grouped `{SqlAggregates} compacted rollups rows :
  rolled compacted rollups -> Forall valid_sample compacted -> Forall valid_sample (map sr_sample rows) -> well_timed rows ->
  exists l, l ≡ₚ map sr_sample rows /\
    rolled (compacted ++ l) (fold_left (fun rollups r => upsert ru_key merge_rollup r rollups) (grouped rows) rollups).
Proof.
  intros HR V V' Ht. set (gs := remove_dups (map group_of rows)).
  exists (concat (map (fun g => map sr_sample (having group_of g rows)) gs)). split.
  { rewrite <- (List.map_map (fun g => having group_of g rows) (map sr_sample)), <- List.concat_map. apply Permutation_map, groups_perm; [apply NoDup_remove_dups|].
    intros r Hr. apply elem_of_remove_dups, list_elem_of_In, List.in_map, list_elem_of_In, Hr. }
  unfold grouped. fold gs. assert (Hgs : forall g, g ∈ gs -> having group_of g rows <> []).
  { intros g Hg. apply elem_of_remove_dups, list_elem_of_In, List.in_map_iff in Hg as (r & <- & Hr). apply list_elem_of_In in Hr.
    intros E. apply (elem_of_nil r). rewrite <- E. by apply elem_of_having. }
  clearbody gs. assert (Vg : forall g, Forall valid_sample (map sr_sample (having group_of g rows))).
  { intros g. rewrite group_samples by done. apply Forall_forall. intros s [Hs _]%elem_of_having. rewrite Forall_forall in V'. auto. }
  revert compacted rollups HR V. induction gs as [|g gs IH]; intros compacted rollups HR V; simpl; [by rewrite app_nil_r|].
  rewrite (assoc_L (++)). apply IH; [intros g' Hg'; apply Hgs; by constructor| |by apply Forall_app].
  apply rolled_upsert; try done.
  - apply rollup_describes; [apply Hgs; constructor|done].
  - intros E. apply map_eq_nil in E. revert E. apply Hgs. constructor.
  - intros s Hs. rewrite group_samples in Hs by done. apply elem_of_having in Hs as [_ ->]. by destruct g.
Qed.

(** ** The calls *)

(** What a successful append leaves. *)
Definition with_sample (s : ResourceSample) (d : MetricsDB) : MetricsDB :=
  let m := add_sample s (md_metrics d) in
  add_change (unix (rs_ObservedAt s)) (sc_ProjectID (rs_Scope s)) "resource-sample" (entity_of s)
    (mkMetricsDB (md_store d) (if is_empty (sc_OperationID (rs_Scope s)) then m else add_summary s m)).

Definition compacted_at `{SqlAggregates} (raw rollup : Z) (m : Metrics) : Metrics := drop_rollups rollup (drop_samples raw (roll_up raw m)).

Section Calls.
Context (o : Oracle).

Lemma wp_exec_metrics f Q E d :
  Q tt (on_metrics f d) -> (forall s, fails o s -> E (ErrDriver s) d) -> wp o (exec_metrics f) Q E d.
Proof. intros HQ HE. by apply wp_statement. Qed.

(** The outcome of an append: a refused sample, a failing driver or the sample
    recorded; an error leaves the database as it was. *)
Lemma wp_AppendResourceSample s Q E d :
  (valid_sample s -> convertible s = true -> Q tt (with_sample s d)) ->
  (forall e, validateResourceSample s = Some e -> E e d) ->
  (valid_sample s -> convertible s = false -> E ErrHighBit d) ->
  (forall m, fails o m -> E (ErrDriver m) d) ->
  wp o (AppendResourceSample s) Q E d.
Proof.
  intros HQ Hv Hc HE. unfold AppendResourceSample. destruct (validateResourceSample s) as [e|] eqn:V; [apply wp_throw; auto|].
  apply wp_transaction; [|done]. apply wp_bind. destruct (convertible s) eqn:C; [|apply wp_throw; auto]. apply wp_exec_metrics; [|done].
  apply wp_bind. assert (Hlast : wp o (statement (fun d0 => Ok (tt, add_change (unix (rs_ObservedAt s)) (sc_ProjectID (rs_Scope s)) "resource-sample" (entity_of s) d0))
      ≫= fun _ => mret (Commit tt)) (fun r d' => match r with Commit a => Q a d' | Return a => Q a d end) (fun e _ => E e d)
      (mkMetricsDB (md_store d) (if is_empty (sc_OperationID (rs_Scope s)) then add_sample s (md_metrics d) else add_summary s (add_sample s (md_metrics d))))).
  { apply wp_bind, wp_statement; [|done]. apply wp_ret. by apply HQ. }
  destruct (is_empty _); [by apply wp_ret|by apply wp_exec_metrics].
Qed.

Lemma wp_CompactResourceSamples `{SqlAggregates} raw rollup Q E d :
  (rollup < raw -> Q tt (on_metrics (compacted_at (unix raw) (unix rollup)) d)) ->
  E (ErrText "resource retention boundaries are invalid") d -> (forall m, fails o m -> E (ErrDriver m) d) ->
  wp o (CompactResourceSamples raw rollup) Q E d.
Proof.
  intros HQ Hb HE. unfold CompactResourceSamples. destruct (_ || _) eqn:G; [by apply wp_throw|]. split_bools.
  apply wp_transaction; [|done]. do 3 (apply wp_bind, wp_exec_metrics; [|done]). apply wp_ret. by apply HQ.
Qed.

End Calls.

(** ** Histories *)

Inductive MetricsCall := CallAppend (s : ResourceSample) | CallCompact (rawBefore rollupBefore : time).
Definition run_metrics `{SqlAggregates} (c : MetricsCall) : MetricsM unit :=
  match c with CallAppend s => AppendResourceSample s | CallCompact raw rollup => CompactResourceSamples raw rollup end.

(** What a call adds to the accepted samples and to the cutoffs. *)
Definition accepts (c : MetricsCall) (r : res unit) : list ResourceSample :=
  match c, r with CallAppend s, Ok _ => [s] | _, _ => [] end.
Definition cuts (c : MetricsCall) (r : res unit) : list Z :=
  match c, r with CallCompact _ rollup, Ok _ => [unix rollup] | _, _ => [] end.

(** The databases that calls produce, whatever the environment does, while
    others change the rest of the store. *)
Inductive recorded `{SqlAggregates} : list ResourceSample -> list Z -> MetricsDB -> Prop :=
| recorded_start store : recorded [] [] (mkMetricsDB store empty_metrics)
| recorded_call history cutoffs d c o n r d' n' :
    recorded history cutoffs d -> run_metrics c o (d, n) = (r, (d', n')) -> recorded (history ++ accepts c r) (cutoffs ++ cuts c r) d'
| recorded_store history cutoffs d store : recorded history cutoffs d -> recorded history cutoffs (mkMetricsDB store (md_metrics d)).

(** The invariant of the metrics. *)
Record MetricsInv (history : list ResourceSample) (cutoffs : list Z) (m : Metrics) : Prop := {
  mi_valid : Forall valid_sample history;
  mi_timed : well_timed (resource_samples m);
  mi_summaries : forall op, op.2 <> "" -> row_at sm_key op (resource_operation_summaries m) = summarize op history;
  mi_conserved : conserved history cutoffs m
}.

Lemma conserved_append history cutoffs s id at_ m m' :
  conserved history cutoffs m -> resource_samples m' = resource_samples m ++ [mkSampleRow id at_ s] ->
  resource_minute_rollups m' = resource_minute_rollups m -> conserved (history ++ [s]) cutoffs m'.
Proof.
  intros (dropped & compacted & HP & Hd & HR) Es Er. exists dropped, compacted. split; [|split; [done|by rewrite Er]].
  rewrite Es, map_app, HP. simpl. by rewrite <- !(assoc_L (++)).
Qed.

Lemma inv_append history cutoffs s d :
  MetricsInv history cutoffs (md_metrics d) -> valid_sample s -> MetricsInv (history ++ [s]) cutoffs (md_metrics (with_sample s d)).
Proof.
  intros [V T S C] Vs. unfold with_sample. simpl. unfold is_empty. destruct (bool_decide (sc_OperationID (rs_Scope s) = "")) eqn:Eo; split_bools; split; simpl.
  - apply Forall_app. split; [done|]. by constructor.
  - apply Forall_app. split; [done|]. by constructor.
  - intros op Hop. rewrite summarize_other by done. auto.
  - eapply conserved_append; done.
  - apply Forall_app. split; [done|]. by constructor.
  - apply Forall_app. split; [done|]. by constructor.
  - intros op Hop. exact (add_summary_row op s (add_sample s (md_metrics d)) history S Hop).
  - eapply conserved_append; done.
Qed.

Lemma elem_of_select_delete {R} (p : R -> bool) l r : r ∈ select p l \/ r ∈ delete_where p l -> r ∈ l.
Proof.
  intros [H|H]; [by apply elem_of_select in H as [? _]|]. unfold delete_where in H. apply list_elem_of_In, List.filter_In in H as [H _]. by apply list_elem_of_In.
Qed.

(** Old samples move into the rollups, old rollups go. *)
Lemma conserved_compact `{SqlAggregates} history cutoffs raw rollup m :
  Forall valid_sample history -> well_timed (resource_samples m) -> conserved history cutoffs m ->
  conserved history (cutoffs ++ [rollup]) (compacted_at raw rollup m).
Proof.
  intros V T (dropped & compacted & HP & Hd & HR). rewrite HP in V. rewrite !Forall_app in V. destruct V as (_ & Vc & Vs).
  set (old := select (older_than raw) (resource_samples m)).
  assert (Hsub : forall r, r ∈ old -> r ∈ resource_samples m) by (intros r Hr; eapply elem_of_select_delete; by left).
  destruct (rolled_grouped compacted (resource_minute_rollups m) old) as (l & Hl & HR').
  { done. } { done. }
  { apply List.Forall_map, Forall_forall. intros r Hr. rewrite List.Forall_map, Forall_forall in Vs. auto. }
  { apply Forall_forall. intros r Hr. unfold well_timed in T. rewrite Forall_forall in T. auto. }
  set (late := fun s => bucket_of (unix (rs_ObservedAt s)) <? rollup).
  exists (dropped ++ select late (compacted ++ l)), (delete_where late (compacted ++ l)). split; [|split].
  - simpl. rewrite HP, (select_split (older_than raw) (resource_samples m)) at 1. rewrite map_app. fold old. rewrite <- Hl.
    rewrite <- !(assoc_L (++)). apply Permutation_app_head. rewrite !(assoc_L (++)). apply Permutation_app_tail. apply select_split.
  - apply Forall_app. split.
    + eapply Forall_impl; [exact Hd|]. intros s Hs. apply Exists_app. by left.
    + apply Forall_forall. intros s [_ Hs]%elem_of_select. unfold late in Hs. split_bools. apply Exists_app. right. by constructor.
  - simpl. intros g. pose proof (delete_row_at ru_key (fun g => g.1 <? rollup)) as Hd'. simpl in Hd'. rewrite Hd'. clear Hd'. fold old.
    specialize (HR' g). assert (Hg : having sample_group g (delete_where late (compacted ++ l)) = if g.1 <? rollup then [] else having sample_group g (compacted ++ l)).
    { clear. unfold having, select, delete_where, late. induction (compacted ++ l) as [|s k IH]; simpl; [by destruct (_ <? _)|].
      destruct (bucket_of _ <? rollup) eqn:Eb; simpl; rewrite IH; destruct (g.1 <? rollup) eqn:Eg; try done;
        rewrite ?(bool_decide_eq_false_2 (sample_group s = g)); try done; intros <-; simpl in Eg; congruence. }
    rewrite Hg. by destruct (g.1 <? rollup).
Qed.

Lemma recorded_inv `{SqlAggregates} history cutoffs d : recorded history cutoffs d -> MetricsInv history cutoffs (md_metrics d).
Proof.
  induction 1 as [store|history cutoffs d c o n r d' n' _ IH Hrun|history cutoffs d store _ IH].
  - split; [constructor|constructor|done|]. exists [], []. split; [done|]. split; [constructor|done].
  - set (Q := fun (_ : unit) d' => MetricsInv (history ++ accepts c (Ok tt)) (cutoffs ++ cuts c (Ok tt)) (md_metrics d')).
    set (E := fun (_ : Err) d' => MetricsInv history cutoffs (md_metrics d')).
    assert (Hwp : wp o (run_metrics c) Q E d).
    { destruct c as [s|raw rollup]; unfold run_metrics.
      - apply wp_AppendResourceSample; try done. intros Vs _. unfold Q. simpl. rewrite app_nil_r. by apply inv_append.
      - apply wp_CompactResourceSamples; try done. intros _. unfold Q. simpl. rewrite app_nil_r. destruct IH as [V T S C]. split; try done.
        + simpl. apply Forall_forall. intros r0 Hr. unfold well_timed in T. rewrite Forall_forall in T. apply T. eapply elem_of_select_delete. by right.
        + by apply conserved_compact. }
    specialize (Hwp n). rewrite Hrun in Hwp. destruct r as [[]|e]; [exact Hwp|]. destruct c; simpl; rewrite !app_nil_r; exact Hwp.
  - exact IH.
Qed.

(** ** Listing *)

(** The swaps turn the segment between [left] and [right] around. *)
Lemma swap_ends_lookup {A} (fuel : nat) : forall (left right : nat) (l : list A) i,
  (left + right + 1 = length l)%nat -> (right <= left + fuel)%nat ->
  swap_ends fuel left right l !! i = if decide (left <= i <= right)%nat then l !! (length l - 1 - i)%nat else l !! i.
Proof.
  induction fuel as [|fuel IH]; intros left right l i Hn Hf; simpl.
  { case_decide; [|done]. f_equal. lia. }
  destruct (Nat.ltb_spec left right) as [Hlt|Hge]; [|case_decide; [f_equal; lia|done]].
  destruct (lookup_lt_is_Some_2 l left ltac:(lia)) as [a Ha]. destruct (lookup_lt_is_Some_2 l right ltac:(lia)) as [b Hb]. rewrite Ha, Hb.
  rewrite IH by (rewrite ?length_insert; lia). rewrite !length_insert.
  assert (Hat : forall j, (<[right:=a]> (<[left:=b]> l)) !! j = if decide (j = right) then Some a else if decide (j = left) then Some b else l !! j).
  { intros j. rewrite !list_lookup_insert, length_insert. repeat case_decide; try done; try lia. }
  rewrite !Hat. repeat case_decide; try lia; try done.
  - subst i. rewrite <- Ha. f_equal. lia.
  - subst i. rewrite <- Hb. f_equal. lia.
Qed.

Lemma reverse_in_place_reverse {A} (l : list A) : reverse_in_place l = reverse l.
Proof.
  apply list_eq. intros i. unfold reverse_in_place. destruct (decide (i < length l)%nat) as [Hi|Hi].
  - rewrite swap_ends_lookup, reverse_lookup by lia. rewrite decide_True by lia. f_equal. lia.
  - assert (Hlen : forall fuel left right (k : list A), length (swap_ends fuel left right k) = length k).
    { induction fuel as [|fuel IH]; intros left right k; simpl; [done|]. destruct (_ <? _)%nat; [|done].
      destruct (k !! left), (k !! right); try done. by rewrite IH, !length_insert. }
    rewrite !lookup_ge_None_2; [done|rewrite length_reverse; lia|rewrite Hlen; lia].
Qed.

(** The rows a filter matches. *)
Definition matching (filter : ResourceFilter) (m : Metrics) : list SampleRow :=
  select (where_all (resourceWhere filter (fun r => rs_Scope (sr_sample r)) sr_observed_at)) (resource_samples m).

Lemma newer_total a b : newer_sample a b = true \/ newer_sample b a = true.
Proof. unfold newer_sample. rewrite !orb_true_iff, !andb_true_iff, !Z.ltb_lt, !Z.leb_le, !Z.eqb_eq. lia. Qed.
Lemma newer_trans a b c : newer_sample a b = true -> newer_sample b c = true -> newer_sample a c = true.
Proof. unfold newer_sample. rewrite !orb_true_iff, !andb_true_iff, !Z.ltb_lt, !Z.leb_le, !Z.eqb_eq. lia. Qed.

Lemma StronglySorted_snoc {A} (R : relation A) l x : StronglySorted R l -> (forall y, y ∈ l -> R y x) -> StronglySorted R (l ++ [x]).
Proof.
  induction 1 as [|y l Hs IH Hy]; intros H; simpl; [repeat constructor|]. constructor.
  - apply IH. intros z Hz. apply H. by constructor.
  - apply Forall_app. split; [done|]. constructor; [apply H; constructor|constructor].
Qed.
Lemma StronglySorted_reverse {A} (R : relation A) l : StronglySorted R l -> StronglySorted (flip R) (reverse l).
Proof.
  induction 1 as [|x l Hs IH Hx]; [constructor|]. rewrite reverse_cons. apply StronglySorted_snoc; [done|].
  intros y Hy. rewrite Forall_forall in Hx. apply Hx, elem_of_reverse, Hy.
Qed.
Lemma StronglySorted_app_inv {A} (R : relation A) l l' :
  StronglySorted R (l ++ l') -> StronglySorted R l /\ forall x y, x ∈ l -> y ∈ l' -> R x y.
Proof.
  induction l as [|a l IH]; simpl; intros H; [split; [constructor|]; intros x y Hx; by apply elem_of_nil in Hx|].
  inversion H as [|? ? Hs Hf]; subst. destruct (IH Hs) as [IH1 IH2]. rewrite Forall_app, !Forall_forall in Hf. destruct Hf as [F1 F2].
  split; [constructor; [done|by apply Forall_forall]|]. intros x y [->|Hx]%elem_of_cons Hy; auto.
Qed.

(** The list holds the newest matching samples, the oldest first. *)
Lemma list_samples_latest o filter limit d :
  reliable o -> 1 <= limit <= 5000 ->
  wp o (ListResourceSamples filter limit) (fun samples d' => d' = d /\ exists rows rest,
      samples = map scan_sample rows /\ rest ++ rows ≡ₚ matching filter (md_metrics d) /\
      length rows = Nat.min (Z.to_nat limit) (length (matching filter (md_metrics d))) /\
      StronglySorted (fun a b => newer_sample b a = true) rows /\
      forall old new, old ∈ rest -> new ∈ rows -> newer_sample new old = true) (fun _ _ => False) d.
Proof.
  intros Hrel Hl. unfold ListResourceSamples. rewrite (proj2 (Z.ltb_ge _ _)), (proj2 (Z.ltb_ge _ _)) by lia. simpl.
  apply wp_bind, wp_query; [|intros s Hs; by eapply reliable_fails]. apply wp_ret. split; [done|].
  fold (matching filter (md_metrics d)). set (l := order_by newer_sample (matching filter (md_metrics d))). set (n := Z.to_nat limit).
  pose proof (order_by_perm newer_sample (matching filter (md_metrics d))) as HP. fold l in HP.
  pose proof (order_by_sorted newer_sample newer_total newer_trans (matching filter (md_metrics d))) as HS. fold l in HS.
  rewrite <- (take_drop n l) in HS. apply StronglySorted_app_inv in HS as [HS1 HS2].
  exists (reverse (take n l)), (drop n l). split; [|split; [|split; [|split]]].
  - rewrite reverse_in_place_reverse. change (map scan_sample (reverse (take n l))) with (scan_sample <$> reverse (take n l)). by rewrite fmap_reverse.
  - rewrite reverse_Permutation, <- HP. rewrite <- (take_drop n l) at 3. apply Permutation_app_comm.
  - by rewrite length_reverse, length_take, <- HP.
  - by apply StronglySorted_reverse in HS1.
  - intros old new Ho Hn. apply HS2; [by apply elem_of_reverse|done].
Qed.

(** ** Migration *)

Lemma ensure_adds o column kind columns :
  reliable o -> (column, kind) ∈ added_columns ->
  wp o (ensureResourceSampleColumn column kind "0") (fun _ columns' => columns' = if bool_decide (column ∈ columns) then columns else columns ++ [column])
    (fun _ _ => False) columns.
Proof.
  intros Hrel Hin. unfold ensureResourceSampleColumn.
  assert (Ha : allowed_kind column = kind).
  { clear -Hin. unfold added_columns in Hin. repeat (apply elem_of_cons in Hin as [[= -> ->]|Hin]; [reflexivity|]). by apply elem_of_nil in Hin. }
  rewrite (bool_decide_eq_true_2 _ Ha). simpl. apply wp_bind, wp_query; [|intros s Hs; by eapply reliable_fails].
  destruct (existsb _ columns) eqn:Ex.
  - apply wp_ret. rewrite bool_decide_eq_true_2; [done|]. apply existsb_exists in Ex as (c & Hc & E). split_bools. subst c. by apply list_elem_of_In.
  - apply wp_statement; [|intros s Hs; by eapply reliable_fails]. rewrite bool_decide_eq_false_2; [done|]. intros Hc.
    assert (existsb (fun name => bool_decide (name = column)) columns = true); [|congruence]. apply existsb_exists. exists column. split; [by apply list_elem_of_In|].
    by apply bool_decide_eq_true.
Qed.

Lemma ensure_columns_all o todo columns :
  reliable o -> todo ⊆ added_columns ->
  wp o (ensure_columns todo) (fun _ columns' => exists more, columns' = columns ++ more /\ more ⊆ map fst todo /\ map fst todo ⊆ columns') (fun _ _ => False) columns.
Proof.
  intros Hrel. revert columns. induction todo as [|[name kind] todo IH]; intros columns Hsub; simpl.
  { apply wp_ret. exists []. rewrite app_nil_r. split; [done|]. split; apply list_subseteq_nil. }
  apply wp_bind. eapply wp_mono; [apply ensure_adds; [done|apply Hsub; constructor]| |done]. intros _ columns1 ->.
  eapply wp_mono; [apply IH; set_solver| |done]. intros _ columns' (more & -> & Hm & Ht). case_bool_decide as E.
  - exists more. split; [done|]. split; set_solver.
  - exists (name :: more). rewrite <- (assoc_L (++)). split; [done|]. split; set_solver.
Qed.

(** A migrated table has every column, and an old table keeps what it had, in
    place. *)
Lemma migrated_columns o columns :
  reliable o ->
  wp o migrateResourceMetrics (fun _ columns' => (exists more, columns' = columns ++ more) /\ map fst added_columns ⊆ columns') (fun _ _ => False) columns.
Proof.
  intros Hrel. unfold migrateResourceMetrics. apply wp_bind, wp_statement; [|intros s Hs; by eapply reliable_fails].
  eapply wp_mono; [by apply ensure_columns_all| |done]. intros _ columns' (more & -> & _ & Hall). split; [|done].
  case_bool_decide as E; [subst columns; eauto|eauto].
Qed.

(** The catalog keeps its columns and has the ones that were asked for. *)
Definition extended (todo : list (string * string)) (catalog catalog' : list ColumnInfo) : Prop :=
  (exists more, catalog' = catalog ++ more /\ Forall (fun c => has_column (co_table c) (co_name c) catalog = false) more) /\
  (forall table name, (table, name) ∈ todo -> has_column table name catalog' = true).

Lemma has_column_app table name c c' : has_column table name (c ++ c') = has_column table name c || has_column table name c'.
Proof. apply existsb_app. Qed.

Lemma extended_trans a b c1 c2 c3 : extended a c1 c2 -> extended b c2 c3 -> extended (a ++ b) c1 c3.
Proof.
  intros [(m1 & -> & F1) A1] [(m2 & -> & F2) A2]. split.
  - exists (m1 ++ m2). rewrite (assoc_L (++)). split; [done|]. apply Forall_app. split; [done|]. eapply Forall_impl; [exact F2|].
    intros c Hc. cbn in Hc. rewrite has_column_app in Hc. by apply orb_false_iff in Hc as [? _].
  - intros table name [Hin|Hin]%elem_of_app; [rewrite has_column_app, (A1 table name Hin); done|by apply A2].
Qed.

Lemma ensure_column_spec o table name value catalog :
  reliable o -> existsb (fun c => bool_decide (co_table c = table)) catalog = true ->
  wp o (ensure_column table name value) (fun _ catalog' => extended [(table, name)] catalog catalog') (fun _ _ => False) catalog.
Proof.
  intros Hrel Ht. unfold ensure_column. apply wp_bind, wp_query; [|intros s Hs; by eapply reliable_fails].
  destruct (has_column table name catalog) eqn:Eh.
  - apply wp_ret. split; [exists []; by rewrite app_nil_r|]. intros ? ? [= -> ->]%list_elem_of_singleton. exact Eh.
  - unfold alter_table. apply wp_statement; [|intros s Hs; by eapply reliable_fails]. rewrite Ht. split; [eexists; split; [done|]; by constructor|].
    intros ? ? [= -> ->]%list_elem_of_singleton. rewrite has_column_app. cbn. by rewrite !bool_decide_eq_true_2, orb_true_r.
Qed.

Lemma table_stays table catalog more :
  existsb (fun c => bool_decide (co_table c = table)) catalog = true -> existsb (fun c => bool_decide (co_table c = table)) (catalog ++ more) = true.
Proof. intros Ht. by rewrite existsb_app, Ht. Qed.

Lemma ensure_text_spec o todo catalog :
  reliable o -> todo ⊆ text_migrations -> (forall table name, (table, name) ∈ todo -> existsb (fun c => bool_decide (co_table c = table)) catalog = true) ->
  wp o (ensure_text_columns todo) (fun _ catalog' => extended todo catalog catalog') (fun _ _ => False) catalog.
Proof.
  intros Hrel. revert catalog. induction todo as [|[table name] todo IH]; intros catalog Hsub Ht; cbn [ensure_text_columns].
  { apply wp_ret. split; [exists []; by rewrite app_nil_r|]. by intros ? ? ?%elem_of_nil. }
  apply wp_bind. unfold ensureTextColumn. rewrite bool_decide_eq_true_2.
  2:{ assert (Hin : (table, name) ∈ text_migrations) by (apply Hsub; constructor). clear -Hin. unfold text_migrations in Hin.
      repeat (apply elem_of_cons in Hin as [[= -> ->]|Hin]; [apply (bool_decide_eq_true_1 _); vm_compute; reflexivity|]). by apply elem_of_nil in Hin. }
  cbn [negb]. eapply wp_mono; [apply ensure_column_spec; [done|apply (Ht table name); constructor]| |done]. intros ? catalog1 H1.
  eapply wp_mono; [apply IH| |done]; [set_solver| |].
  - intros t n Hin. destruct H1 as [(more & -> & _) _]. apply table_stays, (Ht t n). by constructor.
  - intros ? catalog2 H2. exact (extended_trans [(table, name)] todo _ _ _ H1 H2).
Qed.

Definition migrated_columns_list : list (string * string) :=
  text_migrations ++ [("projects", "allow_image_overrides"); ("control_queue", "cleanup_attempts"); ("control_queue", "cleanup_updated_at")].

(** The migration of a database of any earlier version ends with every column,
    leaves the columns that were there in place, and refuses none of its own. *)
Lemma migration_completes o catalog :
  reliable o -> (forall table, table ∈ map fst migrated_columns_list -> existsb (fun c => bool_decide (co_table c = table)) catalog = true) ->
  wp o migrate_columns (fun _ catalog' => extended migrated_columns_list catalog catalog') (fun _ _ => False) catalog.
Proof.
  intros Hrel Ht. unfold migrate_columns. apply wp_bind. eapply wp_mono; [apply ensure_text_spec; [done|done|]| |done].
  { intros t n Hin. apply Ht, list_elem_of_fmap. exists (t, n). split; [done|]. apply elem_of_app. by left. }
  intros u1 c1 H1. assert (Htab : forall t c a, t ∈ map fst migrated_columns_list -> extended a catalog c -> existsb (fun c => bool_decide (co_table c = t)) c = true).
  { intros t c todo Hin [(more & -> & _) _]. by apply table_stays, Ht. }
  unfold ensureIntegerColumn. rewrite !bool_decide_eq_true_2 by (apply (bool_decide_eq_true_1 _); vm_compute; reflexivity). cbn [negb].
  apply wp_bind. eapply wp_mono; [apply ensure_column_spec; [done|eapply Htab; [|exact H1]; set_solver]| |done]. intros u2 c2 H2. pose proof (extended_trans _ _ _ _ _ H1 H2) as H12.
  apply wp_bind. eapply wp_mono; [apply ensure_column_spec; [done|eapply Htab; [|exact H12]; set_solver]| |done]. intros u3 c3 H3. pose proof (extended_trans _ _ _ _ _ H12 H3) as H13.
  eapply wp_mono; [apply ensure_column_spec; [done|eapply Htab; [|exact H13]; set_solver]| |done]. intros u4 c4 H4. exact (extended_trans _ _ _ _ _ H13 H4).
Qed.

(** ** Properties *)

(** C12: no sample that was accepted is lost before its minute falls behind a cutoff
    of the rollups, and none is counted twice.  After any sequence of appends and
    compactions, with any failures of the driver, the accepted samples are those
    that are still stored, those compacted into a rollup and those whose minute
    is older than a cutoff; every rollup counts exactly the compacted samples of
    its minute and scope and has their maxima. *)
Theorem metrics_account_for_every_sample `{SqlAggregates} history cutoffs d :
  recorded history cutoffs d -> conserved history cutoffs (md_metrics d).
Proof. intros H0. apply (mi_conserved _ _ _ (recorded_inv _ _ _ H0)). Qed.

(** C13: the summary that [ResourceSummary] returns for an operation is the one
    computed at once from all the samples that were ever accepted for it, in
    spite of compactions: their number, the first and last observation, the
    average and the maxima.  Without such samples the answer is
    [control.ErrNotFound], and a filter without an operation is refused. *)
Theorem summary_is_the_aggregate `{SqlAggregates} history cutoffs d o filter :
  recorded history cutoffs d -> reliable o ->
  let kind := rf_OperationKind filter in
  let id := rf_OperationID filter in
  wp o (getResourceSummary filter)
    (fun s d' => d' = d /\ exists row, summarize (kind, id) history = Some row /\ s = scan_summary row)
    (fun e d' => d' = d /\ if is_empty kind || is_empty id then e = ErrText "resource summary requires an operation"
                           else e = ErrNotFound /\ summarize (kind, id) history = None) d.
Proof.
  intros HR Hrel kind id. unfold getResourceSummary. fold kind id. destruct (is_empty kind || is_empty id) eqn:Ei; [by apply wp_throw|].
  apply orb_false_iff in Ei as [_ Ei]. unfold is_empty in Ei. split_bools.
  apply wp_bind, wp_attempt, wp_query_row; [|intros s Hs; by destruct (reliable_fails o s)].
  pose proof (mi_summaries _ _ _ (recorded_inv _ _ _ HR) (kind, id) Ei) as Hs. unfold row_at in Hs. unfold find_summary. rewrite Hs.
  destruct (summarize (kind, id) history) as [row|] eqn:E; [apply wp_ret|apply wp_throw]; eauto.
Qed.

(** An append either records the whole sample or leaves the database as it was,
    and the error tells which: the sample is invalid, a value does not fit a
    column, or the driver failed. *)
Theorem append_records_or_leaves o s d n :
  match AppendResourceSample s o (d, n) with
  | (Ok _, (d', _)) => validateResourceSample s = None /\ convertible s = true /\ d' = with_sample s d
  | (Fail e, (d', _)) => d' = d /\
      (validateResourceSample s = Some e \/
       (validateResourceSample s = None /\ convertible s = false /\ e = ErrHighBit) \/
       exists m, fails o m /\ e = ErrDriver m)
  end.
Proof.
  assert (Hwp : wp o (AppendResourceSample s)
    (fun _ d' => validateResourceSample s = None /\ convertible s = true /\ d' = with_sample s d)
    (fun e d' => d' = d /\ (validateResourceSample s = Some e \/ (validateResourceSample s = None /\ convertible s = false /\ e = ErrHighBit) \/
       exists m, fails o m /\ e = ErrDriver m)) d).
  { apply wp_AppendResourceSample; eauto 10. }
  exact (Hwp n).
Qed.

(** ** Witnesses *)

Definition quiet : Oracle := mkOracle (fun n => Z.of_nat n) (fun n => Z.of_nat n) (fun _ => None).
#[local] Lemma quiet_reliable : reliable quiet. Proof. done. Qed.

Definition demo_aggregates : SqlAggregates := {| sql_sum l := fold_left f_add l f_zero |}.
Definition demo_at (t : time) (cpu : float64) : ResourceSample :=
  mkSample (mkScope "project" "job" "job_1") t cpu 8 f_zero 1024 4096 10 20 1 2 f_zero f_zero f_zero f_zero f_zero 0 0 0 3 100.
Definition demo_first : ResourceSample := demo_at (61 * Second) (f_div (f_of_Z 1) (f_of_Z 4)).
Definition demo_second : ResourceSample := demo_at (62 * Second) (f_div (f_of_Z 1) (f_of_Z 2)).
Definition demo_start : MetricsDB := mkMetricsDB empty_database empty_metrics.
Definition demo_run (c : MetricsCall) (d : MetricsDB) : MetricsDB := (@run_metrics demo_aggregates c quiet (d, 0%nat)).2.1.
Definition demo_one : MetricsDB := Eval vm_compute in demo_run (CallAppend demo_first) demo_start.
Definition demo_two : MetricsDB := Eval vm_compute in demo_run (CallAppend demo_second) demo_one.
Definition demo_end : MetricsDB := Eval vm_compute in demo_run (CallCompact (3600 * Second) (30 * Second)) demo_two.

Lemma demo_step history cutoffs d c d' :
  @recorded demo_aggregates history cutoffs d -> (@run_metrics demo_aggregates c quiet (d, 0%nat)).1 = Ok tt -> demo_run c d = d' ->
  @recorded demo_aggregates (history ++ accepts c (Ok tt)) (cutoffs ++ cuts c (Ok tt)) d'.
Proof.
  unfold demo_run. intros Hd Hr Hd'. destruct (@run_metrics demo_aggregates c quiet (d, 0%nat)) as [r [d1 n1]] eqn:E. simpl in *. subst.
  by eapply recorded_call.
Qed.

Lemma demo_recorded : @recorded demo_aggregates [demo_first; demo_second] [30 * Second] demo_end.
Proof.
  apply (demo_step [demo_first; demo_second] [] demo_two (CallCompact (3600 * Second) (30 * Second))); [|vm_compute; reflexivity|vm_compute; reflexivity].
  apply (demo_step [demo_first] [] demo_one (CallAppend demo_second)); [|vm_compute; reflexivity|vm_compute; reflexivity].
  apply (demo_step [] [] demo_start (CallAppend demo_first)); [|vm_compute; reflexivity|vm_compute; reflexivity].
  apply (@recorded_start demo_aggregates).
Qed.

Lemma metrics_account_for_every_sample_witness :
  @recorded demo_aggregates [demo_first; demo_second] [30 * Second] demo_end /\
  conserved [demo_first; demo_second] [30 * Second] (md_metrics demo_end) /\
  map ru_sample_count (resource_minute_rollups (md_metrics demo_end)) = [2].
Proof.
  split; [exact demo_recorded|]. split; [|vm_compute; reflexivity].
  exact (@metrics_account_for_every_sample demo_aggregates _ _ _ demo_recorded).
Defined.

Lemma summary_is_the_aggregate_witness :
  exists s, (getResourceSummary (mkFilter "" "job" "job_1" zero_time zero_time) quiet (demo_end, 0%nat)).1 = Ok s /\ sm_SampleCount s = 2.
Proof.
  pose proof (@summary_is_the_aggregate demo_aggregates _ _ _ quiet (mkFilter "" "job" "job_1" zero_time zero_time) demo_recorded quiet_reliable 0%nat) as H.
  destruct (getResourceSummary _ quiet (demo_end, 0%nat)) as [[s|e] [d' n']] eqn:E; [|exfalso; vm_compute in E; discriminate].
  exists s. split; [reflexivity|]. destruct H as (_ & row & Hr & ->). vm_compute in Hr. injection Hr as <-. reflexivity.
Defined.
