(* ===== verification/Text.v ===== *)
(** * Text in the Go library

    [strings.Fields], [strings.Split], [strings.Cut] and its relatives,
    [strconv.ParseUint] and [strconv.ParseFloat], on Go strings. *)

From Stdlib Require Import Ascii SpecFloat.
From S2P Require Import Prelude Model GoMonad GoLib GoStrings Encoding Float64.

(** ** Cutting *)

(** [strings.Split] at a one-byte separator. *)
Fixpoint Split (sep : ascii) (s : string) : list string :=
  match s with
  | "" => [""]
  | String c rest =>
      if Ascii.eqb c sep then "" :: Split sep rest
      else match Split sep rest with [] => [String c ""] | h :: t => String c h :: t end
  end.

(** [strings.Fields]: the runs between white space.  Every round consumes a
    byte, so the length is enough fuel. *)
Definition flush (current : list Z) : list string := match current with [] => [] | _ => [of_bytes (rev current)] end.
Fixpoint fields_loop (fuel : nat) (current l : list Z) : list string :=
  match fuel, l with
  | S fuel', b :: rest =>
      match strip_one space_encodings l with
      | Some rest' => flush current ++ fields_loop fuel' [] rest'
      | None => fields_loop fuel' (b :: current) rest
      end
  | _, _ => flush current
  end.
Definition Fields (s : string) : list string := fields_loop (length (bytes s)) [] (bytes s).

(** [strings.Cut] at a one-byte separator, and whether it was found. *)
Definition Cut (sep : ascii) (s : string) : string * string * bool :=
  match cut sep s with Some (before, after) => (before, after, true) | None => (s, "", false) end.

(** [strings.CutPrefix], as an option. *)
Definition CutPrefix (s prefix : string) : option string :=
  if String.prefix prefix s then Some (String.substring (String.length prefix) (String.length s - String.length prefix) s) else None.

Definition HasSuffix (s suffix : string) : bool :=
  (String.length suffix <=? String.length s)%nat
  && bool_decide (String.substring (String.length s - String.length suffix) (String.length suffix) s = suffix).
Definition TrimSuffix (s suffix : string) : string :=
  if HasSuffix s suffix then String.substring 0 (String.length s - String.length suffix) s else s.
Definition TrimPrefix (s prefix : string) : string := default s (CutPrefix s prefix).

(** ** Integers *)

(** [strconv.ParseUint(s, 10, 64)]: digits only; [None] is a syntax or a range
    error. *)
Definition ParseUint (s : string) : option Z :=
  match bytes s with
  | [] => None
  | l => v ← parse_digits 0 l; if v <? 2 ^ 64 then Some v else None
  end.

Lemma parse_digits_nonneg l : forall acc v, 0 <= acc -> parse_digits acc l = Some v -> 0 <= v.
Proof.
  induction l as [|b l IH]; intros acc v Ha; simpl; [by intros [= <-]|]. destruct ((48 <=? b) && (b <=? 57)) eqn:E; [|done].
  split_bools. apply IH. lia.
Qed.

Lemma ParseUint_range s v : ParseUint s = Some v -> 0 <= v < 2 ^ 64.
Proof.
  unfold ParseUint. destruct (bytes s) as [|b l]; [done|]. destruct (parse_digits 0 (b :: l)) as [w|] eqn:E; [|done]. simpl.
  destruct (w <? 2 ^ 64) eqn:R; [|done]. intros [= <-]. split_bools. split; [|done]. exact (parse_digits_nonneg _ _ _ (Z.le_refl 0) E).
Qed.

(** ** Floating-point numbers *)

Definition is_digit (b : Z) : bool := (48 <=? b) && (b <=? 57).
Definition is_hex_letter (b : Z) : bool := (97 <=? lower_byte b) && (lower_byte b <=? 102).
Definition underscore : Z := 95.

(** The loop over the mantissa: its value, the number of digits after the
    point, whether a point and a digit were seen, and the rest. *)
Record Mantissa := mkMantissa { mt_value : Z; mt_fraction : Z; mt_dot : bool; mt_digits : bool }.
Fixpoint read_mantissa (base : Z) (m : Mantissa) (l : list Z) : Mantissa * list Z :=
  match l with
  | [] => (m, [])
  | b :: rest =>
      if b =? underscore then read_mantissa base m rest
      else if b =? 46 then
        if mt_dot m then (m, l) else read_mantissa base (mkMantissa (mt_value m) (mt_fraction m) true (mt_digits m)) rest
      else
        let digit := if is_digit b then Some (b - 48) else if (base =? 16) && is_hex_letter b then Some (lower_byte b - 87) else None in
        match digit with
        | Some v => read_mantissa base (mkMantissa (mt_value m * base + v) (if mt_dot m then mt_fraction m + 1 else mt_fraction m) (mt_dot m) true) rest
        | None => (m, l)
        end
  end.

(** The digits of an exponent; it stops growing past 10000. *)
Fixpoint read_exponent (e : Z) (l : list Z) : Z * list Z :=
  match l with
  | [] => (e, [])
  | b :: rest =>
      if b =? underscore then read_exponent e rest
      else if is_digit b then read_exponent (if e <? 10000 then e * 10 + (b - 48) else e) rest
      else (e, l)
  end.

(** [underscoreOK]: an underscore separates digits, or follows the prefix. *)
Fixpoint underscores_separate (hex : bool) (saw : Z) (l : list Z) : bool :=
  match l with
  | [] => negb (saw =? underscore)
  | b :: rest =>
      if is_digit b || (hex && is_hex_letter b) then underscores_separate hex 48 rest
      else if b =? underscore then (saw =? 48) && underscores_separate hex underscore rest
      else negb (saw =? underscore) && underscores_separate hex 33 rest
  end.
Definition drop_sign (l : list Z) : list Z := match l with b :: rest => if (b =? 43) || (b =? 45) then rest else l | [] => [] end.
Definition underscoreOK (l : list Z) : bool :=
  match drop_sign l with
  | 48 :: x :: rest =>
      if (lower_byte x =? 98) || (lower_byte x =? 111) || (lower_byte x =? 120) then underscores_separate (lower_byte x =? 120) 48 rest
      else underscores_separate false 94 (48 :: x :: rest)
  | l' => underscores_separate false 94 l'
  end.

(** [mantissa * base ^ scale] to the nearest number; [None] is the range error. *)
Definition f_scaled (sign : bool) (mantissa base scale : Z) : option float64 :=
  match mantissa with
  | Zpos m =>
      let x := if 0 <=? scale then f_ratio sign (Z.to_pos (Zpos m * base ^ scale)) 1 else f_ratio sign m (Z.to_pos (base ^ (- scale))) in
      if IsInf x then None else Some x
  | _ => Some (S754_zero sign)
  end.

(** The optional exponent after the mantissa, which a hexadecimal number must
    have. *)
Definition read_scale (base : Z) (l : list Z) : option (Z * list Z) :=
  match l with
  | b :: rest =>
      if lower_byte b =? (if base =? 16 then 112 else 101) then
        let sign := match rest with s :: _ => if s =? 45 then -1 else 1 | [] => 1 end in
        match drop_sign rest with
        | d :: _ => if is_digit d then let '(e, rest') := read_exponent 0 (drop_sign rest) in Some (sign * e, rest') else None
        | [] => None
        end
      else if base =? 16 then None else Some (0, l)
  | [] => if base =? 16 then None else Some (0, [])
  end.

(** [strconv.ParseFloat(s, 64)]; [None] is a syntax or a range error. *)
Definition ParseFloat (s : string) : option float64 :=
  let l := bytes s in
  let sign := match l with b :: _ => b =? 45 | [] => false end in
  let signed := match l with b :: _ => (b =? 43) || (b =? 45) | [] => false end in
  let body := drop_sign l in
  let name := of_bytes (map lower_byte body) in
  if bool_decide (name = "inf") || bool_decide (name = "infinity") then Some (S754_infinity sign)
  else if bool_decide (name = "nan") && negb signed then Some S754_nan
  else
    let '(base, digits) := match body with 48 :: x :: y :: rest => if lower_byte x =? 120 then (16, y :: rest) else (10, body) | _ => (10, body) end in
    let '(m, rest) := read_mantissa base (mkMantissa 0 0 false false) digits in
    if negb (mt_digits m) then None else
    '(e, rest) ← read_scale base rest;
    if negb (bool_decide (rest = [])) then None
    else if existsb (Z.eqb underscore) l && negb (underscoreOK l) then None
    else if base =? 16 then f_scaled sign (mt_value m) 2 (e - 4 * mt_fraction m)
    else f_scaled sign (mt_value m) 10 (e - mt_fraction m).

(** A parsed number that is not negative is canonical. *)
Lemma f_scaled_canonical sign mantissa base scale x :
  f_scaled sign mantissa base scale = Some x -> f_lt x f_zero = false -> canonical x /\ x <> S754_infinity false.
Proof.
  unfold f_scaled. destruct mantissa as [|m|m]; try (intros [= <-] _; by destruct sign).
  set (y := if 0 <=? scale then _ else _). destruct (IsInf y) eqn:Ei; [done|]. intros [= <-] Hn. split; [|by intros E; rewrite E in Ei].
  assert (Hy : exists n d, y = f_ratio sign n d) by (unfold y; destruct (0 <=? scale); eauto). clearbody y. destruct Hy as (n & d & ->).
  destruct sign; [|apply f_ratio_canonical]. unfold f_ratio in *. destruct (SFdiv_core_binary 53 1024 (Zpos n) 0 (Zpos d) 0) as [[q e] l] eqn:E.
  apply div_core_located in E as (_ & z & <- & <- & Hl).
  assert (HN : 0 <= Zpos n * 2 ^ (0 - 0 - e)) by (apply Z.mul_nonneg_nonneg; [lia|apply Z.pow_nonneg; lia]).
  rewrite (round_aux_form true _ _ e z HN Hl) in *. cbv zeta in *. destruct (_ / _) as [|p|p]; [done| |done]. destruct (_ <=? 971); done.
Qed.

Lemma ParseFloat_canonical s x :
  ParseFloat s = Some x -> f_lt x f_zero = false -> IsNaN x = false -> canonical x.
Proof.
  unfold ParseFloat. set (l := bytes s). destruct (bool_decide _ || bool_decide _).
  { intros [= <-] _ _. done. }
  destruct (bool_decide _ && _); [by intros [= <-] _|].
  destruct (match drop_sign l with 48 :: x :: y :: rest => _ | _ => _ end) as [base digits].
  destruct (read_mantissa _ _ _) as [m rest]. destruct (negb _); [done|]. destruct (read_scale base rest) as [[e rest']|]; [|done]. simpl.
  destruct (negb _); [done|]. destruct (existsb _ _ && _); [done|].
  destruct (base =? 16); intros H Hn _; by apply (f_scaled_canonical _ _ _ _ _ H Hn).
Qed.

(** * Durations

    [time.ParseDuration]: a sign and a sequence of decimal numbers with units.
    The fraction is scaled in floating point, as the library does. *)

(** [leadingInt]; [None] is an overflow. *)
Fixpoint leadingInt (x : Z) (l : list Z) : option (Z * list Z) :=
  match l with
  | b :: rest =>
      if is_digit b then
        if 2 ^ 63 / 10 <? x then None else
        let x := x * 10 + (b - 48) in
        if 2 ^ 63 <? x then None else leadingInt x rest
      else Some (x, l)
  | [] => Some (x, [])
  end.

(** [leadingFraction]: the digits, ten to their number, and the rest; digits
    past the range are dropped. *)
Fixpoint leadingFraction (x : Z) (scale : float64) (overflow : bool) (l : list Z) : Z * float64 * list Z :=
  match l with
  | b :: rest =>
      if is_digit b then
        if overflow || ((2 ^ 63 - 1) / 10 <? x) then leadingFraction x scale true rest else
        let y := x * 10 + (b - 48) in
        if 2 ^ 63 <? y then leadingFraction x scale true rest
        else leadingFraction y (SFmul 53 1024 scale (f_of_Z 10)) false rest
      else (x, scale, l)
  | [] => (x, scale, [])
  end.

(** [unitMap], with the two spellings of microseconds. *)
Definition unit_of (u : list Z) : option Z :=
  if bool_decide (u = [110; 115]) then Some 1
  else if bool_decide (u = [117; 115]) || bool_decide (u = [194; 181; 115]) || bool_decide (u = [206; 188; 115]) then Some 1000
  else if bool_decide (u = [109; 115]) then Some Millisecond
  else if bool_decide (u = [115]) then Some Second
  else if bool_decide (u = [109]) then Some Minute
  else if bool_decide (u = [104]) then Some Hour
  else None.

(** [uint64] of a number that is not negative: its integer part. *)
Definition f_trunc (x : float64) : Z :=
  match x with
  | S754_finite false m e => if 0 <=? e then Zpos m * 2 ^ e else Zpos m / 2 ^ (- e)
  | _ => 0
  end.

Definition is_number_byte (b : Z) : bool := (b =? 46) || is_digit b.
Fixpoint take_unit (l : list Z) : list Z * list Z :=
  match l with
  | b :: rest => if is_number_byte b then ([], l) else let '(u, rest') := take_unit rest in (b :: u, rest')
  | [] => ([], [])
  end.

(** One number with its unit, added to [d]; [None] is an invalid duration. *)
Definition duration_part (d : Z) (l : list Z) : option (Z * list Z) :=
  match l with
  | [] => None
  | b :: _ =>
      if negb (is_number_byte b) then None else
      '(v, l1) ← leadingInt 0 l;
      let pre := negb (length l1 =? length l)%nat in
      let '(f, scale, l2, post) :=
        match l1 with
        | 46 :: rest => let '(f, scale, l2) := leadingFraction 0 (f_of_Z 1) false rest in (f, scale, l2, negb (length l2 =? length rest)%nat)
        | _ => (0, f_of_Z 1, l1, false)
        end in
      if negb pre && negb post then None else
      let '(u, l3) := take_unit l2 in
      unit ← unit_of u;
      if 2 ^ 63 / unit <? v then None else
      let v := v * unit in
      let v := if 0 <? f then wrapu64 (v + f_trunc (SFmul 53 1024 (f_of_Z f) (f_div (f_of_Z unit) scale))) else v in
      if 2 ^ 63 <? v then None else
      let d := wrapu64 (d + v) in
      if 2 ^ 63 <? d then None else Some (d, l3)
  end.

(** Every part consumes a byte, so the length is enough fuel. *)
Fixpoint duration_parts (fuel : nat) (d : Z) (l : list Z) : option Z :=
  match l, fuel with
  | [], _ => Some d
  | _, S fuel' => '(d, rest) ← duration_part d l; duration_parts fuel' d rest
  | _, O => None
  end.

Definition ParseDuration (s : string) : option duration :=
  let l := bytes s in
  let neg := match l with b :: _ => b =? 45 | [] => false end in
  let body := drop_sign l in
  if bool_decide (body = [48]) then Some 0 else
  if bool_decide (body = []) then None else
  d ← duration_parts (length body) 0 body;
  if neg then Some (wrap64 (- d)) else if 2 ^ 63 - 1 <? d then None else Some d.

Example durations :
  map ParseDuration ["15m"; "1h30m"; "-1.5s"; "500ms"; "0"; "1.5"; ""; "h"; "3us"; "9223372036854775807ns"; "9223372036854775808ns"; "-9223372036854775808ns"] =
  [Some (15 * Minute); Some (90 * Minute); Some (-1500000000); Some (500 * Millisecond); Some 0; None; None; None; Some 3000;
   Some (2 ^ 63 - 1); None; Some (- 2 ^ 63)].
Proof. vm_compute. reflexivity. Qed.

Lemma duration_part_range d l d' rest : duration_part d l = Some (d', rest) -> 0 <= d' <= 2 ^ 63.
Proof.
  unfold duration_part. destruct l as [|b l]; [done|]. destruct (negb (is_number_byte b)); [done|].
  destruct (leadingInt 0 (b :: l)) as [[v l1]|]; [|done]. simpl. destruct (match l1 with 46 :: rest => _ | _ => _ end) as [[[f scale] l2] post].
  destruct (negb _ && negb _); [done|]. destruct (take_unit l2) as [u l3]. destruct (unit_of u) as [unit|]; [|done]. simpl.
  destruct (_ <? v); [done|]. destruct (2 ^ 63 <? _); [done|]. destruct (2 ^ 63 <? wrapu64 _) eqn:G; [done|]. intros [= <- <-]. split_bools.
  split; [|done]. unfold wrapu64. apply Z.mod_pos_bound. lia.
Qed.

Lemma duration_parts_range fuel : forall d l v, 0 <= d <= 2 ^ 63 -> duration_parts fuel d l = Some v -> 0 <= v <= 2 ^ 63.
Proof.
  induction fuel as [|fuel IH]; intros d l v Hd; destruct l as [|b l]; cbn [duration_parts]; try done; try (intros [= <-]; exact Hd).
  destruct (duration_part d (b :: l)) as [[d1 rest]|] eqn:E; [|done]. apply (IH d1 rest). by eapply duration_part_range.
Qed.

(** A parsed duration is a 64-bit integer. *)
Lemma ParseDuration_range s d : ParseDuration s = Some d -> - 2 ^ 63 <= d < 2 ^ 63.
Proof.
  unfold ParseDuration. destruct (bool_decide (drop_sign _ = [48])); [intros [= <-]; lia|]. destruct (bool_decide _); [done|].
  destruct (duration_parts _ 0 _) as [v|] eqn:E; [|done]. apply duration_parts_range in E; [|lia]. cbn [mbind option_bind].
  destruct (match bytes s with [] => false | b :: _ => b =? 45 end); [intros [= <-]; apply wrap64_range|].
  destruct (2 ^ 63 - 1 <? v) eqn:G; [done|]. intros [= <-]. split_bools. lia.
Qed.
