(* ===== verification/HostMetrics.v ===== *)
(** * The sampler and the collector of host metrics

    [internal/hostmetrics]: [linux.go] reads the counters of the kernel and turns
    two readings into a sample; [collector.go] gives the sample the scope of the
    running operation, records it and compacts old ones every hour.  A sampler
    sees the host through a [HostView]: files, [statfs] and the clock.  The cause
    inside a wrapped error is left out. *)
From stdpp Require Import gmap.
From Stdlib Require Import Ascii SpecFloat.
From S2P Require Import Prelude Model GoMonad GoLib GoStrings Encoding Table Schema JobStore Path Float64 Text Metrics.

(** ** The host *)

(** The outcome of [os.ReadFile] and [os.Open]. *)
Inductive FileRead := FileData (data : string) | FileMissing | FileError (e : Err).

Record Statfs := mkStatfs { sf_Blocks : Z; sf_Bsize : Z; sf_Bavail : Z; sf_Files : Z; sf_Ffree : Z }.

Record HostView := mkView {
  hv_read : string -> FileRead; hv_statfs : string -> res Statfs; hv_now : time; hv_NumCPU : Z; hv_done : option Err
}.

Definition ErrNotReady : Err := ErrText "resource sampler is warming up".
Definition ErrNotExist : Err := ErrText "file does not exist".
Definition newline : ascii := "010"%char.

(** A file as a value or an error. *)
Definition read_file (view : HostView) (path : string) : res string :=
  match hv_read view path with FileData data => Ok data | FileMissing => Fail ErrNotExist | FileError e => Fail e end.

(** ** Processor *)

Record cpuCounters := mkCounters { cpu_total : Z; cpu_idle : Z }.

Fixpoint parse_all (fields : list string) : option (list Z) :=
  match fields with
  | [] => Some []
  | f :: rest => v ← ParseUint f; vs ← parse_all rest; Some (v :: vs)
  end.

Definition readCPU (view : HostView) (path : string) : res cpuCounters :=
  match read_file view path with
  | Fail e => Fail e
  | Ok data =>
      let '(line, _, _) := Cut newline data in
      match Fields line with
      | first :: rest =>
          if (length rest <? 4)%nat || negb (bool_decide (first = "cpu")) then Fail (ErrText "invalid aggregate CPU counters") else
          match parse_all rest with
          | None => Fail (ErrText "parse CPU counter")
          | Some values =>
              let total := fold_left (fun t v => wrapu64 (t + v)) values 0 in
              let idle := nth 3 values 0 in
              Ok (mkCounters total (if (4 <? length values)%nat then wrapu64 (idle + nth 4 values 0) else idle))
          end
      | [] => Fail (ErrText "invalid aggregate CPU counters")
      end
  end.

(** ** Memory *)

(** A line of [/proc/meminfo]; [None] is a value that does not parse. *)
Definition memory_line (values : gmap string Z) (line : string) : option (gmap string Z) :=
  match Fields line with
  | first :: second :: _ =>
      let name := TrimSuffix first ":" in
      if bool_decide (name = "MemTotal") || bool_decide (name = "MemAvailable") then
        value ← ParseUint second; Some (<[name := wrapu64 (value * 1024)]> values)
      else Some values
  | _ => Some values
  end.

(** [bufio.Scanner] gives up at a line of 64 KiB and drops a carriage return. *)
Definition maxTokenSize : Z := 65536.
Fixpoint scan_memory (lines : list string) (values : gmap string Z) : res (gmap string Z) :=
  match lines with
  | [] => Ok values
  | line :: rest =>
      if maxTokenSize <=? Z.of_nat (String.length line) then Fail (ErrText "bufio.Scanner: token too long") else
      match memory_line values (TrimSuffix line (String "013"%char "")) with
      | Some values => scan_memory rest values
      | None => Fail (ErrText "invalid syntax")
      end
  end.
(** The lines of a text; the newline at its end starts none. *)
Definition text_lines (data : string) : list string :=
  match rev (Split newline data) with "" :: rest => rev rest | l => rev l end.

Definition readMemory (view : HostView) (path : string) : res (Z * Z) :=
  match read_file view path with
  | Fail e => Fail e
  | Ok data =>
      match scan_memory (text_lines data) ∅ with
      | Fail e => Fail e
      | Ok values =>
          let total := default 0 (values !! "MemTotal") in
          let available := default 0 (values !! "MemAvailable") in
          if (total =? 0) || (total <? available) then Fail (ErrText "invalid memory capacity")
          else Ok (wrapu64 (total - available), total)
      end
  end.

(** ** Disk *)

Definition diskUsage (view : HostView) (path : string) : res (Z * Z) :=
  match hv_statfs view path with
  | Fail e => Fail e
  | Ok stats =>
      let total := wrapu64 (sf_Blocks stats * wrapu64 (sf_Bsize stats)) in
      let available := wrapu64 (sf_Bavail stats * wrapu64 (sf_Bsize stats)) in
      if total <? available then Fail (ErrText "invalid disk capacity") else Ok (wrapu64 (total - available), total)
  end.

Definition inodeUsage (view : HostView) (path : string) : res (Z * Z) :=
  match hv_statfs view path with
  | Fail e => Fail e
  | Ok stats =>
      if sf_Files stats <? sf_Ffree stats then Fail (ErrText "invalid inode capacity")
      else Ok (wrapu64 (sf_Files stats - sf_Ffree stats), sf_Files stats)
  end.

(** ** Pressure *)

Record pressureSample := mkPressure { ps_cpuSome : float64; ps_memorySome : float64; ps_memoryFull : float64; ps_ioSome : float64; ps_ioFull : float64 }.
Definition zero_pressure : pressureSample := mkPressure f_zero f_zero f_zero f_zero f_zero.

(** The fields that the pointers of an item refer to. *)
Inductive Target := CpuSome | MemorySome | MemoryFull | IoSome | IoFull.
Definition set_target (t : Target) (v : float64) (p : pressureSample) : pressureSample :=
  match t with
  | CpuSome => mkPressure v (ps_memorySome p) (ps_memoryFull p) (ps_ioSome p) (ps_ioFull p)
  | MemorySome => mkPressure (ps_cpuSome p) v (ps_memoryFull p) (ps_ioSome p) (ps_ioFull p)
  | MemoryFull => mkPressure (ps_cpuSome p) (ps_memorySome p) v (ps_ioSome p) (ps_ioFull p)
  | IoSome => mkPressure (ps_cpuSome p) (ps_memorySome p) (ps_memoryFull p) v (ps_ioFull p)
  | IoFull => mkPressure (ps_cpuSome p) (ps_memorySome p) (ps_memoryFull p) (ps_ioSome p) v
  end.

(** [avg10=] of a line, into the target. *)
Fixpoint pressure_fields (target : Target) (fields : list string) (p : pressureSample) : option pressureSample :=
  match fields with
  | [] => Some p
  | field :: rest =>
      match CutPrefix field "avg10=" with
      | None => pressure_fields target rest p
      | Some value =>
          match ParseFloat value with
          | None => None
          | Some parsed =>
              if f_lt parsed f_zero || f_lt (f_of_Z 100) parsed then None
              else pressure_fields target rest (set_target target (f_div parsed (f_of_Z 100)) p)
          end
      end
  end.

Fixpoint pressure_lines (some : Target) (full : option Target) (lines : list string) (p : pressureSample) : option pressureSample :=
  match lines with
  | [] => Some p
  | line :: rest =>
      match Fields line with
      | [] => pressure_lines some full rest p
      | first :: fields =>
          let target := if bool_decide (first = "some") then Some some else if bool_decide (first = "full") then full else None in
          match target with
          | None => pressure_lines some full rest p
          | Some t => p ← pressure_fields t fields p; pressure_lines some full rest p
          end
      end
  end.

(** A resource whose file is missing keeps its zero. *)
Fixpoint pressure_items (view : HostView) (root : string) (items : list (string * Target * option Target)) (p : pressureSample) : res pressureSample :=
  match items with
  | [] => Ok p
  | (name, some, full) :: rest =>
      match hv_read view (Join root name) with
      | FileMissing => pressure_items view root rest p
      | FileError e => Fail e
      | FileData data =>
          match pressure_lines some full (Split newline data) p with
          | Some p => pressure_items view root rest p
          | None => Fail (ErrText ("parse " +:+ name +:+ " pressure avg10"))
          end
      end
  end.
Definition readPressure (view : HostView) (root : string) : res pressureSample :=
  pressure_items view root [("cpu", CpuSome, None); ("memory", MemorySome, Some MemoryFull); ("io", IoSome, Some IoFull)] zero_pressure.

(** ** Control group *)

Record cgroupEvents := mkCgroup { cg_memoryHigh : Z; cg_oom : Z; cg_oomKills : Z; cg_pidsCurrent : Z; cg_pidsLimit : Z }.

Fixpoint key_values (lines : list string) (values : gmap string Z) : res (gmap string Z) :=
  match lines with
  | [] => Ok values
  | line :: rest =>
      match Fields line with
      | [name; text] =>
          match ParseUint text with
          | Some value => key_values rest (<[name := value]> values)
          | None => Fail (ErrText ("parse cgroup event " +:+ name))
          end
      | _ => Fail (ErrText "invalid cgroup event record")
      end
  end.
Definition parseKeyValues (data : string) : res (gmap string Z) := key_values (Split newline (TrimSpace data)) ∅.

(** A missing file is a case of its own for the caller. *)
Definition readUintFile (view : HostView) (path : string) : res (option Z) :=
  match hv_read view path with
  | FileMissing => Ok None
  | FileError e => Fail e
  | FileData data =>
      match ParseUint (TrimSpace data) with Some v => Ok (Some v) | None => Fail (ErrText ("parse " +:+ path)) end
  end.

Definition readCgroupEvents (view : HostView) (root : string) : res cgroupEvents :=
  match (match hv_read view (Join root "memory.events") with
         | FileMissing => Ok ∅
         | FileError e => Fail e
         | FileData data => parseKeyValues data
         end) with
  | Fail e => Fail e
  | Ok values =>
      let count name := default 0 ((values : gmap string Z) !! name) in
      match readUintFile view (Join root "pids.current") with
      | Fail e => Fail e
      | Ok current =>
          let result limit := mkCgroup (count "high") (count "oom") (count "oom_kill") (default 0 current) limit in
          match hv_read view (Join root "pids.max") with
          | FileMissing => Ok (result 0)
          | FileError e => Fail e
          | FileData data =>
              if bool_decide (TrimSpace data = "max") then Ok (result 0) else
              match ParseUint (TrimSpace data) with
              | Some limit => Ok (result limit)
              | None => Fail (ErrText "parse cgroup pids.max")
              end
          end
      end
  end.

(** ** The sampler *)

Record LinuxSamplerConfig := mkSamplerConfig {
  lc_ProcStatPath : string; lc_ProcMeminfoPath : string; lc_PressureRoot : string; lc_CgroupRoot : string; lc_DiskPath : string;
  lc_CPUCores : Z;
  lc_DiskUsage : option (HostView -> string -> res (Z * Z));
  lc_InodeUsage : option (HostView -> string -> res (Z * Z))
}.
Record LinuxSampler := mkSampler { ls_config : LinuxSamplerConfig; ls_previous : cpuCounters; ls_hasSample : bool }.

Definition or_default (s fallback : string) : string := if bool_decide (s = "") then fallback else s.

Definition NewLinuxSampler (view : HostView) (c : LinuxSamplerConfig) : res LinuxSampler :=
  if bool_decide (lc_DiskPath c = "") then Fail (ErrText "resource sampler disk path is required") else
  let cores := if lc_CPUCores c =? 0 then hv_NumCPU view else lc_CPUCores c in
  if cores <? 1 then Fail (ErrText "resource sampler CPU capacity is invalid") else
  Ok (mkSampler (mkSamplerConfig (or_default (lc_ProcStatPath c) "/proc/stat") (or_default (lc_ProcMeminfoPath c) "/proc/meminfo")
    (or_default (lc_PressureRoot c) "/proc/pressure") (or_default (lc_CgroupRoot c) "/sys/fs/cgroup") (lc_DiskPath c) cores
    (Some (default diskUsage (lc_DiskUsage c))) (Some (default inodeUsage (lc_InodeUsage c)))) (mkCounters 0 0) false).

(** The difference of two readings. *)
Definition sample_of (view : HostView) (c : LinuxSamplerConfig) (previous cpu : cpuCounters) (memory disk inodes : Z * Z)
    (pressure : pressureSample) (cgroup : cgroupEvents) : res ResourceSample :=
  if (cpu_total cpu <=? cpu_total previous) || (cpu_idle cpu <? cpu_idle previous) then Fail (ErrText "CPU counters regressed") else
  let totalDelta := wrapu64 (cpu_total cpu - cpu_total previous) in
  let idleDelta := wrapu64 (cpu_idle cpu - cpu_idle previous) in
  if totalDelta <? idleDelta then Fail (ErrText "CPU idle counter exceeds total") else
  Ok (mkSample zero_scope (hv_now view) (f_div (f_of_Z (wrapu64 (totalDelta - idleDelta))) (f_of_Z totalDelta)) (lc_CPUCores c)
    (f_div (f_of_Z memory.1) (f_of_Z memory.2)) memory.1 memory.2 disk.1 disk.2 inodes.1 inodes.2
    (ps_cpuSome pressure) (ps_memorySome pressure) (ps_memoryFull pressure) (ps_ioSome pressure) (ps_ioFull pressure)
    (cg_memoryHigh cgroup) (cg_oom cgroup) (cg_oomKills cgroup) (cg_pidsCurrent cgroup) (cg_pidsLimit cgroup)).

(** [Sample]: every reading succeeds before the counters are remembered. *)
Definition Sample (view : HostView) (s : LinuxSampler) : res ResourceSample * LinuxSampler :=
  let c := ls_config s in
  let usage (f : option (HostView -> string -> res (Z * Z))) := match f with Some g => g view (lc_DiskPath c) | None => Fail (ErrText "nil") end in
  match hv_done view with
  | Some e => (Fail e, s)
  | None =>
      match readCPU view (lc_ProcStatPath c) with
      | Fail e => (Fail e, s)
      | Ok cpu =>
          match readMemory view (lc_ProcMeminfoPath c) with
          | Fail e => (Fail e, s)
          | Ok memory =>
              match usage (lc_DiskUsage c) with
              | Fail e => (Fail e, s)
              | Ok disk =>
                  match usage (lc_InodeUsage c) with
                  | Fail e => (Fail e, s)
                  | Ok inodes =>
                      match readPressure view (lc_PressureRoot c) with
                      | Fail e => (Fail e, s)
                      | Ok pressure =>
                          match readCgroupEvents view (lc_CgroupRoot c) with
                          | Fail e => (Fail e, s)
                          | Ok cgroup =>
                              let s' := mkSampler c cpu true in
                              if negb (ls_hasSample s) then (Fail ErrNotReady, s')
                              else (sample_of view c (ls_previous s) cpu memory disk inodes pressure cgroup, s')
                          end
                      end
                  end
              end
          end
      end
  end.

(** ** The collector *)

(** The interface [Sampler]. *)
Class Sampler (S : Type) := { smp_Sample : M S ResourceSample }.

Record CollectorConfig := mkCollectorConfig { cc_Interval : duration; cc_RawRetention : duration; cc_RollupRetention : duration }.
Record Collector := mkCollector {
  co_config : CollectorConfig; co_lastCompaction : time;
  co_eventsReady : bool; co_memoryHigh : Z; co_oom : Z; co_oomKills : Z
}.

(** [NewCollector], with a store and a sampler. *)
Definition NewCollector (c : CollectorConfig) : Collector :=
  let raw := if cc_RawRetention c <=? 0 then 14 * 24 * Hour else cc_RawRetention c in
  mkCollector (mkCollectorConfig (if cc_Interval c <=? 0 then 2 * Second else cc_Interval c) raw
    (if cc_RollupRetention c <=? raw then 180 * 24 * Hour else cc_RollupRetention c)) zero_time false 0 0 0.

Definition counterDelta (current previous : Z) : Z := if current <? previous then current else wrapu64 (current - previous).

Definition with_scope (scope : ResourceScope) (s : ResourceSample) : ResourceSample :=
  mkSample scope (rs_ObservedAt s) (rs_CPUUtilization s) (rs_CPUCores s) (rs_MemoryUtilization s) (rs_MemoryUsageBytes s)
    (rs_MemoryTotalBytes s) (rs_DiskUsageBytes s) (rs_DiskTotalBytes s) (rs_DiskInodesUsed s) (rs_DiskInodesTotal s)
    (rs_CPUPressure s) (rs_MemoryPressure s) (rs_MemoryFullPressure s) (rs_IOPressure s) (rs_IOFullPressure s)
    (rs_MemoryHighEvents s) (rs_OOMEvents s) (rs_OOMKills s) (rs_PIDsCurrent s) (rs_PIDsLimit s).
Definition with_events (high oom kills : Z) (s : ResourceSample) : ResourceSample :=
  mkSample (rs_Scope s) (rs_ObservedAt s) (rs_CPUUtilization s) (rs_CPUCores s) (rs_MemoryUtilization s) (rs_MemoryUsageBytes s)
    (rs_MemoryTotalBytes s) (rs_DiskUsageBytes s) (rs_DiskTotalBytes s) (rs_DiskInodesUsed s) (rs_DiskInodesTotal s)
    (rs_CPUPressure s) (rs_MemoryPressure s) (rs_MemoryFullPressure s) (rs_IOPressure s) (rs_IOFullPressure s)
    high oom kills (rs_PIDsCurrent s) (rs_PIDsLimit s).

(** Counters since boot become events since the last sample. *)
Definition event_deltas (c : Collector) (s : ResourceSample) : ResourceSample :=
  if co_eventsReady c
  then with_events (counterDelta (rs_MemoryHighEvents s) (co_memoryHigh c)) (counterDelta (rs_OOMEvents s) (co_oom c))
         (counterDelta (rs_OOMKills s) (co_oomKills c)) s
  else with_events 0 0 0 s.
Definition remember_events (s : ResourceSample) (c : Collector) : Collector :=
  mkCollector (co_config c) (co_lastCompaction c) true (rs_MemoryHighEvents s) (rs_OOMEvents s) (rs_OOMKills s).
Definition compacted_now (now : time) (c : Collector) : Collector :=
  mkCollector (co_config c) now (co_eventsReady c) (co_memoryHigh c) (co_oom c) (co_oomKills c).

(** [time.Time.Sub] saturates at the range of a duration. *)
Definition time_Sub (a b : time) : duration := Z.max (- 2 ^ 63) (Z.min (2 ^ 63 - 1) (a - b)).
Definition compaction_due (now : time) (c : Collector) : bool :=
  (co_lastCompaction c =? zero_time) || (Hour <=? time_Sub now (co_lastCompaction c)).

Section Collect.
Context {S : Type} `{Sampler S} `{SqlAggregates}.
#[local] Abbreviation CollectM := (M (MetricsDB * (S * Collector))).

Definition get_collector : CollectM Collector := on_runtime (on_runtime get_db).
Definition put_collector (c : Collector) : CollectM unit := on_runtime (on_runtime (put_db c)).

Definition CollectOnce : CollectM unit :=
  r ← attempt (on_runtime (on_store smp_Sample));
  match r with
  | Fail e => if bool_decide (e = ErrNotReady) then mret tt else throw e
  | Ok sample =>
      '(scope, active) ← on_store ActiveResourceScope;
      let sample := if active : bool then with_scope scope sample else sample in
      c ← get_collector;
      _ ← put_collector (remember_events sample c);
      _ ← on_store (AppendResourceSample (event_deltas c sample));
      now ← time_Now;
      c ← get_collector;
      if compaction_due now c then
        _ ← put_collector (compacted_now now c);
        on_store (CompactResourceSamples (now - cc_RawRetention (co_config c)) (now - cc_RollupRetention (co_config c)))
      else mret tt
  end.

(** The loop of [Run] over the ticks before the context ends; [OnError] receives
    the error of a round. *)
Definition collect_round : CollectM (option Err) :=
  r ← attempt CollectOnce; mret match r with Ok _ => None | Fail e => Some e end.
Fixpoint Run (ticks : nat) : CollectM (list Err) :=
  e ← collect_round;
  match ticks with
  | O => mret (option_list e)
  | Datatypes.S ticks' => more ← Run ticks'; mret (option_list e ++ more)
  end.

End Collect.
