(* ===== verification/HostMetricsTheorems.v ===== *)
(** * Host samples are valid samples

    What the sampler returns passes the validation of the store: its ratios lie
    between zero and one whatever the counters are, the used part of a capacity
    never exceeds it, and a scope given by the collector is complete.  The one
    exception is a pressure file that contains [NaN]. *)
From stdpp Require Import gmap.
From Stdlib Require Import Ascii SpecFloat.
From S2P Require Import Prelude Model GoMonad GoLib GoStrings Encoding Table Schema JobStore Path Float64 Text Metrics MetricsTheorems HostMetrics.

(** ** Readings *)

Definition u64 (z : Z) : Prop := 0 <= z < 2 ^ 64.

Lemma wrapu64_u64 z : u64 (wrapu64 z).
Proof. unfold u64, wrapu64. apply Z.mod_pos_bound. lia. Qed.

Lemma u64_sub a b : u64 a -> u64 b -> b <= a -> wrapu64 (a - b) = a - b.
Proof. unfold u64. intros Ha Hb H. apply wrapu64_id. lia. Qed.

Lemma fold_total_u64 l : forall acc, u64 acc -> u64 (fold_left (fun t v => wrapu64 (t + v)) l acc).
Proof. induction l as [|v l IH]; intros acc Ha; simpl; [done|]. apply IH, wrapu64_u64. Qed.

Lemma parse_all_u64 fields vs : parse_all fields = Some vs -> Forall u64 vs.
Proof.
  revert vs. induction fields as [|f fields IH]; intros vs; simpl; [by intros [= <-]|]. destruct (ParseUint f) as [v|] eqn:E; [|done]. simpl.
  destruct (parse_all fields) as [vs'|]; [|done]. simpl. intros [= <-]. constructor; [by apply ParseUint_range in E|auto].
Qed.

Lemma nth_u64 vs i : Forall u64 vs -> u64 (nth i vs 0).
Proof.
  intros H. destruct (nth_in_or_default i vs 0) as [Hin|Hz]; [|rewrite Hz; split; [lia|reflexivity]]. rewrite Forall_forall in H. apply H. by apply list_elem_of_In.
Qed.

Lemma readCPU_u64 view path cpu : readCPU view path = Ok cpu -> u64 (cpu_total cpu) /\ u64 (cpu_idle cpu).
Proof.
  unfold readCPU. destruct (read_file view path) as [data|e]; [|done]. destruct (Cut newline data) as [[line ?] ?].
  destruct (Fields line) as [|first rest]; [done|]. destruct (_ || _); [done|]. destruct (parse_all rest) as [vs|] eqn:E; [|done].
  intros [= <-]. simpl. apply parse_all_u64 in E. split; [apply fold_total_u64; split; [lia|reflexivity]|].
  destruct (4 <? length vs)%nat; [apply wrapu64_u64|by apply nth_u64].
Qed.

Lemma scan_memory_u64 lines : forall values values',
  map_Forall (fun _ v => u64 v) values -> scan_memory lines values = Ok values' -> map_Forall (fun _ v => u64 v) values'.
Proof.
  induction lines as [|line lines IH]; intros values values' Hv; simpl; [by intros [= <-]|]. destruct (maxTokenSize <=? _); [done|].
  destruct (memory_line values _) as [values1|] eqn:E; [|done]. apply IH. unfold memory_line in E.
  destruct (Fields _) as [|first [|second ?]]; [by injection E as <-|by injection E as <-|]. destruct (_ || _); [|by injection E as <-].
  destruct (ParseUint second) as [v|]; [|done]. simpl in E. injection E as <-. apply map_Forall_insert_2; [apply wrapu64_u64|done].
Qed.

(** The used part of the memory and its size. *)
Lemma readMemory_bounds view path used total :
  readMemory view path = Ok (used, total) -> 0 <= used <= total /\ 0 < total < 2 ^ 64.
Proof.
  unfold readMemory. destruct (read_file view path) as [data|e]; [|done]. destruct (scan_memory _ ∅) as [values|e] eqn:E; [|done].
  apply scan_memory_u64 in E; [|apply map_Forall_empty].
  assert (Hd : forall k, u64 (default 0 (values !! k))).
  { intros k. destruct (values !! k) as [v|] eqn:Ek; [exact (E k v Ek)|split; [simpl; lia|reflexivity]]. }
  pose proof (Hd "MemTotal") as Ht. pose proof (Hd "MemAvailable") as Ha. unfold u64 in *.
  set (t := default 0 (values !! "MemTotal")) in *. set (a := default 0 (values !! "MemAvailable")) in *.
  destruct ((t =? 0) || (t <? a)) eqn:G; [done|]. intros [= <- <-]. split_bools. rewrite u64_sub by (unfold u64; lia). lia.
Qed.

(** [statfs] reports unsigned numbers. *)
Definition statfs_typed (view : HostView) : Prop :=
  forall path st, hv_statfs view path = Ok st -> u64 (sf_Files st) /\ u64 (sf_Ffree st).

Lemma diskUsage_bounds view path used total : diskUsage view path = Ok (used, total) -> 0 <= used <= total.
Proof.
  unfold diskUsage. destruct (hv_statfs view path) as [st|e]; [|done]. destruct (_ <? _) eqn:G; [done|]. intros [= <- <-]. split_bools.
  pose proof (wrapu64_u64 (sf_Blocks st * wrapu64 (sf_Bsize st))). pose proof (wrapu64_u64 (sf_Bavail st * wrapu64 (sf_Bsize st))).
  rewrite u64_sub by done. unfold u64 in *. lia.
Qed.

Lemma inodeUsage_bounds view path used total : statfs_typed view -> inodeUsage view path = Ok (used, total) -> 0 <= used <= total.
Proof.
  intros Ht. unfold inodeUsage. destruct (hv_statfs view path) as [st|e] eqn:E; [|done]. destruct (Ht _ _ E) as [H1 H2].
  destruct (_ <? _) eqn:G; [done|]. intros [= <- <-]. split_bools. rewrite u64_sub by done. unfold u64 in *. lia.
Qed.

(** ** Pressure *)

Definition ratio_or_nan (x : float64) : Prop := in_unit x \/ x = S754_nan.

Lemma pressure_ratio s parsed :
  ParseFloat s = Some parsed -> f_lt parsed f_zero = false -> f_lt (f_of_Z 100) parsed = false -> ratio_or_nan (f_div parsed (f_of_Z 100)).
Proof.
  intros HP H0 H1. destruct (IsNaN parsed) eqn:En; [right; by destruct parsed|left].
  pose proof (ParseFloat_canonical s parsed HP H0 En) as Hc. destruct parsed as [z|[]| |[] m e]; try discriminate; [by destruct z|].
  apply f_div_unit; try done. by apply not_lt_finite.
Qed.

Definition pressures (p : pressureSample) : list float64 := [ps_cpuSome p; ps_memorySome p; ps_memoryFull p; ps_ioSome p; ps_ioFull p].
Definition pressure_ok (p : pressureSample) : Prop := Forall ratio_or_nan (pressures p).

Lemma set_target_ok t v p : ratio_or_nan v -> pressure_ok p -> pressure_ok (set_target t v p).
Proof.
  intros Hv Hp. unfold pressure_ok, pressures in *. repeat (apply Forall_cons in Hp as [? Hp]). destruct t; simpl; repeat (apply Forall_cons; split; [assumption|]); constructor.
Qed.

Lemma pressure_fields_ok t fields : forall p p', pressure_ok p -> pressure_fields t fields p = Some p' -> pressure_ok p'.
Proof.
  induction fields as [|f fields IH]; intros p p' Hp; simpl; [by intros [= <-]|]. destruct (CutPrefix f "avg10=") as [value|]; [|by apply IH].
  destruct (ParseFloat value) as [parsed|] eqn:E; [|done]. destruct (_ || _) eqn:G; [done|]. split_bools. apply IH, set_target_ok; [|done].
  by eapply pressure_ratio.
Qed.

Lemma pressure_lines_ok some full lines : forall p p', pressure_ok p -> pressure_lines some full lines p = Some p' -> pressure_ok p'.
Proof.
  induction lines as [|line lines IH]; intros p p' Hp; simpl; [by intros [= <-]|]. destruct (Fields line) as [|first fields]; [by apply IH|].
  destruct (if bool_decide (first = "some") then _ else _) as [t|]; [|by apply IH].
  destruct (pressure_fields t fields p) as [p1|] eqn:E; [|done]. simpl. apply IH. by eapply pressure_fields_ok.
Qed.

Lemma readPressure_ok view root p : readPressure view root = Ok p -> pressure_ok p.
Proof.
  assert (Hitems : forall items p0, pressure_ok p0 -> pressure_items view root items p0 = Ok p -> pressure_ok p).
  { induction items as [|[[name some] full] items IH]; intros p0 Hp; simpl; [by intros [= <-]|].
    destruct (hv_read view (Join root name)) as [data| |e]; [|by apply IH|done].
    destruct (pressure_lines some full _ p0) as [p1|] eqn:E; [|done]. apply IH. by eapply pressure_lines_ok. }
  apply Hitems. unfold pressure_ok, pressures. simpl. repeat (apply Forall_cons; split; [left; split; reflexivity|]). constructor.
Qed.

(** ** The sampler *)

(** A sampler of this process: built by [NewLinuxSampler] with the readers of
    the package, and remembering counters it read. *)
Record sampler_ok (s : LinuxSampler) : Prop := {
  so_cores : 1 <= lc_CPUCores (ls_config s);
  so_disk : lc_DiskUsage (ls_config s) = Some diskUsage;
  so_inodes : lc_InodeUsage (ls_config s) = Some inodeUsage;
  so_previous : u64 (cpu_total (ls_previous s)) /\ u64 (cpu_idle (ls_previous s))
}.

Lemma new_sampler_ok view c s :
  NewLinuxSampler view c = Ok s -> lc_DiskUsage c = None -> lc_InodeUsage c = None -> sampler_ok s.
Proof.
  unfold NewLinuxSampler. destruct (bool_decide _); [done|]. destruct (_ <? 1) eqn:G; [done|]. intros [= <-] Hd Hi. rewrite Hd, Hi. split_bools.
  split; simpl; [lia|done|done|]. split; split; lia || reflexivity.
Qed.

Lemma sample_keeps_ok view s r s' : sampler_ok s -> Sample view s = (r, s') -> sampler_ok s'.
Proof.
  intros [Hc Hd Hi Hp]. unfold Sample. destruct (hv_done view); [by intros [= _ <-]|].
  destruct (readCPU _ _) as [cpu|e] eqn:E; [|by intros [= _ <-]]. apply readCPU_u64 in E.
  destruct (readMemory _ _); [|by intros [= _ <-]]. rewrite Hd, Hi. destruct (diskUsage _ _); [|by intros [= _ <-]].
  destruct (inodeUsage _ _); [|by intros [= _ <-]]. destruct (readPressure _ _); [|by intros [= _ <-]]. destruct (readCgroupEvents _ _); [|by intros [= _ <-]].
  destruct (negb _); intros [= _ <-]; by split.
Qed.

(** A scope without an operation, or with its kind and its project. *)
Definition complete_scope (scope : ResourceScope) : Prop :=
  (sc_OperationID scope = "" /\ sc_OperationKind scope = "") \/
  (sc_OperationID scope <> "" /\ sc_OperationKind scope <> "" /\ sc_ProjectID scope <> "").

Definition no_nan (s : ResourceSample) : Prop :=
  Forall (fun x => x <> S754_nan) [rs_CPUPressure s; rs_MemoryPressure s; rs_MemoryFullPressure s; rs_IOPressure s; rs_IOFullPressure s].

Lemma ratio_not_nan x : ratio_or_nan x -> x <> S754_nan -> validRatio x = true.
Proof. intros [H|H] Hn; [by apply validRatio_unit|done]. Qed.

Lemma validate_ok s :
  rs_ObservedAt s <> zero_time -> 1 <= rs_CPUCores s -> 0 <= rs_MemoryUsageBytes s <= rs_MemoryTotalBytes s -> 0 < rs_MemoryTotalBytes s ->
  rs_DiskUsageBytes s <= rs_DiskTotalBytes s -> rs_DiskInodesUsed s <= rs_DiskInodesTotal s ->
  validRatio (rs_CPUUtilization s) = true -> validRatio (rs_MemoryUtilization s) = true ->
  validRatio (rs_CPUPressure s) = true -> validRatio (rs_MemoryPressure s) = true -> validRatio (rs_MemoryFullPressure s) = true ->
  validRatio (rs_IOPressure s) = true -> validRatio (rs_IOFullPressure s) = true -> complete_scope (rs_Scope s) ->
  validateResourceSample s = None.
Proof.
  intros. unfold validateResourceSample. rewrite (proj2 (Z.eqb_neq _ _)) by done. rewrite !(proj2 (Z.ltb_ge _ _)) by lia.
  rewrite (proj2 (Z.eqb_neq _ _)) by lia. repeat match goal with H : validRatio _ = true |- _ => rewrite H; clear H end. simpl.
  unfold is_empty. destruct (H12) as [[-> ->]|(N1 & N2 & N3)]; [done|]. by rewrite !bool_decide_eq_false_2.
Qed.

(** Every sample of the sampler is valid, with the scope and the deltas the
    collector gives it. *)
Lemma sampled_valid view s sample s' c scope :
  sampler_ok s -> statfs_typed view -> hv_now view <> zero_time -> Sample view s = (Ok sample, s') -> no_nan sample -> complete_scope scope ->
  validateResourceSample (event_deltas c (with_scope scope sample)) = None.
Proof.
  intros [Hc Hd Hi [Hp1 Hp2]] Ht Hnow. unfold Sample. destruct (hv_done view); [done|].
  destruct (readCPU _ _) as [cpu|e] eqn:Ec; [|done]. apply readCPU_u64 in Ec as [Hc1 Hc2].
  destruct (readMemory _ _) as [[mu mt]|e] eqn:Em; [|done]. apply readMemory_bounds in Em as [Hm1 Hm2]. rewrite Hd, Hi.
  destruct (diskUsage _ _) as [[du dt]|e] eqn:Ed; [|done]. apply diskUsage_bounds in Ed.
  destruct (inodeUsage _ _) as [[iu it]|e] eqn:Ei; [|done]. apply inodeUsage_bounds in Ei; [|done].
  destruct (readPressure _ _) as [p|e] eqn:Ep; [|done]. apply readPressure_ok in Ep. destruct (readCgroupEvents _ _) as [cg|e]; [|done].
  destruct (negb _); [done|]. unfold sample_of. destruct (_ || _) eqn:G; [done|]. split_bools. destruct (_ <? _) eqn:G; [done|]. split_bools.
  rewrite !u64_sub in * by (done || lia). intros [= <- <-] Hnan Hs. unfold u64 in *.
  unfold pressure_ok, pressures in Ep. unfold no_nan in Hnan. simpl in Hnan.
  repeat (apply Forall_cons in Ep as [? Ep]). repeat (apply Forall_cons in Hnan as [? Hnan]).
  unfold event_deltas. destruct (co_eventsReady c); apply validate_ok; simpl; try done; try lia;
    try (by apply ratio_not_nan); apply validRatio_unit, f_div_of_Z; unfold wrapu64; rewrite ?Z.mod_small; rewrite ?Z.mod_small; lia.
Qed.

(** ** Rounds of the sampler *)

(** The sampler after it has looked at the host several times. *)
Definition after_rounds (views : list HostView) (s : LinuxSampler) : LinuxSampler := fold_left (fun s view => (Sample view s).2) views s.

Lemma after_rounds_ok views : forall s, sampler_ok s -> sampler_ok (after_rounds views s).
Proof.
  unfold after_rounds. induction views as [|view views IH]; intros s Hs; simpl; [done|]. apply IH. destruct (Sample view s) as [r s'] eqn:E. by eapply sample_keeps_ok.
Qed.

(** ** Rounds of the collector *)

(** The scope of the running operation, if there is one, or of the sample. *)
Definition scoped (d : MetricsDB) (sample : ResourceSample) : ResourceSample :=
  match active_scope d with Some scope => with_scope scope sample | None => sample end.

Lemma wp_ActiveResourceScope o (Q : ResourceScope * bool -> MetricsDB -> Prop) E d :
  reliable o -> Q (match active_scope d with Some scope => (scope, true) | None => (zero_scope, false) end) d -> wp o ActiveResourceScope Q E d.
Proof.
  intros Hrel HQ. unfold ActiveResourceScope. apply wp_bind, wp_attempt, wp_query_row; [|intros s Hs; by destruct (reliable_fails o s)].
  destruct (active_scope d); apply wp_ret; exact HQ.
Qed.

Section Rounds.
Context {S : Type} `{Sampler S} `{SqlAggregates} (o : Oracle).

(** A round with a valid sample records it, under the scope of the running
    operation and with the events since the last sample, and compacts when an
    hour has passed.  Only the retention boundaries can be refused, after the
    sample is recorded. *)
Lemma collect_once_records d smp c sample smp' :
  reliable o -> wp o smp_Sample (fun s r => s = sample /\ r = smp') (fun _ _ => False) smp ->
  validateResourceSample (event_deltas c (scoped d sample)) = None -> convertible (event_deltas c (scoped d sample)) = true ->
  let recorded_in m := m = md_metrics (with_sample (event_deltas c (scoped d sample)) d) in
  wp o CollectOnce
    (fun _ w => w.2.1 = smp' /\
       (recorded_in (md_metrics w.1) \/ exists raw rollup m, recorded_in m /\ md_metrics w.1 = compacted_at raw rollup m))
    (fun e w => w.2.1 = smp' /\ e = ErrText "resource retention boundaries are invalid" /\ recorded_in (md_metrics w.1)) (d, (smp, c)).
Proof.
  intros Hrel Hs Hv Hc recorded_in.
  assert (Hfail : forall P s, fails o s -> P) by (intros P s Hs'; by destruct (reliable_fails o s)).
  unfold CollectOnce. apply wp_bind, wp_attempt, wp_on_runtime, wp_on_store. eapply wp_mono; [exact Hs| |done].
  intros a r [-> ->]. apply wp_bind, wp_on_store, wp_ActiveResourceScope; [done|]. fold (scoped d sample).
  assert (Hscoped : forall k, (let '(scope, active) := match active_scope d with Some scope => (scope, true) | None => (zero_scope, false) end in
            k (if active : bool then with_scope scope sample else sample)) = (k (scoped d sample) : M (MetricsDB * (S * Collector)) unit)).
  { intros k. unfold scoped. by destruct (active_scope d). }
  rewrite (Hscoped (fun sample => c ← get_collector; _ ← put_collector (remember_events sample c); _ ← on_store (AppendResourceSample (event_deltas c sample));
      now ← time_Now; c ← get_collector; if compaction_due now c then _ ← put_collector (compacted_now now c); on_store (CompactResourceSamples (now - cc_RawRetention (co_config c)) (now - cc_RollupRetention (co_config c))) else mret tt)).
  apply wp_bind. unfold get_collector at 1. apply wp_on_runtime, wp_on_runtime, wp_get_db.
  apply wp_bind. unfold put_collector at 1. apply wp_on_runtime, wp_on_runtime, wp_put_db.
  apply wp_bind, wp_on_store, wp_AppendResourceSample; [|intros e He; congruence|intros _ He; congruence|intros s Hs'; by eapply Hfail].
  intros _ _. apply wp_bind, wp_now. intros now. apply wp_bind. apply wp_on_runtime, wp_on_runtime, wp_get_db.
  destruct (compaction_due _ _); [|apply wp_ret; split; [done|by left]].
  apply wp_bind, wp_on_runtime, wp_on_runtime, wp_put_db, wp_on_store, wp_CompactResourceSamples; [|done|intros s Hs'; by eapply Hfail].
  intros _. split; [done|]. right. eexists _, _, _. split; [reflexivity|]. reflexivity.
Qed.

End Rounds.

(** Retention periods for which the defaults of [NewCollector] do not leave the
    rollups longer than the samples: every compaction is refused. *)
Lemma long_retention_is_refused `{SqlAggregates} o now d :
  let config := co_config (NewCollector (mkCollectorConfig 0 (200 * 24 * Hour) 0)) in
  forall n, exists n', CompactResourceSamples (now - cc_RawRetention config) (now - cc_RollupRetention config) o (d, n)
    = (Fail (ErrText "resource retention boundaries are invalid"), (d, n')).
Proof.
  intros config n. exists n. unfold CompactResourceSamples. assert (Hb : negb (now - cc_RollupRetention config <? now - cc_RawRetention config) = true).
  { assert (Er : cc_RollupRetention config <= cc_RawRetention config) by (by vm_compute). apply negb_true_iff, Z.ltb_ge. lia. }
  rewrite Hb, orb_true_r. reflexivity.
Qed.

(** ** Properties *)

(** Whatever the kernel reports, a sample of the host is valid for the store.
    For a sampler that [NewLinuxSampler] built with the readers of the package,
    after any number of rounds: the sample it returns, with the scope and the
    event counts the collector gives it, passes [validateResourceSample], unless
    a pressure file contained [NaN].  In particular the utilization computed in
    floating point from 64-bit counters lies between zero and one. *)
Theorem host_samples_are_valid view0 config s0 views view sample s' c scope :
  NewLinuxSampler view0 config = Ok s0 -> lc_DiskUsage config = None -> lc_InodeUsage config = None ->
  statfs_typed view -> hv_now view <> zero_time -> Sample view (after_rounds views s0) = (Ok sample, s') ->
  no_nan sample -> complete_scope scope ->
  validateResourceSample (event_deltas c (with_scope scope sample)) = None.
Proof.
  intros Hn Hd Hi Ht Hnow HS. apply (sampled_valid view (after_rounds views s0) sample s'); try done.
  eapply after_rounds_ok, new_sampler_ok; eauto.
Qed.

(** ** Witnesses *)

Definition line (parts : list string) : string := String.concat (String newline "") parts.
Definition demo_files (cpu : string) (path : string) : FileRead :=
  if bool_decide (path = "/proc/stat") then FileData (line [cpu; "cpu0 1 2 3 4"])
  else if bool_decide (path = "/proc/meminfo") then FileData (line ["MemTotal:       16000 kB"; "MemFree: 1 kB"; "MemAvailable:    4000 kB"; ""])
  else if bool_decide (path = "/proc/pressure/cpu") then FileData "some avg10=12.50 avg60=0.00 total=7"
  else if bool_decide (path = "/sys/fs/cgroup/memory.events") then FileData (line ["low 0"; "high 3"; "oom 0"; "oom_kill 0"; ""])
  else if bool_decide (path = "/sys/fs/cgroup/pids.max") then FileData (line ["max"; ""])
  else FileMissing.
Definition demo_view (cpu : string) : HostView :=
  mkView (demo_files cpu) (fun _ => Ok (mkStatfs 1000 4096 250 5000 4000)) (1700000000 * Second) 8 None.
Definition demo_config : LinuxSamplerConfig := mkSamplerConfig "" "" "" "" "/var/lib/autback" 0 None None.
Definition demo_sampler : LinuxSampler :=
  match NewLinuxSampler (demo_view "") demo_config with Ok s => s | Fail _ => mkSampler demo_config (mkCounters 0 0) false end.
Definition demo_rounds : list HostView := [demo_view "cpu 100 0 50 850 0 0"].
Definition demo_collector : Collector := NewCollector (mkCollectorConfig 0 0 0).

Definition demo_last : HostView := demo_view "cpu 125 0 50 900 25 0".
Definition demo_out : res ResourceSample * LinuxSampler := Sample demo_last (after_rounds demo_rounds demo_sampler).
Definition demo_sample : ResourceSample := Eval vm_compute in match demo_out.1 with Ok s => s | Fail _ => demo_at 0 f_zero end.

(** Between the two readings a quarter of the time was spent working. *)
Lemma host_samples_are_valid_witness :
  Sample demo_last (after_rounds demo_rounds demo_sampler) = (Ok demo_sample, demo_out.2) /\
  rs_CPUUtilization demo_sample = f_div (f_of_Z 1) (f_of_Z 4) /\ rs_MemoryUtilization demo_sample = f_div (f_of_Z 3) (f_of_Z 4) /\
  validateResourceSample (event_deltas demo_collector (with_scope (mkScope "project" "job" "job_1") demo_sample)) = None.
Proof.
  assert (E : demo_out = (Ok demo_sample, demo_out.2)) by (rewrite (surjective_pairing demo_out) at 1; f_equal; vm_compute; reflexivity).
  split; [exact E|]. split; [vm_compute; reflexivity|]. split; [vm_compute; reflexivity|].
  apply (host_samples_are_valid (demo_view "") demo_config demo_sampler demo_rounds demo_last demo_sample demo_out.2).
  - reflexivity.
  - reflexivity.
  - reflexivity.
  - intros path st [= <-]. split; split; vm_compute; congruence.
  - vm_compute. congruence.
  - exact E.
  - repeat (apply Forall_cons; split; [vm_compute; discriminate|]). constructor.
  - right. simpl. clear. repeat split; intros H; discriminate H.
Defined.

(** A pressure file with [NaN] passes the range check of the sampler, and the
    store refuses the sample. *)
Lemma nan_pressure_is_refused :
  exists p, pressure_lines CpuSome None ["some avg10=NaN"] zero_pressure = Some p /\ validRatio (ps_cpuSome p) = false.
Proof. exists (mkPressure S754_nan f_zero f_zero f_zero f_zero). split; vm_compute; reflexivity. Qed.
