(* ===== verification/ServerMain.v ===== *)
(** * The server process

    [cmd/autback-server/main.go]: the emergency hook that [newCapacityController]
    gives the capacity host, the values it reads from the environment, the
    routes of the service, and the loop of the reconciler. *)
From Stdlib Require Import Ascii.
From S2P Require Import Prelude Model GoMonad GoLib GoStrings Encoding Table Schema JobStore Lease QueueInv QueueOps QueueSpec QueueSystem QueueTheorems Resources Coordinator Dispatcher DispatchTheorems HumanAuth Capacity Path Text.

(** ** The emergency hook *)

Section Emergency.
Context {R : Type} `{Scheduler R} (cleaner : option (@Cleaner R)).
#[local] Abbreviation WorldM := (M (Database * R)).

Definition describe (operation : Operation) : string := kind_text (op_Kind operation) +:+ " " +:+ op_ID operation.

(** The service of a job is cancelled and removed; errors are logged only. *)
Definition stop_service (operation : Operation) : WorldM unit :=
  match op_Kind operation with
  | OperationJob =>
      _ ← attempt (on_runtime (sch_Cancel (op_ID operation)));
      _ ← attempt (on_runtime (sch_Remove (op_ID operation)));
      mret tt
  | OperationBuild => mret tt
  end.

(** [Emergency]: stop the operation, tear it down and release the worker. *)
Definition Emergency : WorldM unit :=
  stopped ← on_store (EmergencyStopActiveOperation "worker capacity exhausted");
  match stopped with
  | None => mret tt
  | Some operation =>
      _ ← stop_service operation;
      claim ← on_store ClaimOperationCleanup;
      match claim with
      | Some claimed =>
          if bool_decide (op_Kind claimed = op_Kind operation) && bool_decide (op_ID claimed = op_ID operation) then
            errs ← match cleaner with Some clean => clean claimed | None => mret [] end;
            match errs with
            | [] => on_store (CompleteOperationCleanup (op_Kind operation) (op_ID operation))
            | _ => throw (ErrText ("emergency resource cleanup for " +:+ describe operation))
            end
          else throw (ErrText ("claim emergency cleanup for " +:+ describe operation))
      | None => throw (ErrText ("claim emergency cleanup for " +:+ describe operation))
      end
  end.

(** Cleaners remove resources of the runtime and leave the store alone. *)
Definition leaves_store : Prop :=
  forall clean, cleaner = Some clean -> forall o op d r, wp o (clean op) (fun _ w => w.1 = d) (fun _ w => w.1 = d) (d, r).

(** What an emergency may leave: the same line, and the operation it found still
    holding the worker, unless the worker was released. *)
Definition same_holder (d d' : Database) : Prop :=
  waiting (abs (tabs d')) = waiting (abs (tabs d)) /\
  match holder (abs (tabs d)) with
  | Some (k, _) => exists s, holder (abs (tabs d')) = Some (k, s)
  | None => d' = d
  end.

Lemma same_holder_refl d : same_holder d d.
Proof. split; [done|]. destruct (holder (abs (tabs d))) as [[k s]|]; eauto. Qed.

Context (o : Oracle).

Lemma wp_stop_service operation (Q : unit -> Database * R -> Prop) E d r :
  (forall r', Q tt (d, r')) -> wp o (stop_service operation) Q E (d, r).
Proof.
  intros HQ. unfold stop_service. destruct (op_Kind operation); [|by apply wp_ret].
  apply wp_bind, wp_attempt, wp_on_runtime. intros n. destruct (sch_Cancel _ o (r, n)) as [[a|e] [r1 n1]];
    apply wp_bind, wp_attempt, wp_on_runtime; intros n2; destruct (sch_Remove _ o (r1, n2)) as [[a2|e2] [r2 n3]]; by apply wp_ret.
Qed.

(** The teardown of the operation that was just stopped. *)
Lemma wp_emergency_teardown operation k d1 r1 (E : Err -> Database * R -> Prop) (Q : unit -> Database * R -> Prop) :
  leaves_store -> QInv (tabs d1) -> holder (abs (tabs d1)) = Some (k, OperationTerminalizing) -> (op_Kind operation, op_ID operation) = k ->
  (forall d' r', abs (tabs d') = mkLease (waiting (abs (tabs d1))) None -> Q tt (d', r')) ->
  (forall e d' r' s, abs (tabs d') = mkLease (waiting (abs (tabs d1))) (Some (k, s)) -> E e (d', r')) ->
  wp o (claim ← on_store ClaimOperationCleanup;
      match claim with
      | Some claimed =>
          if bool_decide (op_Kind claimed = op_Kind operation) && bool_decide (op_ID claimed = op_ID operation) then
            errs ← match cleaner with Some clean => clean claimed | None => mret [] end;
            match errs with
            | [] => on_store (CompleteOperationCleanup (op_Kind operation) (op_ID operation))
            | _ => throw (ErrText ("emergency resource cleanup for " +:+ describe operation))
            end
          else throw (ErrText ("claim emergency cleanup for " +:+ describe operation))
      | None => throw (ErrText ("claim emergency cleanup for " +:+ describe operation))
      end) Q E (d1, r1).
Proof.
  intros Hclean HI Hh Hop HQ HE.
  assert (Hl1 : abs (tabs d1) = mkLease (waiting (abs (tabs d1))) (Some (k, OperationTerminalizing))) by (rewrite <- Hh; by destruct (abs (tabs d1))).
  apply wp_bind, wp_on_store. eapply wp_mono; [by apply ClaimOperationCleanup_spec| |]; [|intros e d' [-> _]; by eapply HE].
  rewrite Hh. cbn [tearing]. intros c d2 (row & at_ & fd & op & Hin & Ek & Es & -> & Eop & _ & _ & _ & ->).
  destruct (claimed_teardown (tabs d1) row at_ HI Hin) as (HI2 & Hin2 & _); [by rewrite Es|].
  set (d2 := mkDB (with_row (claimed row at_) (tabs d1)) fd) in *.
  assert (Ea2 : abs (tabs d2) = mkLease (waiting (abs (tabs d1))) (Some (k, OperationCleaning))).
  { rewrite <- Ek. apply (abs_with_holder (tabs d1) row (claimed row at_)); [done|done| |done|done]. by rewrite Es. }
  assert (Hk : op_Kind op = op_Kind operation /\ op_ID op = op_ID operation) by (rewrite <- Eop in Hop; by injection Hop as -> ->).
  destruct Hk as [Hk1 Hk2]. rewrite !bool_decide_eq_true_2 by done. cbn [andb].
  assert (Hkey : op_Kind operation = q_kind row /\ op_ID operation = q_operation_id row) by (rewrite <- Ek in Hop; by injection Hop as -> ->).
  destruct Hkey as [-> ->].
  assert (Hfinish : forall errs r', wp o (match errs : JoinedErr with
            | [] => on_store (CompleteOperationCleanup (q_kind row) (q_operation_id row))
            | _ => throw (ErrText ("emergency resource cleanup for " +:+ describe operation)) end) Q E (d2, r')).
  { intros [|e errs] r'; [|apply wp_throw; by eapply HE]. apply wp_on_store.
    eapply wp_mono; [apply (CompleteOperationCleanup_spec o d2 (claimed row at_) HI2 Hin2)| |]; cbn [tearing claimed q_set q_state].
    - intros [] d3 (now3 & fd3 & ->). apply HQ. destruct (completed_teardown (tabs d2) (claimed row at_) now3 HI2 Hin2 eq_refl) as [_ Ea].
      cbn [tabs]. by rewrite Ea, Ea2.
    - intros e d3 [[-> _]|(Hf & _)]; [by eapply HE|discriminate]. }
  apply wp_bind. destruct cleaner as [clean|] eqn:Ec; [|apply wp_ret; exact (Hfinish [] r1)].
  eapply wp_mono; [apply (Hclean clean Ec)| |]; [intros errs [d' r'] Hd; simpl in Hd; subst d'; exact (Hfinish errs r')|intros e [d' r'] Hd; simpl in Hd; subst d'; by eapply HE].
Qed.

Lemma wp_Emergency d r :
  leaves_store -> QInv (tabs d) ->
  wp o Emergency
    (fun _ w => match holder (abs (tabs d)) with
                | Some (_, s) => if leased s then abs (tabs w.1) = mkLease (waiting (abs (tabs d))) None else w = (d, r)
                | None => w = (d, r)
                end)
    (fun _ w => same_holder d w.1) (d, r).
Proof.
  intros Hclean HI. unfold Emergency. apply wp_bind, wp_on_store.
  eapply wp_mono; [apply wp_and; [by apply emergency_stop_lease|by apply EmergencyStopActiveOperation_preserves]| |].
  2:{ intros e d' [[[-> _]|(k & s & _ & _ & -> & _)] _]; apply same_holder_refl. }
  intros stopped d1 [H1 [HI1 _]]. destruct (holder (abs (tabs d))) as [[k s]|] eqn:Eh; [|destruct H1 as [-> ->]; by apply wp_ret].
  destruct (leased s) eqn:El; [|destruct H1 as [-> ->]; by apply wp_ret].
  destruct H1 as ((op & -> & Ek & _) & Ea & _). apply wp_bind, wp_stop_service. intros r1.
  apply (wp_emergency_teardown op k); try done.
  - by rewrite Ea.
  - intros d' r' Ea'. cbn [fst]. by rewrite Ea', Ea.
  - intros e d' r' s' Ea'. split; cbn [fst]; [by rewrite Ea', Ea|]. rewrite Eh, Ea'. by exists s'.
Qed.

End Emergency.

(** The cleaners of the server together leave the store alone if each does. *)
Lemma lifecycle_leaves_store {R} (cleaners : list (option (@Cleaner R))) :
  Forall leaves_store cleaners -> leaves_store (Some (LifecycleCleanup cleaners)).
Proof.
  intros Hall clean [= <-] o op. induction Hall as [|[c|] cleaners Hc _ IH]; intros d r; cbn [LifecycleCleanup]; [by apply wp_ret| |apply IH].
  apply wp_bind. eapply wp_mono; [apply (Hc c eq_refl)| |done]. intros errs [d' r'] E. simpl in E. subst d'.
  apply wp_bind. eapply wp_mono; [apply IH| |done]. intros more w E. by apply wp_ret.
Qed.
Lemma resource_cleaner_leaves_store `{ResourceRuntime R} : leaves_store (Some Cleanup).
Proof. intros clean [= <-] o op d r. eapply wp_mono; [apply (wp_Cleanup o op d r (fun _ _ => False))| |done]. by intros errs w [E _]. Qed.

(** ** The environment *)

(** Commands of the binary. *)
Inductive Command := CommandServe | CommandBootstrap (args : list string) | CommandBackup (args : list string)
| CommandRestore (args : list string) | CommandMaintain (args : list string) | CommandUnknown (name : string).
Definition main (args : list string) : Command :=
  match args with
  | _ :: name :: rest =>
      if bool_decide (name = "bootstrap") then CommandBootstrap rest
      else if bool_decide (name = "backup") then CommandBackup rest
      else if bool_decide (name = "restore") then CommandRestore rest
      else if bool_decide (name = "maintain") then CommandMaintain rest
      else CommandUnknown name
  | _ => CommandServe
  end.

Definition splitValues (value : string) : list string :=
  select (fun item => negb (bool_decide (item = ""))) (map TrimSpace (Split ","%char value)).
Definition splitNames (value : string) : res (list string) :=
  match splitValues value with
  | [] => Fail (ErrText "AUTBACK_SERVER_NAMES must contain at least one DNS name or IP address")
  | names => Ok names
  end.

Section Environment.
Context (getenv : string -> string).

Definition env (name fallback : string) : string := if bool_decide (getenv name = "") then fallback else getenv name.

(** [None] ends the process with a message. *)
Definition durationEnv (name : string) (fallback : duration) : option duration :=
  if bool_decide (getenv name = "") then Some fallback else ParseDuration (getenv name).
Definition int64Env (name : string) (fallback : Z) : option Z :=
  if bool_decide (getenv name = "") then Some fallback else
  parsed ← Atoi (getenv name); if parsed <=? 0 then None else Some parsed.

(** The audiences of OIDC tokens: the list, or the single one of older
    configurations. *)
Definition audiences : list string :=
  splitValues (if bool_decide (getenv "AUTBACK_GITHUB_OIDC_AUDIENCES" = "") then getenv "AUTBACK_GITHUB_OIDC_AUDIENCE"
               else getenv "AUTBACK_GITHUB_OIDC_AUDIENCES").

(** [strings.TrimRight(s, "/")]. *)
Fixpoint drop_bytes (b : Z) (l : list Z) : list Z := match l with x :: rest => if x =? b then drop_bytes b rest else l | [] => [] end.
Definition trim_slashes (s : string) : string := of_bytes (rev (drop_bytes 47 (rev (bytes s)))).

(** The login with GitHub needs its three settings together; [Ok None] is a
    server without it. *)
Definition human_login : res (option (string * string * string)) :=
  let id := getenv "AUTBACK_GITHUB_CLIENT_ID" in
  let key := getenv "AUTBACK_GITHUB_CLIENT_SECRET" in
  let url := trim_slashes (getenv "AUTBACK_PUBLIC_URL") in
  if bool_decide (id = "") && bool_decide (key = "") then Ok None
  else if bool_decide (id = "") || bool_decide (key = "") || bool_decide (url = "")
  then Fail (ErrText "AUTBACK_GITHUB_CLIENT_ID, AUTBACK_GITHUB_CLIENT_SECRET, and AUTBACK_PUBLIC_URL must be configured together")
  else Ok (Some (id, key, url)).

(** Space is reclaimed only on a worker that Autback owns. *)
Definition observe_only (dryRun : bool) : bool := dryRun || negb (bool_decide (getenv "AUTBACK_WORKER_OWNERSHIP" = "exclusive")).

End Environment.

(** [net.SplitHostPort] and [net.JoinHostPort]. *)
Definition SplitHostPort (hostport : string) : option (string * string) :=
  host ← SplitHostPort_host (bytes hostport);
  '(_, port) ← split_last 58 (bytes hostport);
  Some (of_bytes host, of_bytes port).
Definition JoinHostPort (host port : string) : string :=
  if has 58 (bytes host) then "[" +:+ host +:+ "]:" +:+ port else host +:+ ":" +:+ port.

Definition endpoint (serverName listen : string) : string :=
  match SplitHostPort listen with
  | Some (_, port) => if bool_decide (port = "") then listen else JoinHostPort serverName port
  | None => listen
  end.

Example endpoints :
  (endpoint "ci.example" ":50052", endpoint "::1" "0.0.0.0:1235", endpoint "ci.example" "socket", endpoint "ci.example" "host:")
  = ("ci.example:50052", "[::1]:1235", "socket", "host:").
Proof. vm_compute. reflexivity. Qed.

(** ** Certificates of the control listener *)

(** [strings.EqualFold]: ASCII letters directly, other strings through the
    tables. *)
Class FoldTables := { unicode_equal_fold : string -> string -> bool }.
Definition EqualFold `{FoldTables} (a b : string) : bool :=
  if ascii_only a && ascii_only b then bool_decide (map lower_byte (bytes a) = map lower_byte (bytes b)) else unicode_equal_fold a b.

(** What the listener presents: the files of the private certificate, or a
    choice by server name. *)
Inductive ControlTLS := PrivateFiles (certificate key : string) | ByName (domain : string).
Inductive Certificate := AcmeCertificate | PrivateCertificate.

(** [private] tells whether the private certificate loads, [cache] whether the
    cache directory can be created. *)
Definition controlTLS (pkiDir : string) (names : list string) (acmeDomain : string) (cache : option Err) (private : bool) : res ControlTLS :=
  if bool_decide (acmeDomain = "") then Ok (PrivateFiles (Join pkiDir "server.pem") (Join pkiDir "server-key.pem"))
  else if negb (bool_decide (acmeDomain ∈ names)) then Fail (ErrText "AUTBACK_ACME_DOMAIN must be included in AUTBACK_SERVER_NAMES")
  else match cache with
       | Some e => Fail e
       | None => if private then Ok (ByName acmeDomain) else Fail (ErrText "load private control certificate")
       end.
Definition GetCertificate `{FoldTables} (domain serverName : string) : Certificate :=
  if EqualFold serverName domain then AcmeCertificate else PrivateCertificate.

(** ** Routes *)

Inductive Routed := ToConsole | ToAuth | ToControl | RedirectTo (path : string).

(** [http.ServeMux] cleans the path and keeps its last slash. *)
Definition cleanPath (path : string) : string :=
  if bool_decide (path = "") then "/" else
  let rooted := if HasPrefix path "/" then path else "/" +:+ path in
  let clean := Clean rooted in
  if HasSuffix rooted "/" && negb (bool_decide (clean = "/")) then clean +:+ "/" else clean.

(** [serviceHandler]: the console, the login pages if there are any, and the
    control API for everything else. *)
Definition serviceHandler (auth : bool) (path : string) : Routed :=
  let clean := cleanPath path in
  if auth && bool_decide (clean = "/auth") then RedirectTo "/auth/"
  else if negb (bool_decide (clean = path)) then RedirectTo clean
  else if bool_decide (clean = "/app") || HasPrefix clean "/app/" then ToConsole
  else if auth && HasPrefix clean "/auth/" then ToAuth
  else ToControl.

Example routes :
  map (serviceHandler true) ["/app"; "/app/jobs"; "/apps"; "/auth"; "/auth/login"; "/autback.v1.Control/Submit"; "/app/../auth/login"; "/"] =
  [ToConsole; ToConsole; ToControl; RedirectTo "/auth/"; ToAuth; ToControl; RedirectTo "/auth/login"; ToControl].
Proof. vm_compute. reflexivity. Qed.

(** ** Loops *)

Section Loops.
Context {W : Type}.

(** [runReconciler]: a round at once and one per tick until the context ends;
    errors are logged. *)
Fixpoint reconcile_ticks (round : M W unit) (ticks : nat) : M W unit :=
  match ticks with O => mret tt | S n => _ ← attempt round; reconcile_ticks round n end.
Definition runReconciler (round : M W unit) (ticks : nat) : M W unit := _ ← attempt round; reconcile_ticks round ticks.
End Loops.

(** ** The emergency *)

(** C7: the emergency hook of the capacity host frees the worker or leaves the
    operation in charge of it.  From every reachable database, with cleaners that
    leave the store alone: if an operation is admitted or active, the hook stops
    it, tears it down and releases the worker for the next in line, whose order
    it does not change; if it reports an error, at whatever point, the line is
    the same and the same operation still holds the worker, so its teardown can
    be resumed; otherwise it does nothing. *)
Theorem emergency_frees_the_worker `{Scheduler R} o cleaner d r :
  reachable d -> leaves_store cleaner ->
  wp o (Emergency cleaner)
    (fun _ w => match holder (abs (tabs d)) with
                | Some (_, s) => if leased s then abs (tabs w.1) = mkLease (waiting (abs (tabs d))) None else w = (d, r)
                | None => w = (d, r)
                end)
    (fun _ w => same_holder d w.1) (d, r).
Proof. intros Hr Hc. apply wp_Emergency; [done|]. by apply reachable_QInv. Qed.

(** The admitted job of [demo_state] is stopped, the build behind it is next. *)
Lemma emergency_frees_the_worker_witness :
  wp demo_oracle (@Emergency Services_state demo_scheduler None)
    (fun _ w => abs (tabs w.1) = mkLease [(OperationBuild, demo_build_id)] None) (fun _ w => same_holder demo_state w.1) (demo_state, []).
Proof.
  assert (Ha : abs (tabs demo_state) = mkLease [(OperationBuild, demo_build_id)] (Some ((OperationJob, demo_job_id), OperationAdmitting)))
    by (vm_compute; reflexivity).
  eapply wp_mono; [apply (@emergency_frees_the_worker Services_state demo_scheduler demo_oracle None demo_state)| |].
  - apply demo_reachable.
  - intros clean E. discriminate E.
  - rewrite Ha. intros u w E. exact E.
  - intros e w E. exact E.
Defined.
