(* ===== verification/Recovery.v ===== *)
(** * Backup and restore

    [internal/control/recovery/recovery.go]: a backup is a directory with the
    snapshot of the database, the token pepper and the PKI, and a manifest of
    their digests; a restore checks every digest before it copies the files into
    a new data directory.  Both work in a temporary directory and publish it by a
    rename.  The file system is the one of [Secrets]: it maps the elements of
    paths to files, and directories are implicit. *)
From stdpp Require Import gmap.
From Stdlib Require Import Ascii.
From S2P Require Import Prelude Model GoMonad GoLib GoStrings Path Encoding HumanAuth Secrets.

(** ** The manifest *)

Record manifest := mkManifest { bm_Format : Z; bm_CreatedAt : time; bm_Files : gmap string string }.

(** The times that JSON can represent: the years up to 9999. *)
Definition json_time (t : time) : Prop := 0 <= t < 253402300800 * Second.

(** The JSON of a manifest. *)
Class BackupCodec := {
  backup_Marshal : manifest -> option (list Z);
  backup_Unmarshal : list Z -> option manifest;
  backup_marshals : forall m, json_time (bm_CreatedAt m) -> is_Some (backup_Marshal m);
  backup_round_trip : forall m data, json_time (bm_CreatedAt m) ->
    map_Forall (fun name digest => ascii_only name = true /\ ascii_only digest = true) (bm_Files m) ->
    backup_Marshal m = Some data -> backup_Unmarshal (data ++ [10]) = Some m
}.

(** The source of the database snapshot: on success the file holds it, and only
    this file is written. *)
Class Snapshotter := {
  sn_data : list Z;
  sn_Backup : string -> M FS unit;
  sn_backup_law : forall o path fs,
    wp o (sn_Backup path) (fun _ fs' => exists mode, fs' = <[path_key path := mkFile sn_data true mode]> fs)
      (fun _ fs' => ~ reliable o /\ forall k, k <> path_key path -> fs' !! k = fs !! k) fs
}.

Definition requiredFiles : list string := ["control/control.db"; "control/token-pepper"; "pki/ca.pem"; "pki/ca-key.pem"].

(** [filepath.Dir]. *)
Definition Dir (path : string) : string :=
  match split_last 47 (bytes path) with
  | Some (front, _) => Clean (of_bytes (front ++ [47]))
  | None => "."
  end.

Definition safeRelative (name : string) : bool :=
  negb (bool_decide (name = "")) && bool_decide (Clean name = name) && negb (IsAbs name)
  && negb (bool_decide (name = "..")) && negb (HasPrefix name "../").

(** ** Files *)

(** A deferred [os.RemoveAll]. *)
Definition defer_remove {A : Type} (path : string) (m : M FS A) : M FS A :=
  r ← attempt m;
  _ ← attempt (os_RemoveAll path);
  match r with Ok a => mret a | Fail e => throw e end.

(** [os.Stat]: whether something is there. *)
Definition os_Exists (path : string) : M FS bool := query (fun fs => bool_decide (below (path_key path) fs <> ∅)).

(** [os.Rename] of a directory refuses a name in use. *)
Definition rename_new (a b : string) : M FS unit :=
  used ← os_Exists b;
  if used : bool then throw (ErrText "file exists") else os_Rename a b.

Definition copyRegular (source destination : string) : M FS unit :=
  file ← query (fun fs => fs !! path_key source);
  match file with
  | None => throw ErrNotExist
  | Some f =>
      if negb (fl_regular f) then throw (ErrText (source +:+ " is not a regular file")) else
      _ ← may_fail;
      _ ← os_MkdirAll (Dir destination);
      used ← os_Exists destination;
      if used : bool then throw (ErrText "file exists") else
      _ ← os_WriteFile destination (fl_data f) 384;
      may_fail
  end.

(** [filepath.WalkDir] visits the files below a directory in this order. *)
Fixpoint elements_le (a b : list string) : bool :=
  match a, b with
  | [], _ => true
  | _ :: _, [] => false
  | x :: a', y :: b' => if bool_decide (x = y) then elements_le a' b' else String.leb x y
  end.
Definition files_below (dir : list string) (fs : FS) : list (list string * File) :=
  order_by (fun a b => elements_le a.1 b.1) (map (fun kf => (drop (length dir) kf.1, kf.2)) (map_to_list (below dir fs))).

Fixpoint copy_entries (source destination : string) (entries : list (list string * File)) : M FS unit :=
  match entries with
  | [] => mret tt
  | (relative, f) :: rest =>
      if negb (fl_regular f) then throw (ErrText ("backup source contains non-regular file " +:+ join_slash relative)) else
      _ ← copyRegular (Join source (join_slash relative)) (Join destination (join_slash relative));
      copy_entries source destination rest
  end.
Definition copyTree (source destination : string) : M FS unit :=
  present ← os_Exists source;
  if negb present then throw ErrNotExist else
  entries ← query (fun fs => files_below (path_key source) fs);
  copy_entries source destination entries.

Section Recovery.
Context `{Sha256} `{BackupCodec}.

Definition digest (data : list Z) : string := hex_encode (sha256 data).
Definition hashFile (path : string) : M FS string := data ← os_ReadFile path; mret (digest data).

Fixpoint hash_entries (root : string) (entries : list (list string * File)) (result : gmap string string) : M FS (gmap string string) :=
  match entries with
  | [] => mret result
  | (relative, f) :: rest =>
      if negb (fl_regular f) then throw (ErrText ("backup contains non-regular file " +:+ join_slash relative)) else
      h ← hashFile (Join root (join_slash relative));
      hash_entries root rest (<[join_slash relative := h]> result)
  end.
Definition hashes (root : string) : M FS (gmap string string) :=
  entries ← query (fun fs => files_below (path_key root) fs); hash_entries root entries ∅.

(** A name of the list that the files lack. *)
Definition missing (files : gmap string string) : option string :=
  List.find (fun name => negb (bool_decide (is_Some (files !! name)))) requiredFiles.

(** ** Backup *)

Definition assemble `{Snapshotter} (dataDir temporary output : string) : M FS unit :=
  _ ← os_Chmod temporary 448;
  let database := Join (Join temporary "control") "control.db" in
  _ ← os_MkdirAll (Dir database);
  _ ← sn_Backup database;
  _ ← copyRegular (Join (Join dataDir "control") "token-pepper") (Join (Join temporary "control") "token-pepper");
  _ ← copyTree (Join dataDir "pki") (Join temporary "pki");
  files ← hashes temporary;
  match missing files with
  | Some name => throw (ErrText ("backup source is missing " +:+ name))
  | None =>
      now ← time_Now;
      match backup_Marshal (mkManifest 1 now files) with
      | None => throw (ErrText "json: error calling MarshalJSON")
      | Some data => _ ← os_WriteFile (Join temporary "manifest.json") (data ++ [10]) 384; rename_new temporary output
      end
  end.

Definition Create `{Snapshotter} (dataDir output : string) : M FS unit :=
  if bool_decide (dataDir = "") || bool_decide (output = "") then throw (ErrText "snapshotter, data directory, and output are required") else
  used ← os_Exists output;
  if used : bool then throw (ErrText "backup output already exists") else
  let parent := Dir output in
  _ ← os_MkdirAll parent;
  temporary ← os_MkdirTemp parent ".autback-backup-";
  defer_remove temporary (assemble dataDir temporary output).

(** ** Restore *)

Fixpoint verify (input : string) (files : list (string * string)) : M FS unit :=
  match files with
  | [] => mret tt
  | (name, want) :: rest =>
      if negb (safeRelative name) then throw (ErrText ("unsafe backup path " +:+ name)) else
      got ← hashFile (Join input name);
      if negb (bool_decide (got = want)) then throw (ErrText ("backup checksum mismatch for " +:+ name)) else
      verify input rest
  end.

Fixpoint copy_names (input temporary : string) (names : list string) : M FS unit :=
  match names with
  | [] => mret tt
  | name :: rest => _ ← copyRegular (Join input name) (Join temporary name); copy_names input temporary rest
  end.

Definition populate (input temporary dataDir : string) (names : list string) : M FS unit :=
  _ ← os_Chmod temporary 448;
  _ ← copy_names input temporary names;
  rename_new temporary dataDir.

(** The files are checked in the order of the map, and copied in the order of
    their names. *)
Definition Restore (input dataDir : string) : M FS unit :=
  if bool_decide (input = "") || bool_decide (dataDir = "") then throw (ErrText "backup input and data directory are required") else
  used ← os_Exists dataDir;
  if used : bool then throw (ErrText "restore data directory already exists") else
  data ← os_ReadFile (Join input "manifest.json");
  match backup_Unmarshal data with
  | None => throw (ErrText "decode backup manifest")
  | Some m =>
      if negb (bm_Format m =? 1) || bool_decide (bm_Files m = ∅) then throw (ErrText "unsupported or empty backup manifest") else
      _ ← verify input (map_to_list (bm_Files m));
      match missing (bm_Files m) with
      | Some name => throw (ErrText ("backup is missing " +:+ name))
      | None =>
          let parent := Dir dataDir in
          _ ← os_MkdirAll parent;
          temporary ← os_MkdirTemp parent ".autback-restore-";
          defer_remove temporary (populate input temporary dataDir (order_by String.leb (map fst (map_to_list (bm_Files m)))))
      end
  end.

End Recovery.
