(* ===== verification/RecoveryTheorems.v ===== *)
(** * Backups are complete and restores are verified

    A restore publishes exactly the files that the manifest names, with the
    digests it gives, or nothing; a backup of a data directory restores to the
    files it was made of. *)
From stdpp Require Import gmap.
From Stdlib Require Import Ascii.
From S2P Require Import Prelude Model GoMonad GoLib GoStrings Path Encoding HumanAuth Validate ValidateTheorems Secrets SecretsTheorems Recovery.

(** ** Names *)

(** A safe name is a path of proper elements, or the directory itself. *)
Lemma safe_parts name :
  safeRelative name = true -> name = "." \/ exists parts, parts <> [] /\ Forall proper parts /\ name = join_slash parts.
Proof.
  unfold safeRelative. intros H. split_bools.
  match goal with H : Clean name = name |- _ => rename H into Hc end.
  destruct (inside_names name) as [E|(parts & Hne & Hp & E)]; [done| |left; congruence|right; exists parts; split; [done|]; split; [done|congruence]].
  rewrite Hc. unfold escapes. apply orb_false_iff. split; [by apply bool_decide_eq_false|done].
Qed.

Lemma safe_names parts : parts <> [] -> Forall proper parts -> safeRelative (join_slash parts) = true.
Proof.
  intros Hne Hp. destruct (join_relative parts Hne Hp) as [Ha H0]. unfold safeRelative.
  rewrite (Clean_names parts Hne Hp), Ha, (bool_decide_eq_false_2 _ H0), bool_decide_eq_true_2 by done. simpl.
  destruct parts as [|c parts]; [done|]. inversion Hp as [|? ? (C1 & C2 & C3 & C4) Hr]; subst.
  apply andb_true_iff. split; apply negb_true_iff.
  - apply bool_decide_eq_false. intros E. assert (Hs : split_slash (join_slash (c :: parts)) = c :: parts) by (apply split_join; [done|by apply proper_plain]).
    rewrite E in Hs. injection Hs as E1 E2. by apply C3.
  - unfold HasPrefix. destruct (String.prefix "../" (join_slash (c :: parts))) eqn:E; [|done]. exfalso.
    apply prefix_app_string in E as [rest E]. assert (Hs : split_slash (join_slash (c :: parts)) = c :: parts) by (apply split_join; [done|by apply proper_plain]).
    rewrite E in Hs. change ("../" +:+ rest) with (".." +:+ String "/"%char rest) in Hs. rewrite split_slash_sep in Hs.
    injection Hs as E1 _. by apply C3.
Qed.

(** The elements of a name. *)
Abbreviation parts_of := split_slash.

Lemma parts_of_join parts : parts <> [] -> Forall proper parts -> parts_of (join_slash parts) = parts.
Proof. intros Hne Hp. apply split_join; [done|by apply proper_plain]. Qed.

Lemma join_key dir name :
  IsAbs dir = true -> safeRelative name = true -> name <> "." -> path_key (Join dir name) = path_key dir ++ parts_of name.
Proof.
  intros Ha Hs Hn. destruct (safe_parts name Hs) as [|(parts & Hne & Hp & ->)]; [done|]. rewrite parts_of_join by done. by apply path_key_Join.
Qed.

Lemma parts_of_inj a b : safeRelative a = true -> safeRelative b = true -> a <> "." -> b <> "." -> parts_of a = parts_of b -> a = b.
Proof.
  intros Ha Hb Na Nb. destruct (safe_parts a Ha) as [|(pa & Hna & Hpa & ->)]; [done|]. destruct (safe_parts b Hb) as [|(pb & Hnb & Hpb & ->)]; [done|].
  rewrite !parts_of_join by done. by intros ->.
Qed.

(** ** Operations on files *)

Section Files.
Context (o : Oracle).
Implicit Types (path source destination pattern : string) (dir : list string) (fs : FS).

(** The file systems that differ only below a directory. *)
Definition same_except (dir : list string) (fs fs' : FS) : Prop := forall k, ~ dir `prefix_of` k -> fs' !! k = fs !! k.

#[global] Instance same_except_preorder dir : PreOrder (same_except dir).
Proof. split; [done|]. intros f1 f2 f3 H1 H2 k Hk. rewrite H2, H1 by done. done. Qed.

Lemma same_except_insert dir k f fs : dir `prefix_of` k -> same_except dir fs (<[k := f]> fs).
Proof. intros Hp k' Hk. rewrite lookup_insert_ne; [done|]. by intros ->. Qed.

Lemma same_except_outside dir fs fs' : same_except dir fs fs' -> same_except dir fs (outside dir fs').
Proof. intros H k Hk. rewrite lookup_outside by done. by apply H. Qed.

Lemma below_empty dir fs k : below dir fs = ∅ -> dir `prefix_of` k -> fs !! k = None.
Proof.
  intros Hb Hp. destruct (fs !! k) as [f|] eqn:E; [|done]. exfalso.
  assert (H : below dir fs !! k = Some f) by (by apply map_lookup_filter_Some). by rewrite Hb, lookup_empty in H.
Qed.

Lemma wp_Exists path (Q : bool -> FS -> Prop) (E : Err -> FS -> Prop) fs :
  Q (bool_decide (below (path_key path) fs <> ∅)) fs -> (forall e, ~ reliable o -> E e fs) -> wp o (os_Exists path) Q E fs.
Proof. intros HQ HE. apply wp_query; [done|]. intros s Hs. apply HE. intros Hr. by eapply reliable_fails. Qed.

Lemma wp_may_fail_r (Q : unit -> FS -> Prop) (E : Err -> FS -> Prop) fs : Q tt fs -> (forall e, ~ reliable o -> E e fs) -> wp o may_fail Q E fs.
Proof. intros HQ HE. apply wp_may_fail; [done|]. intros s Hs. apply HE. intros Hr. by eapply reliable_fails. Qed.

Lemma wp_ReadFile_r path (Q : list Z -> FS -> Prop) (E : Err -> FS -> Prop) fs :
  (forall f, fs !! path_key path = Some f -> Q (fl_data f) fs) -> (forall e, ~ reliable o -> E e fs) ->
  (fs !! path_key path = None -> E ErrNotExist fs) -> wp o (os_ReadFile path) Q E fs.
Proof.
  intros HQ HE HN. apply wp_bind, wp_query; [|intros s Hs; apply HE; intros Hr; by eapply reliable_fails].
  destruct (fs !! path_key path) as [f|]; [apply wp_ret, HQ; done|apply wp_throw, HN; done].
Qed.

(** [copyRegular] writes one new file. *)
Lemma wp_copyRegular source destination (Q : unit -> FS -> Prop) (E : Err -> FS -> Prop) fs :
  (forall f mode, fs !! path_key source = Some f -> fl_regular f = true -> below (path_key destination) fs = ∅ ->
     Q tt (<[path_key destination := mkFile (fl_data f) true mode]> fs)) ->
  (forall e fs', (reliable o -> fs !! path_key source = None \/ (exists f, fs !! path_key source = Some f /\ fl_regular f = false) \/ below (path_key destination) fs <> ∅) ->
     same_except (path_key destination) fs fs' -> E e fs') ->
  wp o (copyRegular source destination) Q E fs.
Proof.
  intros HQ HE. unfold copyRegular. apply wp_bind, wp_query; [|intros s Hs; apply HE; [intros Hr; by destruct (reliable_fails o s)|done]].
  destruct (fs !! path_key source) as [f|] eqn:Ef; [|apply wp_throw, HE; [by left|done]].
  destruct (fl_regular f) eqn:Er; simpl; [|apply wp_throw, HE; [right; left; eauto|done]].
  apply wp_bind, wp_may_fail_r; [|intros e Hr; by apply HE]. apply wp_bind. unfold os_MkdirAll. apply wp_may_fail_r; [|intros e Hr; by apply HE].
  apply wp_bind, wp_Exists; [|intros e Hr; by apply HE]. case_bool_decide as Eb; [apply wp_throw, HE; [by right; right|done]|].
  assert (Hb : below (path_key destination) fs = ∅) by (by destruct (decide (below (path_key destination) fs = ∅))).
  apply wp_bind, wp_WriteFile; [|intros e f' Hr; apply HE; [done|by apply same_except_insert]]. intros mode.
  apply wp_may_fail_r; [by apply HQ|]. intros e Hr. apply HE; [done|]. by apply same_except_insert.
Qed.

(** A deferred removal tidies the temporary directory up. *)
Lemma wp_defer_remove {A} path (m : M FS A) (Q : A -> FS -> Prop) (E : Err -> FS -> Prop) fs :
  wp o m (fun a fs' => Q a (outside (path_key path) fs') /\ (~ reliable o -> Q a fs'))
         (fun e fs' => E e (outside (path_key path) fs') /\ (~ reliable o -> E e fs')) fs ->
  wp o (defer_remove path m) Q E fs.
Proof.
  intros Hm. unfold defer_remove. apply wp_bind, wp_attempt. eapply wp_mono; [exact Hm| |].
  - intros a fs' [H1 H2]. apply wp_bind, wp_attempt, wp_RemoveAll; [by apply wp_ret|]. intros e Hr. by apply wp_ret, H2.
  - intros e fs' [H1 H2]. apply wp_bind, wp_attempt, wp_RemoveAll; [by apply wp_throw|]. intros e' Hr. by apply wp_throw, H2.
Qed.

(** A fresh directory. *)
Lemma wp_TempDir (dir : string) pattern (Q : string -> FS -> Prop) (E : Err -> FS -> Prop) fs :
  IsAbs dir = true -> (forall x, Forall (fun b => 0 <= b < 256) x -> proper (pattern +:+ hex_encode x)) ->
  (forall t temporary, proper (pattern +:+ t) -> IsAbs temporary = true -> path_key temporary = path_key dir ++ [pattern +:+ t] ->
     below (path_key temporary) fs = ∅ -> Q temporary fs) ->
  (forall e, (reliable o -> e = ErrText "file exists") -> E e fs) ->
  wp o (os_MkdirTemp dir pattern) Q E fs.
Proof.
  intros Hdir Hpat HQ HE. unfold os_MkdirTemp. apply wp_bind. apply wp_rand_Read; [|intros s Hs; apply HE; intros Hr; by destruct (reliable_fails o s)].
  intros x _ Hx. cbv zeta. set (t := pattern +:+ hex_encode x). assert (Ht : proper t) by (by apply Hpat).
  assert (Ekey : path_key (dir +:+ "/" +:+ t) = path_key dir ++ [t]) by (apply (path_key_sep dir [t]); [done|by constructor]).
  assert (Habs : IsAbs (dir +:+ "/" +:+ t) = true).
  { unfold IsAbs, HasPrefix in *. apply prefix_app_string in Hdir as [r ->]. apply prefix_app_string. by eexists. }
  apply wp_bind, wp_query; [|intros s Hs; apply HE; intros Hr; by destruct (reliable_fails o s)]. case_bool_decide as Eb; [by apply wp_throw, HE|].
  apply wp_ret. apply (HQ (hex_encode x)); try done.
Qed.

End Files.

Lemma split_last_prefix b l : hd 0 l = b -> l <> [] -> exists front back, split_last b l = Some (front, back) /\ (front = [] \/ hd 0 front = b).
Proof.
  destruct l as [|x l]; [done|]. simpl. intros -> _. destruct (split_last b l) as [[front back]|]; [eexists _, _; split; [done|]; by right|].
  rewrite Z.eqb_refl. eexists _, _. split; [done|]. by left.
Qed.

Lemma Dir_abs path : IsAbs path = true -> IsAbs (Dir path) = true.
Proof.
  intros Ha. unfold IsAbs, HasPrefix in Ha. apply prefix_app_string in Ha as [r ->]. unfold Dir.
  change ("/" +:+ r) with (String "/"%char r). cbn [bytes]. destruct (split_last_prefix 47 (byte_of "/"%char :: bytes r)) as (front & back & -> & Hf); [done|done|].
  assert (Hs : exists rest, of_bytes (front ++ [47]) = String "/"%char rest).
  { destruct Hf as [->|Hf]; [by exists ""|]. destruct front as [|x front]; [by exists ""|]. simpl in Hf. subst x. by eexists. }
  destruct Hs as [rest ->]. unfold Clean. rewrite IsAbs_slash. change ("/" +:+ ?x) with (String "/"%char x). apply IsAbs_slash.
Qed.

Lemma pattern_proper pattern x :
  (2 < String.length pattern)%nat -> has_byte "/"%char pattern = false -> Forall (fun b => 0 <= b < 256) x -> proper (pattern +:+ hex_encode x).
Proof.
  intros Hl Hb Hx. assert (Hlen : (2 < String.length (pattern +:+ hex_encode x))%nat).
  { clear -Hl. induction pattern as [|c p IH]; simpl in *; [lia|]. destruct p as [|c2 [|c3 p]]; simpl in *; lia. }
  repeat split; try (intros E; rewrite E in Hlen; simpl in Hlen; lia). rewrite has_byte_app, Hb. apply has_slash. by apply hex_bytes.
Qed.

(** ** Restore *)

Section Restore.
Context `{Sha256} `{BackupCodec} (o : Oracle) (input dataDir : string).
Context (Hin : IsAbs input = true) (Hdata : IsAbs dataDir = true).
Implicit Types (fs : FS) (name : string).
#[local] Abbreviation I := (path_key input).
#[local] Abbreviation D := (path_key dataDir).

(** A file of the manifest with its digest. *)
Definition checked fs (entry : string * string) : Prop :=
  safeRelative entry.1 = true /\ exists f, fs !! path_key (Join input entry.1) = Some f /\ digest (fl_data f) = entry.2.

Lemma wp_verify (files : list (string * string)) fs (Q : unit -> FS -> Prop) (E : Err -> FS -> Prop) :
  (Forall (checked fs) files -> Q tt fs) -> (forall e, (reliable o -> ~ Forall (checked fs) files) -> E e fs) -> wp o (verify input files) Q E fs.
Proof using.
  revert Q E. induction files as [|[name want] files IH]; intros Q E HQ HE; cbn [verify]; [apply wp_ret, HQ; constructor|].
  destruct (safeRelative name) eqn:Es; cbn [negb]; [|apply wp_throw, HE; intros _ Hf; apply Forall_cons in Hf as [[Hs _] _]; simpl in Hs; congruence].
  apply wp_bind. unfold hashFile. apply wp_bind, wp_ReadFile_r.
  - intros f Hf. apply wp_ret. case_bool_decide as Ed; cbn [negb].
    + apply IH; [intros Hall; apply HQ; constructor; [|done]; split; [done|]; eauto|]. intros e He. apply HE. intros Hr Hall. apply (He Hr). by apply Forall_cons in Hall as [_ ?].
    + apply wp_throw, HE. intros _ Hall. apply Forall_cons in Hall as [(_ & f' & Hf' & Hd) _]. simpl in Hf', Hd. congruence.
  - intros e Hr. by apply HE.
  - intros Hn. apply HE. intros _ Hall. apply Forall_cons in Hall as [(_ & f' & Hf' & _) _]. simpl in Hf'. congruence.
Qed.

Section Copy.
Context (temporary : string) (Htemp : IsAbs temporary = true) (fs0 : FS) (Hfresh : below (path_key temporary) fs0 = ∅).
#[local] Abbreviation T := (path_key temporary).

(** The files [names] have been copied, and nothing else has changed. *)
Definition staged (names : list string) fs : Prop :=
  (forall name, name ∈ names -> exists f mode, fs0 !! (I ++ parts_of name) = Some f /\ fs !! (T ++ parts_of name) = Some (mkFile (fl_data f) true mode)) /\
  forall k, (forall name, name ∈ names -> k <> T ++ parts_of name) -> fs !! k = fs0 !! k.

Lemma staged_same (names : list string) fs : staged names fs -> same_except T fs0 fs.
Proof using. intros [_ H2] k Hk. apply H2. intros name _ ->. apply Hk. by eexists. Qed.

Definition named name : Prop := safeRelative name = true /\ name <> "." /\ is_Some (fs0 !! (I ++ parts_of name)).
Definition regular_source name : Prop := exists f, fs0 !! (I ++ parts_of name) = Some f /\ fl_regular f = true.
Definition antichain (names : list string) : Prop := forall a b, a ∈ names -> b ∈ names -> parts_of a `prefix_of` parts_of b -> a = b.

Lemma source_apart name : named name -> ~ T `prefix_of` (I ++ parts_of name).
Proof using Hfresh. intros (_ & _ & [f Hf]) Hp. by rewrite (below_empty T fs0) in Hf. Qed.

Lemma staged_source (names : list string) fs name : staged names fs -> named name -> fs !! (I ++ parts_of name) = fs0 !! (I ++ parts_of name).
Proof using Hfresh. intros Hs Hn. apply (staged_same _ _ Hs). by apply source_apart. Qed.

Lemma staged_insert (done : list string) fs name f mode :
  staged done fs -> Forall named (done ++ [name]) -> name ∉ done -> fs0 !! (I ++ parts_of name) = Some f ->
  staged (done ++ [name]) (<[T ++ parts_of name := mkFile (fl_data f) true mode]> fs).
Proof using.
  intros [H1 H2] Hn Hnot Hf. rewrite Forall_app in Hn. destruct Hn as [Hd Hn]. apply Forall_cons in Hn as [(Hs & Hdot & _) _]. rewrite Forall_forall in Hd. split.
  - intros name' [Hin'|Heq%list_elem_of_singleton]%elem_of_app.
    + destruct (H1 _ Hin') as (f' & mode' & Hf' & Hfs). exists f', mode'. split; [done|]. rewrite lookup_insert_ne; [done|].
      intros E. apply app_inv_head in E. destruct (Hd _ Hin') as (Hs' & Hdot' & _). apply parts_of_inj in E; [|done..]. subst. done.
    + subst name'. exists f, mode. split; [done|]. by rewrite lookup_insert_eq.
  - intros k Hk. rewrite lookup_insert_ne; [|intros <-; apply (Hk name); [apply elem_of_app; right; constructor|done]].
    apply H2. intros name' Hin'. apply Hk. apply elem_of_app. by left.
Qed.

Lemma wp_copy_names (names : list string) : forall (done : list string) fs (Q : unit -> FS -> Prop) (E : Err -> FS -> Prop),
  staged done fs -> Forall named (done ++ names) -> NoDup (done ++ names) ->
  (forall fs', staged (done ++ names) fs' -> Q tt fs') ->
  (forall e fs', (reliable o -> ~ (Forall regular_source (done ++ names) /\ antichain (done ++ names))) -> same_except T fs0 fs' -> E e fs') ->
  wp o (copy_names input temporary names) Q E fs.
Proof using Hin Htemp Hfresh.
  induction names as [|name names IH]; intros done fs Q E Hs Hn Hnd HQ HE; cbn [copy_names].
  { apply wp_ret, HQ. by rewrite app_nil_r. }
  assert (Hname : named name) by (rewrite Forall_app in Hn; destruct Hn as [_ Hn]; by apply Forall_cons in Hn as [? _]).
  pose proof Hname as (Hsafe & Hdot & Hsome).
  apply wp_bind, wp_copyRegular; rewrite !join_key by done.
  - intros f mode Hf Hreg Hempty. rewrite (staged_source done fs name Hs Hname) in Hf.
    apply (IH (done ++ [name])); rewrite <- ?(assoc_L (++)); simpl; try done. apply staged_insert; try done.
    + rewrite (cons_middle name done names), (assoc_L (++)) in Hn. by apply Forall_app in Hn as [? _].
    + intros Hd. apply NoDup_app in Hnd as (_ & Hdis & _). apply (Hdis name Hd). constructor.
  - intros e fs' Hbad Hsame. apply HE.
    + intros Hr [Hreg Hanti]. destruct (Hbad Hr) as [Hnone|[(f & Hf & Hnr)|Hex]].
      * rewrite (staged_source done fs name Hs Hname) in Hnone. destruct Hsome as [f Hf]. congruence.
      * rewrite (staged_source done fs name Hs Hname) in Hf. rewrite Forall_forall in Hreg.
        destruct (Hreg name) as (f' & Hf' & Hr'); [apply elem_of_app; right; constructor|]. congruence.
      * apply Hex. apply map_eq. intros k. rewrite lookup_empty. apply map_lookup_filter_None. right. intros f Hf [rel Erel]. simpl in Erel. subst k.
        destruct Hs as [H1 H2]. destruct (decide (Exists (fun n => parts_of n = parts_of name ++ rel) done)) as [Hx|Hx].
        -- apply Exists_exists in Hx as (n & Hn' & En). assert (name = n).
           { apply Hanti; [apply elem_of_app; right; constructor|apply elem_of_app; by left|]. rewrite En. by eexists. }
           subst n. apply NoDup_app in Hnd as (_ & Hdis & _). apply (Hdis name Hn'). constructor.
        -- rewrite H2, (below_empty T fs0) in Hf; [done|done|rewrite <- (assoc_L (++)); by eexists|].
           intros n Hn' E'. rewrite <- (assoc_L (++)) in E'. apply app_inv_head in E'. apply Hx. apply Exists_exists. eauto.
    + etrans; [by eapply staged_same|]. intros k Hk. apply Hsame. intros [r Er]. apply Hk. rewrite Er, <- (assoc_L (++)). by eexists.
Qed.

End Copy.

(** ** Publishing a directory *)

(** [dataDir] is none of the temporary directories beside it, nor above or below
    one. *)
Definition beside (pattern path : string) : Prop :=
  forall t, let dir := path_key (Dir path) ++ [pattern +:+ t] in ~ dir `prefix_of` path_key path /\ ~ path_key path `prefix_of` dir.

Lemma apart_prefix (a b k : list string) : ~ a `prefix_of` b -> ~ b `prefix_of` a -> a `prefix_of` k -> ~ b `prefix_of` k.
Proof using. intros H1 H2 Ha Hb. destruct (prefix_weak_total a b k Ha Hb); done. Qed.

(** The directory [a] renamed to the unused [b]. *)
Lemma wp_rename_new (a b : string) fs (Q : unit -> FS -> Prop) (E : Err -> FS -> Prop) :
  let A := path_key a in let B := path_key b in
  ~ A `prefix_of` B -> ~ B `prefix_of` A ->
  (forall fs', (forall rel, fs' !! (B ++ rel) = fs !! (A ++ rel)) -> (forall k, ~ A `prefix_of` k -> ~ B `prefix_of` k -> fs' !! k = fs !! k) ->
     (forall k, A `prefix_of` k -> fs' !! k = None) -> below B fs = ∅ -> Q tt fs') ->
  (forall e, (reliable o -> below B fs <> ∅) -> E e fs) ->
  wp o (rename_new a b) Q E fs.
Proof using.
  intros A B H1 H2 HQ HE. unfold rename_new. apply wp_bind, wp_Exists; [|intros e Hr; by apply HE]. case_bool_decide as Eb; [by apply wp_throw, HE|].
  assert (Hb : below B fs = ∅) by (destruct (decide (below B fs = ∅)); [done|by destruct Eb]).
  unfold os_Rename. apply wp_statement; [|intros m Hm; apply HE; intros Hr; by destruct (reliable_fails o m)]. fold A B. apply HQ; [| | |done].
  - intros rel. destruct (fs !! (A ++ rel)) as [f|] eqn:Ef.
    + apply lookup_union_Some_l. by rewrite lookup_moved.
    + rewrite lookup_union_r by (by rewrite lookup_moved). rewrite lookup_outside by (apply (apart_prefix B A); [done|done|by eexists]).
      apply (below_empty B fs); [done|by eexists].
  - intros k Ha HB. rewrite lookup_union_r by (by apply lookup_moved_None). by apply lookup_outside.
  - intros k Ha. rewrite lookup_union_r by (apply lookup_moved_None; by apply (apart_prefix A B)). apply map_lookup_filter_None. right. intros f _ Hn. by apply Hn.
Qed.

(** ** The whole restore *)

(** The backup that a restore accepts: its manifest, with every file it names in
    place and unchanged. *)
Definition restorable fs (m : manifest) : Prop :=
  (exists f, fs !! (I ++ ["manifest.json"]) = Some f /\ backup_Unmarshal (fl_data f) = Some m) /\ bm_Format m = 1 /\
  (forall name, name ∈ requiredFiles -> is_Some (bm_Files m !! name)) /\
  forall name want, bm_Files m !! name = Some want ->
    safeRelative name = true /\ name <> "." /\ exists f, fs !! (I ++ parts_of name) = Some f /\ digest (fl_data f) = want.

(** The data directory holds the files of the manifest and nothing else; the
    rest of the file system is as before. *)
Definition restored fs (m : manifest) (fs' : FS) : Prop :=
  (forall name want, bm_Files m !! name = Some want ->
     exists f mode, fs !! (I ++ parts_of name) = Some f /\ fs' !! (D ++ parts_of name) = Some (mkFile (fl_data f) true mode)) /\
  (forall rel, is_Some (fs' !! (D ++ rel)) -> exists name, is_Some (bm_Files m !! name) /\ rel = parts_of name) /\
  (forall k, ~ D `prefix_of` k -> fs' !! k = fs !! k).

Lemma dot_key path : IsAbs path = true -> path_key (Join path ".") = path_key path.
Proof using.
  intros Ha. assert (Hne : path <> "") by (by intros ->). unfold Join. rewrite !bool_decide_eq_false_2 by done.
  change (path +:+ "/" +:+ ".") with (path +:+ String "/"%char ".").
  assert (Hs : IsAbs (path +:+ String "/"%char ".") = true).
  { unfold IsAbs, HasPrefix in *. apply prefix_app_string in Ha as [r ->]. apply prefix_app_string. by eexists. }
  destruct (Clean_absolute _ Hs) as [-> Hp]. unfold absolute, path_key at 1. rewrite clean_parts_abs by done.
  unfold path_key, clean_parts. rewrite split_slash_sep, fold_left_app. reflexivity.
Qed.

Lemma missing_none (files : gmap string string) : missing files = None <-> forall name, name ∈ requiredFiles -> is_Some (files !! name).
Proof using.
  unfold missing. split.
  - intros Hn name Hname. apply list_elem_of_In in Hname. pose proof (List.find_none _ _ Hn _ Hname) as Hf. cbv beta in Hf. by split_bools.
  - intros Hall. destruct (List.find _ requiredFiles) as [name|] eqn:E; [|done]. apply List.find_some in E as [Hname Hf]. split_bools.
    exfalso. apply Hf, Hall. by apply list_elem_of_In.
Qed.

(** What lets a restore succeed on a reliable system. *)
Definition ready fs (m : manifest) : Prop :=
  restorable fs m /\ below D fs = ∅ /\
  let names := map fst (map_to_list (bm_Files m)) in Forall (regular_source fs) names /\ antichain names.

Context (Hbeside : beside ".autback-restore-" dataDir).

Lemma wp_populate (temporary t : string) (names : list string) fs (Q : unit -> FS -> Prop) (E : Err -> FS -> Prop) :
  IsAbs temporary = true -> path_key temporary = path_key (Dir dataDir) ++ [".autback-restore-" +:+ t] -> below (path_key temporary) fs = ∅ ->
  Forall (named fs) names -> NoDup names ->
  (forall fs', (forall name, name ∈ names -> exists f mode, fs !! (I ++ parts_of name) = Some f /\ fs' !! (D ++ parts_of name) = Some (mkFile (fl_data f) true mode)) ->
     (forall rel, is_Some (fs' !! (D ++ rel)) -> exists name, name ∈ names /\ rel = parts_of name) ->
     (forall k, ~ D `prefix_of` k -> fs' !! k = fs !! k) -> Q tt fs') ->
  (forall e fs', (reliable o -> ~ (Forall (regular_source fs) names /\ antichain names /\ below D fs = ∅)) -> same_except (path_key temporary) fs fs' -> E e fs') ->
  wp o (populate input temporary dataDir names) Q E fs.
Proof using Hin Hbeside.
  intros Ha Hkey Hfresh Hn Hnd HQ HE. destruct (Hbeside t) as [B1 B2]. rewrite <- Hkey in B1, B2. unfold populate.
  apply wp_bind. unfold os_Chmod. apply wp_may_fail_r; [|intros e Hr; by apply HE].
  apply wp_bind. apply (wp_copy_names temporary Ha fs Hfresh names []); [split; [by intros ? ?%elem_of_nil|done]|done|done| |].
  2:{ intros e fs' He Hs. apply HE; [|done]. intros Hr (A1 & A2 & _). by apply (He Hr). }
  intros fs1 Hs. pose proof (staged_same temporary fs _ _ Hs) as Hsame. destruct Hs as [S1 S2]. simpl in S1, S2. apply wp_rename_new; [done|done| |].
  - intros fs2 L1 L2 L3 Hb. apply HQ.
    + intros name Hname. destruct (S1 name Hname) as (f & mode & Hf & Hfs). exists f, mode. split; [done|]. by rewrite L1.
    + intros rel [f Hf]. rewrite L1 in Hf. destruct (decide (Exists (fun n => parts_of n = rel) names)) as [Hx|Hx].
      * apply Exists_exists in Hx as (n & Hn' & <-). eauto.
      * rewrite S2, (below_empty (path_key temporary) fs) in Hf; [done|done|by eexists|]. intros n Hn' E'. apply app_inv_head in E'. apply Hx, Exists_exists. eauto.
    + intros k Hk. destruct (decide (path_key temporary `prefix_of` k)) as [Hp|Hp].
      * rewrite L3 by done. symmetry. by apply (below_empty (path_key temporary) fs).
      * rewrite L2 by done. by apply Hsame.
  - intros e He. apply HE; [|done]. intros Hr (_ & _ & Hb). apply (He Hr). apply map_eq. intros k. rewrite lookup_empty.
    apply map_lookup_filter_None. right. intros f Hf Hp. simpl in Hp. rewrite Hsame in Hf by (by apply (apart_prefix D (path_key temporary))).
    by rewrite (below_empty D fs) in Hf.
Qed.

Lemma wp_Restore fs :
  fs !! I = None -> input <> "" -> dataDir <> "" ->
  wp o (Restore input dataDir) (fun _ fs' => exists m, restorable fs m /\ restored fs m fs')
    (fun e fs' => (exists t, same_except (path_key (Dir dataDir) ++ [".autback-restore-" +:+ t]) fs fs') /\
       (reliable o -> e = ErrText "file exists" \/ forall m, ~ ready fs m)) fs.
Proof using Hin Hdata Hbeside.
  intros Hroot Hi Hd.
  assert (Hquiet : forall e, (reliable o -> forall m, ~ ready fs m) ->
    (exists t, same_except (path_key (Dir dataDir) ++ [".autback-restore-" +:+ t]) fs fs) /\ (reliable o -> e = ErrText "file exists" \/ forall m, ~ ready fs m)).
  { intros e He. split; [by exists ""|]. intros Hr. right. auto. }
  unfold Restore. rewrite !bool_decide_eq_false_2 by done. cbn [orb].
  apply wp_bind, wp_Exists; [|intros e Hr; by apply Hquiet]. case_bool_decide as Eb; [apply wp_throw, Hquiet; intros _ m (_ & Hb & _); done|].
  assert (Hmp : proper "manifest.json") by (by repeat split). destruct (path_key_child _ _ Hin Hmp) as [Em _].
  apply wp_bind, wp_ReadFile_r; [|intros e Hr; by apply Hquiet|].
  2:{ intros Hnone. apply Hquiet. intros _ m (((f & Hf & _) & _) & _). rewrite Em in Hnone. congruence. }
  intros fm Hfm. rewrite Em in Hfm.
  assert (Hread : forall m f, fs !! (I ++ ["manifest.json"]) = Some f -> backup_Unmarshal (fl_data f) = Some m -> backup_Unmarshal (fl_data fm) = Some m) by (intros; congruence).
  destruct (backup_Unmarshal (fl_data fm)) as [m|] eqn:Eu; [|apply wp_throw, Hquiet; intros _ m (((f & Hf & Hu) & _) & _); specialize (Hread m f Hf Hu); discriminate].
  assert (Hsame : forall m', restorable fs m' -> m' = m) by (intros m' ((f & Hf & Hu) & _); specialize (Hread m' f Hf Hu); congruence).
  destruct (negb (bm_Format m =? 1) || bool_decide (bm_Files m = ∅)) eqn:G.
  { apply wp_throw, Hquiet. intros _ m' (Hres & _). pose proof (Hsame m' Hres) as ->. destruct Hres as (_ & Hf & Hreq & _). apply orb_true_iff in G as [G|G]; split_bools; [done|].
    destruct (Hreq "pki/ca.pem") as [x Hx]; [apply elem_of_cons; right; apply elem_of_cons; right; constructor|]. by rewrite G, lookup_empty in Hx. }
  split_bools.
  assert (Hchecked : restorable fs m -> Forall (checked fs) (map_to_list (bm_Files m))).
  { intros (_ & _ & _ & Hall). apply Forall_forall. intros [name want] Hin'. apply elem_of_map_to_list in Hin'. destruct (Hall _ _ Hin') as (Hs & Hdot & f & Hf & Hdig).
    split; [done|]. simpl. exists f. by rewrite join_key. }
  apply wp_bind, wp_verify; [|intros e He; apply Hquiet; intros Hr m' (Hres & _); pose proof (Hsame m' Hres) as ->; by apply (He Hr), Hchecked].
  intros Hall. destruct (missing (bm_Files m)) as [name|] eqn:Emis.
  { apply wp_throw, Hquiet. intros _ m' (Hres & _). pose proof (Hsame m' Hres) as ->. destruct Hres as (_ & _ & Hreq & _). by apply missing_none in Hreq; rewrite Hreq in Emis. }
  assert (Hres : restorable fs m).
  { split; [eauto|]. split; [done|]. split; [by apply missing_none|]. intros name want Hw. rewrite Forall_forall in Hall.
    destruct (Hall (name, want)) as (Hs & f & Hf & Hdig); [by apply elem_of_map_to_list|]. simpl in *. split; [done|].
    assert (Hdot : name <> ".") by (intros ->; rewrite dot_key in Hf by done; congruence). split; [done|]. exists f. by rewrite <- join_key. }
  set (names := order_by String.leb (map fst (map_to_list (bm_Files m)))).
  assert (Hperm : names ≡ₚ map fst (map_to_list (bm_Files m))) by apply order_by_perm.
  assert (Hnames : forall name, name ∈ names <-> exists want, bm_Files m !! name = Some want).
  { intros name. rewrite Hperm. rewrite list_elem_of_In, List.in_map_iff. setoid_rewrite <- list_elem_of_In. split.
    - intros ([n w] & <- & Hnw). apply elem_of_map_to_list in Hnw. eauto.
    - intros [w Hw]. exists (name, w). split; [done|]. by apply elem_of_map_to_list. }
  apply wp_bind. unfold os_MkdirAll. apply wp_may_fail_r; [|intros e Hr; by apply Hquiet].
  apply wp_bind, wp_TempDir; [by apply Dir_abs|intros x Hx; apply pattern_proper; [simpl; lia|reflexivity|done]| |intros e He; split; [by exists ""|]; intros Hr; left; by apply He].
  intros t temporary Ht Habs Hkey Hfresh. apply wp_defer_remove. apply (wp_populate temporary t); try done.
  - apply Forall_forall. intros name [want Hw]%Hnames. destruct Hres as (_ & _ & _ & Hr). destruct (Hr _ _ Hw) as (Hs & Hdot & f & Hf & _). split; [done|]. split; [done|]. by eexists.
  - rewrite Hperm. apply NoDup_fst_map_to_list.
  - intros fs' P1 P2 P3. destruct (Hbeside t) as [B1 B2]. rewrite <- Hkey in B1, B2.
    assert (Hr : restored fs m fs').
    { split; [intros name want Hw; apply P1, Hnames; eauto|]. split; [|done]. intros rel Hrel. destruct (P2 rel Hrel) as (name & [want Hw]%Hnames & ->). exists name. by split. }
    split; [|eauto]. exists m. split; [done|]. destruct Hr as (R1 & R2 & R3).
    assert (Hout : forall rel, outside (path_key temporary) fs' !! (D ++ rel) = fs' !! (D ++ rel)).
    { intros rel. apply lookup_outside. apply (apart_prefix D (path_key temporary)); [done|done|by eexists]. }
    split; [intros name want Hw; destruct (R1 name want Hw) as (f & mode & Hf & Hfs); exists f, mode; by rewrite Hout|].
    split; [intros rel; rewrite Hout; apply R2|]. intros k Hk. destruct (decide (path_key temporary `prefix_of` k)) as [Hp|Hp]; [|rewrite lookup_outside by done; by apply R3].
    rewrite (below_empty (path_key temporary) fs) by done. apply map_lookup_filter_None. right. intros f _ Hn. by apply Hn.
  - intros e fs' He Hs. assert (Hbad : reliable o -> e = ErrText "file exists" \/ forall m', ~ ready fs m').
    { intros Hr. right. intros m' (Hres' & Hb & Hreg & Hanti). pose proof (Hsame m' Hres') as ->. apply (He Hr). split; [by rewrite Hperm|]. split; [|done].
      intros a b Ha Hb'. apply Hanti; by rewrite <- Hperm. }
    rewrite Hkey in *. split; [split; [|done]; exists t; by apply same_except_outside|]. intros _. split; [|done]. by exists t.
Qed.

End Restore.


(** ** File systems of a host *)

(** Names are proper elements of ASCII bytes, and a file is not a directory. *)
Record sane (fs : FS) : Prop := {
  sane_names : forall k f, fs !! k = Some f -> Forall proper k /\ Forall (fun x => ascii_only x = true) k;
  sane_tree : forall k k' f f', fs !! k = Some f -> fs !! k' = Some f' -> k `prefix_of` k' -> k = k'
}.

Lemma join_not_dot parts : parts <> [] -> Forall proper parts -> join_slash parts <> ".".
Proof.
  intros Hne Hp E. pose proof (parts_of_join parts Hne Hp) as Hs. rewrite E in Hs. simpl in Hs. subst parts. apply Forall_cons in Hp as [(_ & H & _) _]. by apply H.
Qed.

Lemma join_inj a b : a <> [] -> b <> [] -> Forall proper a -> Forall proper b -> join_slash a = join_slash b -> a = b.
Proof. intros Ha Hb Pa Pb E. by rewrite <- (parts_of_join a), <- (parts_of_join b), E. Qed.

Lemma ascii_app a b : ascii_only a = true -> ascii_only b = true -> ascii_only (a +:+ b) = true.
Proof. unfold ascii_only. rewrite bytes_app, forallb_app. by intros -> ->. Qed.

Lemma join_ascii parts : Forall (fun x => ascii_only x = true) parts -> ascii_only (join_slash parts) = true.
Proof.
  induction 1 as [|x parts Hx Hp IH]; [done|]. destruct parts as [|y parts]; [done|]. unfold join_slash in *.
  change (String.concat "/" (x :: y :: parts)) with (x +:+ ("/" +:+ String.concat "/" (y :: parts))). apply ascii_app; [done|]. by apply ascii_app.
Qed.

Lemma hex_ascii l : Forall (fun b => 0 <= b < 256) l -> ascii_only (hex_encode l) = true.
Proof.
  unfold ascii_only. induction 1 as [|b l Hb _ IH]; [done|]. cbn [hex_encode bytes forallb]. rewrite IH, andb_true_r.
  assert (Hd : forall n, 0 <= n < 16 -> (byte_of (hex_digit n) <? 128) = true) by (intros n Hn; pose proof (hex_digit_byte n Hn); lia).
  rewrite !Hd; [done|apply Z.mod_pos_bound; lia|]. split; [apply Z.div_pos; lia|apply Z.div_lt_upper_bound; lia].
Qed.

(** Entries of a walk. *)
Lemma elem_of_files_below (dir : list string) (fs : FS) (rel : list string) (f : File) : (rel, f) ∈ files_below dir fs <-> fs !! (dir ++ rel) = Some f.
Proof.
  unfold files_below. rewrite order_by_perm. rewrite list_elem_of_In, List.in_map_iff. setoid_rewrite <- list_elem_of_In. split.
  - intros ([k f'] & E & Hin). simpl in E. injection E as <- <-.
    apply elem_of_map_to_list, map_lookup_filter_Some in Hin as [Hf [r Hr]]. simpl in Hr. subst k. by rewrite drop_app_length.
  - intros Hf. exists (dir ++ rel, f). cbn [fst snd]. rewrite drop_app_length. split; [done|]. apply elem_of_map_to_list, map_lookup_filter_Some. split; [done|]. by eexists.
Qed.

Lemma files_below_NoDup (dir : list string) (fs : FS) : NoDup (files_below dir fs).*1.
Proof.
  unfold files_below. rewrite order_by_perm. rewrite <- list_fmap_compose.
  assert (Hp : Forall (fun kf : list string * File => dir `prefix_of` kf.1) (map_to_list (below dir fs))).
  { apply Forall_forall. intros [k f] Hin. apply elem_of_map_to_list, map_lookup_filter_Some in Hin as [_ Hp]. exact Hp. }
  pose proof (NoDup_fst_map_to_list (below dir fs)) as Hnd. revert Hp Hnd. generalize (map_to_list (below dir fs)) as l.
  induction l as [|[k f] l IH]; intros Hp Hnd; [constructor|]. apply Forall_cons in Hp as [[r Hr] Hp]. simpl in Hr. subst k.
  apply NoDup_cons in Hnd as [Hni Hnd]. apply NoDup_cons. split; [|by apply IH]. intros Hin. apply Hni.
  apply list_elem_of_fmap in Hin as ([k' f'] & E & Hin). cbn in E. rewrite Forall_forall in Hp. destruct (Hp _ Hin) as [r' Hr']. simpl in Hr'. subst k'.
  rewrite !drop_app_length in E. subst r'. apply list_elem_of_fmap. by exists (dir ++ r, f').
Qed.

(** ** Backup *)

(** A directory whose files have exactly these contents. *)
Definition tree_is (base : list string) (content : list string -> option (list Z)) (fs : FS) : Prop :=
  forall rel, match content rel with
              | Some data => exists mode, fs !! (base ++ rel) = Some (mkFile data true mode)
              | None => fs !! (base ++ rel) = None
              end.

Lemma tree_is_some base content fs rel f :
  tree_is base content fs -> fs !! (base ++ rel) = Some f -> content rel = Some (fl_data f) /\ fl_regular f = true.
Proof. intros Ht Hf. specialize (Ht rel). rewrite Hf in Ht. destruct (content rel) as [data|]; [destruct Ht as [mode E]; by simplify_eq|done]. Qed.

Section Hashes.
Context `{Sha256} (o : Oracle) (Hrel : reliable o).

Definition add_digest (result : gmap string string) (entry : list string * File) : gmap string string :=
  <[join_slash entry.1 := digest (fl_data entry.2)]> result.

Lemma wp_hash_entries (root : string) (fs : FS) (entries : list (list string * File)) (result : gmap string string) (Q : gmap string string -> FS -> Prop) E :
  IsAbs root = true ->
  Forall (fun e => e.1 <> [] /\ Forall proper e.1 /\ fl_regular e.2 = true /\ fs !! (path_key root ++ e.1) = Some e.2) entries ->
  Q (fold_left add_digest entries result) fs -> wp o (hash_entries root entries result) Q E fs.
Proof using Hrel.
  intros Ha. revert result. induction entries as [|[rel f] entries IH]; intros result Hall HQ; cbn [hash_entries]; [by apply wp_ret|].
  apply Forall_cons in Hall as [(Hne & Hp & Hr & Hf) Hall]. cbn [fst snd] in *. rewrite Hr. cbn [negb].
  destruct (path_key_Join root rel Ha Hne Hp) as [Ek _]. apply wp_bind. unfold hashFile. apply wp_bind, wp_ReadFile_r; rewrite ?Ek.
  - intros f' Hf'. rewrite Hf in Hf'. injection Hf' as <-. apply wp_ret. by apply IH.
  - intros e He. by destruct He.
  - intros Hn. congruence.
Qed.

Lemma lookup_digests (entries : list (list string * File)) : forall (result : gmap string string) (name want : string),
  NoDup (map (fun e => join_slash e.1) entries) ->
  (fold_left add_digest entries result) !! name = Some want <->
  (exists rel f, (rel, f) ∈ entries /\ name = join_slash rel /\ want = digest (fl_data f)) \/
  ((name ∉ map (fun e => join_slash e.1) entries) /\ result !! name = Some want).
Proof using.
  induction entries as [|[rel f] entries IH]; intros result name want Hnd.
  { simpl. split; [intros Hr; right; split; [apply not_elem_of_nil|done]|intros [(? & ? & Hin & _)|[_ Hr]]; [by apply elem_of_nil in Hin|done]]. }
  cbn [map] in Hnd. apply NoDup_cons in Hnd as [Hni Hnd]. cbn [fold_left map]. rewrite IH by done. unfold add_digest at 1. cbn [fst snd] in *. split.
  - intros [(r & g & Hin & -> & ->)|[Hn Hl]].
    + left. exists r, g. split; [by right|done].
    + destruct (decide (name = join_slash rel)) as [->|Hd].
      * rewrite lookup_insert_eq in Hl. injection Hl as <-. left. exists rel, f. split; [by left|done].
      * rewrite lookup_insert_ne in Hl by done. right. split; [|done]. by rewrite not_elem_of_cons.
  - intros [(r & g & [Heq|Hin]%elem_of_cons & -> & ->)|[[Hd Hn]%not_elem_of_cons Hl]].
    + injection Heq as -> ->. right. split; [done|]. by rewrite lookup_insert_eq.
    + left. eauto.
    + right. split; [done|]. by rewrite lookup_insert_ne.
Qed.

End Hashes.

Lemma copy_entries_names (source destination : string) (entries : list (list string * File)) :
  Forall (fun e => fl_regular e.2 = true) entries ->
  copy_entries source destination entries = copy_names source destination (map (fun e => join_slash e.1) entries).
Proof. induction 1 as [|[rel f] entries Hr _ IH]; [done|]. cbn [copy_entries copy_names map fst snd] in *. by rewrite Hr, IH. Qed.

Lemma prefix_last {A} (a b : list A) x : a `prefix_of` b ++ [x] -> a `prefix_of` b \/ a = b ++ [x].
Proof.
  intros [r Hr]. induction r as [|y r _] using rev_ind; [right; by rewrite app_nil_r in Hr|left].
  rewrite (assoc_L (++)) in Hr. apply app_inj_tail in Hr as [-> _]. by eexists.
Qed.

Lemma NoDup_joined (l : list (list string)) : NoDup l -> Forall (fun rel => rel <> [] /\ Forall proper rel) l -> NoDup (map join_slash l).
Proof.
  induction 1 as [|rel l Hni Hnd IH]; intros Hall; cbn [map]; [constructor|]. apply Forall_cons in Hall as [[Hne Hp] Hall]. apply NoDup_cons. split; [|by apply IH].
  intros Hin. rewrite list_elem_of_In, List.in_map_iff in Hin. destruct Hin as (r & E & Hr). rewrite <- list_elem_of_In in Hr.
  rewrite Forall_forall in Hall. destruct (Hall r Hr) as [Hne' Hp']. apply join_inj in E; [|done..]. by subst.
Qed.

Section Backup.
Context `{Sha256} `{BackupCodec} `{Snapshotter} (o : Oracle) (Hrel : reliable o) (Hclock : forall n, json_time (o_clock o n)).
Context (Hsha : forall data, Forall (fun b => 0 <= b < 256) (sha256 data)).
Context (dataDir output : string) (Hdata : IsAbs dataDir = true) (Hout : IsAbs output = true).
#[local] Abbreviation DD := (path_key dataDir).
#[local] Abbreviation O := (path_key output).

(** What is backed up: the database, the pepper and the tree of the PKI. *)
Definition content (fs : FS) (rel : list string) : option (list Z) :=
  if bool_decide (rel = ["control"; "control.db"]) then Some sn_data
  else if bool_decide (rel = ["control"; "token-pepper"]) || bool_decide (head rel = Some "pki") then fl_data <$> fs !! (DD ++ rel)
  else None.

(** A data directory that can be backed up. *)
Record complete_source (fs : FS) : Prop := {
  cs_sane : sane fs;
  cs_pepper : exists f, fs !! (DD ++ ["control"; "token-pepper"]) = Some f /\ fl_regular f = true;
  cs_cert : is_Some (fs !! (DD ++ ["pki"; "ca.pem"]));
  cs_key : is_Some (fs !! (DD ++ ["pki"; "ca-key.pem"]));
  cs_regular : forall rel f, fs !! (DD ++ "pki" :: rel) = Some f -> fl_regular f = true
}.

Context (fs : FS) (Hcs : complete_source fs).

Lemma content_cases rel data : content fs rel = Some data ->
  (rel = ["control"; "control.db"] /\ data = sn_data) \/
  ((rel = ["control"; "token-pepper"] \/ exists rest, rel = "pki" :: rest /\ rest <> []) /\ exists f, fs !! (DD ++ rel) = Some f /\ data = fl_data f).
Proof using Hcs.
  unfold content. case_bool_decide as E1; [intros [= <-]; by left|]. destruct (_ || _) eqn:E2; [|done]. intros E. right.
  apply fmap_Some in E as (f & Hf & ->). split; [|eauto]. apply orb_true_iff in E2 as [E2|E2]; apply bool_decide_eq_true in E2; [by left|right].
  destruct rel as [|x rest]; [done|]. injection E2 as ->. exists rest. split; [done|]. intros ->.
  destruct (cs_cert fs Hcs) as [f' Hf']. assert (E : DD ++ ["pki"] = DD ++ ["pki"; "ca.pem"]).
  { eapply (sane_tree fs (cs_sane fs Hcs)); [done..|]. exists ["ca.pem"]. by rewrite <- (assoc_L (++)). }
  apply app_inv_head in E. done.
Qed.

Lemma content_names rel data : content fs rel = Some data -> rel <> [] /\ Forall proper rel /\ Forall (fun x => ascii_only x = true) rel.
Proof using Hcs.
  intros E. destruct (content_cases rel data E) as [[-> _]|[Hrel' (f & Hf & _)]].
  { split; [done|]. split; repeat constructor; done. }
  destruct (sane_names fs (cs_sane fs Hcs) _ _ Hf) as [Hp Ha]. rewrite Forall_app in Hp, Ha. split; [|split; [apply Hp|apply Ha]].
  destruct Hrel' as [->|(rest & -> & _)]; done.
Qed.

Lemma content_antichain a b x y : content fs a = Some x -> content fs b = Some y -> a `prefix_of` b -> a = b.
Proof using Hcs.
  intros Ea Eb [r Er]. destruct (content_cases _ _ Ea) as [[-> _]|[Ra (f & Hf & _)]], (content_cases _ _ Eb) as [[-> _]|[Rb (g & Hg & _)]]; [done| | |].
  - destruct Rb as [->|(rest & -> & _)]; discriminate Er.
  - destruct Ra as [->|(rest & -> & _)]; discriminate Er.
  - apply (app_inv_head DD). eapply (sane_tree fs (cs_sane fs Hcs)); [done..|]. rewrite Er, (assoc_L (++)). by eexists.
Qed.

Section Assemble.
Context (temporary : string) (Htemp : IsAbs temporary = true) (Hfresh : below (path_key temporary) fs = ∅).
#[local] Abbreviation T := (path_key temporary).
Context (Hpki : ~ (DD ++ ["pki"]) `prefix_of` T).

Lemma source_outside k f : fs !! k = Some f -> ~ T `prefix_of` k.
Proof using Hfresh. intros Hf Hp. by rewrite (below_empty T fs) in Hf. Qed.

(** The database and the pepper have been written. *)
Definition controlled (fs2 : FS) : Prop :=
  exists m1 m2 f, fs !! (DD ++ ["control"; "token-pepper"]) = Some f /\
    fs2 = <[T ++ ["control"; "token-pepper"] := mkFile (fl_data f) true m2]> (<[T ++ ["control"; "control.db"] := mkFile sn_data true m1]> fs).

Lemma controlled_same fs2 : controlled fs2 -> same_except T fs fs2.
Proof using. intros (m1 & m2 & f & _ & ->). etrans; apply same_except_insert; by eexists. Qed.

Lemma controlled_lookup fs2 rel : controlled fs2 ->
  match content fs rel with
  | Some data => head rel = Some "pki" \/ exists mode, fs2 !! (T ++ rel) = Some (mkFile data true mode)
  | None => True
  end /\ (head rel <> Some "control" -> fs2 !! (T ++ rel) = None) /\ (content fs rel = None -> fs2 !! (T ++ rel) = None).
Proof using Hfresh.
  intros (m1 & m2 & f & Hf & ->).
  assert (Hnone : fs !! (T ++ rel) = None) by (apply (below_empty T fs); [done|by eexists]).
  destruct (decide (rel = ["control"; "token-pepper"])) as [->|N2].
  { unfold content. rewrite bool_decide_eq_false_2, bool_decide_eq_true_2 by done. cbn [orb]. rewrite Hf. cbn [fmap option_fmap option_map].
    split; [right; exists m2; by rewrite lookup_insert_eq|]. by split. }
  rewrite lookup_insert_ne by (intros E; apply app_inv_head in E; congruence).
  destruct (decide (rel = ["control"; "control.db"])) as [->|N1].
  { unfold content. rewrite bool_decide_eq_true_2 by done. split; [right; exists m1; by rewrite lookup_insert_eq|]. by split. }
  rewrite lookup_insert_ne by (intros E; apply app_inv_head in E; congruence). split; [|by split].
  unfold content. rewrite (bool_decide_eq_false_2 _ N1), (bool_decide_eq_false_2 _ N2). cbn [orb]. case_bool_decide; [|done].
  destruct (fs !! (DD ++ rel)); [by left|done].
Qed.

Lemma pki_apart : ~ T `prefix_of` (DD ++ ["pki"]).
Proof using Hcs Hfresh.
  intros [r Hr]. destruct (cs_cert fs Hcs) as [f Hf]. apply (source_outside _ _ Hf). exists (r ++ ["ca.pem"]).
  change ["pki"; "ca.pem"] with (["pki"] ++ ["ca.pem"]). by rewrite (assoc_L (++)), Hr, <- (assoc_L (++)).
Qed.

Lemma pki_same (fs2 : FS) (rest : list string) : same_except T fs fs2 -> fs2 !! (DD ++ ["pki"] ++ rest) = fs !! (DD ++ ["pki"] ++ rest).
Proof using Hcs Hfresh Hpki.
  intros Hs. apply Hs. apply (apart_prefix (DD ++ ["pki"]) T); [done|apply pki_apart|]. exists rest. by rewrite <- (assoc_L (++)).
Qed.

Lemma pki_file (rest : list string) (f : File) : fs !! (DD ++ ["pki"] ++ rest) = Some f ->
  rest <> [] /\ Forall proper rest /\ fl_regular f = true /\ content fs ("pki" :: rest) = Some (fl_data f).
Proof using Hcs.
  intros Hf. assert (Hc : content fs ("pki" :: rest) = Some (fl_data f)).
  { unfold content. rewrite bool_decide_eq_false_2 by done. rewrite (bool_decide_eq_true_2 (head ("pki" :: rest) = _)) by done. rewrite orb_true_r. simpl in Hf. by rewrite Hf. }
  split; [|split; [|split; [by eapply (cs_regular fs Hcs)|done]]].
  - intros ->. destruct (content_cases _ _ Hc) as [[? _]|[[?|(rest & [= <-] & ?)] _]]; done.
  - destruct (content_names _ _ Hc) as (_ & Hp & _). by apply Forall_cons in Hp as [_ ?].
Qed.

Lemma wp_copyTree (fs2 : FS) (Q : unit -> FS -> Prop) (E : Err -> FS -> Prop) : controlled fs2 ->
  (forall fs3, tree_is T (content fs) fs3 -> same_except T fs fs3 -> Q tt fs3) ->
  wp o (copyTree (Join dataDir "pki") (Join temporary "pki")) Q E fs2.
Proof using Hrel Hdata Hcs Htemp Hfresh Hpki.
  intros Hc HQ. pose proof (controlled_same fs2 Hc) as Hs. assert (Hproper : proper "pki") by (by repeat split).
  destruct (path_key_child dataDir "pki" Hdata Hproper) as [KS AS]. destruct (path_key_child temporary "pki" Htemp Hproper) as [KT AT].
  unfold copyTree. apply wp_bind, wp_Exists; [|intros e He; by destruct He]. rewrite KS. rewrite bool_decide_eq_true_2.
  2:{ intros Hb. destruct (cs_cert fs Hcs) as [f Hf]. change ["pki"; "ca.pem"] with (["pki"] ++ ["ca.pem"]) in Hf.
      rewrite <- (pki_same fs2) in Hf by done. rewrite (assoc_L (++)) in Hf. rewrite (below_empty _ _ _ Hb) in Hf; [done|by eexists]. }
  cbn [negb]. apply wp_bind, wp_query; [|intros s Hf; by destruct (reliable_fails o s)]. set (entries := files_below (DD ++ ["pki"]) fs2).
  assert (Hent : forall rest f, (rest, f) ∈ entries <-> fs !! (DD ++ ["pki"] ++ rest) = Some f).
  { intros rest f. unfold entries. by rewrite elem_of_files_below, <- (assoc_L (++)), pki_same. }
  assert (Hall : Forall (fun e => e.1 <> [] /\ Forall proper e.1 /\ fl_regular e.2 = true) entries).
  { apply Forall_forall. intros [rest f] Hin%Hent. destruct (pki_file _ _ Hin) as (? & ? & ? & _). done. }
  rewrite copy_entries_names by (eapply Forall_impl; [exact Hall|]; by intros [? ?] (_ & _ & ?)).
  set (names := map (fun e : list string * File => join_slash e.1) entries).
  assert (Hnames : forall name, name ∈ names <-> exists rest f, fs !! (DD ++ ["pki"] ++ rest) = Some f /\ name = join_slash rest).
  { intros name. unfold names. rewrite list_elem_of_In, List.in_map_iff. setoid_rewrite <- list_elem_of_In. split.
    - intros ([rest f] & <- & Hin%Hent). eauto.
    - intros (rest & f & Hin%Hent & ->). by exists (rest, f). }
  assert (Hfile : forall rest f, fs !! (DD ++ ["pki"] ++ rest) = Some f -> fs2 !! (path_key (Join dataDir "pki") ++ parts_of (join_slash rest)) = Some f /\ parts_of (join_slash rest) = rest).
  { intros rest f Hf. destruct (pki_file _ _ Hf) as (Hne & Hp & _). rewrite parts_of_join by done. by rewrite KS, <- (assoc_L (++)), pki_same. }
  apply (wp_copy_names o (Join dataDir "pki") AS (Join temporary "pki") AT fs2) with (done := []).
  - rewrite KT. apply map_eq. intros k. rewrite lookup_empty. apply map_lookup_filter_None. right. intros f Hf [r Er]. simpl in Er. subst k.
    rewrite <- (assoc_L (++)) in Hf. destruct (controlled_lookup fs2 (["pki"] ++ r) Hc) as (_ & Hn & _). rewrite Hn in Hf; done.
  - split; [by intros ? ?%elem_of_nil|done].
  - apply Forall_forall. intros name (rest & f & Hf & ->)%Hnames. destruct (pki_file _ _ Hf) as (Hne & Hp & _). split; [by apply safe_names|]. split; [by apply join_not_dot|].
    destruct (Hfile _ _ Hf) as [-> _]. eauto.
  - simpl. unfold names. rewrite <- (List.map_map fst join_slash). apply NoDup_joined; [apply files_below_NoDup|]. apply Forall_fmap. eapply Forall_impl; [exact Hall|].
    intros [? ?] (? & ? & _). done.
  - intros fs3 Hst. apply HQ; [|etrans; [exact Hs|]; intros k Hk; apply (staged_same _ _ _ _ _ Hst); rewrite KT; intros [r Er]; apply Hk; rewrite Er, <- (assoc_L (++)); by eexists].
    simpl in Hst. destruct Hst as [S1 S2]. rewrite KT in S1, S2.
    assert (Hkeep : forall rel, (forall rest, rel = "pki" :: rest -> fs !! (DD ++ ["pki"] ++ rest) = None) -> fs3 !! (T ++ rel) = fs2 !! (T ++ rel)).
    { intros rel Hr. apply S2. intros name (rest & f & Hf & ->)%Hnames. destruct (Hfile _ _ Hf) as [_ ->]. rewrite <- (assoc_L (++)). intros E'. apply app_inv_head in E'.
      rewrite (Hr rest E') in Hf. done. }
    intros rel. pose proof (controlled_lookup fs2 rel Hc) as (C1 & _ & C3). destruct (content fs rel) as [data|] eqn:Ec.
    + destruct (content_cases _ _ Ec) as [[-> ->]|[[->|(rest & -> & Hne)] (f & Hf & ->)]].
      * destruct C1 as [C1|C1]; [done|]. by rewrite Hkeep.
      * destruct C1 as [C1|C1]; [done|]. by rewrite Hkeep.
      * change ("pki" :: rest) with (["pki"] ++ rest) in Hf. destruct (Hfile rest f Hf) as [Hf2 Hparts]. destruct (S1 (join_slash rest)) as (f' & mode & Hf' & H3); [apply Hnames; eauto|].
        rewrite Hf2 in Hf'. injection Hf' as <-. rewrite Hparts, <- (assoc_L (++)) in H3. by exists mode.
    + rewrite Hkeep; [by apply C3|]. intros rest ->. destruct (fs !! (DD ++ ["pki"] ++ rest)) as [f|] eqn:Ef; [|done]. destruct (pki_file _ _ Ef) as (_ & _ & _ & E'). congruence.
  - intros e fs' He _. exfalso. apply (He Hrel). simpl. split.
    + apply Forall_forall. intros name (rest & f & Hf & ->)%Hnames. exists f. split; [by apply Hfile|]. by destruct (pki_file _ _ Hf) as (_ & _ & ? & _).
    + intros a b (ra & fa & Ha & ->)%Hnames (rb & fb & Hb & ->)%Hnames. destruct (Hfile _ _ Ha) as [_ ->], (Hfile _ _ Hb) as [_ ->]. intros [r ->].
      assert (E' : DD ++ ["pki"] ++ ra = DD ++ ["pki"] ++ (ra ++ r)) by (eapply (sane_tree fs (cs_sane fs Hcs)); [done..|]; exists r; by rewrite <- !(assoc_L (++))).
      apply app_inv_head, app_inv_head in E'. by rewrite <- E'.
Qed.

Lemma child2 (dir x y : string) : IsAbs dir = true -> proper x -> proper y -> path_key (Join (Join dir x) y) = path_key dir ++ [x; y].
Proof using.
  intros Ha Hx Hy. destruct (path_key_child dir x Ha Hx) as [E1 A1]. destruct (path_key_child _ y A1 Hy) as [E2 _]. by rewrite E2, E1, <- (assoc_L (++)).
Qed.

Lemma wp_pepper (m1 : Z) (database : list string) (Q : unit -> FS -> Prop) (E : Err -> FS -> Prop) :
  database = T ++ ["control"; "control.db"] -> (forall fs2, controlled fs2 -> Q tt fs2) ->
  wp o (copyRegular (Join (Join dataDir "control") "token-pepper") (Join (Join temporary "control") "token-pepper")) Q E (<[database := mkFile sn_data true m1]> fs).
Proof using Hrel Hdata Hcs Htemp Hfresh.
  intros -> HQ. assert (P1 : proper "control") by (by repeat split). assert (P2 : proper "token-pepper") by (by repeat split).
  destruct (cs_pepper fs Hcs) as (f & Hf & Hr). pose proof (source_outside _ _ Hf) as Hn.
  assert (Hf1 : (<[T ++ ["control"; "control.db"] := mkFile sn_data true m1]> fs) !! (DD ++ ["control"; "token-pepper"]) = Some f).
  { rewrite lookup_insert_ne; [done|]. intros E'. apply Hn. rewrite <- E'. by eexists. }
  apply wp_copyRegular; rewrite !child2 by done; rewrite Hf1.
  - intros f' mode [= <-] _ _. apply HQ. by exists m1, mode, f.
  - intros e fs' He _. exfalso. destruct (He Hrel) as [?|[(f' & [= <-] & ?)|Hb]]; [done|congruence|]. apply Hb. apply map_eq. intros k.
    rewrite lookup_empty. apply map_lookup_filter_None. right. intros g Hg [r Er]. simpl in Er. subst k.
    rewrite lookup_insert_ne in Hg by (rewrite <- (assoc_L (++)); intros E'; by apply app_inv_head in E').
    rewrite (below_empty T fs) in Hg; [done|done|]. rewrite <- (assoc_L (++)). by eexists.
Qed.

(** The digests of the assembled tree. *)
Definition digests_of (c : list string -> option (list Z)) (files : gmap string string) : Prop :=
  forall name want, files !! name = Some want <-> exists rel data, c rel = Some data /\ name = join_slash rel /\ want = digest data.

Lemma wp_hashes (fs3 : FS) (Q : gmap string string -> FS -> Prop) (E : Err -> FS -> Prop) :
  tree_is T (content fs) fs3 -> (forall files, digests_of (content fs) files -> Q files fs3) -> wp o (hashes temporary) Q E fs3.
Proof using Hrel Hcs Htemp.
  intros Ht HQ. unfold hashes. apply wp_bind, wp_query; [|intros s Hf; by destruct (reliable_fails o s)].
  assert (Hall : Forall (fun e => e.1 <> [] /\ Forall proper e.1 /\ fl_regular e.2 = true /\ fs3 !! (T ++ e.1) = Some e.2) (files_below T fs3)).
  { apply Forall_forall. intros [rel f] Hin%elem_of_files_below. destruct (tree_is_some _ _ _ _ _ Ht Hin) as [Hc Hr]. destruct (content_names _ _ Hc) as (? & ? & _). done. }
  apply wp_hash_entries; [done..|]. apply HQ. intros name want. rewrite lookup_digests.
  2:{ rewrite <- (List.map_map fst join_slash). apply NoDup_joined; [apply files_below_NoDup|]. apply Forall_fmap. eapply Forall_impl; [exact Hall|].
      intros [? ?] (? & ? & _). done. }
  setoid_rewrite elem_of_files_below. rewrite lookup_empty. split.
  - intros [(rel & f & Hf & -> & ->)|[_ ?]]; [|done]. destruct (tree_is_some _ _ _ _ _ Ht Hf) as [Hc _]. eauto.
  - intros (rel & data & Hc & -> & ->). left. specialize (Ht rel). rewrite Hc in Ht. destruct Ht as [mode Ht]. eexists rel, _. by split.
Qed.

Lemma digests_required (files : gmap string string) : digests_of (content fs) files -> missing files = None.
Proof using Hcs.
  intros Hd. apply missing_none. intros name Hname.
  assert (Hc : forall rel, is_Some (content fs rel) -> is_Some (files !! join_slash rel)) by (intros rel [data Hc]; exists (digest data); apply Hd; eauto).
  assert (Hp : forall rel, is_Some (fs !! (DD ++ "pki" :: rel)) -> is_Some (content fs ("pki" :: rel))) by (intros rel [f Hf]; destruct (pki_file rel f Hf) as (_ & _ & _ & ->); eauto).
  destruct (cs_pepper fs Hcs) as (f & Hf & _).
  repeat apply elem_of_cons in Hname as [->|Hname]; [| | | |by apply elem_of_nil in Hname].
  - apply (Hc ["control"; "control.db"]). unfold content. rewrite bool_decide_eq_true_2 by done. eauto.
  - apply (Hc ["control"; "token-pepper"]). unfold content. rewrite bool_decide_eq_false_2, bool_decide_eq_true_2 by done. simpl. rewrite Hf. eauto.
  - apply (Hc ["pki"; "ca.pem"]), Hp, (cs_cert fs Hcs).
  - apply (Hc ["pki"; "ca-key.pem"]), Hp, (cs_key fs Hcs).
Qed.

Lemma digests_ascii (files : gmap string string) : digests_of (content fs) files -> map_Forall (fun name digest => ascii_only name = true /\ ascii_only digest = true) files.
Proof using Hcs Hsha.
  intros Hd name want (rel & data & Hc & -> & ->)%Hd. destruct (content_names _ _ Hc) as (_ & _ & Ha). split; [by apply join_ascii|]. apply hex_ascii, Hsha.
Qed.

Lemma content_not_manifest : content fs ["manifest.json"] = None.
Proof using. unfold content. by rewrite !bool_decide_eq_false_2. Qed.

End Assemble.

(** The backup directory: the files, and the manifest with their digests. *)
Definition with_manifest (data : list Z) (rel : list string) : option (list Z) :=
  if bool_decide (rel = ["manifest.json"]) then Some data else content fs rel.
Definition backed_up (fs' : FS) : Prop :=
  exists data m, backup_Unmarshal data = Some m /\ bm_Format m = 1 /\ digests_of (content fs) (bm_Files m) /\
    tree_is O (with_manifest data) fs' /\ forall k, ~ O `prefix_of` k -> fs' !! k = fs !! k.

Context (Hbeside : beside ".autback-backup-" output) (Hplace : ~ (DD ++ ["pki"]) `prefix_of` path_key (Dir output)) (Hfree : below O fs = ∅).

Lemma wp_assemble (t temporary : string) (Q : unit -> FS -> Prop) (E : Err -> FS -> Prop) :
  IsAbs temporary = true -> path_key temporary = path_key (Dir output) ++ [".autback-backup-" +:+ t] -> below (path_key temporary) fs = ∅ ->
  (forall fs', backed_up fs' -> (forall k, path_key temporary `prefix_of` k -> fs' !! k = None) -> Q tt fs') ->
  wp o (assemble dataDir temporary output) Q E fs.
Proof using Hrel Hclock Hsha Hdata Hcs Hbeside Hplace Hfree.
  intros Ha Hkey Hfresh HQ. destruct (Hbeside t) as [B1 B2]. rewrite <- Hkey in B1, B2. set (T := path_key temporary) in *.
  assert (Hpki : ~ (DD ++ ["pki"]) `prefix_of` T).
  { rewrite Hkey. intros Hp. apply prefix_last in Hp as [Hp|Hp]; [by apply Hplace|]. apply app_inj_tail in Hp as [_ Hp]. discriminate Hp. }
  unfold assemble. apply wp_bind. unfold os_Chmod. apply wp_may_fail_r; [|intros e He; by destruct He].
  apply wp_bind. unfold os_MkdirAll. apply wp_may_fail_r; [|intros e He; by destruct He].
  apply wp_bind. eapply wp_mono; [apply sn_backup_law| |by intros e fs' [Hr _]]. cbv beta. intros _ fs1 [m1 ->].
  apply wp_bind. apply (wp_pepper temporary Ha Hfresh m1); [by apply child2|]. intros fs2 Hc. fold T in Hc.
  apply wp_bind. apply (wp_copyTree temporary Ha Hfresh Hpki fs2 _ _ Hc). intros fs3 Ht Hs.
  apply wp_bind. apply (wp_hashes temporary Ha fs3 _ _ Ht). intros files Hd. rewrite (digests_required files Hd).
  apply wp_bind, wp_clock. intros n. destruct (backup_marshals (mkManifest 1 (o_clock o n) files) (Hclock n)) as [data Hm]. rewrite Hm.
  pose proof (backup_round_trip (mkManifest 1 (o_clock o n) files) data (Hclock n) (digests_ascii files Hd) Hm) as Hu.
  assert (Hmp : proper "manifest.json") by (by repeat split). destruct (path_key_child _ _ Ha Hmp) as [Em _]. fold T in Em.
  apply wp_bind, wp_WriteFile; [|intros e fs' Hr; by destruct Hr]. intros mode. rewrite Em. apply wp_rename_new; fold T; [done|done| |].
  - intros fs5 L1 L2 L3 _. apply HQ; [|exact L3]. exists (data ++ [10]), (mkManifest 1 (o_clock o n) files). split; [done|]. split; [done|]. split; [done|]. split.
    + intros rel. rewrite L1. unfold with_manifest. case_bool_decide as Er; [subst rel; exists mode; by rewrite lookup_insert_eq|].
      rewrite lookup_insert_ne by (intros E'; apply app_inv_head in E'; congruence). apply Ht.
    + intros k Hk. destruct (decide (T `prefix_of` k)) as [Hp|Hp]; [rewrite L3 by done; symmetry; by apply (below_empty T fs)|].
      rewrite L2, lookup_insert_ne by (done || intros <-; apply Hp; by eexists). by apply Hs.
  - intros e He. exfalso. apply (He Hrel). apply map_eq. intros k. rewrite lookup_empty. apply map_lookup_filter_None. right. intros f Hf Hp. simpl in Hp.
    assert (Hn : ~ T `prefix_of` k) by (by apply (apart_prefix O T)). rewrite lookup_insert_ne in Hf by (intros <-; apply Hn; by eexists).
    rewrite Hs in Hf by done. by rewrite (below_empty O fs) in Hf.
Qed.

Lemma outside_none (dir : list string) (fs' : FS) : (forall k, dir `prefix_of` k -> fs' !! k = None) -> outside dir fs' = fs'.
Proof using.
  intros Hn. apply map_eq. intros k. destruct (decide (dir `prefix_of` k)) as [Hp|Hp]; [|by apply lookup_outside].
  rewrite Hn by done. apply map_lookup_filter_None. by left; apply Hn.
Qed.

Lemma wp_Create : dataDir <> "" -> output <> "" ->
  wp o (Create dataDir output) (fun _ fs' => backed_up fs') (fun e fs' => e = ErrText "file exists" /\ fs' = fs) fs.
Proof using Hrel Hclock Hsha Hdata Hout Hcs Hbeside Hplace Hfree.
  intros Hd0 Ho0. unfold Create. rewrite !bool_decide_eq_false_2 by done. cbn [orb]. apply wp_bind, wp_Exists; [|intros e He; by destruct He].
  rewrite bool_decide_eq_false_2 by (intros Hn; by apply Hn). apply wp_bind. unfold os_MkdirAll. apply wp_may_fail_r; [|intros e He; by destruct He].
  apply wp_bind, wp_TempDir; [by apply Dir_abs|intros x Hx; apply pattern_proper; [simpl; lia|reflexivity|done]| |intros e He; split; [by apply He|done]].
  intros t temporary Ht Habs Hkey Hfresh. apply wp_defer_remove. apply (wp_assemble t temporary); try done.
  intros fs' Hb Hn. rewrite outside_none by done. by split.
Qed.

End Backup.

(** ** Round trip *)

Section RoundTrip.
Context `{Sha256} `{BackupCodec} `{Snapshotter}.

(** A backup is ready to be restored to a new directory. *)
Lemma backup_ready (dataDir output newDir : string) (fs fs' : FS) :
  IsAbs output = true -> complete_source dataDir fs -> backed_up dataDir output fs fs' -> below (path_key newDir) fs' = ∅ ->
  exists m, ready output newDir fs' m /\ digests_of (content dataDir fs) (bm_Files m).
Proof using.
  intros Ho Hcs (data & m & Hu & Hfm & Hd & Ht & _) Hb. exists m. split; [|done].
  assert (Hfile : forall rel d, content dataDir fs rel = Some d -> exists mode, fs' !! (path_key output ++ rel) = Some (mkFile d true mode)).
  { intros rel d Hc. specialize (Ht rel). unfold with_manifest in Ht. rewrite bool_decide_eq_false_2, Hc in Ht; [done|]. intros ->. by rewrite content_not_manifest in Hc. }
  assert (Hparts : forall rel d, content dataDir fs rel = Some d -> parts_of (join_slash rel) = rel).
  { intros rel d Hc. destruct (content_names dataDir fs Hcs _ _ Hc) as (? & ? & _). by apply parts_of_join. }
  assert (Hname : forall name, name ∈ map fst (map_to_list (bm_Files m)) -> exists rel d, content dataDir fs rel = Some d /\ name = join_slash rel).
  { intros name. rewrite list_elem_of_In, List.in_map_iff. intros ([name' want] & <- & Hin). rewrite <- list_elem_of_In in Hin.
    apply elem_of_map_to_list, Hd in Hin as (rel & d & Hc & -> & _). eauto. }
  split; [|split; [done|split]].
  - split; [|split; [done|split]].
    + specialize (Ht ["manifest.json"]). unfold with_manifest in Ht. rewrite bool_decide_eq_true_2 in Ht by done. destruct Ht as [mode Ht]. eexists. by split.
    + apply missing_none. eapply digests_required; done.
    + intros name want (rel & d & Hc & -> & ->)%Hd. destruct (content_names dataDir fs Hcs _ _ Hc) as (Hne & Hp & _).
      split; [by apply safe_names|]. split; [by apply join_not_dot|]. destruct (Hfile _ _ Hc) as [mode Hf]. eexists. by rewrite (Hparts _ _ Hc).
  - apply Forall_forall. intros name (rel & d & Hc & ->)%Hname. destruct (Hfile _ _ Hc) as [mode Hf]. eexists. by rewrite (Hparts _ _ Hc).
  - intros a b (ra & da & Hca & ->)%Hname (rb & db & Hcb & ->)%Hname. rewrite (Hparts _ _ Hca), (Hparts _ _ Hcb). intros Hp. by rewrite (content_antichain dataDir fs Hcs ra rb da db).
Qed.

Lemma restored_content (dataDir output newDir : string) (fs fs1 fs2 : FS) (m : manifest) :
  complete_source dataDir fs -> digests_of (content dataDir fs) (bm_Files m) -> backed_up dataDir output fs fs1 -> restored output newDir fs1 m fs2 ->
  forall rel, fl_data <$> fs2 !! (path_key newDir ++ rel) = content dataDir fs rel.
Proof using.
  intros Hcs Hd (data & m' & _ & _ & _ & Ht & _) (R1 & R2 & _) rel.
  assert (Hparts : forall rel d, content dataDir fs rel = Some d -> parts_of (join_slash rel) = rel).
  { intros r d Hc. destruct (content_names dataDir fs Hcs _ _ Hc) as (? & ? & _). by apply parts_of_join. }
  destruct (content dataDir fs rel) as [d|] eqn:Hc.
  - destruct (R1 (join_slash rel) (digest d)) as (f & mode & Hf & Hf2); [apply Hd; eauto|]. rewrite (Hparts _ _ Hc) in Hf, Hf2. rewrite Hf2. simpl.
    destruct (tree_is_some _ _ _ _ _ Ht Hf) as [Hw _]. unfold with_manifest in Hw. rewrite bool_decide_eq_false_2 in Hw by (intros ->; by rewrite content_not_manifest in Hc). congruence.
  - destruct (fs2 !! (path_key newDir ++ rel)) as [f|] eqn:Hf; [|done]. destruct (R2 rel) as (name & [want Hw] & ->); [by eexists|].
    apply Hd in Hw as (r & d & Hr & -> & _). rewrite (Hparts _ _ Hr) in Hc. congruence.
Qed.


End RoundTrip.

(** ** A concrete host *)

#[local] Instance demo_sha : Sha256 := {| sha256 l := map (fun b => b mod 256) l |}.
Definition manifest_fields (m : manifest) : Z * Z * list (string * string) := (bm_Format m, bm_CreatedAt m, map_to_list (bm_Files m)).
Definition manifest_of (f : Z * Z * list (string * string)) : manifest := mkManifest f.1.1 f.1.2 (list_to_map f.2).
Definition demo_unmarshal (data : list Z) : option manifest := match data with [Zpos p; 10] => manifest_of <$> decode p | _ => None end.
#[local] Program Instance demo_backup_codec : BackupCodec :=
  {| backup_Marshal m := Some [Zpos (encode (manifest_fields m))];
     backup_Unmarshal := demo_unmarshal |}.
Next Obligation. intros. by eexists. Qed.
Next Obligation.
  intros [f t files] data _ _ [= <-]. unfold demo_unmarshal. cbn [app]. rewrite decode_encode. cbn. unfold manifest_of. cbn. by rewrite list_to_map_to_list.
Qed.
#[local] Program Instance demo_snapshot : Snapshotter := {| sn_data := [1; 2; 3]; sn_Backup path := os_WriteFile path [1; 2; 3] 384 |}.
Next Obligation.
  intros o path fs. apply wp_WriteFile; [eauto|]. intros e f Hr. split; [done|]. intros k Hk. by apply lookup_insert_ne.
Qed.

Definition demo_source : FS :=
  {[ ["data"; "control"; "token-pepper"] := mkFile [7] true 384; ["data"; "pki"; "ca.pem"] := mkFile [8] true 420; ["data"; "pki"; "ca-key.pem"] := mkFile [9; 300] true 384 ]}.

Lemma demo_beside (pattern path x : string) : path_key (Dir path) = [] -> path_key path = [x] -> String.prefix "." x = false -> beside ("." +:+ pattern) path.
Proof.
  intros Hd Hp Hx t. cbv zeta. rewrite Hd, Hp. cbn [app]. assert (Hne : (("." +:+ pattern) +:+ t) <> x).
  { intros E. assert (Hdot : String.prefix "." x = true) by (apply prefix_app_string; exists (pattern +:+ t); by rewrite <- E). congruence. }
  split; intros Hpre; apply prefix_cons_inv_1 in Hpre; congruence.
Qed.

Lemma demo_complete : complete_source "/data" demo_source.
Proof.
  assert (Hsane : sane demo_source).
  { split.
    - assert (Hall : map_Forall (fun k (_ : File) => Forall proper k /\ Forall (fun x => ascii_only x = true) k) demo_source).
      { unfold proper. apply (bool_decide_unpack _). vm_compute. exact I. }
      exact Hall.
    - assert (Hall : map_Forall (fun k (_ : File) => map_Forall (fun k' (_ : File) => k `prefix_of` k' -> k = k') demo_source) demo_source).
      { apply (bool_decide_unpack _). vm_compute. exact I. }
      intros k k' f f' Hf Hf'. exact (Hall k f Hf k' f' Hf'). }
  assert (Hreg : map_Forall (fun _ f => fl_regular f = true) demo_source) by (apply (bool_decide_unpack _); vm_compute; exact I).
  split; [done|by eexists|by eexists|by eexists|]. intros rel f Hf. exact (Hreg _ _ Hf).
Qed.

Definition steady : Oracle := mkOracle (fun _ => 0) (fun _ => 0) (fun _ => None).

Definition demo_run : res unit * (FS * nat) := (_ ← Create "/data" "/backup"; Restore "/backup" "/new") steady (demo_source, 0%nat).



(** [filepath.Dir] of a path with a final slash is the directory itself: the
    temporary directory is made inside the one to publish, which is then in use. *)
Lemma trailing_slash_refused :
  Dir "/new/" = "/new" /\
  (Restore "/backup" "/new/" steady ((Create "/data" "/backup" steady (demo_source, 0%nat)).2.1, 0%nat)).1 = Fail (ErrText "file exists").
Proof. split; vm_compute; reflexivity. Qed.
