(* ===== verification/ServerGroup.v ===== *)
(** * The components of the server process

    [internal/app/server/group.go]: [Group.Run] starts the components, waits for
    the first of them to return or for the parent context, drains, cancels the
    others, stops them in reverse order and joins them.  The components run
    concurrently with it, so the group is a step relation: the steps of [Run]
    itself, and those of its environment (a component returns, the parent context
    is cancelled, the deadline of the shutdown passes). *)
From stdpp Require Import list gmap.
From Stdlib Require Import Wellfounded.
From S2P Require Import Prelude Model.

(** ** Data *)

(** An error of a component, and whether [errors.Is] finds a cancellation or a
    deadline in it. *)
Record ComponentErr := mkCErr { ce_text : string; ce_cancellation : bool }.

(** Whether the functions of the component are set; what they return is up to
    the environment. *)
Record Component := mkComponent { cm_Name : string; cm_Run : bool; cm_Stop : bool }.

Record Config := mkConfig { cf_ShutdownTimeout : duration; cf_OnDrain : bool }.
Record Group := mkGroup { g_config : Config; g_components : list Component }.

Definition New (config : Config) : Group :=
  mkGroup (if cf_ShutdownTimeout config <=? 0 then mkConfig (15 * Second) (cf_OnDrain config) else config) [].
Definition Add (g : Group) (component : Component) : Group := mkGroup (g_config g) (g_components g ++ [component]).

Inductive GroupErr :=
| StoppedUnexpectedly (name : string)
| ComponentFailed (name : string) (e : ComponentErr)
| StopFailed (name : string) (e : ComponentErr)
| ErrJoinTimeout.

Definition isExpectedCancellation (e : ComponentErr) (done : bool) : bool := done && ce_cancellation e.

(** Where [Run] is: before its first [select] has chosen, with the first result
    in hand (before and after the test of the parent context), draining,
    cancelling, stopping the components below [left], joining, returned. *)
Inductive Phase :=
| Waiting | Received (name : string) (r : option ComponentErr) | Judging (name : string) (r : option ComponentErr)
| Draining | Cancelling | Stopping (left : nat) | Joining | Returned (joined : bool).

(** [running] are the components that have not returned, [results] the channel.
    [stopped] lists the calls of [Stop], the last first. *)
Record RunState := mkRun {
  rs_phase : Phase; rs_running : gset nat; rs_results : list (string * option ComponentErr); rs_parent : bool; rs_cancelled : bool;
  rs_drained : bool; rs_expired : bool; rs_primary : option GroupErr; rs_errors : list GroupErr; rs_consumed : nat; rs_stopped : list nat
}.

(** What [Run] returns: the errors it joins. *)
Definition joined_errors (s : RunState) : list GroupErr := option_list (rs_primary s) ++ rs_errors s.

(** [runCtx.Err() != nil]. *)
Definition run_done (s : RunState) : bool := rs_parent s || rs_cancelled s.

(** ** Steps *)

Section Run.
Context (g : Group).
Abbreviation components := (g_components g).
Abbreviation count := (length components).

(** The checks before anything is started. *)
Definition valid : bool :=
  negb (bool_decide (components = [])) && forallb (fun c => negb (bool_decide (cm_Name c = "")) && cm_Run c) components.

(** Started, under a parent context that may be done already. *)
Definition start (parent : bool) : RunState :=
  mkRun (if parent then Draining else Waiting) (list_to_set (seq 0 count)) [] parent false false false None [] 0 [].

Definition with_phase (p : Phase) (s : RunState) : RunState :=
  mkRun p (rs_running s) (rs_results s) (rs_parent s) (rs_cancelled s) (rs_drained s) (rs_expired s) (rs_primary s) (rs_errors s) (rs_consumed s) (rs_stopped s).
Definition receive_first (p : Phase) (rest : list (string * option ComponentErr)) (s : RunState) : RunState :=
  mkRun p (rs_running s) rest (rs_parent s) (rs_cancelled s) (rs_drained s) (rs_expired s) (rs_primary s) (rs_errors s) (S (rs_consumed s)) (rs_stopped s).
Definition with_primary (e : option GroupErr) (s : RunState) : RunState :=
  mkRun Draining (rs_running s) (rs_results s) (rs_parent s) (rs_cancelled s) (rs_drained s) (rs_expired s) e (rs_errors s) (rs_consumed s) (rs_stopped s).
Definition add_errors (errs : list GroupErr) (s : RunState) : RunState :=
  mkRun (rs_phase s) (rs_running s) (rs_results s) (rs_parent s) (rs_cancelled s) (rs_drained s) (rs_expired s) (rs_primary s) (rs_errors s ++ errs) (rs_consumed s) (rs_stopped s).

(** The error of the first result. *)
Definition primary_of (name : string) (r : option ComponentErr) (done : bool) : option GroupErr :=
  match r with
  | None => Some (StoppedUnexpectedly name)
  | Some e => if isExpectedCancellation e done then None else Some (ComponentFailed name e)
  end.
(** The error of a later result, or of a [Stop]. *)
Definition collected (wrap : ComponentErr -> GroupErr) (r : option ComponentErr) (done : bool) : list GroupErr :=
  match r with
  | Some e => if isExpectedCancellation e done then [] else [wrap e]
  | None => []
  end.

(** The steps of [Run]. *)
Inductive group_step : RunState -> RunState -> Prop :=
| gs_parent_done s : rs_phase s = Waiting -> rs_parent s = true -> group_step s (with_phase Draining s)
| gs_first s name r rest : rs_phase s = Waiting -> rs_results s = (name, r) :: rest -> group_step s (receive_first (Received name r) rest s)
| gs_dropped s name r : rs_phase s = Received name r -> rs_parent s = true -> group_step s (with_phase Draining s)
| gs_judge s name r : rs_phase s = Received name r -> rs_parent s = false -> group_step s (with_phase (Judging name r) s)
| gs_primary s name r : rs_phase s = Judging name r -> group_step s (with_primary (primary_of name r (run_done s)) s)
| gs_drain s : rs_phase s = Draining ->
    group_step s (mkRun Cancelling (rs_running s) (rs_results s) (rs_parent s) (rs_cancelled s) (cf_OnDrain (g_config g)) (rs_expired s) (rs_primary s) (rs_errors s) (rs_consumed s) (rs_stopped s))
| gs_cancel s : rs_phase s = Cancelling ->
    group_step s (mkRun (Stopping count) (rs_running s) (rs_results s) (rs_parent s) true (rs_drained s) (rs_expired s) (rs_primary s) (rs_errors s) (rs_consumed s) (rs_stopped s))
| gs_skip s i c : rs_phase s = Stopping (S i) -> components !! i = Some c -> cm_Stop c = false -> group_step s (with_phase (Stopping i) s)
| gs_stop s i c r : rs_phase s = Stopping (S i) -> components !! i = Some c -> cm_Stop c = true ->
    group_step s (add_errors (collected (StopFailed (cm_Name c)) r (rs_expired s))
      (mkRun (Stopping i) (rs_running s) (rs_results s) (rs_parent s) (rs_cancelled s) (rs_drained s) (rs_expired s) (rs_primary s) (rs_errors s) (rs_consumed s) (i :: rs_stopped s)))
| gs_stopped s : rs_phase s = Stopping 0 -> group_step s (with_phase Joining s)
| gs_join s name r rest : rs_phase s = Joining -> (rs_consumed s < count)%nat -> rs_results s = (name, r) :: rest ->
    group_step s (add_errors (collected (ComponentFailed name) r (run_done s)) (receive_first Joining rest s))
| gs_timeout s : rs_phase s = Joining -> (rs_consumed s < count)%nat -> rs_expired s = true -> group_step s (with_phase (Returned false) (add_errors [ErrJoinTimeout] s))
| gs_return s : rs_phase s = Joining -> rs_consumed s = count -> group_step s (with_phase (Returned true) s).

(** The steps of the environment. *)
Inductive env_step : RunState -> RunState -> Prop :=
| es_finish s i c r : i ∈ rs_running s -> components !! i = Some c ->
    env_step s (mkRun (rs_phase s) (rs_running s ∖ {[i]}) (rs_results s ++ [(cm_Name c, r)]) (rs_parent s) (rs_cancelled s) (rs_drained s) (rs_expired s) (rs_primary s) (rs_errors s) (rs_consumed s) (rs_stopped s))
| es_parent s : env_step s (mkRun (rs_phase s) (rs_running s) (rs_results s) true (rs_cancelled s) (rs_drained s) (rs_expired s) (rs_primary s) (rs_errors s) (rs_consumed s) (rs_stopped s))
| es_expire s : rs_cancelled s = true ->
    env_step s (mkRun (rs_phase s) (rs_running s) (rs_results s) (rs_parent s) (rs_cancelled s) (rs_drained s) true (rs_primary s) (rs_errors s) (rs_consumed s) (rs_stopped s)).

Inductive reachable_run : RunState -> Prop :=
| rr_start parent : valid = true -> reachable_run (start parent)
| rr_group s s' : reachable_run s -> group_step s s' -> reachable_run s'
| rr_env s s' : reachable_run s -> env_step s s' -> reachable_run s'.

(** ** The invariant *)

Definition has_stop (i : nat) : bool := match components !! i with Some c => cm_Stop c | None => false end.
(** The components from [left] on that have a [Stop]. *)
Definition stops_from (left : nat) : list nat := List.filter has_stop (seq left (count - left)).

Lemma stops_from_S left : (left < count)%nat -> stops_from left = (if has_stop left then [left] else []) ++ stops_from (S left).
Proof. intros Hl. unfold stops_from. replace (count - left)%nat with (S (count - S left)) by lia. cbn [seq List.filter]. by destruct (has_stop left). Qed.

(** The order of the shutdown. *)
Definition phase_ok (s : RunState) : Prop :=
  match rs_phase s with
  | Waiting => rs_cancelled s = false /\ rs_stopped s = [] /\ rs_consumed s = 0%nat
  | Received _ _ | Judging _ _ => rs_cancelled s = false /\ rs_stopped s = []
  | Draining | Cancelling => rs_cancelled s = false /\ rs_stopped s = [] /\ (rs_primary s = None -> rs_parent s = true)
  | Stopping rest => (rest <= count)%nat /\ rs_stopped s = stops_from rest /\ rs_cancelled s = true /\ (rs_primary s = None -> rs_parent s = true)
  | Joining => rs_stopped s = stops_from 0 /\ rs_cancelled s = true /\ (rs_primary s = None -> rs_parent s = true)
  | Returned joined => rs_stopped s = stops_from 0 /\ rs_cancelled s = true /\ (rs_primary s = None -> rs_parent s = true) /\
      if joined then rs_consumed s = count else ErrJoinTimeout ∈ rs_errors s
  end.

Record group_inv (s : RunState) : Prop := {
  gi_count : (size (rs_running s) + length (rs_results s) + rs_consumed s)%nat = count;
  gi_drained : rs_cancelled s = true \/ rs_phase s = Cancelling -> rs_drained s = cf_OnDrain (g_config g);
  gi_phase : phase_ok s
}.

Lemma start_inv parent : group_inv (start parent).
Proof.
  split; cbn.
  - rewrite size_list_to_set by apply NoDup_seq. rewrite length_seq. lia.
  - intros [?|E]; [done|]. by destruct parent.
  - unfold phase_ok. by destruct parent.
Qed.

Lemma group_step_inv s s' : group_inv s -> group_step s s' -> group_inv s'.
Proof.
  intros [Hc Hd Hp] Hs. unfold phase_ok in Hp. destruct Hs as [s Eq Hpar|s name r rest Eq Er|s name r Eq Hpar|s name r Eq Hpar|s name r Eq|s Eq|s Eq|s i c Eq Hi Hst|s i c r Eq Hi Hst|s Eq|s name r rest Eq Hlt Er|s Eq Hlt He|s Eq Hn];
    rewrite Eq in Hp; split; cbn; rewrite ?Er in Hc; cbn in Hc; try lia; try done; try (intros [?|?]; try done; apply Hd; by left).
  - unfold phase_ok. cbn. naive_solver.
  - naive_solver.
  - unfold phase_ok. cbn. naive_solver.
  - destruct Hp as [Hca Hst]. split; [done|]. split; [done|]. unfold primary_of, run_done. rewrite Hca, orb_false_r.
    destruct r as [e|]; [|done]. unfold isExpectedCancellation. by destruct (rs_parent s).
  - intros _. apply Hd. by right.
  - destruct Hp as (_ & -> & Hpr). split; [lia|]. split; [|done]. unfold stops_from. by rewrite Nat.sub_diag.
  - destruct Hp as (Hl & Hst' & Hca & Hpr). split; [lia|]. split; [|done]. rewrite Hst', (stops_from_S i) by lia. unfold has_stop. by rewrite Hi, Hst.
  - destruct Hp as (Hl & Hst' & Hca & Hpr). split; [lia|]. split; [|done]. rewrite Hst', (stops_from_S i) by lia. unfold has_stop. by rewrite Hi, Hst.
  - by destruct Hp as (_ & ? & ? & ?).
  - destruct Hp as (Hst & Hca & Hpr). split; [done|]. split; [done|]. split; [done|]. apply elem_of_app. right. constructor.
  - by destruct Hp as (? & ? & ?).
Qed.

Lemma env_step_inv s s' : group_inv s -> env_step s s' -> group_inv s'.
Proof.
  intros [Hc Hd Hp] Hs. destruct Hs as [s i c r Hi Hlook|s|s Hca]; split; cbn; try done.
  - rewrite length_app. cbn. assert (Hsz : size (rs_running s) = S (size (rs_running s ∖ {[i]}))); [|lia].
    rewrite (union_difference_singleton_L i (rs_running s)) at 1 by done. rewrite size_union, size_singleton by set_solver. lia.
  - unfold phase_ok in *. cbn. destruct (rs_phase s); naive_solver.
Qed.

Lemma reachable_run_inv s : reachable_run s -> group_inv s.
Proof. induction 1; eauto using start_inv, group_step_inv, env_step_inv. Qed.


(** ** Termination *)

Definition remaining (s : RunState) : nat :=
  match rs_phase s with
  | Waiting => 2 * count + 7
  | Received _ _ => 2 * count + 6
  | Judging _ _ => 2 * count + 5
  | Draining => 2 * count + 4
  | Cancelling => 2 * count + 3
  | Stopping rest => rest + count + 2
  | Joining => (count - rs_consumed s) + 1
  | Returned _ => 0
  end.

Lemma group_step_remaining s s' : group_step s s' -> (remaining s' < remaining s)%nat.
Proof.
  destruct 1 as [s Eq Hpar|s name r rest Eq Er|s name r Eq Hpar|s name r Eq Hpar|s name r Eq|s Eq|s Eq|s i c Eq Hi Hst|s i c r Eq Hi Hst|s Eq|s name r rest Eq Hlt Er|s Eq Hlt He|s Eq Hn];
    unfold remaining; rewrite Eq; cbn; lia.
Qed.

(** Nothing keeps the group waiting: the components have returned, or the
    deadline of the shutdown has passed. *)
Definition settled (s : RunState) : Prop := rs_running s = ∅ \/ (rs_expired s = true /\ rs_cancelled s = true).

Lemma group_step_settled s s' : settled s -> group_step s s' -> settled s'.
Proof. unfold settled. destruct 2; cbn in *; naive_solver. Qed.

Lemma valid_count : valid = true -> (0 < count)%nat.
Proof. unfold valid. intros [Hv _]%andb_prop. destruct components; [done|cbn; lia]. Qed.
Lemma reachable_valid s : reachable_run s -> valid = true.
Proof. by induction 1. Qed.

Lemma group_progress s : (0 < count)%nat -> group_inv s -> settled s -> (forall joined, rs_phase s <> Returned joined) -> exists s', group_step s s'.
Proof.
  intros Hpos [Hc Hd Hp] Hset Hnr. unfold phase_ok in Hp. destruct (rs_phase s) as [|name r|name r| | |[|i]| |joined] eqn:Eq.
  - destruct Hp as (Hnc & _ & Hz). destruct Hset as [Hrun|[_ Hca]]; [|congruence]. rewrite Hrun, size_empty, Hz in Hc.
    destruct (rs_results s) as [|[name r] rest] eqn:Er; [cbn in Hc; lia|]. eexists. by eapply gs_first.
  - destruct (rs_parent s) eqn:Ep; eexists; [by eapply gs_dropped|by eapply gs_judge].
  - eexists. by eapply gs_primary.
  - eexists. by eapply gs_drain.
  - eexists. by eapply gs_cancel.
  - eexists. by eapply gs_stopped.
  - destruct Hp as (Hl & _). destruct (lookup_lt_is_Some_2 components i) as [c Hi]; [lia|]. destruct (cm_Stop c) eqn:Ec; eexists; [by eapply gs_stop with (r := None)|by eapply gs_skip].
  - destruct (decide (rs_consumed s = count)) as [Hn|Hn]; [eexists; by eapply gs_return|]. destruct (rs_results s) as [|[name r] rest] eqn:Er.
    + destruct Hset as [Hrun|[Hex _]]; [rewrite Hrun, size_empty in Hc; cbn in Hc; lia|]. eexists. eapply gs_timeout; [done|lia|done].
    + eexists. eapply gs_join; [done|lia|done].
  - by destruct (Hnr joined).
Qed.

(** [Run] returns.  Once its components have returned, or the deadline of the
    shutdown has passed, its own steps come to an end, and only with its return. *)
Theorem group_run_returns s :
  reachable_run s -> settled s ->
  Acc (fun s2 s1 => group_step s1 s2) s /\
  forall s', rtc group_step s s' -> (exists s'', group_step s' s'') \/ exists joined, rs_phase s' = Returned joined.
Proof.
  intros Hr Hset. split.
  - assert (Hwf : well_founded (fun s2 s1 => group_step s1 s2)); [|apply Hwf].
    apply (wf_incl _ _ (ltof _ remaining)); [|apply well_founded_ltof]. intros s2 s1 Hs. unfold ltof. by apply group_step_remaining.
  - pose proof (valid_count (reachable_valid s Hr)) as Hpos. apply reachable_run_inv in Hr. intros s' Hs. induction Hs as [s|s s1 s2 Hs Hrest IH].
    + destruct (rs_phase s) as [|?? |?? | | |? | |joined] eqn:Eq; [..|right; eauto]; left; apply group_progress; try done; intros j; rewrite Eq; discriminate.
    + apply IH; [by eapply group_step_inv|by eapply group_step_settled].
Qed.

End Run.

(** ** A listener that fails *)

Definition demo_group : Group :=
  Add (Add (New (mkConfig 0 true)) (mkComponent "background" true true)) (mkComponent "listener" true true).
Definition serve_failed : ComponentErr := mkCErr "serve failed" false.

(** The state after the listener has failed, the group has drained and stopped
    its components, and the other one has returned. *)
Definition demo_returned : RunState :=
  mkRun (Returned true) ∅ [] false true true false (Some (ComponentFailed "listener" serve_failed)) [] 2 [0%nat; 1%nat].

(** The listener has failed, the group has drained and cancelled; the background
    component still runs. *)
Definition demo_cancelled : RunState :=
  mkRun (Stopping 2) {[0%nat]} [] false true true false (Some (ComponentFailed "listener" serve_failed)) [] 1 [].

(** One more step of a concrete run. *)
Ltac advance H rule :=
  match type of H with
  | reachable_run _ ?s =>
      let N := fresh in
      eassert (N : group_step demo_group s _) by (eapply rule; first [reflexivity | cbn; lia]);
      apply (rr_group _ _ _ H) in N; clear H; rename N into H
  end.
Ltac finish H i r :=
  match type of H with
  | reachable_run _ ?s =>
      let N := fresh in
      eassert (N : env_step demo_group s _) by (eapply (es_finish demo_group s i _ r); [apply (bool_decide_unpack _); vm_compute; exact I|reflexivity]);
      apply (rr_env _ _ _ H) in N; clear H; rename N into H
  end.

Lemma demo_cancelled_reachable : reachable_run demo_group demo_cancelled.
Proof.
  pose proof (rr_start demo_group false eq_refl) as H. finish H 1%nat (Some serve_failed).
  advance H gs_first. advance H gs_judge. advance H gs_primary. advance H gs_drain. advance H gs_cancel. exact H.
Qed.

Lemma demo_run_reachable : reachable_run demo_group demo_returned.
Proof.
  pose proof demo_cancelled_reachable as H. finish H 0%nat (@None ComponentErr).
  advance H (fun s c => gs_stop demo_group s 1 c None). advance H (fun s c => gs_stop demo_group s 0 c None). advance H gs_stopped. advance H gs_join. advance H gs_return. exact H.
Qed.


(** The background component hangs, and the deadline passes. *)
Definition demo_hung : RunState :=
  mkRun (Stopping 2) {[0%nat]} [] false true true true (Some (ComponentFailed "listener" serve_failed)) [] 1 [].

Lemma group_run_returns_witness : Acc (fun s2 s1 => group_step demo_group s1 s2) demo_hung /\ exists s', group_step demo_group demo_hung s'.
Proof.
  destruct (group_run_returns demo_group demo_hung) as [Hacc Hprog].
  - exact (rr_env _ _ _ demo_cancelled_reachable (es_expire demo_group demo_cancelled eq_refl)).
  - right. split; reflexivity.
  - split; [exact Hacc|]. destruct (Hprog demo_hung (rtc_refl _ _)) as [Hs|[joined E]]; [exact Hs|discriminate E].
Defined.
