(* ===== verification/Oidc.v ===== *)
(** * Tokens of GitHub Actions

    [internal/control/githuboidc/verifier.go]: which identity tokens are accepted,
    and what the control API takes from them.  The provider (its keys and the
    signature check) is the library [go-oidc]. *)

From stdpp Require Import gmap.
From S2P Require Import Prelude Model GoMonad GoLib Table Schema JobStore GoStrings Glob Identity IdentitySpec IdentityTheorems ControlAPI ApiTheorems Text.

(** The claims that are decoded from a token. *)
Record rawClaims := mkRawClaims {
  rc_RepositoryOwnerID : string; rc_RepositoryID : string; rc_Repository : string; rc_WorkflowRef : string; rc_Ref : string;
  rc_Environment : string; rc_EventName : string; rc_NotBefore : Z
}.

(** [oidc.IDToken]; [tk_Claims] is [None] when the payload does not decode. *)
Record IDToken := mkIDToken { tk_Subject : string; tk_Audience : list string; tk_Expiry : time; tk_Claims : option rawClaims }.

(** The provider: its signature check gives the token or an error. *)
Class Provider := {
  pv_discover : string -> option Err;
  pv_Verify : string -> res IDToken
}.

Definition Issuer : string := "https://token.actions.githubusercontent.com".

Record Verifier := mkVerifier { vf_issuer : string; vf_audiences : gset string }.

Section Verifier.
Context `{Provider}.

Fixpoint allowed (audiences : list string) (acc : gset string) : gset string :=
  match audiences with
  | [] => acc
  | audience :: rest =>
      let audience := TrimSpace audience in
      allowed rest (if bool_decide (audience = "") then acc else {[audience]} ∪ acc)
  end.

Definition NewWithAudiences (issuer : string) (audiences : list string) : res Verifier :=
  let issuer := if bool_decide (issuer = "") then Issuer else issuer in
  let set := allowed audiences ∅ in
  if bool_decide (set = ∅) then Fail (ErrText "GitHub OIDC audience is required") else
  match pv_discover issuer with
  | Some e => Fail e
  | None => Ok (mkVerifier issuer set)
  end.
Definition NewVerifier (issuer audience : string) : res Verifier := NewWithAudiences issuer [audience].

Fixpoint audience_allowed (v : Verifier) (audience : list string) : bool :=
  match audience with
  | [] => false
  | a :: rest => bool_decide (a ∈ vf_audiences v) || audience_allowed v rest
  end.

(** [nbf] is in seconds; the verifier tolerates a skew of half a minute. *)
Definition Verify {D : Type} (v : Verifier) (raw : string) : M D GitHubClaims :=
  if bool_decide (TrimSpace raw = "") then throw (ErrText "GitHub OIDC token is required") else
  match pv_Verify raw with
  | Fail e => throw e
  | Ok token =>
      if negb (audience_allowed v (tk_Audience token)) then throw (ErrText "GitHub OIDC token has an unexpected audience") else
      match tk_Claims token with
      | None => throw (ErrText "oidc: failed to unmarshal claims")
      | Some c =>
          if bool_decide (tk_Subject token = "") || bool_decide (rc_RepositoryOwnerID c = "") || bool_decide (rc_RepositoryID c = "")
             || bool_decide (rc_WorkflowRef c = "") || bool_decide (rc_Ref c = "") || bool_decide (rc_EventName c = "")
          then throw (ErrText "GitHub OIDC token is missing required immutable identity or policy claims") else
          if rc_NotBefore c =? 0 then throw (ErrText "GitHub OIDC token is not yet valid") else
          now ← time_Now;
          if now + 30 * Second <? rc_NotBefore c * Second then throw (ErrText "GitHub OIDC token is not yet valid") else
          mret (mkGitHubClaims (tk_Subject token) (rc_RepositoryOwnerID c) (rc_RepositoryID c) (rc_Repository c) (rc_WorkflowRef c) (rc_Ref c)
                  (rc_Environment c) (rc_EventName c) (tk_Expiry token))
      end
  end.

End Verifier.

(** * Sessions of workflows are earned

    [ExchangeGitHubOIDC] of the control API with the verifier of [Oidc] and the
    store: which workflow runs obtain a session token, for which project and for
    how long. *)

Lemma allowed_spec audiences acc a : a ∈ allowed audiences acc <-> a ∈ acc \/ (a <> "" /\ exists x, x ∈ audiences /\ TrimSpace x = a).
Proof.
  revert acc. induction audiences as [|x audiences IH]; intros acc; cbn [allowed].
  { split; [by left|]. intros [?|(_ & x & Hx & _)]; [done|]. by apply elem_of_nil in Hx. }
  rewrite IH. setoid_rewrite elem_of_cons. case_bool_decide as E; [naive_solver|]. rewrite elem_of_union, elem_of_singleton. naive_solver.
Qed.

Lemma audience_allowed_spec v l : audience_allowed v l = true <-> exists a, a ∈ l /\ a ∈ vf_audiences v.
Proof.
  induction l as [|a l IH]; cbn [audience_allowed]; [split; [done|]; intros (a & Ha & _); by apply elem_of_nil in Ha|].
  rewrite orb_true_iff, IH, bool_decide_eq_true. setoid_rewrite elem_of_cons. naive_solver.
Qed.

Section Exchange.
Context `{Provider} (o : Oracle).

(** The token that the provider vouches for. *)
Record vouched (v : Verifier) (raw : string) (claims : GitHubClaims) : Prop := {
  vc_token : exists token c, pv_Verify raw = Ok token /\ tk_Claims token = Some c /\
    (exists a, a ∈ tk_Audience token /\ a ∈ vf_audiences v) /\
    claims = mkGitHubClaims (tk_Subject token) (rc_RepositoryOwnerID c) (rc_RepositoryID c) (rc_Repository c) (rc_WorkflowRef c) (rc_Ref c)
               (rc_Environment c) (rc_EventName c) (tk_Expiry token) /\
    exists n, rc_NotBefore c * Second <= o_clock o n + 30 * Second;
  vc_identity : cl_Subject claims <> "" /\ cl_RepositoryOwnerID claims <> "" /\ cl_RepositoryID claims <> "";
  vc_policy : cl_WorkflowRef claims <> "" /\ cl_Ref claims <> "" /\ cl_EventName claims <> ""
}.

Lemma wp_Verify {D} (v : Verifier) (raw : string) (d : D) :
  wp o (Verify v raw) (fun claims d' => d' = d /\ vouched v raw claims) (fun _ d' => d' = d) d.
Proof using.
  unfold Verify. case_bool_decide; [by apply wp_throw|]. destruct (pv_Verify raw) as [token|e] eqn:Ev; [|by apply wp_throw].
  destruct (audience_allowed v (tk_Audience token)) eqn:Ea; cbn [negb]; [|by apply wp_throw]. apply audience_allowed_spec in Ea.
  destruct (tk_Claims token) as [c|] eqn:Ec; [|by apply wp_throw]. destruct (_ || _) eqn:Eg; [by apply wp_throw|]. split_bools.
  destruct (rc_NotBefore c =? 0); [by apply wp_throw|]. apply wp_bind, wp_clock. intros n.
  destruct (Z.ltb_spec (o_clock o n + 30 * Second) (rc_NotBefore c * Second)) as [|Hn]; [by apply wp_throw|].
  apply wp_ret. split; [done|]. split; [|done|done]. exists token, c. split; [done|]. split; [done|]. split; [done|]. split; [done|]. by exists n.
Qed.

Context {R : Type} `{Pepper} `{CaseTables} `{ErrorText}.

(** The trust of a project that accepts the claims. *)
Definition trusted (d : Database) (selector : string) (claims : GitHubClaims) (project : string) : Prop :=
  exists p g, find_project selector d = Some p /\ project = pj_ID p /\
    g ∈ github_trusts (tabs d) /\ gt_project_id g = pj_ID p /\ gt_revoked_at g = None /\
    gt_repository_owner_id g = cl_RepositoryOwnerID claims /\ gt_repository_id g = cl_RepositoryID claims /\
    glob (gt_workflow_ref g) (cl_WorkflowRef claims) = true /\ glob (gt_ref g) (cl_Ref claims) = true /\
    (gt_environment g = "" \/ gt_environment g = cl_Environment claims) /\ cl_EventName claims ∈ gt_events g.

(** A session row that the exchange may add. *)
Definition earned (v : Verifier) (d : Database) (selector idToken : string) (k : TokenRow) : Prop :=
  exists claims project expires n, vouched v idToken claims /\ trusted d selector claims project /\
    tk_kind k = PrincipalGitHub /\ tk_user_id k = None /\ tk_project_id k = Some project /\ tk_subject k = cl_Subject claims /\
    tk_expires_at k = Some (unix expires) /\ expires <= o_clock o n + 15 * Minute /\
    (cl_ExpiresAt claims <> zero_time -> expires <= cl_ExpiresAt claims).

Definition tokens_grow (P : TokenRow -> Prop) (d d' : Database) : Prop :=
  access_tokens (tabs d') = access_tokens (tabs d) \/ exists k, access_tokens (tabs d') = access_tokens (tabs d) ++ [k] /\ P k.

(** C19: a workflow run obtains a session only with a token that the provider
    vouches for, made out to an audience of the server, with a complete identity
    and in force, and only for a project with a live trust that accepts its
    repository, workflow, ref, environment and event.  The session acts for that
    project and that workflow alone, expires after at most fifteen minutes and
    not after the token, and its secret is the one returned; whatever fails, no
    other token is created. *)
Theorem workflow_sessions_are_earned (v : Verifier) (selector idToken : string) (d : Database) (r : R) :
  wp o (ExchangeGitHubOIDCRPC (Some (Verify v)) selector idToken)
    (fun issued w => w.2 = r /\ exists k, access_tokens (tabs w.1) = access_tokens (tabs d) ++ [k] /\ earned v d selector idToken k /\
       tk_digest k = digest (ia_Token issued) /\ tk_expires_at k = Some (unix (ia_ExpiresAt issued)))
    (fun _ w => w.2 = r /\ tokens_grow (earned v d selector idToken) d w.1) (d, r).
Proof using All.
  unfold ExchangeGitHubOIDCRPC. destruct (_ || _); [apply wp_throw; split; [done|by left]|].
  apply wp_bind, wp_attempt, wp_on_runtime. eapply wp_mono; [apply wp_Verify| |]; [|intros e r' ->; apply wp_throw; split; [done|by left]].
  intros claims r' [-> Hv]. apply wp_bind, wp_rpc. eapply wp_mono; [apply trust_matching| |]; [|intros e d' [-> _]; split; [done|by left]].
  intros trust d' [-> (p & g & Hp & Hg & -> & Hrest)]. apply wp_bind, wp_clock. intros n. cbv zeta.
  set (expires := if _ && _ then _ else _). apply wp_bind, wp_rpc. unfold CreateProjectSession. wp_step.
  apply wp_newToken; [|intros; split; [done|by left]]. intros tid l Htid Hl. wp_step. apply wp_now. intros now. wp_step.
  apply wp_insert; [|split; [done|by left]|split; [done|by left]|intros; split; [done|by left]]. intros _ _ fd. apply wp_ret.
  set (k := new_token_row _ _ _ _ _ _ _ _ _).
  assert (He : earned v d selector idToken k).
  { exists claims, (pj_ID p), expires, n. split; [done|]. split; [exists p, g; split; [done|]; split; [done|]; split; [done|]; exact Hrest|].
    destruct Hrest as (Ep & _). unfold k, new_token_row. cbn. rewrite Ep. do 5 (split; [done|]). unfold expires.
    destruct (Z.eqb_spec (cl_ExpiresAt claims) zero_time) as [Ez|Ez]; cbn [negb andb]; [split; [lia|by intros []]|].
    destruct (Z.ltb_spec (cl_ExpiresAt claims) (o_clock o n + 15 * Minute)); lia. }
  apply wp_bind, wp_rpc. unfold Audit. wp_step. apply wp_now. intros at_.
  assert (Hgrow : tokens_grow (earned v d selector idToken) d (mkDB (set_access_tokens (access_tokens (tabs d) ++ [k]) (tabs d)) fd)) by (right; by exists k).
  apply wp_insert_with; [|split; [done|exact Hgrow]|split; [done|exact Hgrow]|intros; split; [done|exact Hgrow]].
  intros _ _ fd2. apply wp_ret. split; [done|]. exists k. by do 2 (split; [done|]).
Qed.

End Exchange.

(** ** A workflow of a trusted repository *)

#[local] Instance demo_provider : Provider := {|
  pv_discover _ := None;
  pv_Verify raw := if bool_decide (raw = "jwt") then
      Ok (mkIDToken "repo:acme/app:ref:refs/heads/main" ["autback"] (600 * Second)
            (Some (mkRawClaims "7" "42" "acme/app" "acme/app/.github/workflows/ci.yml@refs/heads/main" "refs/heads/main" "" "push" 5)))
    else Fail (ErrText "malformed jwt") |}.
#[local] Instance demo_mac : Pepper := {| digest := fun s => "mac:" +:+ s |}.
#[local] Instance demo_case : CaseTables := {| unicode_lower := fun s => s; unicode_upper := fun s => s |}.

Definition ci_trust (ref : string) : TrustRow := mkTrust "ght1" "prj1" "7" "42" "acme/app/.github/workflows/*" ref "" ["push"] 0 None.
Definition ci_db (ref : string) : Database :=
  mkDB (set_projects [mkProject "prj1" "demo" "Demo" "" "" true 0] (set_github_trusts [ci_trust ref] empty_tables)) (mkFeed [] 0).
Definition ci_oracle : Oracle := mkOracle (fun _ => 100 * Second) (fun _ => 0) (fun _ => None).
Definition ci_exchange (ref token : string) : res IssuedAccessToken * (Database * unit * nat) :=
  ExchangeGitHubOIDCRPC (R := unit) (Some (Verify (mkVerifier Issuer {["autback"]}))) "demo" token ci_oracle ((ci_db ref, tt), 0%nat).

(** The session expires with the token, before the fifteen minutes. *)
Example ci_sessions :
  (map (fun k => (tk_project_id k, tk_expires_at k)) (access_tokens (tabs (ci_exchange "refs/heads/*" "jwt").2.1.1)),
   access_tokens (tabs (ci_exchange "refs/tags/*" "jwt").2.1.1), access_tokens (tabs (ci_exchange "refs/heads/*" "forged").2.1.1))
  = ([(Some "prj1", Some (600 * Second))], [], []).
Proof. vm_compute. reflexivity. Qed.
