(* ===== verification/ServerConfig.v ===== *)
(** * The configuration of the server process

    [cmd/autback-server/main.go]: the settings that [run] and
    [newCapacityController] read from the environment for the components, the
    file of the capacity status, and [secret.Ensure] of the token pepper
    ([internal/control/secret/secret.go]); [New] and the probes of
    [internal/control/controlapi/server.go]. *)
From stdpp Require Import gmap.
From S2P Require Import Prelude Model GoMonad GoLib GoStrings Path Encoding Table Schema JobStore Resources Coordinator Dispatcher Capacity Host Secrets SecretsTheorems ControlAPI Swarm HostMetrics Reconciler HumanAuth Recovery Oidc Text ServerMain.

(** ** Settings *)

Section Settings.
Context (getenv : string -> string).
#[local] Abbreviation env := (env getenv).
#[local] Abbreviation durationEnv := (durationEnv getenv).
#[local] Abbreviation int64Env := (int64Env getenv).

Definition data_dir : string := env "AUTBACK_DATA_DIR" "/var/lib/autback".
Definition pki_dir : string := env "AUTBACK_PKI_DIR" (Join data_dir "pki").
Definition server_names : res (list string) := splitNames (env "AUTBACK_SERVER_NAMES" "localhost,127.0.0.1").

(** The secrets of jobs. *)
Definition jobs_root : string := env "AUTBACK_JOBS_ROOT" "/var/lib/autback/jobs".
Definition secrets_config : SecretsConfig := mkSecretsConfig jobs_root (Some (env "AUTBACK_SECRET_ROOT" "/run/autback/secret-store")) true.

(** The data plane. *)
Definition cas_internal : string := env "AUTBACK_CAS_INTERNAL" "127.0.0.1:50051".
Definition cas_listen : string := env "AUTBACK_CAS_LISTEN" ":50052".
Definition buildkit_internal : string := env "AUTBACK_BUILDKIT_INTERNAL" "127.0.0.1:1234".
Definition buildkit_listen : string := env "AUTBACK_BUILDKIT_LISTEN" ":1235".
Definition cas_instance : string := env "AUTBACK_CAS_INSTANCE" "autback".

(** The limits of a job; a number that does not parse ends the process. *)
Definition job_resources : res ResourceEnvelope :=
  match cpu ← int64Env "AUTBACK_JOB_CPU_LIMIT_NANO" 3000000000;
        cpuReserved ← int64Env "AUTBACK_JOB_CPU_RESERVATION_NANO" 1000000000;
        memory ← int64Env "AUTBACK_JOB_MEMORY_LIMIT_BYTES" (5 * 2 ^ 30);
        memoryReserved ← int64Env "AUTBACK_JOB_MEMORY_RESERVATION_BYTES" (2 ^ 30);
        pids ← int64Env "AUTBACK_JOB_PIDS_LIMIT" 4096;
        Some (mkEnvelope cpu cpuReserved memory memoryReserved pids) with
  | None => Fail (ErrText "invalid resource limit")
  | Some r => match envelope_Validate r with Some _ => Fail (ErrText "job resource policy") | None => Ok r end
  end.

(** The scheduler, for a process with these user and group identifiers. *)
Definition scheduler_config (uid gid : string) (resources : ResourceEnvelope) : SwarmConfig :=
  mkSwarmConfig cas_internal cas_instance jobs_root (env "AUTBACK_JOB_ENTRYPOINT" "/usr/local/lib/autback/autback-job-entrypoint")
    (env "AUTBACK_CACHE_ROOT" "/var/lib/autback/cache") uid gid resources.

(** The collector of host metrics. *)
Definition collector_config : option CollectorConfig :=
  interval ← durationEnv "AUTBACK_METRICS_INTERVAL" (2 * Second);
  raw ← durationEnv "AUTBACK_METRICS_RAW_RETENTION" (14 * 24 * Hour);
  rollup ← durationEnv "AUTBACK_METRICS_ROLLUP_RETENTION" (180 * 24 * Hour);
  Some (mkCollectorConfig interval raw rollup).

(** The reconciler. *)
Definition reconciler_config : option Reconciler.Config :=
  retention ← durationEnv "AUTBACK_SERVICE_RETENTION" Hour;
  grace ← durationEnv "AUTBACK_ADMISSION_GRACE" (15 * Second);
  lease ← durationEnv "AUTBACK_BUILD_LEASE_TIMEOUT" (2 * Minute);
  preparation ← durationEnv "AUTBACK_JOB_PREPARATION_LEASE_TIMEOUT" (2 * Minute);
  Some (mkConfig true retention grace lease preparation).

(** The verifier of workflow identities, if there is an audience. *)
Definition oidc_verifier `{Provider} : res (option Verifier) :=
  match audiences getenv with
  | [] => Ok None
  | names => match NewWithAudiences (env "AUTBACK_GITHUB_OIDC_ISSUER" Issuer) names with Ok v => Ok (Some v) | Fail e => Fail e end
  end.

(** The control API, for the first of the server names. *)
Definition api_config (serverName : string) : option ServerConfig :=
  ttl ← durationEnv "AUTBACK_CREDENTIAL_TTL" (15 * Minute);
  Some (mkServerConfig (env "AUTBACK_CAS_ENDPOINT" (endpoint serverName cas_listen)) cas_instance
          (env "AUTBACK_BUILDKIT_ENDPOINT" (endpoint serverName buildkit_listen)) ttl (bool_decide (getenv "AUTBACK_ALLOW_UNPINNED_IMAGES" = "1"))
          "build-lease-heartbeat" "durable-job-preparation").

(** The worker that the capacity controller keeps clear. *)
Definition host_config (dataDir : string) (dryRun : bool) : HostConfig :=
  mkHostConfig (env "AUTBACK_JOBS_ROOT" (Join dataDir "jobs")) (env "AUTBACK_CACHE_ROOT" (Join dataDir "cache"))
    (observe_only getenv dryRun) true true true.

(** The directories that jobs write are the ones that the capacity controller
    reclaims, when the data directory is the default one or both are set. *)
Lemma roots_agree uid gid resources dryRun :
  data_dir = "/var/lib/autback" \/ (getenv "AUTBACK_JOBS_ROOT" <> "" /\ getenv "AUTBACK_CACHE_ROOT" <> "") ->
  hc_JobsRoot (host_config data_dir dryRun) = wc_JobsRoot (scheduler_config uid gid resources) /\
  hc_JobsRoot (host_config data_dir dryRun) = sg_JobsRoot secrets_config /\
  hc_CacheRoot (host_config data_dir dryRun) = wc_CacheRoot (scheduler_config uid gid resources).
Proof.
  intros [E|[Hj Hc]]; cbn.
  - rewrite E. done.
  - unfold jobs_root, ServerMain.env. by rewrite !bool_decide_eq_false_2.
Qed.

End Settings.

(** With another data directory alone they are not: jobs write below
    [/var/lib/autback], and the controller looks below the data directory. *)
Lemma roots_differ :
  let getenv name := if bool_decide (name = "AUTBACK_DATA_DIR") then "/srv/autback" else "" in
  (hc_JobsRoot (host_config getenv (data_dir getenv) false), jobs_root getenv) = ("/srv/autback/jobs", "/var/lib/autback/jobs").
Proof. vm_compute. reflexivity. Qed.

(** ** [controlapi.New] *)

(** A dependency of the readiness probe; [None] stands for a nil check. *)
Record ReadinessDependency (W : Type) := mkDependency { rd_Name : string; rd_Check : option (M W unit) }.
Arguments mkDependency {W}.
Arguments rd_Name {W}.
Arguments rd_Check {W}.

(** [parts] tells whether the store, the scheduler, the dispatcher and the
    certificate authority are set. *)
Definition NewServer {W : Type} (parts : bool) (config : ServerConfig) (probeTimeout : duration) (dependencies : list (ReadinessDependency W)) :
    res (ServerConfig * duration) :=
  if negb parts then Fail (ErrText "control store, scheduler, dispatcher, and certificate authority are required") else
  if bool_decide (sc_CASEndpoint config = "") || bool_decide (sc_CASInstance config = "") || bool_decide (sc_BuildKitEndpoint config = "")
  then Fail (ErrText "CAS endpoint, CAS instance, and BuildKit endpoint are required") else
  let ttl := if sc_CredentialTTL config =? 0 then 15 * Minute else sc_CredentialTTL config in
  let timeout := if probeTimeout <=? 0 then 500 * Millisecond else probeTimeout in
  if existsb (fun d => bool_decide (TrimSpace (rd_Name d) = "") || negb (bool_decide (is_Some (rd_Check d)))) dependencies
  then Fail (ErrText "readiness dependency name and check are required") else
  if (ttl <? Minute) || (2 * Hour <? ttl) then Fail (ErrText "credential TTL must be between 1 minute and 2 hours") else
  Ok (mkServerConfig (sc_CASEndpoint config) (sc_CASInstance config) (sc_BuildKitEndpoint config) ttl (sc_AllowUnpinnedImages config)
        (sc_RequiredBuildClientCapability config) (sc_RequiredJobClientCapability config), timeout).

(** ** The readiness probe *)

(** The status and the text of an answer. *)
Record Answer := mkAnswer { an_Status : Z; an_Text : string }.
Definition unavailable (text : string) : Answer := mkAnswer 503 text.

Section Readiness.
Context {W : Type}.

Fixpoint probe (dependencies : list (ReadinessDependency W)) : M W Answer :=
  match dependencies with
  | [] => mret (mkAnswer 204 "")
  | d :: rest =>
      r ← attempt (match rd_Check d with Some check => check | None => mret tt end);
      match r with
      | Fail _ => mret (unavailable (rd_Name d +:+ " unavailable"))
      | Ok _ => probe rest
      end
  end.

(** [GET /readyz]; [ready] and [capacity] are [None] when they are not set. *)
Definition readyz (ready : option bool) (store scheduler : M W unit) (capacity : option (M W unit)) (dependencies : list (ReadinessDependency W)) : M W Answer :=
  if bool_decide (ready = Some false) then mret (unavailable "control plane is draining") else
  r ← attempt store;
  match r with
  | Fail _ => mret (unavailable "control store unavailable")
  | Ok _ =>
      r ← attempt scheduler;
      match r with
      | Fail _ => mret (unavailable "worker unavailable")
      | Ok _ =>
          r ← attempt (match capacity with Some check => check | None => mret tt end);
          match r with
          | Fail _ => mret (unavailable "worker capacity unavailable")
          | Ok _ => probe dependencies
          end
      end
  end.

End Readiness.

(** [securityHeaders]: what every answer carries. *)
Definition securityHeaders (header : list (string * string)) : list (string * string) :=
  [("X-Content-Type-Options", "nosniff"); ("Cache-Control", "no-store"); ("Strict-Transport-Security", "max-age=31536000")] ++ header.

(** [GetServiceInfo]. *)
Definition GetServiceInfo (directory : bool) : string * list string :=
  ("0.1.12", ["connect"; "projects"; "project-images"; "project-caches"; "job-secrets-v1"; "device-tokens"; "device-enrollment"; "github-oidc";
              "reapi-cas-mtls"; "swarm-jobs"; "durable-fifo-admission"; "durable-job-preparation"; "buildkit-mtls"]
             ++ if directory then ["github-human-auth"; "public-console"] else []).

(** ** Files of the process *)

(** The JSON of a capacity status. *)
Class StatusCodec := { status_Marshal : CapacityStatus -> option (list Z) }.

(** [os.Rename] of a file replaces the one that is there. *)
Definition rename_file (a b : string) : M FS unit :=
  statement (fun fs => match fs !! path_key a with
                       | Some f => Ok (tt, <[path_key b := f]> (delete (path_key a) fs))
                       | None => Fail ErrNotExist
                       end).

Definition writeCapacityStatus `{StatusCodec} (path : string) (status : CapacityStatus) : M FS unit :=
  match status_Marshal status with
  | None => mret tt
  | Some contents =>
      let temporary := path +:+ ".tmp" in
      r ← attempt (os_WriteFile temporary (contents ++ [10]) 384);
      match r with
      | Fail _ => mret tt
      | Ok _ => _ ← attempt (rename_file temporary path); mret tt
      end
  end.

(** [secret.Ensure]: the pepper, made on the first start.  A file that appears
    in between is taken as it is. *)
Definition EnsureSecret (path : string) (count : nat) : M FS (list Z) :=
  if (count <? 32)%nat then throw (ErrText "secret must contain at least 32 bytes") else
  r ← attempt (os_ReadFile path);
  match r with
  | Ok data => if (length data <? count)%nat then throw (ErrText (path +:+ " is too short")) else mret data
  | Fail e =>
      if negb (bool_decide (e = ErrNotExist)) then throw e else
      _ ← os_MkdirAll (Dir path);
      data ← rand_Read count;
      used ← query (fun fs => fs !! path_key path);
      match used with
      | Some f => os_ReadFile path
      | None => _ ← os_WriteFile path data 384; _ ← may_fail; mret data
      end
  end.
Definition openStoreE (dataDir : string) : M FS (list Z) := EnsureSecret (Join (Join dataDir "control") "token-pepper") 32.

(** A pepper that was made is found again: on a reliable system the second start
    reads the bytes that the first one drew, at least as many as asked for. *)
Lemma secret_is_stable (o : Oracle) (path : string) (count : nat) (fs : FS) :
  reliable o -> (32 <= count)%nat -> (forall f, fs !! path_key path = Some f -> (count <= length (fl_data f))%nat) ->
  wp o (EnsureSecret path count)
    (fun data fs' => (count <= length data)%nat /\
       forall o', reliable o' -> wp o' (EnsureSecret path count) (fun data' fs'' => data' = data /\ fs'' = fs') (fun _ _ => False) fs')
    (fun _ _ => False) fs.
Proof.
  intros Hr Hc Hf.
  assert (Hread : forall o' fs' f, reliable o' -> fs' !! path_key path = Some f -> (count <= length (fl_data f))%nat ->
    wp o' (EnsureSecret path count) (fun data' fs'' => data' = fl_data f /\ fs'' = fs') (fun _ _ => False) fs').
  { intros o' fs' f Hr' Hl Hlen. unfold EnsureSecret. destruct (Nat.ltb_spec count 32); [lia|]. apply wp_bind, wp_attempt, wp_bind, wp_query; [|intros s Hs; by destruct (reliable_fails o' s)].
    rewrite Hl. apply wp_ret. destruct (Nat.ltb_spec (length (fl_data f)) count); [lia|]. by apply wp_ret. }
  destruct (fs !! path_key path) as [f|] eqn:E.
  { eapply wp_mono; [by apply (Hread o fs f Hr E), Hf| |done]. intros data fs' [-> ->]. split; [by apply Hf|]. intros o' Hr'. by apply Hread, Hf. }
  unfold EnsureSecret at 1. destruct (Nat.ltb_spec count 32); [lia|]. apply wp_bind, wp_attempt, wp_bind, wp_query; [|intros s Hs; by destruct (reliable_fails o s)].
  rewrite E. apply wp_throw. rewrite bool_decide_eq_true_2 by done. cbn [negb]. apply wp_bind. apply wp_may_fail; [|intros s Hs; by destruct (reliable_fails o s)].
  apply wp_bind, wp_rand_Read; [|intros s Hs; by destruct (reliable_fails o s)]. intros data Hlen _.
  apply wp_bind, wp_query; [|intros s Hs; by destruct (reliable_fails o s)]. rewrite E.
  apply wp_bind, wp_WriteFile; [|intros e fs' Hn; by destruct Hn]. intros mode. apply wp_bind, wp_may_fail; [|intros s Hs; by destruct (reliable_fails o s)].
  apply wp_ret. split; [lia|]. intros o' Hr'. assert (Hl : (<[path_key path := mkFile data true mode]> fs) !! path_key path = Some (mkFile data true mode)) by (by rewrite lookup_insert_eq).
  eapply wp_mono; [exact (Hread o' _ _ Hr' Hl ltac:(cbn; lia))|by intros|done].
Qed.

(** [closeListener]: closing a listener twice is no error. *)
Definition closeListener (e : option Err) (closed : Err -> bool) : option Err :=
  match e with Some e => if closed e then None else Some e | None => None end.

(** ** The loop of the capacity controller *)

Section CapacityLoop.
Context {W : Type} `{StatusCodec}.

(** [runCapacityController]: the tickers decide the trigger of each round, until
    the context ends; the status of every round is published. *)
Fixpoint runCapacityController (maintain : Trigger -> M W (CapacityStatus * option WrappedErr)) (statusPath : string) (ticks : list Trigger) : M (W * FS) unit :=
  match ticks with
  | [] => mret tt
  | trigger :: rest =>
      '(status, _) ← on_store (maintain trigger);
      _ ← on_runtime (writeCapacityStatus statusPath status);
      runCapacityController maintain statusPath rest
  end.
End CapacityLoop.
