(* ===== verification/CliArgs.v ===== *)
(** * Arguments of the command line

    [internal/cli/service.go] and [internal/cli/cli.go]: how the arguments of the
    commands become requests of the control API.  A command that refuses its
    arguments exits with the code 2 and a message. *)

From stdpp Require Import gmap.
From Stdlib Require Import Ascii.
From S2P Require Import Prelude Model GoMonad GoLib GoStrings Encoding Path Validate ControlAPI HumanAuth Text.

(** A message for [failUsage], or what was parsed. *)
Inductive Parsed (A : Type) := Parse (a : A) | Usage (message : string).
Arguments Parse {A}.
Arguments Usage {A}.

(** ** Selecting a project *)

(** [explicitProject]: the project that the arguments before [--] name. *)
Fixpoint explicit_project (args : list string) (project : string) : Parsed string :=
  match args with
  | [] => Parse project
  | arg :: rest =>
      if bool_decide (arg = "--") then Parse project else
      if negb (bool_decide (arg = "--project")) then explicit_project rest project else
      match rest with
      | [] => Usage "--project requires a value"
      | candidate :: rest' =>
          if bool_decide (candidate = "") || bool_decide (candidate = "--") then Usage "--project requires a value" else
          if negb (bool_decide (project = "")) && negb (bool_decide (project = candidate)) then Usage "conflicting --project values" else
          explicit_project rest' candidate
      end
  end.
Definition explicitProject (args : list string) : Parsed string := explicit_project args "".

(** [consumeProject]: the project, and the other arguments. *)
Fixpoint consumeProject (project : string) (args : list string) : Parsed (string * list string) :=
  match args with
  | [] => Parse (project, [])
  | arg :: rest =>
      if bool_decide (arg = "--") then Parse (project, arg :: rest) else
      if negb (bool_decide (arg = "--project")) then
        match consumeProject project rest with Parse (p, result) => Parse (p, arg :: result) | Usage m => Usage m end
      else
        match rest with
        | [] => Usage "--project requires a value"
        | candidate :: rest' =>
            if bool_decide (candidate = "") then Usage "--project requires a value" else
            if negb (bool_decide (project = "")) && negb (bool_decide (project = candidate)) then Usage "conflicting --project values" else
            consumeProject candidate rest'
        end
  end.

Fixpoint selectAuthorizedProject (projects : list Project) (selector : string) : option Project :=
  match projects with
  | [] => None
  | project :: rest =>
      if bool_decide (pj_ID project = selector) || bool_decide (pj_Slug project = selector) then Some project
      else selectAuthorizedProject rest selector
  end.

(** [globalArgs]: leading tokens, the last of which counts. *)
Fixpoint globalArgs (token : string) (args : list string) : Parsed (string * list string) :=
  match args with
  | arg :: rest =>
      if negb (bool_decide (arg = "--token")) then Parse (token, args) else
      match rest with
      | [] => Usage "--token requires a value"
      | value :: rest' => if bool_decide (value = "") then Usage "--token requires a value" else globalArgs value rest'
      end
  | [] => Parse (token, [])
  end.

(** [jobArgs]. *)
Definition jobArgs (args : list string) : Parsed (bool * string) :=
  let '(jsonOutput, args) := match args with arg :: rest => if bool_decide (arg = "--json") then (true, rest) else (false, args) | [] => (false, args) end in
  match args with
  | [id] => Parse (jsonOutput, id)
  | _ => Usage "requires exactly one job ID"
  end.

(** ** [exec] *)

Record execOptions := mkExecOptions {
  eo_project : string; eo_image : string; eo_workdir : string; eo_timeout : duration; eo_detach : bool;
  eo_environment : gmap string string; eo_command : list string; eo_caches : list CacheMount; eo_secrets : list JobSecret
}.

(** A flag with its value, applied to the options. *)
Definition exec_value (flag value : string) (o : execOptions) : Parsed execOptions :=
  let '(mkExecOptions project image workdir timeout detach environment command caches secrets) := o in
  if bool_decide (flag = "--project") then Parse (mkExecOptions value image workdir timeout detach environment command caches secrets) else
  if bool_decide (flag = "--image") then Parse (mkExecOptions project value workdir timeout detach environment command caches secrets) else
  if bool_decide (flag = "--workdir") then Parse (mkExecOptions project image value timeout detach environment command caches secrets) else
  if bool_decide (flag = "--timeout") then
    match ParseDuration value with
    | None => Usage "invalid --timeout"
    | Some parsed => Parse (mkExecOptions project image workdir parsed detach environment command caches secrets)
    end else
  if bool_decide (flag = "--env") then
    match cut "="%char value with
    | Some (key, item) =>
        if bool_decide (key = "") then Usage "--env requires KEY=VALUE"
        else Parse (mkExecOptions project image workdir timeout detach (<[key := item]> environment) command caches secrets)
    | None => Usage "--env requires KEY=VALUE"
    end else
  if bool_decide (flag = "--cache") then
    match cut "="%char value with
    | Some (name, target) =>
        if bool_decide (name = "") || bool_decide (target = "") then Usage "--cache requires NAME=/absolute/container/path"
        else Parse (mkExecOptions project image workdir timeout detach environment command (caches ++ [mkCache name target]) secrets)
    | None => Usage "--cache requires NAME=/absolute/container/path"
    end else
  if bool_decide (flag = "--secret-env") then
    match cut "="%char value with
    | Some (name, target) =>
        if bool_decide (name = "") || bool_decide (target = "") then Usage "--secret-env requires NAME=ENVIRONMENT_KEY"
        else Parse (mkExecOptions project image workdir timeout detach environment command caches (secrets ++ [mkJobSecret name (TargetEnvironment target)]))
    | None => Usage "--secret-env requires NAME=ENVIRONMENT_KEY"
    end else
  match cut "="%char value with
  | Some (name, target) =>
      if bool_decide (name = "") || bool_decide (target = "") then Usage "--secret-file requires NAME=/run/secrets/PATH"
      else Parse (mkExecOptions project image workdir timeout detach environment command caches (secrets ++ [mkJobSecret name (TargetFile target)]))
  | None => Usage "--secret-file requires NAME=/run/secrets/PATH"
  end.

Definition exec_flags : list string := ["--project"; "--image"; "--workdir"; "--timeout"; "--env"; "--cache"; "--secret-env"; "--secret-file"].

Definition eo_set_detach (o : execOptions) : execOptions :=
  mkExecOptions (eo_project o) (eo_image o) (eo_workdir o) (eo_timeout o) true (eo_environment o) (eo_command o) (eo_caches o) (eo_secrets o).
Definition eo_set_command (command : list string) (o : execOptions) : execOptions :=
  mkExecOptions (eo_project o) (eo_image o) (eo_workdir o) (eo_timeout o) (eo_detach o) (eo_environment o) command (eo_caches o) (eo_secrets o).

(** The loop over the flags: the options, and the arguments from [--] on. *)
Fixpoint exec_options (args : list string) (o : execOptions) : Parsed (execOptions * list string) :=
  match args with
  | [] => Parse (o, [])
  | arg :: rest =>
      if bool_decide (arg = "--") then Parse (o, args) else
      if bool_decide (arg = "--detach") then exec_options rest (eo_set_detach o) else
      if bool_decide (arg ∈ exec_flags) then
        match rest with
        | [] => Usage (arg +:+ " requires a value")
        | value :: rest' => match exec_value arg value o with Parse o' => exec_options rest' o' | Usage m => Usage m end
        end
      else Usage ("unknown exec option " +:+ arg)
  end.

Definition exec_start (image project : string) : execOptions := mkExecOptions project image "" (30 * Minute) false ∅ [] [] [].

(** [parseExec]; [image] is the image of the settings. *)
Definition parseExec (image project : string) (args : list string) : Parsed execOptions :=
  match exec_options args (exec_start image project) with
  | Usage m => Usage m
  | Parse (o, rest) =>
      match rest with
      | _ :: _ :: _ =>
          let o := eo_set_command (tail rest) o in
          if bool_decide (eo_project o = "") then Usage "project selection is required" else Parse o
      | _ => Usage "exec requires -- <command> [arguments...]"
      end
  end.

(** ** [admin] *)

(** The loop over pairs of a name and a value, and the switch [--admin]. *)
Fixpoint admin_values (args : list string) (values : gmap string string) (admin : bool) : Parsed (gmap string string * bool) :=
  match args with
  | [] => Parse (values, admin)
  | arg :: rest =>
      if bool_decide (arg = "--admin") then admin_values rest values true else
      match rest with
      | [] => Usage (arg +:+ " requires a value")
      | value :: rest' => admin_values rest' (<[arg := value]> values) admin
      end
  end.

Definition value_of (values : gmap string string) (name : string) : string := default "" (values !! name).
Definition given (values : gmap string string) (name : string) : bool := negb (bool_decide (value_of values name = "")).

Inductive AdminCommand :=
| AdminCreateUser (name : string) (admin : bool)
| AdminCreateProject (slug name : string)
| AdminBindIdentity (user login : string)
| AdminRevokeIdentity (user : string)
| AdminAddMember (project user : string)
| AdminCreateEnrollment (user device : string) (expires : duration).

Definition admin_usage : string :=
  "admin requires user create, project create, identity github, identity revoke, member add, or enrollment create".

Definition parseAdmin (args : list string) : Parsed AdminCommand :=
  match args with
  | resource :: command :: args =>
      match admin_values args ∅ false with
      | Usage m => Usage m
      | Parse (values, admin) =>
          let get := value_of values in
          let given := given values in
          let selected := resource +:+ " " +:+ command in
          if bool_decide (selected = "user create") then
            if given "--name" then Parse (AdminCreateUser (get "--name") admin) else Usage "admin user create requires --name" else
          if bool_decide (selected = "project create") then
            if given "--slug" && given "--name" then Parse (AdminCreateProject (get "--slug") (get "--name"))
            else Usage "admin project create requires --slug and --name" else
          if bool_decide (selected = "identity github") then
            if given "--user" && given "--login" then Parse (AdminBindIdentity (get "--user") (get "--login"))
            else Usage "admin identity github requires --user and --login" else
          if bool_decide (selected = "identity revoke") then
            if given "--user" then Parse (AdminRevokeIdentity (get "--user")) else Usage "admin identity revoke requires --user" else
          if bool_decide (selected = "member add") then
            if given "--project" && given "--user" then Parse (AdminAddMember (get "--project") (get "--user"))
            else Usage "admin member add requires --project and --user" else
          if bool_decide (selected = "enrollment create") then
            if given "--user" && given "--device" then
              if given "--expires" then
                match ParseDuration (get "--expires") with
                | Some parsed =>
                    if (parsed <? Minute) || (30 * Minute <? parsed) then Usage "enrollment expiry must be between 1m and 30m"
                    else Parse (AdminCreateEnrollment (get "--user") (get "--device") parsed)
                | None => Usage "enrollment expiry must be between 1m and 30m"
                end
              else Parse (AdminCreateEnrollment (get "--user") (get "--device") (10 * Minute))
            else Usage "admin enrollment create requires --user and --device" else
          Usage admin_usage
      end
  | _ => Usage admin_usage
  end.

(** ** [list], [token], [trust] *)

Record listOptions := mkListOptions { lo_project : string; lo_limit : Z; lo_json : bool }.

Fixpoint list_options (args : list string) (o : listOptions) : Parsed listOptions :=
  match args with
  | [] => Parse o
  | arg :: rest =>
      if bool_decide (arg = "--json") then list_options rest (mkListOptions (lo_project o) (lo_limit o) true) else
      if bool_decide (arg = "--project") then
        match rest with
        | [] => Usage "--project requires a value"
        | value :: rest' => list_options rest' (mkListOptions value (lo_limit o) (lo_json o))
        end else
      if bool_decide (arg = "--limit") then
        match rest with
        | [] => Usage "--limit requires a value"
        | value :: rest' =>
            match Atoi value with
            | Some n => if (n <? 1) || (100 <? n) then Usage "--limit must be between 1 and 100" else list_options rest' (mkListOptions (lo_project o) n (lo_json o))
            | None => Usage "--limit must be between 1 and 100"
            end
        end
      else Usage ("unknown list option " +:+ arg)
  end.
Definition parseList (project : string) (args : list string) : Parsed listOptions :=
  match list_options args (mkListOptions project 20 false) with
  | Usage m => Usage m
  | Parse o => if bool_decide (lo_project o = "") then Usage "list requires a project" else Parse o
  end.

(** [expires] is relative to the time of the command. *)
Inductive TokenCommand := TokenCreate (name user : string) (expires : option duration) | TokenList | TokenRevoke (id : string).

Fixpoint token_create (args : list string) (name user : string) (expires : option duration) : Parsed TokenCommand :=
  match args with
  | [] => if bool_decide (name = "") then Usage "token create requires --name" else Parse (TokenCreate name user expires)
  | [arg] => Usage (arg +:+ " requires a value")
  | arg :: value :: rest =>
      if bool_decide (arg = "--name") then token_create rest value user expires else
      if bool_decide (arg = "--user") then token_create rest name value expires else
      if bool_decide (arg = "--expires") then
        match ParseDuration value with
        | Some d => if d <? Minute then Usage "invalid token expiry" else token_create rest name user (Some d)
        | None => Usage "invalid token expiry"
        end
      else Usage ("unknown token create option " +:+ arg)
  end.
Definition parseToken_command (args : list string) : Parsed TokenCommand :=
  match args with
  | [] => Usage "token requires create, list, or revoke"
  | command :: rest =>
      if bool_decide (command = "create") then token_create rest "" "" None else
      if bool_decide (command = "list") then match rest with [] => Parse TokenList | _ => Usage "token list accepts no arguments" end else
      if bool_decide (command = "revoke") then match rest with [id] => Parse (TokenRevoke id) | _ => Usage "token revoke requires one token ID" end else
      Usage ("unknown token command " +:+ command)
  end.

Inductive TrustCommand := TrustCreate (trust : GitHubTrust) | TrustList (project : string) | TrustRevoke (id : string).

Fixpoint trust_values (args : list string) (values : gmap string string) (events : list string) : Parsed (gmap string string * list string) :=
  match args with
  | [] => Parse (values, events)
  | [arg] => Usage (arg +:+ " requires a value")
  | arg :: value :: rest =>
      if bool_decide (arg = "--event") then trust_values rest values (events ++ [value]) else trust_values rest (<[arg := value]> values) events
  end.
Definition parseTrust (args : list string) : Parsed TrustCommand :=
  match args with
  | github :: command :: args =>
      if negb (bool_decide (github = "github")) then Usage "trust requires github create, list, or revoke" else
      if bool_decide (command = "create") then
        match trust_values args ∅ [] with
        | Usage m => Usage m
        | Parse (values, events) =>
            match List.find (fun name => negb (given values name)) ["--project"; "--owner-id"; "--repository-id"; "--workflow-ref"; "--ref"] with
            | Some required => Usage ("trust github create requires " +:+ required)
            | None =>
                if bool_decide (events = []) then Usage "trust github create requires at least one --event" else
                let get := value_of values in
                Parse (TrustCreate (mkGitHubTrust "" (get "--project") (get "--owner-id") (get "--repository-id") (get "--workflow-ref") (get "--ref")
                                      (get "--environment") events zero_time None))
            end
        end else
      if bool_decide (command = "list") then
        match args with
        | [] => Parse (TrustList "")
        | [flag; project] => if bool_decide (flag = "--project") then Parse (TrustList project) else Usage "trust github list accepts only --project"
        | _ => Usage "trust github list accepts only --project"
        end else
      if bool_decide (command = "revoke") then match args with [id] => Parse (TrustRevoke id) | _ => Usage "trust github revoke requires one trust ID" end else
      Usage ("unknown GitHub trust command " +:+ command)
  | _ => Usage "trust requires github create, list, or revoke"
  end.

(** ** [image] *)

Inductive ImageCommand :=
| ImageShow | ImageActivate (image : string) | ImageRollback | ImageHistory | ImageOverrides (allow : bool)
| ImageBuild (tag dockerfile : string) (extra : list string).

Fixpoint image_build (args : list string) (tag dockerfile : string) : Parsed ImageCommand :=
  let finish tag dockerfile extra :=
    if bool_decide (tag = "") || str_contains tag "@" then Usage "image build requires a mutable --tag <registry/repository:tag> destination"
    else Parse (ImageBuild tag dockerfile extra) in
  match args with
  | [] => finish tag dockerfile []
  | arg :: rest =>
      if bool_decide (arg = "--") then finish tag dockerfile rest else
      match rest with
      | [] => Usage (arg +:+ " requires a value")
      | value :: rest' =>
          if bool_decide (arg = "--tag") then image_build rest' value dockerfile else
          if bool_decide (arg = "--file") then image_build rest' tag value else
          Usage ("unknown image build option " +:+ arg)
      end
  end.

Definition image_command (command : string) (args : list string) : Parsed ImageCommand :=
  if bool_decide (command = "show") then match args with [] => Parse ImageShow | _ => Usage "image show accepts only --project" end else
  if bool_decide (command = "activate") then
    match args with
    | [flag; image] => if bool_decide (flag = "--image") && negb (bool_decide (image = "")) then Parse (ImageActivate image) else Usage "image activate requires --image <digest>"
    | _ => Usage "image activate requires --image <digest>"
    end else
  if bool_decide (command = "rollback") then match args with [] => Parse ImageRollback | _ => Usage "image rollback accepts only --project" end else
  if bool_decide (command = "history") then match args with [] => Parse ImageHistory | _ => Usage "image history accepts only --project" end else
  if bool_decide (command = "overrides") then
    match args with
    | [choice] =>
        if bool_decide (choice = "allow") then Parse (ImageOverrides true) else
        if bool_decide (choice = "deny") then Parse (ImageOverrides false) else Usage "image overrides requires allow or deny"
    | _ => Usage "image overrides requires allow or deny"
    end else
  if bool_decide (command = "build") then image_build args "" "Dockerfile" else
  Usage ("unknown image command " +:+ command).

(** The project of the command, and what it asks for. *)
Definition parseImage (project : string) (args : list string) : Parsed (string * ImageCommand) :=
  match args with
  | [] => Usage "image requires show, activate, rollback, history, overrides, or build"
  | command :: args =>
      match consumeProject project args with
      | Usage m => Usage m
      | Parse (project, args) =>
          if bool_decide (project = "") then Usage "image command requires repository project selection or --project" else
          match image_command command args with Parse c => Parse (project, c) | Usage m => Usage m end
      end
  end.

(** [repositoryFromTag]: what is left of the last colon after the last slash. *)
Definition repositoryFromTag (reference : string) : string :=
  match split_last 58 (bytes reference) with
  | Some (front, tag) => if has 47 tag then reference else of_bytes front
  | None => reference
  end.

(** ** [build] and [login] *)

(** The project and the arguments for Buildx. *)
Definition build_args (project : string) (args : list string) : Parsed (string * list string) :=
  let '(project, args) := match args with
                          | flag :: value :: rest => if bool_decide (flag = "--project") then (value, rest) else (project, args)
                          | _ => (project, args)
                          end in
  let args := match args with arg :: rest => if bool_decide (arg = "--") then rest else args | [] => [] end in
  if bool_decide (project = "") then Usage "build requires repository project selection or --project" else
  Parse (project, match args with [] => ["."] | _ => args end).

Record loginOptions := mkLoginOptions { lg_token : string; lg_recovery : bool; lg_noOpen : bool; lg_device : string }.

Fixpoint login_options (args : list string) (o : loginOptions) : Parsed loginOptions :=
  match args with
  | [] => Parse o
  | arg :: rest =>
      if bool_decide (arg = "--recovery-code") then login_options rest (mkLoginOptions (lg_token o) true (lg_noOpen o) (lg_device o)) else
      if bool_decide (arg = "--no-open") then login_options rest (mkLoginOptions (lg_token o) (lg_recovery o) true (lg_device o)) else
      if bool_decide (arg = "--device") then
        match rest with
        | [] => Usage "--device requires a name"
        | value :: rest' =>
            if bool_decide (TrimSpace value = "") then Usage "--device requires a name"
            else login_options rest' (mkLoginOptions (lg_token o) (lg_recovery o) (lg_noOpen o) (TrimSpace value))
        end
      else Usage "login accepts --device <name>, --no-open, or --recovery-code"
  end.
Definition parseLogin (explicitToken : string) (args : list string) : Parsed loginOptions :=
  let '(token, args) :=
    match args with
    | [flag; value] => if bool_decide (explicitToken = "") && bool_decide (flag = "--token") then (value, []) else (explicitToken, args)
    | _ => (explicitToken, args)
    end in
  match login_options args (mkLoginOptions token false false "") with
  | Usage m => Usage m
  | Parse o =>
      if lg_recovery o && (negb (bool_decide (lg_token o = "")) || lg_noOpen o || negb (bool_decide (lg_device o = "")))
      then Usage "--recovery-code cannot be combined with another login method" else Parse o
  end.

Definition validateEnrollmentInput (value : string) : option string :=
  let value := TrimSpace value in
  if (String.length value <? 32)%nat || (256 <? String.length value)%nat then None else Some value.

(** [serviceInit]: the project to link, once the projects are known. *)
Definition init_project (environment : string) (args : list string) : Parsed string :=
  match args with
  | [] => Parse environment
  | [flag; project] =>
      if bool_decide (flag = "--project") && negb (bool_decide (project = "")) then Parse project else Usage "init accepts only --project <project>"
  | _ => Usage "init accepts only --project <project>"
  end.
Definition init_selection (project : string) (projects : list Project) : Parsed (option Project) :=
  if bool_decide (project = "") then
    match projects with
    | [p] => Parse (selectAuthorizedProject projects (pj_Slug p))
    | _ => Usage "init requires --project"
    end
  else Parse (selectAuthorizedProject projects project).

(** * What the command line accepts

    The flags of [exec] with their printed form: printing and parsing are inverse
    to each other, and nothing else is accepted. *)

(** ** Flags of [exec] *)

Inductive ExecFlag :=
| FlagDetach
| FlagProject (project : string)
| FlagImage (image : string)
| FlagWorkdir (workdir : string)
| FlagTimeout (text : string) (timeout : duration)
| FlagEnv (key value : string)
| FlagCache (name target : string)
| FlagSecretEnv (name key : string)
| FlagSecretFile (name path : string).

Definition assign (name value : string) : string := name +:+ String "="%char value.

Definition print_flag (f : ExecFlag) : list string :=
  match f with
  | FlagDetach => ["--detach"]
  | FlagProject project => ["--project"; project]
  | FlagImage image => ["--image"; image]
  | FlagWorkdir workdir => ["--workdir"; workdir]
  | FlagTimeout text _ => ["--timeout"; text]
  | FlagEnv key value => ["--env"; assign key value]
  | FlagCache name target => ["--cache"; assign name target]
  | FlagSecretEnv name key => ["--secret-env"; assign name key]
  | FlagSecretFile name path => ["--secret-file"; assign name path]
  end.

(** Names are not empty and contain no equals sign. *)
Definition plain_name (name : string) : Prop := name <> "" /\ has_byte "="%char name = false.
Definition flag_ok (f : ExecFlag) : Prop :=
  match f with
  | FlagTimeout text timeout => ParseDuration text = Some timeout
  | FlagEnv key _ => plain_name key
  | FlagCache name target | FlagSecretEnv name target | FlagSecretFile name target => plain_name name /\ target <> ""
  | _ => True
  end.

Definition apply_flag (o : execOptions) (f : ExecFlag) : execOptions :=
  let '(mkExecOptions project image workdir timeout detach environment command caches secrets) := o in
  match f with
  | FlagDetach => mkExecOptions project image workdir timeout true environment command caches secrets
  | FlagProject project => mkExecOptions project image workdir timeout detach environment command caches secrets
  | FlagImage image => mkExecOptions project image workdir timeout detach environment command caches secrets
  | FlagWorkdir workdir => mkExecOptions project image workdir timeout detach environment command caches secrets
  | FlagTimeout _ timeout => mkExecOptions project image workdir timeout detach environment command caches secrets
  | FlagEnv key value => mkExecOptions project image workdir timeout detach (<[key := value]> environment) command caches secrets
  | FlagCache name target => mkExecOptions project image workdir timeout detach environment command (caches ++ [mkCache name target]) secrets
  | FlagSecretEnv name key => mkExecOptions project image workdir timeout detach environment command caches (secrets ++ [mkJobSecret name (TargetEnvironment key)])
  | FlagSecretFile name path => mkExecOptions project image workdir timeout detach environment command caches (secrets ++ [mkJobSecret name (TargetFile path)])
  end.

Lemma cut_inv sep s a b : cut sep s = Some (a, b) -> s = a +:+ String sep b /\ has_byte sep a = false.
Proof.
  revert a b. induction s as [|c s IH]; intros a b; cbn [cut]; [done|]. destruct (Ascii.eqb_spec c sep) as [->|Hc]; [by intros [= <- <-]|].
  destruct (cut sep s) as [[x y]|]; [|done]. intros [= <- <-]. destruct (IH x y eq_refl) as [-> Hb]. split; [done|]. unfold has_byte in *. cbn [bytes existsb].
  rewrite Hb, orb_false_r. apply Z.eqb_neq. intros E. apply Hc. symmetry. by apply byte_of_inj.
Qed.

(** A flag with a value: what it may be. *)
Lemma exec_value_spec flag value o o' : flag ∈ exec_flags -> exec_value flag value o = Parse o' ->
  exists f, print_flag f = [flag; value] /\ flag_ok f /\ o' = apply_flag o f.
Proof.
  intros Hin. destruct o as [project image workdir timeout detach environment command caches secrets]. unfold exec_value. cbv beta iota.
  case_bool_decide; [subst flag; intros [= <-]; by exists (FlagProject value)|].
  case_bool_decide; [subst flag; intros [= <-]; by exists (FlagImage value)|].
  case_bool_decide; [subst flag; intros [= <-]; by exists (FlagWorkdir value)|].
  case_bool_decide; [subst flag; destruct (ParseDuration value) as [d|] eqn:Ed; [|done]; intros [= <-]; by exists (FlagTimeout value d)|].
  destruct (cut "="%char value) as [[name target]|] eqn:Ec; [|by repeat case_bool_decide].
  apply cut_inv in Ec as [-> Hb].
  case_bool_decide; [subst flag; case_bool_decide; [done|]; intros [= <-]; by exists (FlagEnv name target)|].
  case_bool_decide; [subst flag; destruct (_ || _) eqn:E; [done|]; split_bools; intros [= <-]; by exists (FlagCache name target)|].
  case_bool_decide; [subst flag; destruct (_ || _) eqn:E; [done|]; split_bools; intros [= <-]; by exists (FlagSecretEnv name target)|].
  destruct (_ || _) eqn:E; [done|]. split_bools. intros [= <-]. exists (FlagSecretFile name target).
  repeat (apply elem_of_cons in Hin as [->|Hin]; [done || (split; [done|]; done)|]). by apply elem_of_nil in Hin.
Qed.

Lemma exec_value_print f flag value o : print_flag f = [flag; value] -> flag_ok f -> exec_value flag value o = Parse (apply_flag o f).
Proof.
  intros Hp Hok. destruct o as [project image workdir timeout detach environment command caches secrets].
  destruct f as [|p|i|w|text t|k v|n t|n k|n q]; cbn in Hp; simplify_eq; cbn in Hok |- *; try done.
  - by rewrite Hok.
  - destruct Hok as [Hne Hb]. unfold assign. rewrite cut_app by done. rewrite (bool_decide_eq_false_2 (k = "")) by done. done.
  - destruct Hok as [[Hne Hb] Ht]. unfold assign. rewrite cut_app by done. rewrite (bool_decide_eq_false_2 (n = "")), (bool_decide_eq_false_2 (t = "")) by done. done.
  - destruct Hok as [[Hne Hb] Ht]. unfold assign. rewrite cut_app by done. rewrite (bool_decide_eq_false_2 (n = "")), (bool_decide_eq_false_2 (k = "")) by done. done.
  - destruct Hok as [[Hne Hb] Ht]. unfold assign. rewrite cut_app by done. rewrite (bool_decide_eq_false_2 (n = "")), (bool_decide_eq_false_2 (q = "")) by done. done.
Qed.

Definition print_flags (flags : list ExecFlag) : list string := List.concat (map print_flag flags).

Lemma exec_options_print flags rest : forall o, Forall flag_ok flags ->
  exec_options (print_flags flags ++ "--" :: rest) o = Parse (fold_left apply_flag flags o, "--" :: rest).
Proof.
  induction flags as [|f flags IH]; intros o Hok; [done|]. apply Forall_cons in Hok as [Hf Hok].
  unfold print_flags. cbn [map List.concat fold_left]. fold (print_flags flags). rewrite <- (assoc_L (++)).
  destruct f as [|p|i|w|text t|k v|n t|n k|n q]; cbn [print_flag app exec_options].
  1:{ rewrite IH by done. by destruct o. }
  all: rewrite bool_decide_eq_false_2 by done; rewrite bool_decide_eq_false_2 by done; rewrite bool_decide_eq_true_2 by (apply (bool_decide_unpack _); vm_compute; exact I).
  all: match type of Hf with flag_ok ?f => rewrite (exec_value_print f _ _ o eq_refl Hf) end; by rewrite IH.
Qed.

Lemma exec_options_spec : forall n args o o' rest, (length args <= n)%nat -> exec_options args o = Parse (o', rest) ->
  exists flags, Forall flag_ok flags /\ o' = fold_left apply_flag flags o /\
    ((rest = [] /\ args = print_flags flags) \/ exists command, rest = "--" :: command /\ args = print_flags flags ++ rest).
Proof.
  induction n as [|n IH]; intros args o o' rest Hlen.
  { destruct args; [|cbn in Hlen; lia]. intros [= <- <-]. exists []. split; [done|]. split; [done|]. by left. }
  destruct args as [|arg args]; [intros [= <- <-]; exists []; split; [done|]; split; [done|]; by left|]. cbn [exec_options]. cbn in Hlen.
  case_bool_decide as E1; [subst arg; intros [= <- <-]; exists []; split; [done|]; split; [done|]; right; by eexists|].
  case_bool_decide as E2.
  { subst arg. intros He. destruct (IH args (eo_set_detach o) o' rest ltac:(lia) He) as (flags & Hf & -> & Hargs). exists (FlagDetach :: flags). split; [by constructor|].
    split; [cbn; by destruct o|]. destruct Hargs as [[-> ->]|(command & -> & ->)]; [by left|right; by exists command]. }
  case_bool_decide as E3; [|done]. destruct args as [|value args]; [done|]. cbn in Hlen.
  destruct (exec_value arg value o) as [o1|] eqn:Ev; [|done]. intros He.
  destruct (exec_value_spec arg value o o1 E3 Ev) as (f & Hp & Hok & ->).
  destruct (IH args (apply_flag o f) o' rest ltac:(lia) He) as (flags & Hf & -> & Hargs). exists (f :: flags). split; [by constructor|]. split; [done|].
  unfold print_flags. cbn [map List.concat]. rewrite Hp. destruct Hargs as [[-> ->]|(command & -> & ->)]; [by left|right; by exists command].
Qed.

(** C35: [exec] accepts exactly the flags of its usage, in any order, followed by
    [--] and a command, for a selected project; and the options are what the
    flags say, the last of a flag prevailing, with mounts and secrets in order. *)
Theorem exec_arguments (image project : string) (args : list string) (o : execOptions) :
  parseExec image project args = Parse o <->
  exists flags command, command <> [] /\ Forall flag_ok flags /\ args = print_flags flags ++ "--" :: command /\
    o = eo_set_command command (fold_left apply_flag flags (exec_start image project)) /\ eo_project o <> "".
Proof.
  unfold parseExec. split.
  - destruct (exec_options args (exec_start image project)) as [[o1 rest]|] eqn:E; [|done].
    destruct (exec_options_spec (length args) args _ o1 rest ltac:(lia) E) as (flags & Hok & -> & Hargs).
    destruct Hargs as [[-> _]|(command & -> & ->)]; [done|]. destruct command as [|c command]; [done|]. cbn [tail].
    case_bool_decide as Ep; [done|]. intros [= <-]. exists flags, (c :: command). by repeat split.
  - intros (flags & command & Hne & Hok & -> & -> & Hp). rewrite exec_options_print by done. destruct command as [|c command]; [done|]. cbn [tail].
    by rewrite bool_decide_eq_false_2.
Qed.

(** ** Projects *)

(** The arguments without the project. *)
Lemma consume_explicit : forall n args project p, (length args <= n)%nat -> explicit_project args project = Parse p ->
  exists rest, consumeProject project args = Parse (p, rest).
Proof.
  induction n as [|n IH]; intros args project p Hlen; (destruct args as [|arg args]; [intros [= <-]; by eexists|]); cbn in Hlen; [lia|].
  cbn [explicit_project consumeProject]. case_bool_decide as E1; [intros [= <-]; by eexists|].
  case_bool_decide as E2; cbn [negb].
  - destruct args as [|candidate args]; [done|]. destruct (_ || _) eqn:E3; [done|]. split_bools. rewrite (bool_decide_eq_false_2 (candidate = "")) by done.
    destruct (_ && _) eqn:E4; [done|]. intros He. apply IH; [cbn in Hlen; lia|done].
  - intros He. destruct (IH args project p ltac:(lia) He) as [rest ->]. by eexists.
Qed.

(** [repositoryFromTag] undoes [repository:tag]. *)
Lemma split_last_app b front back : has b back = false -> split_last b (front ++ b :: back) = Some (front, back).
Proof.
  intros Hb. induction front as [|x front IH]; cbn [app split_last].
  - assert (E : split_last b back = None).
    { clear -Hb. induction back as [|x back IH]; [done|]. cbn in Hb. apply orb_false_iff in Hb as [H1 H2]. cbn. rewrite IH by done. rewrite Z.eqb_sym. by rewrite H1. }
    rewrite E. by rewrite Z.eqb_refl.
  - by rewrite IH.
Qed.
Lemma repository_of_tag repository tag :
  has 58 (bytes tag) = false -> has 47 (bytes tag) = false -> repositoryFromTag (repository +:+ String ":"%char tag) = repository.
Proof.
  intros H1 H2. unfold repositoryFromTag. rewrite bytes_app. cbn [bytes]. change (byte_of ":"%char) with 58. rewrite split_last_app by done.
  rewrite H2. apply of_bytes_bytes.
Qed.
