(* ===== verification/CliClient.v ===== *)
(** * The client of the control API

    The commands of [internal/cli/service.go] as programs against the control
    API and the local machine: which calls they make, in which order, with which
    credentials, and the code they exit with.  The API client is shared: the
    renewal of a workload credential replaces the token of every holder, and the
    heartbeats of a transfer keep a variable of their own that holds the client.
    The log of the calls is part of the state. *)
From stdpp Require Import gmap.
From S2P Require Import Prelude Model GoMonad GoLib GoStrings Path Encoding Table Schema JobStore Validate ControlAPI HumanAuth Text Retry LogStream CliArgs.

(** ** The service *)

Inductive Rpc : Type -> Type :=
| RpcListProjects : Rpc (list Project)
| RpcPrepareJob (request : PrepareJobRequest) : Rpc (option JobPB * option DataPlaneConnection)
| RpcGetJob (id : string) : Rpc (option JobPB * option DataPlaneConnection)
| RpcStartJob (id rootDigest : string) : Rpc JobPB
| RpcCancelJob (id : string) : Rpc JobPB
| RpcListJobs (project : string) (pageSize : Z) : Rpc (list JobPB)
| RpcPrepareBuild (project idempotencyKey : string) : Rpc (BuildPB * option DataPlaneConnection)
| RpcGetBuild (id : string) : Rpc (BuildPB * option DataPlaneConnection)
| RpcFinishBuild (id : string) (exitCode : Z) (cancelled : bool) : Rpc BuildPB
| RpcCancelBuild (id : string) : Rpc BuildPB
| RpcActivateProjectImage (project image : string) : Rpc Project
| RpcRollbackProjectImage (project : string) : Rpc Project
| RpcListProjectImageHistory (project : string) : Rpc (list ProjectImageEvent)
| RpcSetProjectImagePolicy (project : string) (allow : bool) : Rpc Project
| RpcCreateUser (name : string) (admin : bool) : Rpc User
| RpcCreateProject (slug name : string) : Rpc Project
| RpcBindGitHubIdentity (user login : string) : Rpc ExternalIdentity
| RpcRevokeGitHubIdentity (user : string) : Rpc unit
| RpcAddProjectMember (project user : string) : Rpc unit
| RpcCreateEnrollmentCode (user device : string) (expiresAt : time) : Rpc (EnrollmentCode * string)
| RpcCreateDeviceToken (name user : string) (expiresAt : option time) : Rpc IssuedDeviceToken
| RpcListDeviceTokens : Rpc (list DeviceToken)
| RpcRevokeDeviceToken (id : string) : Rpc unit
| RpcCreateGitHubTrust (trust : GitHubTrust) : Rpc GitHubTrust
| RpcListGitHubTrusts (project : string) : Rpc (list GitHubTrust)
| RpcRevokeGitHubTrust (id : string) : Rpc unit
| RpcGetServiceInfo : Rpc (string * list string)
| RpcExchangeGitHubOIDC (project idToken : string) : Rpc IssuedAccessToken
| RpcExchangeEnrollmentCode (code : string) : Rpc IssuedDeviceToken.

(** A service: what it answers to a call under a token, [""] for none.  It
    answers a request for a job with that job. *)
Class Service (W : Type) := {
  sv_call : string -> forall A, Rpc A -> M W A;
  sv_job_law : forall o token id w, wp o (sv_call token _ (RpcGetJob id)) (fun r _ => forall job, r.1 = Some job -> jp_Id job = id) (fun _ _ => True) w
}.

(** [authclient.BrowserLogin]. *)
Record BrowserLogin := mkBrowserLogin { bl_DeviceCode : string; bl_ExpiresAt : time; bl_Interval : duration }.
Record Upload := mkUpload { up_RootDigest : string; up_InputFiles : Z }.

(** The local machine: the workspace, the identity token of the workflow, the
    proxy of the data plane, the transfer of the inputs, Buildx, and how many
    heartbeat intervals pass while it runs; the log of a job until its end; the
    terminal, the browser login, the keyring and the link of the repository. *)
Class Machine (W : Type) := {
  mc_Root : M W string;
  mc_Directory : M W string;
  mc_Files : string -> M W (list string);
  mc_IDToken : M W string;
  mc_Proxy : DataPlaneConnection -> M W unit;
  mc_Upload : DataPlaneConnection -> string -> list string -> M W Upload;
  mc_Buildx : string -> list string -> M W (Z * option Err);
  mc_Metadata : M W (option string);
  mc_Intervals : W -> nat;
  mc_Follow : string -> M W Z;
  mc_ReadCode : M W string;
  mc_Hostname : M W string;
  mc_Start : string -> M W BrowserLogin;
  mc_Poll : string -> M W (option string);
  mc_Available : M W bool;
  mc_KeyringGet : M W string;
  mc_KeyringSet : string -> M W unit;
  mc_KeyringDelete : M W unit;
  mc_Link : string -> M W unit
}.

(** ** The state of the client *)

Inductive Event :=
| EvCall (token : string) (A : Type) (q : Rpc A) (r : res A)
| EvRenewed (ok : bool)
| EvStored (token : string)
| EvRemoved.

(** [cl_renewal] is the project of a workload identity, [None] for other
    credentials; [cl_beating] tells whether the variable of the heartbeats holds
    a client; [cl_panicked] whether a nil one was used. *)
Record Client := mkClient {
  cl_token : string; cl_renewal : option string; cl_beating : bool; cl_panicked : bool; cl_log : list Event
}.

Definition ErrContext : Err := ErrText "context canceled".

Section Client.
Context {W : Type} `{Service W} `{Machine W}.
#[local] Abbreviation CM := (M (Client * W)).

Definition on_machine {A : Type} (m : M W A) : CM A := on_runtime m.
Definition client : CM Client := on_store get_db.
Definition set_client (f : Client -> Client) : CM unit := on_store (c ← get_db; put_db (f c)).
Definition record (e : Event) : CM unit :=
  set_client (fun c => mkClient (cl_token c) (cl_renewal c) (cl_beating c) (cl_panicked c) (cl_log c ++ [e])).
Definition set_token (token : string) : CM unit :=
  set_client (fun c => mkClient token (cl_renewal c) (cl_beating c) (cl_panicked c) (cl_log c)).
Definition set_beating (beating : bool) : CM unit :=
  set_client (fun c => mkClient (cl_token c) (cl_renewal c) beating (cl_panicked c) (cl_log c)).
Definition panic {A : Type} : CM A :=
  _ ← set_client (fun c => mkClient (cl_token c) (cl_renewal c) (cl_beating c) true (cl_log c));
  throw (ErrText "invalid memory address or nil pointer dereference").

Definition settle {A : Type} (r : res A) : CM A := match r with Ok a => mret a | Fail e => throw e end.

(** A call under a token. *)
Definition call_as (token : string) {A : Type} (q : Rpc A) : CM A :=
  r ← attempt (on_machine (sv_call token _ q));
  _ ← record (EvCall token A q r);
  settle r.
Definition call {A : Type} (q : Rpc A) : CM A := c ← client; call_as (cl_token c) q.

(** [connect.CodeOf]. *)
Definition CodeOf (e : Err) : ConnectCode := match e with ErrConnect code _ => code | _ => CodeUnknown end.
Definition is_unauthenticated (e : Err) : bool := bool_decide (CodeOf e = CodeUnauthenticated).

(** The exchange of the identity of a workflow for a session. *)
Definition oidc (project : string) : CM string :=
  if bool_decide (project = "") then throw (ErrText "repository project selection is required for GitHub OIDC") else
  idToken ← on_machine mc_IDToken;
  issued ← call_as "" (RpcExchangeGitHubOIDC project idToken);
  mret (ia_Token issued).

(** [renewServiceClient]: other credentials are kept as they are. *)
Definition renewServiceClient : CM unit :=
  c ← client;
  match cl_renewal c with
  | None => mret tt
  | Some project =>
      r ← attempt (oidc project);
      _ ← record (EvRenewed (match r with Ok _ => true | Fail _ => false end));
      token ← settle r;
      set_token token
  end.

(** A call that renews the credential once when it is refused. *)
Definition call_renewed {A : Type} (q : Rpc A) : CM A :=
  r ← attempt (call q);
  match r with
  | Fail e => if is_unauthenticated e then _ ← renewServiceClient; call q else throw e
  | Ok a => mret a
  end.

(** [fail] and [failUsage]. *)
Definition exit_code (m : CM Z) : CM Z := r ← attempt m; mret match r with Ok code => code | Fail _ => 1 end.

(** ** Projects *)

Definition authorizedProject (selector : string) : CM Project :=
  projects ← call RpcListProjects;
  match selectAuthorizedProject projects selector with
  | Some project => mret project
  | None => throw (ErrText ("not authorized for autback project " +:+ selector))
  end.

(** [jobID]. *)
Definition jobID : CM string := value ← rand_Read 8; mret ("autback-" +:+ hex_encode value).

(** ** Waiting *)

(** [waitForServiceJobPreparation]; the context is cancelled after [patience]
    polls, if not before. *)
Fixpoint waitForServiceJobPreparation (patience : nat) (job : JobPB) (connection : option DataPlaneConnection) : CM (JobPB * DataPlaneConnection) :=
  match jp_Status job, connection with
  | JOB_STATUS_PREPARING, Some connection => mret (job, connection)
  | JOB_STATUS_PREPARING, None =>
      match patience with
      | O => throw ErrContext
      | S patience' =>
          _ ← may_fail;
          '(job', connection') ← call_renewed (RpcGetJob (jp_Id job));
          match job' with
          | None => throw (ErrText "get remote job preparation returned no job")
          | Some job' => waitForServiceJobPreparation patience' job' connection'
          end
      end
  | _, _ => throw (ErrText "remote job became terminal before source upload")
  end.

Fixpoint waitForServiceBuild (patience : nat) (build : BuildPB) (connection : option DataPlaneConnection) : CM (BuildPB * option DataPlaneConnection) :=
  match bp_Status build with
  | BUILD_STATUS_QUEUED =>
      match patience with
      | O => throw ErrContext
      | S patience' =>
          _ ← may_fail;
          '(build', connection') ← call_renewed (RpcGetBuild (bp_Id build));
          waitForServiceBuild patience' build' connection'
      end
  | BUILD_STATUS_RUNNING => mret (build, connection)
  | _ => throw (ErrText "remote build became terminal before admission")
  end.

(** ** Heartbeats *)

Definition transientHeartbeatError (e : Err) : bool :=
  match CodeOf e with
  | CodeUnavailable | CodeDeadlineExceeded | CodeResourceExhausted | CodeAborted => true
  | _ => false
  end.

(** A call through the variable of the heartbeats. *)
Definition beat_call {A : Type} (q : Rpc A) : CM A :=
  c ← client; if cl_beating c then call q else panic.

(** A heartbeat of a transfer: the variable is assigned the result of the
    renewal, which is nil when it fails. *)
Definition beat_renewed {A : Type} (q : Rpc A) : CM A :=
  r ← attempt (beat_call q);
  match r with
  | Fail e =>
      if is_unauthenticated e then
        renewed ← attempt renewServiceClient;
        match renewed with
        | Ok _ => beat_call q
        | Fail e => _ ← set_beating false; throw e
        end
      else throw e
  | Ok a => mret a
  end.

Definition heartbeat_job (id : string) : CM unit :=
  '(job, connection) ← beat_renewed (RpcGetJob id);
  match job, connection with
  | Some job, Some connection =>
      match jp_Status job with
      | JOB_STATUS_PREPARING => on_machine (mc_Proxy connection)
      | _ => throw (ErrText "remote job preparation lease is no longer admitted")
      end
  | _, _ => throw (ErrText "remote job preparation lease is no longer admitted")
  end.
Definition heartbeat_build (id : string) : CM unit :=
  '(build, connection) ← beat_renewed (RpcGetBuild id);
  match connection with
  | Some connection =>
      match bp_Status build with
      | BUILD_STATUS_RUNNING => on_machine (mc_Proxy connection)
      | _ => throw (ErrText "remote build lease is no longer running")
      end
  | None => throw (ErrText "remote build lease is no longer running")
  end.

(** [normalizeHeartbeatPolicy] of a policy that sets the interval alone, as the
    policy of the retries. *)
Definition heartbeat_policy (interval : duration) : RetryPolicy (Client * W) :=
  mkRetryPolicy (250 * Millisecond) (5 * Second) 1000 (wrap64 (2 * interval)) (10 * Second) None None None.

(** [runLeaseHeartbeat], until the intervals of the transfer are over and its
    context ends; a lost lease is an error. *)
Fixpoint runLeaseHeartbeat (interval : duration) (intervals : nat) (heartbeat : CM unit) : CM unit :=
  match intervals with
  | O => mret tt
  | S intervals' =>
      waited ← attempt may_fail;
      match waited with
      | Fail _ => mret tt
      | Ok _ =>
          outcome ← Do (heartbeat_policy interval) (Some (fun _ => heartbeat)) (Some transientHeartbeatError);
          match outcome with
          | Some RetrySuccess => runLeaseHeartbeat interval intervals' heartbeat
          | _ =>
              cancelled ← ctx_Err;
              match cancelled with
              | Some _ => mret tt
              | None => throw (ErrText "heartbeat")
              end
          end
      end
  end.

(** The heartbeats during a transfer.  They run beside it and share nothing with
    it but its context, so that the order is immaterial; a panic ends the
    process. *)
Definition heartbeats (heartbeat : CM unit) : CM unit :=
  _ ← set_beating true;
  w ← on_machine get_db;
  runLeaseHeartbeat (30 * Second) (mc_Intervals w) heartbeat.
Definition panicked : CM bool := c ← client; mret (cl_panicked c).

(** ** [exec] *)

Definition cancelServiceJobAfterError (id : string) (cause : Err) : CM Z :=
  _ ← attempt (_ ← renewServiceClient; call (RpcCancelJob id));
  throw cause.

(** [durationpb.New]. *)
Definition duration_pb (d : duration) : DurationPB := mkDurationPB true d.

Definition exec_request (o : execOptions) (workdir key : string) : PrepareJobRequest :=
  mkPrepareJobRequest (eo_project o) (eo_image o) (eo_command o) workdir (map_to_list (eo_environment o)) (Some (duration_pb (eo_timeout o))) key
    (map Some (eo_caches o)) (map Some (eo_secrets o)).

(** From the admission on: upload the inputs under heartbeats, and start. *)
Definition exec_transfer (o : execOptions) (root : string) (files : list string) (job : JobPB) (connection : DataPlaneConnection) : CM Z :=
  let id := jp_Id job in
  started ← attempt (on_machine (mc_Proxy connection));
  match started with
  | Fail e => cancelServiceJobAfterError id e
  | Ok _ =>
      beaten ← attempt (heartbeats (heartbeat_job id));
      dead ← panicked;
      if dead : bool then mret 2 else
      upload ← attempt (on_machine (mc_Upload connection root files));
      match beaten, upload with
      | Fail e, _ => cancelServiceJobAfterError id e
      | Ok _, Fail e => cancelServiceJobAfterError id e
      | Ok _, Ok upload =>
          started ← attempt (call (RpcStartJob id (up_RootDigest upload)));
          match started with
          | Fail e => cancelServiceJobAfterError id e
          | Ok job => if eo_detach o then mret 0 else on_machine (mc_Follow (jp_Id job))
          end
      end
  end.

Definition exec_prepared (patience : nat) (o : execOptions) (root : string) (files : list string) (job : JobPB) (connection : option DataPlaneConnection) : CM Z :=
  waited ← attempt (waitForServiceJobPreparation patience job connection);
  match waited with
  | Fail e => cancelServiceJobAfterError (jp_Id job) e
  | Ok (job, connection) => exec_transfer o root files job connection
  end.

Definition exec_command (patience : nat) (project : string) (o : execOptions) : CM Z :=
  _ ← authorizedProject project;
  root ← on_machine mc_Root;
  workdir ← (if bool_decide (eo_workdir o = "") then on_machine mc_Directory else mret (eo_workdir o));
  files ← on_machine (mc_Files root);
  key ← jobID;
  '(job, connection) ← call (RpcPrepareJob (exec_request o workdir key));
  match job with
  | None => throw (ErrText "prepare remote job returned no job")
  | Some job => exec_prepared patience o root files job connection
  end.

Definition serviceExec (patience : nat) (image project : string) (args : list string) : CM Z :=
  match parseExec image project args with
  | Usage _ => mret 2
  | Parse o => exit_code (exec_command patience project o)
  end.

(** ** [build] *)

Definition cancelServiceBuildRecord (id : string) : CM unit := _ ← renewServiceClient; _ ← call (RpcCancelBuild id); mret tt.
Definition finishServiceBuildRecord (id : string) (exitCode : Z) (cancelled : bool) : CM unit :=
  _ ← renewServiceClient; _ ← call (RpcFinishBuild id exitCode cancelled); mret tt.
Definition cancelServiceBuildAfterError (id : string) (cause : Err) : CM Z :=
  _ ← attempt (cancelServiceBuildRecord id); throw cause.

(** The first of the errors, or the code of the build. *)
Definition build_verdict (code : Z) (beaten : res unit) (runErr : option Err) (finished : res unit) : CM Z :=
  match beaten with
  | Fail e => throw e
  | Ok _ => match runErr with Some e => throw e | None => match finished with Fail e => throw e | Ok _ => mret code end end
  end.

(** The build under heartbeats, and its record. *)
Definition build_run (id builder : string) (args : list string) (connection : DataPlaneConnection) : CM Z :=
  started ← attempt (on_machine (mc_Proxy connection));
  match started with
  | Fail e => cancelServiceBuildAfterError id e
  | Ok _ =>
      beaten ← attempt (heartbeats (heartbeat_build id));
      dead ← panicked;
      if dead : bool then mret 2 else
      ran ← attempt (on_machine (mc_Buildx builder args));
      let '(code, runErr) := match ran with Ok r => r | Fail e => (1, Some e) end in
      done ← ctx_Err;
      let cancelled := negb (bool_decide (done = None)) || match beaten with Ok _ => false | Fail _ => true end in
      finished ← attempt (if cancelled then cancelServiceBuildRecord id else finishServiceBuildRecord id (wrap32 code) false);
      build_verdict code beaten runErr finished
  end.

Definition build_prepared (patience : nat) (builder : string) (args : list string) (build : BuildPB) (connection : option DataPlaneConnection) : CM Z :=
  let id := bp_Id build in
  waited ← attempt (waitForServiceBuild patience build connection);
  match waited with
  | Fail e => cancelServiceBuildAfterError id e
  | Ok (_, None) => cancelServiceBuildAfterError id (ErrText "remote build was admitted without a BuildKit connection")
  | Ok (_, Some connection) => build_run id builder args connection
  end.

Definition build_command (patience : nat) (project : string) (args : list string) : CM Z :=
  _ ← authorizedProject project;
  _ ← on_machine mc_Root;
  random ← jobID;
  '(build, connection) ← call (RpcPrepareBuild project random);
  build_prepared patience random args build connection.

Definition serviceBuild (patience : nat) (project : string) (args : list string) : CM Z :=
  match build_args project args with
  | Usage _ => mret 2
  | Parse (project, args) => exit_code (build_command patience project args)
  end.

(** ** [image] *)

(** [metadataPath] is the name of the temporary file. *)
Definition serviceImageBuild (patience : nat) (project tag dockerfile metadataPath : string) (extra : list string) : CM Z :=
  _ ← may_fail;
  code ← serviceBuild patience project (["--file"; dockerfile; "--tag"; tag; "--push"; "--metadata-file"; metadataPath] ++ extra ++ ["."]);
  if negb (code =? 0) then mret code else
  digest ← on_machine mc_Metadata;
  match digest with
  | Some digest =>
      if HasPrefix digest "sha256:" then
        _ ← renewServiceClient;
        _ ← call (RpcActivateProjectImage project (repositoryFromTag tag +:+ "@" +:+ digest));
        mret 0
      else throw (ErrText "Buildx did not report containerimage.digest")
  | None => throw (ErrText "Buildx did not report containerimage.digest")
  end.

(** A command that makes one call. *)
Definition one_call {A : Type} (q : Rpc A) : CM Z := _ ← call q; mret 0.

Definition serviceImage (patience : nat) (project metadataPath : string) (args : list string) : CM Z :=
  match parseImage project args with
  | Usage _ => mret 2
  | Parse (project, command) =>
      exit_code match command with
                | ImageShow => _ ← authorizedProject project; mret 0
                | ImageActivate image => one_call (RpcActivateProjectImage project image)
                | ImageRollback => one_call (RpcRollbackProjectImage project)
                | ImageHistory => one_call (RpcListProjectImageHistory project)
                | ImageOverrides allow => one_call (RpcSetProjectImagePolicy project allow)
                | ImageBuild tag dockerfile extra => serviceImageBuild patience project tag dockerfile metadataPath extra
                end
  end.

(** ** Commands of one call *)

Definition serviceStatus (args : list string) : CM Z :=
  match jobArgs args with
  | Usage _ => mret 2
  | Parse (_, id) => exit_code (one_call (RpcGetJob id))
  end.
Definition serviceLogs (args : list string) : CM Z :=
  match args with [id] => exit_code (on_machine (mc_Follow id)) | _ => mret 2 end.
Definition serviceCancel (args : list string) : CM Z :=
  match args with [id] => exit_code (one_call (RpcCancelJob id)) | _ => mret 2 end.
Definition serviceList (project : string) (args : list string) : CM Z :=
  match parseList project args with
  | Usage _ => mret 2
  | Parse o => exit_code (one_call (RpcListJobs (lo_project o) (wrap32 (lo_limit o))))
  end.
Definition serviceDoctor : CM Z := exit_code (one_call RpcGetServiceInfo).

Definition serviceToken (args : list string) : CM Z :=
  match parseToken_command args with
  | Usage _ => mret 2
  | Parse (TokenCreate name user expires) =>
      exit_code (now ← time_Now; one_call (RpcCreateDeviceToken name user ((fun d => now + d) <$> expires)))
  | Parse TokenList => exit_code (one_call RpcListDeviceTokens)
  | Parse (TokenRevoke id) => exit_code (one_call (RpcRevokeDeviceToken id))
  end.

Definition serviceTrust (args : list string) : CM Z :=
  match parseTrust args with
  | Usage _ => mret 2
  | Parse (TrustCreate trust) => exit_code (one_call (RpcCreateGitHubTrust trust))
  | Parse (TrustList project) => exit_code (one_call (RpcListGitHubTrusts project))
  | Parse (TrustRevoke id) => exit_code (one_call (RpcRevokeGitHubTrust id))
  end.

Definition serviceAdmin (args : list string) : CM Z :=
  match parseAdmin args with
  | Usage _ => mret 2
  | Parse command =>
      exit_code match command with
                | AdminCreateUser name admin => one_call (RpcCreateUser name admin)
                | AdminCreateProject slug name => one_call (RpcCreateProject slug name)
                | AdminBindIdentity user login => one_call (RpcBindGitHubIdentity user login)
                | AdminRevokeIdentity user => one_call (RpcRevokeGitHubIdentity user)
                | AdminAddMember project user => one_call (RpcAddProjectMember project user)
                | AdminCreateEnrollment user device expires => now ← time_Now; one_call (RpcCreateEnrollmentCode user device (now + expires))
                end
  end.

Definition serviceInit (environment : string) (args : list string) : CM Z :=
  match init_project environment args with
  | Usage _ => mret 2
  | Parse project =>
      exit_code (
        projects ← call RpcListProjects;
        match init_selection project projects with
        | Usage _ => mret 2
        | Parse None => throw (ErrText ("not authorized for autback project " +:+ project))
        | Parse (Some selected) => _ ← on_machine mc_Root; _ ← on_machine (mc_Link (pj_Slug selected)); mret 0
        end)
  end.

(** ** Credentials *)

(** [authclient.Resolve]: the flag, the environment, the keyring, the workflow. *)
Inductive Source := SourceExplicit | SourceEnvironment | SourceKeyring | SourceOIDC.
Definition Resolve_token (explicit environment project : string) : CM (string * Source) :=
  if negb (bool_decide (explicit = "")) then mret (explicit, SourceExplicit) else
  if negb (bool_decide (environment = "")) then mret (environment, SourceEnvironment) else
  stored ← attempt (on_machine mc_KeyringGet);
  let fallback :=
    available ← on_machine mc_Available;
    let none := match stored with Fail e => throw e | Ok _ => throw (ErrText "no autback credential is available") end in
    if available : bool then
      token ← oidc project;
      if bool_decide (token = "") then none else mret (token, SourceOIDC)
    else none in
  match stored with
  | Ok token => if bool_decide (token = "") then fallback else mret (token, SourceKeyring)
  | Fail _ => fallback
  end.

(** [authenticatedServiceClient]: a workload credential is renewable. *)
Definition authenticatedServiceClient (explicit environment project : string) : CM unit :=
  '(token, source) ← Resolve_token explicit environment project;
  set_client (fun c => mkClient token (match source with SourceOIDC => Some project | _ => None end) (cl_beating c) (cl_panicked c) (cl_log c)).

(** The browser login: poll until it is approved, refused or expired. *)
Fixpoint poll_login (patience : nat) (login : BrowserLogin) : CM string :=
  match patience with
  | O => throw ErrContext
  | S patience' =>
      now ← time_Now;
      if bl_ExpiresAt login <=? now then throw (ErrText "browser login expired") else
      _ ← may_fail;
      issued ← on_machine (mc_Poll (bl_DeviceCode login));
      match issued with
      | None => poll_login patience' login
      | Some token => mret token
      end
  end.

Definition browser_login (patience : nat) (device : string) : CM string :=
  device ← (if negb (bool_decide (device = "")) then mret device else
            hostname ← attempt (on_machine mc_Hostname);
            mret match hostname with
                 | Ok name => if bool_decide (TrimSpace name = "") then "developer-device" else name
                 | Fail _ => "developer-device"
                 end);
  login ← on_machine (mc_Start device);
  poll_login patience login.

Definition recovery_login : CM string :=
  input ← on_machine mc_ReadCode;
  match validateEnrollmentInput input with
  | None => throw (ErrText "invalid enrollment code")
  | Some code => issued ← call_as "" (RpcExchangeEnrollmentCode code); mret (it_Secret issued)
  end.

(** The token is stored once the service has accepted it. *)
Definition login_token (patience : nat) (o : loginOptions) : CM Z :=
  token ← (if negb (bool_decide (lg_token o = "")) then mret (lg_token o)
           else if lg_recovery o then recovery_login else mret "");
  token ← (if bool_decide (token = "") then browser_login patience (lg_device o) else mret token);
  _ ← call_as token RpcListDeviceTokens;
  if bool_decide (token = "") then throw (ErrText "token is required") else
  _ ← on_machine (mc_KeyringSet token);
  _ ← record (EvStored token);
  mret 0.
Definition serviceLogin (patience : nat) (explicitToken : string) (args : list string) : CM Z :=
  match parseLogin explicitToken args with
  | Usage _ => mret 2
  | Parse o => exit_code (login_token patience o)
  end.
Definition serviceLogout : CM Z := exit_code (_ ← on_machine mc_KeyringDelete; _ ← record EvRemoved; mret 0).

(** ** [runService] *)

(** The settings and the variables of the environment. *)
Record Surroundings := mkSurroundings {
  su_image : string; su_project : string; su_token : string; su_metadata : string; su_patience : nat
}.

(** [resolve] is [projectlink.Resolve] of an explicit project, [console] the
    local console. *)
Definition runService (su : Surroundings) (resolve : string -> CM (Parsed string)) (console : list string -> CM Z) (explicitToken : string) (args : list string) : CM Z :=
  match args with
  | [] => mret 2
  | command :: args =>
      if bool_decide (command = "login") then serviceLogin (su_patience su) explicitToken args else
      if bool_decide (command = "logout") then serviceLogout else
      if bool_decide (command = "console") then console args else
      selected ← (if bool_decide (command ∈ ["exec"; "build"; "image"; "list"]) then
                    match explicitProject args with Usage m => mret (Usage m) | Parse explicit => resolve explicit end
                  else mret (Parse (TrimSpace (su_project su))));
      match selected with
      | Usage _ => mret 2
      | Parse project =>
          exit_code (
            _ ← authenticatedServiceClient explicitToken (su_token su) project;
            if bool_decide (command = "init") then serviceInit (su_project su) args else
            if bool_decide (command = "exec") then serviceExec (su_patience su) (su_image su) project args else
            if bool_decide (command = "build") then serviceBuild (su_patience su) project args else
            if bool_decide (command = "image") then serviceImage (su_patience su) project (su_metadata su) args else
            if bool_decide (command = "status") then serviceStatus args else
            if bool_decide (command = "logs") then serviceLogs args else
            if bool_decide (command = "cancel") then serviceCancel args else
            if bool_decide (command = "list") then serviceList project args else
            if bool_decide (command = "doctor") then serviceDoctor else
            if bool_decide (command = "token") then serviceToken args else
            if bool_decide (command = "trust") then serviceTrust args else
            if bool_decide (command = "admin") then serviceAdmin args else
            mret 2)
      end
  end.

End Client.
