(* ===== verification/CliTheorems.v ===== *)
(** * The command line abandons nothing

    Whatever the service answers and whatever fails on the machine, a command
    that had a job or a build admitted either starts or finishes it, or asks for
    its cancellation; a login stores only a token that the service accepted. *)
From stdpp Require Import gmap.
From S2P Require Import Prelude Model GoMonad GoLib GoStrings Path Encoding Table Schema JobStore Validate ControlAPI HumanAuth Text Retry LogStream CliArgs CliClient.

(** ** Events *)

(** The job that was admitted, started, or whose cancellation was asked for. *)
Definition prepared_job (e : Event) : option string :=
  match e with
  | EvCall _ _ q r => match q in Rpc A return res A -> option string with
                      | RpcPrepareJob _ => fun r => match r with Ok (Some job, _) => Some (jp_Id job) | _ => None end
                      | _ => fun _ => None
                      end r
  | _ => None
  end.
Definition started_job (e : Event) : option string :=
  match e with
  | EvCall _ _ q r => match q in Rpc A return res A -> option string with
                      | RpcStartJob id _ => fun r => match r with Ok _ => Some id | _ => None end
                      | _ => fun _ => None
                      end r
  | _ => None
  end.
Definition cancels_job (e : Event) : option string :=
  match e with EvCall _ _ (RpcCancelJob id) _ => Some id | _ => None end.

(** The build that was admitted, or that was finished or cancelled. *)
Definition prepared_build (e : Event) : option string :=
  match e with
  | EvCall _ _ q r => match q in Rpc A return res A -> option string with
                      | RpcPrepareBuild _ _ => fun r => match r with Ok (build, _) => Some (bp_Id build) | _ => None end
                      | _ => fun _ => None
                      end r
  | _ => None
  end.
Definition closes_build (e : Event) : option string :=
  match e with EvCall _ _ (RpcCancelBuild id) _ => Some id | EvCall _ _ (RpcFinishBuild id _ _) _ => Some id | _ => None end.

(** The last thing that happened: a call that closes the operation, or a failed
    renewal of the credential for it. *)
Definition closed (f : Event -> option string) (id : string) (log : list Event) : Prop :=
  exists pre e, log = pre ++ [e] /\ (f e = Some id \/ e = EvRenewed false).

Definition job_settled (id : string) (log : list Event) : Prop := Exists (fun e => started_job e = Some id) log \/ closed cancels_job id log.

(** Events that prepare nothing and store nothing. *)
Definition quiet (e : Event) : Prop := prepared_job e = None /\ prepared_build e = None /\ forall token, e <> EvStored token.
Definition extends (c c' : Client) : Prop := exists ext, cl_log c' = cl_log c ++ ext /\ Forall quiet ext.

#[global] Instance extends_preorder : PreOrder extends.
Proof.
  split; [intros c; exists []; by rewrite app_nil_r|]. intros c1 c2 c3 (e1 & H1 & Q1) (e2 & H2 & Q2). exists (e1 ++ e2). split; [|by apply Forall_app].
  by rewrite H2, H1, (assoc_L (++)).
Qed.

Section Quiet.
Context {W : Type} `{Service W} `{Machine W}.
#[local] Abbreviation CM := (M (Client * W)).

(** A program that prepares and stores nothing. *)
Definition quietly {A : Type} (m : CM A) : Prop := forall o c w, wp o m (fun _ s => extends c s.1) (fun _ s => extends c s.1) (c, w).

Lemma quietly_ret {A} (a : A) : quietly (mret a).
Proof. intros o c w. by apply wp_ret. Qed.
Lemma quietly_throw {A} e : quietly (throw e : CM A).
Proof. intros o c w. by apply wp_throw. Qed.
Lemma quietly_bind {A B} (m : CM A) (k : A -> CM B) : quietly m -> (forall a, quietly (k a)) -> quietly (m ≫= k).
Proof.
  intros Hm Hk o c w. apply wp_bind. eapply wp_mono; [apply Hm| |done]. intros a [c' w'] E. cbn [fst] in E.
  eapply wp_mono; [apply Hk| |]; intros ? [c2 w2] E2; cbn [fst] in *; by etrans.
Qed.
Lemma quietly_attempt {A} (m : CM A) : quietly m -> quietly (attempt m).
Proof. intros Hm o c w. by apply wp_attempt. Qed.
Lemma quietly_machine {A} (m : M W A) : quietly (on_machine m).
Proof. intros o c w. apply wp_on_runtime. intros n. by destruct (m o (w, n)) as [[a|e] [w' n']]. Qed.
Lemma quietly_may_fail : quietly may_fail.
Proof. intros o c w. apply wp_may_fail; [done|]. intros s _. done. Qed.
Lemma quietly_ctx : quietly ctx_Err.
Proof. apply quietly_bind; [apply quietly_attempt, quietly_may_fail|]. intros [a|e]; apply quietly_ret. Qed.
Lemma quietly_client : quietly client.
Proof. intros o c w. by apply wp_on_store, wp_get_db. Qed.
Lemma quietly_set f : (forall c, extends c (f c)) -> quietly (set_client f).
Proof. intros Hf o c w. apply wp_on_store, wp_bind, wp_get_db, wp_put_db. apply Hf. Qed.
Lemma quietly_now : quietly time_Now.
Proof. intros o c w. apply wp_now. done. Qed.

Lemma quietly_record e : quiet e -> quietly (record e).
Proof. intros He. apply quietly_set. intros c. exists [e]. split; [done|]. by constructor. Qed.
Lemma quietly_same f : (forall c, cl_log (f c) = cl_log c) -> quietly (set_client f).
Proof. intros Hf. apply quietly_set. intros c. exists []. by rewrite Hf, app_nil_r. Qed.
Lemma quietly_settle {A} (r : res A) : quietly (settle r).
Proof. destruct r; [apply quietly_ret|apply quietly_throw]. Qed.

(** Calls that prepare nothing. *)
Definition calm {A : Type} (q : Rpc A) : Prop := forall token r, quiet (EvCall token A q r).

Lemma quietly_call_as token {A} (q : Rpc A) : calm q -> quietly (call_as token q).
Proof. intros Hq. apply quietly_bind; [apply quietly_attempt, quietly_machine|]. intros r. apply quietly_bind; [apply quietly_record, Hq|]. intros _. apply quietly_settle. Qed.
Lemma quietly_call {A} (q : Rpc A) : calm q -> quietly (call q).
Proof. intros Hq. apply quietly_bind; [apply quietly_client|]. intros c. by apply quietly_call_as. Qed.

Lemma quietly_oidc project : quietly (oidc project).
Proof.
  unfold oidc. case_bool_decide; [apply quietly_throw|]. apply quietly_bind; [apply quietly_machine|]. intros t.
  apply quietly_bind; [by apply quietly_call_as|]. intros issued. apply quietly_ret.
Qed.
Lemma quietly_renew : quietly renewServiceClient.
Proof.
  apply quietly_bind; [apply quietly_client|]. intros c. destruct (cl_renewal c); [|apply quietly_ret].
  apply quietly_bind; [apply quietly_attempt, quietly_oidc|]. intros r. apply quietly_bind; [by apply quietly_record|]. intros _.
  apply quietly_bind; [apply quietly_settle|]. intros token. by apply quietly_same.
Qed.
Lemma quietly_call_renewed {A} (q : Rpc A) : calm q -> quietly (call_renewed q).
Proof.
  intros Hq. apply quietly_bind; [by apply quietly_attempt, quietly_call|]. intros [a|e]; [apply quietly_ret|]. destruct (is_unauthenticated e); [|apply quietly_throw].
  apply quietly_bind; [apply quietly_renew|]. intros _. by apply quietly_call.
Qed.
Lemma quietly_beat {A} (q : Rpc A) : calm q -> quietly (beat_renewed q).
Proof.
  intros Hq. assert (Hb : quietly (beat_call q)).
  { apply quietly_bind; [apply quietly_client|]. intros c. destruct (cl_beating c); [by apply quietly_call|].
    apply quietly_bind; [by apply quietly_same|]. intros _. apply quietly_throw. }
  apply quietly_bind; [by apply quietly_attempt|]. intros [a|e]; [apply quietly_ret|]. destruct (is_unauthenticated e); [|apply quietly_throw].
  apply quietly_bind; [apply quietly_attempt, quietly_renew|]. intros [u|e']; [done|]. apply quietly_bind; [by apply quietly_same|]. intros _. apply quietly_throw.
Qed.

Lemma quietly_retry maxDelay maxAttempts maxElapsed timeout (operation : RetryOperation) retryable started fuel : forall attempts delay,
  (forall d, quietly (operation d)) ->
  quietly (retry_loop maxDelay maxAttempts maxElapsed timeout time_Now retry_wait default_jitter operation retryable started fuel attempts delay).
Proof.
  induction fuel as [|fuel IH]; intros attempts delay Hop; cbn [retry_loop]; [apply quietly_ret|].
  apply quietly_bind; [apply quietly_ctx|]. intros [e|]; [apply quietly_ret|].
  apply quietly_bind; [apply quietly_attempt, Hop|]. intros [u|e]; [apply quietly_ret|].
  apply quietly_bind; [apply quietly_ctx|]. intros [c|]; [apply quietly_ret|].
  destruct (negb (retryable e)); [apply quietly_ret|]. destruct (maxAttempts <=? attempts); [apply quietly_ret|].
  apply quietly_bind; [apply quietly_now|]. intros now. cbv zeta. destruct (_ <=? 0); [apply quietly_ret|].
  apply quietly_bind; [intros o c w n; cbn; done|]. intros jittered.
  apply quietly_bind; [apply quietly_attempt, quietly_may_fail|]. intros [u|e2]; [by apply IH|apply quietly_ret].
Qed.

Lemma quietly_heartbeat interval intervals (heartbeat : CM unit) : quietly heartbeat -> quietly (runLeaseHeartbeat interval intervals heartbeat).
Proof.
  intros Hh. induction intervals as [|n IH]; cbn [runLeaseHeartbeat]; [apply quietly_ret|].
  apply quietly_bind; [apply quietly_attempt, quietly_may_fail|]. intros [u|e]; [|apply quietly_ret].
  apply quietly_bind; [apply quietly_bind; [apply quietly_now|]; intros started; by apply quietly_retry|].
  intros outcome.
  assert (Hend : quietly (cancelled ← ctx_Err; match cancelled with Some _ => mret tt | None => throw (ErrText "heartbeat") end)).
  { apply quietly_bind; [apply quietly_ctx|]. intros [c|]; [apply quietly_ret|apply quietly_throw]. }
  by destruct outcome as [[]|].
Qed.

Lemma quietly_heartbeats (heartbeat : CM unit) : quietly heartbeat -> quietly (heartbeats heartbeat).
Proof.
  intros Hh. apply quietly_bind; [by apply quietly_same|]. intros _. apply quietly_bind; [apply quietly_machine|]. intros n. by apply quietly_heartbeat.
Qed.
Lemma quietly_heartbeat_job id : quietly (heartbeat_job id).
Proof.
  apply quietly_bind; [by apply quietly_beat|]. intros [[job|] [connection|]]; try apply quietly_throw.
  destruct (jp_Status job); try apply quietly_throw. apply quietly_machine.
Qed.
Lemma quietly_heartbeat_build id : quietly (heartbeat_build id).
Proof.
  apply quietly_bind; [by apply quietly_beat|]. intros [build [connection|]]; try apply quietly_throw.
  destruct (bp_Status build); try apply quietly_throw. apply quietly_machine.
Qed.
Lemma quietly_authorized selector : quietly (authorizedProject selector).
Proof. apply quietly_bind; [by apply quietly_call|]. intros projects. destruct (selectAuthorizedProject projects selector); [apply quietly_ret|apply quietly_throw]. Qed.

End Quiet.

(** ** What is logged *)

Section Logged.
Context {W : Type} `{Service W} `{Machine W} (o : Oracle).
Implicit Types (c : Client) (w : W).

Lemma wp_quiet_client {A} (m : M (Client * W) A) (Q : A -> Client * W -> Prop) (E : Err -> Client * W -> Prop) c w :
  quietly m -> (forall a c' w', extends c c' -> Q a (c', w')) -> (forall e c' w', extends c c' -> E e (c', w')) -> wp o m Q E (c, w).
Proof using. intros Hm HQ HE. eapply wp_mono; [apply Hm| |]; intros ? [c' w'] Hx; [by apply HQ|by apply HE]. Qed.

(** A call appends its event. *)
Definition logged {A : Type} (q : Rpc A) (r : res A) (c c' : Client) : Prop := exists token, cl_log c' = cl_log c ++ [EvCall token A q r].

Lemma wp_call {A} (q : Rpc A) (Q : A -> Client * W -> Prop) (E : Err -> Client * W -> Prop) c w :
  (forall a c' w', logged q (Ok a) c c' -> Q a (c', w')) -> (forall e c' w', logged q (Fail e) c c' -> E e (c', w')) -> wp o (call q) Q E (c, w).
Proof using.
  intros HQ HE. apply wp_bind, wp_on_store, wp_get_db. apply wp_bind, wp_attempt, wp_on_runtime. intros n.
  destruct (sv_call (cl_token c) A q o (w, n)) as [[a|e] [w' n']].
  - apply wp_bind, wp_on_store, wp_bind, wp_get_db, wp_put_db. apply wp_ret, HQ. by exists (cl_token c).
  - apply wp_bind, wp_on_store, wp_bind, wp_get_db, wp_put_db. apply wp_throw, HE. by exists (cl_token c).
Qed.

Lemma logged_extends {A} (q : Rpc A) r c c' : calm q -> logged q r c c' -> extends c c'.
Proof using. intros Hq [token E]. exists [EvCall token A q r]. split; [done|]. by constructor. Qed.

(** A failed renewal is the last event. *)
Lemma wp_renew c w :
  wp o renewServiceClient (fun _ s => extends c s.1) (fun _ s => extends c s.1 /\ exists pre, cl_log s.1 = pre ++ [EvRenewed false]) (c, w).
Proof using.
  apply wp_bind, wp_on_store, wp_get_db. destruct (cl_renewal c) as [project|]; [|by apply wp_ret].
  apply wp_bind, wp_attempt. apply wp_quiet_client; [apply quietly_oidc| |]; intros r c1 w1 E1.
  - apply wp_bind, wp_on_store, wp_bind, wp_get_db, wp_put_db. apply wp_bind, wp_ret. apply wp_on_store, wp_bind, wp_get_db, wp_put_db.
    cbn [fst]. etrans; [exact E1|]. exists [EvRenewed true]. split; [done|]. by constructor.
  - apply wp_bind, wp_on_store, wp_bind, wp_get_db, wp_put_db. apply wp_bind, wp_throw. cbn [fst cl_log]. split; [|by eexists].
    etrans; [exact E1|]. exists [EvRenewed false]. split; [done|]. by constructor.
Qed.

(** Renewing and calling closes an operation, whatever comes of it. *)
Lemma wp_closing {A} (q : Rpc A) (f : Event -> option string) (id : string) c w (Q : unit -> Client * W -> Prop) :
  calm q -> (forall token r, f (EvCall token A q r) = Some id) ->
  (forall c' w', extends c c' -> closed f id (cl_log c') -> Q tt (c', w')) ->
  wp o (_ ← renewServiceClient; _ ← call q; mret tt) Q (fun _ s => extends c s.1 /\ closed f id (cl_log s.1)) (c, w).
Proof using.
  intros Hq Hf HQ. apply wp_bind. eapply wp_mono; [apply wp_renew| |].
  - intros u [c1 w1] E1. cbn [fst] in E1. apply wp_bind, wp_call.
    + intros a c2 w2 Hl. apply wp_ret, HQ; [etrans; [exact E1|by eapply logged_extends]|]. destruct Hl as [token ->]. eexists _, _. split; [done|]. left. apply Hf.
    + intros e c2 w2 Hl. cbn [fst]. split; [etrans; [exact E1|by eapply logged_extends]|]. destruct Hl as [token ->]. eexists _, _. split; [done|]. left. apply Hf.
  - intros e [c1 w1] [E1 [pre Hp]]. cbn [fst] in *. split; [done|]. exists pre, (EvRenewed false). split; [done|]. by right.
Qed.

Lemma wp_cancel_job (id : string) (cause : Err) c w :
  wp o (cancelServiceJobAfterError id cause) (fun _ _ => False) (fun _ s => extends c s.1 /\ closed cancels_job id (cl_log s.1)) (c, w).
Proof using.
  unfold cancelServiceJobAfterError. apply wp_bind, wp_attempt. apply wp_bind. eapply wp_mono; [apply wp_renew| |].
  - intros u [c1 w1] E1. cbn [fst] in E1. apply wp_call; intros r c2 w2 Hl; apply wp_throw; cbn [fst];
      (split; [etrans; [exact E1|eapply logged_extends; [|exact Hl]; done]|]); destruct Hl as [token ->]; eexists _, _; split; try done; by left.
  - intros e [c1 w1] [E1 [pre Hp]]. apply wp_throw. cbn [fst] in *. split; [done|]. exists pre, (EvRenewed false). split; [done|]. by right.
Qed.

(** ** [exec] *)

Definition job_outcome (id : string) c : Prop := cl_panicked c = true \/ job_settled id (cl_log c).

Lemma wp_transfer (opts : execOptions) (root : string) (files : list string) (job : JobPB) (connection : DataPlaneConnection) c w :
  let P := fun s : Client * W => extends c s.1 /\ job_outcome (jp_Id job) s.1 in
  wp o (exec_transfer opts root files job connection) (fun _ => P) (fun _ => P) (c, w).
Proof using.
  intros P. assert (Hcancel : forall c1 w1 e, extends c c1 -> wp o (cancelServiceJobAfterError (jp_Id job) e) (fun _ => P) (fun _ => P) (c1, w1)).
  { intros c1 w1 e E1. eapply wp_mono; [apply wp_cancel_job|done|]. intros e' [c2 w2] [E2 Hc]. split; [by etrans|]. right. by right. }
  unfold exec_transfer. apply wp_bind, wp_attempt. apply wp_quiet_client; [apply quietly_machine| |]; intros r c1 w1 E1; [|by apply Hcancel].
  assert (Hrest : forall (beaten : res unit) c2 w2, extends c c2 ->
    wp o (dead ← panicked; if dead : bool then mret 2 else
      upload ← attempt (on_machine (mc_Upload connection root files));
      match beaten, upload with
      | Fail e, _ => cancelServiceJobAfterError (jp_Id job) e
      | Ok _, Fail e => cancelServiceJobAfterError (jp_Id job) e
      | Ok _, Ok upload =>
          started ← attempt (call (RpcStartJob (jp_Id job) (up_RootDigest upload)));
          match started with
          | Fail e => cancelServiceJobAfterError (jp_Id job) e
          | Ok job => if eo_detach opts then mret 0 else on_machine (mc_Follow (jp_Id job))
          end
      end) (fun _ => P) (fun _ => P) (c2, w2)).
  { intros beaten c2 w2 E2. apply wp_bind, wp_bind, wp_on_store, wp_get_db, wp_ret.
    destruct (cl_panicked c2) eqn:Ep; [apply wp_ret; split; [done|by left]|].
    apply wp_bind, wp_attempt. apply wp_quiet_client; [apply quietly_machine| |]; intros up c3 w3 E3; (destruct beaten as [u|e]; [|apply Hcancel; by etrans]); [|apply Hcancel; by etrans].
    apply wp_bind, wp_attempt, wp_call.
    - intros job' c4 w4 Hl. assert (HP : forall w5, P (c4, w5)).
      { intros w5. split; [etrans; [exact E2|]; etrans; [exact E3|]; eapply logged_extends; [|exact Hl]; done|]. right. left. cbn [fst]. destruct Hl as [token ->].
        apply Exists_app. right. by constructor. }
      destruct (eo_detach opts); [by apply wp_ret|]. apply wp_on_runtime. intros n. destruct (mc_Follow _ o (w4, n)) as [[a|e] [w5 n5]]; apply HP.
    - intros e c4 w4 Hl. apply Hcancel. etrans; [exact E2|]. etrans; [exact E3|]. eapply logged_extends; [|exact Hl]; done. }
  apply wp_bind, wp_attempt. apply wp_quiet_client; [apply quietly_heartbeats, quietly_heartbeat_job| |]; intros x c2 w2 E2.
  - apply (Hrest (Ok x)). by etrans.
  - apply (Hrest (Fail x)). by etrans.
Qed.

(** What the service promises of an answer holds after a renewal too. *)
Lemma wp_renewed {A} (q : Rpc A) (P : A -> Prop) c w :
  calm q -> (forall token w, wp o (sv_call token A q) (fun r _ => P r) (fun _ _ => True) w) ->
  wp o (call_renewed q) (fun r s => extends c s.1 /\ P r) (fun _ s => extends c s.1) (c, w).
Proof using.
  intros Hq Hlaw. assert (Hcall : forall c1 w1, wp o (call q) (fun r s => extends c1 s.1 /\ P r) (fun _ s => extends c1 s.1) (c1, w1)).
  { intros c1 w1. apply wp_bind, wp_on_store, wp_get_db. apply wp_bind, wp_attempt, wp_on_runtime. eapply wp_mono; [apply Hlaw| |].
    - intros r w2 Hr. apply wp_bind, wp_on_store, wp_bind, wp_get_db, wp_put_db. apply wp_ret. split; [|done].
      eexists [_]. split; [done|]. constructor; [apply Hq|done].
    - intros e w2 _. apply wp_bind, wp_on_store, wp_bind, wp_get_db, wp_put_db. apply wp_throw. eexists [_]. split; [done|]. constructor; [apply Hq|done]. }
  unfold call_renewed. apply wp_bind, wp_attempt. eapply wp_mono; [apply Hcall| |].
  - intros r [c1 w1] Hr. by apply wp_ret.
  - intros e [c1 w1] E1. cbn [fst] in E1. destruct (is_unauthenticated e); [|by apply wp_throw]. apply wp_bind, wp_quiet_client; [apply quietly_renew| |].
    + intros u c2 w2 E2. eapply wp_mono; [apply Hcall| |].
      * intros r [c3 w3] [E3 Hr]. split; [|done]. cbn [fst] in *. etrans; [exact E1|]. by etrans.
      * intros e' [c3 w3] E3. cbn [fst] in *. etrans; [exact E1|]. by etrans.
    + intros e' c2 w2 E2. cbn [fst]. by etrans.
Qed.

Lemma wp_wait_job (patience : nat) : forall (job : JobPB) (connection : option DataPlaneConnection) c w,
  wp o (waitForServiceJobPreparation patience job connection) (fun r s => extends c s.1 /\ jp_Id r.1 = jp_Id job) (fun _ s => extends c s.1) (c, w).
Proof using.
  induction patience as [|n IH]; intros job connection c w; cbn [waitForServiceJobPreparation];
    (destruct (jp_Status job); try (by apply wp_throw); destruct connection as [connection|]; [by apply wp_ret|]); [by apply wp_throw|].
  apply wp_bind, wp_may_fail; [|by intros s _]. apply wp_bind. eapply wp_mono; [apply (wp_renewed (RpcGetJob (jp_Id job)) (fun r => forall j, r.1 = Some j -> jp_Id j = jp_Id job)); [done|intros; apply sv_job_law]| |done].
  intros [job' connection'] [c1 w1] [E1 Hid]. cbn [fst] in *. destruct job' as [job'|]; [|by apply wp_throw].
  eapply wp_mono; [apply IH| |].
  - intros r [c2 w2] [E2 Hr]. cbn [fst] in *. split; [by etrans|]. rewrite Hr. by apply Hid.
  - intros e [c2 w2] E2. cbn [fst] in *. by etrans.
Qed.

Lemma wp_exec_prepared (patience : nat) (opts : execOptions) (root : string) (files : list string) (job : JobPB) (connection : option DataPlaneConnection) c w :
  let P := fun s : Client * W => extends c s.1 /\ job_outcome (jp_Id job) s.1 in
  wp o (exec_prepared patience opts root files job connection) (fun _ => P) (fun _ => P) (c, w).
Proof using.
  intros P. unfold exec_prepared. apply wp_bind, wp_attempt. eapply wp_mono; [apply wp_wait_job| |].
  - intros [job' connection'] [c1 w1] [E1 Hid]. cbn [fst] in *. eapply wp_mono; [apply wp_transfer| |]; intros ? [c2 w2] [E2 Ho]; cbn [fst] in *;
      (split; [by etrans|]; by rewrite <- Hid).
  - intros e [c1 w1] E1. cbn [fst] in *. eapply wp_mono; [apply wp_cancel_job|done|]. intros e' [c2 w2] [E2 Hc]. cbn [fst] in *. split; [by etrans|]. right. by right.
Qed.

(** Every job that was admitted on the way is settled, unless a panic ended the
    process. *)
Definition jobs_settled c : Prop := forall id, Exists (fun e => prepared_job e = Some id) (cl_log c) -> job_outcome id c.

Lemma extends_prepared c c' id : extends c c' -> Exists (fun e => prepared_job e = Some id) (cl_log c') -> Exists (fun e => prepared_job e = Some id) (cl_log c).
Proof using.
  intros (ext & -> & Hq) [Hx|Hx]%Exists_app; [done|]. apply Exists_exists in Hx as (e & He & Hp). rewrite Forall_forall in Hq. destruct (Hq e He). congruence.
Qed.

Lemma quiet_prepares_none c c' id : Forall quiet (cl_log c) -> extends c c' -> ~ Exists (fun e => prepared_job e = Some id) (cl_log c').
Proof using.
  intros Hq He Hx. apply (extends_prepared c c' id He), Exists_exists in Hx as (e & Hin & Hp). rewrite Forall_forall in Hq. destruct (Hq e Hin). congruence.
Qed.

Lemma wp_exec (patience : nat) (project : string) (opts : execOptions) c w :
  Forall quiet (cl_log c) -> wp o (exec_command patience project opts) (fun _ s => jobs_settled s.1) (fun _ s => jobs_settled s.1) (c, w).
Proof using.
  intros Hq. assert (Hnone : forall c1, extends c c1 -> jobs_settled c1) by (intros c1 E1 id Hx; by destruct (quiet_prepares_none c c1 id Hq E1)).
  unfold exec_command. apply wp_bind, wp_quiet_client; [apply quietly_authorized| |intros; by apply Hnone]. intros p c1 w1 E1.
  apply wp_bind, wp_quiet_client; [apply quietly_machine| |intros; apply Hnone; by etrans]. intros root c2 w2 E2.
  apply wp_bind, wp_quiet_client; [case_bool_decide; [apply quietly_machine|apply quietly_ret]| |intros; apply Hnone; etrans; [exact E1|by etrans]]. intros workdir c3 w3 E3.
  apply wp_bind, wp_quiet_client; [apply quietly_machine| |intros; apply Hnone; etrans; [exact E1|etrans; [exact E2|by etrans]]]. intros files c4 w4 E4.
  assert (E14 : extends c c4) by (etrans; [exact E1|etrans; [exact E2|by etrans]]).
  apply wp_bind. unfold jobID. apply wp_bind, wp_rand_Read; [|intros s _; by apply Hnone]. intros x _ _. apply wp_ret.
  apply wp_bind, wp_call.
  2:{ intros e c5 w5 [token Hl] id Hx. cbn [fst] in Hx. rewrite Hl in Hx. apply Exists_app in Hx as [Hx|Hx]; [by destruct (quiet_prepares_none c c4 id Hq E14)|].
      apply Exists_cons in Hx as [Hx|Hx]; [done|by apply Exists_nil in Hx]. }
  intros [job connection] c5 w5 [token Hl].
  assert (Hone : forall id, Exists (fun e => prepared_job e = Some id) (cl_log c5) -> exists j, job = Some j /\ id = jp_Id j).
  { intros id. rewrite Hl, Exists_app. intros [Hx|Hx]; [by destruct (quiet_prepares_none c c4 id Hq E14)|].
    apply Exists_cons in Hx as [Hx|Hx]; [|by apply Exists_nil in Hx]. destruct job as [j|]; [|done]. injection Hx as <-. eauto. }
  destruct job as [job|]; [|apply wp_throw; intros id Hx; destruct (Hone id Hx) as (j & Hj & _); discriminate Hj].
  eapply wp_mono; [apply wp_exec_prepared| |]; intros ? [c6 w6] [E6 Ho] id Hx; cbn [fst] in *; apply (extends_prepared c5) in Hx; try done;
    destruct (Hone id Hx) as (j & [= <-] & ->); exact Ho.
Qed.

(** ** [build] *)

Definition build_outcome (id : string) c : Prop := cl_panicked c = true \/ closed closes_build id (cl_log c).
Definition builds_settled c : Prop := forall id, Exists (fun e => prepared_build e = Some id) (cl_log c) -> build_outcome id c.

Lemma wp_cancel_build (id : string) (cause : Err) c w :
  wp o (cancelServiceBuildAfterError id cause) (fun _ _ => False) (fun _ s => extends c s.1 /\ build_outcome id s.1) (c, w).
Proof using.
  apply wp_bind, wp_attempt. eapply wp_mono; [apply (wp_closing (RpcCancelBuild id) closes_build id c w (fun _ s => extends c s.1 /\ closed closes_build id (cl_log s.1))); done| |];
    intros ? [c1 w1] [E1 Hc]; apply wp_throw; (split; [done|by right]).
Qed.

Lemma wp_context (Q : option Err -> Client * W -> Prop) (E : Err -> Client * W -> Prop) c w : (forall d, Q d (c, w)) -> wp o ctx_Err Q E (c, w).
Proof using. intros HQ. apply wp_bind, wp_attempt, wp_may_fail; [by apply wp_ret|]. intros s _. by apply wp_ret. Qed.

Lemma wp_build_run (id builder : string) (args : list string) (connection : DataPlaneConnection) c w :
  let P := fun s : Client * W => extends c s.1 /\ build_outcome id s.1 in
  wp o (build_run id builder args connection) (fun _ => P) (fun _ => P) (c, w).
Proof using.
  intros P. assert (Hcancel : forall c1 w1 e, extends c c1 -> wp o (cancelServiceBuildAfterError id e) (fun _ => P) (fun _ => P) (c1, w1)).
  { intros c1 w1 e E1. eapply wp_mono; [apply wp_cancel_build|done|]. intros e' [c2 w2] [E2 Hc]. split; [by etrans|done]. }
  assert (Hfinish : forall (cancelled : bool) (beaten : res unit) (code : Z) (runErr : option Err) c1 w1, extends c c1 ->
    wp o (finished ← attempt (if cancelled then cancelServiceBuildRecord id else finishServiceBuildRecord id (wrap32 code) false);
      build_verdict code beaten runErr finished) (fun _ => P) (fun _ => P) (c1, w1)).
  { intros cancelled beaten code runErr c1 w1 E1.
    assert (Hend : forall (finished : res unit) c2 w2, P (c2, w2) -> wp o (build_verdict code beaten runErr finished) (fun _ => P) (fun _ => P) (c2, w2)).
    { intros finished c2 w2 HP. destruct beaten, runErr, finished; first [by apply wp_ret|by apply wp_throw]. }
    assert (Hout : forall s : Client * W, extends c1 s.1 /\ closed closes_build id (cl_log s.1) -> P s) by (intros [c2 w2] [E2 Hc]; split; [by etrans|by right]).
    apply wp_bind, wp_attempt. destruct cancelled.
    - eapply wp_mono; [apply (wp_closing (RpcCancelBuild id) closes_build id c1 w1 (fun _ s => extends c1 s.1 /\ closed closes_build id (cl_log s.1))); done| |];
        intros x [c2 w2] Hx; [apply (Hend (Ok x))|apply (Hend (Fail x))]; by apply Hout.
    - eapply wp_mono; [apply (wp_closing (RpcFinishBuild id (wrap32 code) false) closes_build id c1 w1 (fun _ s => extends c1 s.1 /\ closed closes_build id (cl_log s.1))); done| |];
        intros x [c2 w2] Hx; [apply (Hend (Ok x))|apply (Hend (Fail x))]; by apply Hout. }
  assert (Hrest : forall (beaten : res unit) c2 w2, extends c c2 ->
    wp o (dead ← panicked; if dead : bool then mret 2 else
      ran ← attempt (on_machine (mc_Buildx builder args));
      let '(code, runErr) := match ran with Ok r => r | Fail e => (1, Some e) end in
      done ← ctx_Err;
      let cancelled := negb (bool_decide (done = None)) || match beaten with Ok _ => false | Fail _ => true end in
      finished ← attempt (if cancelled then cancelServiceBuildRecord id else finishServiceBuildRecord id (wrap32 code) false);
      build_verdict code beaten runErr finished) (fun _ => P) (fun _ => P) (c2, w2)).
  { intros beaten c2 w2 E2. apply wp_bind, wp_bind, wp_on_store, wp_get_db, wp_ret.
    destruct (cl_panicked c2) eqn:Ep; [apply wp_ret; split; [done|by left]|].
    apply wp_bind, wp_attempt. apply wp_quiet_client; [apply quietly_machine| |]; intros r c3 w3 E3; [destruct r as [code runErr]|];
      apply wp_bind, wp_context; intros d; apply Hfinish; by etrans. }
  unfold build_run. apply wp_bind, wp_attempt. apply wp_quiet_client; [apply quietly_machine| |]; intros r c1 w1 E1; [|by apply Hcancel].
  apply wp_bind, wp_attempt. apply wp_quiet_client; [apply quietly_heartbeats, quietly_heartbeat_build| |]; intros x c2 w2 E2.
  - apply (Hrest (Ok x)). by etrans.
  - apply (Hrest (Fail x)). by etrans.
Qed.

Lemma wp_wait_build (patience : nat) : forall (build : BuildPB) (connection : option DataPlaneConnection) c w,
  wp o (waitForServiceBuild patience build connection) (fun r s => extends c s.1) (fun _ s => extends c s.1) (c, w).
Proof using.
  induction patience as [|n IH]; intros build connection c w; cbn [waitForServiceBuild]; destruct (bp_Status build); try (by apply wp_throw); try (by apply wp_ret).
  apply wp_bind, wp_may_fail; [|by intros s _]. apply wp_bind. eapply wp_mono; [by apply (quietly_call_renewed (RpcGetBuild (bp_Id build)))| |done].
  intros [build' connection'] [c1 w1] E1. cbn [fst] in *. eapply wp_mono; [apply IH| |]; intros ? [c2 w2] E2; cbn [fst] in *; by etrans.
Qed.

Lemma wp_build_prepared (patience : nat) (builder : string) (args : list string) (build : BuildPB) (connection : option DataPlaneConnection) c w :
  let P := fun s : Client * W => extends c s.1 /\ build_outcome (bp_Id build) s.1 in
  wp o (build_prepared patience builder args build connection) (fun _ => P) (fun _ => P) (c, w).
Proof using.
  intros P. assert (Hcancel : forall c1 w1 e, extends c c1 -> wp o (cancelServiceBuildAfterError (bp_Id build) e) (fun _ => P) (fun _ => P) (c1, w1)).
  { intros c1 w1 e E1. eapply wp_mono; [apply wp_cancel_build|done|]. intros e' [c2 w2] [E2 Hc]. split; [by etrans|done]. }
  unfold build_prepared. apply wp_bind, wp_attempt. eapply wp_mono; [apply wp_wait_build| |]; [|intros e [c1 w1] E1; by apply Hcancel].
  intros [build' [connection'|]] [c1 w1] E1; cbn [fst] in E1; [|by apply Hcancel].
  eapply wp_mono; [apply wp_build_run| |]; intros ? [c2 w2] [E2 Ho]; (split; [by etrans|done]).
Qed.

Lemma quiet_builds_none c c' id : Forall quiet (cl_log c) -> extends c c' -> ~ Exists (fun e => prepared_build e = Some id) (cl_log c').
Proof using.
  intros Hq (ext & -> & He) Hx. assert (Hall : Forall quiet (cl_log c ++ ext)) by (by apply Forall_app).
  apply Exists_exists in Hx as (e & Hin & Hp). rewrite Forall_forall in Hall. destruct (Hall e Hin) as (_ & ? & _). congruence.
Qed.

Lemma wp_build (patience : nat) (project : string) (args : list string) c w :
  Forall quiet (cl_log c) -> wp o (build_command patience project args) (fun _ s => builds_settled s.1) (fun _ s => builds_settled s.1) (c, w).
Proof using.
  intros Hq. assert (Hnone : forall c1, extends c c1 -> builds_settled c1) by (intros c1 E1 id Hx; by destruct (quiet_builds_none c c1 id Hq E1)).
  unfold build_command. apply wp_bind, wp_quiet_client; [apply quietly_authorized| |intros; by apply Hnone]. intros p c1 w1 E1.
  apply wp_bind, wp_quiet_client; [apply quietly_machine| |intros; apply Hnone; by etrans]. intros root c2 w2 E2. assert (E12 : extends c c2) by (by etrans).
  apply wp_bind. unfold jobID. apply wp_bind, wp_rand_Read; [|intros s _; by apply Hnone]. intros x _ _. apply wp_ret.
  apply wp_bind, wp_call.
  2:{ intros e c5 w5 [token Hl] id Hx. cbn [fst] in Hx. rewrite Hl in Hx. apply Exists_app in Hx as [Hx|Hx]; [by destruct (quiet_builds_none c c2 id Hq E12)|].
      apply Exists_cons in Hx as [Hx|Hx]; [done|by apply Exists_nil in Hx]. }
  intros [build connection] c5 w5 [token Hl]. eapply wp_mono; [apply wp_build_prepared| |]; intros ? [c6 w6] [E6 Ho] id Hx; cbn [fst] in *.
  all: destruct E6 as (ext & E6 & Hext); rewrite E6 in Hx; apply Exists_app in Hx as [Hx|Hx];
    [|apply Exists_exists in Hx as (ev & Hin & Hp); rewrite Forall_forall in Hext; destruct (Hext ev Hin) as (_ & ? & _); congruence].
  all: rewrite Hl in Hx; apply Exists_app in Hx as [Hx|Hx]; [by destruct (quiet_builds_none c c2 id Hq E12)|].
  all: apply Exists_cons in Hx as [Hx|Hx]; [injection Hx as <-; exact Ho|by apply Exists_nil in Hx].
Qed.

(** ** [login] *)

(** The tokens of the keyring are ones that the service accepted before. *)
Definition stored_accepted c : Prop :=
  forall pre post token, cl_log c = pre ++ EvStored token :: post -> exists tokens, EvCall token _ RpcListDeviceTokens (Ok tokens) ∈ pre.

Lemma quiet_stores_none c : Forall quiet (cl_log c) -> stored_accepted c.
Proof using.
  intros Hq pre post token E. exfalso. rewrite E in Hq. apply Forall_app in Hq as [_ Hq]. apply Forall_cons in Hq as [(_ & _ & Hs) _]. by apply (Hs token).
Qed.
Lemma extends_quiet c c' : Forall quiet (cl_log c) -> extends c c' -> Forall quiet (cl_log c').
Proof using. intros Hq (ext & -> & He). by apply Forall_app. Qed.

Lemma quietly_recovery : quietly recovery_login.
Proof using.
  apply quietly_bind; [apply quietly_machine|]. intros input. destruct (validateEnrollmentInput input); [|apply quietly_throw].
  apply quietly_bind; [by apply quietly_call_as|]. intros issued. apply quietly_ret.
Qed.
Lemma quietly_browser (patience : nat) (device : string) : quietly (browser_login patience device).
Proof using.
  apply quietly_bind.
  { destruct (negb _); [apply quietly_ret|]. apply quietly_bind; [apply quietly_attempt, quietly_machine|]. intros r. apply quietly_ret. }
  intros name. apply quietly_bind; [apply quietly_machine|]. intros login. induction patience as [|n IH]; cbn [poll_login]; [apply quietly_throw|].
  apply quietly_bind; [apply quietly_now|]. intros now. destruct (_ <=? _); [apply quietly_throw|]. apply quietly_bind; [apply quietly_may_fail|]. intros _.
  apply quietly_bind; [apply quietly_machine|]. intros [token|]; [apply quietly_ret|exact IH].
Qed.

Lemma wp_login (patience : nat) (options : loginOptions) c w :
  Forall quiet (cl_log c) -> wp o (login_token patience options) (fun _ s => stored_accepted s.1) (fun _ s => stored_accepted s.1) (c, w).
Proof using.
  intros Hq. assert (Hnone : forall c1, extends c c1 -> stored_accepted c1) by (intros c1 E1; apply quiet_stores_none; by eapply extends_quiet).
  unfold login_token. apply wp_bind, wp_quiet_client; [destruct (negb _); [apply quietly_ret|]; destruct (lg_recovery _); [apply quietly_recovery|apply quietly_ret]| |intros; by apply Hnone].
  intros t c1 w1 E1. apply wp_bind, wp_quiet_client; [case_bool_decide; [apply quietly_browser|apply quietly_ret]| |intros; apply Hnone; by etrans].
  intros token c2 w2 E2. assert (E12 : extends c c2) by (by etrans). apply wp_bind, wp_bind, wp_attempt, wp_on_runtime. intros n.
  destruct (sv_call token _ RpcListDeviceTokens o (w2, n)) as [[tokens|e] [w3 n3]].
  2:{ apply wp_bind, wp_on_store, wp_bind, wp_get_db, wp_put_db. apply wp_throw. apply Hnone. cbn [fst]. etrans; [exact E12|]. eexists [_]. split; [done|]. by constructor. }
  apply wp_bind, wp_on_store, wp_bind, wp_get_db, wp_put_db. apply wp_ret.
  set (c3 := mkClient _ _ _ _ _). assert (E3 : extends c c3) by (etrans; [exact E12|]; eexists [_]; split; [done|]; by constructor).
  case_bool_decide; [apply wp_throw; by apply Hnone|]. apply wp_bind, wp_quiet_client; [apply quietly_machine| |intros; apply Hnone; by etrans].
  intros u c4 w4 E4. apply wp_bind, wp_on_store, wp_bind, wp_get_db, wp_put_db. apply wp_ret. cbn [fst].
  assert (Hq4 : Forall quiet (cl_log c4)) by (eapply extends_quiet; [exact Hq|]; by etrans).
  intros pre post token' E. cbn [cl_log] in E. destruct E4 as (ext & E4 & Hext). assert (Hpost : post = [] /\ pre = cl_log c4 /\ token' = token).
  { destruct post as [|e post _] using rev_ind.
    - apply app_inj_tail in E as [-> [= ->]]. done.
    - exfalso. rewrite app_comm_cons, (assoc_L (++)) in E. apply app_inj_tail in E as [E _]. rewrite E in Hq4.
      apply Forall_app in Hq4 as [_ Hq4]. apply Forall_cons in Hq4 as [(_ & _ & Hs) _]. by apply (Hs token'). }
  destruct Hpost as (-> & -> & ->). exists tokens. rewrite E4. apply elem_of_app. left. cbn [c3 cl_log]. apply elem_of_app. right. constructor.
Qed.

Lemma wp_exit (m : M (Client * W) Z) (P : Client * W -> Prop) s : wp o m (fun _ => P) (fun _ => P) s -> wp o (exit_code m) (fun _ => P) (fun _ _ => False) s.
Proof using. intros Hm. apply wp_bind, wp_attempt. eapply wp_mono; [exact Hm| |]; intros x s' HP; by apply wp_ret. Qed.

End Logged.

(** ** Commands *)


(** A login stores only a token that the service has just accepted. *)
Lemma login_stores_accepted `{Service W} `{Machine W} (o : Oracle) (patience : nat) (explicit : string) (args : list string) (c : Client) (w : W) :
  Forall quiet (cl_log c) -> wp o (serviceLogin patience explicit args) (fun _ s => stored_accepted s.1) (fun _ _ => False) (c, w).
Proof.
  intros Hq. unfold serviceLogin. destruct (parseLogin explicit args) as [options|m]; [|apply wp_ret; by apply quiet_stores_none].
  apply (wp_exit o _ (fun s => stored_accepted s.1)). by apply wp_login.
Qed.

(** ** A concrete service *)

(** Whether the service accepts the token of the client. *)
Definition demo_connection : DataPlaneConnection := mkConnection "cas:50052" "autback" (mkCredential "ca" "cert" "key" "cas" 0).
Definition demo_job (id : string) (status : JobStatusPB) : JobPB :=
  mkJobPB id "prj1" "" ["true"] "" [] "" status 0 0 "" false "" [] [] None None None.

Definition demo_call {A : Type} (q : Rpc A) : M bool A :=
  match q in Rpc A return M bool A with
  | RpcListProjects => mret [mkProject "prj1" "demo" "Demo" "" "" true 0]
  | RpcPrepareJob _ => mret (Some (demo_job "job1" JOB_STATUS_PREPARING), Some demo_connection)
  | RpcGetJob id =>
      accepts ← get_db;
      if accepts : bool then mret (Some (demo_job id JOB_STATUS_PREPARING), Some demo_connection)
      else throw (ErrConnect CodeUnauthenticated ErrUnauthenticated)
  | RpcStartJob id _ => mret (demo_job id JOB_STATUS_QUEUED)
  | RpcExchangeGitHubOIDC _ _ => throw (ErrConnect CodeUnavailable (ErrText "connection refused"))
  | _ => throw (ErrConnect CodeUnimplemented (ErrText "unimplemented"))
  end.
#[local] Program Instance demo_service : Service bool := {| sv_call token A q := demo_call q |}.
Next Obligation. intros o token id w n. destruct w; cbn; [|done]. by intros job [= <-]. Qed.

#[local] Instance demo_machine : Machine bool := {|
  mc_Root := mret "/work"; mc_Directory := mret "."; mc_Files _ := mret ["main.go"]; mc_IDToken := mret "jwt"; mc_Proxy _ := mret tt;
  mc_Upload _ _ _ := mret (mkUpload "digest" 1); mc_Buildx _ _ := mret (0, None); mc_Metadata := mret None; mc_Intervals _ := 1%nat; mc_Follow _ := mret 0;
  mc_ReadCode := mret ""; mc_Hostname := mret ""; mc_Start _ := throw ErrContext; mc_Poll _ := mret None; mc_Available := mret true;
  mc_KeyringGet := throw ErrContext; mc_KeyringSet _ := mret tt; mc_KeyringDelete := mret tt; mc_Link _ := mret tt |}.

Definition demo_client (renewal : option string) : Client := mkClient "token" renewal false false [].
Definition steady_client : Oracle := mkOracle (fun _ => 0) (fun _ => 0) (fun _ => None).
Definition demo_exec (renewal : option string) (accepts : bool) : res Z * ((Client * bool) * nat) :=
  serviceExec 3 "" "demo" ["--detach"; "--"; "go"; "test"] steady_client ((demo_client renewal, accepts), 0%nat).


(** A workflow whose credential expires during the upload while the service is
    unreachable: the renewal fails, the heartbeat is retried, and uses the nil
    client that the failed renewal left behind. *)
Lemma heartbeat_panics : cl_panicked (demo_exec (Some "demo") false).2.1.1 = true /\ (demo_exec (Some "demo") false).1 = Ok 2.
Proof. split; vm_compute; reflexivity. Qed.
