(* ===== verification/Console.v ===== *)
(** * The console

    [internal/console]: the read-only web interface.  [source.go] reads a
    snapshot of the control plane for a route, [model.go] has its views,
    [handler.go] authenticates, renders a page and streams snapshots to it, and
    [logstream.go] follows the log of a job.  The source is written against a
    function that passes its calls to the store, so that it also runs beside
    other users of the store. *)
From stdpp Require Import gmap.
From Stdlib Require Import Ascii.
From S2P Require Import Prelude Model GoMonad GoLib GoStrings Table Schema JobStore Identity ChangeFeed Reads ControlAPI Float64 Metrics Text.

(** ** Views *)

(** [RouteKind] is a string that the query of a request sets. *)
Definition RouteOverview : string := "overview".
Definition RouteProject : string := "project".
Definition RouteOperation : string := "operation".
Definition RouteAudit : string := "audit".

Record Route := mkRoute { rt_Kind : string; rt_Project : string; rt_OperationKind : string; rt_OperationID : string }.

Record ProjectView := mkProjectView {
  pv_ID : string; pv_Slug : string; pv_Name : string; pv_ActiveImage : string; pv_AllowImageOverrides : bool; pv_Members : Z; pv_Trusts : Z }.
Record SessionView := mkSessionView { sv_User : string; sv_Admin : bool; sv_Projects : list ProjectView }.
Record ServiceView := mkServiceView { vv_Name : string; vv_Version : string; vv_Control : string; vv_Admission : string; vv_StartedAt : time }.
Record WorkerView := mkWorkerView { wv_Status : string; wv_Capacity : string; wv_ActiveID : string; wv_UpdatedAt : time }.
Record QueueView := mkQueueView {
  qv_Position : Z; qv_Kind : string; qv_ID : string; qv_Project : string; qv_ProjectName : string; qv_Status : string;
  qv_AcceptedAt : time; qv_LeasedAt : option time }.
Record ResourceSampleView := mkSampleView {
  rv_ObservedAt : time; rv_CPUUtilization : float64; rv_MemoryUtilization : float64; rv_CPUPressure : float64;
  rv_MemoryPressure : float64; rv_IOPressure : float64 }.
Record ResourceView := mkResourceView {
  rw_Samples : list ResourceSampleView; rw_SampleCount : Z; rw_ActiveSampleCount : Z; rw_CPUCores : Z; rw_MemoryTotalBytes : Z;
  rw_DiskUsageBytes : Z; rw_DiskTotalBytes : Z; rw_DiskInodesUsed : Z; rw_DiskInodesTotal : Z; rw_BusyRatio : float64;
  rw_CPUAverage : float64; rw_CPUPeak : float64; rw_MemoryAverage : float64; rw_MemoryPeak : float64; rw_MemoryBytesPeak : Z;
  rw_QueueWaitP95Millis : Z; rw_CPUPressurePeak : float64; rw_MemoryPressurePeak : float64; rw_IOPressurePeak : float64;
  rw_MemoryHighEvents : Z; rw_OOMEvents : Z; rw_OOMKills : Z; rw_PIDsCurrent : Z; rw_PIDsLimit : Z; rw_UnattributedPressureSamples : Z }.
Record OperationResourceView := mkOperationResources {
  or_SampleCount : Z; or_CPUAverage : float64; or_CPUPeak : float64; or_MemoryAverage : float64; or_MemoryPeak : float64; or_MemoryBytesPeak : Z }.
Record OperationView := mkOperationView {
  ov_Kind : string; ov_ID : string; ov_Project : string; ov_ProjectName : string; ov_Status : string; ov_Command : string; ov_Image : string;
  ov_CreatedAt : time; ov_StartedAt : option time; ov_FinishedAt : option time; ov_ExitCode : option Z; ov_QueueWaitMillis : option Z;
  ov_Resources : OperationResourceView }.
Record CacheView := mkCacheView { cv_Name : string; cv_Target : string }.
Record OperationDetailView := mkDetail {
  dv_Operation : OperationView; dv_WorkingDirectory : string; dv_Environment : list (string * string); dv_Caches : list CacheView;
  dv_RootDigest : string; dv_Error : string }.
Record LogView := mkLogView { lv_Available : bool; lv_Truncated : bool; lv_Content : list Z }.
Record AuditView := mkAuditView {
  av_ID : Z; av_Actor : string; av_Action : string; av_Target : string; av_Project : string; av_Metadata : list (string * string); av_CreatedAt : time }.
Record StatusView := mkStatusView { tv_Ready : bool; tv_Route : string; tv_Message : string; tv_UpdatedAt : time }.
Record Snapshot := mkSnapshot {
  sn_Revision : Z; sn_Session : SessionView; sn_Service : ServiceView; sn_Worker : WorkerView; sn_Clock : time; sn_Resources : ResourceView;
  sn_Queue : list QueueView; sn_Operations : list OperationView; sn_Operation : option OperationDetailView; sn_Log : LogView;
  sn_Audit : list AuditView; sn_Status : StatusView }.

Definition no_resources : OperationResourceView := mkOperationResources 0 f_zero f_zero f_zero f_zero 0.
Definition no_project : Project := mkProject "" "" "" "" "" false zero_time.
Definition no_queue : QueueView := mkQueueView 0 "" "" "" "" "" zero_time None.
Definition no_summary : ResourceSummary := mkSummary zero_scope 0 zero_time zero_time f_zero f_zero f_zero f_zero 0.
Definition no_samples : ResourceView :=
  mkResourceView [] 0 0 0 0 0 0 0 0 f_zero f_zero f_zero f_zero f_zero 0 0 f_zero f_zero f_zero 0 0 0 0 0 0.

(** [string(job.Status)] and the like. *)
Definition status_text (s : Status) : string :=
  match s with
  | StatusPreparing => "preparing" | StatusQueued => "queued" | StatusRunning => "running" | StatusSucceeded => "succeeded"
  | StatusFailed => "failed" | StatusCancelled => "cancelled" | StatusTimedOut => "timed_out" | StatusLost => "lost"
  end.
Definition state_text (s : OperationState) : string :=
  match s with
  | OperationQueued => "queued" | OperationAdmitting => "admitting" | OperationActive => "active"
  | OperationTerminalizing => "terminalizing" | OperationCleaning => "cleaning" | OperationReleased => "released"
  end.

Definition jobView (job : Job) (project : Project) : OperationView :=
  mkOperationView "job" (jb_ID job) (pj_Slug project) (pj_Name project) (status_text (jb_Status job)) (String.concat " " (jb_Command job))
    (jb_Image job) (jb_CreatedAt job) (jb_StartedAt job) (jb_FinishedAt job) (jb_ExitCode job) None no_resources.

Definition buildView (build : Build) (project : Project) : OperationView :=
  mkOperationView "build" (bd_ID build) (pj_Slug project) (pj_Name project) (build_status_text (bd_Status build)) "" ""
    (bd_CreatedAt build) None (bd_FinishedAt build) (bd_ExitCode build) None no_resources.

Definition operationKey (kind id : string) : string := kind +:+ ":" +:+ id.

(** [time.Time.Sub], which saturates. *)
Definition time_Sub (a b : time) : duration := Z.max (- 2 ^ 63) (Z.min (2 ^ 63 - 1) (a - b)).

(** The first of the lease, the start of the job and the first observation. *)
Definition started_at (operation : OperationView) (summary : ResourceSummary) (queue : QueueView) : option time :=
  match qv_LeasedAt queue with
  | Some t => Some t
  | None =>
      match ov_StartedAt operation with
      | Some t => Some t
      | None => if sm_ObservedStartedAt summary =? zero_time then None else Some (sm_ObservedStartedAt summary)
      end
  end.

Definition augmentOperation (operation : OperationView) (summary : ResourceSummary) (queue : QueueView) : OperationView :=
  let '(mkOperationView kind id project name status command image created started finished exit wait resources) := operation in
  let resources := if 0 <? sm_SampleCount summary
                   then mkOperationResources (sm_SampleCount summary) (sm_CPUAverage summary) (sm_CPUPeak summary) (sm_MemoryAverage summary)
                          (sm_MemoryPeak summary) (sm_MemoryBytesPeak summary)
                   else resources in
  let accepted := if qv_AcceptedAt queue =? zero_time then created else qv_AcceptedAt queue in
  let wait := match started_at operation summary queue with
              | Some t => if t <? accepted then wait else Some (Milliseconds (time_Sub t accepted))
              | None => wait
              end in
  mkOperationView kind id project name status command image created started finished exit wait resources.

(** ** Statistics *)

(** The built-in [max] of two floats: [NaN] if one of them is, and a positive
    zero above a negative one. *)
Definition go_max (x y : float64) : float64 :=
  if IsNaN x || IsNaN y then SpecFloat.S754_nan else
  match x, y with
  | SpecFloat.S754_zero a, SpecFloat.S754_zero b => SpecFloat.S754_zero (a && b)
  | _, _ => if f_lt x y then y else x
  end.

(** The rank of the percentile among [n] values, from one. *)
Definition rank95 (n : Z) : Z := Z.quot (95 * n + 99) 100.

Definition percentile95 (values : list Z) : Z :=
  match values with
  | [] => 0
  | _ => default 0 (order_by Z.leb values !! Z.to_nat (rank95 (Z.of_nat (length values)) - 1))
  end.

Definition queue_waits (operations : list OperationView) : list Z := omap ov_QueueWaitMillis operations.

Definition sample_view (s : ResourceSample) : ResourceSampleView :=
  mkSampleView (rs_ObservedAt s) (rs_CPUUtilization s) (rs_MemoryUtilization s) (rs_CPUPressure s)
    (go_max (rs_MemoryPressure s) (rs_MemoryFullPressure s)) (go_max (rs_IOPressure s) (rs_IOFullPressure s)).

Definition sample_peak (s : ResourceSample) : float64 :=
  go_max (go_max (rs_CPUUtilization s) (rs_MemoryUtilization s)) (go_max (rs_CPUPressure s) (go_max (rs_MemoryPressure s) (rs_IOPressure s))).

(** The sample that stands for a group: the first one with the highest peak. *)
Definition select_peak (first : ResourceSample) (rest : list ResourceSample) : ResourceSample :=
  fold_left (fun selected candidate => if f_lt (sample_peak selected) (sample_peak candidate) then candidate else selected) rest first.

(** The loop over groups of [step] samples; one group per unit of fuel. *)
Fixpoint group_views (fuel step : nat) (samples : list ResourceSample) : list ResourceSampleView :=
  match fuel, samples with
  | S fuel', first :: rest =>
      sample_view (select_peak first (take (step - 1) rest)) :: group_views fuel' step (drop (step - 1) rest)
  | _, _ => []
  end.

(** The width of the groups. *)
Definition group_step_of (n limit : Z) : Z := if limit <? n then Z.quot (n + limit - 1) limit else 1.

Definition resourceSampleViews (samples : list ResourceSample) (limit : Z) : list ResourceSampleView :=
  if (limit <? 1) || (Z.of_nat (length samples) =? 0) then [] else
  group_views (length samples) (Z.to_nat (group_step_of (Z.of_nat (length samples)) limit)) samples.

Definition under_pressure (s : ResourceSample) : bool :=
  f_lt f_zero (rs_CPUPressure s) || f_lt f_zero (rs_MemoryPressure s) || f_lt f_zero (rs_MemoryFullPressure s)
  || f_lt f_zero (rs_IOPressure s) || f_lt f_zero (rs_IOFullPressure s)
  || (0 <? rs_MemoryHighEvents s) || (0 <? rs_OOMEvents s) || (0 <? rs_OOMKills s).

(** One turn of the loop of [resources]: the view and the two sums. *)
Definition see_sample (acc : ResourceView * float64 * float64) (s : ResourceSample) : ResourceView * float64 * float64 :=
  let '(v, cpuSum, memorySum) := acc in
  let busy := negb (is_empty (sc_OperationID (rs_Scope s))) in
  (mkResourceView (rw_Samples v) (rw_SampleCount v) (if busy then wrap64 (rw_ActiveSampleCount v + 1) else rw_ActiveSampleCount v)
     (rs_CPUCores s) (rs_MemoryTotalBytes s) (rs_DiskUsageBytes s) (rs_DiskTotalBytes s) (rs_DiskInodesUsed s) (rs_DiskInodesTotal s)
     (rw_BusyRatio v) (rw_CPUAverage v) (if busy then go_max (rw_CPUPeak v) (rs_CPUUtilization s) else rw_CPUPeak v)
     (rw_MemoryAverage v) (if busy then go_max (rw_MemoryPeak v) (rs_MemoryUtilization s) else rw_MemoryPeak v)
     (if busy then Z.max (rw_MemoryBytesPeak v) (rs_MemoryUsageBytes s) else rw_MemoryBytesPeak v) (rw_QueueWaitP95Millis v)
     (go_max (rw_CPUPressurePeak v) (rs_CPUPressure s))
     (go_max (rw_MemoryPressurePeak v) (go_max (rs_MemoryPressure s) (rs_MemoryFullPressure s)))
     (go_max (rw_IOPressurePeak v) (go_max (rs_IOPressure s) (rs_IOFullPressure s)))
     (wrapu64 (rw_MemoryHighEvents v + rs_MemoryHighEvents s)) (wrapu64 (rw_OOMEvents v + rs_OOMEvents s))
     (wrapu64 (rw_OOMKills v + rs_OOMKills s)) (rs_PIDsCurrent s) (rs_PIDsLimit s)
     (if negb busy && under_pressure s then wrap64 (rw_UnattributedPressureSamples v + 1) else rw_UnattributedPressureSamples v),
   (if busy then f_add cpuSum (rs_CPUUtilization s) else cpuSum), (if busy then f_add memorySum (rs_MemoryUtilization s) else memorySum)).

(** The ratios, the samples and the waits, after the loop. *)
Definition with_ratios (busy cpu memory : float64) (samples : list ResourceSampleView) (wait : Z) (v : ResourceView) : ResourceView :=
  mkResourceView samples (rw_SampleCount v) (rw_ActiveSampleCount v) (rw_CPUCores v) (rw_MemoryTotalBytes v) (rw_DiskUsageBytes v)
    (rw_DiskTotalBytes v) (rw_DiskInodesUsed v) (rw_DiskInodesTotal v) busy cpu (rw_CPUPeak v) memory (rw_MemoryPeak v)
    (rw_MemoryBytesPeak v) wait (rw_CPUPressurePeak v) (rw_MemoryPressurePeak v) (rw_IOPressurePeak v) (rw_MemoryHighEvents v)
    (rw_OOMEvents v) (rw_OOMKills v) (rw_PIDsCurrent v) (rw_PIDsLimit v) (rw_UnattributedPressureSamples v).

Definition counted (n : Z) : ResourceView :=
  mkResourceView [] n 0 0 0 0 0 0 0 f_zero f_zero f_zero f_zero f_zero 0 0 f_zero f_zero f_zero 0 0 0 0 0 0.

Definition resource_view (samples : list ResourceSample) (operations : list OperationView) : ResourceView :=
  let n := Z.of_nat (length samples) in
  let '(v, cpuSum, memorySum) := fold_left see_sample samples (counted n, f_zero, f_zero) in
  let active := rw_ActiveSampleCount v in
  with_ratios (if 0 <? n then f_div (f_of_Z active) (f_of_Z n) else f_zero)
    (if 0 <? active then f_div cpuSum (f_of_Z active) else f_zero) (if 0 <? active then f_div memorySum (f_of_Z active) else f_zero)
    (resourceSampleViews samples 300) (percentile95 (queue_waits operations)) v.

(** One turn of the loop of [resourceRollupView]. *)
Definition see_rollup (acc : ResourceView * float64 * float64) (r : ResourceRollup) : ResourceView * float64 * float64 :=
  let '(v, cpuSum, memorySum) := acc in
  let n := ru_SampleCount r in
  (mkResourceView (rw_Samples v ++ [mkSampleView (ru_BucketAt r) (ru_CPUAverage r) (ru_MemoryAverage r) f_zero f_zero f_zero])
     (wrap64 (rw_SampleCount v + n)) (wrap64 (rw_ActiveSampleCount v + n)) (ru_CPUCores r) (rw_MemoryTotalBytes v)
     (ru_DiskUsageBytes r) (ru_DiskTotalBytes r) (rw_DiskInodesUsed v) (rw_DiskInodesTotal v) (rw_BusyRatio v)
     (rw_CPUAverage v) (go_max (rw_CPUPeak v) (ru_CPUPeak r)) (rw_MemoryAverage v) (go_max (rw_MemoryPeak v) (ru_MemoryPeak r))
     (Z.max (rw_MemoryBytesPeak v) (ru_MemoryBytesPeak r)) (rw_QueueWaitP95Millis v) (rw_CPUPressurePeak v) (rw_MemoryPressurePeak v)
     (rw_IOPressurePeak v) (rw_MemoryHighEvents v) (rw_OOMEvents v) (rw_OOMKills v) (rw_PIDsCurrent v) (rw_PIDsLimit v)
     (rw_UnattributedPressureSamples v),
   f_add cpuSum (f_mul (ru_CPUAverage r) (f_of_Z n)), f_add memorySum (f_mul (ru_MemoryAverage r) (f_of_Z n))).

(** The rollups come newest first and are seen oldest first. *)
Definition resourceRollupView (rollups : list ResourceRollup) (operations : list OperationView) : ResourceView :=
  let '(v, cpuSum, memorySum) := fold_left see_rollup (reverse rollups) (no_samples, f_zero, f_zero) in
  let n := rw_SampleCount v in
  with_ratios (if 0 <? n then f_one else f_zero)
    (if 0 <? n then f_div cpuSum (f_of_Z n) else f_zero) (if 0 <? n then f_div memorySum (f_of_Z n) else f_zero)
    (rw_Samples v) (percentile95 (queue_waits operations)) v.

(** ** The source *)

(** A call on the store, in the database with the metrics. *)
Definition of_store {A} (m : StoreM A) : MetricsM A := fun o '(d, n) =>
  let '(a, (s, n')) := m o (md_store d, n) in (a, (mkMetricsDB s (md_metrics d), n')).

Record SQLiteSource := mkSource { sq_version : string; sq_startedAt : time }.

(** [NewSQLiteSource]; the flags say whether the store and the scheduler are
    set. *)
Definition NewSQLiteSource {D : Type} (store scheduler : bool) (version : string) (startedAt : time) : M D SQLiteSource :=
  if negb store || negb scheduler then throw (ErrText "console store and scheduler are required") else
  if is_empty version then throw (ErrText "console service version is required") else
  startedAt ← (if startedAt =? zero_time then time_Now else mret startedAt);
  mret (mkSource version startedAt).

Section Source.
Context `{CursorCodec} {W : Type} (call : forall A : Type, MetricsM A -> M W A) (check : M W unit) (s : SQLiteSource).

(** [s.store.Method] and the methods of the metrics. *)
#[local] Abbreviation store m := (call _ (of_store m)).

Definition console_Authorize (principal : Principal) (route : Route) : M W unit :=
  if bool_decide (rt_Kind route = RouteOverview) || bool_decide (rt_Kind route = RouteAudit) then
    _ ← store (ListProjects principal); mret tt
  else if bool_decide (rt_Kind route = RouteProject) then
    _ ← store (AuthorizeProject principal (rt_Project route)); mret tt
  else if bool_decide (rt_Kind route = RouteOperation) then
    projectID ← (if bool_decide (rt_OperationKind route = "job") then job ← store (getJob (rt_OperationID route)); mret (jb_ProjectID job)
                 else if bool_decide (rt_OperationKind route = "build") then build ← store (getBuild (rt_OperationID route)); mret (bd_ProjectID build)
                 else throw ErrNotFound);
    _ ← store (AuthorizeProject principal projectID); mret tt
  else throw ErrNotFound.

(** The loop over the projects of a session. *)
Fixpoint project_views (principal : Principal) (projects : list Project) : M W (list ProjectView) :=
  match projects with
  | [] => mret []
  | project :: rest =>
      members ← store (ProjectMemberCount (pj_ID project));
      trusts ← store (ListGitHubTrusts principal (pj_ID project));
      let active := Z.of_nat (count (fun t => bool_decide (tr_RevokedAt t = None)) trusts) in
      views ← project_views principal rest;
      mret (mkProjectView (pj_ID project) (pj_Slug project) (pj_Name project) (pj_ActiveImage project) (pj_AllowImageOverrides project) members active
            :: views)
  end.

Definition project_map (projects : list Project) : gmap string Project :=
  fold_left (fun m p => <[pj_ID p := p]> m) projects ∅.
Definition project_of (projectByID : gmap string Project) (id : string) : Project := default no_project (projectByID !! id).

(** The entries of the line that the route shows; positions count all entries. *)
Fixpoint queue_views (projectByID : gmap string Project) (selected : string) (index : Z) (items : list QueueOperation) : list QueueView :=
  match items with
  | [] => []
  | item :: rest =>
      let op := qo_Operation item in
      let project := project_of projectByID (qo_ProjectID item) in
      (if negb (is_empty selected) && negb (bool_decide (qo_ProjectID item = selected)) then []
       else [mkQueueView (index + 1) (kind_text (op_Kind op)) (op_ID op) (pj_Slug project) (pj_Name project) (state_text (op_State op))
               (op_AcceptedAt op) (op_LeasedAt op)])
      ++ queue_views projectByID selected (index + 1) rest
  end.

(** The last active operation among the entries shown. *)
Definition active_id (queue : list QueueView) : string :=
  fold_left (fun id item => if bool_decide (qv_Status item = "active") then qv_ID item else id) queue "".

(** [sort.Slice]: newest first, then by identifier. *)
Definition newer_operation (a b : OperationView) : bool :=
  if ov_CreatedAt a =? ov_CreatedAt b then String.leb (ov_ID b) (ov_ID a) else ov_CreatedAt b <? ov_CreatedAt a.

Fixpoint project_operations (selected : string) (projects : list Project) : M W (list OperationView) :=
  match projects with
  | [] => mret []
  | project :: rest =>
      if negb (is_empty selected) && negb (bool_decide (pj_ID project = selected)) then project_operations selected rest else
      jobs ← store (ListJobs (pj_ID project) 24 "");
      builds ← store (ListBuilds (pj_ID project) 24);
      more ← project_operations selected rest;
      mret (map (fun j => jobView j project) (jp_Jobs jobs) ++ map (fun b => buildView b project) builds ++ more)
  end.

Definition operations (projects : list Project) (selected : string) : M W (list OperationView) :=
  all ← project_operations selected projects; mret (take 40 (order_by newer_operation all)).

(** The operation of the route; that of a job also enters its project. *)
Definition operation (principal : Principal) (projects : gmap string Project) (route : Route) : M W (OperationDetailView * gmap string Project) :=
  if bool_decide (rt_OperationKind route = "job") then
    job ← store (getJob (rt_OperationID route));
    project ← store (AuthorizeProject principal (jb_ProjectID job));
    mret (mkDetail (jobView job project) (jb_WorkingDirectory job) (jb_Environment job)
            (map (fun c => mkCacheView (cm_Name c) (cm_Target c)) (jb_Caches job)) (jb_RootDigest job) (jb_ErrorMessage job),
          <[pj_ID project := project]> projects)
  else if bool_decide (rt_OperationKind route = "build") then
    build ← store (getBuild (rt_OperationID route));
    project ← store (AuthorizeProject principal (bd_ProjectID build));
    mret (mkDetail (buildView build project) "" [] [] "" "", projects)
  else throw ErrNotFound.

Definition resources (route : Route) (projectID : string) (operations : list OperationView) : M W ResourceView :=
  now ← time_Now;
  let filter := if bool_decide (rt_Kind route = RouteOperation)
                then mkFilter "" (rt_OperationKind route) (rt_OperationID route) zero_time zero_time
                else mkFilter projectID "" "" (now - Hour) zero_time in
  samples ← call _ (ListResourceSamples filter 5000);
  if bool_decide (samples = []) && bool_decide (rt_Kind route = RouteOperation) then
    rollups ← call _ (ListResourceRollups filter 5000);
    mret (resourceRollupView rollups operations)
  else mret (resource_view samples operations).

Definition summary_map (summaries : list ResourceSummary) : gmap string ResourceSummary :=
  fold_left (fun m x => <[operationKey (sc_OperationKind (sm_Scope x)) (sc_OperationID (sm_Scope x)) := x]> m) summaries ∅.
Definition queue_map (queue : list QueueView) : gmap string QueueView :=
  fold_left (fun m x => <[operationKey (qv_Kind x) (qv_ID x) := x]> m) queue ∅.

(** [augmentOperation] with the entries of the two maps, or their zero values. *)
Definition augment (summaries : gmap string ResourceSummary) (queue : gmap string QueueView) (o : OperationView) : OperationView :=
  let key := operationKey (ov_Kind o) (ov_ID o) in
  augmentOperation o (default no_summary (summaries !! key)) (default no_queue (queue !! key)).

(** The summary of the operation of the route, when the list does not have it. *)
Definition route_summary (route : Route) (summaries : gmap string ResourceSummary) : M W (gmap string ResourceSummary) :=
  let key := operationKey (rt_OperationKind route) (rt_OperationID route) in
  if negb (bool_decide (rt_Kind route = RouteOperation)) || bool_decide (is_Some (summaries !! key)) then mret summaries else
  r ← attempt (call _ (getResourceSummary (mkFilter "" (rt_OperationKind route) (rt_OperationID route) zero_time zero_time)));
  match r with
  | Ok summary => mret (<[key := summary]> summaries)
  | Fail ErrNotFound => mret summaries
  | Fail e => throw e
  end.

Definition audit_view (principal : Principal) (userName : string) (projectByID : gmap string Project) (event : AuditEvent) : AuditView :=
  mkAuditView (ae_ID event) (if bool_decide (ae_ActorID event = pr_UserID principal) then userName else ae_ActorID event) (ae_Action event)
    (ae_TargetID event) (pj_Slug (project_of projectByID (ae_ProjectID event))) (ae_Metadata event) (ae_CreatedAt event).

Definition readSnapshot (principal : Principal) (route : Route) : M W Snapshot :=
  projects ← store (ListProjects principal);
  userName ← (if is_empty (pr_UserID principal) then mret (pr_Subject principal)
              else user ← store (getUser (pr_UserID principal)); mret (us_Name user));
  projectViews ← project_views principal projects;
  let projectByID := project_map projects in
  selected ← (if bool_decide (rt_Kind route = RouteProject)
              then project ← store (AuthorizeProject principal (rt_Project route)); mret (pj_ID project) else mret "");
  queueRecords ← store (ListQueue principal);
  let queue := queue_views projectByID selected 0 queueRecords in
  operations ← operations projects selected;
  summaries ← call _ (ListResourceSummaries selected 200);
  summaryByOperation ← route_summary route (summary_map summaries);
  let queueByOperation := queue_map queue in
  let operations := map (augment summaryByOperation queueByOperation) operations in
  resources ← resources route selected operations;
  '(detail, projectByID) ←
     (if bool_decide (rt_Kind route = RouteOperation) then
        '(detail, projectByID) ← operation principal projectByID route;
        mret (Some (mkDetail (augment summaryByOperation queueByOperation (dv_Operation detail)) (dv_WorkingDirectory detail)
                      (dv_Environment detail) (dv_Caches detail) (dv_RootDigest detail) (dv_Error detail)), projectByID)
      else mret (None, projectByID));
  audits ← store (ListAuditEvents principal selected 80);
  let auditViews := map (audit_view principal userName projectByID) audits in
  checked ← attempt check;
  let '(workerStatus, statusMessage) := match checked with Ok _ => ("online", "Live") | Fail _ => ("degraded", "Worker unavailable") end in
  now ← time_Now;
  mret (mkSnapshot 0 (mkSessionView userName (pr_Admin principal) projectViews)
    (mkServiceView "Autback" (sq_version s) "CLI only" "One at a time" (sq_startedAt s))
    (mkWorkerView workerStatus "1 operation" (active_id queue) now) zero_time resources queue operations detail (mkLogView false false [])
    auditViews (mkStatusView true (rt_Kind route) statusMessage now)).

Definition with_revision (revision : Z) (n : Snapshot) : Snapshot :=
  mkSnapshot revision (sn_Session n) (sn_Service n) (sn_Worker n) (sn_Clock n) (sn_Resources n) (sn_Queue n) (sn_Operations n) (sn_Operation n)
    (sn_Log n) (sn_Audit n) (sn_Status n).

(** The attempts at a consistent snapshot: one that no change interrupted. *)
Fixpoint snapshot_attempts (attempts : nat) (principal : Principal) (route : Route) : M W Snapshot :=
  match attempts with
  | O => throw (ErrText "control state changed too quickly to produce a consistent console snapshot")
  | S attempts' =>
      before ← store CurrentRevision;
      snapshot ← readSnapshot principal route;
      after ← store CurrentRevision;
      if before =? after then mret (with_revision after snapshot) else snapshot_attempts attempts' principal route
  end.
Definition console_Snapshot : Principal -> Route -> M W Snapshot := snapshot_attempts 5.

End Source.
