(* ===== verification/ConsoleStream.v ===== *)
(** * Pages, streams and logs of the console

    [internal/console/handler.go]: the authentication of a request, the pages
    and the stream of snapshots behind them; [internal/console/logstream.go] with
    the writers of [source.go]: the bounded tail of the log of a job. *)
From stdpp Require Import gmap.
From Stdlib Require Import Ascii.
From S2P Require Import Prelude Model GoMonad GoLib GoStrings Table Schema JobStore Identity ChangeFeed Reads Coordinator Dispatcher ControlAPI Retry LogStream HumanAuth Float64 Metrics Text Console.

(** ** Routes and pages *)

Definition validateRoute (route : Route) : bool :=
  let '(mkRoute kind project operationKind operationID) := route in
  if bool_decide (kind = RouteOverview) || bool_decide (kind = RouteAudit) then is_empty project && is_empty operationKind && is_empty operationID
  else if bool_decide (kind = RouteProject) then negb (is_empty project) && is_empty operationKind && is_empty operationID
  else if bool_decide (kind = RouteOperation) then
    (bool_decide (operationKind = "job") || bool_decide (operationKind = "build")) && negb (is_empty operationID) && is_empty project
  else false.

Definition pageTitle (route : Route) : string :=
  if bool_decide (rt_Kind route = RouteProject) then rt_Project route +:+ " · Autback"
  else if bool_decide (rt_Kind route = RouteOperation) then rt_OperationID route +:+ " · Autback"
  else if bool_decide (rt_Kind route = RouteAudit) then "Audit · Autback"
  else "Autback Console".

(** The query of the address from which the page updates itself. *)
Definition updates_query (route : Route) : list (string * string) :=
  [("route", rt_Kind route)]
  ++ (if is_empty (rt_Project route) then [] else [("project", rt_Project route)])
  ++ (if is_empty (rt_OperationKind route) then [] else [("kind", rt_OperationKind route); ("id", rt_OperationID route)]).

(** The route that [updates] reads from the query of its request. *)
Definition query_route (query : list (string * string)) : Route :=
  mkRoute (Get query "route") (Get query "project") (Get query "kind") (Get query "id").

(** A request: its [Authorization] header, its cookies, its method, its address
    and its query. *)
Record PageRequest := mkPageRequest {
  pq_Authorization : string; pq_Cookies : list (string * string); pq_Method : string; pq_RequestURI : string; pq_Query : list (string * string) }.

(** What a handler answers: a page, an error with its message, or the way to the
    login. *)
Inductive Answer :=
| Page (title : string) (updates : list (string * string)) (route : Route) (human : bool)
| Failure (status : Z) (message : string)
| Challenge (message : string)
| ToLogin (loginURL returnTo : string).

Record PageServer := mkPageServer { ps_clockInterval : duration; ps_loginURL : string; ps_sessionCookieName : string }.

(** [New]; the flag says whether there is a source. *)
Definition NewConsole (source : bool) (interval : duration) (loginURL cookieName : string) : PageServer + Err :=
  if negb source then inr (ErrText "console source is required") else
  inl (mkPageServer (if interval <=? 0 then Second else interval) loginURL (if is_empty cookieName then "autback_session" else cookieName)).

Definition writeSourceError (e : Err) : Answer :=
  match e with
  | ErrUnauthenticated => Failure 401 "unauthenticated"
  | ErrForbidden => Failure 403 "forbidden"
  | ErrNotFound => Failure 404 "not found"
  | _ => Failure 500 "console unavailable"
  end.

(** [strings.ContainsAny(token, " \t\r\n")]. *)
Definition has_blank (token : string) : bool := existsb (fun b => (b =? 32) || (b =? 9) || (b =? 13) || (b =? 10)) (bytes token).

(** The token of a request: that of the header, or else that of the cookie; a
    header that is not usable stays when there is no cookie. *)
Definition request_token (cookieName : string) (request : PageRequest) : string :=
  let '(token, ok) := match CutPrefix (pq_Authorization request) "Bearer " with Some t => (t, true) | None => (pq_Authorization request, false) end in
  if negb ok || is_empty token || has_blank token then default token (first_value cookieName (pq_Cookies request)) else token.

Section Handlers.
Context `{Pepper} `{CaseTables} `{CursorCodec} {W : Type} (call : forall A : Type, MetricsM A -> M W A) (check : M W unit) (source : SQLiteSource) (s : PageServer).
#[local] Abbreviation store m := (call _ (of_store m)).

(** [inl] is a principal, [inr] the answer that was written instead. *)
Definition page_authenticate (request : PageRequest) : M W (Principal + Answer) :=
  r ← attempt (store (Authenticate (request_token (ps_sessionCookieName s) request)));
  match r with
  | Ok principal =>
      if bool_decide (pr_Kind principal = PrincipalDevice) || bool_decide (pr_Kind principal = PrincipalBrowser) then mret (inl principal)
      else mret (inr (if negb (is_empty (ps_loginURL s)) && bool_decide (pq_Method request = "GET")
                      then ToLogin (ps_loginURL s) (pq_RequestURI request) else Challenge "authentication required; open the console through the autback CLI"))
  | Fail _ => mret (inr (if negb (is_empty (ps_loginURL s)) && bool_decide (pq_Method request = "GET")
                         then ToLogin (ps_loginURL s) (pq_RequestURI request) else Challenge "authentication required; open the console through the autback CLI"))
  end.

Definition renderPage (request : PageRequest) (route : Route) : M W Answer :=
  who ← page_authenticate request;
  match who with
  | inr answer => mret answer
  | inl principal =>
      if negb (validateRoute route) then mret (Failure 404 "404 page not found") else
      r ← attempt (console_Authorize call principal route);
      match r with
      | Fail e => mret (writeSourceError e)
      | Ok _ => mret (Page (pageTitle route) (updates_query route) route (negb (is_empty (ps_loginURL s))))
      end
  end.

(** ** The stream of a page *)

(** A patch: the whole snapshot, a snapshot without the log, the clock, or the
    log. *)
Inductive Patch := Whole (n : Snapshot) | Refresh (n : Snapshot) | Clock (now : time) | Log (view : LogView).

Definition with_clock (now : time) (n : Snapshot) : Snapshot :=
  mkSnapshot (sn_Revision n) (sn_Session n) (sn_Service n) (sn_Worker n) now (sn_Resources n) (sn_Queue n) (sn_Operations n) (sn_Operation n)
    (sn_Log n) (sn_Audit n) (sn_Status n).

(** What the [select] of the loop receives; [None] from a channel is its end. *)
Inductive StreamEvent := Gone | Ticked | LogUpdated (view : option LogView) | Changed (open : bool).

Context (send : Patch -> M W unit).

(** The loop over the events, until the first that ends it.  [following] says
    whether the channel of the log is still read. *)
Fixpoint updates_loop (principal : Principal) (route : Route) (events : list StreamEvent) (following : bool) (revision : Z) : M W unit :=
  match events with
  | [] => mret tt
  | event :: rest =>
      match event with
      | Gone => mret tt
      | Ticked =>
          now ← time_Now;
          sent ← attempt (send (Clock now));
          match sent with Ok _ => updates_loop principal route rest following revision | Fail _ => mret tt end
      | LogUpdated view =>
          if following then
            match view with
            | None => updates_loop principal route rest false revision
            | Some view =>
                sent ← attempt (send (Log view));
                match sent with Ok _ => updates_loop principal route rest following revision | Fail _ => mret tt end
            end
          else updates_loop principal route rest following revision
      | Changed false => mret tt
      | Changed true =>
          next ← attempt (console_Snapshot call check source principal route);
          match next with
          | Fail _ => mret tt
          | Ok next =>
              if sn_Revision next <=? revision then updates_loop principal route rest following revision else
              now ← time_Now;
              sent ← attempt (send (Refresh (with_clock now next)));
              match sent with Ok _ => updates_loop principal route rest following (sn_Revision next) | Fail _ => mret tt end
          end
      end
  end.

(** [SubscribeLog] up to the start of its goroutine: the job it follows, if the
    route has a log. *)
Definition SubscribeLog (principal : Principal) (route : Route) : M W (option string) :=
  if negb (bool_decide (rt_Kind route = RouteOperation)) || negb (bool_decide (rt_OperationKind route = "job")) then mret None else
  job ← store (getJob (rt_OperationID route));
  _ ← store (AuthorizeProject principal (jb_ProjectID job));
  mret (Some (jb_ID job)).

(** [updates]: the answer when there is no stream. *)
Definition updates (request : PageRequest) (events : list StreamEvent) : M W (option Answer) :=
  who ← page_authenticate request;
  match who with
  | inr answer => mret (Some answer)
  | inl principal =>
      let route := query_route (pq_Query request) in
      if negb (validateRoute route) then mret (Some (Failure 400 "invalid console route")) else
      r ← attempt (console_Snapshot call check source principal route);
      match r with
      | Fail e => mret (Some (writeSourceError e))
      | Ok snapshot =>
          now ← time_Now;
          sent ← attempt (send (Whole (with_clock now snapshot)));
          match sent with
          | Fail _ => mret None
          | Ok _ =>
              log ← attempt (SubscribeLog principal route);
              match log with
              | Fail _ => mret None
              | Ok _ => _ ← updates_loop principal route events true (sn_Revision snapshot); mret None
              end
          end
      end
  end.

End Handlers.

(** ** The tail of a log *)

Definition maxLogTailBytes : Z := 64 * 1024.

Record tailWriter := mkTail { tw_limit : Z; tw_bytes : list Z; tw_truncated : bool }.

Definition tail_Write (input : list Z) (w : tailWriter) : tailWriter :=
  let n := length64 input in
  if tw_limit w <=? 0 then mkTail (tw_limit w) (tw_bytes w) (tw_truncated w || (0 <? n)) else
  if tw_limit w <=? n then mkTail (tw_limit w) (drop (Z.to_nat (n - tw_limit w)) input) true else
  let overflow := length64 (tw_bytes w) + n - tw_limit w in
  if 0 <? overflow then mkTail (tw_limit w) (drop (Z.to_nat overflow) (tw_bytes w) ++ input) true
  else mkTail (tw_limit w) (tw_bytes w ++ input) (tw_truncated w).

(** The channel of the log holds one view; [lt_received] is what its reader has
    taken from it, the latest last. *)
Record LogTail := mkLogTail { lt_tail : tailWriter; lt_published : bool; lt_output : option LogView; lt_received : list LogView }.

Definition log_view (w : tailWriter) : LogView := mkLogView true (tw_truncated w) (tw_bytes w).

(** The reader takes what the channel holds. *)
Definition take_view (t : LogTail) : LogTail :=
  match lt_output t with
  | None => t
  | Some v => mkLogTail (lt_tail t) (lt_published t) None (lt_received t ++ [v])
  end.

(** The three selects of [publish]: send, discard what is there, send.  [reads]
    says whether the reader takes a view before the second of them. *)
Definition publish_to (reads : bool) (t : LogTail) : LogTail :=
  let view := log_view (lt_tail t) in
  match lt_output t with
  | None => mkLogTail (lt_tail t) true (Some view) (lt_received t)
  | Some _ =>
      let t := if reads then take_view t else t in
      mkLogTail (lt_tail t) true (Some view) (lt_received t)
  end.

(** Whether the reader is quick is up to the environment. *)
Definition publish : M LogTail unit := fun o '(t, n) => (Ok tt, (publish_to (Z.odd (o_rand o n)) t, S n)).

(** [newLiveLogWriter] on the channel of the subscription. *)
Definition newLiveLogWriter : M LogTail unit :=
  t ← get_db; put_db (mkLogTail (mkTail maxLogTailBytes [] false) false (lt_output t) (lt_received t)).

Definition live_Write (input : list Z) : M LogTail unit :=
  t ← get_db; _ ← put_db (mkLogTail (tail_Write input (lt_tail t)) (lt_published t) (lt_output t) (lt_received t)); publish.

Fixpoint live_chunks (chunks : list (list Z)) : M LogTail unit :=
  match chunks with [] => mret tt | data :: rest => _ ← live_Write data; live_chunks rest end.

Section LiveLog.
Context {R : Type} `{LogSource R}.
#[local] Abbreviation FollowM := (M ((Database * R) * LogTail)).
#[local] Abbreviation log_store m := (on_store (on_store m)).

(** [s.scheduler.Logs] into the writer. *)
Definition live_Logs (id : string) (follow : bool) : FollowM (option Err) :=
  '(chunks, e) ← on_store (on_runtime (ls_Logs id follow));
  _ ← on_runtime (live_chunks chunks);
  mret e.

Definition readFinalLog (id : string) : FollowM unit :=
  _ ← on_runtime newLiveLogWriter;
  r ← attempt (live_Logs id false);
  t ← on_runtime get_db;
  match r with
  | Ok None => if lt_published t then mret tt else on_runtime publish
  | _ => mret tt
  end.

(** What a [select] on the context, the changes and possibly a third channel
    receives. *)
Inductive Wake := ContextDone | ChangesClosed | ChangeCame | ThirdReady.
Definition wake (third : bool) : FollowM Wake := fun o '(w, n) =>
  (Ok (match o_rand o n mod 4 with 0 => ContextDone | 1 => ChangesClosed | 2 => ChangeCame | _ => if third then ThirdReady else ChangeCame end), (w, S n)).

(** The loop of [followActiveJobLog] while the log is followed: whether the
    subscription should stop.  The third channel is the end of the log.  [turns]
    is how often the channels deliver before the context ends. *)
Fixpoint follow_loop (turns : nat) (id : string) : FollowM bool :=
  match turns with
  | O => mret true
  | S turns' =>
      event ← wake true;
      match event with
      | ContextDone | ChangesClosed => mret true
      | ThirdReady => mret false
      | ChangeCame =>
          r ← attempt (log_store (getJob id));
          match r with
          | Fail _ => mret true
          | Ok job => if Terminal (jb_Status job) then _ ← readFinalLog id; mret true else follow_loop turns' id
          end
      end
  end.

(** The goroutine that follows the log writes to the tail only, and has ended
    when the function returns. *)
Definition followActiveJobLog (turns : nat) (id : string) : FollowM bool :=
  _ ← on_runtime newLiveLogWriter;
  _ ← on_runtime publish;
  _ ← attempt (live_Logs id true);
  follow_loop turns id.

(** [waitForLogRetry]: the third channel is the timer. *)
Definition waitForLogRetry : FollowM bool :=
  event ← wake true; mret match event with ContextDone | ChangesClosed => false | ChangeCame | ThirdReady => true end.

Fixpoint streamJobLog (turns : nat) (id : string) : FollowM unit :=
  match turns with
  | O => mret tt
  | S turns' =>
      r ← attempt (log_store (getJob id));
      cancelled ← ctx_Err;
      match r with
      | Fail _ => mret tt
      | Ok job =>
          if negb (bool_decide (cancelled = None)) then mret tt else
          if Terminal (jb_Status job) then readFinalLog id else
          state ← attempt (log_store (OperationStateOf OperationJob id));
          match state with
          | Ok OperationActive =>
              stop ← followActiveJobLog turns' id;
              if stop : bool then mret tt else
              again ← waitForLogRetry;
              if again : bool then streamJobLog turns' id else mret tt
          | _ =>
              event ← wake false;
              match event with
              | ContextDone | ChangesClosed => mret tt
              | ChangeCame | ThirdReady => streamJobLog turns' id
              end
          end
      end
  end.

End LiveLog.
