(* ===== verification/ConsoleTheorems.v ===== *)
(** * What the console shows

    A snapshot that [Snapshot] returns was read from one state of the control
    plane although others write to the store meanwhile; it shows a principal
    nothing but what it may read; and a page whose stream is idle shows the
    latest revision. *)
From stdpp Require Import gmap.
From S2P Require Import Prelude Model GoMonad GoLib GoStrings Table Schema JobStore QueueInv QueueOps QueueSystem Identity IdentitySpec Keeps IdentitySystem IdentityInv ChangeFeed Reads ReadTheorems ControlAPI LogStream HumanAuth Float64 Metrics MetricsTheorems Text Console ConsoleStream.

(** ** What moves the revision *)

(** What the views of a snapshot are read from, but for the samples. *)
Definition view_of (d : MetricsDB) := (visible (tabs (md_store d)), feed (md_store d), resource_operation_summaries (md_metrics d)).
Definition revision (d : MetricsDB) : Z := fd_seq (feed (md_store d)).

(** The calls of others: on the control plane and on the metrics. *)
Inductive console_step `{Pepper} `{CaseTables} `{SqlAggregates} : MetricsDB -> MetricsDB -> Prop :=
| cs_control d s : control_step (md_store d) s -> console_step d (mkMetricsDB s (md_metrics d))
| cs_metrics c o n r d d' n' : run_metrics c o (d, n) = (r, (d', n')) -> console_step d d'.

(** The feed stays numbered, the revision grows, and one that does not move
    means that the views do not change. *)
Definition view_good (d d' : MetricsDB) : Prop :=
  (FeedInv (feed (md_store d)) -> FeedInv (feed (md_store d'))) /\ revision d <= revision d' /\
  (revision d' = revision d -> view_of d' = view_of d).

#[export] Instance view_good_preorder : PreOrder view_good.
Proof.
  split; [intros d; split; [done|]; split; [reflexivity|done]|]. intros d1 d2 d3 (A1 & B1 & C1) (A2 & B2 & C2). split; [auto|]. split; [lia|].
  intros E. rewrite C2, C1 by lia. done.
Qed.

Lemma insert_change_inv created project kind id f : FeedInv f -> FeedInv (insert_change created project kind id f).
Proof.
  intros HI. assert (E : map cc_Sequence (fd_rows (insert_change created project kind id f)) = map cc_Sequence (fd_rows (record_change 0 project kind id f))).
  { unfold insert_change, record_change. simpl. unfold retained. rewrite !(map_filter_sequence (fun x => negb (x <? _))), !map_app. done. }
  destruct (record_change_inv 0 project kind id f HI) as [H1 H2]. split; [exact H1|]. rewrite E. exact H2.
Qed.

Lemma run_metrics_view `{SqlAggregates} c : keeps view_good (run_metrics c).
Proof.
  intros o d. destruct c as [s|raw rollup]; unfold run_metrics.
  - apply wp_AppendResourceSample; try done. intros _ _. unfold view_good, revision, with_sample, add_change. simpl.
    split; [apply insert_change_inv|]. lia.
  - apply wp_CompactResourceSamples; try done.
Qed.

Section Interleaved.
Context `{Pepper} `{CaseTables} `{SqlAggregates} `{CursorCodec}.

Lemma console_step_view d d' : console_step d d' -> view_good d d'.
Proof using.
  intros [d0 s Hs | c o n r d0 d1 n' E].
  - destruct (control_step_feed _ _ Hs) as (A & [B _] & C). split; [exact A|]. split; [exact B|]. intros E. destruct (C E) as [V F].
    unfold view_of. simpl. by rewrite V, F.
  - pose proof (run_metrics_view c o d0 n) as Hk. rewrite E in Hk. by destruct r.
Qed.

Lemma console_steps_view d d' : rtc console_step d d' -> view_good d d'.
Proof using. induction 1 as [|d1 d2 d3 H1' _ IH]; [reflexivity|]. etrans; [by apply console_step_view|done]. Qed.

(** ** The store between the calls of a reader *)

(** The database, the runtime, and the databases that the calls so far saw. *)
Record Busy (R : Type) := mkBusy { bz_db : MetricsDB; bz_runtime : R; bz_reads : list MetricsDB }.
Arguments mkBusy {R}. Arguments bz_db {R}. Arguments bz_runtime {R}. Arguments bz_reads {R}.

Context {R : Type}.

(** What others do to the database before the call with that number. *)
Context (interfere : nat -> MetricsDB -> MetricsDB).
Hypothesis interfere_steps : forall k d, rtc console_step d (interfere k d).

Definition busy_call (A : Type) (m : MetricsM A) : M (Busy R) A := fun o '(w, n) =>
  let d := interfere (length (bz_reads w)) (bz_db w) in
  let '(a, (d', n')) := m o (d, n) in (a, (mkBusy d' (bz_runtime w) (bz_reads w ++ [d]), n')).
Definition busy_check (m : M R unit) : M (Busy R) unit := fun o '(w, n) =>
  let '(a, (r, n')) := m o (bz_runtime w, n) in (a, (mkBusy (bz_db w) r (bz_reads w), n')).

(** The databases of a list follow each other, from [d] to [d']. *)
Fixpoint view_chain (d : MetricsDB) (reads : list MetricsDB) (d' : MetricsDB) : Prop :=
  match reads with [] => view_good d d' | x :: rest => view_good d x /\ view_chain x rest d' end.

Lemma view_chain_app d l x l' d' : view_chain d l x -> view_chain x l' d' -> view_chain d (l ++ l') d'.
Proof using.
  revert d. induction l as [|y l IH]; simpl; intros d Hl Hl'; [|destruct Hl; auto].
  destruct l' as [|z l']; simpl in *; [by etrans|]. destruct Hl' as [Hz ?]. split; [by etrans|done].
Qed.

Lemma view_chain_good d l d' : view_chain d l d' -> view_good d d' /\ forall x, x ∈ l -> view_good d x /\ view_good x d'.
Proof using.
  revert d. induction l as [|y l IH]; simpl; intros d Hl; [split; [done|]; intros x Hx; by apply not_elem_of_nil in Hx|].
  destruct Hl as [Hy Hl]. destruct (IH _ Hl) as [Hg Hall]. split; [by etrans|]. intros x [->|Hx]%elem_of_cons; [done|].
  destruct (Hall x Hx). split; [by etrans|done].
Qed.

Definition reads_on (w w' : Busy R) : Prop :=
  exists reads, bz_reads w' = bz_reads w ++ reads /\ view_chain (bz_db w) reads (bz_db w').

#[export] Instance reads_on_preorder : PreOrder reads_on.
Proof using.
  split; [intros w; exists []; by rewrite app_nil_r|]. intros w1 w2 w3 (l1 & E1 & C1) (l2 & E2 & C2). exists (l1 ++ l2).
  split; [by rewrite E2, E1, app_assoc|by eapply view_chain_app].
Qed.

(** A call that only reads. *)
Lemma busy_call_reads A (m : MetricsM A) : keeps (=) m -> keeps reads_on (busy_call A m).
Proof using interfere_steps.
  intros Hm o w n. unfold busy_call. specialize (Hm o (interfere (length (bz_reads w)) (bz_db w)) n).
  destruct (m o _) as [[a|e] [d' n']]; cbv beta in Hm; subst d'; (eexists; split; [reflexivity|]; simpl; split; [by apply console_steps_view|reflexivity]).
Qed.

Lemma of_store_reads A (m : StoreM A) : keeps (=) m -> keeps (=) (of_store m).
Proof using.
  intros Hm o d n. unfold of_store. specialize (Hm o (md_store d) n). destruct (m o _) as [[a|e] [s n']]; cbv beta in Hm; subst s; by destruct d.
Qed.

Lemma busy_check_reads m : keeps reads_on (busy_check m).
Proof using.
  intros o w n. unfold busy_check. destruct (m o _) as [[a|e] [r n']]; exists []; rewrite app_nil_r; (split; [done|by change (view_good (bz_db w) (bz_db w))]).
Qed.

(** Walks the source down to its calls, and each call to its queries. *)
Ltac reads_step :=
  match goal with
  | |- keeps reads_on (busy_call _ _) => apply busy_call_reads
  | |- keeps reads_on (busy_check _) => apply busy_check_reads
  | |- keeps _ (of_store _) => apply of_store_reads
  | |- keeps _ _ => keep_step
  end.

Context (check : M R unit) (s : SQLiteSource).

Lemma readSnapshot_reads principal route : keeps reads_on (readSnapshot busy_call (busy_check check) s principal route).
Proof using interfere_steps.
  assert (Hp : forall ps, keeps reads_on (project_views busy_call principal ps)).
  { induction ps as [|p ps IH]; simpl; [keep_step|]. unfold ProjectMemberCount, ListGitHubTrusts, AuthorizeProject, getProject, or_not_found, or_error.
    repeat (exact IH || reads_step). }
  assert (Ho : forall selected ps, keeps reads_on (project_operations busy_call selected ps)).
  { intros selected. induction ps as [|p ps IH]; simpl; [keep_step|]. unfold ListJobs, ListBuilds. repeat (exact IH || reads_step). }
  unfold readSnapshot, operations, operation, resources, route_summary, getUser, ListQueue, ListAuditEvents, ListProjects, AuthorizeProject, getProject,
    getJob, getBuild, or_not_found, or_error, ListResourceSummaries, getResourceSummary, ListResourceSamples, ListResourceRollups.
  repeat (apply Hp || apply Ho || reads_step).
Qed.

(** The database that a reader of the revision saw. *)
Lemma busy_revision o w n r w' n' :
  busy_call _ (of_store CurrentRevision) o (w, n) = (Ok r, (w', n')) -> FeedInv (feed (md_store (bz_db w))) ->
  view_good (bz_db w) (bz_db w') /\ r = revision (bz_db w').
Proof using interfere_steps.
  intros E HI. pose proof (console_steps_view _ _ (interfere_steps (length (bz_reads w)) (bz_db w))) as Hg.
  unfold busy_call, of_store, CurrentRevision in E. simpl in E. unfold query, mbind, M_bind, may_fail in E.
  destruct (o_fault o n); [discriminate|]. simpl in E. injection E as <- <- <-. simpl. destruct (interfere _ _) as [db m] eqn:Ed. simpl in *.
  split; [exact Hg|]. apply revision_of_feed. destruct Hg as [Hg _]. by apply Hg.
Qed.

(** What a program leaves, from what it keeps. *)
Lemma keeps_result {A} (m : M (Busy R) A) o w n r w' n' : keeps reads_on m -> m o (w, n) = (r, (w', n')) -> reads_on w w'.
Proof using. intros Hk E. specialize (Hk o w n). rewrite E in Hk. by destruct r. Qed.

(** Readings between two equal revisions saw one state. *)
Lemma same_revision_same_view d reads d' :
  view_chain d reads d' -> revision d = revision d' ->
  Forall (fun x => revision x = revision d) reads /\ forall x y, x ∈ reads -> y ∈ reads -> view_of x = view_of y.
Proof using.
  intros Hc E. apply view_chain_good in Hc as [_ Hall].
  assert (Hr : forall x, x ∈ reads -> revision x = revision d) by (intros x Hx; destruct (Hall x Hx) as [(_ & ? & _) (_ & ? & _)]; lia).
  split; [by apply Forall_forall|]. intros x y Hx Hy. destruct (Hall x Hx) as [(_ & _ & Vx) _], (Hall y Hy) as [(_ & _ & Vy) _].
  by rewrite Vx, Vy by auto.
Qed.

Lemma attempts_consistent attempts principal route o : forall w n snap w' n',
  FeedInv (feed (md_store (bz_db w))) ->
  snapshot_attempts busy_call (busy_check check) s attempts principal route o (w, n) = (Ok snap, (w', n')) ->
  exists w1 n1 w2 n2 read reads,
    readSnapshot busy_call (busy_check check) s principal route o (w1, n1) = (Ok read, (w2, n2)) /\
    snap = with_revision (sn_Revision snap) read /\ bz_reads w2 = bz_reads w1 ++ reads /\
    Forall (fun d => revision d = sn_Revision snap) reads /\ forall d d', d ∈ reads -> d' ∈ reads -> view_of d = view_of d'.
Proof using interfere_steps.
  induction attempts as [|attempts IH]; intros w n snap w' n' HI E; [discriminate|]. cbn [snapshot_attempts] in E. unfold mbind, M_bind in E.
  destruct (busy_call _ _ o (w, n)) as [[before|e] [w1 n1]] eqn:E1; [|discriminate].
  destruct (readSnapshot _ _ _ _ _ o (w1, n1)) as [[read|e] [w2 n2]] eqn:E2; [|discriminate].
  destruct (busy_call _ _ o (w2, n2)) as [[after|e] [w3 n3]] eqn:E3; [|discriminate].
  destruct (busy_revision _ _ _ _ _ _ E1 HI) as [G1 ->]. assert (HI1 : FeedInv (feed (md_store (bz_db w1)))) by (by apply G1).
  destruct (keeps_result _ _ _ _ _ _ _ (readSnapshot_reads principal route) E2) as (reads & Er & Hc).
  destruct (view_chain_good _ _ _ Hc) as [G2 _]. assert (HI2 : FeedInv (feed (md_store (bz_db w2)))) by (by apply G2).
  destruct (busy_revision _ _ _ _ _ _ E3 HI2) as [G3 ->]. assert (HI3 : FeedInv (feed (md_store (bz_db w3)))) by (by apply G3).
  destruct (revision (bz_db w1) =? revision (bz_db w3)) eqn:Eq; [|by eapply IH]. apply Z.eqb_eq in Eq. injection E as <- <- <-.
  destruct G2 as (_ & L2 & _), G3 as (_ & L3 & _). destruct (same_revision_same_view _ _ _ Hc) as [Hr Hv]; [lia|].
  exists w1, n1, w2, n2, read, reads. split; [done|]. split; [done|]. split; [done|]. simpl. rewrite <- Eq. done.
Qed.

(** C4: a snapshot is of one state of the control plane.  Others call the store
    before every single read; when [Snapshot] returns all the same, all the reads
    of the snapshot it returns saw the same users, projects, members, trusts,
    audit events, jobs, builds, queue, change feed and resource summaries, at the
    revision that the snapshot reports. *)
Theorem snapshot_is_consistent principal route o w n snap w' n' :
  FeedInv (feed (md_store (bz_db w))) ->
  console_Snapshot busy_call (busy_check check) s principal route o (w, n) = (Ok snap, (w', n')) ->
  exists w1 n1 w2 n2 read reads,
    readSnapshot busy_call (busy_check check) s principal route o (w1, n1) = (Ok read, (w2, n2)) /\
    snap = with_revision (sn_Revision snap) read /\ bz_reads w2 = bz_reads w1 ++ reads /\
    Forall (fun d => revision d = sn_Revision snap) reads /\ forall d d', d ∈ reads -> d' ∈ reads -> view_of d = view_of d'.
Proof using interfere_steps. intros HI E. by eapply attempts_consistent. Qed.

End Interleaved.

(** ** What a principal sees *)

Lemma elem_of_take_any {A} n (l : list A) x : x ∈ take n l -> x ∈ l.
Proof. intros Hx. rewrite <- (take_drop n l). apply elem_of_app. by left. Qed.

Section Shown.
Context `{Pepper} `{CaseTables} `{CursorCodec} {R : Type} (o : Oracle).

(** The calls of the source when nobody interferes. *)
Definition quiet_call (A : Type) (m : MetricsM A) : M (MetricsDB * R) A := on_store m.

Definition accessible (principal : Principal) (t : Tables) (id : string) : Prop :=
  exists p, p ∈ projects t /\ pj_ID p = id /\ may_access principal t p = true.

Definition shown_project (principal : Principal) (t : Tables) (v : ProjectView) : Prop := accessible principal t (pv_ID v).
Definition shown_operation (principal : Principal) (t : Tables) (v : OperationView) : Prop :=
  (ov_Kind v = "job" /\ exists j, j ∈ control_jobs t /\ jr_id j = ov_ID v /\ accessible principal t (jr_project_id j)) \/
  (ov_Kind v = "build" /\ exists b, b ∈ control_builds t /\ br_id b = ov_ID v /\ accessible principal t (br_project_id b)).
Definition shown_queue (principal : Principal) (t : Tables) (v : QueueView) : Prop :=
  exists r, listed principal t r /\ qv_Kind v = kind_text (q_kind r) /\ qv_ID v = q_operation_id r.
Definition shown_event (principal : Principal) (t : Tables) (v : AuditView) : Prop :=
  exists a, a ∈ audit_events t /\ au_id a = av_ID v /\
    (audit_visible principal t a = true \/ (au_project_id a <> "" /\ accessible principal t (au_project_id a))).

Record shows (principal : Principal) (t : Tables) (n : Snapshot) : Prop := {
  sh_projects : Forall (shown_project principal t) (sv_Projects (sn_Session n));
  sh_queue : Forall (shown_queue principal t) (sn_Queue n);
  sh_operations : Forall (shown_operation principal t) (sn_Operations n);
  sh_operation : forall v, sn_Operation n = Some v -> shown_operation principal t (dv_Operation v);
  sh_audit : Forall (shown_event principal t) (sn_Audit n)
}.

(** [finds d m P]: on the database [d], [m] only reads and finds a [P]. *)
Definition finds {D A} (d : D) (m : M D A) (P : A -> Prop) : Prop := wp o m (fun a d' => d' = d /\ P a) (fun _ d' => d' = d) d.

Lemma finds_bind {D A B} (d : D) (m : M D A) (k : A -> M D B) P Q : finds d m P -> (forall a, P a -> finds d (k a) Q) -> finds d (m ≫= k) Q.
Proof using. intros Hm Hk. apply wp_bind. eapply wp_mono; [exact Hm| |done]. intros a d' [-> HP]. by apply Hk. Qed.

Lemma finds_keeps {D A} (d : D) (m : M D A) : keeps (=) m -> finds d m (fun _ => True).
Proof using. intros Hk. eapply wp_mono; [apply Hk| |]; by intros ? ? <-. Qed.

Lemma finds_of_store {A} (d : MetricsDB) (m : StoreM A) P : finds (md_store d) m P -> finds d (of_store m) P.
Proof using. intros Hm n. specialize (Hm n). unfold of_store. destruct (m o _) as [[a|e] [s' n']]; destruct d; simpl in *; naive_solver. Qed.

Lemma finds_query {D A} (d : D) (f : D -> A) (P : A -> Prop) : P (f d) -> finds d (query f) P.
Proof using. intros HP. by apply wp_query. Qed.

Lemma finds_ret {D A} (d : D) (a : A) (P : A -> Prop) : P a -> finds d (mret a) P.
Proof using. intros HP. by apply wp_ret. Qed.

Lemma finds_throw {D A} (d : D) e (P : A -> Prop) : finds d (throw e) P.
Proof using. by apply wp_throw. Qed.

(** The same for a program on the store and the runtime, which may change. *)
Definition sees {A} (d : MetricsDB) (m : M (MetricsDB * R) A) (P : A -> Prop) : Prop :=
  forall r, wp o m (fun a w => w.1 = d /\ P a) (fun _ w => w.1 = d) (d, r).

Lemma sees_bind {A B} d (m : M (MetricsDB * R) A) (k : A -> M (MetricsDB * R) B) P Q :
  sees d m P -> (forall a, P a -> sees d (k a) Q) -> sees d (m ≫= k) Q.
Proof using. intros Hm Hk r. apply wp_bind. eapply wp_mono; [exact (Hm r)| |done]. intros a [d' r'] [E HP]. simpl in E. subst d'. by apply Hk. Qed.

Lemma sees_call {A} d (m : MetricsM A) P : finds d m P -> sees d (quiet_call A m) P.
Proof using. intros Hm r. by apply wp_on_store. Qed.

Lemma sees_store {A} d (m : StoreM A) P : finds (md_store d) m P -> sees d (quiet_call A (of_store m)) P.
Proof using. intros Hm. by apply sees_call, finds_of_store. Qed.

Lemma sees_any {A} d (m : MetricsM A) : keeps (=) m -> sees d (quiet_call A m) (fun _ => True).
Proof using. intros Hm. by apply sees_call, finds_keeps. Qed.

Lemma sees_ret {A} d (a : A) (P : A -> Prop) : P a -> sees d (mret a) P.
Proof using. intros HP r. by apply wp_ret. Qed.
Lemma sees_throw {A} d e (P : A -> Prop) : sees d (throw e) P.
Proof using. intros r. by apply wp_throw. Qed.
Lemma sees_now d : sees d time_Now (fun _ => True).
Proof using. intros r. by apply wp_now. Qed.
Lemma sees_attempt {A} d (m : M (MetricsDB * R) A) P : sees d m P -> sees d (attempt m) (fun x => match x with Ok a => P a | Fail _ => True end).
Proof using. intros Hm r. apply wp_attempt. eapply wp_mono; [exact (Hm r)| |]; naive_solver. Qed.
Lemma sees_runtime {A} d (m : M R A) : sees d (on_runtime m) (fun _ => True).
Proof using. intros r. apply wp_on_runtime. intros n. by destruct (m o (r, n)) as [[a|e] [r' n']]. Qed.
Lemma sees_weaken {A} d (m : M (MetricsDB * R) A) (P Q : A -> Prop) : sees d m P -> (forall a, P a -> Q a) -> sees d m Q.
Proof using. intros Hm HPQ r. eapply wp_mono; [exact (Hm r)| |]; naive_solver. Qed.

Context (d : MetricsDB) (principal : Principal).
#[local] Abbreviation t := (tabs (md_store d)).

Lemma see_projects : sees d (quiet_call _ (of_store (ListProjects principal))) (Forall (fun p => p ∈ projects t /\ may_access principal t p = true)).
Proof using. apply sees_store. eapply wp_mono; [apply ListProjects_spec| |done]. intros ps d' [-> Hps]. split; [done|]. apply Forall_forall. intros p Hp. by apply Hps. Qed.

Lemma see_authorized selector :
  sees d (quiet_call _ (of_store (AuthorizeProject principal selector))) (fun p => p ∈ projects t /\ may_access principal t p = true /\ (pj_ID p = selector \/ pj_Slug p = selector)).
Proof using.
  apply sees_store. eapply wp_mono; [apply AuthorizeProject_spec| |by intros e d' [-> _]]. intros p d' (-> & Hf & Ha). split; [done|].
  apply head_Some_elem_of, elem_of_select in Hf as [Hp Hs]. split; [done|]. split; [done|]. apply orb_true_iff in Hs. rewrite !bool_decide_eq_true in Hs. naive_solver.
Qed.

Lemma see_job id : sees d (quiet_call _ (of_store (getJob id))) (fun j => exists row, row ∈ control_jobs t /\ jr_id row = id /\ j = scanJob row).
Proof using.
  apply sees_store. unfold getJob, or_not_found. apply wp_bind, wp_attempt, wp_fmap, wp_query_row; [|intros m Hm; by apply wp_throw].
  destruct (find_job id (md_store d)) as [row|] eqn:E; [apply wp_ret|by apply wp_throw]. apply head_Some_elem_of, elem_of_select in E as [Hr Hc].
  split; [done|]. exists row. split; [done|]. by apply bool_decide_eq_true in Hc.
Qed.

Lemma see_build id : sees d (quiet_call _ (of_store (getBuild id))) (fun b => exists row, row ∈ control_builds t /\ br_id row = id /\ b = scanBuild row).
Proof using.
  apply sees_store. unfold getBuild, or_not_found. apply wp_bind, wp_attempt, wp_fmap, wp_query_row; [|intros m Hm; by apply wp_throw].
  destruct (find_build id (md_store d)) as [row|] eqn:E; [apply wp_ret|by apply wp_throw]. apply head_Some_elem_of, elem_of_select in E as [Hr Hc].
  split; [done|]. exists row. split; [done|]. by apply bool_decide_eq_true in Hc.
Qed.

(** [AuthorizeProject] takes an identifier or a slug: no slug is the identifier
    of a project that a job or a build belongs to. *)
Definition plain_slugs (t : Tables) : Prop :=
  forall p, p ∈ projects t -> (forall j, j ∈ control_jobs t -> pj_Slug p <> jr_project_id j) /\ (forall b, b ∈ control_builds t -> pj_Slug p <> br_project_id b).

Lemma see_project_views ps :
  Forall (fun p => p ∈ projects t /\ may_access principal t p = true) ps -> sees d (project_views quiet_call principal ps) (Forall (shown_project principal t)).
Proof using.
  induction 1 as [|p ps [Hp Ha] _ IH]; simpl; [by apply sees_ret|].
  eapply sees_bind; [apply sees_any, of_store_reads; unfold ProjectMemberCount; repeat keep_step|]. intros members _.
  eapply sees_bind; [apply sees_any, of_store_reads; unfold ListGitHubTrusts, AuthorizeProject, getProject, or_not_found, or_error; repeat keep_step|]. intros trusts _.
  eapply sees_bind; [exact IH|]. intros views Hv. apply sees_ret. constructor; [by exists p|done].
Qed.

Lemma see_jobs id size : sees d (quiet_call _ (of_store (ListJobs id size "")))
  (fun page => Forall (fun j => exists row, row ∈ control_jobs t /\ jr_project_id row = id /\ j = scanJob row) (jp_Jobs page)).
Proof using.
  apply sees_store. unfold ListJobs. destruct (_ || _); [apply finds_throw|]. rewrite bool_decide_eq_true_2 by done.
  eapply finds_bind; [by apply finds_ret with (P := fun c => c = None)|]. intros cursor ->.
  eapply finds_bind; [apply finds_query with (P := Forall (fun row => row ∈ control_jobs t /\ jr_project_id row = id))|].
  { apply Forall_forall. intros row Hr%elem_of_take_any. rewrite order_by_perm in Hr. apply elem_of_select in Hr as [Hr _].
    apply elem_of_select in Hr as [Hr Hc]. by apply bool_decide_eq_true in Hc. }
  intros rows Hrows. assert (Hj : Forall (fun j => exists row, row ∈ control_jobs t /\ jr_project_id row = id /\ j = scanJob row) (map scanJob rows)).
  { apply Forall_map. eapply Forall_impl; [exact Hrows|]. intros row [? ?]. by exists row. }
  destruct (_ <? _); [|by apply finds_ret]. destruct (last _); [|apply finds_throw]. apply finds_ret. simpl. by apply Forall_take.
Qed.

Lemma see_builds id limit : sees d (quiet_call _ (of_store (ListBuilds id limit)))
  (Forall (fun b => exists row, row ∈ control_builds t /\ br_project_id row = id /\ b = scanBuild row)).
Proof using.
  apply sees_store. unfold ListBuilds. destruct (_ || _); [apply finds_throw|]. apply finds_query. apply Forall_map, Forall_forall.
  intros row Hr%elem_of_take_any. rewrite order_by_perm in Hr. apply elem_of_select in Hr as [Hr Hc]. apply bool_decide_eq_true in Hc. by exists row.
Qed.

Lemma see_operations selected ps :
  Forall (fun p => p ∈ projects t /\ may_access principal t p = true) ps ->
  sees d (operations quiet_call ps selected) (Forall (shown_operation principal t)).
Proof using.
  intros Hps. eapply sees_bind with (P := Forall (shown_operation principal t)).
  - induction Hps as [|p ps [Hp Ha] _ IH]; simpl; [by apply sees_ret|]. destruct (_ && _); [exact IH|].
    eapply sees_bind; [apply see_jobs|]. intros page Hj. eapply sees_bind; [apply see_builds|]. intros builds Hb. eapply sees_bind; [exact IH|].
    intros more Hm. apply sees_ret. assert (Hacc : accessible principal t (pj_ID p)) by (by exists p). apply Forall_app. split; [|apply Forall_app; split; [|done]].
    + apply Forall_map. eapply Forall_impl; [exact Hj|]. intros j (row & Hr & Hi & ->). left. split; [done|]. exists row. by rewrite Hi.
    + apply Forall_map. eapply Forall_impl; [exact Hb|]. intros b (row & Hr & Hi & ->). right. split; [done|]. exists row. by rewrite Hi.
  - intros all Hall. apply sees_ret. apply Forall_take. apply Forall_forall. intros v Hv. rewrite order_by_perm in Hv. revert v Hv. by apply Forall_forall.
Qed.

Lemma see_operation projectByID route : plain_slugs t ->
  sees d (operation quiet_call principal projectByID route) (fun r => shown_operation principal t (dv_Operation r.1)).
Proof using.
  intros Hs. unfold operation. case_bool_decide; [|case_bool_decide; [|apply sees_throw]].
  - eapply sees_bind; [apply see_job|]. intros job (row & Hr & Hi & ->). eapply sees_bind; [apply see_authorized|]. intros p (Hp & Ha & [Hid|Hslug]).
    + apply sees_ret. left. split; [done|]. exists row. split; [done|]. split; [done|]. by exists p.
    + by destruct (proj1 (Hs p Hp) row Hr).
  - eapply sees_bind; [apply see_build|]. intros build (row & Hr & Hi & ->). eapply sees_bind; [apply see_authorized|]. intros p (Hp & Ha & [Hid|Hslug]).
    + apply sees_ret. right. split; [done|]. exists row. split; [done|]. split; [done|]. by exists p.
    + by destruct (proj2 (Hs p Hp) row Hr).
Qed.

Lemma see_queue :
  sees d (quiet_call _ (of_store (ListQueue principal))) (Forall (fun i => exists r, listed principal t r /\ i = queue_item t r)).
Proof using.
  apply sees_store. eapply wp_mono; [apply ListQueue_spec| |done]. intros items d' (-> & rows & -> & _ & Hr). split; [done|].
  apply Forall_map, Forall_forall. intros r Hin. exists r. split; [by apply Hr|done].
Qed.

Lemma queue_views_shown projectByID selected items : forall index,
  Forall (fun i => exists r, listed principal t r /\ i = queue_item t r) items ->
  Forall (shown_queue principal t) (queue_views projectByID selected index items).
Proof using.
  induction items as [|item items IH]; intros index Hall; simpl; [constructor|]. apply Forall_cons in Hall as [(r & Hr & ->) Hall].
  apply Forall_app. split; [|by apply IH]. destruct (_ && _); [constructor|]. constructor; [|constructor]. by exists r.
Qed.

(** The events of a project, or all that the principal may read. *)
Lemma see_events selected limit :
  (selected = "" \/ exists p, p ∈ projects t /\ may_access principal t p = true /\ pj_ID p = selected) ->
  sees d (quiet_call _ (of_store (ListAuditEvents principal selected limit)))
    (Forall (fun e => exists a, a ∈ audit_events t /\ e = scanAudit a /\
       (audit_visible principal t a = true \/ (au_project_id a <> "" /\ accessible principal t (au_project_id a))))).
Proof using.
  intros Hsel. apply sees_store. unfold ListAuditEvents. destruct (_ || _); [apply finds_throw|].
  eapply finds_bind with (P := fun selection => forall a, selection t a = true -> audit_visible principal t a = true \/ (au_project_id a <> "" /\ accessible principal t (au_project_id a))).
  - case_bool_decide as E; simpl; [by apply finds_ret; auto|]. eapply finds_bind.
    + eapply wp_mono; [apply (AuthorizeProject_spec o principal selected)| |by intros e d' [-> _]]. intros p d' (-> & Hf & Ha). split; [done|]. exact (conj Hf Ha).
    + intros p [Hf Ha]. apply finds_ret. intros a Hc. unfold audit_of in Hc. apply andb_true_iff in Hc as [Hne Hid].
      rewrite negb_true_iff, bool_decide_eq_false in Hne. apply bool_decide_eq_true in Hid. right. split; [done|]. exists p. rewrite Hid.
      apply head_Some_elem_of, elem_of_select in Hf as [Hp _]. done.
  - intros selection Hc. apply finds_query. apply Forall_map, Forall_forall. intros a Ha%elem_of_take_any. rewrite order_by_perm in Ha.
    apply elem_of_select in Ha as [Ha Hs]. exists a. split; [done|]. split; [done|]. by apply Hc.
Qed.

Lemma augmented_shown summaries queue v : shown_operation principal t v -> shown_operation principal t (augment summaries queue v).
Proof using. unfold augment, augmentOperation, shown_operation. by destruct v. Qed.

Lemma see_resources route selected ops : sees d (resources quiet_call route selected ops) (fun _ => True).
Proof using.
  unfold resources. eapply sees_bind; [apply sees_now|]. intros now _. eapply sees_bind; [apply sees_any; unfold ListResourceSamples; repeat keep_step|].
  intros samples _. destruct (_ && _); [|by apply sees_ret]. eapply sees_bind; [apply sees_any; unfold ListResourceRollups; repeat keep_step|]. intros rollups _. by apply sees_ret.
Qed.

Lemma see_route_summary route summaries : sees d (route_summary quiet_call route summaries) (fun _ => True).
Proof using.
  unfold route_summary. destruct (_ || _); [by apply sees_ret|]. eapply sees_bind; [apply sees_attempt, sees_any; unfold getResourceSummary; repeat keep_step|].
  intros [x|[]] _; try (by apply sees_ret); apply sees_throw.
Qed.

Context (check : M R unit) (s : SQLiteSource).

Lemma see_snapshot route : plain_slugs t ->
  sees d (readSnapshot quiet_call (on_runtime check) s principal route) (shows principal t).
Proof using.
  intros Hs. unfold readSnapshot. eapply sees_bind; [apply see_projects|]. intros ps Hps.
  eapply sees_bind with (P := fun _ => True).
  { destruct (is_empty _); [by apply sees_ret|]. eapply sees_bind; [apply sees_any, of_store_reads; unfold getUser, or_not_found; repeat keep_step|]. intros u _. by apply sees_ret. }
  intros userName _. eapply sees_bind; [by apply see_project_views|]. intros views Hv.
  eapply sees_bind with (P := fun selected => selected = "" \/ exists p, p ∈ projects t /\ may_access principal t p = true /\ pj_ID p = selected).
  { case_bool_decide; [|apply sees_ret; by left]. eapply sees_bind; [apply see_authorized|]. intros p (Hp & Ha & _). apply sees_ret. right. by exists p. }
  intros selected Hsel. eapply sees_bind; [apply see_queue|]. intros items Hq. eapply sees_bind; [by apply see_operations|]. intros ops Ho.
  eapply sees_bind; [apply sees_any; unfold ListResourceSummaries; repeat keep_step|]. intros summaries _.
  eapply sees_bind; [apply see_route_summary|]. intros byOperation _. eapply sees_bind; [apply see_resources|]. intros res _.
  eapply sees_bind with (P := fun r => forall v, r.1 = Some v -> shown_operation principal t (dv_Operation v)).
  { case_bool_decide; [|by apply sees_ret]. eapply sees_bind; [by apply see_operation|]. intros [detail byID] Hd. apply sees_ret. intros v [= <-]. by apply augmented_shown. }
  intros [detail byID] Hd. eapply sees_bind; [by apply see_events|]. intros audits Ha.
  eapply sees_bind; [apply sees_attempt, sees_runtime|]. intros checked _.
  assert (Hfin : forall status message, sees d (now ← time_Now; mret (mkSnapshot 0 (mkSessionView userName (pr_Admin principal) views)
    (mkServiceView "Autback" (sq_version s) "CLI only" "One at a time" (sq_startedAt s))
    (mkWorkerView status "1 operation" (active_id (queue_views (project_map ps) selected 0 items)) now) zero_time res (queue_views (project_map ps) selected 0 items)
    (map (augment byOperation (queue_map (queue_views (project_map ps) selected 0 items))) ops) detail (mkLogView false false [])
    (map (audit_view principal userName byID) audits) (mkStatusView true (rt_Kind route) message now))) (shows principal t)).
  { intros status message. eapply sees_bind; [apply sees_now|]. intros now _. apply sees_ret. split; simpl; [done|by apply queue_views_shown| |done|].
    - apply Forall_map. eapply Forall_impl; [exact Ho|]. intros v Hv'. by apply augmented_shown.
    - apply Forall_map. eapply Forall_impl; [exact Ha|]. intros e (a & Hin & -> & Hc). by exists a. }
  destruct checked; apply Hfin.
Qed.

Lemma see_attempts attempts route : plain_slugs t ->
  sees d (snapshot_attempts quiet_call (on_runtime check) s attempts principal route) (shows principal t).
Proof using.
  intros Hs. induction attempts as [|attempts IH]; cbn [snapshot_attempts]; [apply sees_throw|].
  assert (Hrev : sees d (quiet_call Z (of_store CurrentRevision)) (fun _ => True)) by (apply sees_any, of_store_reads; unfold CurrentRevision; repeat keep_step).
  eapply sees_bind; [exact Hrev|]. intros before _. eapply sees_bind; [by apply see_snapshot|]. intros snap Hsnap. eapply sees_bind; [exact Hrev|]. intros after _.
  destruct (_ =? _); [|exact IH]. apply sees_ret. by destruct Hsnap.
Qed.


End Shown.

(** ** A page that catches up *)

(** The phase of the stream behind a page: waiting for a wake-up, or reading a
    snapshot since a moment with the given revision. *)
Inductive PagePhase := Waiting | Reading (since : Z).

(** The database, the notifier with the subscription of the page, the phase,
    and the revision that the page shows. *)
Record PageState := mkPageState { pg_db : MetricsDB; pg_notifier : Notifier; pg_phase : PagePhase; pg_shown : option Z }.

Section CatchUp.
Context `{Pepper} `{CaseTables} `{SqlAggregates} (id : Z).

Definition pending (n : Notifier) : bool := (ChangeFeed.receive id n).1.

(** The revision on the page after a snapshot of revision [r] was read. *)
Definition show (r : Z) (shown : option Z) : option Z :=
  match shown with Some old => if r <=? old then shown else Some r | None => Some r end.

(** The steps of the stream: it takes its wake-up, and it finishes a snapshot
    whose revision was current at some point of its reading. *)
Inductive page_step : PageState -> PageState -> Prop :=
| pg_wake d n shown : pending n = true -> page_step (mkPageState d n Waiting shown) (mkPageState d (ChangeFeed.receive id n).2 (Reading (revision d)) shown)
| pg_read d n since r shown : since <= r <= revision d -> page_step (mkPageState d n (Reading since) shown) (mkPageState d n Waiting (show r shown)).

(** The steps of others: calls on the store, whose commits wake the subscribers,
    and other subscribers. *)
Inductive others_step : PageState -> PageState -> Prop :=
| po_call d d' n phase shown : console_step d d' ->
    others_step (mkPageState d n phase shown) (mkPageState d' (commit_hook (negb (revision d' =? revision d)) n) phase shown)
| po_subscribe d n phase shown : others_step (mkPageState d n phase shown) (mkPageState d (subscribe n).2 phase shown)
| po_unsubscribe d n other phase shown : other <> id -> others_step (mkPageState d n phase shown) (mkPageState d (unsubscribe other n) phase shown)
| po_receive d n other phase shown : other <> id -> others_step (mkPageState d n phase shown) (mkPageState d (ChangeFeed.receive other n).2 phase shown).

(** A page subscribes before it reads its first snapshot. *)
Inductive page_reachable : PageState -> Prop :=
| pr_start d n n' : subscribe n = (id, n') -> page_reachable (mkPageState d n' (Reading (revision d)) None)
| pr_page p p' : page_reachable p -> page_step p p' -> page_reachable p'
| pr_others p p' : page_reachable p -> others_step p p' -> page_reachable p'.

Definition subscribed (n : Notifier) : Prop := exists flag, (id, flag) ∈ nf_subscribers n.

Lemma pending_spec n : pending n = true <-> (id, true) ∈ nf_subscribers n.
Proof using.
  unfold pending, ChangeFeed.receive. simpl. rewrite existsb_exists. split.
  - intros ([j flag] & Hin & Hc). apply andb_true_iff in Hc as [Hj Hf]. simpl in *. apply Z.eqb_eq in Hj. subst. by apply list_elem_of_In.
  - intros Hin. exists (id, true). split; [by apply list_elem_of_In|]. simpl. by rewrite Z.eqb_refl.
Qed.

(** What other subscribers do leaves the subscription and its wake-up alone. *)
Lemma others_keep n n' :
  n' = (subscribe n).2 \/ (exists other, other <> id /\ (n' = unsubscribe other n \/ n' = (ChangeFeed.receive other n).2)) ->
  (subscribed n -> subscribed n') /\ (pending n = true -> pending n' = true).
Proof using.
  rewrite !pending_spec. assert (Hkeep : (forall flag, (id, flag) ∈ nf_subscribers n -> (id, flag) ∈ nf_subscribers n') ->
    (subscribed n -> subscribed n') /\ ((id, true) ∈ nf_subscribers n -> (id, true) ∈ nf_subscribers n')).
  { intros Hk. split; [|apply Hk]. intros [flag Hf]. exists flag. by apply Hk. }
  intros [->|(other & Ho & [->| ->])]; apply Hkeep; intros flag Hf; simpl.
  - apply elem_of_app. by left.
  - unfold delete_where. apply list_elem_of_In, filter_In. split; [by apply list_elem_of_In|]. simpl. by apply negb_true_iff, Z.eqb_neq; auto.
  - change (map ?f ?l) with (f <$> l). apply list_elem_of_fmap. exists (id, flag). split; [|done]. simpl.
    assert (E : (id =? other) = false) by (by apply Z.eqb_neq; auto). by rewrite E.
Qed.

(** Without a pending wake-up nothing changed since the snapshot was begun, or
    the page shows the latest revision; what it shows is never ahead. *)
Record page_inv (p : PageState) : Prop := {
  pi_subscribed : subscribed (pg_notifier p);
  pi_behind : forall r, pg_shown p = Some r -> r <= revision (pg_db p);
  pi_fresh : pending (pg_notifier p) = true \/
    match pg_phase p with Waiting => pg_shown p = Some (revision (pg_db p)) | Reading since => since = revision (pg_db p) end;
  pi_since : forall since, pg_phase p = Reading since -> since <= revision (pg_db p)
}.

Lemma show_behind r shown d : r <= d -> (forall x, shown = Some x -> x <= d) -> forall x, show r shown = Some x -> x <= d.
Proof using. intros Hr Hs x. unfold show. destruct shown as [old|]; [destruct (r <=? old)|]; intros E; [by apply Hs|by injection E as <-|by injection E as <-]. Qed.

Lemma page_step_inv p p' : page_inv p -> page_step p p' -> page_inv p'.
Proof using.
  intros [Hs Hb Hf Hsi] Hp. destruct Hp as [d n shown Hpend | d n since r shown [H1' H2']]; simpl in *.
  - split; simpl; [|done|by right|intros since [= <-]; lia].
    destruct Hs as [flag Hin]. exists false. change (map ?f ?l) with (f <$> l). apply list_elem_of_fmap. exists (id, flag). simpl. by rewrite Z.eqb_refl.
  - split; simpl; [done|by eapply show_behind| |done]. destruct Hf as [Hf|Hf]; [by left|right]; subst since. assert (r = revision d) as -> by lia.
    unfold show. destruct shown as [old|]; [|done]. specialize (Hb old eq_refl). destruct (Z.leb_spec (revision d) old); [|done]. f_equal. lia.
Qed.

Lemma others_step_inv p p' : page_inv p -> others_step p p' -> page_inv p'.
Proof using.
  intros [Hs Hb Hf Hsi] Hp.
  assert (Hother : forall d n n' phase shown, p = mkPageState d n phase shown -> p' = mkPageState d n' phase shown ->
    n' = (subscribe n).2 \/ (exists other, other <> id /\ (n' = unsubscribe other n \/ n' = (ChangeFeed.receive other n).2)) -> page_inv p').
  { intros d n n' phase shown -> -> Hk. destruct (others_keep _ _ Hk) as [K1 K2]. simpl in *. split; simpl; [auto|done| |done]. destruct Hf; [left; auto|by right]. }
  destruct Hp as [d d' n phase shown Hstep | d n phase shown | d n other phase shown Ho | d n other phase shown Ho].
  2-4: eapply Hother; [reflexivity|reflexivity|]; naive_solver.
  destruct (console_step_view _ _ Hstep) as (_ & Hle & _). simpl in *. destruct (Z.eqb_spec (revision d') (revision d)) as [E|E]; simpl.
  - split; simpl; [done|by rewrite E|by rewrite E|by rewrite E].
  - destruct Hs as [flag Hin]. assert (Hn : (id, true) ∈ nf_subscribers (notify n)).
    { unfold notify. simpl. change (map ?f ?l) with (f <$> l). apply list_elem_of_fmap. by exists (id, flag). }
    split; simpl; [by exists true| |left; by apply pending_spec|].
    + intros r Hr. specialize (Hb r Hr). lia.
    + intros since Hp. specialize (Hsi since Hp). lia.
Qed.

Lemma page_reachable_inv p : page_reachable p -> page_inv p.
Proof using.
  induction 1 as [d n n' E|p p' _ IH Hstep|p p' _ IH Hstep]; [|by eapply page_step_inv|by eapply others_step_inv].
  unfold subscribe in E. injection E as Eid <-. split; simpl; [|done|by right|intros since [= <-]; lia].
  exists false. simpl. rewrite Eid. apply elem_of_app. right. by apply list_elem_of_singleton.
Qed.


End CatchUp.

(** ** Routes *)

(** A page updates itself from the route it was rendered for. *)
Lemma route_round_trip route : validateRoute route = true -> query_route (updates_query route) = route.
Proof.
  destruct route as [kind project operationKind operationID]. unfold validateRoute, updates_query, query_route, Get, is_empty. simpl.
  repeat case_bool_decide; simpl; intros Hv; try discriminate Hv; subst; done || reflexivity.
Qed.

(** ** The tail of a log *)

Definition tail_of (limit : Z) (all : list Z) : list Z := drop (length all - Z.to_nat limit) all.
Definition tail_all (chunks : list (list Z)) (w : tailWriter) : tailWriter := fold_left (fun w c => tail_Write c w) chunks w.

Lemma tail_Write_spec limit all input w :
  0 < limit -> tw_limit w = limit -> tw_bytes w = tail_of limit all ->
  (limit < length64 all -> tw_truncated w = true) -> (tw_truncated w = true -> limit <= length64 all) ->
  let w' := tail_Write input w in
  tw_limit w' = limit /\ tw_bytes w' = tail_of limit (all ++ input) /\
  (limit < length64 (all ++ input) -> tw_truncated w' = true) /\ (tw_truncated w' = true -> limit <= length64 (all ++ input)).
Proof.
  intros Hl El Eb Ht Ht' w'. unfold w', tail_Write. rewrite El. unfold length64, tail_of in *. rewrite length_app.
  destruct (Z.leb_spec limit 0) as [?|_]; [lia|]. destruct (Z.leb_spec limit (Z.of_nat (length input))) as [Hin|Hin]; simpl.
  - split; [done|]. split; [|split; [done|lia]]. rewrite drop_app_ge by lia. f_equal. lia.
  - assert (Elen : length (tw_bytes w) = (length all `min` Z.to_nat limit)%nat) by (rewrite Eb, length_drop; lia).
    destruct (Z.ltb_spec 0 (Z.of_nat (length (tw_bytes w)) + Z.of_nat (length input) - limit)) as [Hov|Hov]; simpl.
    + split; [done|]. split; [|split; [done|lia]]. rewrite drop_app_le by lia. f_equal. rewrite Elen. rewrite Eb, drop_drop. f_equal. lia.
    + split; [done|]. split; [|split; [intros Hx; apply Ht; lia|intros Hx; specialize (Ht' Hx); lia]]. rewrite drop_app_le by lia. rewrite Eb. f_equal. f_equal. lia.
Qed.

(** Whatever the chunks, the writer holds the last bytes of the log, all of them
    when they fit; a longer log is reported as truncated, and one that is shorter
    than the limit is not. *)
Lemma tail_is_exact limit chunks :
  0 < limit ->
  let w := tail_all chunks (mkTail limit [] false) in
  tw_bytes w = tail_of limit (concat chunks) /\ (limit < length64 (concat chunks) -> tw_truncated w = true) /\
  (tw_truncated w = true -> limit <= length64 (concat chunks)).
Proof.
  intros Hl. assert (Hg : forall chunks all w, tw_limit w = limit -> tw_bytes w = tail_of limit all ->
    (limit < length64 all -> tw_truncated w = true) -> (tw_truncated w = true -> limit <= length64 all) ->
    let w' := tail_all chunks w in
    tw_bytes w' = tail_of limit (all ++ concat chunks) /\ (limit < length64 (all ++ concat chunks) -> tw_truncated w' = true) /\
    (tw_truncated w' = true -> limit <= length64 (all ++ concat chunks))).
  { clear chunks. induction chunks as [|c chunks IH]; intros all w E1 E2 E3 E4; simpl; [by rewrite app_nil_r|]. rewrite app_assoc.
    destruct (tail_Write_spec limit all c w Hl E1 E2 E3 E4) as (F1 & F2 & F3 & F4). by apply IH. }
  apply (Hg chunks [] (mkTail limit [] false)); try done. unfold length64. simpl. lia.
Qed.

(** A log that ends exactly at the limit of one chunk is reported as truncated
    although all of it is there. *)
Lemma full_tail_is_called_truncated : tail_Write [1; 2; 3] (mkTail 3 [] false) = mkTail 3 [1; 2; 3] true.
Proof. reflexivity. Qed.

(** ** Statistics *)

Lemma rank95_bounds n : 0 < n -> 1 <= rank95 n <= n /\ 95 * n <= 100 * rank95 n < 95 * n + 100.
Proof. intros Hn. unfold rank95. rewrite Z.quot_div_nonneg by lia. pose proof (Z.div_mod (95 * n + 99) 100). pose proof (Z.mod_pos_bound (95 * n + 99) 100). lia. Qed.

Lemma count_perm {A} (p : A -> bool) l l' : l ≡ₚ l' -> count p l = count p l'.
Proof. unfold count, select. induction 1; simpl; repeat case_match; simpl in *; congruence || lia. Qed.

Lemma count_app {A} (p : A -> bool) l l' : count p (l ++ l') = (count p l + count p l')%nat.
Proof. unfold count. by rewrite select_app, length_app. Qed.

Lemma count_le {A} (p : A -> bool) l : (count p l <= length l)%nat.
Proof. unfold count, select. induction l as [|x l IH]; simpl; [lia|]. destruct (p x); simpl; lia. Qed.

Lemma count_all {A} (p : A -> bool) l : (forall x, x ∈ l -> p x = true) -> count p l = length l.
Proof. intros Hp. unfold count, select. by rewrite filter_all. Qed.

(** The element of a sorted list splits it. *)
Lemma sorted_split l i v : StronglySorted Z.le l -> l !! i = Some v ->
  (forall x, x ∈ take i l -> x <= v) /\ (forall x, x ∈ drop i l -> v <= x).
Proof.
  intros Hs Hi. revert i Hi. induction Hs as [|y l Hs IH Hy]; intros i Hi; [done|]. rewrite Forall_forall in Hy. destruct i as [|i]; simpl in *.
  - injection Hi as ->. split; [intros x Hx; by apply not_elem_of_nil in Hx|]. intros x [->|Hx]%elem_of_cons; [lia|by apply Hy].
  - destruct (IH i Hi) as [H1 H2]. split; [|exact H2]. intros x [->|Hx]%elem_of_cons; [|by apply H1]. apply Hy. by eapply list_elem_of_lookup_2.
Qed.

(** [percentile95] is the nearest-rank percentile: one of the values, such that
    at least 95 of 100 values are not above it, and fewer are below it. *)
Lemma percentile_is_nearest_rank values : values <> [] ->
  let v := percentile95 values in
  v ∈ values /\ 95 * Z.of_nat (length values) <= 100 * Z.of_nat (count (fun x => x <=? v) values) /\
  100 * Z.of_nat (count (fun x => x <? v) values) < 95 * Z.of_nat (length values).
Proof.
  intros Hne v. set (n := Z.of_nat (length values)). assert (Hn : 0 < n) by (destruct values; [done|unfold n; simpl; lia]).
  destruct (rank95_bounds n Hn) as [Hr1 Hr2]. set (l := order_by Z.leb values). assert (Hp : l ≡ₚ values) by apply order_by_perm.
  assert (Hlen : Z.of_nat (length l) = n) by (unfold n; by rewrite Hp). set (i := Z.to_nat (rank95 n - 1)).
  destruct (lookup_lt_is_Some_2 l i) as [x Hx]; [unfold i; lia|]. assert (Ev : v = x).
  { unfold v, percentile95. destruct values; [done|]. fold n l i. by rewrite Hx. }
  assert (Hs : StronglySorted Z.le l).
  { eapply StronglySorted_weaken; [|apply (order_by_sorted Z.leb)]; [intros a b; apply Z.leb_le|intros a b; rewrite !Z.leb_le; lia|intros a b c; rewrite !Z.leb_le; lia]. }
  destruct (sorted_split l i x Hs Hx) as [Hbefore Hafter]. split; [|split].
  - rewrite Ev, <- Hp. by eapply list_elem_of_lookup_2.
  - rewrite Ev, <- (count_perm _ _ _ Hp), <- (take_drop (S i) l), count_app, (count_all _ (take (S i) l)).
    + rewrite length_take. unfold i. lia.
    + intros y Hy. rewrite (take_S_r _ _ _ Hx) in Hy. apply Z.leb_le. apply elem_of_app in Hy as [Hy|Hy]; [by apply Hbefore|]. apply list_elem_of_singleton in Hy. lia.
  - rewrite Ev, <- (count_perm _ _ _ Hp), <- (take_drop i l), count_app, (count_none (drop i l)).
    + pose proof (count_le (fun y => y <? x) (take i l)) as Hc. rewrite length_take in Hc. unfold i in *. lia.
    + intros y Hy. apply Z.ltb_ge. by apply Hafter.
Qed.

(** The samples that a page draws are at most [limit]. *)
Lemma group_views_length fuel step samples : (0 < step)%nat -> (length (group_views fuel step samples) * step < length samples + step)%nat \/ samples = [].
Proof.
  intros Hs. revert samples. induction fuel as [|fuel IH]; intros [|first rest]; simpl; [by right|left; lia|by right|left].
  destruct (IH (drop (step - 1) rest)) as [Hl|Hl].
  - rewrite length_drop in Hl. destruct (decide (step - 1 <= length rest)%nat); [lia|]. assert (drop (step - 1) rest = []) as E by (apply drop_ge; lia).
    rewrite E in *. destruct fuel; simpl in *; lia.
  - rewrite Hl. destruct fuel; simpl; lia.
Qed.

Lemma sample_views_bounded samples limit : Z.of_nat (length (resourceSampleViews samples limit)) <= Z.max 0 limit.
Proof.
  unfold resourceSampleViews. destruct (Z.ltb_spec limit 1); simpl; [lia|]. destruct (Z.eqb_spec (Z.of_nat (length samples)) 0) as [|Hz]; simpl; [lia|].
  set (n := Z.of_nat (length samples)) in *. unfold group_step_of. destruct (Z.ltb_spec limit n) as [Hn|Hn].
  - rewrite Z.quot_div_nonneg by lia. set (step := (n + limit - 1) / limit). pose proof (Z.div_mod (n + limit - 1) limit ltac:(lia)) as Hd.
    pose proof (Z.mod_pos_bound (n + limit - 1) limit ltac:(lia)) as Hm. fold step in Hd. assert (0 < step) by nia.
    destruct (group_views_length (length samples) (Z.to_nat step) samples) as [Hl|Hl]; [lia| |rewrite Hl; simpl; lia].
    set (k := length (group_views _ _ _)) in *. assert (Z.of_nat k * step < n + step) by (unfold n; nia). nia.
  - destruct (group_views_length (length samples) 1 samples) as [Hl|Hl]; [lia| |rewrite Hl; simpl; lia]. change (Z.to_nat 1) with 1%nat. lia.
Qed.

(** ** The stream of a page *)

Section Stream.
Context `{Pepper} `{CaseTables} `{CursorCodec} {R : Type} (o : Oracle) (check : M R unit) (s : SQLiteSource) (principal : Principal) (route : Route).

(** The store, the runtime, and the patches that were sent. *)
#[local] Abbreviation Session := ((MetricsDB * R) * list Patch)%type.
Definition session_call (A : Type) (m : MetricsM A) : M Session A := on_store (on_store m).
Definition session_check : M Session unit := on_store (on_runtime check).
Definition session_send (p : Patch) : M Session unit := on_runtime (statement (fun sent => Ok (tt, sent ++ [p]))).

Definition same_sent (w w' : Session) : Prop := w'.2 = w.2.
#[local] Instance same_sent_preorder : PreOrder same_sent.
Proof using. split; [done|]. intros w1 w2 w3 E1 E2. unfold same_sent in *. congruence. Qed.

Lemma on_store_sent {A} (m : M (MetricsDB * R) A) : keeps same_sent (on_store m).
Proof using. intros o' [w sent]. apply wp_on_store. intros n. by destruct (m o' (w, n)) as [[a|e] [w' n']]. Qed.

Lemma snapshot_sent : keeps same_sent (console_Snapshot session_call session_check s principal route).
Proof using.
  assert (Hc : forall A (m : MetricsM A), keeps same_sent (session_call A m)) by (intros; apply on_store_sent).
  assert (Hch : keeps same_sent session_check) by apply on_store_sent.
  assert (Hp : forall ps, keeps same_sent (project_views session_call principal ps)).
  { induction ps as [|p ps IH]; simpl; repeat (exact IH || apply Hc || keep_step). }
  assert (Ho : forall selected ps, keeps same_sent (project_operations session_call selected ps)).
  { intros selected. induction ps as [|p ps IH]; simpl; repeat (exact IH || apply Hc || keep_step). }
  assert (Hr : keeps same_sent (readSnapshot session_call session_check s principal route)).
  { unfold readSnapshot, operations, operation, resources, route_summary. repeat (apply Hp || apply Ho || apply Hc || apply Hch || keep_step). }
  unfold console_Snapshot. generalize 5%nat as attempts. induction attempts as [|attempts IH]; cbn [snapshot_attempts]; repeat (exact IH || apply Hc || exact Hr || keep_step).
Qed.

(** The revisions of the snapshots among the patches. *)
Definition patch_revision (p : Patch) : option Z := match p with Whole n | Refresh n => Some (sn_Revision n) | _ => None end.
Definition sent_revisions (sent : list Patch) : list Z := omap patch_revision sent.

Definition ahead (revision : Z) (sent sent' : list Patch) : Prop :=
  exists more, sent' = sent ++ more /\ StronglySorted Z.lt (revision :: sent_revisions more).

Lemma ahead_nil revision sent : ahead revision sent sent.
Proof using. exists []. split; [by rewrite app_nil_r|]. repeat constructor. Qed.

Lemma ahead_step revision p sent sent' :
  match patch_revision p with Some r => revision < r /\ ahead r (sent ++ [p]) sent' | None => ahead revision (sent ++ [p]) sent' end ->
  ahead revision sent sent'.
Proof using.
  intros Hp. destruct (patch_revision p) as [r|] eqn:E; [destruct Hp as [Hr (more & -> & Hs)]|destruct Hp as (more & -> & Hs)];
    (exists (p :: more); split; [by rewrite <- app_assoc|]; unfold sent_revisions; simpl; rewrite E); [|exact Hs].
  apply StronglySorted_inv in Hs as Hs'. destruct Hs' as [_ Hall]. constructor; [exact Hs|]. constructor; [done|]. eapply Forall_impl; [exact Hall|]. intros x Hx. simpl in Hx. lia.
Qed.

(** A patch that was sent, or was not. *)
Lemma wp_send p (Q : res unit -> Session -> Prop) E w sent :
  Q (Ok tt) (w, sent ++ [p]) -> (forall e, Q (Fail e) (w, sent)) -> wp o (attempt (session_send p)) Q E (w, sent).
Proof using. intros H1' H2'. apply wp_attempt, wp_on_runtime, wp_statement; [exact H1'|]. intros; apply H2'. Qed.

(** The snapshots on a stream get newer: no page is set back. *)
Lemma stream_moves_forward events : forall following revision w sent,
  wp o (updates_loop session_call session_check s session_send principal route events following revision)
    (fun _ w' => ahead revision sent w'.2) (fun _ _ => False) (w, sent).
Proof using.
  induction events as [|event events IH]; intros following revision w sent; simpl; [apply wp_ret, ahead_nil|].
  assert (Hsend : forall w p follow revision', match patch_revision p with Some r => revision < r /\ r = revision' | None => revision' = revision end ->
    wp o (sent' ← attempt (session_send p); match sent' with Ok _ => updates_loop session_call session_check s session_send principal route events follow revision' | Fail _ => mret tt end)
      (fun _ w' => ahead revision sent w'.2) (fun _ _ => False) (w, sent)).
  { clear w. intros w p follow revision' Hp. apply wp_bind, wp_send; [|intros e; apply wp_ret, ahead_nil]. eapply wp_mono; [apply IH| |done]. intros u w' Ha. cbv beta in Ha.
    apply (ahead_step _ p). destruct (patch_revision p); [destruct Hp as [Hlt Hp]; by rewrite Hp in *|by rewrite Hp in Ha]. }
  destruct event as [| |view|open].
  - apply wp_ret, ahead_nil.
  - apply wp_bind, wp_now. intros now. by apply Hsend.
  - destruct following; [|apply IH]. destruct view as [view|]; [by apply Hsend|apply IH].
  - destruct open; [|apply wp_ret, ahead_nil]. apply wp_bind, wp_attempt. eapply wp_mono; [apply snapshot_sent| |];
      [|intros e [w' sent'] Hs; unfold same_sent in Hs; simpl in Hs; subst sent'; apply wp_ret, ahead_nil].
    intros next [w' sent'] Hs. unfold same_sent in Hs. simpl in Hs. subst sent'. destruct (Z.leb_spec (sn_Revision next) revision); [apply IH|].
    apply wp_bind, wp_now. intros now. by apply Hsend.
Qed.

End Stream.

(** ** The last view of a log *)

Lemma publish_to_output reads t : lt_output (publish_to reads t) = Some (log_view (lt_tail t)) /\ lt_tail (publish_to reads t) = lt_tail t /\ lt_published (publish_to reads t) = true.
Proof. unfold publish_to, take_view. destruct (lt_output t) eqn:E, reads; simpl; by rewrite ?E. Qed.

Lemma wp_publish o (Q : unit -> LogTail -> Prop) E t : (forall reads, Q tt (publish_to reads t)) -> wp o publish Q E t.
Proof. intros HQ n. apply HQ. Qed.

(** The writer has seen [all], and has published its view if it was written to. *)
Definition tails (all : list (list Z)) (t : LogTail) : Prop :=
  lt_tail t = tail_all all (mkTail maxLogTailBytes [] false) /\ (lt_published t = true -> lt_output t = Some (log_view (lt_tail t))) /\
  (all <> [] -> lt_published t = true).

Lemma wp_live_chunks o chunks : forall all t, tails all t -> wp o (live_chunks chunks) (fun _ t' => tails (all ++ chunks) t') (fun _ _ => False) t.
Proof.
  induction chunks as [|data chunks IH]; intros all t Ht; simpl; [apply wp_ret; by rewrite app_nil_r|].
  replace (all ++ data :: chunks) with ((all ++ [data]) ++ chunks) by (by rewrite <- app_assoc). unfold live_Write.
  apply wp_bind, wp_bind, wp_get_db, wp_bind, wp_put_db, wp_publish. intros reads. apply IH.
  destruct Ht as (Ht & _ & _), (publish_to_output reads (mkLogTail (tail_Write data (lt_tail t)) (lt_published t) (lt_output t) (lt_received t))) as (P1 & P2 & P3).
  split; [|split]; [|by rewrite P2|done]. rewrite P2. simpl. unfold tail_all in *. by rewrite Ht, fold_left_app.
Qed.

(** When the log of a finished job can be read, the view that waits for the page
    is its tail. *)
Lemma final_log_is_shown {R : Type} `{LogSource R} o id chunks d (r : R) t :
  (forall r, wp o (ls_Logs id false) (fun a _ => a = (chunks, None)) (fun _ _ => False) r) ->
  wp o (readFinalLog id)
    (fun _ w => exists v, lt_output w.2 = Some v /\ lv_Available v = true /\ lv_Content v = tail_of maxLogTailBytes (concat chunks))
    (fun _ _ => False) ((d, r), t).
Proof.
  intros Hlog. unfold readFinalLog, live_Logs. apply wp_bind, wp_on_runtime, wp_bind, wp_get_db, wp_put_db.
  apply wp_bind, wp_attempt, wp_bind, wp_on_store, wp_on_runtime. eapply wp_mono; [apply Hlog| |done]. intros [chunks' e] r' [= -> ->]. simpl.
  apply wp_bind, wp_on_runtime. eapply wp_mono; [apply (wp_live_chunks o chunks []); by repeat split| |done].
  intros u t' (Ht & Hout & _). cbv beta. apply wp_ret. apply wp_bind, wp_on_runtime, wp_get_db.
  assert (Hlim : 0 < maxLogTailBytes) by done. pose proof (tail_is_exact maxLogTailBytes chunks Hlim) as [Hb _]. simpl in Ht. rewrite <- Ht in Hb.
  destruct (lt_published t') eqn:Ep.
  - apply wp_ret. exists (log_view (lt_tail t')). split; [by apply Hout|]. split; [done|exact Hb].
  - apply wp_on_runtime, wp_publish. intros reads. destruct (publish_to_output reads t') as (P1 & _). simpl. rewrite P1. eauto.
Qed.

(** ** A concrete console *)

#[local] Instance console_pepper : Pepper := {| digest := fun s => s |}.
#[local] Instance console_case : CaseTables := {| unicode_lower := fun s => s; unicode_upper := fun s => s |}.
#[local] Instance console_sums : SqlAggregates := {| sql_sum l := fold_left f_add l f_zero |}.
#[local] Existing Instance demo_codec.

Definition console_db : MetricsDB :=
  mkMetricsDB (mkDB (set_users [mkUser "usr1" "Ada" false 0] (tabs listing_db)) (mkFeed [] 0)) empty_metrics.
Definition console_user : Principal := mkPrincipal PrincipalDevice "tok1" "usr1" "" false "".
Definition console_source : SQLiteSource := mkSource "v1" 0.
Definition overview : Route := mkRoute RouteOverview "" "" "".
Definition healthy : M unit unit := mret tt.

(** Another process admits an operation while the third read is prepared. *)
Definition meddle (k : nat) (d : MetricsDB) : MetricsDB :=
  if Nat.eqb k 3 then mkMetricsDB (run_call CallAcquireNextOperation pages_oracle (md_store d, 0%nat)).2.1 (md_metrics d) else d.

Lemma meddle_steps k d : rtc console_step d (meddle k d).
Proof.
  unfold meddle. destruct (Nat.eqb k 3); [|reflexivity]. destruct (run_call CallAcquireNextOperation pages_oracle (md_store d, 0%nat)) as [r [d' n']] eqn:E.
  apply rtc_once, cs_control. by eapply step_queue.
Qed.

Lemma meddled_revision :
  match console_Snapshot (busy_call meddle) (busy_check healthy) console_source console_user overview pages_oracle (mkBusy _ console_db tt [], 0%nat) with
  | (Ok snap, _) => sn_Revision snap = 1
  | _ => False
  end.
Proof. vm_compute. reflexivity. Qed.

(** The first attempt is thrown away, the second one is consistent. *)
Lemma snapshot_is_consistent_witness :
  exists snap w n reads,
    console_Snapshot (busy_call meddle) (busy_check healthy) console_source console_user overview pages_oracle (mkBusy _ console_db tt [], 0%nat) = (Ok snap, (w, n)) /\
    sn_Revision snap = 1 /\ Forall (fun d => revision d = 1) reads.
Proof.
  pose proof meddled_revision as Hr. destruct (console_Snapshot (busy_call meddle) _ _ _ _ _ _) as [[snap|e] [w' n']] eqn:E; [|destruct Hr].
  destruct (snapshot_is_consistent meddle meddle_steps healthy console_source console_user overview pages_oracle (mkBusy _ console_db tt []) 0%nat snap w' n')
    as (w1 & n1 & w2 & n2 & read & reads & _ & _ & _ & Hall & _); [split; reflexivity|exact E|].
  exists snap, w', n', reads. split; [reflexivity|]. split; [exact Hr|]. rewrite Hr in Hall. exact Hall.
Defined.



(** [AuthorizeProject] takes an identifier or a slug: a project whose slug is the
    identifier of another one is found in its place, and its members see the
    operations of the other. *)
Definition shadow_db : MetricsDB :=
  mkMetricsDB (mkDB (set_users [mkUser "usr1" "Ada" false 0]
    (set_projects [mkProject "prj2" "prj1" "Two" "" "" false 0; mkProject "prj1" "one" "One" "" "" false 0]
      (set_project_members [mkMember "prj2" "usr1" 0]
        (set_control_builds [mkBuildRow "bld1" "prj1" 0 "" "" BuildQueued None None] empty_tables)))) (mkFeed [] 0)) empty_metrics.

Lemma slug_shadows_project :
  may_access console_user (tabs (md_store shadow_db)) (mkProject "prj1" "one" "One" "" "" false 0) = false /\
  (console_Authorize (@quiet_call unit) console_user (mkRoute RouteOperation "" "build" "bld1") pages_oracle ((shadow_db, tt), 0%nat)).1 = Ok tt.
Proof. split; vm_compute; reflexivity. Qed.
