(* ===== verification/DataPlane.v ===== *)
(** * The data plane

    [internal/control/pki/pki.go] beyond the issuing of credentials: the private
    authority and its files, and the check of the operation that a client
    certificate names; the guard of [internal/control/mtlsproxy/proxy.go]; and
    the proxy of [internal/dataplane/proxy.go], through which the command line
    reaches the data plane with credentials that change while it runs. *)
From stdpp Require Import gmap.
From Stdlib Require Import Ascii.
From S2P Require Import Prelude Model GoMonad GoLib GoStrings Encoding Table Schema JobStore Path ControlAPI HumanAuth Validate ValidateTheorems Secrets SecretsTheorems Recovery RecoveryTheorems Text.

(** ** Identities *)

(** [shouldEscape] in a path segment: what stays as it is. *)
Definition segment_safe (b : Z) : bool :=
  ((48 <=? b) && (b <=? 57)) || ((65 <=? b) && (b <=? 90)) || ((97 <=? b) && (b <=? 122))
  || existsb (Z.eqb b) [45; 95; 46; 126; 36; 38; 43; 61; 58; 64].
Definition upper_hex (n : Z) : Z := if n <? 10 then 48 + n else 55 + n.
Definition escape_byte (b : Z) : list Z := if segment_safe b then [b] else [37; upper_hex (b / 16); upper_hex (b mod 16)].

(** [url.PathEscape] and [url.PathUnescape]. *)
Definition PathEscape (s : string) : string := of_bytes (flat_map escape_byte (bytes s)).
Definition PathUnescape (s : string) : option string := of_bytes <$> url_unescape (bytes s).

(** What a URI of a certificate is read for. *)
Record Identity := mkIdentity { id_Scheme : string; id_Host : string; id_EscapedPath : string }.

(** The identity that [Issue] puts into the certificate of an operation,
    [spiffe://autback/kind/id]. *)
Definition issued_identity (kind : OperationKind) (id : string) : Identity :=
  mkIdentity "spiffe" "autback" ("/" +:+ kind_name kind +:+ "/" +:+ PathEscape id).

(** [VerifyConnection]: [peers] has the URIs of the certificates that the client
    presents, which the library has verified; [active] is asked only when it is
    set. *)
Definition VerifyConnection {D : Type} (expected : string) (active : option (string -> string -> M D bool)) (peers : list (list Identity)) : M D unit :=
  match peers with
  | [[identity]] =>
      match Split "/"%char (TrimPrefix (id_EscapedPath identity) "/") with
      | [kind; escaped] =>
          if negb (bool_decide (id_Scheme identity = "spiffe")) || negb (bool_decide (id_Host identity = "autback"))
          then throw (ErrText "invalid autback operation identity") else
          match PathUnescape escaped with
          | Some id =>
              if negb (bool_decide (kind = expected)) then throw (ErrText ("operation certificate is not valid for " +:+ expected)) else
              match active with
              | None => mret tt
              | Some active => ok ← active expected id; if ok : bool then mret tt else throw (ErrText "operation credential is no longer active")
              end
          | None => throw (ErrText ("operation certificate is not valid for " +:+ expected))
          end
      | _ => throw (ErrText "invalid autback operation identity")
      end
  | _ => throw (ErrText "exactly one autback operation identity is required")
  end.

(** A connection to the proxy of the server: [handshake] says whether the
    library completed the handshake up to [VerifyConnection], [dial] whether the
    target can be reached.  The outcome is whether bytes are copied. *)
Definition mtls_proxyConnection {D : Type} (verify : M D unit) (handshake dial : bool) : M D bool :=
  if negb handshake then mret false else
  r ← attempt verify;
  match r with Ok _ => mret dial | Fail _ => mret false end.

(** ** The files of the authority *)

(** The certificate and key encodings: what is made for a serial number, a time
    and a key, what is read back, whether a certificate and a key belong
    together, and the names a certificate covers.  A name that is plain (an
    address, or a host name of ASCII without brackets) is covered by the
    certificate that is made for it. *)
Class PkiCodec := {
  pk_ca : Z -> time -> Z -> list Z;
  pk_server : list Z -> list Z -> list string -> Z -> time -> Z -> list Z;
  pk_key : Z -> list Z;
  pem_Encode : string -> list Z -> list Z;
  pem_Decode : list Z -> option (list Z);
  certificate_ok : list Z -> bool;
  ecdsa_key_ok : list Z -> option bool;
  key_pair_ok : list Z -> list Z -> bool;
  covers : list Z -> string -> bool;
  plain_name : string -> bool;
  pem_round_trip : forall kind data, pem_Decode (pem_Encode kind data) = Some data;
  pk_ca_ok : forall serial now key, certificate_ok (pk_ca serial now key) = true;
  pk_key_ok : forall key, ecdsa_key_ok (pk_key key) = Some true;
  pk_server_ok : forall ca cakey names serial now key, forallb plain_name names = true -> certificate_ok (pk_server ca cakey names serial now key) = true;
  pk_pair : forall ca cakey names serial now key, forallb plain_name names = true ->
    key_pair_ok (pem_Encode "CERTIFICATE" (pk_server ca cakey names serial now key)) (pem_Encode "PRIVATE KEY" (pk_key key)) = true;
  pk_covers : forall ca cakey names serial now key name, forallb plain_name names = true -> name ∈ names -> covers (pk_server ca cakey names serial now key) name = true
}.

Record Authority := mkAuthority { at_ca : list Z; at_key : list Z; at_caPEM : list Z; at_serverName : string; at_server : list Z * list Z }.

Section Files.
Context `{PkiCodec}.

Definition writePEM (path : string) (mode : Z) (blockType : string) (data : list Z) : M FS unit := os_WriteFile path (pem_Encode blockType data) mode.

(** [rand.Int] below [2^128]. *)
Definition randomSerial : M FS Z := b ← rand_Read 16; mret (fold_left (fun n x => n * 256 + x) b 0).
Definition generate_key : M FS Z := _ ← may_fail; rand_byte.

Definition createAuthority (certPath keyPath : string) : M FS unit :=
  key ← generate_key;
  now ← time_Now;
  serial ← randomSerial;
  _ ← may_fail;
  _ ← may_fail;
  _ ← writePEM certPath 420 "CERTIFICATE" (pk_ca serial now key);
  writePEM keyPath 384 "PRIVATE KEY" (pk_key key).

Definition loadAuthority (certPath keyPath : string) : M FS (list Z * list Z * list Z) :=
  certPEM ← os_ReadFile certPath;
  match pem_Decode certPEM with
  | None => throw (ErrText "decode PKI CA certificate")
  | Some certificate =>
      if negb (certificate_ok certificate) then throw (ErrText "x509: malformed certificate") else
      keyPEM ← os_ReadFile keyPath;
      match pem_Decode keyPEM with
      | None => throw (ErrText "decode PKI CA private key")
      | Some key =>
          match ecdsa_key_ok key with
          | None => throw (ErrText "x509: failed to parse private key")
          | Some false => throw (ErrText "PKI CA key is not ECDSA")
          | Some true => mret (certificate, key, certPEM)
          end
      end
  end.

Definition createServerCertificate (ca caKey : list Z) (certPath keyPath : string) (names : list string) : M FS unit :=
  key ← generate_key;
  now ← time_Now;
  serial ← randomSerial;
  _ ← may_fail;
  _ ← may_fail;
  _ ← writePEM certPath 420 "CERTIFICATE" (pk_server ca caKey names serial now key);
  writePEM keyPath 384 "PRIVATE KEY" (pk_key key).

(** The file is missing; another error of [os.Stat] counts as present. *)
Definition stat_missing (path : string) : M FS bool :=
  r ← attempt (query (fun fs => fs !! path_key path));
  mret match r with Ok None => true | _ => false end.

Definition uncovered (certificate : list Z) (names : list string) : option string := List.find (fun name => negb (covers certificate name)) names.

(** The key pair of the server and its leaf. *)
Definition loadServer (certPath keyPath : string) : M FS (list Z * (list Z * list Z)) :=
  cert ← os_ReadFile certPath;
  key ← os_ReadFile keyPath;
  if negb (key_pair_ok cert key) then throw (ErrText "load PKI server certificate") else
  match pem_Decode cert with
  | Some leaf => if certificate_ok leaf then mret (leaf, (cert, key)) else throw (ErrText "parse PKI server certificate")
  | None => throw (ErrText "load PKI server certificate")
  end.

Definition EnsureAuthority (root : string) (names : list string) : M FS Authority :=
  match names with
  | [] => throw (ErrText "at least one PKI server name is required")
  | first :: _ =>
      if bool_decide (TrimSpace first = "") then throw (ErrText "at least one PKI server name is required") else
      _ ← os_MkdirAll root;
      let caCertPath := Join root "ca.pem" in let caKeyPath := Join root "ca-key.pem" in
      let serverCertPath := Join root "server.pem" in let serverKeyPath := Join root "server-key.pem" in
      fresh ← stat_missing caCertPath;
      _ ← (if fresh : bool then createAuthority caCertPath caKeyPath else mret tt);
      '(ca, caKey, caPEM) ← loadAuthority caCertPath caKeyPath;
      fresh ← stat_missing serverCertPath;
      _ ← (if fresh : bool then createServerCertificate ca caKey serverCertPath serverKeyPath names else mret tt);
      '(leaf, keys) ← loadServer serverCertPath serverKeyPath;
      match uncovered leaf names with
      | Some name => throw (ErrText ("server certificate does not cover " +:+ name))
      | None => mret (mkAuthority ca caKey caPEM first keys)
      end
  end.

End Files.

(** ** The proxy of the client *)

Record ClientCredential := mkClientCredential {
  cc_Endpoint : string; cc_ServerName : string; cc_CAPEM : list Z; cc_CertificatePEM : list Z; cc_PrivateKeyPEM : list Z; cc_ExpiresAt : time }.

(** The address and the credential of the connections, with their end. *)
Record upstream := mkUpstream { up_address : string; up_serverName : string; up_roots : list Z; up_certificate : list Z * list Z; up_expiresAt : time }.

(** The parser of URLs, and the reading of certificates: whether a PEM holds a
    certificate, and the end of the leaf of a matching pair. *)
Class ClientTls := {
  ct_Parse : string -> option (string * string * string);
  ct_roots_ok : list Z -> bool;
  ct_pair : list Z -> list Z -> option (option time)
}.

(** [strings.Contains(s, "://")]. *)
Definition has_scheme (s : string) : bool := existsb (fun i => String.prefix "://" (of_bytes (drop i (bytes s)))) (seq 0 (String.length s)).

Section Client.
Context `{ClientTls}.

Definition normalizeEndpoint (endpoint : string) : res string :=
  let endpoint := TrimSpace endpoint in
  if bool_decide (endpoint = "") then Fail (ErrText "data-plane endpoint is required") else
  let host := if has_scheme endpoint then
                match ct_Parse endpoint with
                | Some (scheme, host, path) => if bool_decide (scheme = "tcp") && negb (bool_decide (host = "")) && bool_decide (path = "") then Some host else None
                | None => None
                end
              else Some endpoint in
  match host with
  | None => Fail (ErrText ("invalid data-plane TCP endpoint " +:+ endpoint))
  | Some host => match SplitHostPort_host (bytes host) with Some _ => Ok host | None => Fail (ErrText ("invalid data-plane endpoint " +:+ host)) end
  end.

(** The earlier of the end that the service names and the end of the leaf. *)
Definition credential_end (named leaf : time) : time := if (named =? zero_time) || (leaf <? named) then leaf else named.

Definition validateCredential (c : ClientCredential) (now : time) : res upstream :=
  match normalizeEndpoint (cc_Endpoint c) with
  | Fail e => Fail e
  | Ok address =>
      if bool_decide (TrimSpace (cc_ServerName c) = "") then Fail (ErrText "data-plane server name is required") else
      if negb (ct_roots_ok (cc_CAPEM c)) then Fail (ErrText "data-plane CA contains no certificates") else
      match ct_pair (cc_CertificatePEM c) (cc_PrivateKeyPEM c) with
      | None => Fail (ErrText "load data-plane client credential")
      | Some None => Fail (ErrText "parse data-plane client certificate")
      | Some (Some leaf) =>
          let expiresAt := credential_end (cc_ExpiresAt c) leaf in
          if now <? expiresAt then Ok (mkUpstream address (cc_ServerName c) (cc_CAPEM c) (cc_CertificatePEM c, cc_PrivateKeyPEM c) expiresAt)
          else Fail (ErrText "data-plane client credential has expired")
      end
  end.

(** A proxy that runs: its current credential, whether it was closed, and the
    upstream that each connection so far was opened with; [None] is a connection
    that was dropped. *)
Record ClientProxy := mkProxy { px_current : upstream; px_closed : bool; px_opened : list (option upstream) }.

(** [Start], once it listens. *)
Definition Start (c : ClientCredential) (now : time) : res ClientProxy :=
  match validateCredential c now with Ok u => Ok (mkProxy u false []) | Fail e => Fail e end.

Definition Update (c : ClientCredential) (now : time) (p : ClientProxy) : res unit * ClientProxy :=
  if px_closed p then (Fail (ErrText "data-plane proxy is not running"), p) else
  match validateCredential c now with
  | Fail e => (Fail e, p)
  | Ok u => (Ok tt, mkProxy u (px_closed p) (px_opened p))
  end.

(** A connection that the listener accepted; there are none after [Close]. *)
Definition usable (u : upstream) (now : time) : bool := (up_expiresAt u =? zero_time) || (now <? up_expiresAt u).
Definition client_proxyConnection (now : time) (p : ClientProxy) : ClientProxy :=
  if px_closed p then p else
  mkProxy (px_current p) (px_closed p) (px_opened p ++ [if usable (px_current p) now then Some (px_current p) else None]).
Definition Close (p : ClientProxy) : ClientProxy := mkProxy (px_current p) true (px_opened p).

(** What happens to a proxy, at which time. *)
Inductive ProxyEvent := Rotate (c : ClientCredential) | Connect | Shut.
Definition proxy_event (p : ClientProxy) (e : time * ProxyEvent) : ClientProxy :=
  match e.2 with Rotate c => (Update c e.1 p).2 | Connect => client_proxyConnection e.1 p | Shut => Close p end.
Definition proxy_run (events : list (time * ProxyEvent)) (p : ClientProxy) : ClientProxy := fold_left proxy_event events p.

End Client.

(** ** Escapes *)

Lemma unhex_upper n : 0 <= n < 16 -> unhex (upper_hex n) = Some n.
Proof.
  intros Hn. assert (Hall : forallb (fun i => bool_decide (unhex (upper_hex (Z.of_nat i)) = Some (Z.of_nat i))) (seq 0 16) = true) by (vm_compute; reflexivity).
  rewrite forallb_forall in Hall. specialize (Hall (Z.to_nat n)). rewrite bool_decide_eq_true, Z2Nat.id in Hall by lia. apply Hall, in_seq. lia.
Qed.

Lemma unescape_safe b l : segment_safe b = true -> url_unescape (b :: l) = tail ← url_unescape l; Some (b :: tail).
Proof. intros Hs. cbn [url_unescape]. destruct (Z.eqb_spec b 37) as [->|]; [discriminate Hs|done]. Qed.

Lemma unescape_escape l : Forall is_byte l -> url_unescape (flat_map escape_byte l) = Some l.
Proof.
  induction 1 as [|b l Hb _ IH]; [done|]. cbn [flat_map]. unfold escape_byte at 1. destruct (segment_safe b) eqn:E; cbn [app].
  - by rewrite (unescape_safe b _ E), IH.
  - unfold is_byte in Hb. cbn [url_unescape]. change (37 =? 37) with true. cbv iota.
    rewrite (unhex_upper (b / 16)) by (split; [apply Z.div_pos|apply Z.div_lt_upper_bound]; lia). rewrite (unhex_upper (b mod 16)) by (apply Z.mod_pos_bound; lia).
    cbn. rewrite IH. cbn. do 2 f_equal. rewrite (Z.div_mod b 16) at 3 by lia. lia.
Qed.

(** What an escape consists of. *)
Lemma escape_bytes b x : is_byte b -> x ∈ escape_byte b -> is_byte x /\ x <> 47.
Proof.
  intros Hb Hx. assert (Hall : forallb (fun i => forallb (fun y => (0 <=? y) && (y <? 256) && negb (y =? 47)) (escape_byte (Z.of_nat i))) (seq 0 256) = true) by (vm_compute; reflexivity).
  rewrite forallb_forall in Hall. specialize (Hall (Z.to_nat b)). unfold is_byte in *. rewrite Z2Nat.id in Hall by lia.
  assert (Hin : In (Z.to_nat b) (seq 0 256)) by (apply in_seq; lia). apply Hall in Hin. rewrite forallb_forall in Hin. apply list_elem_of_In in Hx. apply Hin in Hx. lia.
Qed.

Lemma escaped_bytes s x : x ∈ bytes (PathEscape s) -> is_byte x /\ x <> 47.
Proof.
  unfold PathEscape. assert (Hall : Forall (fun x => is_byte x /\ x <> 47) (flat_map escape_byte (bytes s))).
  { apply Forall_forall. intros y Hy. apply list_elem_of_In, in_flat_map in Hy as (b & Hb & Hy). apply list_elem_of_In in Hb, Hy. eapply escape_bytes; [|exact Hy].
    pose proof (string_bytes s) as Hs. rewrite Forall_forall in Hs. by apply Hs. }
  rewrite bytes_of_bytes by (eapply Forall_impl; [exact Hall|]; by intros y [? _]). rewrite Forall_forall in Hall. apply Hall.
Qed.

Lemma unescape_path s : PathUnescape (PathEscape s) = Some s.
Proof.
  unfold PathUnescape, PathEscape. rewrite bytes_of_bytes.
  - rewrite unescape_escape by apply string_bytes. cbn. by rewrite of_bytes_bytes.
  - apply Forall_forall. intros x Hx. apply list_elem_of_In, in_flat_map in Hx as (b & Hb & Hx). apply list_elem_of_In in Hb, Hx.
    pose proof (string_bytes s) as Hs. rewrite Forall_forall in Hs. by destruct (escape_bytes b x (Hs _ Hb) Hx).
Qed.

(** ** Splits *)

Lemma substring_all s : String.substring 0 (String.length s) s = s.
Proof. induction s as [|c s IH]; [done|]. cbn. by rewrite IH. Qed.

Lemma trim_prefix p s : TrimPrefix (p +:+ s) p = s.
Proof.
  assert (Hp : String.prefix p (p +:+ s) = true) by (apply prefix_app_string; by exists s). unfold TrimPrefix, CutPrefix. rewrite Hp. cbn [default]. clear Hp.
  induction p as [|c p IH]; [change ("" +:+ s) with s; cbn; rewrite Nat.sub_0_r; apply substring_all|]. exact IH.
Qed.

Lemma Split_no_sep sep s : (forall x, x ∈ bytes s -> x <> byte_of sep) -> Split sep s = [s].
Proof.
  induction s as [|c s IH]; intros Hs; [done|]. cbn [Split]. destruct (Ascii.eqb_spec c sep) as [->|Hc].
  - exfalso. apply (Hs (byte_of sep)); [constructor|done].
  - rewrite IH; [done|]. intros x Hx. apply Hs. by constructor.
Qed.

Lemma Split_app sep a b : (forall x, x ∈ bytes a -> x <> byte_of sep) -> Split sep (a +:+ String sep b) = a :: Split sep b.
Proof.
  induction a as [|c a IH]; intros Ha; [change ("" +:+ String sep b) with (String sep b); cbn [Split]; by rewrite Ascii.eqb_refl|]. change (String c a +:+ ?x) with (String c (a +:+ x)). cbn [Split].
  destruct (Ascii.eqb_spec c sep) as [->|Hc].
  - exfalso. apply (Ha (byte_of sep)); [constructor|done].
  - rewrite IH; [done|]. intros x Hx. apply Ha. by constructor.
Qed.

Lemma issued_parts kind id : Split "/"%char (TrimPrefix (id_EscapedPath (issued_identity kind id)) "/") = [kind_name kind; PathEscape id].
Proof.
  unfold issued_identity. cbn [id_EscapedPath]. assert (E : TrimPrefix ("/" +:+ kind_name kind +:+ "/" +:+ PathEscape id) "/" = kind_name kind +:+ "/" +:+ PathEscape id) by apply (trim_prefix "/").
  rewrite E. change ("/" +:+ PathEscape id) with (String "/"%char (PathEscape id)). rewrite Split_app by (destruct kind; cbn; intros x Hx; repeat (apply elem_of_cons in Hx as [->|Hx]; [discriminate|]); by apply not_elem_of_nil in Hx).
  rewrite Split_no_sep; [done|]. intros x Hx. by destruct (escaped_bytes id x Hx).
Qed.

(** ** Who reaches the data plane *)

(** The operation may use the data plane now: the job is being prepared, the
    build runs. *)
Definition serves (d : Database) (kind : OperationKind) (id : string) : Prop :=
  match kind with
  | OperationJob => exists row, find_job id d = Some row /\ jr_status row = StatusPreparing
  | OperationBuild => exists row, find_build id d = Some row /\ br_status row = BuildRunning
  end.

(** The check of the server: [OperationActive] of the store. *)
Definition data_plane_check (expected : OperationKind) (peers : list (list Identity)) : StoreM unit :=
  VerifyConnection (kind_name expected) (Some OperationIsActive) peers.

(** What the store answers. *)
Lemma wp_active o kind id d : wp o (OperationIsActive (kind_name kind) id)
  (fun ok d' => d' = d /\ (ok = true -> serves d kind id) /\ (reliable o -> serves d kind id -> ok = true)) (fun _ _ => False) d.
Proof.
  unfold OperationIsActive, serves. destruct kind; cbn [kind_name]; rewrite ?(bool_decide_eq_true_2 (_ = _)), ?(bool_decide_eq_false_2 ("build" = "job")) by done; cbv iota;
    apply wp_bind, wp_attempt, wp_query_row; try (intros s Hs; apply wp_ret; split; [done|]; split; [done|]; intros Hr; by destruct (reliable_fails o s Hr Hs)).
  - destruct (find_job id d) as [row|]; apply wp_ret; (split; [done|]; split); [intros Hb; apply bool_decide_eq_true in Hb; eauto| |done|by intros _ (? & ? & _)].
    intros _ (r & [= <-] & Hs). by apply bool_decide_eq_true.
  - destruct (find_build id d) as [row|]; apply wp_ret; (split; [done|]; split); [intros Hb; apply bool_decide_eq_true in Hb; eauto| |done|by intros _ (? & ? & _)].
    intros _ (r & [= <-] & Hs). by apply bool_decide_eq_true.
Qed.

Lemma kind_name_inj a b : kind_name a = kind_name b -> a = b.
Proof. by destruct a, b. Qed.

(** C25: a credential opens the data plane for its own operation, while this
    runs, and for nothing else.  A connection that the check admits presents one
    certificate with one identity of the expected kind, whose operation is being
    prepared or runs; of the credentials that [Issue] makes, exactly those of
    such operations are admitted, whatever bytes their identifiers consist of. *)
Theorem credential_opens_its_operation o d expected peers kind id :
  wp o (data_plane_check expected peers)
    (fun _ d' => d' = d /\ exists uri escaped id, peers = [[uri]] /\ id_Scheme uri = "spiffe" /\ id_Host uri = "autback" /\
       Split "/"%char (TrimPrefix (id_EscapedPath uri) "/") = [kind_name expected; escaped] /\ PathUnescape escaped = Some id /\ serves d expected id)
    (fun _ d' => d' = d) d /\
  wp o (data_plane_check expected [[issued_identity kind id]])
    (fun _ d' => d' = d /\ kind = expected /\ serves d kind id)
    (fun _ d' => d' = d /\ (reliable o -> ~ (kind = expected /\ serves d kind id))) d.
Proof.
  unfold data_plane_check, VerifyConnection. split.
  - destruct peers as [|[|uri [|]] [|]]; try (by apply wp_throw). destruct (Split _ _) as [|k [|escaped [|]]] eqn:Es; try (by apply wp_throw).
    destruct (_ || _) eqn:Eu; [by apply wp_throw|]. apply orb_false_iff in Eu as [E1 E2]. rewrite negb_false_iff, bool_decide_eq_true in E1, E2.
    destruct (PathUnescape escaped) as [i|] eqn:Ei; [|by apply wp_throw]. case_bool_decide as Ek; [|by apply wp_throw]. subst k. cbn [negb].
    apply wp_bind. eapply wp_mono; [apply wp_active| |done]. intros ok d' (-> & Hok & _). destruct ok; [apply wp_ret|by apply wp_throw]. split; [done|]. eauto 10.
  - rewrite issued_parts, unescape_path. cbn [id_Scheme id_Host issued_identity]. rewrite !(bool_decide_eq_true_2 (_ = _)) by done. cbn [negb orb].
    case_bool_decide as Ek; cbn [negb]; [|apply wp_throw; split; [done|]; intros _ [-> _]; by apply Ek]. apply kind_name_inj in Ek as ->.
    apply wp_bind. eapply wp_mono; [apply wp_active| |done]. intros ok d' (-> & Hok & Hall). destruct ok; [apply wp_ret; eauto|apply wp_throw].
    split; [done|]. intros Hr [_ Hs]. by specialize (Hall Hr Hs).
Qed.

(** ** Credentials of the client *)

Section ClientTheorems.
Context `{ClientTls}.

Lemma validate_expiry c now u : validateCredential c now = Ok u -> now < up_expiresAt u.
Proof using.
  unfold validateCredential. destruct (normalizeEndpoint _); [|done]. case_bool_decide; [done|]. destruct (negb _); [done|].
  destruct (ct_pair _ _) as [[leaf|]|]; [|done|done]. destruct (Z.ltb_spec now (credential_end (cc_ExpiresAt c) leaf)); [|done]. by intros [= <-].
Qed.

(** The credential that the proxy was started with or that a rotation among the
    events published. *)
Definition published (u0 u : upstream) (events : list (time * ProxyEvent)) : Prop :=
  u = u0 \/ exists t c, (t, Rotate c) ∈ events /\ validateCredential c t = Ok u.

Lemma published_app u0 u l l' : published u0 u l -> published u0 u (l ++ l').
Proof using. intros [->|(t & c & Hin & Hv)]; [by left|]. right. exists t, c. split; [apply elem_of_app; by left|done]. Qed.

Lemma current_published u0 events : published u0 (px_current (proxy_run events (mkProxy u0 false []))) events.
Proof using.
  unfold proxy_run. induction events as [|[t e] events IH] using rev_ind; [by left|]. rewrite fold_left_app. cbn [fold_left]. set (q := fold_left _ _ _) in *.
  unfold proxy_event. cbn. destruct e as [c| |]; cbn; [|unfold client_proxyConnection; destruct (px_closed q); by apply published_app|by apply published_app].
  unfold Update. destruct (px_closed q); [by apply published_app|]. destruct (validateCredential c t) as [u|] eqn:Ev; cbn; [|by apply published_app].
  right. exists t, c. split; [apply elem_of_app; right; by apply list_elem_of_singleton|done].
Qed.

(** Whatever rotations come, a connection is opened with a credential that was
    checked as a whole, that had not expired then, and was the latest one; a
    rotation that is refused leaves the credential in place, and the connections
    that are open stay as they are. *)
Lemma connections_use_checked_credentials u0 events :
  let p := proxy_run events (mkProxy u0 false []) in
  published u0 (px_current p) events /\
  Forall (fun x => forall u, x = Some u -> published u0 u events) (px_opened p) /\
  forall now c, match Update c now p with
                | (Ok _, p') => validateCredential c now = Ok (px_current p') /\ px_opened p' = px_opened p
                | (Fail _, p') => p' = p
                end.
Proof using.
  intros p. split; [apply current_published|split].
  - unfold p, proxy_run.
    clear p. induction events as [|[t e] events IH] using rev_ind; [constructor|]. pose proof (current_published u0 events) as Hc. unfold proxy_run in Hc. rewrite fold_left_app. cbn [fold_left]. set (q := fold_left _ _ _) in *.
    assert (IH' : Forall (fun x => forall u, x = Some u -> published u0 u (events ++ [(t, e)])) (px_opened q)).
    { eapply Forall_impl; [exact IH|]. intros x Hx u Hu. apply published_app. by apply Hx. }
    unfold proxy_event. destruct e as [c| |]; cbn [fst snd]; [|unfold client_proxyConnection; destruct (px_closed q); [done|]|done].
    + unfold Update. destruct (px_closed q); [done|]. by destruct (validateCredential c t).
    + cbn. apply Forall_app. split; [done|]. constructor; [|constructor]. destruct (usable _ _); [|done]. intros u [= <-]. by apply published_app.
  - intros now c. unfold Update. destruct (px_closed p); [done|]. by destruct (validateCredential c now).
Qed.

End ClientTheorems.

(** ** The authority of the server *)

Section Established.
Context `{PkiCodec} (o : Oracle) (root : string) (first : string) (names : list string).
Hypothesis root_abs : IsAbs root = true.

Definition pki_key (name : string) : list string := path_key root ++ [name].

(** The files of the authority and those of its server are complete. *)
Definition holds_ca (fs : FS) (ca key caPEM : list Z) : Prop :=
  exists f g, fs !! pki_key "ca.pem" = Some f /\ fs !! pki_key "ca-key.pem" = Some g /\ fl_data f = caPEM /\
  pem_Decode caPEM = Some ca /\ certificate_ok ca = true /\ pem_Decode (fl_data g) = Some key /\ ecdsa_key_ok key = Some true.

Definition holds_server (fs : FS) (leaf : list Z) (keys : list Z * list Z) : Prop :=
  exists f g, fs !! pki_key "server.pem" = Some f /\ fs !! pki_key "server-key.pem" = Some g /\ keys = (fl_data f, fl_data g) /\
  key_pair_ok (fl_data f) (fl_data g) = true /\ pem_Decode (fl_data f) = Some leaf /\ certificate_ok leaf = true.

Definition established (fs : FS) (a : Authority) : Prop :=
  holds_ca fs (at_ca a) (at_key a) (at_caPEM a) /\
  (exists leaf, holds_server fs leaf (at_server a) /\ uncovered leaf (first :: names) = None) /\ at_serverName a = first.

Lemma pki_path name : proper name -> path_key (Join root name) = pki_key name.
Proof using root_abs. intros Hn. by destruct (path_key_child root name root_abs Hn). Qed.

Lemma pki_key_ne a b : a <> b -> pki_key a <> pki_key b.
Proof using. intros Hab E. by apply app_inj_2 in E as [_ [= E]]. Qed.

Ltac pki_lookup := repeat first [rewrite lookup_insert_eq | rewrite lookup_insert_ne by (apply pki_key_ne; discriminate)].

Lemma wp_stat_missing path Q E fs :
  reliable o -> Q (bool_decide (fs !! path_key path = None)) fs -> wp o (stat_missing path) Q E fs.
Proof using.
  intros Hr HQ. unfold stat_missing. apply wp_bind, wp_attempt, wp_query; [|intros s Hs; by destruct (reliable_fails o s)].
  apply wp_ret. by destruct (fs !! path_key path).
Qed.

Lemma wp_loadAuthority fs ca key caPEM Q E :
  reliable o -> holds_ca fs ca key caPEM -> Q (ca, key, caPEM) fs -> wp o (loadAuthority (Join root "ca.pem") (Join root "ca-key.pem")) Q E fs.
Proof using root_abs.
  intros Hr (f & g & Hf & Hg & <- & Hd & Hc & Hk & Hok) HQ. unfold loadAuthority.
  apply wp_bind. eapply wp_ReadFile; [done|by rewrite pki_path|]. cbv beta. rewrite Hd, Hc. cbn [negb].
  apply wp_bind. eapply wp_ReadFile; [done|by rewrite pki_path|]. cbv beta. rewrite Hk, Hok. by apply wp_ret.
Qed.

Lemma wp_loadServer fs leaf keys Q E :
  reliable o -> holds_server fs leaf keys -> Q (leaf, keys) fs -> wp o (loadServer (Join root "server.pem") (Join root "server-key.pem")) Q E fs.
Proof using root_abs.
  intros Hr (f & g & Hf & Hg & -> & Hp & Hd & Hc) HQ. unfold loadServer.
  apply wp_bind. eapply wp_ReadFile; [done|by rewrite pki_path|]. cbv beta.
  apply wp_bind. eapply wp_ReadFile; [done|by rewrite pki_path|]. cbv beta. rewrite Hp, Hd, Hc. by apply wp_ret.
Qed.

(** Both makers draw a key and a serial number and then write two files. *)
Lemma wp_create (certPath keyPath : string) (cert : Z -> time -> Z -> list Z) (Q : unit -> FS -> Prop) (E : Err -> FS -> Prop) (fs : FS) :
  reliable o ->
  (forall serial now key f g, fl_data f = pem_Encode "CERTIFICATE" (cert serial now key) -> fl_data g = pem_Encode "PRIVATE KEY" (pk_key key) ->
     Q tt (<[path_key keyPath := g]> (<[path_key certPath := f]> fs))) ->
  wp o (key ← generate_key; now ← time_Now; serial ← randomSerial; _ ← may_fail; _ ← may_fail;
        _ ← writePEM certPath 420 "CERTIFICATE" (cert serial now key); writePEM keyPath 384 "PRIVATE KEY" (pk_key key)) Q E fs.
Proof using.
  intros Hr HQ. unfold generate_key, randomSerial. assert (Hno : forall P s, fails o s -> P) by (intros P s Hs; by destruct (reliable_fails o s)).
  repeat first [wp_step | apply wp_rand_byte; intros ? _ | apply wp_rand_Read; [intros ? _ _|] | by intros s Hs; apply (Hno _ s)].
  apply wp_WriteFile; [intros mode|done]. apply wp_WriteFile; [intros mode'|done]. by eapply HQ.
Qed.

(** A complete authority is loaded again as it is: no start of the server
    makes a second one, and none touches the files. *)
Lemma authority_is_kept fs a :
  reliable o -> TrimSpace first <> "" -> established fs a ->
  wp o (EnsureAuthority root (first :: names)) (fun a' fs' => a' = a /\ fs' = fs) (fun _ _ => False) fs.
Proof using root_abs.
  intros Hr Hne (Hca & (leaf & Hs & Hcov) & En). unfold EnsureAuthority. rewrite bool_decide_eq_false_2 by done. apply wp_bind. unfold os_MkdirAll.
  apply wp_may_fail; [|intros t Ht; by destruct (reliable_fails o t)]. cbv zeta.
  pose proof Hca as (f & g & Hf & _). pose proof Hs as (f' & g' & Hf' & _).
  apply wp_bind, wp_stat_missing; [done|]. rewrite pki_path, Hf by done. apply wp_bind, wp_ret, wp_bind.
  eapply wp_loadAuthority; [done..|]. cbv beta iota. apply wp_bind, wp_stat_missing; [done|]. rewrite pki_path, Hf' by done.
  apply wp_bind, wp_ret, wp_bind. eapply wp_loadServer; [done..|]. cbv beta iota. rewrite Hcov. apply wp_ret. split; [|done].
  destruct a; cbn in *; by subst.
Qed.

(** From an empty directory the first start makes one, complete. *)
Lemma authority_is_made fs :
  reliable o -> TrimSpace first <> "" -> forallb plain_name (first :: names) = true -> fs !! pki_key "ca.pem" = None -> fs !! pki_key "server.pem" = None ->
  wp o (EnsureAuthority root (first :: names)) (fun a fs' => established fs' a) (fun _ _ => False) fs.
Proof using root_abs.
  intros Hr Hne Hplain Hf Hf'. unfold EnsureAuthority. rewrite bool_decide_eq_false_2 by done. apply wp_bind. unfold os_MkdirAll.
  apply wp_may_fail; [|intros t Ht; by destruct (reliable_fails o t)]. cbv zeta.
  apply wp_bind, wp_stat_missing; [done|]. rewrite pki_path, Hf by done. apply wp_bind. cbn [bool_decide].
  apply wp_create; [done|]. intros serial now key f g Ef Eg. rewrite !pki_path by done.
  set (fs1 := <[pki_key "ca-key.pem" := g]> (<[pki_key "ca.pem" := f]> fs)).
  assert (Hca : forall f' g', holds_ca (<[pki_key "server-key.pem" := g']> (<[pki_key "server.pem" := f']> fs1)) (pk_ca serial now key) (pk_key key) (fl_data f)).
  { intros f' g'. exists f, g. unfold fs1. rewrite !Ef, !Eg, !pem_round_trip, pk_ca_ok, pk_key_ok. repeat split; by pki_lookup. }
  apply wp_bind. eapply (wp_loadAuthority _ (pk_ca serial now key) (pk_key key) (fl_data f)); [done| |].
  { exists f, g. unfold fs1. rewrite !Ef, !Eg, !pem_round_trip, pk_ca_ok, pk_key_ok. repeat split; by pki_lookup. }
  cbv beta iota. apply wp_bind, wp_stat_missing; [done|]. rewrite pki_path by done.
  replace (fs1 !! pki_key "server.pem") with (@None File) by (unfold fs1; by pki_lookup). apply wp_bind. cbn [bool_decide].
  apply wp_create; [done|]. intros serial' now' key' f' g' Ef' Eg'. rewrite !pki_path by done.
  assert (Hs : holds_server (<[pki_key "server-key.pem" := g']> (<[pki_key "server.pem" := f']> fs1)) (pk_server (pk_ca serial now key) (pk_key key) (first :: names) serial' now' key') (fl_data f', fl_data g')).
  { exists f', g'. rewrite !Ef', !Eg', pem_round_trip, pk_pair, pk_server_ok by exact Hplain. repeat split; by pki_lookup. }
  assert (Hcov : uncovered (pk_server (pk_ca serial now key) (pk_key key) (first :: names) serial' now' key') (first :: names) = None).
  { destruct (uncovered _ _) as [name|] eqn:Eu; [|done]. apply List.find_some in Eu as [Hin Hn]. apply list_elem_of_In in Hin. by rewrite (pk_covers _ _ _ _ _ _ _ Hplain Hin) in Hn. }
  apply wp_bind. eapply wp_loadServer; [done|exact Hs|]. cbv beta iota. rewrite Hcov. apply wp_ret. split; [apply Hca|]. split; [by eexists|done].
Qed.

(** The certificate is written before its key, and only a missing certificate
    makes the authority anew: a start that was cut between the two leaves
    files from which every later start fails. *)
Lemma half_made_authority_stays fs f :
  fs !! pki_key "ca.pem" = Some f -> fs !! pki_key "ca-key.pem" = None ->
  wp o (EnsureAuthority root (first :: names)) (fun _ _ => False) (fun _ fs' => fs' = fs) fs.
Proof using root_abs.
  intros Hf Hg. unfold EnsureAuthority. destruct (bool_decide _); [by apply wp_throw|]. apply wp_bind, wp_may_fail; [|done]. cbv zeta.
  assert (Hload : wp o (loadAuthority (Join root "ca.pem") (Join root "ca-key.pem")) (fun _ _ => False) (fun _ fs' => fs' = fs) fs).
  { unfold loadAuthority. apply wp_bind, wp_ReadFile_r; [|done|done]. intros f' _. cbv beta. destruct (pem_Decode _); [|by apply wp_throw].
    destruct (negb _); [by apply wp_throw|]. apply wp_bind, wp_ReadFile_r; [|done|done]. rewrite pki_path, Hg by done. done. }
  apply wp_bind. unfold stat_missing. apply wp_bind, wp_attempt, wp_query; [|intros s _]; rewrite ?pki_path, ?Hf by done; apply wp_ret, wp_bind, wp_ret, wp_bind;
    (eapply wp_mono; [exact Hload|done|done]).
Qed.

End Established.
