(* ===== verification/ClientFiles.v ===== *)
(** * Files of the client

    How the command line finds its project and its settings, and what it writes
    on the machine of its user: [internal/projectlink/projectlink.go],
    [internal/config/config.go], [internal/workspace/files.go],
    [internal/credentialfiles/files.go] and [internal/authclient/keyring.go],
    over the file system of [Secrets]. *)
From stdpp Require Import gmap.
From Stdlib Require Import Ascii.
From S2P Require Import Prelude Model GoMonad GoLib GoStrings Encoding Path HumanAuth Secrets SecretsTheorems Recovery RecoveryTheorems ServerMain CliArgs.

(** ** Git and JSON *)

(** What Git and the file system say about directories: [git rev-parse
    --show-toplevel] and [git ls-files] run in them, [filepath.Abs] with
    [EvalSymlinks], whose result is clean and absolute, and whether [os.Lstat]
    finds a symbolic link. *)
Class Worktree := {
  wt_toplevel : string -> option string;
  wt_ls_files : string -> option (list Z);
  wt_canonical : string -> option string;
  wt_symlink : string -> bool;
  wt_canonical_clean : forall p q, wt_canonical p = Some q -> IsAbs q = true /\ Clean q = q
}.

(** What a [json.Decoder] yields, token by token; a stream that ends with
    [JsonBad] is malformed from there on.  [JsonOther] is a value that is neither
    a string nor null. *)
Inductive JsonToken := JsonOpen | JsonClose | JsonString (s : string) | JsonNull | JsonOther | JsonBad.

Definition FileName : string := "autback.json".

Definition alphanumeric (b : Z) : bool := ((48 <=? b) && (b <=? 57)) || ((65 <=? b) && (b <=? 90)) || ((97 <=? b) && (b <=? 122)).

(** [projectPattern]. *)
Definition matches_project (s : string) : bool :=
  match bytes s with
  | [] => false
  | b :: rest => alphanumeric b && (length rest <=? 127)%nat && forallb (fun c => alphanumeric c || existsb (Z.eqb c) [46; 95; 45]) rest
  end.

(** The decoder, and [json.MarshalIndent] of a link, which it reads back. *)
Class LinkJson := {
  lj_tokens : list Z -> list JsonToken;
  lj_Marshal : string -> list Z;
  lj_size : forall project, matches_project project = true -> (length (lj_Marshal project) < 4096)%nat;
  lj_round_trip : forall project, matches_project project = true ->
    lj_tokens (lj_Marshal project ++ [10]) = [JsonOpen; JsonString "project"; JsonString project; JsonClose]
}.

(** ** Operations on files *)

(** [os.CreateTemp]: an empty private file under a name that is not in use. *)
Definition os_CreateTemp (dir pattern : string) : M FS string :=
  suffix ← rand_Read 4;
  let path := Join dir (pattern +:+ hex_encode suffix) in
  _ ← statement (fun fs => if bool_decide (fs !! path_key path = None) then Ok (tt, <[path_key path := mkFile [] true 384]> fs) else Fail (ErrText "file exists"));
  mret path.

(** [File.Chmod]. *)
Definition file_Chmod (path : string) (perm : Z) : M FS unit :=
  statement (fun fs => match fs !! path_key path with
    | Some f => Ok (tt, <[path_key path := mkFile (fl_data f) (fl_regular f) perm]> fs)
    | None => Fail ErrNotExist
    end).

(** [os.Remove] and [os.Rename] of a file; the latter replaces another one. *)
Definition os_Remove (path : string) : M FS unit :=
  statement (fun fs => match fs !! path_key path with Some _ => Ok (tt, delete (path_key path) fs) | None => Fail ErrNotExist end).
Definition os_RenameFile (a b : string) : M FS unit :=
  statement (fun fs => match fs !! path_key a with Some f => Ok (tt, <[path_key b := f]> (delete (path_key a) fs)) | None => Fail ErrNotExist end).

(** [os.Lstat]: whether there is something. *)
Definition os_Lstat (path : string) : M FS bool := query (fun fs => bool_decide (fs !! path_key path <> None)).

(** ** [projectlink] *)

Section ProjectLink.
Context `{Worktree} `{LinkJson}.

Definition validateProject (project : string) : res string :=
  if matches_project project then Ok project
  else Fail (ErrText "project must contain 1 to 128 letters, digits, dots, underscores, or hyphens").

(** The fields of the object, to its closing brace. *)
Fixpoint link_fields (seen : bool) (project : string) (l : list JsonToken) : option (string * list JsonToken) :=
  match l with
  | JsonClose :: rest => Some (project, rest)
  | JsonString key :: value =>
      if negb (bool_decide (key = "project")) || seen then None else
      match value with
      | JsonString s :: rest => link_fields true s rest
      | JsonNull :: rest => link_fields true project rest
      | _ => None
      end
  | _ => None
  end.

(** What a file links to, if it is a valid link. *)
Definition link_of (f : File) : option string :=
  if negb (fl_regular f) || (4096 <? Z.of_nat (length (fl_data f))) then None else
  match lj_tokens (fl_data f) with
  | JsonOpen :: rest =>
      match link_fields false "" rest with
      | Some (project, []) => if matches_project project then Some project else None
      | _ => None
      end
  | _ => None
  end.

(** [read]. *)
Definition read_link (path : string) : M FS string :=
  r ← query (fun fs => fs !! path_key path);
  match r with
  | None => throw ErrNotExist
  | Some f => match link_of f with Some project => mret project | None => throw (ErrText ("read " +:+ path)) end
  end.

Definition repositoryRoot (directory : string) : res string :=
  match wt_toplevel directory with
  | Some output => Ok (TrimSpace output)
  | None => Fail (ErrText "current directory is not inside a Git worktree")
  end.

Definition canonicalPath (path : string) : res string :=
  match wt_canonical path with Some q => Ok q | None => Fail (ErrText "lstat: no such file or directory") end.

Definition link_required : Err := ErrText "project is required: pass --project, set AUTBACK_PROJECT, or run autback init to create autback.json".

(** The walk towards the root of the worktree. *)
Fixpoint link_search (fuel : nat) (root current : string) : M FS string :=
  r ← attempt (read_link (Join current FileName));
  match r with
  | Ok project => mret project
  | Fail e =>
      if negb (bool_decide (e = ErrNotExist)) then throw e else
      if bool_decide (current = root) then throw link_required else
      let parent := Dir current in
      if bool_decide (parent = current) then throw link_required else
      match fuel with
      | O => throw link_required
      | S fuel => link_search fuel root parent
      end
  end.

(** [filepath.Rel] of clean absolute paths climbs out of [root]. *)
Definition climbs (root current : string) : bool := negb (bool_decide (path_key root `prefix_of` path_key current)).

Definition ResolveProject (directory explicit environment : string) : M FS string :=
  let lift {A} (r : res A) : M FS A := match r with Ok a => mret a | Fail e => throw e end in
  if negb (bool_decide (explicit = "")) then lift (validateProject explicit) else
  if negb (bool_decide (environment = "")) then lift (validateProject environment) else
  root ← lift (repositoryRoot directory);
  current ← lift (canonicalPath directory);
  root ← lift (canonicalPath root);
  if climbs root current then throw (ErrText "current directory is outside the Git worktree") else
  link_search (length (path_key current)) root current.

(** [Write]. *)
Definition WriteLink (directory project : string) : M FS string :=
  match validateProject project with
  | Fail e => throw e
  | Ok project =>
      let path := Join directory FileName in
      present ← os_Lstat path;
      if present : bool then
        if wt_symlink path then throw (ErrText (path +:+ " must not be a symbolic link")) else
        existing ← read_link path;
        if bool_decide (existing = project) then mret path else throw (ErrText (path +:+ " already links project " +:+ existing))
      else
        temporary ← os_CreateTemp directory ".autback-link-";
        r ← attempt (
          _ ← file_Chmod temporary 420;
          _ ← os_WriteFile temporary (lj_Marshal project ++ [10]) 420;
          _ ← may_fail;
          _ ← may_fail;
          os_RenameFile temporary path);
        _ ← attempt (os_Remove temporary);
        match r with Ok _ => mret path | Fail e => throw e end
  end.

End ProjectLink.

(** ** Directories *)

(** A clean absolute path is the list of its elements. *)
Definition canonical (q : string) : Prop := IsAbs q = true /\ Clean q = q.
Definition path_of (key : list string) : string := "/" +:+ join_slash key.

Lemma canonical_path q : canonical q -> q = path_of (path_key q).
Proof. intros [Ha Hc]. unfold Clean in Hc. by rewrite Ha in Hc. Qed.

Lemma path_of_key key : Forall proper key -> path_key (path_of key) = key.
Proof. intros Hk. by apply clean_parts_abs. Qed.

Lemma Clean_path_of key : Forall proper key -> Clean (path_of key) = path_of key.
Proof. intros Hk. unfold Clean, path_of. change ("/" +:+ ?x) with (String "/"%char x) at 1. rewrite IsAbs_slash. by rewrite (clean_parts_abs key Hk). Qed.

Lemma join_slash_snoc key x : key <> [] -> join_slash (key ++ [x]) = join_slash key +:+ "/" +:+ x.
Proof.
  intros Hne. induction key as [|c key IH]; [done|]. destruct key as [|c' key]; [done|].
  change (join_slash ((c :: c' :: key) ++ [x])) with (c +:+ "/" +:+ join_slash ((c' :: key) ++ [x])). rewrite IH by done.
  change (join_slash (c :: c' :: key)) with (c +:+ "/" +:+ join_slash (c' :: key)). by rewrite !app_assoc_s.
Qed.

Lemma Dir_snoc key x : Forall proper (key ++ [x]) -> Dir (path_of (key ++ [x])) = path_of key.
Proof.
  intros Hk. apply Forall_app in Hk as [Hk Hx]. assert (Hx' : proper x) by (by inversion Hx). clear Hx. destruct Hx' as (_ & _ & _ & Hx).
  assert (Hs : exists a, path_of (key ++ [x]) = a +:+ "/" +:+ x /\ Clean (a +:+ "/") = path_of key).
  { destruct (decide (key = [])) as [->|Hne]; [by exists ""|]. exists (path_of key). split.
    - unfold path_of. rewrite join_slash_snoc by done. by rewrite !app_assoc_s.
    - unfold Clean, path_of. change (("/" +:+ ?x) +:+ "/") with (String "/"%char (x +:+ String "/"%char "")). rewrite IsAbs_slash. do 2 f_equal.
      unfold clean_parts. cbn [split_slash Ascii.eqb Bool.eqb]. rewrite split_slash_sep, (split_join key Hne) by (by apply proper_plain).
      change (fold_left _ ("" :: ?l) []) with (fold_left (clean_push true) l []). rewrite fold_left_app, (push_names true key []) by exact Hk. cbn -[app rev].
      change (clean_push true ?l "") with l. by rewrite app_nil_r, rev_involutive. }
  destruct Hs as (a & -> & <-). unfold Dir. rewrite !bytes_app. cbn [bytes]. change (byte_of "/"%char) with 47. cbn [app].
  rewrite split_last_app by exact Hx.
  f_equal. rewrite <- (of_bytes_bytes (a +:+ "/")), bytes_app. done.
Qed.

Lemma Dir_root : Dir (path_of []) = path_of [].
Proof. reflexivity. Qed.

(** ** The nearest link *)

Section LinkTheorems.
Context `{Worktree} `{LinkJson} (o : Oracle).
Implicit Types (fs : FS) (k : list string).

Lemma FileName_proper : proper FileName.
Proof using. done. Qed.

(** The link in a directory. *)
Definition link_in fs k : option File := fs !! (k ++ [FileName]).

(** What [read] returns for it. *)
Lemma wp_read_link (path : string) k (Q : string -> FS -> Prop) (E : Err -> FS -> Prop) fs :
  path_key path = k ++ [FileName] ->
  (forall f project, link_in fs k = Some f -> link_of f = Some project -> Q project fs) ->
  (link_in fs k = None -> E ErrNotExist fs) ->
  (forall e, e <> ErrNotExist -> e <> link_required -> (reliable o -> exists f, link_in fs k = Some f /\ link_of f = None) -> E e fs) ->
  wp o (read_link path) Q E fs.
Proof using.
  intros Hk HQ HN HE. unfold read_link. apply wp_bind, wp_query; rewrite ?Hk.
  - fold (link_in fs k). destruct (link_in fs k) as [f|] eqn:Ef; [|apply wp_throw; by apply HN].
    destruct (link_of f) as [project|] eqn:El; [apply wp_ret; by eapply HQ|apply wp_throw, HE; [discriminate..|eauto]].
  - intros s Hs. apply HE; [discriminate..|]. intros Hr. by destruct (reliable_fails o s).
Qed.

(** The directory [k] of the walk has the first link; or, for [None], none has. *)
Definition nearest fs (root current : list string) (found : option (list string)) : Prop :=
  match found with
  | Some k => root `prefix_of` k /\ k `prefix_of` current /\
      forall k', k `prefix_of` k' -> k' `prefix_of` current -> k' <> k -> link_in fs k' = None
  | None => forall k', root `prefix_of` k' -> k' `prefix_of` current -> link_in fs k' = None
  end.

Lemma prefix_snoc_cases (k key : list string) x : k `prefix_of` key ++ [x] -> k = key ++ [x] \/ k `prefix_of` key.
Proof using.
  intros [rest E]. destruct rest as [|y rest _] using rev_ind; [left; by rewrite app_nil_r in E|].
  rewrite (assoc_L (++)) in E. apply app_inj_tail in E as [-> _]. right. by exists rest.
Qed.

Lemma nearest_up fs root key x found :
  link_in fs (key ++ [x]) = None -> nearest fs root key found -> nearest fs root (key ++ [x]) found.
Proof using.
  intros Hn. destruct found as [k|]; simpl.
  - intros (Hr & Hk & Hall). split; [done|]. split; [by apply prefix_app_r|]. intros k' H1 H2 Hne.
    destruct (prefix_snoc_cases _ _ _ H2) as [->|H2']; [done|by apply Hall].
  - intros Hall k' H1 H2. destruct (prefix_snoc_cases _ _ _ H2) as [->|H2']; [done|by apply Hall].
Qed.

(** The outcomes of the walk. *)
Definition walked fs (root current : list string) (p : string) : Prop :=
  exists k f, nearest fs root current (Some k) /\ link_in fs k = Some f /\ link_of f = Some p.
Definition walk_failed fs (root current : list string) (e : Err) : Prop :=
  (e = link_required /\ nearest fs root current None) \/
  (e <> link_required /\ (reliable o -> exists k f, nearest fs root current (Some k) /\ link_in fs k = Some f /\ link_of f = None)).

Lemma nearest_here fs root key : root `prefix_of` key -> nearest fs root key (Some key).
Proof using. intros Hr. split; [done|]. split; [done|]. intros k' H1 H2 Hne. by destruct (Hne (anti_symm prefix _ _ H2 H1)). Qed.

Lemma link_search_spec fs root : Forall proper root -> forall fuel key, (length key <= fuel)%nat -> Forall proper key -> root `prefix_of` key ->
  wp o (link_search fuel (path_of root) (path_of key)) (fun p fs' => fs' = fs /\ walked fs root key p) (fun e fs' => fs' = fs /\ walk_failed fs root key e) fs.
Proof using.
  intros Hroot. induction fuel as [|fuel IH]; intros key Hlen Hkey Hpre; cbn [link_search]; apply wp_bind, wp_attempt;
    (eapply wp_read_link with (k := key);
      [destruct (path_key_child (path_of key) FileName (IsAbs_slash _) FileName_proper) as [-> _]; by rewrite path_of_key
      |intros f p Hf Hl; apply wp_ret; split; [done|]; exists key, f; split; [by apply nearest_here|done]
      | |intros e He Hne Hb; rewrite bool_decide_eq_false_2 by done; apply wp_throw; split; [done|]; right; split; [done|];
         intros Hr; destruct (Hb Hr) as (f & ? & ?); exists key, f; split; [by apply nearest_here|done]]);
    intros Hn; rewrite (bool_decide_eq_true_2 (ErrNotExist = _)) by done; cbn [negb].
  - destruct key; [|simpl in Hlen; lia]. destruct root; [|by apply prefix_nil_not in Hpre]. rewrite bool_decide_eq_true_2 by done.
    apply wp_throw. split; [done|]. left. split; [done|]. intros k' _ Hk'. by apply prefix_nil_inv in Hk' as ->.
  - case_bool_decide as Ec.
    + apply (f_equal path_key) in Ec. rewrite !path_of_key in Ec by done. subst key. apply wp_throw. split; [done|]. left. split; [done|].
      intros k' H1 H2. by rewrite (anti_symm prefix _ _ H2 H1).
    + destruct key as [|x key _] using rev_ind; [destruct root; [done|by apply prefix_nil_not in Hpre]|].
      rewrite Dir_snoc by done. apply Forall_app in Hkey as [Hkey Hx]. rewrite length_app in Hlen. simpl in Hlen.
      case_bool_decide as Ed; [exfalso; apply (f_equal path_key) in Ed; rewrite !path_of_key in Ed by (done || by apply Forall_app);
        apply (f_equal length) in Ed; rewrite length_app in Ed; simpl in Ed; lia|].
      assert (Hpre' : root `prefix_of` key) by (destruct (prefix_snoc_cases _ _ _ Hpre) as [->|?]; [by destruct Ec|done]).
      eapply wp_mono; [apply IH; [lia|done..]| |].
      * intros p fs' (-> & k & f & Hk & Hf). split; [done|]. exists k, f. split; [by apply nearest_up|done].
      * intros e fs' (-> & [[-> Hk]|[Hne Hb]]); (split; [done|]); [left; split; [done|by apply (nearest_up _ _ _ _ None)]|right; split; [done|]].
        intros Hr. destruct (Hb Hr) as (k & f & Hk & ?). exists k, f. split; [by apply nearest_up|done].
Qed.

(** [directory] is the canonical [current] in the worktree at [root]. *)
Definition in_worktree (directory : string) (root current : list string) : Prop :=
  exists top r c, wt_toplevel directory = Some top /\ wt_canonical (TrimSpace top) = Some r /\ wt_canonical directory = Some c /\
  path_key r = root /\ path_key c = current.

(** The project of a command is the flag, else the variable, else the nearest
    link on the way to the root of the worktree, and nothing above it. *)
Lemma project_is_the_nearest (directory explicit environment : string) fs :
  wp o (ResolveProject directory explicit environment)
    (fun p fs' => fs' = fs /\ matches_project p = true /\
       ((explicit <> "" /\ p = explicit) \/ (explicit = "" /\ environment <> "" /\ p = environment) \/
        (explicit = "" /\ environment = "" /\ exists root current, in_worktree directory root current /\ root `prefix_of` current /\ walked fs root current p)))
    (fun e fs' => fs' = fs /\ (explicit = "" -> environment = "" -> forall root current, in_worktree directory root current -> root `prefix_of` current ->
       walk_failed fs root current e)) fs.
Proof using.
  unfold ResolveProject. case_bool_decide as Ee; cbn [negb].
  2:{ unfold validateProject. destruct (matches_project explicit) eqn:Em; [apply wp_ret; eauto 10|apply wp_throw; by split]. }
  case_bool_decide as Ev; cbn [negb].
  2:{ unfold validateProject. destruct (matches_project environment) eqn:Em; [apply wp_ret; eauto 10|apply wp_throw; by split]. }
  apply wp_bind. unfold repositoryRoot. destruct (wt_toplevel directory) as [top|] eqn:Et; [apply wp_ret|apply wp_throw; split; [done|]; intros _ _ r c (? & ? & ? & E' & _); by rewrite Et in E'].
  apply wp_bind. unfold canonicalPath at 1. destruct (wt_canonical directory) as [c|] eqn:Ec; [apply wp_ret|apply wp_throw; split; [done|]; intros _ _ ? ? (? & ? & ? & _ & _ & E' & _); by rewrite Ec in E'].
  apply wp_bind. unfold canonicalPath at 1. destruct (wt_canonical (TrimSpace top)) as [r|] eqn:Er;
    [apply wp_ret|apply wp_throw; split; [done|]; intros _ _ ? ? (t & ? & ? & Et' & E' & _); rewrite Et in Et'; injection Et' as <-; by rewrite Er in E'].
  assert (Hin : forall root current, in_worktree directory root current <-> root = path_key r /\ current = path_key c).
  { intros root current. split; [intros (t & r' & c' & E1 & E2 & E3 & <- & <-)|intros [-> ->]; by exists top, r, c].
    rewrite Et in E1. injection E1 as <-. rewrite Er in E2. rewrite Ec in E3. by simplify_eq. }
  unfold climbs. case_bool_decide as Hp; cbn [negb].
  2:{ apply wp_throw. split; [done|]. intros _ _ root current [-> ->]%Hin. done. }
  pose proof (canonical_path c (wt_canonical_clean _ _ Ec)) as Hc. pose proof (canonical_path r (wt_canonical_clean _ _ Er)) as Hr.
  rewrite Hc at 2. rewrite Hr at 1. eapply wp_mono; [apply link_search_spec; [apply path_key_proper|done|apply path_key_proper|done]| |].
  - intros p fs' (-> & Hw). split; [done|]. pose proof Hw as (k & f & _ & _ & Hl). split.
    + unfold link_of in Hl. destruct (_ || _); [done|]. destruct (lj_tokens _) as [|[] ?]; try done. destruct (link_fields _ _ _) as [[? []]|]; try done.
      destruct (matches_project _) eqn:Em; [|done]. by injection Hl as <-.
    + right. right. split; [done|]. split; [done|]. exists (path_key r), (path_key c). split; [by apply Hin|done].
  - intros e fs' (-> & Hw). split; [done|]. intros _ _ root current [-> ->]%Hin _. exact Hw.
Qed.

(** [link_of] reads what [WriteLink] writes. *)
Lemma link_of_written project mode : matches_project project = true -> link_of (mkFile (lj_Marshal project ++ [10]) true mode) = Some project.
Proof using.
  intros Hm. unfold link_of. cbn [fl_regular fl_data negb orb]. pose proof (lj_size project Hm) as Hs.
  rewrite (proj2 (Z.ltb_ge _ _)) by (rewrite length_app; simpl; lia). rewrite lj_round_trip by done. cbn [link_fields negb orb].
  rewrite bool_decide_eq_true_2 by done. cbn [negb orb]. by rewrite Hm.
Qed.

(** The files but those of a temporary name in the directory. *)
Definition same_but_temporary (dir : list string) fs fs' : Prop :=
  exists t, forall k, k <> dir ++ [".autback-link-" +:+ t] -> fs' !! k = fs !! k.

Lemma temporary_ne t : ".autback-link-" +:+ t <> FileName.
Proof using. discriminate. Qed.

Lemma link_in_temporary dir fs fs' : same_but_temporary dir fs fs' -> link_in fs' dir = link_in fs dir.
Proof using. intros [t Ht]. apply Ht. intros E. apply app_inj_2 in E as [_ E]; [|done]. injection E as E. by apply (temporary_ne t). Qed.

Context (directory : string) (Habs : IsAbs directory = true).
#[local] Abbreviation D := (path_key directory).

Lemma link_key : path_key (Join directory FileName) = D ++ [FileName].
Proof using Habs. by destruct (path_key_child directory FileName Habs FileName_proper). Qed.

Lemma wp_CreateTemp (Q : string -> FS -> Prop) (E : Err -> FS -> Prop) fs :
  (forall path t, path_key path = D ++ [".autback-link-" +:+ t] -> fs !! path_key path = None -> Q path (<[path_key path := mkFile [] true 384]> fs)) ->
  (forall e, (reliable o -> e = ErrText "file exists") -> E e fs) -> wp o (os_CreateTemp directory ".autback-link-") Q E fs.
Proof using Habs.
  intros HQ HE. unfold os_CreateTemp. apply wp_bind, wp_rand_Read.
  - intros bs _ Hbs. apply wp_bind, wp_statement; [|intros s Hs; apply HE; intros Hr; by destruct (reliable_fails o s)].
    destruct (path_key_child directory (".autback-link-" +:+ hex_encode bs) Habs) as [Ek _]; [apply pattern_proper; [simpl; lia|done|done]|].
    case_bool_decide as En; [apply wp_ret; by eapply HQ|by apply HE].
  - intros s Hs. apply HE. intros Hr. by destruct (reliable_fails o s).
Qed.

(** The file is filled and takes its name, or the directory keeps its link. *)
Lemma wp_take_name (temporary t project : string) fs (Q : unit -> FS -> Prop) (E : Err -> FS -> Prop) :
  path_key temporary = D ++ [".autback-link-" +:+ t] -> fs !! path_key temporary = None ->
  (forall mode, Q tt (<[D ++ [FileName] := mkFile (lj_Marshal project ++ [10]) true mode]> fs)) ->
  (forall e fs', ~ reliable o -> (forall k, k <> D ++ [".autback-link-" +:+ t] -> fs' !! k = fs !! k) -> E e fs') ->
  wp o (_ ← file_Chmod temporary 420; _ ← os_WriteFile temporary (lj_Marshal project ++ [10]) 420; _ ← may_fail; _ ← may_fail;
        os_RenameFile temporary (Join directory FileName)) Q E (<[path_key temporary := mkFile [] true 384]> fs).
Proof using Habs.
  intros Ht Hn HQ HE. assert (Hi : forall f g e, ~ reliable o -> E e (<[path_key temporary := f]> (<[path_key temporary := g]> fs))).
  { intros f g e Hr. apply HE; [done|]. intros k Hk. rewrite Ht, !lookup_insert_ne by done. done. }
  assert (Hi1 : forall f e, ~ reliable o -> E e (<[path_key temporary := f]> fs)).
  { intros f e Hr. apply HE; [done|]. intros k Hk. by rewrite Ht, lookup_insert_ne by done. }
  assert (Hf : forall s, fails o s -> ~ reliable o) by (intros s Hs Hr; by destruct (reliable_fails o s)).
  unfold file_Chmod. apply wp_bind, wp_statement; [|intros s Hs; by apply Hi1, (Hf s)]. rewrite lookup_insert_eq. cbn [fl_data fl_regular]. rewrite insert_insert_eq.
  apply wp_bind, wp_WriteFile; [intros mode|intros e f Hr; by apply Hi]. rewrite insert_insert_eq.
  apply wp_bind, wp_may_fail; [|intros s Hs; by apply Hi1, (Hf s)]. apply wp_bind, wp_may_fail; [|intros s Hs; by apply Hi1, (Hf s)].
  unfold os_RenameFile. apply wp_statement; [|intros s Hs; by apply Hi1, (Hf s)]. rewrite lookup_insert_eq, link_key, delete_insert_eq.
  rewrite delete_id by done. apply HQ.
Qed.

(** [Write] never changes an existing link; the link it leaves behind names the
    project; a failure leaves every other file as it was. *)
Lemma WriteLink_spec (project : string) fs :
  wp o (WriteLink directory project)
    (fun path fs' => path = Join directory FileName /\ matches_project project = true /\
       (exists f, link_in fs' D = Some f /\ link_of f = Some project) /\
       ((fs' = fs /\ link_in fs D <> None) \/ (link_in fs D = None /\ exists f, fs' = <[D ++ [FileName] := f]> fs)))
    (fun e fs' => same_but_temporary D fs fs' /\ (reliable o -> fs' = fs)) fs.
Proof using Habs.
  unfold WriteLink, validateProject. assert (Hsame : same_but_temporary D fs fs) by (by exists "").
  destruct (matches_project project) eqn:Em; [|by apply wp_throw].
  apply wp_bind. unfold os_Lstat. apply wp_query; [|intros s Hs; by split]. rewrite link_key. fold (link_in fs D). case_bool_decide as El.
  - destruct (wt_symlink _); [by apply wp_throw|]. apply wp_bind. eapply wp_read_link; [apply link_key| |done|done].
    intros f p Hf Hl. cbv beta. case_bool_decide as Ep; [subst p|by apply wp_throw]. apply wp_ret. eauto 10.
  - assert (Hno : link_in fs D = None) by (by destruct (link_in fs D); [destruct El|]). apply wp_bind, wp_CreateTemp; [|by intros e _].
    intros temporary t Ht Hn. apply wp_bind, wp_attempt. eapply wp_take_name; [exact Ht|exact Hn|intros mode|intros e fs' Hr Hk]; apply wp_bind, wp_attempt.
    + assert (Hend : wp o (os_Remove temporary) (fun _ fs' => False) (fun _ fs' => fs' = <[D ++ [FileName] := mkFile (lj_Marshal project ++ [10]) true mode]> fs)
        (<[D ++ [FileName] := mkFile (lj_Marshal project ++ [10]) true mode]> fs)).
      { unfold os_Remove. apply wp_statement; [|done]. rewrite Ht, lookup_insert_ne by (intros E; apply app_inj_2 in E as [_ E]; [injection E as E; symmetry in E; by apply (temporary_ne t)|done]).
        by rewrite <- Ht, Hn. }
      eapply wp_mono; [exact Hend|done|]. intros e fs' ->. apply wp_ret. split; [done|]. split; [done|]. split; [|right; eauto].
      unfold link_in at 1. rewrite lookup_insert_eq. eexists. split; [done|]. by apply link_of_written.
    + unfold os_Remove.
      apply wp_statement; [destruct (fs' !! path_key temporary)|intros s _]; apply wp_throw; (split; [|done]); exists t; [|exact Hk..].
      intros k Hne. rewrite Ht, lookup_delete_ne by done. by apply Hk.
Qed.

Lemma nearest_unique fs root current k k' f f' :
  nearest fs root current (Some k) -> nearest fs root current (Some k') -> link_in fs k = Some f -> link_in fs k' = Some f' -> k = k'.
Proof using.
  intros (_ & H1 & Ha) (_ & H2 & Hb) Hf Hf'. destruct (decide (k = k')) as [|Hne]; [done|]. exfalso.
  destruct (prefix_weak_total _ _ _ H1 H2) as [Hp|Hp]; [|rewrite (Hb k) in Hf by done; done]. rewrite (Ha k') in Hf' by done. done.
Qed.

End LinkTheorems.

Section RoundTrip.
Context `{Worktree} `{LinkJson} (o : Oracle) (directory : string) (Habs : IsAbs directory = true).
#[local] Abbreviation D := (path_key directory).

(** Whoever works in the directory or below it, with no nearer link, then gets
    the project. *)
Lemma link_round_trip (project : string) (fs : FS) :
  wp o (WriteLink directory project)
    (fun _ fs' => forall o2 dir root current, reliable o2 -> in_worktree dir root current -> root `prefix_of` D -> D `prefix_of` current ->
       (forall k', D `prefix_of` k' -> k' `prefix_of` current -> k' <> D -> link_in fs k' = None) ->
       wp o2 (ResolveProject dir "" "") (fun p _ => p = project) (fun _ _ => False) fs')
    (fun _ fs' => link_in fs' D = link_in fs D) fs.
Proof using Habs.
  eapply wp_mono; [by apply WriteLink_spec| |intros e fs' [Hs _]; by apply link_in_temporary].
  intros path fs' (_ & _ & (f & Hf & Hl) & Hfs) o2 dir root current Hr Hw Hroot Hcur Hno.
  assert (Hnear : nearest fs' root current (Some D)).
  { split; [done|]. split; [done|]. intros k' H1 H2 Hne. destruct Hfs as [[-> _]|[_ [g ->]]]; [by apply Hno|].
    unfold link_in. rewrite lookup_insert_ne; [by apply Hno|]. intros E. apply app_inj_2 in E as [E _]; [by destruct Hne|done]. }
  eapply wp_mono; [apply project_is_the_nearest| |].
  - intros p fs'' (_ & _ & [[? _]|[(_ & ? & _)|(_ & _ & root' & current' & Hw' & _ & k & g & Hk & Hg & Hp)]]); [done|done|].
    assert (E : root' = root /\ current' = current).
    { destruct Hw as (a & b & c & E1 & E2 & E3 & <- & <-), Hw' as (a' & b' & c' & E1' & E2' & E3' & <- & <-).
      rewrite E1 in E1'. injection E1' as <-. rewrite E2 in E2'. rewrite E3 in E3'. by simplify_eq. }
    destruct E as [-> ->]. pose proof (nearest_unique _ _ _ _ _ _ _ Hk Hnear Hg Hf) as ->. rewrite Hf in Hg. injection Hg as <-. congruence.
  - intros e fs'' (_ & Hfail). destruct (Hfail eq_refl eq_refl root current Hw (transitivity Hroot Hcur)) as [[_ Hn]|[_ Hb]].
    + rewrite (Hn D) in Hf by done. done.
    + destruct (Hb Hr) as (k & g & Hk & Hg & Hbad). pose proof (nearest_unique _ _ _ _ _ _ _ Hk Hnear Hg Hf) as ->. congruence.
Qed.

End RoundTrip.

(** ** [config] *)

Record ServiceSettings := mkServiceSettings { ss_Image : string; ss_CACertFile : string; ss_OIDCAudience : string }.
Record Settings := mkSettings { st_URL : string; st_Service : option ServiceSettings }.

(** The decoder of the file, which refuses unknown fields; [None] is its error. *)
Class SettingsJson := { sj_Decode : list Z -> option Settings }.

Section Config.
Context `{SettingsJson}.

Definition config_Path (getenv : string -> string) (home : option string) : res string :=
  if negb (bool_decide (getenv "AUTBACK_CONFIG" = "")) then Ok (getenv "AUTBACK_CONFIG") else
  let named := getenv "XDG_CONFIG_HOME" in
  match (if negb (bool_decide (named = "")) then Ok named else match home with Some h => Ok (Join h ".config") | None => Fail (ErrText "$HOME is not defined") end) with
  | Ok root => Ok (Join (Join root "autback") "config.json")
  | Fail e => Fail e
  end.

Definition read_config (path : string) : M FS Settings :=
  r ← query (fun fs => fs !! path_key path);
  match r with
  | None => throw ErrNotExist
  | Some f =>
      if negb (Z.land (fl_perm f) 63 =? 0) then throw (ErrText (path +:+ " must not be accessible by group or other users")) else
      data ← os_ReadFile path;
      match sj_Decode data with Some config => mret config | None => throw (ErrText ("read " +:+ path)) end
  end.

Definition with_audience (config : Settings) : Settings :=
  let service := default (mkServiceSettings "" "" "") (st_Service config) in
  mkSettings (st_URL config) (Some (if bool_decide (ss_OIDCAudience service = "")
    then mkServiceSettings (ss_Image service) (ss_CACertFile service) (st_URL config) else service)).

Definition LoadSettings (getenv : string -> string) (home : option string) : M FS Settings :=
  match config_Path getenv home with
  | Fail e => throw e
  | Ok path =>
      r ← attempt (read_config path);
      config ← match r with
               | Ok config => mret config
               | Fail e => if bool_decide (e = ErrNotExist) then mret (mkSettings "" None) else throw e
               end;
      let config := if negb (bool_decide (getenv "AUTBACK_URL" = "")) then mkSettings (getenv "AUTBACK_URL") (st_Service config) else config in
      if bool_decide (st_URL config = "") then throw (ErrText ("url is required in " +:+ path +:+ " or AUTBACK_URL")) else
      mret (with_audience config)
  end.

Lemma refusal_exists (path : string) : ErrText (path +:+ " must not be accessible by group or other users") <> ErrNotExist.
Proof using.
  assert (Hl : forall tail, String.length (path +:+ tail) = (String.length path + String.length tail)%nat).
  { intros tail. induction path as [|c path IH]; [done|]. change (String c path +:+ tail) with (String c (path +:+ tail)). simpl. by rewrite IH. }
  intros [= E]. apply (f_equal String.length) in E. rewrite Hl in E. simpl in E. lia.
Qed.

(** The settings are complete, the variable wins over the file, and a file that
    others may read is never used. *)
Lemma settings_are_complete o getenv home fs :
  wp o (LoadSettings getenv home)
    (fun config fs' => fs' = fs /\ st_URL config <> "" /\ (exists service, st_Service config = Some service /\ ss_OIDCAudience service <> "") /\
       (getenv "AUTBACK_URL" <> "" -> st_URL config = getenv "AUTBACK_URL") /\
       forall path f, config_Path getenv home = Ok path -> fs !! path_key path = Some f -> Z.land (fl_perm f) 63 = 0)
    (fun _ fs' => fs' = fs) fs.
Proof using.
  unfold LoadSettings. destruct (config_Path getenv home) as [path|e] eqn:Ep; [|by apply wp_throw].
  assert (Hrest : forall config, (forall f, fs !! path_key path = Some f -> Z.land (fl_perm f) 63 = 0) ->
    wp o (let config := if negb (bool_decide (getenv "AUTBACK_URL" = "")) then mkSettings (getenv "AUTBACK_URL") (st_Service config) else config in
      if bool_decide (st_URL config = "") then throw (ErrText ("url is required in " +:+ path +:+ " or AUTBACK_URL")) else mret (with_audience config))
    (fun config fs' => fs' = fs /\ st_URL config <> "" /\ (exists service, st_Service config = Some service /\ ss_OIDCAudience service <> "") /\
       (getenv "AUTBACK_URL" <> "" -> st_URL config = getenv "AUTBACK_URL") /\
       forall path' f, Ok path = Ok path' -> fs !! path_key path' = Some f -> Z.land (fl_perm f) 63 = 0) (fun _ fs' => fs' = fs) fs).
  { intros config Hperm. cbv zeta. set (config' := if negb _ then _ else _). case_bool_decide as Eu; [by apply wp_throw|]. apply wp_ret.
    split; [done|]. split; [done|]. split; [|split].
    - eexists. split; [done|]. case_bool_decide as Ea; done.
    - intros Hv. unfold with_audience. cbn [st_URL]. unfold config'. by rewrite bool_decide_eq_false_2.
    - intros path' f [= <-]. apply Hperm. }
  apply wp_bind, wp_attempt. unfold read_config. apply wp_bind, wp_query; [|intros s _; apply wp_bind; rewrite bool_decide_eq_false_2 by done; by apply wp_throw].
  destruct (fs !! path_key path) as [f|] eqn:Ef.
  - destruct (Z.land (fl_perm f) 63 =? 0) eqn:Ez; cbn [negb]; [|apply wp_throw, wp_bind; rewrite bool_decide_eq_false_2 by apply refusal_exists; by apply wp_throw].
    unfold os_ReadFile. apply wp_bind, wp_bind, wp_query; [|intros s _; apply wp_bind; rewrite bool_decide_eq_false_2 by done; by apply wp_throw]. rewrite Ef. apply wp_ret.
    destruct (sj_Decode _) as [config|]; [apply wp_ret, wp_bind, wp_ret; apply Hrest; intros f' [= <-]; by apply Z.eqb_eq|apply wp_throw, wp_bind; rewrite bool_decide_eq_false_2 by done; by apply wp_throw].
  - apply wp_throw, wp_bind. rewrite bool_decide_eq_true_2 by done. apply wp_ret. by apply Hrest.
Qed.

End Config.

(** ** [workspace] *)

Section Workspace.
Context `{Worktree}.

(** [bytes.Split] at zero bytes. *)
Fixpoint split_zero (l : list Z) : list (list Z) :=
  match l with
  | [] => [[]]
  | b :: rest => if b =? 0 then [] :: split_zero rest else match split_zero rest with [] => [[b]] | h :: t => (b :: h) :: t end
  end.

(** Something is there: a file, or a directory with files. *)
Definition present (root path : string) (fs : FS) : bool := bool_decide (below (path_key (Join root path)) fs <> ∅).

Fixpoint present_files (root : string) (items : list (list Z)) : M FS (list string) :=
  match items with
  | [] => mret []
  | [] :: rest => present_files root rest
  | item :: rest =>
      let path := of_bytes item in
      there ← query (present root path);
      files ← present_files root rest;
      mret (if there : bool then path :: files else files)
  end.

Definition workspace_Root (directory : string) : res string := repositoryRoot directory.

(** [Files]: the paths are sorted. *)
Definition Files (root : string) : M FS (list string) :=
  match wt_ls_files root with
  | None => throw (ErrText "select worktree files")
  | Some output => files ← present_files root (split_zero output); mret (order_by String.leb files)
  end.

Lemma present_files_spec o root items fs :
  wp o (present_files root items)
    (fun files fs' => fs' = fs /\ files = map of_bytes (select (fun item => negb (bool_decide (item = [])) && present root (of_bytes item) fs) items))
    (fun _ fs' => fs' = fs /\ ~ reliable o) fs.
Proof using.
  induction items as [|item items IH]; cbn [present_files]; [by apply wp_ret|]. destruct item as [|b item]; [exact IH|].
  apply wp_bind, wp_query; [|intros s Hs; split; [done|]; intros Hr; by destruct (reliable_fails o s)].
  apply wp_bind. eapply wp_mono; [exact IH| |done]. intros files fs' [-> ->]. apply wp_ret. split; [done|].
  cbn [select List.filter]. rewrite bool_decide_eq_false_2 by done. cbn [negb andb]. by destruct (present root (of_bytes (b :: item)) fs).
Qed.

(** The uploaded tree is what Git lists and the disk has, in order. *)
Lemma worktree_files o root output fs :
  wt_ls_files root = Some output ->
  wp o (Files root)
    (fun files fs' => fs' = fs /\ StronglySorted (fun a b => String.leb a b = true) files /\
       forall path, path ∈ files <-> exists item, item ∈ split_zero output /\ item <> [] /\ path = of_bytes item /\ present root path fs = true)
    (fun _ fs' => fs' = fs /\ ~ reliable o) fs.
Proof using.
  intros Ho. unfold Files. rewrite Ho. apply wp_bind. eapply wp_mono; [apply present_files_spec| |done]. intros files fs' [-> ->]. apply wp_ret.
  split; [done|]. split; [apply order_by_sorted; [apply String.leb_total|apply leb_trans]|]. intros path. rewrite (order_by_perm String.leb).
  rewrite list_elem_of_fmap. setoid_rewrite elem_of_select. setoid_rewrite andb_true_iff. setoid_rewrite negb_true_iff. setoid_rewrite bool_decide_eq_false. naive_solver.
Qed.

End Workspace.

(** ** [credentialfiles] *)

Record CredentialFiles := mkCredentialFiles { cf_Root : string; cf_CA : string; cf_Certificate : string; cf_Key : string }.

Definition cleanup_credentials (f : CredentialFiles) : M FS unit := if bool_decide (cf_Root f = "") then mret tt else os_RemoveAll (cf_Root f).

(** The range over the map of files, in one of its orders. *)
Definition map_order {A} (n : Z) (a b c : A) : list A :=
  default [a; b; c] ([[a; b; c]; [a; c; b]; [b; a; c]; [b; c; a]; [c; a; b]; [c; b; a]] !! Z.to_nat (n mod 6)).

Fixpoint write_credentials (items : list (string * list Z)) : M FS unit :=
  match items with
  | [] => mret tt
  | (path, data) :: rest => _ ← os_WriteFile path data 384; write_credentials rest
  end.

Definition WriteCredentials (ca certificate key : list Z) : M FS CredentialFiles :=
  if bool_decide (ca = []) || bool_decide (certificate = []) || bool_decide (key = [])
  then throw (ErrText "CA, certificate, and private key are required") else
  root ← os_MkdirTemp "/tmp" "autback-credentials-";
  let files := mkCredentialFiles root (Join root "ca.pem") (Join root "cert.pem") (Join root "key.pem") in
  n ← rand_byte;
  r ← attempt (write_credentials (map_order n (cf_CA files, ca) (cf_Certificate files, certificate) (cf_Key files, key)));
  match r with
  | Ok _ => mret files
  | Fail e => _ ← attempt (cleanup_credentials files); throw e
  end.

(** Each of the three files holds its part, and nothing outside the new
    directory is touched, whatever fails. *)
Definition holds (fs : FS) (path : string) (data : list Z) : Prop := exists f, fs !! path_key path = Some f /\ fl_data f = data.

Lemma write_credentials_spec (o : Oracle) (items : list (string * list Z)) (fs : FS) (dir : list string) (Q : unit -> FS -> Prop) (E : Err -> FS -> Prop) :
  NoDup (map (fun x => path_key x.1) items) -> Forall (fun x => dir `prefix_of` path_key x.1) items ->
  (forall fs', Forall (fun x => holds fs' x.1 x.2) items -> (forall k, ~ dir `prefix_of` k -> fs' !! k = fs !! k) ->
     (forall k, k ∉ map (fun x => path_key x.1) items -> fs' !! k = fs !! k) -> Q tt fs') ->
  (forall e fs', ~ reliable o -> (forall k, ~ dir `prefix_of` k -> fs' !! k = fs !! k) -> E e fs') ->
  wp o (write_credentials items) Q E fs.
Proof.
  revert fs Q. induction items as [|[path data] items IH]; intros fs Q Hnd Hd HQ HE; cbn [write_credentials]; [by apply wp_ret, HQ|].
  cbn in Hnd. inversion Hnd as [|? ? Hx Hnd']; subst. inversion Hd as [|? ? Hp Hd']; subst. cbn in Hp, Hx.
  assert (Hne : forall k, ~ dir `prefix_of` k -> k <> path_key path) by (intros k Hk ->; done).
  apply wp_bind, wp_WriteFile; [intros mode|intros e f Hr; apply HE; [done|]; intros k Hk; by rewrite lookup_insert_ne by (by apply not_eq_sym, Hne)].
  apply IH; [done|done| |].
  - intros fs' Hall Hout Hin. apply HQ.
    + constructor; [|done]. cbn. eexists. rewrite Hin by done. rewrite lookup_insert_eq. done.
    + intros k Hk. rewrite Hout by done. by rewrite lookup_insert_ne by (by apply not_eq_sym, Hne).
    + intros k Hk. cbn in Hk. apply not_elem_of_cons in Hk as [Hk1 Hk2]. rewrite Hin by done. by rewrite lookup_insert_ne.
  - intros e fs' Hr Hout. apply HE; [done|]. intros k Hk. rewrite Hout by done. by rewrite lookup_insert_ne by (by apply not_eq_sym, Hne).
Qed.

Lemma map_order_perm {A} n (a b c : A) : map_order n a b c ≡ₚ [a; b; c].
Proof.
  assert (H : Forall (fun l => l ≡ₚ [a; b; c]) [[a; b; c]; [a; c; b]; [b; a; c]; [b; c; a]; [c; a; b]; [c; b; a]]).
  { assert (Hc : [c; a; b] ≡ₚ [a; b; c]) by exact (perm_trans (perm_swap a c [b]) (perm_skip a (perm_swap b c []))).
    repeat constructor; [exact (perm_trans (perm_skip b (perm_swap a c [])) (perm_swap a b [c]))|exact Hc|exact (perm_trans (perm_skip c (perm_swap a b [])) Hc)]. }
  unfold map_order. destruct (_ !! Z.to_nat (n mod 6)) as [l|] eqn:E; [|done]. by apply (Forall_lookup_1 _ _ _ _ H E).
Qed.

Lemma credentials_are_written o ca certificate key fs :
  wp o (WriteCredentials ca certificate key)
    (fun files fs' => holds fs' (cf_CA files) ca /\ holds fs' (cf_Certificate files) certificate /\ holds fs' (cf_Key files) key /\
       below (path_key (cf_Root files)) fs = ∅ /\ forall k, ~ path_key (cf_Root files) `prefix_of` k -> fs' !! k = fs !! k)
    (fun _ fs' => exists t, forall k, ~ (["tmp"; "autback-credentials-" +:+ t] `prefix_of` k) -> fs' !! k = fs !! k) fs.
Proof.
  unfold WriteCredentials. destruct (_ || _); [apply wp_throw; by exists ""|].
  apply wp_bind, wp_TempDir; [done|intros x Hx; apply pattern_proper; [simpl; lia|done|done]| |intros e _; by exists ""].
  intros t root Ht Habs Hk Hfresh. change (path_key "/tmp") with ["tmp"] in Hk. cbv zeta. apply wp_bind, wp_rand_byte. intros n _.
  assert (Hp : forall name, proper name -> path_key (Join root name) = path_key root ++ [name]) by (intros name Hn; by destruct (path_key_child root name Habs Hn)).
  pose proof (map_order_perm n (Join root "ca.pem", ca) (Join root "cert.pem", certificate) (Join root "key.pem", key)) as Hperm. cbn [cf_CA cf_Certificate cf_Key].
  apply wp_bind, wp_attempt. apply write_credentials_spec with (dir := path_key root).
  - rewrite Hperm. cbn [map fst]. rewrite !Hp by done. assert (Hne : forall a b, a <> b -> path_key root ++ [a] <> path_key root ++ [b]) by (intros a b Hab E; by apply app_inj_2 in E as [_ [= E]]).
    apply NoDup_cons. split; [|apply NoDup_cons; split; [|apply NoDup_singleton]]; rewrite ?not_elem_of_cons, ?not_elem_of_nil; split_and!; first [by apply Hne | apply not_elem_of_nil].
  - rewrite Hperm, !Forall_cons. cbn [fst]. rewrite !Hp by done. split_and!; [by apply prefix_app_r..|constructor].
  - intros fs' Hall Hout _. rewrite Hperm in Hall. apply wp_ret. cbn. inversion Hall as [|? ? H1 Hall1]; subst. inversion Hall1 as [|? ? H2 Hall2]; subst.
    inversion Hall2 as [|? ? H3 _]; subst. done.
  - intros e fs' _ Hout. apply wp_bind, wp_attempt. unfold cleanup_credentials. cbn [cf_Root].
    assert (Hend : forall fs'' : FS, (forall k, ~ path_key root `prefix_of` k -> fs'' !! k = fs' !! k) ->
      exists t, forall k, ~ (["tmp"; "autback-credentials-" +:+ t] `prefix_of` k) -> fs'' !! k = fs !! k).
    { intros fs'' Hs. exists t. intros k Hn. rewrite Hk in Hs, Hout. rewrite Hs by done. by apply Hout. }
    case_bool_decide; [apply wp_ret, wp_throw; by apply Hend|].
    apply wp_RemoveAll; [|intros e' _]; apply wp_throw, Hend; [|done]. intros k Hn. by apply lookup_outside.
Qed.

(** ** The keyring *)

(** The keyring of the system, a map from services and accounts. *)
Class Keyring (K : Type) := {
  kr_map : K -> gmap (string * string) string;
  kr_Get : string -> string -> M K string;
  kr_Set : string -> string -> string -> M K unit;
  kr_Delete : string -> string -> M K unit;
  kr_get_law : forall o service user k, wp o (kr_Get service user)
    (fun v k' => k' = k /\ kr_map k !! (service, user) = Some v) (fun _ k' => k' = k /\ (reliable o -> kr_map k !! (service, user) = None)) k;
  kr_set_law : forall o service user v k, wp o (kr_Set service user v)
    (fun _ k' => kr_map k' = <[(service, user) := v]> (kr_map k)) (fun _ k' => ~ reliable o /\ kr_map k' = kr_map k) k;
  kr_delete_law : forall o service user k, wp o (kr_Delete service user)
    (fun _ k' => kr_map k' = delete (service, user) (kr_map k)) (fun _ k' => kr_map k' = kr_map k) k
}.

Section KeyringTokens.
Context `{UrlParser} {K : Type} `{Keyring K}.

Definition serviceName : string := "autback".

(** The account of a service is its origin. *)
Definition account (serviceURL : string) : res string :=
  match url_Parse (trim_slashes serviceURL) with
  | Some u => if bool_decide (url_Scheme u = "") || bool_decide (url_Host u = "") then Fail (ErrText "autback service URL must be absolute")
              else Ok (url_Scheme u +:+ "://" +:+ url_Host u)
  | None => Fail (ErrText "autback service URL must be absolute")
  end.

Definition on_account {A} (serviceURL : string) (m : string -> M K A) : M K A :=
  match account serviceURL with Ok user => m user | Fail e => throw e end.

Definition StoreToken (serviceURL token : string) : M K unit :=
  if bool_decide (token = "") then throw (ErrText "token is required") else on_account serviceURL (fun user => kr_Set serviceName user token).
Definition StoredToken (serviceURL : string) : M K string := on_account serviceURL (fun user => kr_Get serviceName user).
Definition DeleteToken (serviceURL : string) : M K unit := on_account serviceURL (fun user => kr_Delete serviceName user).

(** A stored token is found again under every URL of the same origin, and no
    other service sees it. *)
Lemma stored_token_is_found o1 o2 url token k :
  reliable o2 ->
  wp o1 (StoreToken url token)
    (fun _ k' => forall url', (account url' = account url -> wp o2 (StoredToken url') (fun t k'' => t = token /\ k'' = k') (fun _ _ => False) k') /\
       (account url' <> account url -> forall user, account url' = Ok user -> kr_map k' !! (serviceName, user) = kr_map k !! (serviceName, user)))
    (fun _ k' => kr_map k' = kr_map k) k.
Proof using.
  intros Hr. unfold StoreToken, on_account. case_bool_decide as Et; [by apply wp_throw|].
  destruct (account url) as [user|e] eqn:Ea; [|by apply wp_throw]. eapply wp_mono; [apply kr_set_law| |by intros e k' [_ Hk]].
  intros ? k' Hk url'. split.
  - intros Hacc. unfold StoredToken, on_account. rewrite Hacc. eapply wp_mono; [apply kr_get_law| |].
    + intros t k'' [-> Hv]. rewrite Hk, lookup_insert_eq in Hv. by injection Hv as <-.
    + intros e k'' [-> Hv]. specialize (Hv Hr). by rewrite Hk, lookup_insert_eq in Hv.
  - intros Hne user' Hu. rewrite Hk, lookup_insert_ne; [done|]. intros [= ->]. by rewrite Hu in Hne.
Qed.

End KeyringTokens.

(** ** A worktree *)

#[local] Definition demo_worktree : Worktree.
Proof.
  refine {| wt_toplevel _ := Some "/src"; wt_ls_files _ := Some (bytes "b" ++ [0] ++ bytes "a" ++ [0]); wt_canonical p := Some (Clean ("/" +:+ p)); wt_symlink _ := false |}.
  intros p q [= <-]. assert (E : Clean ("/" +:+ p) = path_of (clean_parts true ("/" +:+ p))).
  { change ("/" +:+ p) with (String "/"%char p). unfold Clean. by rewrite IsAbs_slash. }
  rewrite E. split; [apply IsAbs_slash|]. apply Clean_path_of, clean_parts_rooted.
Defined.

#[local] Definition demo_link_json : LinkJson.
Proof.
  refine {| lj_tokens l := [JsonOpen; JsonString "project"; JsonString (of_bytes (removelast l)); JsonClose]; lj_Marshal := bytes |}.
  - intros project. unfold matches_project. destruct (bytes project) as [|b rest]; [done|]. rewrite !andb_true_iff, Nat.leb_le. simpl. lia.
  - intros project _. by rewrite removelast_last, of_bytes_bytes.
Defined.

(** A link in [/src] holds for [/src/cmd/tool]; a nearer one wins; a directory
    outside of the worktree has none. *)
Example link_demo :
  let fs : FS := {[ ["src"; "cmd"; "autback.json"] := mkFile (bytes "near" ++ [10]) true 420 ]} in
  let resolve dir fs := (@ResolveProject demo_worktree demo_link_json dir "" "" (mkOracle (fun _ => 0) (fun _ => 0) (fun _ => None)) (fs, 0%nat)).1 in
  match @WriteLink demo_worktree demo_link_json "/src" "far" (mkOracle (fun _ => 0) (fun _ => 0) (fun _ => None)) (fs, 0%nat) with
  | (Ok _, (fs', _)) => resolve "/src/pkg" fs' = Ok "far" /\ resolve "/src/cmd/tool" fs' = Ok "near" /\
      resolve "/home" fs' = Fail (ErrText "current directory is outside the Git worktree")
  | _ => False
  end.
Proof. vm_compute. done. Qed.
