(* ===== verification/HttpClients.v ===== *)
(** * HTTP clients

    The clients of the program over a network that is a parameter:
    [internal/humanauth/github.go], which implements the interface
    [GitHubProvider] of the human login; [browser_login.go] and [github.go] of
    [internal/authclient], with which the command line obtains its tokens;
    [internal/control/controlclient/client.go]; and the local proxy of the
    console in [internal/cli/console.go]. *)
From stdpp Require Import gmap.
From Stdlib Require Import Ascii.
From S2P Require Import Prelude Model GoMonad GoLib GoStrings Encoding Path HumanAuth ServerMain Text Recovery RecoveryTheorems SecretsTheorems ValidateTheorems Secrets DataPlane.

(** ** Requests *)

Record HttpCall := mkCall { hc_Method : string; hc_URL : string; hc_Header : list (string * string); hc_Body : string }.
Record HttpReply := mkReply { hy_StatusCode : Z; hy_Status : string; hy_Body : list Z }.

(** [http.Client.Do]: an answer, or an error of the transport. *)
Class Network (N : Type) := { net_Do : HttpCall -> M N HttpReply }.

(** [url.QueryEscape] and the encoding of [url.Values], ordered by their keys. *)
Definition query_safe (b : Z) : bool :=
  ((48 <=? b) && (b <=? 57)) || ((65 <=? b) && (b <=? 90)) || ((97 <=? b) && (b <=? 122)) || existsb (Z.eqb b) [45; 95; 46; 126].
Definition query_byte (b : Z) : list Z :=
  if query_safe b then [b] else if b =? 32 then [43] else [37; upper_hex (b / 16); upper_hex (b mod 16)].
Definition QueryEscape (s : string) : string := of_bytes (flat_map query_byte (bytes s)).
Definition key_before (a b : string * string) : bool := String.leb a.1 b.1.
Definition encode_pair (kv : string * string) : string := QueryEscape kv.1 +:+ "=" +:+ QueryEscape kv.2.
Definition Encode (values : list (string * string)) : string := String.concat "&" (map encode_pair (order_by key_before values)).

(** [url.QueryUnescape]: a plus sign is a space. *)
Definition QueryUnescape (s : string) : option string := of_bytes <$> url_unescape (map (fun b => if b =? 43 then 32 else b) (bytes s)).

(** The first value that is not empty. *)
Fixpoint firstNonEmpty (values : list string) : string :=
  match values with [] => "unknown error" | v :: rest => if bool_decide (v = "") then firstNonEmpty rest else v end.

(** ** [humanauth.GitHub] *)

Record GitHubConfig := mkGitHubConfig {
  gc_ClientID : string; gc_ClientSecret : string; gc_CallbackURL : string; gc_AuthorizeURL : string; gc_TokenURL : string; gc_APIURL : string
}.
Record GitHub := mkGitHub {
  gh_clientID : string; gh_clientSecret : string; gh_callbackURL : string; gh_authorizeURL : string; gh_tokenURL : string; gh_apiURL : string
}.

Definition defaultGitHubAuthorizeURL : string := "https://github.com/login/oauth/authorize".
Definition defaultGitHubTokenURL : string := "https://github.com/login/oauth/access_token".
Definition defaultGitHubAPIURL : string := "https://api.github.com".

(** The answers of GitHub, decoded; [None] is an error of the decoder. *)
Record TokenReply := mkTokenReply { tr_AccessToken : string; tr_Error : string; tr_ErrorDescription : string }.
Record UserReply := mkUserReply { ur_ID : string; ur_Login : string; ur_Name : string }.
Class GitHubJson := { gj_Token : list Z -> option TokenReply; gj_User : list Z -> option UserReply }.

Definition default_url (value other : string) : string := if bool_decide (value = "") then other else value.

(** [url_text] is [URL.String] of a parsed URL. *)
Definition NewGitHub `{UrlParser} (url_text : string -> string) (config : GitHubConfig) : res GitHub :=
  if bool_decide (TrimSpace (gc_ClientID config) = "") || bool_decide (TrimSpace (gc_ClientSecret config) = "")
  then Fail (ErrText "GitHub client ID and secret are required") else
  match url_Parse (gc_CallbackURL config) with
  | None => Fail (ErrText "GitHub callback URL must use HTTPS")
  | Some callback =>
      if negb (bool_decide (url_Scheme callback = "https")) || bool_decide (url_Host callback = "") then Fail (ErrText "GitHub callback URL must use HTTPS") else
      let authorize := default_url (gc_AuthorizeURL config) defaultGitHubAuthorizeURL in
      let token := default_url (gc_TokenURL config) defaultGitHubTokenURL in
      let api := default_url (gc_APIURL config) defaultGitHubAPIURL in
      if forallb (fun endpoint => match url_Parse endpoint with
                   | Some u => negb (bool_decide (url_Scheme u = "")) && negb (bool_decide (url_Host u = ""))
                   | None => false end) [authorize; token; api]
      then Ok (mkGitHub (gc_ClientID config) (gc_ClientSecret config) (url_text (gc_CallbackURL config)) authorize token (trim_slashes api))
      else Fail (ErrText "GitHub endpoints must be absolute URLs")
  end.

Definition AuthorizationURL (g : GitHub) (state codeChallenge : string) : string :=
  gh_authorizeURL g +:+ "?" +:+ Encode
    [("client_id", gh_clientID g); ("redirect_uri", gh_callbackURL g); ("state", state);
     ("code_challenge", codeChallenge); ("code_challenge_method", "S256"); ("allow_signup", "false")].

Definition token_request (g : GitHub) (code verifier : string) : HttpCall :=
  mkCall "POST" (gh_tokenURL g) [("Content-Type", "application/x-www-form-urlencoded"); ("Accept", "application/json")]
    (Encode [("client_id", gh_clientID g); ("client_secret", gh_clientSecret g); ("code", code); ("redirect_uri", gh_callbackURL g); ("code_verifier", verifier)]).

Definition identity_request (g : GitHub) (path token : string) : HttpCall :=
  mkCall "GET" (gh_apiURL g +:+ path)
    ([("Accept", "application/vnd.github+json"); ("X-GitHub-Api-Version", "2022-11-28"); ("User-Agent", "autback")]
     ++ (if bool_decide (token = "") then [] else [("Authorization", "Bearer " +:+ token)])) "".

Section GitHubClient.
Context {N : Type} `{Network N} `{GitHubJson} (g : GitHub).

Definition identity (path token : string) : M N GitHubIdentity :=
  response ← net_Do (identity_request g path token);
  if negb (hy_StatusCode response =? 200) then throw (ErrText ("read GitHub identity: " +:+ hy_Status response)) else
  match gj_User (hy_Body response) with
  | None => throw (ErrText "decode GitHub identity")
  | Some user =>
      if bool_decide (Atoi (ur_ID user) = None) || bool_decide (TrimSpace (ur_Login user) = "")
      then throw (ErrText "GitHub identity response is incomplete")
      else mret (mkGitHubIdentity (ur_ID user) (ur_Login user) (ur_Name user))
  end.

Definition github_Exchange (code verifier : string) : M N GitHubIdentity :=
  response ← net_Do (token_request g code verifier);
  let token := gj_Token (hy_Body response) in
  let failed details := throw (ErrText ("GitHub authorization exchange failed: " +:+ firstNonEmpty (details ++ [hy_Status response]))) in
  if negb (hy_StatusCode response =? 200) then failed [""; ""] else
  match token with
  | None => failed [""; ""]
  | Some t => if bool_decide (tr_AccessToken t = "") then failed [tr_ErrorDescription t; tr_Error t] else identity "/user" (tr_AccessToken t)
  end.

Definition Lookup (login : string) : M N GitHubIdentity :=
  let login := TrimSpace login in
  if bool_decide (login = "") || has_byte "/"%char login then throw (ErrText "GitHub login is required")
  else identity ("/users/" +:+ PathEscape login) "".

Definition github_Resolve (login : string) : M N ExternalIdentity :=
  i ← Lookup login; mret (mkExternalIdentity "github" (gi_Subject i) (gi_Login i) "" zero_time None).

#[global] Instance github_provider : GitHubProvider N := {| gh_AuthorizationURL := AuthorizationURL g; gh_Exchange := github_Exchange |}.

End GitHubClient.

(** ** [authclient] *)

(** [net.ParseIP] with [IsLoopback]. *)
Class IpParser := { ip_loopback : string -> bool; ip_named : ip_loopback "localhost" = false }.

Definition loopback_host `{IpParser} (host : string) : bool := bool_decide (host = "localhost") || ip_loopback host.

Record StartedLogin := mkStartedLogin {
  sl_DeviceCode : string; sl_UserCode : string; sl_VerificationURI : string; sl_VerificationURIComplete : string; sl_ExpiresAt : time; sl_Interval : duration
}.
Record LoginReply := mkLoginReply {
  lp_DeviceCode : string; lp_UserCode : string; lp_VerificationURI : string; lp_VerificationURIComplete : string; lp_ExpiresInSeconds : Z; lp_IntervalSeconds : Z
}.
Record PollReply := mkPollReply { pp_Status : string; pp_Token : string; pp_TokenID : string }.

(** The JSON of the login: what is sent, and the answers decoded. *)
Class LoginJson := {
  lo_Marshal : string -> string -> string;
  lo_Start : list Z -> option LoginReply;
  lo_Poll : list Z -> option PollReply;
  lo_Value : list Z -> option string
}.

Section BrowserLogin.
Context {N : Type} `{Network N} `{LoginJson} `{UrlParser} `{IpParser}.

Definition NewBrowserLoginClient (baseURL : string) : res URL :=
  match url_Parse (trim_slashes baseURL) with
  | None => Fail (ErrText "browser login URL must be absolute HTTP(S)")
  | Some u =>
      if bool_decide (url_Scheme u = "") || bool_decide (url_Host u = "") || (negb (bool_decide (url_Scheme u = "https")) && negb (bool_decide (url_Scheme u = "http")))
      then Fail (ErrText "browser login URL must be absolute HTTP(S)") else
      if bool_decide (url_Scheme u = "http") && negb (loopback_host (url_Hostname u)) then Fail (ErrText "browser login requires HTTPS except on loopback") else Ok u
  end.

(** The status and the decoded body. *)
Definition post {A} (base : URL) (path key value : string) (decode : list Z -> option A) : M N (Z * A) :=
  response ← net_Do (mkCall "POST" (url_Resolve base path "") [("Content-Type", "application/json"); ("Accept", "application/json")] (lo_Marshal key value));
  match decode (hy_Body response) with Some a => mret (hy_StatusCode response, a) | None => throw (ErrText "decode browser login response") end.

Definition login_Start (base : URL) (deviceName : string) : M N StartedLogin :=
  '(status, r) ← post base "/auth/cli/start" "device_name" deviceName lo_Start;
  if negb (status =? 201) || bool_decide (lp_DeviceCode r = "") || bool_decide (lp_UserCode r = "") || bool_decide (lp_VerificationURIComplete r = "") || (lp_ExpiresInSeconds r <=? 0)
  then throw (ErrText "start browser login: unexpected HTTP response") else
  let interval := wrap64 (lp_IntervalSeconds r * Second) in
  now ← time_Now;
  mret (mkStartedLogin (lp_DeviceCode r) (lp_UserCode r) (lp_VerificationURI r) (lp_VerificationURIComplete r)
    (now + wrap64 (lp_ExpiresInSeconds r * Second)) (if interval <=? 0 then 2 * Second else interval)).

(** [None] is an authorization that is still pending. *)
Definition login_Poll (base : URL) (deviceCode : string) : M N (option (string * string)) :=
  '(status, r) ← post base "/auth/cli/token" "device_code" deviceCode lo_Poll;
  if (status =? 202) && bool_decide (pp_Status r = "authorization_pending") then mret None else
  if negb (status =? 200) || negb (bool_decide (pp_Status r = "authorized")) || bool_decide (pp_Token r = "")
  then throw (ErrText ("complete browser login: HTTP " +:+ pp_Status r)) else mret (Some (pp_Token r, pp_TokenID r)).

(** [GitHubActions]: [endpoint] is the URL of the workflow's token service with
    the audience set in its query, [None] when it cannot be parsed. *)
Definition ActionsAvailable (getenv : string -> string) : bool :=
  negb (bool_decide (getenv "ACTIONS_ID_TOKEN_REQUEST_URL" = "")) && negb (bool_decide (getenv "ACTIONS_ID_TOKEN_REQUEST_TOKEN" = "")).

Definition ActionsIDToken (getenv : string -> string) (endpoint : string -> string -> option string) (audience : string) : M N string :=
  if negb (ActionsAvailable getenv) then throw (ErrText "GitHub Actions OIDC identity is unavailable") else
  match endpoint (getenv "ACTIONS_ID_TOKEN_REQUEST_URL") audience with
  | None => throw (ErrText "parse: invalid URL")
  | Some target =>
      response ← net_Do (mkCall "GET" target [("Authorization", "Bearer " +:+ getenv "ACTIONS_ID_TOKEN_REQUEST_TOKEN")] "");
      if negb (hy_StatusCode response =? 200) then throw (ErrText "GitHub Actions OIDC endpoint rejected the request") else
      match lo_Value (hy_Body response) with
      | None => throw (ErrText "unexpected end of JSON input")
      | Some value => if bool_decide (value = "") then throw (ErrText "GitHub Actions returned an empty OIDC token") else mret value
      end
  end.

End BrowserLogin.

(** ** [controlclient] *)

Definition set_header (name value : string) (header : list (string * string)) : list (string * string) :=
  (name, value) :: select (fun kv => negb (bool_decide (kv.1 = name))) header.

(** The transports that add the credential, and the version and capabilities. *)
Definition authorizationTransport (token : string) (q : HttpCall) : HttpCall :=
  mkCall (hc_Method q) (hc_URL q) (set_header "Authorization" ("Bearer " +:+ token) (hc_Header q)) (hc_Body q).
Definition metadataTransport (q : HttpCall) : HttpCall :=
  mkCall (hc_Method q) (hc_URL q)
    (set_header "Autback-Client-Capabilities" "build-lease-heartbeat,durable-job-preparation" (set_header "Autback-Client-Version" "0.1.12" (hc_Header q))) (hc_Body q).

(** [NewHTTPClient]: the base URL, and what every request gets.  [has_certificates]
    is [AppendCertsFromPEM]. *)
Definition NewHTTPClient `{UrlParser} (has_certificates : list Z -> bool) (baseURL token caCertFile : string) : M FS (URL * (HttpCall -> HttpCall)) :=
  match url_Parse (trim_slashes baseURL) with
  | None => throw (ErrText "autback service URL must be absolute")
  | Some u =>
      if bool_decide (url_Scheme u = "") || bool_decide (url_Host u = "") then throw (ErrText "autback service URL must be absolute") else
      if negb (bool_decide (url_Scheme u = "https")) && negb (bool_decide (url_Scheme u = "http"))
      then throw (ErrText "autback service URL must use HTTPS or local HTTP") else
      _ ← (if bool_decide (caCertFile = "") then mret tt else
           data ← os_ReadFile caCertFile;
           if has_certificates data then mret tt else throw (ErrText "autback control CA file contains no certificates"));
      mret (u, if bool_decide (token = "") then fun q => q else authorizationTransport token)
  end.

(** [New]. *)
Definition NewControlClient `{UrlParser} (has_certificates : list Z -> bool) (baseURL token caCertFile : string) : M FS (URL * (HttpCall -> HttpCall)) :=
  '(u, transport) ← NewHTTPClient has_certificates baseURL token caCertFile;
  mret (u, fun q => transport (metadataTransport q)).

(** ** The proxy of the console *)

Definition consoleSessionCookie : string := "autback_console_session".

Record ProxyRequest := mkProxyRequest { px_Method : string; px_Path : string; px_Cookie : option string }.

(** What the handler does: it answers itself, or passes the request on with the
    token of the device. *)
Inductive ProxyAction :=
| ProxyNotFound
| ProxySession (cookie : string)
| ProxyUnauthorized
| ProxyForward (authorization : string).

Definition console_equal (left right : string) : bool := bool_decide (left = right).

Definition console_proxy (deviceToken session : string) (q : ProxyRequest) : ProxyAction :=
  if bool_decide (px_Method q = "GET") && HasPrefix (px_Path q) "/session/" then
    let candidate := TrimPrefix (px_Path q) "/session/" in
    if bool_decide (candidate = "") || has_byte "/"%char candidate || negb (console_equal candidate session) then ProxyNotFound else ProxySession session
  else if (negb (bool_decide (px_Method q = "GET")) && negb (bool_decide (px_Method q = "HEAD")))
       || (negb (bool_decide (px_Path q = "/app")) && negb (HasPrefix (px_Path q) "/app/")) then ProxyNotFound
  else match px_Cookie q with
       | Some value => if console_equal value session then ProxyForward ("Bearer " +:+ deviceToken) else ProxyUnauthorized
       | None => ProxyUnauthorized
       end.

Definition newConsoleProxy (target : option URL) (deviceToken session : string) : res (ProxyRequest -> ProxyAction) :=
  match target with
  | None => Fail (ErrText "console target must be an absolute HTTP(S) URL")
  | Some u =>
      if bool_decide (url_Host u = "") || (negb (bool_decide (url_Scheme u = "http")) && negb (bool_decide (url_Scheme u = "https")))
      then Fail (ErrText "console target must be an absolute HTTP(S) URL") else
      if bool_decide (deviceToken = "") || bool_decide (session = "") then Fail (ErrText "console device token and local session are required") else
      Ok (console_proxy deviceToken session)
  end.

Definition randomConsoleSession {D} : M D string := b ← rand_Read 32; mret (hex_encode b).

(** ** Queries *)

(** What a server reads from a query. *)
Definition parse_pair (s : string) : option (string * string) :=
  match Split "="%char s with
  | [k; v] => k ← QueryUnescape k; v ← QueryUnescape v; Some (k, v)
  | _ => None
  end.
Definition ParseQuery (s : string) : option (list (string * string)) :=
  if bool_decide (s = "") then Some [] else mapM parse_pair (Split "&"%char s).

Lemma query_bytes b x : is_byte b -> x ∈ query_byte b -> is_byte x /\ x <> 38 /\ x <> 61.
Proof.
  intros Hb. unfold query_byte, is_byte in *. destruct (query_safe b) eqn:Es.
  - intros ->%list_elem_of_singleton. split; [done|]. split; intros ->; discriminate Es.
  - destruct (b =? 32); [intros ->%list_elem_of_singleton; lia|].
    pose proof (Z.div_pos b 16). pose proof (Z.mod_pos_bound b 16). assert (b / 16 < 16) by (apply Z.div_lt_upper_bound; lia).
    unfold upper_hex. intros Hx. repeat (apply elem_of_cons in Hx as [->|Hx]; [repeat case_match; lia|]). by apply not_elem_of_nil in Hx.
Qed.

Lemma query_escaped s x : x ∈ bytes (QueryEscape s) -> is_byte x /\ x <> 38 /\ x <> 61.
Proof.
  unfold QueryEscape. assert (Hall : Forall (fun x => is_byte x /\ x <> 38 /\ x <> 61) (flat_map query_byte (bytes s))).
  { apply Forall_forall. intros y Hy. apply list_elem_of_In, in_flat_map in Hy as (b & Hb & Hy). apply list_elem_of_In in Hb, Hy. eapply query_bytes; [|exact Hy].
    pose proof (string_bytes s) as Hs. rewrite Forall_forall in Hs. by apply Hs. }
  rewrite bytes_of_bytes by (eapply Forall_impl; [exact Hall|]; by intros y [? _]). rewrite Forall_forall in Hall. apply Hall.
Qed.

Definition plus_space (b : Z) : Z := if b =? 43 then 32 else b.

Lemma unescape_query l : Forall is_byte l -> url_unescape (map plus_space (flat_map query_byte l)) = Some l.
Proof.
  induction 1 as [|b l Hb Hl IH]; [done|]. cbn [flat_map]. rewrite map_app. unfold query_byte at 1. unfold is_byte in Hb. destruct (query_safe b) eqn:Es.
  - assert (Hp : plus_space b = b) by (unfold plus_space; destruct (Z.eqb_spec b 43) as [->|]; [discriminate Es|done]).
    cbn [map app]. rewrite Hp. cbn [url_unescape]. destruct (Z.eqb_spec b 37) as [->|]; [discriminate Es|]. by rewrite IH.
  - destruct (Z.eqb_spec b 32) as [->|]; [cbn; by rewrite IH|]. cbn [map app].
    pose proof (Z.div_pos b 16). pose proof (Z.mod_pos_bound b 16). assert (b / 16 < 16) by (apply Z.div_lt_upper_bound; lia).
    assert (Hu : forall n, 0 <= n < 16 -> plus_space (upper_hex n) = upper_hex n).
    { intros d Hd. unfold plus_space, upper_hex. destruct (d <? 10) eqn:E; [apply Z.ltb_lt in E|apply Z.ltb_ge in E]; rewrite (proj2 (Z.eqb_neq _ _)) by lia; done. }
    change (plus_space 37) with 37. rewrite !Hu by lia. cbn [url_unescape]. rewrite Z.eqb_refl. rewrite !unhex_upper by lia. cbn. rewrite IH. cbn.
    pose proof (Z.div_mod b 16). do 2 f_equal. lia.
Qed.

Lemma unescape_query_string s : QueryUnescape (QueryEscape s) = Some s.
Proof.
  unfold QueryUnescape. change (fun b => if b =? 43 then 32 else b) with plus_space. unfold QueryEscape. rewrite bytes_of_bytes.
  - rewrite unescape_query by apply string_bytes. cbn. by rewrite of_bytes_bytes.
  - apply Forall_forall. intros x Hx. apply list_elem_of_In, in_flat_map in Hx as (b & Hb & Hx). apply list_elem_of_In in Hb, Hx.
    pose proof (string_bytes s) as Hs. rewrite Forall_forall in Hs. by destruct (query_bytes b x (Hs _ Hb) Hx).
Qed.

Lemma pair_parses kv : parse_pair (encode_pair kv) = Some kv.
Proof.
  destruct kv as [k v]. unfold parse_pair, encode_pair. cbn [fst snd]. change ("=" +:+ QueryEscape v) with (String "="%char (QueryEscape v)).
  rewrite Split_app by (intros x Hx; by destruct (query_escaped k x Hx) as (_ & _ & ?)).
  rewrite Split_no_sep by (intros x Hx; by destruct (query_escaped v x Hx) as (_ & _ & ?)). by rewrite !unescape_query_string.
Qed.

Lemma pair_bytes kv x : x ∈ bytes (encode_pair kv) -> x <> 38.
Proof.
  unfold encode_pair. rewrite !bytes_app, !elem_of_app. intros [Hx|[Hx|Hx]]; [by destruct (query_escaped _ _ Hx) as (_ & ? & _)|by apply list_elem_of_singleton in Hx as ->|
    by destruct (query_escaped _ _ Hx) as (_ & ? & _)].
Qed.

(** Whatever bytes the values consist of, the receiver reads exactly them. *)
Lemma query_round_trip values : ParseQuery (Encode values) = Some (order_by key_before values).
Proof.
  unfold ParseQuery, Encode. generalize (order_by key_before values). intros l. destruct l as [|kv l]; [done|].
  assert (Hs : Split "&"%char (String.concat "&" (map encode_pair (kv :: l))) = map encode_pair (kv :: l)).
  { revert kv. induction l as [|kv' l IH]; intros kv; [cbn; apply Split_no_sep; apply pair_bytes|].
    change (String.concat "&" (map encode_pair (kv :: kv' :: l))) with (encode_pair kv +:+ String "&"%char (String.concat "&" (map encode_pair (kv' :: l)))).
    rewrite Split_app by apply pair_bytes. by rewrite IH. }
  rewrite bool_decide_eq_false_2.
  - rewrite Hs. clear Hs. generalize (kv :: l). intros m. induction m as [|kv' m IH]; [done|]. cbn [map mapM]. rewrite pair_parses. cbn. cbn in IH. by rewrite IH.
  - intros E. rewrite E in Hs. cbn in Hs. destruct l; [|done]. injection Hs as Hs. destruct kv as [k v]. unfold encode_pair in Hs.
    apply (f_equal bytes) in Hs. rewrite !bytes_app in Hs. cbn [fst snd bytes] in Hs. symmetry in Hs. by apply app_nil in Hs as [_ Hs].
Qed.

(** ** What the clients ensure *)

(** The page GitHub is opened with carries the state and the challenge of the
    login, whatever they consist of. *)
Lemma authorization_carries_state g state challenge :
  exists query values, AuthorizationURL g state challenge = gh_authorizeURL g +:+ "?" +:+ query /\ ParseQuery query = Some values /\
  ("state", state) ∈ values /\ ("code_challenge", challenge) ∈ values /\ ("client_id", gh_clientID g) ∈ values /\ length values = 6%nat.
Proof.
  eexists _, _. split; [done|]. split; [apply query_round_trip|]. rewrite !(order_by_perm key_before). split_and!; [set_solver..|done].
Qed.

Section Outcomes.
Context {N : Type} `{Network N} `{GitHubJson} (g : GitHub) (o : Oracle).

(** An identity of a GitHub account: a number and a name. *)
Definition account_ok (i : GitHubIdentity) : Prop := Atoi (gi_Subject i) <> None /\ TrimSpace (gi_Login i) <> "".

Lemma wp_anything {D A} (m : M D A) (d : D) : wp o m (fun _ _ => True) (fun _ _ => True) d.
Proof using. intros n. by destruct (m o (d, n)) as [[] []]. Qed.

Lemma identity_ok path token n : wp o (identity g path token) (fun i _ => account_ok i) (fun _ _ => True) n.
Proof using.
  unfold identity. apply wp_bind. eapply wp_mono; [apply wp_anything| |done]. intros response n' _. destruct (negb _); [by apply wp_throw|].
  destruct (gj_User _) as [user|]; [|by apply wp_throw]. destruct (_ || _) eqn:E; [by apply wp_throw|]. apply wp_ret.
  apply orb_false_iff in E as [E1 E2]. by rewrite !bool_decide_eq_false in E1, E2.
Qed.

(** Both ways to an identity yield accounts only: the subject that is recorded
    for a user is a number that GitHub assigned. *)
Lemma identities_are_accounts n :
  (forall code verifier, wp o (github_Exchange g code verifier) (fun i _ => account_ok i) (fun _ _ => True) n) /\
  (forall login, wp o (github_Resolve g login) (fun x _ => xi_Provider x = "github" /\ Atoi (xi_Subject x) <> None) (fun _ _ => True) n).
Proof using.
  split.
  - intros code verifier. unfold github_Exchange. apply wp_bind. eapply wp_mono; [apply wp_anything| |done]. intros response n' _. cbv zeta.
    destruct (negb _); [by apply wp_throw|]. destruct (gj_Token _); [|by apply wp_throw]. case_bool_decide; [by apply wp_throw|]. apply identity_ok.
  - intros login. unfold github_Resolve, Lookup. apply wp_bind. destruct (_ || _); [by apply wp_throw|]. eapply wp_mono; [apply identity_ok| |done].
    intros i n' [Hi _]. by apply wp_ret.
Qed.

End Outcomes.

(** The token of a login goes only to the login that it authorizes: a lookup by
    name sends none, and asks for one segment below [/users]. *)
Lemma lookup_is_anonymous g login :
  (forall v, ("Authorization", v) ∉ hc_Header (identity_request g ("/users/" +:+ PathEscape login) "")) /\
  Split "/"%char ("users/" +:+ PathEscape login) = ["users"; PathEscape login].
Proof.
  split.
  - intros v. cbn. rewrite !not_elem_of_cons. split_and!; try (by intros [= ?]). apply not_elem_of_nil.
  - change ("users/" +:+ PathEscape login) with ("users" +:+ String "/"%char (PathEscape login)). rewrite Split_app.
    + rewrite Split_no_sep; [done|]. intros x Hx. by destruct (escaped_bytes login x Hx).
    + cbn. intros x Hx. repeat (apply elem_of_cons in Hx as [->|Hx]; [discriminate|]). by apply not_elem_of_nil in Hx.
Qed.

(** The local proxy adds the token of the device only to reading requests for
    pages of the console from a browser that holds the session, and gives the
    session only to a browser that was opened with it. *)
Lemma proxy_guards_token target token session handler q :
  newConsoleProxy target token session = Ok handler ->
  match handler q with
  | ProxyForward authorization => authorization = "Bearer " +:+ token /\ px_Cookie q = Some session /\
      (px_Method q = "GET" \/ px_Method q = "HEAD") /\ (px_Path q = "/app" \/ HasPrefix (px_Path q) "/app/" = true)
  | ProxySession cookie => cookie = session /\ px_Method q = "GET" /\ HasPrefix (px_Path q) "/session/" = true /\ TrimPrefix (px_Path q) "/session/" = session
  | ProxyNotFound | ProxyUnauthorized => True
  end.
Proof.
  unfold newConsoleProxy. destruct target as [u|]; [|done]. destruct (_ || _); [done|]. destruct (_ || _); [done|]. intros [= <-]. unfold console_proxy, console_equal.
  destruct (bool_decide (px_Method q = "GET") && HasPrefix (px_Path q) "/session/") eqn:E1.
  - apply andb_true_iff in E1 as [Em Ep]. apply bool_decide_eq_true in Em. destruct (_ || _) eqn:E2; [done|].
    rewrite !orb_false_iff, negb_false_iff, bool_decide_eq_true in E2. naive_solver.
  - destruct (_ || _) eqn:E2; [done|]. apply orb_false_iff in E2 as [Em Ep]. rewrite andb_false_iff, !negb_false_iff in Em, Ep. rewrite !bool_decide_eq_true in Em. rewrite bool_decide_eq_true in Ep.
    destruct (px_Cookie q) as [value|] eqn:Ec; [|exact I]. destruct (decide (value = session)) as [->|Hv]; [by rewrite bool_decide_eq_true_2|by rewrite bool_decide_eq_false_2].
Qed.

(** A browser that was not opened with the session never gets a request through:
    its cookies are those that the proxy gave it. *)
Fixpoint browse (handler : ProxyRequest -> ProxyAction) (jar : option string) (requests : list (string * string)) : list ProxyAction :=
  match requests with
  | [] => []
  | (method, path) :: rest =>
      let action := handler (mkProxyRequest method path jar) in
      action :: browse handler (match action with ProxySession cookie => Some cookie | _ => jar end) rest
  end.

Lemma strangers_are_kept_out target token session handler requests :
  newConsoleProxy target token session = Ok handler ->
  (forall method path, (method, path) ∈ requests -> path <> "/session/" +:+ session) ->
  forall action, action ∈ browse handler None requests -> action = ProxyNotFound \/ action = ProxyUnauthorized.
Proof.
  intros Hn. induction requests as [|[method path] requests IH]; intros Hreq action Ha; cbn [browse] in Ha; [by apply not_elem_of_nil in Ha|].
  pose proof (proxy_guards_token _ _ _ _ (mkProxyRequest method path None) Hn) as Hg. cbn [px_Cookie px_Method px_Path] in Hg.
  assert (Hself : handler (mkProxyRequest method path None) = ProxyNotFound \/ handler (mkProxyRequest method path None) = ProxyUnauthorized).
  { destruct (handler _) as [|cookie| |authorization]; [by left| |by right|by destruct Hg as (_ & ? & _)]. exfalso. destruct Hg as (_ & _ & Hp & Ht).
    apply (Hreq method path); [constructor|]. unfold HasPrefix in Hp. apply prefix_app_string in Hp as [r ->]. by rewrite trim_prefix in Ht; subst. }
  apply elem_of_cons in Ha as [->|Ha]; [done|]. apply IH; [intros m p Hm; apply (Hreq m p); by constructor|].
  destruct Hself as [E|E]; rewrite E in Ha; exact Ha.
Qed.

(** The client of the service takes plain HTTP to any host, and then sends its
    token over it; the browser login refuses such a URL. *)
Lemma cleartext_service_is_accepted `{UrlParser} `{IpParser} o has_certificates baseURL token u fs :
  url_Parse (trim_slashes baseURL) = Some u -> url_Scheme u = "http" -> url_Host u <> "" -> loopback_host (url_Hostname u) = false -> token <> "" ->
  wp o (NewHTTPClient has_certificates baseURL token "")
    (fun r _ => forall q, ("Authorization", "Bearer " +:+ token) ∈ hc_Header (r.2 q)) (fun _ _ => False) fs /\
  exists e, NewBrowserLoginClient baseURL = Fail e.
Proof.
  intros Hu Hs Hh Hl Ht. split.
  - unfold NewHTTPClient. rewrite Hu, Hs. rewrite (bool_decide_eq_false_2 (url_Host u = "")) by done. cbn. apply wp_bind, wp_ret, wp_ret. intros q.
    rewrite bool_decide_eq_false_2 by done. constructor.
  - unfold NewBrowserLoginClient. rewrite Hu, Hs, Hl, (bool_decide_eq_false_2 (url_Host u = "")) by done. cbn. eauto.
Qed.

(** A login that has been started can be polled: its codes are there and the
    wait between two polls is positive. *)
Lemma started_login_is_usable {N} `{Network N} `{LoginJson} `{UrlParser} o base device n :
  wp o (login_Start base device) (fun l _ => sl_DeviceCode l <> "" /\ sl_UserCode l <> "" /\ 0 < sl_Interval l) (fun _ _ => True) n.
Proof.
  unfold login_Start. apply wp_bind. eapply wp_mono; [apply wp_anything| |done]. intros [status r] n' _. destruct (_ || _) eqn:E; [by apply wp_throw|].
  rewrite !orb_false_iff, !bool_decide_eq_false in E. destruct E as ((((_ & E1) & E2) & _) & _). cbv zeta. apply wp_bind, wp_now. intros t. apply wp_ret.
  cbn [sl_DeviceCode sl_UserCode sl_Interval]. split; [done|]. split; [done|]. destruct (_ <=? 0) eqn:E; [unfold Second; lia|]. apply Z.leb_gt in E. lia.
Qed.
