(* ===== verification/JobRun.v ===== *)
(** * A run of a job on the worker

    [run] of [cmd/autback-job-entrypoint/main.go] with everything it composes:
    the directory and the log of the job, its secrets and the redaction of its
    output, the workspace that [internal/cas/cas.go] fetches, the baseline of
    Git, the command and the result.  The state is the file system of the worker
    and the commands that have been run on it. *)
From stdpp Require Import gmap.
From Stdlib Require Import Ascii.
From S2P Require Import Prelude Model GoMonad GoLib GoStrings Encoding Path Retry Validate ValidateTheorems Entrypoint Secrets SecretsTheorems Recovery RecoveryTheorems Redact.

(** A command: its arguments, where and with what it ran, the files at its
    start, and how it ended. *)
Record Ran := mkRan {
  rn_args : list string; rn_directory : string; rn_environment : list string; rn_files : FS; rn_context : ContextState; rn_result : CommandResult
}.

Definition Worker : Type := FS * list Ran.

(** What is outside of the program: the tree of a digest in the content store
    and its download into an empty directory, Git, the command itself, whose
    failures are results, and the JSON of the result. *)
Class JobMachine := {
  jm_digest : string -> bool;
  jm_tree : string -> FS;
  jm_connect : string -> string -> M FS unit;
  jm_Download : string -> string -> M FS unit;
  jm_LookPath : M FS (option bool);
  jm_git : string -> list string -> M FS unit;
  jm_Command : list string -> string -> list string -> M FS (ContextState * CommandResult);
  jm_result : string -> Z -> time -> list Z;
  jm_command_law : forall o args dir env fs, wp o (jm_Command args dir env) (fun _ _ => True) (fun _ _ => False) fs;
  jm_connect_law : forall o address instance fs, wp o (jm_connect address instance) (fun _ fs' => fs' = fs) (fun _ fs' => fs' = fs) fs;
  jm_lookpath_law : forall o fs, wp o jm_LookPath (fun _ fs' => fs' = fs) (fun _ fs' => fs' = fs) fs;
  jm_download_law : forall o digest dest fs, below (path_key dest) fs = ∅ ->
    wp o (jm_Download digest dest)
      (fun _ fs' => (forall k, fs' !! (path_key dest ++ k) = jm_tree digest !! k) /\ forall k, ~ path_key dest `prefix_of` k -> fs' !! k = fs !! k)
      (fun _ fs' => forall k, ~ path_key dest `prefix_of` k -> fs' !! k = fs !! k) fs;
  jm_git_law : forall o dir arguments fs,
    wp o (jm_git dir arguments) (fun _ fs' => forall k, ~ (path_key dir ++ [".git"]) `prefix_of` k -> fs' !! k = fs !! k)
      (fun _ fs' => forall k, ~ (path_key dir ++ [".git"]) `prefix_of` k -> fs' !! k = fs !! k) fs
}.

Section Run.
Context `{ManifestCodec} `{JobMachine}.

(** [cas.Materialize]. *)
Definition Materialize (service instance rootDigest destination : string) : M FS unit :=
  if negb (jm_digest rootDigest) then throw (ErrText "parse REAPI root digest") else
  _ ← os_MkdirAll destination;
  if bool_decide (service = "") || bool_decide (instance = "") then throw (ErrText "CAS service and instance are required") else
  _ ← jm_connect service instance;
  jm_Download rootDigest destination.

Definition prepareJobDirectory (jobDirectory : string) : M FS unit :=
  _ ← os_MkdirAll jobDirectory;
  _ ← may_fail;
  os_Chmod jobDirectory 448.

(** The log is opened for appending, handed to the user of the host, and its
    size is read. *)
Definition open_log (path : string) : M FS Z :=
  _ ← statement (fun fs => Ok (tt, match fs !! path_key path with Some _ => fs | None => <[path_key path := mkFile [] true 384]> fs end));
  _ ← may_fail;
  query (fun fs => match fs !! path_key path with Some f => Z.of_nat (length (fl_data f)) | None => 0 end).

Definition git_commands : list (list string) :=
  [["init"; "--quiet"]; ["add"; "--all"; "--force"];
   ["-c"; "user.name=autback"; "-c"; "user.email=autback@localhost"; "commit"; "--quiet"; "--allow-empty"; "--no-gpg-sign"; "--no-verify"; "-m"; "autback source snapshot"]].

Fixpoint run_git (workspace : string) (commands : list (list string)) : M FS unit :=
  match commands with [] => mret tt | c :: rest => _ ← jm_git workspace c; run_git workspace rest end.

Definition initializeGitBaseline (workspace : string) : M FS unit :=
  there ← query (fun fs => bool_decide (below (path_key (Join workspace ".git")) fs <> ∅));
  if there : bool then mret tt else
  git ← jm_LookPath;
  match git with
  | None => mret tt
  | Some false => throw (ErrText "find git")
  | Some true => run_git workspace git_commands
  end.

(** [finish]: what cannot be written is ignored. *)
Definition finish (jobDirectory status : string) (exitCode : Z) : M FS Z :=
  now ← time_Now;
  _ ← attempt (os_WriteFile (Join jobDirectory "result.json") (jm_result status exitCode now) 384);
  mret exitCode.

Definition RuntimeSecrets : string := "/run/autback/secrets".

Definition fallback (value defaultValue : string) : string := if bool_decide (value = "") then defaultValue else value.

(** The variables of the secrets, as the command gets them. *)
Definition secret_entries (values : RuntimeValues) : list string := map (fun '(name, value) => name +:+ "=" +:+ of_bytes value) (rv_Environment values).

(** What the command gets, once the workspace is ready. *)
Definition run_command (args : list string) (directory : string) (environment : list string) : M Worker (ContextState * CommandResult) :=
  fs ← on_store get_db;
  '(ctx, ran) ← on_store (jm_Command args directory environment);
  history ← on_runtime get_db;
  _ ← on_runtime (put_db (history ++ [mkRan args directory environment fs ctx ran]));
  mret (ctx, ran).

(** The workspace: what was there is removed, the tree is fetched, Git gets its
    baseline, and the directories of Autback are made. *)
Definition prepare_workspace (getenv : string -> string) (workspace : string) : M FS unit :=
  _ ← os_RemoveAll workspace;
  _ ← Materialize (getenv "AUTBACK_CAS_ADDRESS") (fallback (getenv "AUTBACK_CAS_INSTANCE") "autback") (getenv "AUTBACK_ROOT_DIGEST") workspace;
  _ ← initializeGitBaseline workspace;
  _ ← os_MkdirAll (Join (Join workspace ".autback") "tmp");
  os_MkdirAll (Join (Join workspace ".autback") "data").

(** The part of [run] after the output has been set up. *)
Definition run_job (args : list string) (getenv : string -> string) (environ : list string) (secrets : RuntimeValues) (workspace jobDirectory : string) : M Worker Z :=
  ready ← attempt (on_store (prepare_workspace getenv workspace));
  match ready with
  | Fail _ => on_store (finish jobDirectory "failed" 1)
  | Ok _ =>
      match resolveWorkingDirectory workspace (getenv "AUTBACK_WORKING_DIRECTORY") with
      | inr _ => on_store (finish jobDirectory "failed" 2)
      | inl directory =>
          '(ctx, ran) ← run_command args directory (mergeEnvironment environ (secret_entries secrets));
          let '(status, code) := entrypoint_result ctx ran in
          on_store (finish jobDirectory status code)
      end
  end.

(** The setup before that: the directory, the log and the secrets of the job. *)
Definition setup (getenv : string -> string) (jobDirectory : string) : M FS RuntimeValues :=
  _ ← prepareJobDirectory jobDirectory;
  _ ← open_log (Join jobDirectory "job.log");
  secrets ← LoadRuntime RuntimeSecrets;
  match NewWriter (Some tt) (map of_bytes (rv_Values secrets)) with
  | inl _ => mret secrets
  | inr e => throw e
  end.

(** [run], on the arguments after the name of the program. *)
Definition entrypoint_run (args : list string) (getenv : string -> string) (environ : list string) : M Worker Z :=
  match args with
  | [] => mret 2
  | _ =>
      let workspace := getenv "AUTBACK_WORKSPACE" in
      if bool_decide (workspace = "") then mret 2 else
      match hostIdentityFromEnvironment (getenv "AUTBACK_HOST_UID") (getenv "AUTBACK_HOST_GID") with
      | inr _ => mret 2
      | inl _ =>
          let jobDirectory := Dir workspace in
          s ← attempt (on_store (setup getenv jobDirectory));
          match s with
          | Fail _ => mret 1
          | Ok secrets => run_job args getenv environ secrets workspace jobDirectory
          end
      end
  end.

End Run.

(** ** What runs, and what is reported *)

Section RunTheorems.
Context `{ManifestCodec} `{JobMachine} (o : Oracle).
Implicit Types (fs : FS) (k : list string).

Lemma below_outside dir fs : below dir (outside dir fs) = ∅.
Proof using. apply map_eq. intros k. rewrite lookup_empty. apply map_lookup_filter_None_2. right. intros f Hf. apply map_lookup_filter_Some in Hf as [_ Hn]. exact Hn. Qed.

(** Only files below a directory have changed. *)
Definition same_outside (dir : list string) fs fs' : Prop := forall k, ~ dir `prefix_of` k -> fs' !! k = fs !! k.

Lemma same_outside_trans dir fs1 fs2 fs3 : same_outside dir fs1 fs2 -> same_outside dir fs2 fs3 -> same_outside dir fs1 fs3.
Proof using. intros H1 H2 k Hk. by rewrite H2, H1. Qed.

Context (workspace : string) (Habs : IsAbs workspace = true).
#[local] Abbreviation W := (path_key workspace).

Lemma git_key : path_key (Join workspace ".git") = W ++ [".git"].
Proof using Habs. by destruct (path_key_child workspace ".git" Habs). Qed.

Lemma git_below k : hd "" k <> ".git" -> ~ (W ++ [".git"]) `prefix_of` (W ++ k).
Proof using. intros Hk Hp. apply prefix_app_inv in Hp as [rest ->]. by apply Hk. Qed.

Lemma git_outside k : ~ W `prefix_of` k -> ~ (W ++ [".git"]) `prefix_of` k.
Proof using. intros Hk Hp. apply Hk. etrans; [|exact Hp]. by apply prefix_app_r. Qed.

Lemma run_git_spec commands fs :
  wp o (run_git workspace commands) (fun _ fs' => same_outside (W ++ [".git"]) fs fs') (fun _ fs' => same_outside (W ++ [".git"]) fs fs') fs.
Proof using.
  revert fs. induction commands as [|c commands IH]; intros fs; cbn [run_git]; [by apply wp_ret|]. apply wp_bind. eapply wp_mono; [apply jm_git_law| |done].
  intros ? fs1 H1. eapply wp_mono; [apply IH| |]; intros ? fs2 H2; exact (same_outside_trans _ _ _ _ H1 H2).
Qed.

Lemma git_baseline_spec fs :
  wp o (initializeGitBaseline workspace) (fun _ fs' => same_outside (W ++ [".git"]) fs fs') (fun _ fs' => same_outside (W ++ [".git"]) fs fs') fs.
Proof using.
  unfold initializeGitBaseline. apply wp_bind, wp_query; [|done]. destruct (bool_decide _); [by apply wp_ret|].
  apply wp_bind. eapply wp_mono; [apply jm_lookpath_law| |by intros e fs' ->]. intros git fs' ->. destruct git as [[]|]; [apply run_git_spec|by apply wp_throw|by apply wp_ret].
Qed.

(** The workspace holds the tree and nothing of what was there before. *)
Definition fetched (digest : string) fs : Prop := forall k, hd "" k <> ".git" -> fs !! (W ++ k) = jm_tree digest !! k.

Lemma prepare_workspace_spec getenv fs :
  wp o (prepare_workspace getenv workspace) (fun _ fs' => fetched (getenv "AUTBACK_ROOT_DIGEST") fs' /\ same_outside W fs fs') (fun _ fs' => same_outside W fs fs') fs.
Proof using.
  unfold prepare_workspace. apply wp_bind, wp_RemoveAll; [|done]. set (fs0 := outside W fs).
  assert (Hw0 : same_outside W fs fs0) by (intros k Hk; by apply lookup_outside). apply wp_bind. unfold Materialize.
  destruct (negb _); [by apply wp_throw|]. apply wp_bind, wp_may_fail; [|done]. destruct (_ || _); [by apply wp_throw|].
  apply wp_bind. eapply wp_mono; [apply jm_connect_law| |by intros e fs' ->]. intros ? fs' ->.
  eapply wp_mono; [apply jm_download_law, below_outside| |intros e fs1 H1; exact (same_outside_trans _ _ _ _ Hw0 H1)]. intros ? fs1 [Ht H1].
  pose proof (same_outside_trans _ _ _ _ Hw0 H1) as H01.
  assert (Hg : forall fs2, same_outside (W ++ [".git"]) fs1 fs2 -> fetched (getenv "AUTBACK_ROOT_DIGEST") fs2 /\ same_outside W fs fs2).
  { intros fs2 H2. split; [intros k Hk; rewrite H2 by (by apply git_below); apply Ht|]. intros k Hk. rewrite H2 by (by apply git_outside). by apply H01. }
  apply wp_bind. eapply wp_mono; [apply git_baseline_spec| |intros e fs2 H2; by apply Hg]. intros ? fs2 H2. destruct (Hg fs2 H2) as [Hf Hs].
  apply wp_bind, wp_may_fail; [|done]. by apply wp_may_fail.
Qed.

(** The directory of the command is the workspace or below it. *)
Lemma directory_below relative directory :
  resolveWorkingDirectory workspace relative = inl directory -> W `prefix_of` path_key directory.
Proof using Habs.
  unfold resolveWorkingDirectory. destruct (_ || _); [by intros [= <-]|]. destruct (IsAbs relative) eqn:Ea; [done|]. destruct (escapes _) eqn:Ee; [done|].
  intros [= <-]. destruct (inside_names _ Ea Ee) as [->|(names & Hne & Hn & ->)].
  - unfold Join. rewrite !bool_decide_eq_false_2 by (done || by intros ->).
    assert (Hs : IsAbs (workspace +:+ "/" +:+ ".") = true).
    { unfold IsAbs, HasPrefix in *. apply prefix_app_string in Habs as [r ->]. apply prefix_app_string. by eexists. }
    unfold Clean. rewrite Hs. unfold path_key at 2. rewrite clean_parts_abs by apply clean_parts_rooted.
    unfold path_key, clean_parts. change ("/" +:+ ".") with (String "/"%char "."). rewrite split_slash_sep, fold_left_app. done.
  - destruct (path_key_Join workspace names Habs Hne Hn) as [-> _]. by apply prefix_app_r.
Qed.

Lemma wp_finish (jobDirectory status : string) (code : Z) fs (Q : Z -> FS -> Prop) (E : Err -> FS -> Prop) :
  (forall fs', (reliable o -> exists f now, fs' !! path_key (Join jobDirectory "result.json") = Some f /\ fl_data f = jm_result status code now) -> Q code fs') ->
  wp o (finish jobDirectory status code) Q E fs.
Proof using.
  intros HQ. unfold finish. apply wp_bind, wp_now. intros now. apply wp_bind, wp_attempt, wp_WriteFile.
  - intros mode. apply wp_ret, HQ. intros _. eexists _, now. by rewrite lookup_insert_eq.
  - intros e f Hr. by apply wp_ret, HQ.
Qed.

(** What is known of a command that ran, and of the code that is returned. *)
Record ran_as_asked (args : list string) (getenv : string -> string) (environ : list string) (secrets : RuntimeValues) (code : Z) fs' (r : Ran) : Prop := {
  ra_args : rn_args r = args;
  ra_directory : W `prefix_of` path_key (rn_directory r);
  ra_environment : rn_environment r = mergeEnvironment environ (secret_entries secrets);
  ra_files : fetched (getenv "AUTBACK_ROOT_DIGEST") (rn_files r);
  ra_code : code = (entrypoint_result (rn_context r) (rn_result r)).2;
  ra_result : reliable o -> exists f now, fs' !! path_key (Join (Dir workspace) "result.json") = Some f /\
    fl_data f = jm_result (entrypoint_result (rn_context r) (rn_result r)).1 code now
}.

Lemma run_job_spec args getenv environ secrets fs history :
  wp o (run_job args getenv environ secrets workspace (Dir workspace))
    (fun code w => (w.2 = history /\ (code = 1 \/ code = 2)) \/
       exists r, w.2 = history ++ [r] /\ ran_as_asked args getenv environ secrets code w.1 r) (fun _ _ => False) (fs, history).
Proof using Habs.
  unfold run_job. apply wp_bind, wp_attempt, wp_on_store. eapply wp_mono; [apply prepare_workspace_spec| |].
  2:{ intros e fs1 _. apply wp_on_store, wp_finish. intros fs2 _. left. auto. }
  intros ? fs1 [Hf _]. destruct (resolveWorkingDirectory _ _) as [directory|e] eqn:Ed.
  2:{ apply wp_on_store, wp_finish. intros fs2 _. left. auto. }
  apply wp_bind. unfold run_command. apply wp_bind, wp_on_store, wp_get_db, wp_bind, wp_on_store.
  eapply wp_mono; [apply jm_command_law| |done]. intros [ctx ran] fs2 _. apply wp_bind, wp_on_runtime, wp_get_db, wp_bind, wp_on_runtime, wp_put_db, wp_ret.
  destruct (entrypoint_result ctx ran) as [status code] eqn:Ee. apply wp_on_store, wp_finish. intros fs3 Hres. right. eexists. split; [done|].
  split; cbn [rn_args rn_directory rn_environment rn_files rn_context rn_result fst]; rewrite ?Ee; try done. by eapply directory_below.
Qed.

Lemma unique_values_nonempty seen values l : unique_values seen values = Some l -> Forall (fun v => v <> "") values.
Proof using.
  revert seen l. induction values as [|v values IH]; intros seen l; cbn [unique_values]; [constructor|]. case_bool_decide as Ev; [done|]. case_bool_decide.
  - intros Hu. constructor; [done|]. by eapply IH.
  - destruct (unique_values (v :: seen) values) eqn:Eu; [|done]. intros _. constructor; [done|]. by eapply IH.
Qed.

(** [setup] reads the secrets of the job in the files as they are. *)
Lemma setup_spec getenv jobDirectory fs :
  wp o (setup getenv jobDirectory)
    (fun secrets _ => exists fs1 n w', LoadRuntime RuntimeSecrets o (fs1, n) = (Ok secrets, w') /\
       (forall k, k <> path_key (Join jobDirectory "job.log") -> fs1 !! k = fs !! k) /\ Forall (fun v => v <> []) (rv_Values secrets))
    (fun _ _ => True) fs.
Proof using.
  unfold setup, prepareJobDirectory. apply wp_bind, wp_bind, wp_may_fail; [|done]. apply wp_bind, wp_may_fail; [|done]. apply wp_may_fail; [|done].
  unfold open_log. apply wp_bind, wp_bind, wp_statement; [|done]. apply wp_bind, wp_may_fail; [|done]. apply wp_query; [|done].
  set (fs1 := match _ with Some _ => fs | None => _ end).
  assert (Hs : forall k, k <> path_key (Join jobDirectory "job.log") -> fs1 !! k = fs !! k).
  { intros k Hk. unfold fs1. destruct (fs !! path_key (Join jobDirectory "job.log")); [done|]. by rewrite lookup_insert_ne. }
  apply wp_bind. intros n. destruct (LoadRuntime RuntimeSecrets o (fs1, n)) as [[secrets|e] [fs2 n']] eqn:El; [|done].
  destruct (NewWriter (Some tt) (map of_bytes (rv_Values secrets))) as [w|e] eqn:Ew; [|by apply wp_throw]. apply wp_ret.
  exists fs1, n, (fs2, n'). split; [done|]. split; [done|]. unfold NewWriter in Ew. destruct (unique_values [] _) as [l|] eqn:Eu; [|done].
  apply unique_values_nonempty in Eu. apply Forall_forall. intros v Hv ->. refine (proj1 (Forall_forall _ _) Eu "" _ eq_refl). apply list_elem_of_fmap. by exists [].
Qed.

(** The command of a job runs at most once, in a workspace that holds exactly the
    tree of the job, with its secrets; the code and the result say how it ended.
    When it does not run, the code is that of a failure. *)
Lemma job_runs_in_its_tree args getenv environ fs history :
  getenv "AUTBACK_WORKSPACE" = workspace ->
  wp o (entrypoint_run args getenv environ)
    (fun code w => (w.2 = history /\ (code = 1 \/ code = 2)) \/
       exists r secrets fs1 n w', w.2 = history ++ [r] /\ args <> [] /\ ran_as_asked args getenv environ secrets code w.1 r /\
         LoadRuntime RuntimeSecrets o (fs1, n) = (Ok secrets, w') /\
         (forall k, k <> path_key (Join (Dir workspace) "job.log") -> fs1 !! k = fs !! k) /\ Forall (fun v => v <> []) (rv_Values secrets))
    (fun _ _ => False) (fs, history).
Proof using Habs.
  intros Hw. unfold entrypoint_run. destruct args as [|arg args]; [apply wp_ret; auto|]. rewrite Hw. case_bool_decide; [apply wp_ret; auto|].
  destruct (hostIdentityFromEnvironment _ _); [|apply wp_ret; auto]. cbv zeta. apply wp_bind, wp_attempt, wp_on_store.
  eapply wp_mono; [apply setup_spec| |intros e fs2 _; apply wp_ret; auto]. intros secrets fs2 (fs1 & n & w' & Hl & Hs & Hv).
  eapply wp_mono; [apply run_job_spec| |done]. intros code w [Hd|(r & Hr & Ha)]; [by left|right]. exists r, secrets, fs1, n, w'. done.
Qed.

End RunTheorems.
